(* ===== verification/_CoqProject ===== *)
-Q . S2P
Prelude.v
GoStrings.v
GoPath.v
GoText.v
GoRunes.v
GoJSON.v
GoRuntime.v
GoIO.v
GoScan.v
GoSort.v
Float64.v
GoTime.v
HostEngine.v
HostEvaluate.v
HostSustained.v
HostSpawn.v
Metrics.v
Arrays.v
HeapGraph.v
DomTheory.v
HeapLT.v
HeapCSR.v
HeapDFS.v
HeapDominators.v
HeapClasses.v
HeapRetained.v
GoHeap.v
HeapRank.v
HprofFormat.v
HprofGraph.v
HprofSafe.v
HprofDump.v
HprofExact.v
HprofParse.v
HprofAccept.v
HprofHistogram.v
HprofAgree.v
HeapPaths.v
HeapLeaks.v
HeapCompare.v
HeapText.v
HeapTheorems.v
NetPacket.v
NetProto.v
NetSummary.v
GoMaps.v
RulesEngine.v
ProcTree.v
Collapsed.v
SnapshotDiff.v
Fleet.v
ProcLinux.v
ProcFamily.v
SourceMap.v
Asar.v
ElectronFuse.v
CacheStore.v
CacheTTL.v
CacheWriter.v
HelperFrame.v
HelperDispatch.v
HelperClient.v
HelperMethods.v
