(* ===== verification/Prelude.v ===== *)
(** * Spectra: a verification development

    Spectra inspects macOS applications, processes, the network and JVM heaps.
    This library models eleven of its parts, as they are written under
    [src/internal], and proves what makes them correct.

    ** Parts and files

    - Heap analysis ([heap]): [ParseObjectGraph] reads an HPROF dump into an
      object graph, [ComputeRetained] computes dominators and retained sizes,
      [RankRetained] and [Dominators] report the largest objects,
      [PathsToGCRoots] finds what keeps an object alive, [LeakSuspects] reports
      where memory accumulates, [ParseHPROF] counts a class histogram,
      [ParseHistogram] reads one from text and [DefaultAnalyzer] compares two.
      - [HeapGraph]: [graph.go] (accessors, [graphBuilder]) and [roots.go]
        ([resolveRoots], [RootsOf]).
      - [DomTheory]: dominators and semidominators of a numbered flow graph,
        no code.  [HeapLT]: [lengauerTarjan], [compress], [eval].  [HeapCSR]: the
        counting passes of [predecessors] and [dominatorChildren].  [HeapDFS]:
        [dfsPreorder].  [HeapDominators], [HeapClasses], [HeapRetained]:
        [ComputeRetained], [aggregateClasses] and their theorems.
      - [GoHeap] ([container/heap]) and [HeapRank]: [topRetained],
        [rankClasses], [RankRetained], [Dominators].
      - [HeapPaths]: [paths.go].  [HeapLeaks]: [leaks.go].  [HeapCompare]:
        [analysis.go] and the comparison of [histogram.go].  [HeapText]: the
        text parser of [histogram.go].
      - [HprofFormat]: the readers of [hprof.go] and the root layouts of
        [roots.go].  [HprofGraph]: the parser of [graph.go].  [HprofHistogram]:
        the parser of [hprof.go].
      - [HprofDump]: dumps as data and their encoding.  [HprofSafe]: the graph
        parser on arbitrary bytes.  [HprofExact], [HprofParse]: the graph of an
        encoded dump.  [HprofAccept]: what the parser accepts.  [HprofAgree]:
        the histogram of a dump, and its relation to the graph.
      - [HeapTheorems]: the properties of the part.
    - Packet capture ([netcap], [netproto]): [NetPacket] models [pcap.go] and
      [packet.go]; [NetProto] models [dns.go], [tls.go] and [http.go];
      [NetSummary] models [summary.go] (the capture summary with TCP
      reassembly) and [tcpdump.go] (validated command lines).
    - Host watch ([hostwatch], [idgen]): [HostEngine] models [engine.go] (alerts
      with hysteresis by scope); [HostEvaluate] models [config.go],
      [classify.go] and the rules of [evaluate.go]; [HostSustained] models the
      tracker of [sustained.go]; [HostSpawn] models [spawn.go].
    - Live metrics ([metrics]): [Metrics] models [ring.go].
    - The privileged helper ([helper], [helperclient], [bundleid]): a daemon
      that runs as root and answers requests of unprivileged callers.
      [HelperFrame] models [framing.go]; [HelperDispatch] models
      [dispatcher.go] (requests, audit log, rate limit, connections);
      [HelperClient] models [client.go] against it; [HelperMethods] models the
      methods of [methods.go], the traces of [fsusage.go], the captures of
      [net_capture.go] and [bundleid.go].
    - The blob cache ([cache]): [CacheStore] models [sharded.go] over the system
      calls of [Put]; [CacheTTL] models [ttl.go] over an interface that
      [CacheStore] implements; [CacheWriter] models the goroutines of
      [async_writer.go].
    - Electron applications: [SourceMap] models [sourcemap], [Asar] models
      [asar], [ElectronFuse] models [electronfuse].
    - Rules ([rules]): [RulesEngine] models [engine.go], [types.go] and
      [overrides.go]: the evaluation of a catalog of rules over any kind of
      snapshot, and the files that disable rules or change their severity.
    - Processes ([process]): [ProcTree] models the attribution to bundles and
      [BuildTree] of [process.go], and the scoping of [tree.go]; [ProcLinux]
      models [proclinux.go], the scan of a procfs; [ProcFamily] models
      [family.go], which groups processes into families.  The record [Info] of
      [ProcTree] is what all three share.
    - Profiles ([profile]): [Collapsed] models [collapsed.go]: collapsed stacks,
      hot methods and the call tree.
    - Snapshots and fleets ([diff], [fleet]): [SnapshotDiff] models the compared
      fields of a snapshot and [diff.go]; [Fleet] models [fleet.go],
      [rollup_findings.go], [bisect.go] and [reconcile.go] over the snapshots
      and comparisons of [SnapshotDiff] and the rules of [RulesEngine].
    - The language and its library: this file (errors, panics, integers of a
      width, slices), [GoStrings], [GoText], [GoRunes], [GoPath] ([strings],
      [strconv], [path.Match], UTF-8), [GoIO] ([io]), [GoScan] ([bufio.Scanner]),
      [GoSort] (stable sorts), [GoTime] (dates), [GoJSON]
      ([encoding/json]: the grammar, decoding into Go values and encoding),
      [Float64] (IEEE 754 double arithmetic), [Arrays] (slices as arrays, sums,
      total correctness), [GoMaps] and [GoRuntime] (what Go leaves open).

    ** How the code is modelled

    A function that returns an error is a function into [outcome]; an index or
    slice expression out of range is [Panic], and so is a loop that exhausts its
    fuel, so every theorem that excludes [Panic] also shows that the fuel is
    enough.  State is passed explicitly; a record is updated field by field as
    the code does.  Integers are [Z] with the wrap-around of their width written
    out ([i32], [i64], [u32], ...).  Map iteration and the order of equal
    elements after [sort.Slice] are the class [GoRuntime]; theorems hold for all
    its instances that satisfy [RuntimeOk], and two instances are given.
    [wp m Q] says that [m] does not panic and that a value it returns satisfies
    [Q]; [runs m Q] says that [m] returns a value that satisfies [Q].

    ** What the theorems show

    - Heap: an encoded dump is parsed to the graph it depicts; any byte string is
      parsed without a panic to an invariant-satisfying graph or rejected; only
      encodings are accepted; retained sizes, immediate dominators and class
      totals are the ones defined over paths from the roots; the reports are
      sorted and complete; the histogram is exact and agrees with the graph;
      reported paths are root paths and the first is a shortest one; leak
      suspects are the top-level subtrees and classes over the threshold; a
      comparison has one exact change per identity; histogram text is read back.
    - Capture: decoders are safe on all inputs and invert the encoders; names
      of DNS are followed through eight compression pointers and no more;
      reassembly is sound under any loss, overlap and order and complete on
      gap-free streams; secrets in headers are redacted.
    - Host watch: alert state and events per evaluation and over histories, rules
      exact on the window (the trend of the load included), sustained load sound
      and live, spawn bursts refined to a count of new processes.
    - Metrics: rings hold the last samples, aggregates are exact.
    - Helper: whatever callers send, only fixed programs with checked arguments
      are run; captures belong to their callers (traces do not); the rate limit
      is exact; a call of the client through frames and JSON text returns what
      the method returned while both messages fit into a frame, and a definite
      error otherwise; a connection ends without a panic on every stream.
    - Cache: no interleaving or failure of puts shows a partial blob; no write
      accepted by the asynchronous writer is lost, with the two races it has;
      blobs are returned until they expire.
    - Electron: the text of a source map is decoded to its segments and a lookup
      is exact; an archive header gives its exact inventory whatever the map
      order, and differences are exact; fuses are decoded and audited.
    - Rules: the findings of a catalog are those of its enabled rules with their
      effective severities, stably sorted; override files are read back, and no
      bytes make their parser panic.
    - Processes: scoping keeps applications and their ancestors and returns
      exactly if the chains of parents do (a cycle makes it run forever); the
      tree is a partition; a scan of procfs reads every status line, whatever the
      name of the program, with start times exact up to 1067 days of uptime;
      families partition the processes and have exact sums and rankings.
    - Profiles: collapsed stacks are read back unless a frame has a space, which
      is refused; methods and tree nodes have the
      weights of the stacks that hold them, in an order independent of maps.
    - Snapshots and fleets: no change is reported exactly if everything compared
      agrees, and the comparison is symmetric; rollups partition the hosts;
      bisection finds the first bad snapshot; there is nothing to reconcile
      exactly if the target is met.

    ** Fuel

    Loops over a reader consume at least one byte per round and have the length
    of the input plus one as fuel; graph searches have a bound from the number of
    objects and edges; retry and pointer chains have the code's own limit; the
    JSON reader has the length of the text, and refuses nesting as deep as
    [encoding/json] does.  [ScopeTreeProcesses] has as fuel the rounds its loop
    may take per process: the number of processes is enough where the code
    returns, and no fuel is enough where it does not.  Chains of ancestors in
    [ProcFamily] have the code's limit of 64.

    ** Not modelled

    Code that only calls the operating system, third-party packages, databases
    or other processes (collectors, daemons, RPC, CLI rendering) is outside the
    model; so are the readers of the text output of other tools, which are
    regular expressions over formats that are not part of the program, and the
    catalog of rules, a list of comparisons of fields the collectors fill in.
    The manifest lists these parts.  Of the modelled parts: what the
    operating system answers to the helper (processes, files and their owners)
    is a record of functions, and so are the files of procfs and the user
    database; the records of a snapshot have the fields that are compared; the
    rules of a catalog are arbitrary functions; the texts of JSON errors are a parameter; requests
    of different connections are handled one after the other, where the code
    interleaves them between its locks; memory is not bounded, and decoding does
    not reuse the elements of an array for a repeated member. *)

From stdpp Require Export base list list_numbers numbers gmap strings pretty sorting.
From Stdlib Require Export Strings.Byte.
From Stdlib Require Import Lia.

Open Scope Z_scope.

(** ** Errors and outcomes

    A Go function that returns [(T, error)] is a function into [outcome T]:
    [Ok] is a nil error, [Err] a non-nil one, and [Panic] a run-time panic
    (an index or a slice expression out of range). *)

Inductive goerror :=
| io_EOF
| io_ErrUnexpectedEOF
| Errorf (msg : string)
| Wrapf (msg : string) (inner : goerror).

Fixpoint errors_is_EOF (e : goerror) : bool :=
  match e with
  | io_EOF => true
  | Wrapf _ e => errors_is_EOF e
  | _ => false
  end.

Inductive outcome (A : Type) :=
| Ok (a : A)
| Err (e : goerror)
| Panic.
Arguments Ok {A} a.
Arguments Err {A} e.
Arguments Panic {A}.

#[export] Instance outcome_ret : MRet outcome := @Ok.
#[export] Instance outcome_bind : MBind outcome := λ A B f m,
  match m with Ok a => f a | Err e => Err e | Panic => Panic end.

(** A loop model that runs out of fuel is a [Panic] too, so a proof that a
    function does not panic also shows that its fuel is enough. *)
Definition out_of_fuel {A} : outcome A := Panic.

(** [fmt.Errorf("msg: %w", err)] applied to the error of a call. *)
Definition wrap_err {A} (msg : string) (m : outcome A) : outcome A :=
  match m with Err e => Err (Wrapf msg e) | _ => m end.

#[export] Instance goerror_eq_dec : EqDecision goerror.
Proof. solve_decision. Defined.
#[export] Instance byte_eq_dec : EqDecision byte := Byte.byte_eq_dec.
#[export] Instance byte_countable : Countable byte := inj_countable Byte.to_N Byte.of_N Byte.of_to_N.

(** ** Weakest preconditions

    [wp m Q]: [m] does not panic, and if it returns a value then the value
    satisfies [Q].  The rules below are what the component proofs use. *)

Definition wp {A} (m : outcome A) (Q : A → Prop) : Prop :=
  match m with Ok a => Q a | Err _ => True | Panic => False end.

Lemma wp_ok {A} (a : A) (Q : A → Prop) : Q a → wp (Ok a) Q.
Proof. done. Qed.
Lemma wp_err {A} e (Q : A → Prop) : wp (Err e) Q.
Proof. done. Qed.
Lemma wp_bind {A B} (m : outcome A) (f : A → outcome B) Q :
  wp m (λ a, wp (f a) Q) → wp (m ≫= f) Q.
Proof. by destruct m. Qed.
Lemma wp_wrap_err {A} msg (m : outcome A) Q : wp m Q → wp (wrap_err msg m) Q.
Proof. by destruct m. Qed.
Lemma wp_mono {A} (m : outcome A) (P Q : A → Prop) :
  wp m P → (∀ a, P a → Q a) → wp m Q.
Proof. destruct m; simpl; auto. Qed.
Lemma wp_elim {A} (m : outcome A) Q a : wp m Q → m = Ok a → Q a.
Proof. by intros H ->. Qed.
Lemma wp_no_panic {A} (m : outcome A) Q : wp m Q → m ≠ Panic.
Proof. by destruct m. Qed.

(** ** Slices, indexing and byte order

    Go slices are lists; a Go [int] that indexes one is a [Z].  [slice l lo hi]
    is [l[lo:hi]].  Go allows [hi] up to the capacity; the model panics beyond
    the length, so a proof that the model does not panic also shows that the
    code never reads past a slice's length. *)

Definition len {A} (l : list A) : Z := Z.of_nat (length l).

Definition sub {A} (l : list A) (lo hi : Z) : list A :=
  take (Z.to_nat (hi - lo)) (drop (Z.to_nat lo) l).

Definition slice {A} (l : list A) (lo hi : Z) : outcome (list A) :=
  if (0 <=? lo) && (lo <=? hi) && (hi <=? len l) then Ok (sub l lo hi) else Panic.

(** [l[lo:]] *)
Definition slice_from {A} (l : list A) (lo : Z) : outcome (list A) := slice l lo (len l).

(** [l[i]] *)
Definition idx {A} (l : list A) (i : Z) : outcome A :=
  if 0 <=? i then match l !! Z.to_nat i with Some a => Ok a | None => Panic end else Panic.

(** [l[i] = a] *)
Definition set_idx {A} (l : list A) (i : Z) (a : A) : outcome (list A) :=
  if (0 <=? i) && (i <? len l) then Ok (<[Z.to_nat i := a]> l) else Panic.

Definition b2z (b : byte) : Z := Z.of_N (Byte.to_N b).
Definition z2b (z : Z) : byte :=
  match Byte.of_N (Z.to_N (z `mod` 256)) with Some b => b | None => "000"%byte end.

(** Big-endian value of a byte sequence ([binary.BigEndian]). *)
Fixpoint be_acc (acc : Z) (l : list byte) : Z :=
  match l with [] => acc | b :: l => be_acc (acc * 256 + b2z b) l end.
Definition be (l : list byte) : Z := be_acc 0 l.
(** Little-endian value ([binary.LittleEndian]). *)
Definition le (l : list byte) : Z := be (rev l).

Definition be_uint (n : nat) (l : list byte) : outcome Z :=
  if (length l <? n)%nat then Panic else Ok (be (take n l)).
Definition le_uint (n : nat) (l : list byte) : outcome Z :=
  if (length l <? n)%nat then Panic else Ok (le (take n l)).

Abbreviation be_u16 := (be_uint 2).
Abbreviation be_u32 := (be_uint 4).
Abbreviation be_u64 := (be_uint 8).

(** Encoders, the inverses used by the round-trip theorems. *)
Fixpoint le_bytes (n : nat) (z : Z) : list byte :=
  match n with O => [] | S n => z2b z :: le_bytes n (z `div` 256) end.
Definition be_bytes (n : nat) (z : Z) : list byte := rev (le_bytes n z).

(** Unsigned machine integers: arithmetic modulo [2^w]. *)
Definition wrap (w : Z) (z : Z) : Z := z `mod` 2 ^ w.
Abbreviation u8 := (wrap 8).
Abbreviation u16 := (wrap 16).
Abbreviation u32 := (wrap 32).
Abbreviation u64 := (wrap 64).
(** Signed 64-bit integers, two's complement. *)
Definition i64 (z : Z) : Z := (z + 2 ^ 63) `mod` 2 ^ 64 - 2 ^ 63.
(** Signed 32-bit integers. *)
Definition i32 (z : Z) : Z := (z + 2 ^ 31) `mod` 2 ^ 32 - 2 ^ 31.

(** *** Lemmas *)

Lemma len_nonneg {A} (l : list A) : 0 <= len l.
Proof. unfold len; lia. Qed.
Lemma len_nil {A} : len (@nil A) = 0.
Proof. done. Qed.
Lemma len_cons {A} (a : A) l : len (a :: l) = len l + 1.
Proof. unfold len; simpl; lia. Qed.
Lemma len_app {A} (l k : list A) : len (l ++ k) = len l + len k.
Proof. unfold len; rewrite length_app; lia. Qed.
Lemma len_sub {A} (l : list A) lo hi :
  0 <= lo <= hi → hi <= len l → len (sub l lo hi) = hi - lo.
Proof. unfold len, sub. rewrite length_take, length_drop. lia. Qed.
Lemma sub_all {A} (l : list A) : sub l 0 (len l) = l.
Proof. unfold sub, len. rewrite drop_0, take_ge; [done|lia]. Qed.
Lemma sub_sub {A} (l : list A) lo hi lo' hi' :
  0 <= lo <= hi → hi <= len l → 0 <= lo' <= hi' → hi' <= hi - lo →
  sub (sub l lo hi) lo' hi' = sub l (lo + lo') (lo + hi').
Proof.
  intros ????. unfold sub.
  rewrite (skipn_firstn_comm (Z.to_nat lo')), drop_drop, take_take.
  f_equal; [lia|]. f_equal; lia.
Qed.
Lemma slice_ok {A} (l : list A) lo hi :
  0 <= lo <= hi → hi <= len l → slice l lo hi = Ok (sub l lo hi).
Proof. intros ??. unfold slice. by rewrite !(proj2 (Z.leb_le _ _)) by lia. Qed.
Lemma slice_from_ok {A} (l : list A) lo :
  0 <= lo <= len l → slice_from l lo = Ok (sub l lo (len l)).
Proof. intros. apply slice_ok; lia. Qed.
Lemma idx_ok {A} (l : list A) i a : 0 <= i → l !! Z.to_nat i = Some a → idx l i = Ok a.
Proof. intros ? Hl. unfold idx. by rewrite (proj2 (Z.leb_le _ _)), Hl by lia. Qed.
Lemma idx_some {A} (l : list A) i : 0 <= i < len l → ∃ a, l !! Z.to_nat i = Some a ∧ idx l i = Ok a.
Proof.
  unfold len. intros. destruct (lookup_lt_is_Some_2 l (Z.to_nat i)) as [a Ha]; [lia|].
  exists a. split; [done|]. apply idx_ok; [lia|done].
Qed.

Lemma b2z_range b : 0 <= b2z b < 256.
Proof. unfold b2z. pose proof (Byte.to_N_bounded b). lia. Qed.
Lemma z2b_spec z : b2z (z2b z) = z `mod` 256.
Proof.
  unfold z2b, b2z. pose proof (Z.mod_pos_bound z 256).
  destruct (Byte.of_N (Z.to_N (z `mod` 256))) as [b|] eqn:E.
  - apply Byte.to_of_N in E. lia.
  - apply Byte.of_N_None_iff in E. lia.
Qed.
Lemma b2z_inj a b : b2z a = b2z b → a = b.
Proof.
  unfold b2z. intros H%N2Z.inj. pose proof (Byte.of_to_N a). pose proof (Byte.of_to_N b).
  congruence.
Qed.
Lemma z2b_b2z b : z2b (b2z b) = b.
Proof. apply b2z_inj. rewrite z2b_spec. apply Z.mod_small, b2z_range. Qed.

Lemma be_acc_bound l acc :
  0 <= acc → acc * 256 ^ len l <= be_acc acc l < (acc + 1) * 256 ^ len l.
Proof.
  revert acc. induction l as [|b l IH]; intros acc Hacc; simpl; [change (256 ^ len []) with 1; lia|].
  pose proof (b2z_range b). specialize (IH (acc * 256 + b2z b)).
  rewrite len_cons, Z.pow_add_r by (pose proof (len_nonneg l); lia).
  change (256 ^ 1) with 256. pose proof (Z.pow_pos_nonneg 256 (len l)).
  pose proof (len_nonneg l). nia.
Qed.
Lemma be_bound l : 0 <= be l < 256 ^ len l.
Proof. pose proof (be_acc_bound l 0). unfold be. lia. Qed.
Lemma be_acc_app acc l k : be_acc acc (l ++ k) = be_acc (be_acc acc l) k.
Proof. revert acc. induction l as [|b l IH]; intros; simpl; [done|apply IH]. Qed.
Lemma be_snoc l b : be (l ++ [b]) = be l * 256 + b2z b.
Proof. unfold be. by rewrite be_acc_app. Qed.

Lemma length_le_bytes n z : length (le_bytes n z) = n.
Proof. revert z. induction n; simpl; auto. Qed.
Lemma length_be_bytes n z : length (be_bytes n z) = n.
Proof. unfold be_bytes. by rewrite length_rev, length_le_bytes. Qed.
Lemma be_be_bytes n z : 0 <= z < 256 ^ Z.of_nat n → be (be_bytes n z) = z.
Proof.
  unfold be_bytes. revert z. induction n as [|n IH]; intros z Hz; simpl.
  { change (256 ^ Z.of_nat 0) with 1 in Hz. unfold be; simpl; lia. }
  rewrite be_snoc, z2b_spec, IH.
  - pose proof (Z.div_mod z 256). lia.
  - rewrite Nat2Z.inj_succ, Z.pow_succ_r in Hz by lia.
    split; [apply Z.div_pos; lia|apply Z.div_lt_upper_bound; lia].
Qed.
Lemma le_le_bytes n z : 0 <= z < 256 ^ Z.of_nat n → le (le_bytes n z) = z.
Proof. intros. unfold le. by apply be_be_bytes. Qed.
Lemma be_uint_app n z k :
  0 <= z < 256 ^ Z.of_nat n → be_uint n (be_bytes n z ++ k) = Ok z.
Proof.
  intros. unfold be_uint. rewrite (proj2 (Nat.ltb_ge _ _)) by (rewrite length_app, length_be_bytes; lia).
  rewrite take_app_length' by (by rewrite length_be_bytes). by rewrite be_be_bytes.
Qed.
Lemma le_uint_app n z k :
  0 <= z < 256 ^ Z.of_nat n → le_uint n (le_bytes n z ++ k) = Ok z.
Proof.
  intros. unfold le_uint. rewrite (proj2 (Nat.ltb_ge _ _)) by (rewrite length_app, length_le_bytes; lia).
  rewrite take_app_length' by (by rewrite length_le_bytes). by rewrite le_le_bytes.
Qed.
Lemma be_uint_range n l z : be_uint n l = Ok z → 0 <= z < 256 ^ Z.of_nat n.
Proof.
  unfold be_uint. destruct (Nat.ltb_spec (length l) n); [done|]. intros [= <-].
  pose proof (be_bound (take n l)) as Hb. unfold len in Hb. rewrite length_take in Hb.
  by replace (n `min` length l)%nat with n in Hb by lia.
Qed.
Lemma le_uint_range n l z : le_uint n l = Ok z → 0 <= z < 256 ^ Z.of_nat n.
Proof.
  unfold le_uint. destruct (Nat.ltb_spec (length l) n); [done|]. intros [= <-].
  unfold le. pose proof (be_bound (rev (take n l))) as Hb. unfold len in Hb.
  rewrite length_rev, length_take in Hb.
  by replace (n `min` length l)%nat with n in Hb by lia.
Qed.

Lemma wrap_range w z : 0 <= w → 0 <= wrap w z < 2 ^ w.
Proof. intros. apply Z.mod_pos_bound, Z.pow_pos_nonneg; lia. Qed.
Lemma wrap_small w z : 0 <= z < 2 ^ w → wrap w z = z.
Proof. apply Z.mod_small. Qed.
Lemma wrap_add_l w a b : wrap w (wrap w a + b) = wrap w (a + b).
Proof. unfold wrap. apply Zplus_mod_idemp_l. Qed.
Lemma wrap_add_r w a b : wrap w (a + wrap w b) = wrap w (a + b).
Proof. unfold wrap. apply Zplus_mod_idemp_r. Qed.
Lemma wrap_sub_l w a b : wrap w (wrap w a - b) = wrap w (a - b).
Proof. unfold wrap. apply Zminus_mod_idemp_l. Qed.
Lemma i64_small z : - 2 ^ 63 <= z < 2 ^ 63 → i64 z = z.
Proof. intros. unfold i64. rewrite Z.mod_small; lia. Qed.
Lemma i64_add a b : i64 (i64 a + b) = i64 (a + b).
Proof.
  unfold i64. f_equal. replace ((a + 2 ^ 63) `mod` 2 ^ 64 - 2 ^ 63 + b + 2 ^ 63) with ((a + 2 ^ 63) `mod` 2 ^ 64 + b) by lia.
  rewrite Zplus_mod_idemp_l. f_equal. lia.
Qed.
Lemma i64_add_r a b : i64 (a + i64 b) = i64 (a + b).
Proof. rewrite Z.add_comm, i64_add. f_equal. lia. Qed.
Lemma i64_add_mod a b : i64 (i64 a + i64 b) = i64 (a + b).
Proof. by rewrite i64_add, i64_add_r. Qed.
Lemma i32_small z : - 2 ^ 31 <= z < 2 ^ 31 → i32 z = z.
Proof. intros. unfold i32. rewrite Z.mod_small; lia. Qed.
Lemma i64_range z : - 2 ^ 63 <= i64 z < 2 ^ 63.
Proof. unfold i64. pose proof (Z.mod_pos_bound (z + 2 ^ 63) (2 ^ 64)). lia. Qed.

(** A bitwise or of disjoint fields is a sum. *)
Lemma lor_shiftl_add a b n : 0 <= n → 0 <= b < 2 ^ n → Z.lor (Z.shiftl a n) b = a * 2 ^ n + b.
Proof.
  intros Hn Hb. rewrite <-Z.shiftl_mul_pow2 by done. rewrite <-Z.add_lor_land.
  enough (Z.land (Z.shiftl a n) b = 0) as -> by lia. apply Z.bits_inj'. intros i Hi.
  rewrite Z.land_spec, Z.bits_0. destruct (Z.ltb_spec i n).
  - by rewrite Z.shiftl_spec_low.
  - rewrite <-(Z.mod_small b (2 ^ n)), Z.mod_pow2_bits_high by lia. apply andb_false_r.
Qed.

(** *** Rules for the primitives *)

Lemma wp_slice {A} (l : list A) lo hi Q :
  0 <= lo <= hi → hi <= len l → (len (sub l lo hi) = hi - lo → Q (sub l lo hi)) →
  wp (slice l lo hi) Q.
Proof. intros ?? HQ. rewrite slice_ok by lia. apply HQ, len_sub; lia. Qed.
Lemma wp_slice_from {A} (l : list A) lo Q :
  0 <= lo <= len l → (len (sub l lo (len l)) = len l - lo → Q (sub l lo (len l))) →
  wp (slice_from l lo) Q.
Proof. intros ? HQ. apply wp_slice; [lia..|]. done. Qed.
Lemma wp_idx {A} (l : list A) i Q :
  0 <= i < len l → (∀ a, l !! Z.to_nat i = Some a → Q a) → wp (idx l i) Q.
Proof. intros Hi HQ. destruct (idx_some l i Hi) as (a & Ha & ->). by apply HQ. Qed.
Lemma wp_set_idx {A} (l : list A) i a Q :
  0 <= i < len l → (Q (<[Z.to_nat i := a]> l)) → wp (set_idx l i a) Q.
Proof.
  intros Hi HQ. unfold set_idx.
  by rewrite (proj2 (Z.leb_le _ _)), (proj2 (Z.ltb_lt _ _)) by lia.
Qed.
Lemma wp_be_uint n l Q :
  Z.of_nat n <= len l → (∀ z, 0 <= z < 256 ^ Z.of_nat n → z = be (take n l) → Q z) →
  wp (be_uint n l) Q.
Proof.
  intros Hn HQ. destruct (be_uint n l) as [z| |] eqn:E; simpl; [|done|].
  - apply HQ; [by eapply be_uint_range|]. revert E. unfold be_uint.
    destruct (Nat.ltb_spec (length l) n); congruence.
  - revert E. unfold be_uint, len in *. destruct (Nat.ltb_spec (length l) n); [lia|done].
Qed.
Lemma wp_le_uint n l Q :
  Z.of_nat n <= len l → (∀ z, 0 <= z < 256 ^ Z.of_nat n → z = le (take n l) → Q z) →
  wp (le_uint n l) Q.
Proof.
  intros Hn HQ. destruct (le_uint n l) as [z| |] eqn:E; simpl; [|done|].
  - apply HQ; [by eapply le_uint_range|]. revert E. unfold le_uint.
    destruct (Nat.ltb_spec (length l) n); congruence.
  - revert E. unfold le_uint, len in *. destruct (Nat.ltb_spec (length l) n); [lia|done].
Qed.

Lemma wp_if {A} (b : bool) (m1 m2 : outcome A) Q :
  (b = true → wp m1 Q) → (b = false → wp m2 Q) → wp (if b then m1 else m2) Q.
Proof. by destruct b; auto. Qed.

(** ** Automation *)

(** Boolean comparisons in the context become propositions. *)
Ltac to_prop :=
  repeat match goal with
  | H : (_ && _) = true |- _ => apply andb_prop in H as [? ?]
  | H : (_ && _) = false |- _ => apply andb_false_iff in H
  | H : (_ || _) = false |- _ => apply orb_false_iff in H as [? ?]
  | H : (_ || _) = true |- _ => apply orb_true_iff in H
  | H : negb _ = true |- _ => apply negb_true_iff in H
  | H : negb _ = false |- _ => apply negb_false_iff in H
  | H : (_ <? _) = true |- _ => apply Z.ltb_lt in H
  | H : (_ <? _) = false |- _ => apply Z.ltb_ge in H
  | H : (_ <=? _) = true |- _ => apply Z.leb_le in H
  | H : (_ <=? _) = false |- _ => apply Z.leb_gt in H
  | H : (_ =? _) = true |- _ => apply Z.eqb_eq in H
  | H : (_ =? _) = false |- _ => apply Z.eqb_neq in H
  | H : bool_decide _ = true |- _ => apply bool_decide_eq_true in H
  | H : bool_decide _ = false |- _ => apply bool_decide_eq_false in H
  | H : Is_true _ |- _ => apply Is_true_true in H
  end.

(** Lengths and byte ranges are non-negative; used before [lia]. *)
Ltac len_facts :=
  repeat match goal with
  | |- context [len ?l] => lazymatch goal with H : 0 <= len l |- _ => fail | _ => pose proof (len_nonneg l) end
  | _ : context [len ?l] |- _ => lazymatch goal with H : 0 <= len l |- _ => fail | _ => pose proof (len_nonneg l) end
  | |- context [b2z ?b] => lazymatch goal with H : 0 <= b2z b < 256 |- _ => fail | _ => pose proof (b2z_range b) end
  | _ : context [b2z ?b] |- _ => lazymatch goal with H : 0 <= b2z b < 256 |- _ => fail | _ => pose proof (b2z_range b) end
  end.
Ltac glia := to_prop; len_facts; simpl length in *; change (Z.of_nat 1) with 1 in *; change (Z.of_nat 2) with 2 in *; change (Z.of_nat 4) with 4 in *; change (Z.of_nat 8) with 8 in *; lia.

Create HintDb spectra.

(** One step of weakest-precondition reasoning through a handler. *)
Ltac wp_step :=
  lazymatch goal with
  | |- wp (Ok _) _ => apply wp_ok
  | |- wp (mret _) _ => apply wp_ok
  | |- wp (Err _) _ => exact I
  | |- wp (wrap_err _ _) _ => apply wp_wrap_err
  | |- wp (_ ≫= _) _ => apply wp_bind
  | |- wp (if _ then _ else _) _ => apply wp_if; intros ?
  | |- wp (slice _ _ _) _ => apply wp_slice; [glia..|intros ?]
  | |- wp (slice_from _ _) _ => apply wp_slice_from; [glia|intros ?]
  | |- wp (idx _ _) _ => apply wp_idx; [glia|intros ? ?]
  | |- wp (be_uint _ _) _ => apply wp_be_uint; [glia|intros ? ? ?]
  | |- wp (le_uint _ _) _ => apply wp_le_uint; [glia|intros ? ? ?]
  | |- wp (match ?x with _ => _ end) _ => destruct x eqn:?
  | |- wp _ _ => solve [eauto with spectra]
  end; cbv beta.
Ltac wp_go := repeat (wp_step; to_prop).

(** *** Reading fields out of concatenated encodings *)

Lemma len_be_bytes n z : len (be_bytes n z) = Z.of_nat n.
Proof. unfold len. by rewrite length_be_bytes. Qed.
Lemma len_le_bytes n z : len (le_bytes n z) = Z.of_nat n.
Proof. unfold len. by rewrite length_le_bytes. Qed.
Lemma sub_skip {A} (a b : list A) lo hi :
  len a <= lo → sub (a ++ b) lo hi = sub b (lo - len a) (hi - len a).
Proof.
  unfold len, sub. intros. rewrite drop_app_ge by lia. f_equal; [lia|].
  f_equal. lia.
Qed.
Lemma slice_skip {A} (a b : list A) lo hi :
  len a <= lo → slice (a ++ b) lo hi = slice b (lo - len a) (hi - len a).
Proof.
  intros. unfold slice. rewrite sub_skip, len_app by done. pose proof (len_nonneg a).
  destruct (Z.leb_spec 0 lo), (Z.leb_spec 0 (lo - len a)), (Z.leb_spec lo hi),
    (Z.leb_spec (lo - len a) (hi - len a)), (Z.leb_spec hi (len a + len b)),
    (Z.leb_spec (hi - len a) (len b)); simpl; done || lia.
Qed.
Lemma sub_head {A} (a b : list A) n : len a = n → sub (a ++ b) 0 n = a.
Proof. unfold len, sub. intros <-. rewrite drop_0. apply take_app_length'. lia. Qed.
Lemma slice_head {A} (a b : list A) n : len a = n → slice (a ++ b) 0 n = Ok a.
Proof.
  intros Ha. rewrite slice_ok, sub_head; [done..|rewrite <-Ha; split; [lia|apply len_nonneg]|].
  rewrite len_app, Ha. pose proof (len_nonneg b). lia.
Qed.
Lemma slice_all {A} (a : list A) n : len a = n → slice a 0 n = Ok a.
Proof. intros. rewrite <-(app_nil_r a) at 1. by apply slice_head. Qed.
Lemma slice_head' {A} (a b : list A) lo hi : lo = 0 → hi = len a → slice (a ++ b) lo hi = Ok a.
Proof. intros -> ->. by apply slice_head. Qed.
Lemma slice_all' {A} (a : list A) lo hi : lo = 0 → hi = len a → slice a lo hi = Ok a.
Proof. intros -> ->. by apply slice_all. Qed.
Lemma idx_skip {A} (a b : list A) i : len a <= i → idx (a ++ b) i = idx b (i - len a).
Proof.
  intros. unfold idx. pose proof (len_nonneg a).
  rewrite !(proj2 (Z.leb_le _ _)) by lia. rewrite lookup_app_r by (unfold len in *; lia).
  unfold len. by replace (Z.to_nat i - length a)%nat with (Z.to_nat (i - Z.of_nat (length a))) by lia.
Qed.
Lemma idx_head {A} (a : A) (l : list A) i : i = 0 → idx ([a] ++ l) i = Ok a.
Proof. by intros ->. Qed.
Lemma be_uint_be_bytes n z : 0 <= z < 256 ^ Z.of_nat n → be_uint n (be_bytes n z) = Ok z.
Proof. intros. rewrite <-(app_nil_r (be_bytes n z)). by apply be_uint_app. Qed.
Lemma le_uint_le_bytes n z : 0 <= z < 256 ^ Z.of_nat n → le_uint n (le_bytes n z) = Ok z.
Proof. intros. rewrite <-(app_nil_r (le_bytes n z)). by apply le_uint_app. Qed.
Lemma bind_ok {A B} (a : A) (f : A → outcome B) : (Ok a ≫= f) = f a.
Proof. done. Qed.

Lemma bind_bind {A B C} (m : outcome A) (f : A → outcome B) (g : B → outcome C) :
  ((m ≫= f) ≫= g) = (m ≫= λ a, f a ≫= g).
Proof. by destruct m. Qed.

Create Rewrite HintDb len.
#[export] Hint Rewrite @len_app @len_cons @len_nil len_be_bytes len_le_bytes : len.
Ltac len_lia := autorewrite with len; glia.

(** Fold differences of numerals. *)
Ltac is_pos p := lazymatch p with xH => idtac | xO ?p => is_pos p | xI ?p => is_pos p end.
Ltac is_num z := lazymatch z with Z0 => idtac | Zpos ?p => is_pos p | Zneg ?p => is_pos p end.
Ltac znum :=
  repeat match goal with
  | |- context [?a - ?b] =>
    is_num a; is_num b;
    let r := eval vm_compute in (a - b) in change (a - b) with r
  end.

(** Evaluate one read of an encoding, in a goal [read = Ok ?v]. *)
Ltac eval_read :=
  repeat first [rewrite slice_skip by len_lia | rewrite idx_skip by len_lia];
  autorewrite with len; simpl Z.of_nat; znum;
  first [ apply slice_head'; len_lia | apply slice_all'; len_lia | apply idx_head; len_lia
        | apply be_uint_be_bytes; lia | apply le_uint_le_bytes; lia ].

(** Read the fields of an encoding one after the other. *)
Ltac read_field :=
  lazymatch goal with
  | |- (Ok _ ≫= _) = _ => rewrite bind_ok
  | |- ((_ ≫= _) ≫= _) = _ => rewrite bind_bind
  | |- (?m ≫= _) = _ =>
    lazymatch m with
    | slice _ _ _ => idtac | idx _ _ => idtac | be_uint _ _ => idtac | le_uint _ _ => idtac
    end;
    let H := fresh in
    eassert (m = Ok _) as H by eval_read; rewrite H; clear H
  end; cbv beta.
Ltac read_fields := repeat read_field.

(** Decide a boolean guard by arithmetic and take the branch it selects. *)
Ltac bool_solve :=
  repeat lazymatch goal with
  | |- _ || _ = false => apply orb_false_iff; split
  | |- _ && _ = true => apply andb_true_intro; split
  | |- negb _ = true => apply negb_true_iff
  | |- negb _ = false => apply negb_false_iff
  | |- (_ <? _) = true => apply Z.ltb_lt
  | |- (_ <? _) = false => apply Z.ltb_ge
  | |- (_ <=? _) = true => apply Z.leb_le
  | |- (_ <=? _) = false => apply Z.leb_gt
  | |- (_ =? _) = true => apply Z.eqb_eq
  | |- (_ =? _) = false => apply Z.eqb_neq
  end; solve [len_lia | reflexivity].
Ltac branch :=
  match goal with
  | |- context [if ?c then _ else _] =>
    first [ replace c with false by (symmetry; bool_solve)
          | replace c with true by (symmetry; bool_solve) ]
  end; cbv iota.

(** The high and low nibbles of a byte built from them. *)
Lemma nibbles h l :
  0 <= h < 16 → 0 <= l < 16 →
  b2z (z2b (h * 16 + l)) = h * 16 + l ∧
  Z.shiftr (h * 16 + l) 4 = h ∧ Z.land (h * 16 + l) 15 = l.
Proof.
  intros. split_and!.
  - rewrite z2b_spec. apply Z.mod_small. lia.
  - rewrite Z.shiftr_div_pow2 by lia. change (2 ^ 4) with 16. symmetry. apply Z.div_unique with l; lia.
  - change 15 with (Z.ones 4). rewrite Z.land_ones by lia. change (2 ^ 4) with 16.
    symmetry. apply Z.mod_unique with h; lia.
Qed.
