(* ===== verification/GoStrings.v ===== *)
(** * The string library of Go, as far as the program uses it

    A Go string is a sequence of bytes, which is what Rocq's [string] is.
    Functions on ASCII are definitions; what depends on the Unicode tables
    (lower-casing of non-ASCII text) is an operation of the class [Unicode],
    which the definitions that use it take as a parameter. *)

From S2P Require Import Prelude.
From Stdlib Require Import Ascii.

Abbreviation char := Ascii.ascii.

Definition strlen (s : string) : Z := Z.of_nat (String.length s).
Definition string_of_bytes : list byte → string := String.string_of_list_byte.
Definition bytes_of_string : string → list byte := String.list_byte_of_string.

Definition c2z (c : char) : Z := Z.of_N (Ascii.N_of_ascii c).
Definition z2c (z : Z) : char := Ascii.ascii_of_N (Z.to_N (z `mod` 256)).

(** ** Formatting *)

Definition hex_digit (n : Z) : char :=
  match String.get (Z.to_nat (n `mod` 16)) "0123456789abcdef" with
  | Some c => c | None => "0"%char end.

(** [%02x] of a byte. *)
Definition hex2 (z : Z) : string := String (hex_digit (z `div` 16)) (String (hex_digit z) "").
(** [%x] of a byte slice. *)
Definition hex_bytes (l : list byte) : string :=
  fold_right (λ b s, hex2 (b2z b) +:+ s) "" l.

(** [%x] of an unsigned integer; [fuel] is the number of hex digits allowed. *)
Fixpoint hex_go (fuel : nat) (z : Z) (acc : string) : string :=
  match fuel with
  | O => acc
  | S fuel =>
    let acc := String (hex_digit z) acc in
    if z <? 16 then acc else hex_go fuel (z `div` 16) acc
  end.
Definition hex (z : Z) : string := hex_go 16 z "".

(** [%d] *)
Definition itoa (z : Z) : string := pretty z.

(** ** Searching and splitting *)

Definition HasPrefix (s p : string) : bool := String.prefix p s.

(** [strings.Index]: the first position of [sub] in [s], or -1. *)
Fixpoint Index (s sub : string) : Z :=
  if HasPrefix s sub then 0 else
  match s with
  | "" => -1
  | String _ s' => let i := Index s' sub in if i <? 0 then -1 else i + 1
  end.
Definition Contains (s sub : string) : bool := 0 <=? Index s sub.

(** [s[:n]] and [s[n:]] for a position inside the string. *)
Definition str_take (n : Z) (s : string) : string := String.substring 0 (Z.to_nat n) s.
Fixpoint str_drop_nat (n : nat) (s : string) : string :=
  match n, s with
  | O, _ => s
  | S n, String _ s => str_drop_nat n s
  | S _, "" => ""
  end.
Definition str_drop (n : Z) (s : string) : string := str_drop_nat (Z.to_nat n) s.

(** [strings.Cut(s, sep)] for a one-byte separator. *)
Fixpoint Cut (s : string) (sep : char) : option (string * string) :=
  match s with
  | "" => None
  | String c s' =>
    if Ascii.eqb c sep then Some ("", s')
    else match Cut s' sep with
         | Some (a, b) => Some (String c a, b)
         | None => None
         end
  end.

(** [strings.SplitN(s, sep, n)] for a one-byte separator and [n > 0];
    [strings.Split] is the case of an [n] no string reaches. *)
Fixpoint SplitN (s : string) (sep : char) (n : nat) : list string :=
  match n with
  | O => []
  | S O => [s]
  | S n => match Cut s sep with
           | Some (a, b) => a :: SplitN b sep n
           | None => [s]
           end
  end.
Definition Split (s : string) (sep : char) : list string := SplitN s sep (S (String.length s)).

(** [strings.Join] *)
Fixpoint Join (parts : list string) (sep : string) : string :=
  match parts with
  | [] => ""
  | [p] => p
  | p :: parts => p +:+ sep +:+ Join parts sep
  end.

(** ** Case and space *)

Definition is_upper (c : char) : bool := (65 <=? c2z c) && (c2z c <=? 90).
Definition is_lower (c : char) : bool := (97 <=? c2z c) && (c2z c <=? 122).
Definition is_digit (c : char) : bool := (48 <=? c2z c) && (c2z c <=? 57).
Definition lower_char (c : char) : char := if is_upper c then z2c (c2z c + 32) else c.
Definition upper_char (c : char) : char := if is_lower c then z2c (c2z c - 32) else c.

Fixpoint str_map (f : char → char) (s : string) : string :=
  match s with "" => "" | String c s => String (f c) (str_map f s) end.
Fixpoint str_forall (p : char → bool) (s : string) : bool :=
  match s with "" => true | String c s => p c && str_forall p s end.

Definition is_ascii (s : string) : bool := str_forall (λ c, c2z c <? 128) s.

(** The parts of the [strings] package that need the Unicode tables: the
    mapping of a string that is not ASCII, and the trimming of a string whose
    end reaches a non-ASCII byte. *)
Class Unicode := {
  map_lower : string → string;
  map_upper : string → string;
  trim_func_space : string → string }.

(** An instance without the tables, to evaluate examples on ASCII text. *)
Definition ascii_only : Unicode :=
  {| map_lower := str_map lower_char; map_upper := str_map upper_char; trim_func_space := λ s, s |}.

Section WithUnicode.
Context `{Unicode}.

(** [strings.ToLower] and [strings.ToUpper]: an ASCII fast path, else
    [strings.Map(unicode.ToLower, s)]. *)
Definition ToLower (s : string) : string :=
  if is_ascii s then str_map lower_char s else map_lower s.
Definition ToUpper (s : string) : string :=
  if is_ascii s then str_map upper_char s else map_upper s.

Definition ascii_space (c : char) : bool :=
  existsb (Z.eqb (c2z c)) [9; 10; 11; 12; 13; 32].

(** [strings.TrimSpace]: trim ASCII space from the left and then from the
    right, and fall back to [TrimFunc(s, unicode.IsSpace)] at the first byte
    that is not ASCII. *)
Fixpoint trim_left (s : string) : string :=
  match s with
  | "" => ""
  | String c s' => if ascii_space c then trim_left s' else s
  end.
Fixpoint str_rev (s acc : string) : string :=
  match s with "" => acc | String c s => str_rev s (String c acc) end.
Definition head_non_ascii (s : string) : bool :=
  match s with String c _ => 128 <=? c2z c | "" => false end.

Definition TrimSpace (s : string) : string :=
  let s := trim_left s in
  if head_non_ascii s then trim_func_space s else
  let r := trim_left (str_rev s "") in
  if head_non_ascii r then trim_func_space (str_rev r "") else str_rev r "".

End WithUnicode.

(** ** Parsing integers *)

Fixpoint digits_val (s : string) (acc : Z) : option Z :=
  match s with
  | "" => Some acc
  | String c s => if is_digit c then digits_val s (acc * 10 + (c2z c - 48)) else None
  end.

(** [strconv.ParseInt(s, 10, 64)] and [strconv.Atoi] (which is the same on a
    64-bit platform): an optional sign, at least one digit, and the range of
    [int64]. *)
Definition ParseInt (s : string) : option Z :=
  let '(neg, body) :=
    match s with
    | String "-" b => (true, b)
    | String "+" b => (false, b)
    | _ => (false, s)
    end in
  match body with
  | "" => None
  | _ => v ← digits_val body 0;
         let v := if neg : bool then - v else v in
         if (- 2 ^ 63 <=? v) && (v <? 2 ^ 63) then Some v else None
  end.
Definition Atoi := ParseInt.

(** ** Lemmas *)

Lemma string_of_bytes_of_string s : string_of_bytes (bytes_of_string s) = s.
Proof. apply String.string_of_list_byte_of_string. Qed.
Lemma bytes_of_string_of_bytes l : bytes_of_string (string_of_bytes l) = l.
Proof. apply String.list_byte_of_string_of_list_byte. Qed.

Lemma str_app_assoc (a b c : string) : (a +:+ b) +:+ c = a +:+ (b +:+ c).
Proof. induction a; simpl; [done|]. unfold String.app in *. simpl. by f_equal. Qed.
Lemma str_app_nil_r (a : string) : a +:+ "" = a.
Proof. induction a; [done|]. unfold String.app in *. simpl. by f_equal. Qed.

(** Joining a joined tail is joining the whole list. *)
Lemma Join_cons p parts sep : parts ≠ [] → Join (p :: parts) sep = p +:+ sep +:+ Join parts sep.
Proof. by destruct parts. Qed.
Lemma Join_snoc_Join parts rest sep :
  rest ≠ [] → Join (parts ++ [Join rest sep]) sep = Join (parts ++ rest) sep.
Proof.
  intros Hr. induction parts as [|p parts IH]; [done|].
  change ((p :: parts) ++ ?l) with (p :: (parts ++ l)).
  rewrite !Join_cons, IH; [done| |]; destruct parts; [by destruct rest|done..].
Qed.

Lemma Index_range s sub : -1 <= Index s sub <= strlen s.
Proof.
  unfold strlen. induction s as [|c s IH]; simpl Index; case_match; simpl; try lia.
  destruct (Z.ltb_spec (Index s sub) 0); lia.
Qed.

Lemma Cut_length s sep a b : Cut s sep = Some (a, b) →
  String.length s = (String.length a + S (String.length b))%nat.
Proof.
  revert a. induction s as [|c s IH]; intros a; simpl; [done|].
  destruct (Ascii.eqb c sep); [by intros [= <- <-]|].
  destruct (Cut s sep) as [[a' b']|]; [|done]. intros [= <- <-]. simpl. by rewrite (IH a').
Qed.

Lemma HasPrefix_app p s t : HasPrefix s p = true → HasPrefix (s +:+ t) p = true.
Proof.
  unfold HasPrefix. revert s. induction p as [|c p IH]; intros [|d s]; simpl; try done.
  { intros _. by destruct (_ +:+ _). }
  change (String d s +:+ t) with (String d (s +:+ t)). simpl.
  destruct (ascii_dec c d); [apply IH|done].
Qed.
Lemma HasPrefix_app_short p s t : (String.length p <= String.length s)%nat →
  HasPrefix (s +:+ t) p = HasPrefix s p.
Proof.
  unfold HasPrefix. revert s. induction p as [|c p IH]; intros s Hl.
  { by destruct s, (_ +:+ _). }
  destruct s as [|d s]; simpl in *; [lia|]. change (String d s +:+ t) with (String d (s +:+ t)). simpl.
  destruct (ascii_dec c d); [apply IH; lia|done].
Qed.
Lemma HasPrefix_length p s : HasPrefix s p = true → (String.length p <= String.length s)%nat.
Proof.
  unfold HasPrefix. revert s. induction p as [|c p IH]; intros [|d s]; simpl; try done; try lia.
  destruct (ascii_dec c d); [|done]. intros ?%IH. lia.
Qed.
(** A found occurrence lies inside the string, and text appended after it does
    not change where the first occurrence is. *)
Lemma Index_found s sub : 0 <= Index s sub → Index s sub + strlen sub <= strlen s.
Proof.
  unfold strlen. induction s as [|c s IH]; cbn [Index]; intros Hi.
  - destruct (HasPrefix "" sub) eqn:E; [|lia]. apply HasPrefix_length in E. simpl in *. lia.
  - destruct (HasPrefix (String c s) sub) eqn:E.
    + apply HasPrefix_length in E. lia.
    + cbv zeta in *. destruct (Z.ltb_spec (Index s sub) 0); [lia|]. simpl. lia.
Qed.
Lemma Index_app s sub t : 0 <= Index s sub → Index (s +:+ t) sub = Index s sub.
Proof.
  induction s as [|c s IH]; intros Hi.
  - cbn [Index] in *. destruct (HasPrefix "" sub) eqn:E; [|lia].
    apply (HasPrefix_app _ _ t) in E. change ("" +:+ t) with t in *. destruct t; cbn [Index]; by rewrite E.
  - change (String c s +:+ t) with (String c (s +:+ t)).
    pose proof (Index_found _ _ Hi) as Hl. cbn [Index] in *.
    change (String c (s +:+ t)) with (String c s +:+ t).
    rewrite HasPrefix_app_short by (unfold strlen in *; destruct (HasPrefix _ _); cbv zeta in *; [|case_match]; lia).
    destruct (HasPrefix (String c s) sub); [done|]. cbv zeta in *.
    destruct (Z.ltb_spec (Index s sub) 0); [lia|]. by rewrite IH, (proj2 (Z.ltb_ge _ _)) by lia.
Qed.
Lemma str_take_app n s t : n <= strlen s → str_take n (s +:+ t) = str_take n s.
Proof.
  unfold str_take, strlen. intros Hn. assert (Z.to_nat n <= String.length s)%nat as Hm by lia.
  clear Hn. revert Hm. generalize (Z.to_nat n) as m. induction s as [|c s IH]; intros [|m]; simpl; try done; try lia.
  - intros. by destruct (_ +:+ _).
  - intros. change (String c s +:+ t) with (String c (s +:+ t)). simpl. rewrite IH by lia. done.
Qed.

Example ToLower_ex : @ToLower ascii_only "Set-COOKIE" = "set-cookie".
Proof. reflexivity. Qed.
Example TrimSpace_ex : @TrimSpace ascii_only "	 a b  " = "a b".
Proof. reflexivity. Qed.
Example SplitN_ex : SplitN "HTTP/1.1 404 Not Found" " " 3 = ["HTTP/1.1"; "404"; "Not Found"].
Proof. reflexivity. Qed.
Example ParseInt_ex : (ParseInt "-42", ParseInt "", ParseInt "1x", ParseInt "9223372036854775808") = (Some (-42), None, None, None).
Proof. reflexivity. Qed.
Example hex_ex : hex 48879 = "beef".
Proof. reflexivity. Qed.
