(* ===== verification/GoPath.v ===== *)
(** * Runes and paths

    The parts of Go's [unicode/utf8], [strconv] and [path] packages the program uses:
    decoding and encoding of runes, [strconv.Quote], [path.Base] (which is [filepath.Base] on
    the supported platforms) and the glob matcher [path.Match]. *)

From S2P Require Import Prelude GoStrings.
From Stdlib Require Import Ascii.

(** ** UTF-8 *)

Definition RuneError : Z := 0xFFFD.

(** The accepted range of the second byte and the length of a sequence, by its
    first byte. *)
Definition utf8_first (b : Z) : option (nat * Z * Z) :=
  if (0xC2 <=? b) && (b <=? 0xDF) then Some (2%nat, 0x80, 0xBF)
  else if b =? 0xE0 then Some (3%nat, 0xA0, 0xBF)
  else if b =? 0xED then Some (3%nat, 0x80, 0x9F)
  else if (0xE1 <=? b) && (b <=? 0xEF) then Some (3%nat, 0x80, 0xBF)
  else if b =? 0xF0 then Some (4%nat, 0x90, 0xBF)
  else if (0xF1 <=? b) && (b <=? 0xF3) then Some (4%nat, 0x80, 0xBF)
  else if b =? 0xF4 then Some (4%nat, 0x80, 0x8F)
  else None.
Definition cont (b : Z) : bool := (0x80 <=? b) && (b <=? 0xBF).

(** [utf8.DecodeRuneInString]: the rune, its width and the rest of the string. *)
Definition DecodeRune (s : string) : Z * nat * string :=
  match s with
  | "" => (RuneError, O, "")
  | String c0 r0 =>
    let b0 := c2z c0 in
    if b0 <? 0x80 then (b0, 1%nat, r0) else
    match utf8_first b0, r0 with
    | Some (n, lo, hi), String c1 r1 =>
      let b1 := c2z c1 in
      if negb ((lo <=? b1) && (b1 <=? hi)) then (RuneError, 1%nat, r0) else
      if (n =? 2)%nat then ((b0 - 0xC0) * 64 + (b1 - 0x80), 2%nat, r1) else
      match r1 with
      | String c2 r2 =>
        let b2 := c2z c2 in
        if negb (cont b2) then (RuneError, 1%nat, r0) else
        if (n =? 3)%nat then ((b0 - 0xE0) * 4096 + (b1 - 0x80) * 64 + (b2 - 0x80), 3%nat, r2) else
        match r2 with
        | String c3 r3 =>
          let b3 := c2z c3 in
          if negb (cont b3) then (RuneError, 1%nat, r0) else
          ((b0 - 0xF0) * 262144 + (b1 - 0x80) * 4096 + (b2 - 0x80) * 64 + (b3 - 0x80), 4%nat, r3)
        | "" => (RuneError, 1%nat, r0)
        end
      | "" => (RuneError, 1%nat, r0)
      end
    | _, _ => (RuneError, 1%nat, r0)
    end
  end.

(** [string(r)] of a rune that decoding produces. *)
Definition EncodeRune (r : Z) : string :=
  if r <? 0x80 then String (z2c r) ""
  else if r <? 0x800 then String (z2c (0xC0 + r `div` 64)) (String (z2c (0x80 + r `mod` 64)) "")
  else if r <? 0x10000 then
    String (z2c (0xE0 + r `div` 4096)) (String (z2c (0x80 + (r `div` 64) `mod` 64)) (String (z2c (0x80 + r `mod` 64)) ""))
  else
    String (z2c (0xF0 + r `div` 262144)) (String (z2c (0x80 + (r `div` 4096) `mod` 64))
      (String (z2c (0x80 + (r `div` 64) `mod` 64)) (String (z2c (0x80 + r `mod` 64)) ""))).

(** [[]rune(s)]; the fuel is the length of the string. *)
Fixpoint runes_go (fuel : nat) (s : string) : list Z :=
  match fuel, s with
  | O, _ | _, "" => []
  | S fuel, _ => let '(r, _, rest) := DecodeRune s in r :: runes_go fuel rest
  end.
Definition runes (s : string) : list Z := runes_go (String.length s) s.
Definition string_of_runes (l : list Z) : string := fold_right (λ r s, EncodeRune r +:+ s) "" l.

(** ** Quoting *)

(** [strconv.IsPrint] outside ASCII, from the Unicode tables. *)
Class Printable := is_print_high : Z → bool.
Definition ascii_printable : Printable := λ _, false.

Section Quote.
Context `{Printable}.

Definition IsPrint (r : Z) : bool :=
  if r <? 0x80 then (0x20 <=? r) && (r <? 0x7F) else is_print_high r.
Fixpoint hex_digits (n : nat) (r : Z) : string :=
  match n with O => "" | S n => String (hex_digit (r `div` 16 ^ Z.of_nat n)) (hex_digits n r) end.
(** [appendEscapedRune] with a double quote. *)
Definition escapeRune (r : Z) : string :=
  if (r =? 34) || (r =? 92) then String (z2c 92) (String (z2c r) "")
  else if IsPrint r then EncodeRune r
  else if r =? 7 then "\a" else if r =? 8 then "\b" else if r =? 12 then "\f" else if r =? 10 then "\n"
  else if r =? 13 then "\r" else if r =? 9 then "\t" else if r =? 11 then "\v"
  else if (r <? 32) || (r =? 0x7F) then "\x" +:+ hex_digits 2 r
  else if r <? 0x10000 then "\u" +:+ hex_digits 4 r
  else "\U" +:+ hex_digits 8 r.
Fixpoint quote_go (fuel : nat) (s : string) : string :=
  match fuel, s with
  | O, _ | _, "" => ""
  | S fuel, String c _ =>
    let '(r, w, rest) := DecodeRune s in
    (if (w =? 1)%nat && (r =? RuneError) then "\x" +:+ hex_digits 2 (c2z c) else escapeRune r) +:+ quote_go fuel rest
  end.
(** [strconv.Quote], the [%q] of a string. *)
Definition Quote (s : string) : string :=
  String (z2c 34) (quote_go (String.length s) s +:+ String (z2c 34) "").
End Quote.

(** ** Base *)

(** [filepath.Base]: the last element of a path. *)
Fixpoint after_slash (s best : string) : string :=
  match s with
  | "" => best
  | String c s => if Ascii.eqb c "/" then after_slash s s else after_slash s best
  end.
Fixpoint drop_slashes (r : string) : string :=
  match r with
  | "" => ""
  | String c r' => if Ascii.eqb c "/" then drop_slashes r' else r
  end.
Definition Base (path : string) : string :=
  if decide (path = "") then "." else
  let stripped := str_rev (drop_slashes (str_rev path "")) "" in
  let base := after_slash stripped stripped in
  if decide (base = "") then "/" else base.

(** ** Match *)

(** [scanChunk]: whether the pattern starts with stars, the literal chunk
    after them, and the rest of the pattern. *)
Fixpoint skip_stars (p : string) (star : bool) : bool * string :=
  match p with
  | String c p' => if Ascii.eqb c "*" then skip_stars p' true else (star, p)
  | "" => (star, "")
  end.
Fixpoint scan_go (p : string) (inrange : bool) : string * string :=
  match p with
  | "" => ("", "")
  | String c p' =>
    if Ascii.eqb c "092" then
      match p' with
      | String d p'' => let '(a, b) := scan_go p'' inrange in (String c (String d a), b)
      | "" => (String c "", "")
      end
    else if Ascii.eqb c "*" && negb inrange then ("", p)
    else let '(a, b) := scan_go p' (if Ascii.eqb c "[" then true else if Ascii.eqb c "]" then false else inrange) in
         (String c a, b)
  end.
Definition scanChunk (p : string) : bool * string * string :=
  let '(star, p) := skip_stars p false in
  let '(chunk, rest) := scan_go p false in
  (star, chunk, rest).

(** [getEsc]: a possibly escaped character of a class; [None] is
    [ErrBadPattern]. *)
Definition getEsc (chunk : string) : option (Z * string) :=
  match chunk with
  | "" => None
  | String c rest =>
    if Ascii.eqb c "-" || Ascii.eqb c "]" then None else
    let chunk := if Ascii.eqb c "092" then rest else chunk in
    match chunk with
    | "" => None
    | _ =>
      let '(r, n, nchunk) := DecodeRune chunk in
      if (r =? RuneError) && (n =? 1)%nat then None else
      match nchunk with "" => None | _ => Some (r, nchunk) end
    end
  end.

(** The ranges of a character class: whether one contains [r], and the chunk
    after the closing bracket. *)
Fixpoint class_go (fuel : nat) (chunk : string) (r : Z) (first : bool) (matched : bool) : option (bool * string) :=
  match fuel with
  | O => None
  | S fuel =>
    match chunk with
    | String c rest =>
      if Ascii.eqb c "]" && negb first then Some (matched, rest) else
      lo_chunk ← getEsc chunk;
      let '(lo, chunk) := lo_chunk in
      hi_chunk ← (match chunk with
                  | String d rest => if Ascii.eqb d "-" then getEsc rest else Some (lo, chunk)
                  | "" => Some (lo, chunk)
                  end);
      let '(hi, chunk) := hi_chunk in
      class_go fuel chunk r false (matched || (lo <=? r) && (r <=? hi))
    | "" => None
    end
  end.

(** [matchChunk]: [None] is a bad pattern, [Some None] no match, [Some (Some t)]
    a match that leaves [t]. *)
Fixpoint matchChunk (fuel : nat) (chunk s : string) (failed : bool) : option (option string) :=
  match fuel with
  | O => None
  | S fuel =>
    match chunk with
    | "" => Some (if failed then None else Some s)
    | String c rest =>
      let failed := failed || match s with "" => true | _ => false end in
      if Ascii.eqb c "[" then
        let '(r, _, t) := DecodeRune s in
        let '(r, s) := if failed then (0, s) else (r, t) in
        let '(negated, rest) :=
          match rest with String d rest' => if Ascii.eqb d "^" then (true, rest') else (false, rest) | "" => (false, "") end in
        cl ← class_go (S (String.length rest)) rest r true false;
        let '(m, rest) := cl in
        matchChunk fuel rest s (failed || Bool.eqb m negated)
      else if Ascii.eqb c "?" then
        let slash := match s with String d _ => Ascii.eqb d "/" | "" => false end in
        let '(_, _, t) := DecodeRune s in
        matchChunk fuel rest (if failed then s else t) (failed || slash)
      else
        lit ← (if Ascii.eqb c "092" then match rest with "" => None | String d rest' => Some (d, rest') end
               else Some (c, rest));
        let '(c, rest) := lit in
        match s with
        | String d t => if failed then matchChunk fuel rest s true else matchChunk fuel rest t (negb (Ascii.eqb c d))
        | "" => matchChunk fuel rest s true
        end
    end
  end.
Definition match_chunk (chunk s : string) : option (option string) := matchChunk (S (String.length chunk)) chunk s false.

(** The check that the rest of a pattern is well formed. *)
Fixpoint check_rest (fuel : nat) (pattern : string) : bool :=
  match fuel, pattern with
  | O, _ | _, "" => true
  | S fuel, _ =>
    let '(_, chunk, rest) := scanChunk pattern in
    match match_chunk chunk "" with None => false | Some _ => check_rest fuel rest end
  end.

(** The positions after a star: the first one where the chunk matches. *)
Fixpoint star_go (name chunk : string) (last : bool) : option (option string) :=
  match name with
  | "" => Some None
  | String c name' =>
    if Ascii.eqb c "/" then Some None else
    match match_chunk chunk name' with
    | None => None
    | Some (Some t) => if last && negb (bool_decide (t = "")) then star_go name' chunk last else Some (Some t)
    | Some None => star_go name' chunk last
    end
  end.

(** [path.Match]; [None] is [ErrBadPattern].  Each round consumes a part of the
    pattern, so its length is fuel enough. *)
Fixpoint match_go (fuel : nat) (pattern name : string) : option bool :=
  match fuel, pattern with
  | O, _ | _, "" => Some (bool_decide (name = ""))
  | S fuel, _ =>
    let '(star, chunk, rest) := scanChunk pattern in
    if star && bool_decide (chunk = "") then Some (negb (Contains name "/")) else
    let fail := if check_rest (String.length rest) rest then Some false else None in
    match match_chunk chunk name with
    | None => None
    | Some m =>
      match m with
      | Some t =>
        if bool_decide (t = "") || negb (bool_decide (rest = "")) then match_go fuel rest t
        else if star then
          match star_go name chunk (bool_decide (rest = "")) with
          | None => None | Some (Some t) => match_go fuel rest t | Some None => fail
          end
        else fail
      | None =>
        if star then
          match star_go name chunk (bool_decide (rest = "")) with
          | None => None | Some (Some t) => match_go fuel rest t | Some None => fail
          end
        else fail
      end
    end
  end.
Definition Match (pattern name : string) : option bool := match_go (String.length pattern) pattern name.

Example Match_examples :
  [Match "abc" "abc"; Match "*" "abc"; Match "*c" "abc"; Match "a*" "abc"; Match "a*/b" "a/c/b"; Match "a*b?c*x" "abxbbxdbxebxczzx";
   Match "a*b?c*x" "abxbbxdbxebxczzy"; Match "ab[^c]" "abc"; Match "[a-ζ]*" "α"; Match "a?b" "a☺b"; Match "[]a]" "]";
   Match "[-]" "-"; Match "a[" "a"; Match "a[" "ab"; Match "*x" "xxx"; Match "java*" "java"] =
  [Some true; Some true; Some true; Some true; Some false; Some true;
   Some false; Some false; Some true; Some true; None;
   None; None; None; Some true; Some true].
Proof. reflexivity. Qed.

(** ** Lemmas *)

Definition no_slash (s : string) : bool := str_forall (λ c, negb (Ascii.eqb c "/")) s.

Lemma str_rev_acc s acc : str_rev s acc = str_rev s "" +:+ acc.
Proof.
  revert acc. induction s as [|c s IH]; intros acc; simpl; [done|].
  rewrite (IH (String c acc)), (IH (String c "")), str_app_assoc. done.
Qed.
Lemma str_rev_app a b : str_rev (a +:+ b) "" = str_rev b "" +:+ str_rev a "".
Proof.
  induction a as [|c a IH]; [by rewrite str_app_nil_r|]. change (String c a +:+ b) with (String c (a +:+ b)). simpl.
  by rewrite (str_rev_acc (a +:+ b)), IH, str_app_assoc, (str_rev_acc a (String c "")).
Qed.
Lemma str_rev_rev s : str_rev (str_rev s "") "" = s.
Proof.
  induction s as [|c s IH]; [done|]. simpl. rewrite (str_rev_acc s), str_rev_app, IH. done.
Qed.
Lemma after_slash_name name best : no_slash name = true → after_slash name best = best.
Proof.
  unfold no_slash. induction name as [|c name IH]; [done|]. simpl. intros [Hc Hn]%andb_prop.
  apply negb_true_iff in Hc. rewrite Hc. by apply IH.
Qed.
Lemma after_slash_dir dir name best :
  no_slash name = true → after_slash (dir +:+ String "/" name) best = name.
Proof.
  intros Hn. revert best. induction dir as [|c dir IH]; intros best; [exact (after_slash_name name name Hn)|].
  change (String c dir +:+ String "/" name) with (String c (dir +:+ String "/" name)). simpl.
  destruct (Ascii.eqb c "/"); apply IH.
Qed.
Lemma str_forall_app p a b : str_forall p (a +:+ b) = str_forall p a && str_forall p b.
Proof.
  induction a as [|c a IH]; [done|]. change (String c a +:+ b) with (String c (a +:+ b)). simpl. by rewrite IH, andb_assoc.
Qed.
Lemma str_forall_rev p s : str_forall p (str_rev s "") = str_forall p s.
Proof.
  induction s as [|c s IH]; [done|]. simpl. rewrite str_rev_acc, str_forall_app, IH. simpl.
  by rewrite andb_true_r, andb_comm.
Qed.
Lemma Base_dir dir name :
  no_slash name = true → name ≠ "" → Base (dir +:+ String "/" name) = name ∧ Base name = name.
Proof.
  intros Hn Hne. assert (∀ p, drop_slashes (str_rev (p +:+ name) "") = str_rev (p +:+ name) "") as Hd.
  { intros p. rewrite str_rev_app. unfold no_slash in Hn. rewrite <-str_forall_rev in Hn.
    destruct (str_rev name "") as [|c r] eqn:E.
    - destruct Hne. rewrite <-(str_rev_rev name), E. done.
    - simpl in Hn. apply andb_prop in Hn as [Hc _]. apply negb_true_iff in Hc.
      change (String c r +:+ str_rev p "") with (String c (r +:+ str_rev p "")). simpl. by rewrite Hc. }
  unfold Base. split.
  - rewrite decide_False by (by destruct dir). 
    replace (dir +:+ String "/" name) with ((dir +:+ "/") +:+ name) by (by rewrite str_app_assoc).
    rewrite Hd, str_rev_rev, str_app_assoc. change ("/" +:+ name) with (String "/" name).
    rewrite after_slash_dir by done. by rewrite decide_False.
  - rewrite decide_False by done. specialize (Hd ""). change ("" +:+ name) with name in Hd. rewrite Hd, str_rev_rev.
    rewrite after_slash_name by done. by rewrite decide_False.
Qed.
