(* ===== verification/GoText.v ===== *)
(** * Lines, fields and numbers in text

    [strings.Fields], [strings.LastIndex] and the suffix functions, with the
    lemmas on lines of words separated by spaces and on printed numbers that the
    text formats of the program need. *)

From Stdlib Require Import Ascii.
From S2P Require Import Prelude GoStrings GoPath.

(** ** Functions *)

(** [strings.FieldsFunc(s, unicode.IsSpace)] of text that is not ASCII *)
Class UnicodeFields := fields_func_space : string → list string.

Fixpoint fields_go (s cur : string) : list string :=
  match s with
  | "" => if bool_decide (cur = "") then [] else [cur]
  | String c s =>
    if ascii_space c then if bool_decide (cur = "") then fields_go s "" else cur :: fields_go s ""
    else fields_go s (cur +:+ String c "")
  end.
Definition Fields `{UnicodeFields} (s : string) : list string := if is_ascii s then fields_go s "" else fields_func_space s.

(** [strings.LastIndex] *)
Fixpoint LastIndex (s sub : string) : Z :=
  match s with
  | "" => if HasPrefix "" sub then 0 else -1
  | String _ s' => let i := LastIndex s' sub in if 0 <=? i then i + 1 else if HasPrefix s sub then 0 else -1
  end.
Definition HasSuffix (s suf : string) : bool := (strlen suf <=? strlen s) && bool_decide (str_drop (strlen s - strlen suf) s = suf).
Definition TrimSuffix (s suf : string) : string := if HasSuffix s suf then str_take (strlen s - strlen suf) s else s.

(** The error of [strconv.ParseInt]: the digits are read from the left, and the
    first one that does not fit 64 bits ends the scan. *)
Fixpoint digits_overflow (s : string) (acc : Z) : bool :=
  match s with
  | "" => true
  | String c s => if is_digit c then if 2 ^ 64 <=? acc * 10 + (c2z c - 48) then true else digits_overflow s (acc * 10 + (c2z c - 48)) else false
  end.
Definition strip_sign (s : string) : string := match s with String "-" b => b | String "+" b => b | _ => s end.
Definition num_error `{Printable} (fn s : string) : goerror :=
  Errorf ("strconv." +:+ fn +:+ ": parsing " +:+ Quote s +:+ ": " +:+
    (if negb (bool_decide (strip_sign s = "")) && digits_overflow (strip_sign s) 0 then "value out of range" else "invalid syntax")).

(** ** Strings as sequences of characters *)

Lemma str_app_cons c a b : String c a +:+ b = String c (a +:+ b).
Proof. done. Qed.
Lemma str_app_nil a : "" +:+ a = a.
Proof. done. Qed.
Lemma str_forall_impl (p q : char → bool) s : (∀ c, p c = true → q c = true) → str_forall p s = true → str_forall q s = true.
Proof. intros Hpq. induction s as [|c s IH]; cbn; [done|]. intros [? ?]%andb_prop. rewrite Hpq, IH by done. done. Qed.
Lemma str_rev_app_acc a b acc : str_rev (a +:+ b) acc = str_rev b (str_rev a acc).
Proof. revert acc. induction a as [|c a IH]; intros acc; [done|]. rewrite str_app_cons. apply IH. Qed.
Lemma strlen_app a b : strlen (a +:+ b) = strlen a + strlen b.
Proof. unfold strlen. induction a as [|c a IH]; [done|]. rewrite str_app_cons. cbn [String.length]. lia. Qed.
Lemma str_drop_app a b : str_drop (strlen a) (a +:+ b) = b.
Proof. unfold str_drop, strlen. rewrite Nat2Z.id. by induction a as [|c a IH]. Qed.
Lemma str_take_app_exact a b : str_take (strlen a) (a +:+ b) = a.
Proof.
  unfold str_take, strlen. rewrite Nat2Z.id. induction a as [|c a IH]; [by destruct b|]. rewrite str_app_cons. cbn [String.length String.substring]. by rewrite IH.
Qed.

(** ** Words *)

Definition word_char (c : char) : bool := (c2z c <? 128) && negb (ascii_space c).
(** A nonempty word of ASCII characters. *)
Definition word (s : string) : Prop := s ≠ "" ∧ str_forall word_char s = true.
Fixpoint spaces (n : nat) : string := match n with O => "" | S n => String " " (spaces n) end.

Lemma word_app a b : word a → word b → word (a +:+ b).
Proof. intros [Ha1 Ha2] [_ Hb]. split; [by destruct a|]. by rewrite str_forall_app, Ha2, Hb. Qed.
Lemma word_ascii s : str_forall word_char s = true → is_ascii s = true.
Proof. apply str_forall_impl. unfold word_char. by intros c [? _]%andb_prop. Qed.
Lemma spaces_ascii n : is_ascii (spaces n) = true.
Proof. unfold is_ascii. by induction n. Qed.

Lemma trim_left_spaces n s : trim_left (spaces n +:+ s) = trim_left s.
Proof. by induction n. Qed.
Lemma word_char_cases c : word_char c = true → ascii_space c = false ∧ (128 <=? c2z c) = false.
Proof. unfold word_char. rewrite andb_true_iff, negb_true_iff, Z.ltb_lt, Z.leb_gt. tauto. Qed.
Lemma trim_left_word c s : word_char c = true → trim_left (String c s) = String c s ∧ head_non_ascii (String c s) = false.
Proof. intros [Hc Ha]%word_char_cases. cbn [trim_left head_non_ascii]. by rewrite Hc, Ha. Qed.
Lemma rev_spaces n acc : str_rev (spaces n) acc = spaces n +:+ acc.
Proof.
  revert acc. induction n as [|n IH]; intros acc; [done|]. cbn [spaces str_rev]. rewrite IH. clear. induction n as [|n IH]; [done|].
  cbn [spaces]. rewrite !str_app_cons, IH. done.
Qed.
(** Text is [tight] if it begins and ends with a character of a word. *)
Definition tight (s : string) : Prop := ∃ c a b e, word_char c = true ∧ word_char e = true ∧ s = String c a ∧ str_rev s "" = String e b.
Lemma word_tight s : word s → tight s.
Proof.
  intros [Hne Hs]. destruct s as [|c a]; [done|]. pose proof Hs as [Hc _]%andb_prop. destruct (str_rev (String c a) "") as [|e b] eqn:E.
  - apply (f_equal (λ r, str_rev r "")) in E. by rewrite str_rev_rev in E.
  - exists c, a, b, e. split_and!; [done| |done|done]. assert (∀ s acc, str_forall word_char s = true → str_forall word_char acc = true → str_forall word_char (str_rev s acc) = true) as Hr.
    { induction s as [|x s IH]; intros acc; cbn; [done|]. intros [? ?]%andb_prop ?. apply IH; cbn; [done|]. by apply andb_true_intro. }
    specialize (Hr _ "" Hs eq_refl). rewrite E in Hr. by apply andb_prop in Hr as [? _].
Qed.
Lemma tight_app a mid b : tight a → tight b → tight (a +:+ mid +:+ b).
Proof.
  intros (c & a1 & _ & _ & Hc & _ & -> & _) (_ & _ & b1 & e & _ & He & _ & Hb). eexists c, _, _, e. split_and!; [done..|].
  rewrite <-str_app_assoc, str_rev_app_acc, str_rev_acc, Hb. done.
Qed.
Lemma trim_tight `{Unicode} n s m : tight s → TrimSpace (spaces n +:+ s +:+ spaces m) = s.
Proof.
  intros (c & a & b & e & Hc & He & Hs & Hr). unfold TrimSpace. rewrite trim_left_spaces.
  assert (s +:+ spaces m = String c (a +:+ spaces m)) as Hsm by by rewrite Hs.
  destruct (trim_left_word c (a +:+ spaces m) Hc) as [H1 H2]. rewrite Hsm, H1, H2, <-Hsm. rewrite str_rev_app_acc, Hr, rev_spaces, trim_left_spaces.
  destruct (trim_left_word e b He) as [-> ->]. by rewrite <-Hr, str_rev_rev.
Qed.
Lemma trim_tight_0 `{Unicode} s : tight s → TrimSpace s = s.
Proof. intros Hs. pose proof (trim_tight 0 s 0 Hs) as H0. cbn [spaces] in H0. by rewrite str_app_nil, str_app_nil_r in H0. Qed.
Lemma trim_blank `{Unicode} n : TrimSpace (spaces n) = "".
Proof. unfold TrimSpace. assert (trim_left (spaces n) = "") as -> by by induction n. done. Qed.

(** ** Fields *)

Lemma fields_go_word w s cur : str_forall word_char w = true → fields_go (w +:+ s) cur = fields_go s (cur +:+ w).
Proof.
  revert cur. induction w as [|c w IH]; intros cur Hw; [by rewrite str_app_nil, str_app_nil_r|]. pose proof Hw as [[Hc _]%word_char_cases Hw']%andb_prop.
  rewrite str_app_cons. cbn [fields_go]. rewrite Hc, IH by done. by rewrite str_app_assoc.
Qed.
Lemma fields_go_spaces n s : fields_go (spaces n +:+ s) "" = fields_go s "".
Proof. induction n as [|n IH]; [done|]. cbn [spaces]. rewrite str_app_cons. cbn [fields_go]. exact IH. Qed.
Lemma fields_go_cons w n s : word w → fields_go (w +:+ spaces (S n) +:+ s) "" = w :: fields_go s "".
Proof.
  intros [Hne Hw]. rewrite fields_go_word by done. rewrite str_app_nil. cbn [spaces]. rewrite str_app_cons. cbn [fields_go].
  rewrite bool_decide_false by done. change (ascii_space " ") with true. cbn [andb]. by rewrite fields_go_spaces.
Qed.
Lemma fields_go_last w : word w → fields_go w "" = [w].
Proof. intros [Hne Hw]. rewrite <-(str_app_nil_r w) at 1. rewrite fields_go_word by done. cbn. rewrite bool_decide_false; done. Qed.

(** ** Suffixes *)

Lemma HasSuffix_app a b : HasSuffix (a +:+ b) b = true.
Proof.
  unfold HasSuffix. rewrite strlen_app. replace (strlen a + strlen b - strlen b) with (strlen a) by lia. rewrite str_drop_app, bool_decide_true by done.
  rewrite andb_true_r. apply Z.leb_le. unfold strlen. lia.
Qed.
Lemma TrimSuffix_app a b : TrimSuffix (a +:+ b) b = a.
Proof. unfold TrimSuffix. rewrite HasSuffix_app, strlen_app. replace (strlen a + strlen b - strlen b) with (strlen a) by lia. apply str_take_app_exact. Qed.

(** ** Printed numbers *)

Lemma digit_char x : (x < 10)%N → is_digit (pretty_N_char x) = true ∧ c2z (pretty_N_char x) - 48 = Z.of_N x.
Proof. intros Hx. assert (x = 0 ∨ x = 1 ∨ x = 2 ∨ x = 3 ∨ x = 4 ∨ x = 5 ∨ x = 6 ∨ x = 7 ∨ x = 8 ∨ x = 9)%N as Hc by lia. destruct_or! Hc; subst; done. Qed.
Lemma digits_go x s : str_forall is_digit s = true → str_forall is_digit (pretty_N_go x s) = true ∧ digits_val (pretty_N_go x s) 0 = digits_val s (Z.of_N x).
Proof.
  revert s. induction (N.lt_wf_0 x) as [x _ IH]. intros s Hs. destruct (decide (x = 0)%N) as [->|Hx]; [by rewrite pretty_N_go_0|].
  rewrite pretty_N_go_step by lia. destruct (digit_char (x mod 10)) as [Hd Hv]; [by apply N.mod_lt|].
  assert (x / 10 < x)%N as Hlt by (apply N.div_lt; lia). destruct (IH _ Hlt (String (pretty_N_char (x mod 10)) s)) as [H1 H2]; [cbn; by rewrite Hd|].
  split; [done|]. rewrite H2. cbn [digits_val]. rewrite Hd, Hv. f_equal. rewrite N2Z.inj_div, N2Z.inj_mod. pose proof (Z.div_mod (Z.of_N x) 10 ltac:(lia)). lia.
Qed.
Lemma itoa_digits z : 0 <= z → itoa z ≠ "" ∧ str_forall is_digit (itoa z) = true ∧ digits_val (itoa z) 0 = Some z.
Proof.
  intros Hz. destruct z as [|p|p]; [done| |lia]. change (itoa (Z.pos p)) with (pretty_N_go (N.pos p) ""). destruct (digits_go (N.pos p) "" eq_refl) as [H1 H2].
  split_and!; [|done|by rewrite H2]. intros E. rewrite E in H2. done.
Qed.
Lemma digit_word_char c : is_digit c = true → word_char c = true.
Proof.
  unfold is_digit, word_char, ascii_space. rewrite andb_true_iff, !Z.leb_le. intros [? ?]. rewrite (proj2 (Z.ltb_lt _ _)) by lia. cbn [existsb andb].
  rewrite !(proj2 (Z.eqb_neq _ _)) by lia. done.
Qed.
Lemma itoa_word z : 0 <= z → word (itoa z).
Proof. intros (H1 & H2 & _)%itoa_digits. split; [done|]. by apply (str_forall_impl is_digit); [apply digit_word_char|]. Qed.
Lemma ParseInt_itoa z : 0 <= z < 2 ^ 63 → ParseInt (itoa z) = Some z.
Proof.
  intros [Hz Hlt]. destruct (itoa_digits z Hz) as (H1 & H2 & H3). unfold ParseInt. destruct (itoa z) as [|c s] eqn:E; [done|]. pose proof H2 as [Hc _]%andb_prop.
  assert ((match String c s with String "-" b => (true, b) | String "+" b => (false, b) | _ => (false, String c s) end) = (false, String c s)) as ->.
  { destruct c as [[] [] [] [] [] [] [] []]; done. }
  rewrite H3. cbn [mbind option_bind]. rewrite (proj2 (Z.leb_le _ _)), (proj2 (Z.ltb_lt _ _)) by lia. done.
Qed.

(** ** Splitting at a separator *)

Definition free_of (sep : char) (s : string) : Prop := str_forall (λ c, negb (Ascii.eqb c sep)) s = true.
Lemma Cut_free sep l rest : free_of sep l → Cut (l +:+ String sep rest) sep = Some (l, rest) ∧ Cut l sep = None.
Proof.
  unfold free_of. induction l as [|c l IH].
  - intros _. rewrite str_app_nil. cbn [Cut]. by rewrite Ascii.eqb_refl.
  - rewrite str_app_cons. cbn [str_forall Cut]. intros [Hc%negb_true_iff Hl]%andb_prop. rewrite Hc. destruct (IH Hl) as [-> ->]. done.
Qed.
Lemma Split_Join sep l ls : free_of sep l → Forall (free_of sep) ls → Split (Join (l :: ls) (String sep "")) sep = l :: ls.
Proof.
  intros Hl Hls. unfold Split. enough (∀ n, (length ls < n)%nat → SplitN (Join (l :: ls) (String sep "")) sep n = l :: ls) as H.
  { apply H. clear. revert l. induction ls as [|x ls IH]; intros l; [cbn; lia|]. rewrite Join_cons by done. specialize (IH x).
    pose proof (strlen_app l (String sep "" +:+ Join (x :: ls) (String sep ""))) as H1. rewrite str_app_cons, str_app_nil in H1.
    change (strlen (String sep (Join (x :: ls) (String sep "")))) with (Z.of_nat (S (String.length (Join (x :: ls) (String sep ""))))) in H1.
    rewrite str_app_cons, str_app_nil. unfold strlen in *. cbn [length] in *. lia. }
  revert l Hl. induction Hls as [|x ls Hx Hls IH]; intros l Hl n Hn.
  - destruct n as [|[|n]]; [lia|done|]. cbn [Join SplitN]. destruct (Cut_free sep l "" Hl) as [_ ->]. done.
  - destruct n as [|[|n]]; cbn [length] in Hn; [lia..|]. rewrite Join_cons by done. rewrite str_app_cons, str_app_nil.
    change (SplitN ?s sep (S (S n))) with (match Cut s sep with Some (a, b) => a :: SplitN b sep (S n) | None => [s] end).
    destruct (Cut_free sep l (Join (x :: ls) (String sep "")) Hl) as [-> _]. f_equal. apply IH; [done|lia].
Qed.
Lemma free_of_app sep a b : free_of sep a → free_of sep b → free_of sep (a +:+ b).
Proof. unfold free_of. intros Ha Hb. by rewrite str_forall_app, Ha, Hb. Qed.
Lemma free_of_Join sep parts by_ : Forall (free_of sep) parts → free_of sep by_ → free_of sep (Join parts by_).
Proof.
  intros Hp Hb. induction Hp as [|p parts H Hp IH]; [done|]. destruct parts as [|q parts]; [done|]. rewrite Join_cons by done. by repeat apply free_of_app.
Qed.

(** *** Lines *)

Abbreviation no_newline := (free_of "010").
Lemma word_char_line c : word_char c = true → negb (Ascii.eqb c "010") = true.
Proof. intros [Hs _]%word_char_cases. destruct (Ascii.eqb_spec c "010"); [by subst|done]. Qed.
Lemma word_no_newline s : str_forall word_char s = true → no_newline s.
Proof. apply str_forall_impl, word_char_line. Qed.
Lemma spaces_no_newline n : no_newline (spaces n).
Proof. unfold free_of. by induction n. Qed.

(** ** The last position of a substring *)

Lemma LastIndex_app a b sub : 0 <= LastIndex b sub → LastIndex (a +:+ b) sub = strlen a + LastIndex b sub.
Proof.
  intros Hb. induction a as [|c a IH]; [done|]. rewrite str_app_cons. cbn [LastIndex]. rewrite IH. unfold strlen in *. cbn [String.length].
  rewrite (proj2 (Z.leb_le _ _)) by lia. lia.
Qed.
