(* ===== verification/GoRunes.v ===== *)
(** * UTF-8

    Facts about the decoding and encoding of runes: they are inverse to each
    other, and what decoding does on other bytes. *)

From Stdlib Require Import Ascii.
From S2P Require Import Prelude GoStrings GoPath GoText.

Lemma c2z_range c : 0 <= c2z c < 256.
Proof. unfold c2z. destruct c as [[] [] [] [] [] [] [] []]; cbn; lia. Qed.
Lemma c2z_z2c z : 0 <= z < 256 → c2z (z2c z) = z.
Proof. intros Hz. unfold c2z, z2c. rewrite Z.mod_small by lia. rewrite Ascii.N_ascii_embedding; lia. Qed.
Lemma z2c_c2z c : z2c (c2z c) = c.
Proof. unfold z2c. rewrite Z.mod_small by apply c2z_range. unfold c2z. rewrite N2Z.id. apply Ascii.ascii_N_embedding. Qed.

(** The runes that UTF-8 encodes. *)
Definition valid_rune (r : Z) : Prop := 0 <= r < 0xD800 ∨ 0xE000 <= r < 0x110000.
Definition rune_width (r : Z) : nat := if r <? 0x80 then 1 else if r <? 0x800 then 2 else if r <? 0x10000 then 3 else 4.

(** Decides the comparisons of a goal. *)
Ltac decide_cmp := repeat (match goal with
  | |- context [?a <=? ?b] => destruct (Z.leb_spec a b); [|try lia]
  | |- context [?a <? ?b] => destruct (Z.ltb_spec a b); [|try lia]
  | |- context [?a =? ?b] => destruct (Z.eqb_spec a b); [|try lia]
  end; try lia; cbn [andb negb]).

Definition second_ok (b0 b1 : Z) : Prop :=
  (b0 = 0xE0 ∨ b0 = 0xF0 → 0x90 <= b1 ∧ (b0 = 0xE0 → 0xA0 <= b1)) ∧ (b0 = 0xED → b1 <= 0x9F) ∧ (b0 = 0xF4 → b1 <= 0x8F).
Lemma decode2 b0 b1 t : 0xC2 <= b0 <= 0xDF → 0x80 <= b1 <= 0xBF → DecodeRune (String (z2c b0) (String (z2c b1) t)) = ((b0 - 0xC0) * 64 + (b1 - 0x80), 2%nat, t).
Proof. intros. unfold DecodeRune. rewrite !c2z_z2c by lia. unfold utf8_first. by decide_cmp. Qed.
Lemma decode3 b0 b1 b2 t : 0xE0 <= b0 <= 0xEF → 0x80 <= b1 <= 0xBF → second_ok b0 b1 → 0x80 <= b2 <= 0xBF →
  DecodeRune (String (z2c b0) (String (z2c b1) (String (z2c b2) t))) = ((b0 - 0xE0) * 4096 + (b1 - 0x80) * 64 + (b2 - 0x80), 3%nat, t).
Proof. intros ? ? (? & ? & ?) ?. unfold DecodeRune. rewrite !c2z_z2c by lia. unfold utf8_first, cont. by decide_cmp. Qed.
Lemma decode4 b0 b1 b2 b3 t : 0xF0 <= b0 <= 0xF4 → 0x80 <= b1 <= 0xBF → second_ok b0 b1 → 0x80 <= b2 <= 0xBF → 0x80 <= b3 <= 0xBF →
  DecodeRune (String (z2c b0) (String (z2c b1) (String (z2c b2) (String (z2c b3) t)))) =
    ((b0 - 0xF0) * 262144 + (b1 - 0x80) * 4096 + (b2 - 0x80) * 64 + (b3 - 0x80), 4%nat, t).
Proof. intros ? ? (? & ? & ?) ? ?. unfold DecodeRune. rewrite !c2z_z2c by lia. unfold utf8_first, cont. by decide_cmp. Qed.
Lemma DecodeRune_EncodeRune r t : valid_rune r → DecodeRune (EncodeRune r +:+ t) = (r, rune_width r, t).
Proof.
  intros Hv. unfold EncodeRune, rune_width. unfold valid_rune in Hv.
  destruct (Z.ltb_spec r 0x80); [|destruct (Z.ltb_spec r 0x800); [|destruct (Z.ltb_spec r 0x10000)]]; rewrite ?str_app_cons, ?str_app_nil.
  - unfold DecodeRune. rewrite c2z_z2c by lia. by rewrite (proj2 (Z.ltb_lt _ _)).
  - rewrite decode2 by (Z.div_mod_to_equations; lia). f_equal. f_equal. Z.div_mod_to_equations; lia.
  - rewrite decode3; unfold second_ok; [|Z.div_mod_to_equations; lia..]. f_equal. f_equal. Z.div_mod_to_equations; lia.
  - rewrite decode4; unfold second_ok; [|Z.div_mod_to_equations; lia..]. f_equal. f_equal. Z.div_mod_to_equations; lia.
Qed.

Lemma encode2 b0 b1 : 0xC2 <= b0 <= 0xDF → 0x80 <= b1 <= 0xBF → EncodeRune ((b0 - 0xC0) * 64 + (b1 - 0x80)) = String (z2c b0) (String (z2c b1) "").
Proof. intros. unfold EncodeRune. decide_cmp. repeat f_equal; Z.div_mod_to_equations; lia. Qed.
Lemma encode3 b0 b1 b2 : 0xE0 <= b0 <= 0xEF → 0x80 <= b1 <= 0xBF → second_ok b0 b1 → 0x80 <= b2 <= 0xBF →
  EncodeRune ((b0 - 0xE0) * 4096 + (b1 - 0x80) * 64 + (b2 - 0x80)) = String (z2c b0) (String (z2c b1) (String (z2c b2) "")).
Proof. intros ? ? (? & ? & ?) ?. unfold EncodeRune. decide_cmp. repeat f_equal; Z.div_mod_to_equations; lia. Qed.
Lemma encode4 b0 b1 b2 b3 : 0xF0 <= b0 <= 0xF4 → 0x80 <= b1 <= 0xBF → second_ok b0 b1 → 0x80 <= b2 <= 0xBF → 0x80 <= b3 <= 0xBF →
  EncodeRune ((b0 - 0xF0) * 262144 + (b1 - 0x80) * 4096 + (b2 - 0x80) * 64 + (b3 - 0x80)) = String (z2c b0) (String (z2c b1) (String (z2c b2) (String (z2c b3) ""))).
Proof. intros ? ? (? & ? & ?) ? ?. unfold EncodeRune. decide_cmp. repeat f_equal; Z.div_mod_to_equations; lia. Qed.
(** The first byte of an encoding of two and more bytes. *)
Lemma utf8_first_spec b n lo hi : utf8_first b = Some (n, lo, hi) →
  0x80 <= lo ∧ hi <= 0xBF ∧ (∀ b1, lo <= b1 <= hi → second_ok b b1) ∧
  (n = 2%nat ∧ 0xC2 <= b <= 0xDF ∨ n = 3%nat ∧ 0xE0 <= b <= 0xEF ∨ n = 4%nat ∧ 0xF0 <= b <= 0xF4).
Proof.
  unfold utf8_first, second_ok. intros H. repeat (case_match; [simplify_eq; repeat match goal with E : (_ && _) = true |- _ => apply andb_true_iff in E as [? ?] | E : (_ <=? _) = true |- _ => apply Z.leb_le in E | E : (_ =? _) = true |- _ => apply Z.eqb_eq in E | E : (_ =? _) = false |- _ => apply Z.eqb_neq in E end; split_and!; [lia..|intros; lia|lia]|]). done.
Qed.

(** What decoding finds: a rune and its encoding, or a byte that starts none. *)
Definition rune_found (c : char) (s : string) (x : Z * nat * string) : Prop :=
  let '(r, w, rest) := x in
  valid_rune r ∧ (String c s = EncodeRune r +:+ rest ∧ w = rune_width r ∨ 128 <= c2z c ∧ r = RuneError ∧ w = 1%nat ∧ rest = s).
Lemma rune_found_bad c s : 128 <= c2z c → rune_found c s (RuneError, 1%nat, s).
Proof. intros. split; [right; unfold RuneError; lia|]. by right. Qed.
Lemma DecodeRune_cases c s : rune_found c s (DecodeRune (String c s)).
Proof.
  pose proof (c2z_range c) as H0. unfold DecodeRune. destruct (Z.ltb_spec (c2z c) 128) as [Hlt|Hge].
  { split; [left; lia|]. left. unfold EncodeRune, rune_width. rewrite (proj2 (Z.ltb_lt _ _)) by lia. by rewrite z2c_c2z. }
  pose proof (rune_found_bad c s Hge) as Hbad. destruct (utf8_first (c2z c)) as [[[n lo] hi]|] eqn:E; [|done]. destruct (utf8_first_spec _ _ _ _ E) as (Hlo & Hhi & Hs & Hn).
  destruct s as [|c1 s]; [done|]. destruct ((lo <=? c2z c1) && (c2z c1 <=? hi)) eqn:E1; cbn [negb]; [|done].
  assert (lo <= c2z c1 <= hi) as Hb1 by lia. specialize (Hs _ Hb1).
  destruct Hn as [[-> Hn]|[[-> Hn]|[-> Hn]]]; cbn [Nat.eqb].
  - split; [left; lia|]. left. rewrite encode2 by lia. rewrite !z2c_c2z. split; [done|]. unfold rune_width. by decide_cmp.
  - destruct s as [|c2 s]; [done|]. destruct (cont (c2z c2)) eqn:E2; cbn [negb]; [|done]. unfold cont in E2. destruct (Hs) as (H1 & H2 & H3). split; [unfold valid_rune; lia|].
    left. rewrite encode3 by (done || lia). rewrite !z2c_c2z. split; [done|]. unfold rune_width. by decide_cmp.
  - destruct s as [|c2 s]; [done|]. destruct (cont (c2z c2)) eqn:E2; cbn [negb]; [|done]. unfold cont in E2. 
    destruct s as [|c3 s]; [done|]. destruct (cont (c2z c3)) eqn:E3; cbn [negb]; [|done]. unfold cont in E3. destruct (Hs) as (H1 & H2 & H3). split; [unfold valid_rune; lia|].
    left. rewrite encode4 by (done || lia). rewrite !z2c_c2z. split; [done|]. unfold rune_width. by decide_cmp.
Qed.
