(* ===== verification/GoJSON.v ===== *)
(** * JSON

    The parts of Go's [encoding/json] the program uses: the syntax that
    [Unmarshal] accepts, its decoding into structs, maps, slices and numbers, and
    the text that [Marshal] writes.  A value of a document is kept with its text,
    for fields of type [json.RawMessage]. *)

From Stdlib Require Import Ascii.
From S2P Require Import Prelude GoStrings GoPath GoText GoRunes.

(** ** Documents *)

#[warnings="-register-all"]
Inductive json :=
| JNull
| JBool (b : bool)
| JNumber (lit : string)
| JString (s : string)
| JArray (elems : list json)
| JObject (members : list (string * (string * json))).

(** *** Lexical parts *)

Definition is_ws (c : char) : bool := (c2z c =? 32) || (c2z c =? 9) || (c2z c =? 13) || (c2z c =? 10).
Fixpoint skip_ws (s : string) : string :=
  match s with String c s' => if is_ws c then skip_ws s' else s | "" => "" end.

Definition hex_val (c : char) : option Z :=
  let z := c2z c in
  if is_digit c then Some (z - 48)
  else if (97 <=? z) && (z <=? 102) then Some (z - 87)
  else if (65 <=? z) && (z <=? 70) then Some (z - 55)
  else None.
(** The four digits of a [\u] escape and the text after them. *)
Definition hex4 (s : string) : option (Z * string) :=
  match s with
  | String a (String b (String c (String d s))) =>
    a ← hex_val a; b ← hex_val b; c ← hex_val c; d ← hex_val d;
    Some (((a * 16 + b) * 16 + c) * 16 + d, s)
  | _ => None
  end.
(** [getu4] *)
Definition getu4 (s : string) : option (Z * string) :=
  match s with String a (String b s) => if (c2z a =? 92) && (c2z b =? 117) then hex4 s else None | _ => None end.

(** The rune of a [\u] escape, which may be half of a surrogate pair; an unpaired
    half is the replacement rune. *)
Definition escaped_rune (r : Z) (s : string) : Z * string :=
  if (0xD800 <=? r) && (r <? 0xE000) then
    match getu4 s with
    | Some (r2, s') =>
      if (r <? 0xDC00) && (0xDC00 <=? r2) && (r2 <? 0xE000) then ((r - 0xD800) * 1024 + (r2 - 0xDC00) + 0x10000, s') else (RuneError, s)
    | None => (RuneError, s)
    end
  else (r, s).
Definition simple_escape (c : char) : option char :=
  let z := c2z c in
  if (z =? 34) || (z =? 92) || (z =? 47) then Some c
  else if z =? 98 then Some (z2c 8) else if z =? 102 then Some (z2c 12) else if z =? 110 then Some (z2c 10)
  else if z =? 114 then Some (z2c 13) else if z =? 116 then Some (z2c 9) else None.

(** A string after its opening quote: the decoded string and the text after the
    closing quote.  Every round consumes a character. *)
Fixpoint unquote_go (fuel : nat) (s : string) : option (string * string) :=
  match fuel, s with
  | O, _ | _, "" => None
  | S fuel, String c s' =>
    if c2z c =? 34 then Some ("", s')
    else if c2z c =? 92 then
      match s' with
      | "" => None
      | String e s'' =>
        if c2z e =? 117 then
          '(r, s3) ← hex4 s'';
          let '(r, s4) := escaped_rune r s3 in
          '(t, rest) ← unquote_go fuel s4;
          Some (EncodeRune r +:+ t, rest)
        else
          d ← simple_escape e;
          '(t, rest) ← unquote_go fuel s'';
          Some (String d t, rest)
      end
    else if c2z c <? 32 then None
    else
      let '(r, _, s'') := DecodeRune s in
      '(t, rest) ← unquote_go fuel s'';
      Some (EncodeRune r +:+ t, rest)
  end.
Definition unquote (s : string) : option (string * string) := unquote_go (String.length s) s.

Fixpoint take_digits (s : string) : string * string :=
  match s with
  | String c s' => if is_digit c then let '(a, b) := take_digits s' in (String c a, b) else ("", s)
  | "" => ("", "")
  end.
Definition number_sign (s : string) : string * string :=
  match s with String c s' => if c2z c =? 45 then (String c "", s') else ("", s) | "" => ("", "") end.
Definition number_int (s : string) : option (string * string) :=
  match s with
  | String c s' =>
    if c2z c =? 48 then Some (String c "", s')
    else if is_digit c then let '(a, b) := take_digits s' in Some (String c a, b)
    else None
  | "" => None
  end.
Definition some_digits (s : string) : option (string * string) :=
  match take_digits s with ("", _) => None | (a, b) => Some (a, b) end.
Definition number_frac (s : string) : option (string * string) :=
  match s with
  | String c s' => if c2z c =? 46 then '(a, b) ← some_digits s'; Some (String c a, b) else Some ("", s)
  | "" => Some ("", "")
  end.
Definition number_exp (s : string) : option (string * string) :=
  match s with
  | String c s' =>
    if (c2z c =? 101) || (c2z c =? 69) then
      let '(sign, s'') := match s' with
        | String d r => if (c2z d =? 43) || (c2z d =? 45) then (String d "", r) else ("", s')
        | "" => ("", "") end in
      '(a, b) ← some_digits s''; Some (String c (sign +:+ a), b)
    else Some ("", s)
  | "" => Some ("", "")
  end.
Definition number (s : string) : option (string * string) :=
  let '(sign, s) := number_sign s in
  '(i, s) ← number_int s;
  '(f, s) ← number_frac s;
  '(e, s) ← number_exp s;
  Some (sign +:+ i +:+ f +:+ e, s).

Definition strip (p s : string) : option string := if HasPrefix s p then Some (str_drop (strlen p) s) else None.

(** *** Values *)

Definition maxNestingDepth : Z := 10000.

(** The text of a value that starts at [s] and ends at [rest]. *)
Definition text_before (s rest : string) : string := str_take (strlen s - strlen rest) s.

Fixpoint value_go (fuel : nat) (depth : Z) (s : string) : option (json * string) :=
  match fuel, s with
  | O, _ | _, "" => None
  | S fuel, String c s' =>
    if c2z c =? 123 then
      if maxNestingDepth <=? depth then None else
      match skip_ws s' with
      | "" => None
      | String d r => if c2z d =? 125 then Some (JObject [], r) else '(ms, rest) ← members_go fuel (depth + 1) (String d r); Some (JObject ms, rest)
      end
    else if c2z c =? 91 then
      if maxNestingDepth <=? depth then None else
      match skip_ws s' with
      | "" => None
      | String d r => if c2z d =? 93 then Some (JArray [], r) else '(vs, rest) ← elems_go fuel (depth + 1) (String d r); Some (JArray vs, rest)
      end
    else if c2z c =? 34 then '(t, rest) ← unquote s'; Some (JString t, rest)
    else match strip "null" s, strip "true" s, strip "false" s with
    | Some rest, _, _ => Some (JNull, rest)
    | _, Some rest, _ => Some (JBool true, rest)
    | _, _, Some rest => Some (JBool false, rest)
    | _, _, _ => '(lit, rest) ← number s; Some (JNumber lit, rest)
    end
  end
with members_go (fuel : nat) (depth : Z) (s : string) : option (list (string * (string * json)) * string) :=
  match fuel, s with
  | O, _ | _, "" => None
  | S fuel, String c s' =>
    if negb (c2z c =? 34) then None else
    '(name, s) ← unquote s';
    match skip_ws s with
    | "" => None
    | String d s =>
      if negb (c2z d =? 58) then None else
      let s := skip_ws s in
      '(v, rest) ← value_go fuel depth s;
      match skip_ws rest with
      | "" => None
      | String e r =>
        if c2z e =? 125 then Some ([(name, (text_before s rest, v))], r)
        else if c2z e =? 44 then '(ms, r) ← members_go fuel depth (skip_ws r); Some ((name, (text_before s rest, v)) :: ms, r)
        else None
      end
    end
  end
with elems_go (fuel : nat) (depth : Z) (s : string) : option (list json * string) :=
  match fuel with
  | O => None
  | S fuel =>
    '(v, rest) ← value_go fuel depth s;
    match skip_ws rest with
    | "" => None
    | String e r =>
      if c2z e =? 93 then Some ([v], r)
      else if c2z e =? 44 then '(vs, r) ← elems_go fuel depth (skip_ws r); Some (v :: vs, r)
      else None
    end
  end.

(** A document is one value between white space.  Every round of the three loops
    consumes a character or goes from a list to its next value, so twice the
    length is enough fuel. *)
Definition parse_json (s : string) : option json :=
  let s := skip_ws s in
  '(v, rest) ← value_go (2 * String.length s) 0 s;
  match skip_ws rest with "" => Some v | _ => None end.

(** ** Decoding *)

(** A decoder takes the value of a target before, the text and the value of a
    document, and gives the value of the target after, and whether a value did not
    fit its type; such an error is remembered and the decoding goes on. *)
Definition decoder (A : Type) : Type := A → string → json → A * bool.

Definition dec_string : decoder string := λ old _ v,
  match v with JNull => (old, false) | JString s => (s, false) | _ => (old, true) end.
Definition dec_bool : decoder bool := λ old _ v,
  match v with JNull => (old, false) | JBool b => (b, false) | _ => (old, true) end.
(** [int] and [int64] *)
Definition dec_int : decoder Z := λ old _ v,
  match v with
  | JNull => (old, false)
  | JNumber lit => match ParseInt lit with Some n => (n, false) | None => (old, true) end
  | _ => (old, true)
  end.
(** [json.RawMessage]; [None] is nil. *)
Definition dec_raw : decoder (option string) := λ _ text _, (Some text, false).
(** A pointer is allocated unless the value is null. *)
Definition dec_ptr {A} (zero : A) (d : decoder A) : decoder (option A) := λ old text v,
  match v with
  | JNull => (None, false)
  | _ => let '(a, e) := d (default zero old) text v in (Some a, e)
  end.
(** [[]string]: an element that is null, or of another type, keeps what the slice
    held at its index. *)
Definition dec_strings : decoder (list string) := λ old _ v,
  match v with
  | JNull => ([], false)
  | JArray vs =>
    let rs := imap (λ i v, dec_string (default "" (old !! i)) "" v) vs in
    (rs.*1, existsb snd rs)
  | _ => (old, true)
  end.

(** The name of a field, which is ASCII, matches the name of a member up to
    Unicode case folding: besides the other case of its letters, the long s
    folds to s and the Kelvin sign to k. *)
Fixpoint fold_name (s : string) : string :=
  match s with
  | "" => ""
  | String a s1 =>
    let dflt := String (upper_char a) (fold_name s1) in
    match s1 with
    | "" => dflt
    | String b s2 =>
      if (c2z a =? 0xC5) && (c2z b =? 0xBF) then String "S" (fold_name s2) else
      match s2 with
      | "" => dflt
      | String c s3 => if (c2z a =? 0xE2) && (c2z b =? 0x84) && (c2z c =? 0xAA) then String "K" (fold_name s3) else dflt
      end
    end
  end.
Definition find_field {A} (fields : list (string * A)) (name : string) : option A :=
  snd <$> List.find (λ f, String.eqb (fold_name f.1) (fold_name name)) fields.

(** A member of an object decoded into its field; unknown members are skipped. *)
Definition dec_member {A} (fields : list (string * decoder A)) (st : A * bool) (m : string * (string * json)) : A * bool :=
  match find_field fields m.1 with
  | Some d => let '(a, e) := d st.1 m.2.1 m.2.2 in (a, st.2 || e)
  | None => st
  end.
Definition dec_struct {A} (fields : list (string * decoder A)) : decoder A := λ old _ v,
  match v with
  | JNull => (old, false)
  | JObject ms => fold_left (dec_member fields) ms (old, false)
  | _ => (old, true)
  end.
(** A field of a struct. *)
Definition on {A B} (get : A → B) (set : A → B → A) (d : decoder B) : decoder A := λ a text v,
  let '(b, e) := d (get a) text v in (set a b, e).

(** The entry of a map, as an association list without repeated keys. *)
Fixpoint put_key {V} (m : list (string * V)) (k : string) (v : V) : list (string * V) :=
  match m with
  | [] => [(k, v)]
  | (k', v') :: m => if String.eqb k k' then (k, v) :: m else (k', v') :: put_key m k v
  end.

(** A map; the value of an entry is decoded into a new one. *)
Definition dec_map {A} (zero : A) (d : decoder A) : decoder (list (string * A)) := λ old _ v,
  match v with
  | JNull => ([], false)
  | JObject ms => fold_left (λ st m, let '(a, e) := d zero m.2.1 m.2.2 in (put_key st.1 m.1 a, st.2 || e)) ms (old, false)
  | _ => (old, true)
  end.

(** The message of a syntax error or of the first value that did not fit. *)
Class JSONErrors := json_error : string → string.

(** [json.Unmarshal(data, &v)]: what [v] is after, and the error. *)
Definition unmarshal `{JSONErrors} {A} (d : decoder A) (zero : A) (data : string) : A * option goerror :=
  match parse_json data with
  | None => (zero, Some (Errorf (json_error data)))
  | Some v => let '(a, e) := d zero data v in (a, if e then Some (Errorf (json_error data)) else None)
  end.
(** The same where an error ends the function that calls it. *)
Definition unmarshal_ok `{JSONErrors} {A} (d : decoder A) (zero : A) (data : string) : outcome A :=
  match unmarshal d zero data with (a, None) => Ok a | (_, Some e) => Err e end.

(** ** Encoding *)

Definition uescape (r : Z) : string := "\u" +:+ hex_digits 4 r.
Definition escape_ascii (c : char) : string :=
  let z := c2z c in
  if (z =? 34) || (z =? 92) then String (z2c 92) (String c "")
  else if z =? 8 then "\b" else if z =? 12 then "\f" else if z =? 10 then "\n" else if z =? 13 then "\r" else if z =? 9 then "\t"
  else if (z <? 32) || (z =? 60) || (z =? 62) || (z =? 38) then uescape z
  else String c "".
(** The text of a rune that is encoded in [w] bytes. *)
Definition escape_rune (c : char) (r : Z) (w : nat) : string :=
  if c2z c <? 128 then escape_ascii c
  else if (r =? RuneError) && (w =? 1)%nat then uescape RuneError
  else if (r =? 0x2028) || (r =? 0x2029) then uescape r
  else EncodeRune r.
Fixpoint escape_go (fuel : nat) (s : string) : string :=
  match fuel, s with
  | O, _ | _, "" => ""
  | S fuel, String c _ => let '(r, w, rest) := DecodeRune s in escape_rune c r w +:+ escape_go fuel rest
  end.
Definition quoted (s : string) : string := String (z2c 34) (s +:+ String (z2c 34) "").
Definition string_text (s : string) : string := quoted (escape_go (String.length s) s).
Definition int_text (z : Z) : string := itoa z.
Definition bool_text (b : bool) : string := if b then "true" else "false".
Definition array_text (vs : list string) : string := "[" +:+ Join vs "," +:+ "]".
Definition member_text (m : string * string) : string := string_text m.1 +:+ ":" +:+ m.2.
(** The members of a struct in the order of its fields. *)
Definition struct_text (ms : list (string * string)) : string := "{" +:+ Join (member_text <$> ms) "," +:+ "}".
(** The members of a map in the order of their names. *)
Fixpoint insert_member {V} (m : string * V) (ms : list (string * V)) : list (string * V) :=
  match ms with
  | [] => [m]
  | m' :: ms' => if String.ltb m.1 m'.1 then m :: ms else m' :: insert_member m ms'
  end.
Definition sort_members {V} (ms : list (string * V)) : list (string * V) := fold_right insert_member [] ms.
Definition map_text (ms : list (string * string)) : string := struct_text (sort_members ms).

(** The text of a [json.RawMessage]: without the white space between the parts,
    and with the characters escaped that are special in HTML.  It is text that
    was decoded before, so it is valid. *)
Fixpoint compact_go (inside : bool) (s : string) : string :=
  match s with
  | "" => ""
  | String c s1 =>
    if (c2z c =? 60) || (c2z c =? 62) || (c2z c =? 38) then uescape (c2z c) +:+ compact_go inside s1
    else if negb inside then
      if is_ws c then compact_go false s1 else String c (compact_go (c2z c =? 34) s1)
    else if c2z c =? 34 then String c (compact_go false s1)
    else match s1 with
    | "" => String c ""
    | String d s2 =>
      if c2z c =? 92 then String c (String d (compact_go true s2)) else
      match s2 with
      | "" => String c (compact_go true s1)
      | String e s3 =>
        if (c2z c =? 0xE2) && (c2z d =? 0x80) && ((c2z e =? 0xA8) || (c2z e =? 0xA9)) then uescape (0x2028 + (c2z e - 0xA8)) +:+ compact_go true s3
        else String c (compact_go true s1)
      end
    end
  end.
Definition raw_text (r : option string) : string := match r with None => "null" | Some s => compact_go false s end.

(** ** What is written is read back *)

(** *** Strings *)

(** A string with its bytes that encode no rune replaced. *)
Fixpoint sanitize_go (fuel : nat) (s : string) : string :=
  match fuel, s with
  | O, _ | _, "" => ""
  | S fuel, _ => let '(r, _, rest) := DecodeRune s in EncodeRune r +:+ sanitize_go fuel rest
  end.
Definition sanitize (s : string) : string := sanitize_go (String.length s) s.
Definition prepend (a : string) (o : option (string * string)) : option (string * string) := '(t, rest) ← o; Some (a +:+ t, rest).

Lemma length_str_app (a b : string) : String.length (a +:+ b) = (String.length a + String.length b)%nat.
Proof. pose proof (strlen_app a b) as Hs. unfold strlen in Hs. lia. Qed.
Lemma EncodeRune_ascii c : c2z c < 128 → EncodeRune (c2z c) = String c "".
Proof. intros. unfold EncodeRune. rewrite (proj2 (Z.ltb_lt _ _)) by done. by rewrite z2c_c2z. Qed.
Lemma EncodeRune_high r : 128 <= r < 0x110000 → ∃ c s, EncodeRune r = String c s ∧ 128 <= c2z c.
Proof.
  intros Hr. unfold EncodeRune. rewrite (proj2 (Z.ltb_ge r 128)) by lia. destruct (r <? 0x800) eqn:E1; [|destruct (r <? 0x10000) eqn:E2]; do 2 eexists; (split; [done|]); rewrite c2z_z2c; Z.div_mod_to_equations; lia.
Qed.
Lemma EncodeRune_nonempty r : valid_rune r → (1 <= String.length (EncodeRune r))%nat.
Proof. intros _. unfold EncodeRune. repeat case_match; cbn; lia. Qed.
Lemma unquote_plain fuel c s : c2z c ≠ 34 → c2z c ≠ 92 → 32 <= c2z c →
  unquote_go (S fuel) (String c s) = let '(r, _, s'') := DecodeRune (String c s) in prepend (EncodeRune r) (unquote_go fuel s'').
Proof.
  intros H1 H2 H3. cbn [unquote_go]. rewrite (proj2 (Z.eqb_neq _ _) H1), (proj2 (Z.eqb_neq _ _) H2), (proj2 (Z.ltb_ge _ _) H3). by destruct (DecodeRune _) as [[r w] rest].
Qed.
Lemma unquote_escape_ascii fuel c t : c2z c < 128 → unquote_go (S fuel) (escape_ascii c +:+ t) = prepend (String c "") (unquote_go fuel t).
Proof. destruct c as [[] [] [] [] [] [] [] []]; intros Hc; try (exfalso; revert Hc; vm_compute; congruence); reflexivity. Qed.
Lemma unquote_uescape fuel r t : r = RuneError ∨ r = 0x2028 ∨ r = 0x2029 → unquote_go (S fuel) (uescape r +:+ t) = prepend (EncodeRune r) (unquote_go fuel t).
Proof. intros [-> |[-> | ->]]; reflexivity. Qed.
Lemma escape_rune_unquote fuel c s t : let '(r, w, rest) := DecodeRune (String c s) in
  unquote_go (S fuel) (escape_rune c r w +:+ t) = prepend (EncodeRune r) (unquote_go fuel t).
Proof.
  pose proof (DecodeRune_cases c s) as Hf. destruct (DecodeRune (String c s)) as [[r w] rest] eqn:E. destruct Hf as [Hv Hf]. unfold escape_rune.
  destruct (Z.ltb_spec (c2z c) 128) as [Hc|Hc].
  { cbn [DecodeRune] in E. rewrite (proj2 (Z.ltb_lt _ _) Hc) in E. injection E as <- <- <-. rewrite EncodeRune_ascii by done. by apply unquote_escape_ascii. }
  destruct ((r =? RuneError) && (w =? 1)%nat) eqn:E1; [apply andb_true_iff in E1 as [->%Z.eqb_eq _]; apply unquote_uescape; by left|]. destruct ((r =? 0x2028) || (r =? 0x2029)) eqn:E2; [apply orb_true_iff in E2 as [->%Z.eqb_eq| ->%Z.eqb_eq]; apply unquote_uescape; auto|].
  destruct Hf as [[Hs ->]|(_ & -> & -> & _)]; [|done].
  assert (128 <= r) as Hr. { destruct (Z.le_gt_cases 128 r); [done|]. unfold EncodeRune in Hs. rewrite (proj2 (Z.ltb_lt _ _)) in Hs by lia. injection Hs as -> _. rewrite c2z_z2c in Hc; unfold valid_rune in Hv; lia. }
  destruct (EncodeRune_high r) as (c' & s' & He & Hc'); [unfold valid_rune in Hv; lia|]. pose proof (DecodeRune_EncodeRune r t Hv) as Hd. rewrite He in Hd |- *. rewrite str_app_cons in *.
  rewrite unquote_plain by lia. rewrite Hd. by rewrite He.
Qed.
Lemma DecodeRune_shorter c s : let '(_, _, rest) := DecodeRune (String c s) in (String.length rest <= String.length s)%nat.
Proof.
  pose proof (DecodeRune_cases c s) as Hf. destruct (DecodeRune (String c s)) as [[r w] rest]. destruct Hf as [Hv [[Hs _]|(_ & _ & _ & ->)]]; [|done].
  apply (f_equal String.length) in Hs. rewrite length_str_app in Hs. pose proof (EncodeRune_nonempty r Hv). cbn in Hs. lia.
Qed.
Lemma escape_rune_nonempty c r w : valid_rune r → (1 <= String.length (escape_rune c r w))%nat.
Proof. intros Hv. pose proof (EncodeRune_nonempty r Hv). unfold escape_rune, escape_ascii, uescape. repeat case_match; first [done | rewrite length_str_app; change (String.length "\\u") with 2%nat; lia | apply le_n_S, Nat.le_0_l]. Qed.
Lemma unquote_go_escape n s fuel rest : (String.length s <= n)%nat → (String.length (escape_go n s) < fuel)%nat →
  unquote_go fuel (escape_go n s +:+ String (z2c 34) rest) = Some (sanitize_go n s, rest).
Proof.
  revert s fuel. induction n as [|n IH]; intros s fuel Hn Hf.
  { destruct s; [|cbn in Hn; lia]. destruct fuel; [cbn in Hf; lia|]. reflexivity. }
  destruct s as [|c s]; [destruct fuel; [cbn in Hf; lia|]; reflexivity|]. cbn [escape_go sanitize_go] in *.
  pose proof (escape_rune_unquote (pred fuel) c s) as He. pose proof (DecodeRune_shorter c s) as Hs. pose proof (DecodeRune_cases c s) as Hc. destruct (DecodeRune (String c s)) as [[r w] s'].
  destruct Hc as [Hv _]. rewrite str_app_assoc. rewrite length_str_app in Hf. pose proof (escape_rune_nonempty c r w Hv). destruct fuel as [|fuel]; [lia|].
  cbn [pred] in He. rewrite He. rewrite IH by (cbn in Hn; lia). reflexivity.
Qed.
Lemma unquote_string_text s rest : unquote (escape_go (String.length s) s +:+ String (z2c 34) rest) = Some (sanitize s, rest).
Proof. apply unquote_go_escape; [lia|]. rewrite length_str_app. cbn. lia. Qed.

(** Strings that are the encoding of runes are kept. *)
Definition valid_utf8 (s : string) : Prop := sanitize s = s.
Lemma sanitize_ascii_go n s : (String.length s <= n)%nat → is_ascii s = true → sanitize_go n s = s.
Proof.
  revert n. induction s as [|c s IH]; intros [|n] Hn Ha; [done..|cbn in Hn; lia|]. cbn in Ha. apply andb_true_iff in Ha as [Hc Ha]. cbn [sanitize_go DecodeRune]. rewrite Hc.
  rewrite EncodeRune_ascii by lia. rewrite IH by (done || (cbn in Hn; lia)). reflexivity.
Qed.
Lemma ascii_valid s : is_ascii s = true → valid_utf8 s.
Proof. apply sanitize_ascii_go. lia. Qed.

(** *** Values *)

(** What may follow a value. *)
Definition stops (rest : string) : Prop :=
  match rest with "" => True | String c _ => is_ws c = true ∨ c2z c = 44 ∨ c2z c = 93 ∨ c2z c = 125 end.
(** The text of a value with at most [h] open brackets at a time. *)
Record parses (h : Z) (t : string) (v : json) : Prop := {
  ps_starts : ∃ c s, t = String c s ∧ is_ws c = false ∧ c2z c ≠ 93;
  ps_value fuel depth rest : (2 * String.length t <= fuel)%nat → depth + h <= maxNestingDepth → stops rest → value_go fuel depth (t +:+ rest) = Some (v, rest) }.

Lemma parses_mono h h' t v : h <= h' → parses h t v → parses h' t v.
Proof. intros Hh [Hs Hv]. split; [done|]. intros. apply Hv; [done|lia|done]. Qed.
Lemma skip_ws_parses h t v rest : parses h t v → skip_ws (t +:+ rest) = t +:+ rest.
Proof. intros [(c & s & -> & Hc & _) _]. rewrite str_app_cons. cbn [skip_ws]. by rewrite Hc. Qed.
Lemma skip_ws_other c s : is_ws c = false → skip_ws (String c s) = String c s.
Proof. intros Hc. cbn [skip_ws]. by rewrite Hc. Qed.
Lemma text_before_app t rest : text_before (t +:+ rest) rest = t.
Proof. unfold text_before. rewrite strlen_app. replace (strlen t + strlen rest - strlen rest) with (strlen t) by lia. apply str_take_app_exact. Qed.

Lemma parses_json h t v : parses h t v → h <= maxNestingDepth → parse_json t = Some v.
Proof.
  intros Hp Hh. unfold parse_json. pose proof (skip_ws_parses h t v "" Hp) as Hs. rewrite str_app_nil_r in Hs. rewrite Hs.
  rewrite <-(str_app_nil_r t) at 2. rewrite (ps_value h t v Hp); [done|lia|lia|done].
Qed.

Lemma parses_string s : parses 0 (string_text s) (JString (sanitize s)).
Proof.
  split; [eexists _, _; split; [done|by vm_compute]|]. intros fuel depth rest Hf _ _. unfold string_text, quoted in *. destruct fuel as [|fuel]; [cbn in Hf; lia|].
  rewrite !str_app_cons, str_app_assoc, str_app_cons, str_app_nil. cbn [value_go].
  change (c2z (z2c 34)) with 34. cbn [Z.eqb Pos.eqb]. by rewrite unquote_string_text.
Qed.
Lemma strip_app p s : strip p (p +:+ s) = Some s.
Proof.
  unfold strip. assert (HasPrefix (p +:+ s) p = true) as ->; [|by rewrite str_drop_app]. unfold HasPrefix. induction p as [|c p IH]; [by destruct s|]. rewrite str_app_cons. cbn [String.prefix].
  destruct (Ascii.ascii_dec c c); [done|congruence].
Qed.
(** A value that starts with a letter. *)
Lemma value_word fuel depth p s v : (∃ c p', p = String c p' ∧ c2z c ≠ 123 ∧ c2z c ≠ 91 ∧ c2z c ≠ 34) →
  value_go (S fuel) depth (p +:+ s) = Some v ↔
  match strip "null" (p +:+ s), strip "true" (p +:+ s), strip "false" (p +:+ s) with
  | Some rest, _, _ => Some (JNull, rest)
  | _, Some rest, _ => Some (JBool true, rest)
  | _, _, Some rest => Some (JBool false, rest)
  | _, _, _ => '(lit, rest) ← number (p +:+ s); Some (JNumber lit, rest)
  end = Some v.
Proof. intros (c & p' & -> & H1 & H2 & H3). rewrite str_app_cons. cbn [value_go]. by rewrite !(proj2 (Z.eqb_neq _ _)). Qed.
Lemma parses_lit (b : bool) : parses 0 (bool_text b) (JBool b).
Proof.
  split; [destruct b; eexists _, _; (split; [done|by vm_compute])|]. intros [|fuel] depth rest Hf _ _; [destruct b; cbn in Hf; lia|].
  apply value_word; [destruct b; (eexists _, _; split; [done|by vm_compute])|]. destruct b; cbn [bool_text]; rewrite strip_app; reflexivity.
Qed.
Lemma parses_null : parses 0 "null" JNull.
Proof.
  split; [eexists _, _; (split; [done|by vm_compute])|]. intros [|fuel] depth rest Hf _ _; [cbn in Hf; lia|].
  apply value_word; [eexists _, _; split; [done|by vm_compute]|]. by rewrite strip_app.
Qed.

Lemma take_digits_all s rest : str_forall is_digit s = true → match rest with "" => True | String c _ => is_digit c = false end → take_digits (s +:+ rest) = (s, rest).
Proof.
  intros Hs Hr. induction s as [|c s IH]; [destruct rest as [|c rest]; [done|]; rewrite str_app_nil; cbn [take_digits]; by rewrite Hr|].
  cbn in Hs. apply andb_true_iff in Hs as [Hc Hs]. rewrite str_app_cons. cbn [take_digits]. rewrite Hc, IH by done. done.
Qed.
Lemma stops_digit rest : stops rest → match rest with "" => True | String c _ => is_digit c = false ∧ c2z c ≠ 46 ∧ c2z c ≠ 101 ∧ c2z c ≠ 69 end.
Proof. destruct rest as [|c rest]; [done|]. unfold stops, is_ws, is_digit. intros H. split_and!; lia. Qed.

Lemma strip_first p s c p' d s' : p = String c p' → s = String d s' → c ≠ d → strip p s = None.
Proof. intros -> -> Hne. unfold strip, HasPrefix. cbn [String.prefix]. by destruct (Ascii.ascii_dec c d). Qed.
Lemma number_digits c s rest : is_digit c = true → str_forall is_digit s = true → (c2z c = 48 → s = "") → stops rest →
  number_int (String c s +:+ rest) = Some (String c s, rest).
Proof.
  intros Hc Hs Hz Hr. rewrite str_app_cons. cbn [number_int]. destruct (Z.eqb_spec (c2z c) 48) as [E|E]; [by rewrite (Hz E)|].
  rewrite Hc, take_digits_all; [done|done|]. apply stops_digit in Hr. destruct rest; [done|]. apply Hr.
Qed.
Lemma number_end rest : stops rest → number_frac rest = Some ("", rest) ∧ number_exp rest = Some ("", rest).
Proof.
  intros Hr. apply stops_digit in Hr. destruct rest as [|c rest]; [done|]. destruct Hr as (_ & H1 & H2 & H3). cbn [number_frac number_exp].
  by rewrite !(proj2 (Z.eqb_neq _ _)).
Qed.

Lemma itoa_leading z : 0 < z → ∃ c s, itoa z = String c s ∧ c2z c ≠ 48.
Proof.
  intros Hz. destruct z as [|p|p]; [lia| |lia]. change (itoa (Z.pos p)) with (pretty_N_go (N.pos p) ""). generalize "" as acc. assert (N.pos p ≠ 0%N) as Hn by lia. clear Hz.
  revert Hn. generalize (N.pos p) as x. clear p. induction x as [x IH] using (well_founded_induction N.lt_wf_0); intros Hx acc. rewrite pretty_N_go_step by lia.
  destruct (decide (x / 10 = 0)%N) as [E|E]; [|apply IH; [apply N.div_lt; lia|done]]. rewrite E, pretty_N_go_0. do 2 eexists. split; [done|].
  assert (x < 10)%N by (apply N.div_small_iff; lia). rewrite N.mod_small by done. pose proof (digit_char x ltac:(done)) as [_ Hd]. lia.
Qed.
Lemma itoa_neg z : z < 0 → itoa z = String "-" (itoa (- z)).
Proof. intros Hz. by destruct z as [|p|p]; [lia|lia|]. Qed.
Lemma number_nat z rest : 0 <= z → stops rest → number_int (itoa z +:+ rest) = Some (itoa z, rest).
Proof.
  intros Hz Hr. destruct (decide (z = 0)) as [->|Hne]; [by apply (number_digits "0" "")|]. destruct (itoa_leading z ltac:(lia)) as (c & s & E & Hc). destruct (itoa_digits z Hz) as (_ & Hd & _).
  rewrite E in *. cbn in Hd. apply andb_true_iff in Hd as [H1 H2]. by apply number_digits.
Qed.
Lemma number_sign_nat z rest : 0 <= z → number_sign (itoa z +:+ rest) = ("", itoa z +:+ rest).
Proof.
  intros Hz. destruct (itoa_digits z Hz) as (H1 & H2 & _). destruct (itoa z) as [|c s]; [done|]. cbn in H2. apply andb_true_iff in H2 as [Hc _]. rewrite str_app_cons. cbn [number_sign].
  rewrite (proj2 (Z.eqb_neq _ _)); [done|]. unfold is_digit in Hc. lia.
Qed.
Lemma number_int_text z rest : stops rest → number (int_text z +:+ rest) = Some (int_text z, rest).
Proof.
  intros Hr. destruct (number_end rest Hr) as [Hf He]. unfold number, int_text. destruct (Z.lt_ge_cases z 0) as [Hz|Hz].
  - rewrite itoa_neg by done. rewrite str_app_cons. cbn [number_sign]. change (c2z "-" =? 45) with true. cbn iota. rewrite number_nat by (done || lia). cbn [mbind option_bind]. rewrite Hf. cbn [mbind option_bind]. rewrite He. cbn [mbind option_bind].
    by rewrite !str_app_nil_r.
  - rewrite number_sign_nat by done. rewrite number_nat by done. cbn [mbind option_bind]. rewrite Hf. cbn [mbind option_bind]. rewrite He. cbn [mbind option_bind]. by rewrite !str_app_nil_r, str_app_nil.
Qed.
Lemma int_text_starts z : ∃ c s, int_text z = String c s ∧ 45 <= c2z c <= 57.
Proof.
  unfold int_text. destruct (Z.lt_ge_cases z 0) as [Hz|Hz]; [rewrite itoa_neg by done; do 2 eexists; split; [done|]; vm_compute; by split|].
  destruct (itoa_digits z Hz) as (H1 & H2 & _). destruct (itoa z) as [|c s]; [done|]. cbn in H2. apply andb_true_iff in H2 as [Hc _]. unfold is_digit in Hc. do 2 eexists. split; [done|]. lia.
Qed.
Lemma parses_int z : parses 0 (int_text z) (JNumber (int_text z)).
Proof.
  destruct (int_text_starts z) as (c & s & E & Hc). split; [exists c, s; split; [done|]; unfold is_ws; lia|]. intros [|fuel] depth rest Hf _ Hr; [rewrite E in Hf; cbn in Hf; lia|].
  apply value_word; [exists c, s; split; [done|lia]|].
  assert (∀ p d p', p = String d p' → 58 <= c2z d → strip p (int_text z +:+ rest) = None) as Hstrip.
  { intros p d p' Hp Hd. rewrite E, str_app_cons. apply (strip_first _ _ d p' c (s +:+ rest)); [done|done|]. intros ->. lia. }
  rewrite (Hstrip "null" "n"%char "ull"), (Hstrip "true" "t"%char "rue"), (Hstrip "false" "f"%char "alse") by (done || (vm_compute; done)). by rewrite number_int_text.
Qed.
Lemma ParseInt_int_text z : - 2 ^ 63 <= z < 2 ^ 63 → ParseInt (int_text z) = Some z.
Proof.
  intros Hz. unfold int_text. destruct (Z.lt_ge_cases z 0) as [Hn|Hn]; [|apply ParseInt_itoa; lia]. rewrite itoa_neg by done. unfold ParseInt.
  destruct (itoa_digits (- z)) as (H1 & H2 & H3); [lia|]. destruct (itoa (- z)) as [|c s] eqn:E; [done|]. rewrite <-E in *. rewrite H3. cbn [mbind option_bind]. rewrite Z.opp_involutive.
  rewrite (proj2 (Z.leb_le _ _)), (proj2 (Z.ltb_lt _ _)) by lia. done.
Qed.

(** *** Objects and arrays *)

Definition named_text (m : string * (string * json)) : string * string := (m.1, m.2.1).
Definition stored_member (m : string * (string * json)) : string * (string * json) := (sanitize m.1, m.2).

Lemma stops_other c s : c2z c = 44 ∨ c2z c = 93 ∨ c2z c = 125 → stops (String c s) ∧ skip_ws (String c s) = String c s.
Proof. intros Hc. split; [by right|]. apply skip_ws_other. unfold is_ws. lia. Qed.
Lemma members_step fuel depth h m r : parses h m.2.1 m.2.2 → (2 * String.length m.2.1 <= fuel)%nat → depth + h <= maxNestingDepth → stops r →
  members_go (S fuel) depth (member_text (named_text m) +:+ r) =
  match skip_ws r with
  | "" => None
  | String e r =>
    if c2z e =? 125 then Some ([stored_member m], r)
    else if c2z e =? 44 then '(ms, r) ← members_go fuel depth (skip_ws r); Some (stored_member m :: ms, r)
    else None
  end.
Proof.
  intros Hp Hf Hd Hr. destruct m as [name [t v]]. cbn [fst snd] in *. unfold member_text, named_text, string_text, quoted. cbn [fst snd]. rewrite !str_app_cons, !str_app_assoc, !str_app_cons, !str_app_nil.
  cbn [members_go]. change (negb (c2z (z2c 34) =? 34)) with false. cbn iota. rewrite unquote_string_text. cbn [mbind option_bind]. change (skip_ws (String ":" (t +:+ r))) with (String ":" (t +:+ r)).
  cbn iota. change (negb (c2z ":" =? 58)) with false. cbn iota. rewrite (skip_ws_parses h t v) by done. rewrite (ps_value h t v Hp) by done. cbn [mbind option_bind]. by rewrite text_before_app.
Qed.
Lemma length_member_text m : (String.length m.2 + 3 <= String.length (member_text m))%nat.
Proof. unfold member_text, string_text, quoted. rewrite !length_str_app. cbn [String.length]. rewrite length_str_app. cbn. lia. Qed.
Lemma members_text m ms fuel depth h rest : Forall (λ m, parses h m.2.1 m.2.2) (m :: ms) → (2 * String.length (Join (member_text <$> (named_text <$> m :: ms)) ",") <= fuel)%nat → depth + h <= maxNestingDepth →
  members_go fuel depth (Join (member_text <$> (named_text <$> m :: ms)) "," +:+ "}" +:+ rest) = Some (stored_member <$> m :: ms, rest).
Proof.
  revert m fuel. induction ms as [|m' ms IH]; intros m fuel HF Hf Hd; apply Forall_cons_1 in HF as [Hm HF]; pose proof (length_member_text (named_text m)) as Hl; cbn [fmap list_fmap] in *.
  - cbn [Join] in *. destruct fuel as [|fuel]; [lia|]. destruct (stops_other "}" rest) as [Hs Hk]; [by right; right|]. cbn [named_text snd] in Hl.
    rewrite (members_step _ _ h); [|done|unfold named_text in *; cbn in *; lia|done|done]. rewrite str_app_cons, str_app_nil, Hk. done.
  - rewrite Join_cons in * by done. destruct (stops_other "," (Join (member_text (named_text m') :: (member_text <$> (named_text <$> ms))) "," +:+ "}" +:+ rest)) as [Hs Hk]; [by left|].
    rewrite !length_str_app in Hf. destruct fuel as [|fuel]; [unfold named_text in *; cbn in *; lia|]. rewrite !str_app_assoc. rewrite (str_app_cons "," ""), str_app_nil.
    rewrite (members_step _ _ h); [|done|unfold named_text in *; cbn in *; lia|done|done]. rewrite Hk. cbn iota. change (c2z "," =? 125) with false. change (c2z "," =? 44) with true. cbn iota.
    assert (skip_ws (Join (member_text (named_text m') :: (member_text <$> (named_text <$> ms))) "," +:+ "}" +:+ rest) = Join (member_text (named_text m') :: (member_text <$> (named_text <$> ms))) "," +:+ "}" +:+ rest) as ->.
    { destruct ms; cbn [fmap list_fmap]; [|rewrite Join_cons by done]; reflexivity. }
    specialize (IH m' fuel HF). cbn [fmap list_fmap] in IH. rewrite IH; [done| |done]. cbn in Hf. unfold named_text in *; cbn in *. lia.
Qed.
Lemma parses_struct h ms : 0 <= h → Forall (λ m, parses h m.2.1 m.2.2) ms → parses (h + 1) (struct_text (named_text <$> ms)) (JObject (stored_member <$> ms)).
Proof.
  intros Hh HF. unfold struct_text. split; [eexists _, _; split; [done|by vm_compute]|]. intros fuel depth rest Hf Hd Hr. rewrite str_app_cons, str_app_nil in *. rewrite str_app_cons, str_app_assoc.
  cbn [String.length] in Hf. rewrite length_str_app in Hf. destruct fuel as [|fuel]; [lia|]. cbn [value_go]. change (c2z "{" =? 123) with true. cbn iota. rewrite (proj2 (Z.leb_gt _ _)) by lia.
  destruct ms as [|m ms]; [reflexivity|]. pose proof (members_text m ms fuel (depth + 1) h rest HF) as Hm.
  assert (∃ s, Join (member_text <$> (named_text <$> m :: ms)) "," = String (z2c 34) s) as [s Es]. { destruct ms; cbn [fmap list_fmap]; [|rewrite Join_cons by done]; by eexists. }
  rewrite Es in *. rewrite str_app_cons in *. rewrite skip_ws_other by done. cbn iota. change (c2z (z2c 34) =? 125) with false. cbn iota. rewrite Hm; [done|cbn in *; lia|lia].
Qed.
(** The same for names that are valid text. *)
Lemma parses_object h ms : 0 <= h → Forall (λ m, valid_utf8 m.1 ∧ parses h m.2.1 m.2.2) ms → parses (h + 1) (struct_text (named_text <$> ms)) (JObject ms).
Proof.
  intros Hh HF. pose proof (parses_struct h ms Hh) as Hp. replace (stored_member <$> ms) with ms in Hp.
  - apply Hp. eapply Forall_impl; [done|]. by intros m [_ ?].
  - symmetry. rewrite <-(list_fmap_id ms) at 2. apply list_fmap_ext. intros i [name x] Hi. destruct (Forall_lookup_1 _ _ _ _ HF Hi) as [Hn _]. unfold stored_member. cbn [fst snd] in *. by rewrite Hn.
Qed.
Lemma elems_text t ts fuel depth h rest : Forall (λ x, parses h x.1 x.2) (t :: ts) → (2 * String.length (Join ((t :: ts).*1) ",") < fuel)%nat → depth + h <= maxNestingDepth →
  elems_go fuel depth (Join ((t :: ts).*1) "," +:+ "]" +:+ rest) = Some ((t :: ts).*2, rest).
Proof.
  revert t fuel. induction ts as [|t' ts IH]; intros t fuel HF Hf Hd; apply Forall_cons_1 in HF as [Ht HF]; cbn [fmap list_fmap] in *.
  - cbn [Join] in *. destruct fuel as [|fuel]; [lia|]. destruct (stops_other "]" rest) as [Hs Hk]; [by right; left|]. cbn [elems_go]. rewrite str_app_cons, str_app_nil.
    rewrite (ps_value h t.1 t.2) by (done || lia). cbn [mbind option_bind]. by rewrite Hk.
  - rewrite Join_cons in * by done. destruct (stops_other "," (Join (t'.1 :: ts.*1) "," +:+ "]" +:+ rest)) as [Hs Hk]; [by left|].
    rewrite !length_str_app in Hf. destruct fuel as [|fuel]; [lia|]. rewrite !str_app_assoc. rewrite (str_app_cons "," ""), str_app_nil. cbn [elems_go].
    rewrite (ps_value h t.1 t.2) by (done || lia). cbn [mbind option_bind]. rewrite Hk. change (c2z "," =? 93) with false. change (c2z "," =? 44) with true. cbn iota.
    assert (skip_ws (Join (t'.1 :: ts.*1) "," +:+ "]" +:+ rest) = Join (t'.1 :: ts.*1) "," +:+ "]" +:+ rest) as ->.
    { pose proof (Forall_inv HF) as [(c & s & E & Hc & _) _]. destruct ts; cbn [fmap list_fmap]; [cbn [Join]|rewrite Join_cons by done]; rewrite E; by apply skip_ws_other. }
    specialize (IH t' fuel HF). cbn [fmap list_fmap] in IH. rewrite IH; [done| |done]. change (String.length ",") with 1%nat in Hf. lia.
Qed.
Lemma parses_array h ts : 0 <= h → Forall (λ x, parses h x.1 x.2) ts → parses (h + 1) (array_text (ts.*1)) (JArray (ts.*2)).
Proof.
  intros Hh HF. unfold array_text. split; [eexists _, _; split; [done|by vm_compute]|]. intros fuel depth rest Hf Hd Hr. rewrite str_app_cons, str_app_nil in *. rewrite str_app_cons, str_app_assoc.
  cbn [String.length] in Hf. rewrite length_str_app in Hf. destruct fuel as [|fuel]; [lia|]. cbn [value_go]. change (c2z "[" =? 123) with false. change (c2z "[" =? 91) with true. cbn iota. rewrite (proj2 (Z.leb_gt _ _)) by lia.
  destruct ts as [|t ts]; [reflexivity|]. pose proof (elems_text t ts fuel (depth + 1) h rest HF) as Hm.
  assert (∃ c s, Join ((t :: ts).*1) "," = String c s ∧ is_ws c = false ∧ c2z c ≠ 93) as (c & s & Es & Hc & Hne).
  { pose proof (Forall_inv HF) as [(c & s & E & Hc & Hn) _]. destruct ts; cbn [fmap list_fmap]; [cbn [Join]|rewrite Join_cons by done]; rewrite E; eauto. }
  rewrite Es in *. rewrite str_app_cons in *. rewrite skip_ws_other by done. rewrite (proj2 (Z.eqb_neq _ _)) by done. rewrite Hm; [done|cbn in *; lia|lia].
Qed.

(** *** Lengths *)

Lemma escape_go_length n s : (String.length s <= n)%nat → (String.length s <= String.length (escape_go n s))%nat.
Proof.
  revert s. induction n as [|n IH]; intros s Hn; [destruct s; cbn in *; lia|]. destruct s as [|c s]; [done|]. cbn [escape_go]. pose proof (DecodeRune_cases c s) as Hf. pose proof (DecodeRune_shorter c s) as Hs.
  destruct (DecodeRune (String c s)) as [[r w] rest]. destruct Hf as [Hv Hf]. rewrite length_str_app. specialize (IH rest ltac:(cbn in Hn; lia)).
  assert (String.length (String c s) <= String.length (escape_rune c r w) + String.length rest)%nat; [|lia]. pose proof (escape_rune_nonempty c r w Hv) as H1.
  destruct Hf as [[He ->]|(_ & _ & _ & ->)]; [|cbn; lia]. rewrite He, length_str_app. unfold escape_rune in *. destruct (Z.ltb_spec (c2z c) 128) as [Hc|Hc].
  - enough (String.length (EncodeRune r) = 1%nat) by lia. unfold EncodeRune in *. destruct (r <? 128) eqn:E1; [done|]. destruct (r <? 0x800) eqn:E2; [|destruct (r <? 0x10000) eqn:E3]; rewrite ?str_app_cons in He; injection He as Hc' _; rewrite Hc' in Hc; rewrite c2z_z2c in Hc; unfold valid_rune in Hv; Z.div_mod_to_equations; lia.
  - destruct (_ && _) eqn:E1; [apply andb_true_iff in E1 as [->%Z.eqb_eq _]; by apply Nat.add_le_mono_r, Nat.leb_le|]. destruct (_ || _) eqn:E2; [|lia].
    apply orb_true_iff in E2 as [->%Z.eqb_eq| ->%Z.eqb_eq]; by apply Nat.add_le_mono_r, Nat.leb_le.
Qed.
Lemma string_text_length s : (String.length s <= String.length (string_text s))%nat.
Proof. unfold string_text, quoted. cbn [String.length]. rewrite length_str_app. pose proof (escape_go_length (String.length s) s). lia. Qed.
Lemma Join_length x parts sep : x ∈ parts → (String.length x <= String.length (Join parts sep))%nat.
Proof.
  induction parts as [|p parts IH]; [by intros ?%not_elem_of_nil|]. intros Hx. destruct parts as [|q parts]; [apply list_elem_of_singleton in Hx as ->; done|]. rewrite Join_cons, !length_str_app by done.
  apply elem_of_cons in Hx as [->|Hx]; [lia|]. specialize (IH Hx). lia.
Qed.
Lemma struct_text_length m ms : m ∈ ms → (String.length m.2 <= String.length (struct_text ms))%nat.
Proof.
  intros Hm. unfold struct_text. rewrite !length_str_app. pose proof (Join_length (member_text m) (member_text <$> ms) ",") as Hj. specialize (Hj (list_elem_of_fmap_2 _ _ _ Hm)).
  pose proof (length_member_text m). lia.
Qed.

(** *** Compaction keeps text that is written by the encoder *)

Definition compacts (t : string) : Prop := ∀ rest, compact_go false (t +:+ rest) = t +:+ compact_go false rest.

Lemma compact_inside c s : c2z c ≠ 60 → c2z c ≠ 62 → c2z c ≠ 38 → c2z c ≠ 34 → c2z c ≠ 92 → c2z c ≠ 0xE2 → compact_go true (String c s) = String c (compact_go true s).
Proof.
  intros. cbn [compact_go negb]. rewrite !(proj2 (Z.eqb_neq _ _)) by done. cbn [orb andb]. by destruct s as [|d [|e s]].
Qed.
Lemma compact_inside_e2 d e s : ¬ (d = z2c 0x80 ∧ (e = z2c 0xA8 ∨ e = z2c 0xA9)) → compact_go true (String (z2c 0xE2) (String d (String e s))) = String (z2c 0xE2) (compact_go true (String d (String e s))).
Proof.
  intros Hn. cbn [compact_go negb]. change (c2z (z2c 0xE2)) with 0xE2. cbn [Z.eqb Pos.eqb orb andb]. destruct ((c2z d =? 128) && ((c2z e =? 168) || (c2z e =? 169))) eqn:E; [|done].
  exfalso. apply Hn. split; [rewrite <-(z2c_c2z d); f_equal; lia|]. rewrite <-(z2c_c2z e). assert (c2z e = 168 ∨ c2z e = 169) as [-> | ->] by lia; auto.
Qed.
Lemma compact_ascii c s : c2z c < 128 → compact_go true (escape_ascii c +:+ s) = escape_ascii c +:+ compact_go true s.
Proof.
  destruct c as [[] [] [] [] [] [] [] []]; intros Hc; try (exfalso; revert Hc; vm_compute; congruence);
    try (destruct s as [|d [|e s]]; reflexivity).
Qed.
Lemma compact_uescape r s : r = RuneError ∨ r = 0x2028 ∨ r = 0x2029 → compact_go true (uescape r +:+ s) = uescape r +:+ compact_go true s.
Proof. intros [-> |[-> | ->]]; destruct s as [|d [|e s]]; reflexivity. Qed.
Lemma compact_high b s : 128 <= b < 256 → b ≠ 0xE2 → compact_go true (String (z2c b) s) = String (z2c b) (compact_go true s).
Proof. intros. apply compact_inside; rewrite c2z_z2c; lia. Qed.
Lemma compact_encoded r s : valid_rune r → 128 <= r → r ≠ 0x2028 → r ≠ 0x2029 → compact_go true (EncodeRune r +:+ s) = EncodeRune r +:+ compact_go true s.
Proof.
  unfold valid_rune. intros Hv Hr H1 H2. unfold EncodeRune. rewrite (proj2 (Z.ltb_ge r 128)) by done.
  destruct (Z.ltb_spec r 0x800); [|destruct (Z.ltb_spec r 0x10000)]; rewrite ?str_app_cons, ?str_app_nil.
  - rewrite !compact_high by (Z.div_mod_to_equations; lia). done.
  - assert (∀ x, 0 <= x < 64 → 128 <= 128 + x < 256 ∧ 128 + x ≠ 0xE2) as Hcont by lia.
    destruct (decide (0xE0 + r `div` 4096 = 0xE2)) as [E|E]; [|rewrite compact_high by (Z.div_mod_to_equations; lia); rewrite !compact_high by (apply Hcont, Z.mod_pos_bound; lia); done].
    rewrite E. rewrite compact_inside_e2; [rewrite !compact_high by (apply Hcont, Z.mod_pos_bound; lia); done|].
    intros [Ha Hb]. apply (f_equal c2z) in Ha. rewrite !c2z_z2c in Ha by (Z.div_mod_to_equations; lia).
    assert (r `mod` 64 = 40 ∨ r `mod` 64 = 41) as Hm. { destruct Hb as [Hb|Hb]; apply (f_equal c2z) in Hb; rewrite !c2z_z2c in Hb by (Z.div_mod_to_equations; lia); lia. }
    Z.div_mod_to_equations; lia.
  - rewrite !compact_high by (Z.div_mod_to_equations; lia). done.
Qed.
Lemma compact_escape n s rest : compact_go true (escape_go n s +:+ String (z2c 34) rest) = escape_go n s +:+ String (z2c 34) (compact_go false rest).
Proof.
  revert s. induction n as [|n IH]; intros [|c s]; try reflexivity. cbn [escape_go]. pose proof (DecodeRune_cases c s) as Hf. destruct (DecodeRune (String c s)) as [[r w] s'] eqn:E. destruct Hf as [Hv Hf].
  rewrite !str_app_assoc. rewrite <-(IH s'). unfold escape_rune. destruct (Z.ltb_spec (c2z c) 128) as [Hc|Hc]; [by apply compact_ascii|].
  destruct ((r =? RuneError) && (w =? 1)%nat) eqn:E1; [apply compact_uescape; by left|]. destruct ((r =? 0x2028) || (r =? 0x2029)) eqn:E2; [apply compact_uescape; apply orb_true_iff in E2 as [?%Z.eqb_eq|?%Z.eqb_eq]; auto|].
  apply compact_encoded; [done| |lia|lia]. destruct Hf as [[Hs _]|(_ & -> & _)]; [|done].
  destruct (Z.le_gt_cases 128 r); [done|]. unfold EncodeRune in Hs. rewrite (proj2 (Z.ltb_lt _ _)) in Hs by lia. injection Hs as -> _. rewrite c2z_z2c in Hc; unfold valid_rune in Hv; lia.
Qed.
Lemma compacts_string s : compacts (string_text s).
Proof.
  intros rest. unfold string_text, quoted. rewrite !str_app_cons, !str_app_assoc, !str_app_cons, !str_app_nil. rewrite <-compact_escape. reflexivity.
Qed.
(** Text without white space, quotes and special characters. *)
Definition plain_char (c : char) : bool := negb (is_ws c) && negb ((c2z c =? 60) || (c2z c =? 62) || (c2z c =? 38)) && negb (c2z c =? 34).
Lemma compacts_plain t : str_forall plain_char t = true → compacts t.
Proof.
  intros Ht rest. induction t as [|c t IH]; [done|]. cbn in Ht. apply andb_true_iff in Ht as [Hc Ht]. unfold plain_char in Hc. rewrite !andb_true_iff, !negb_true_iff in Hc. destruct Hc as [[H1 H2] H3].
  rewrite !str_app_cons. cbn [compact_go negb]. by rewrite H1, H2, H3, IH.
Qed.
Lemma compacts_app a b : compacts a → compacts b → compacts (a +:+ b).
Proof. intros Ha Hb rest. by rewrite !str_app_assoc, Ha, Hb. Qed.
Lemma compacts_Join ts sep : Forall compacts ts → compacts sep → compacts (Join ts sep).
Proof.
  intros HF Hs. induction HF as [|t ts Ht HF IH]; [by intros rest|]. destruct ts as [|t' ts]; [done|]. rewrite Join_cons by done. apply compacts_app; [done|]. by apply compacts_app.
Qed.
Lemma compacts_struct ms : Forall (λ m, compacts m.2) ms → compacts (struct_text ms).
Proof.
  intros HF. unfold struct_text. apply compacts_app; [by apply compacts_plain|]. apply compacts_app; [|by apply compacts_plain]. apply compacts_Join; [|by apply compacts_plain].
  apply Forall_fmap. eapply Forall_impl; [done|]. intros m Hm. apply compacts_app; [apply compacts_string|]. apply compacts_app; [by apply compacts_plain|done].
Qed.
Lemma compacts_array ts : Forall compacts ts → compacts (array_text ts).
Proof. intros HF. unfold array_text. apply compacts_app; [by apply compacts_plain|]. apply compacts_app; [|by apply compacts_plain]. apply compacts_Join; [done|by apply compacts_plain]. Qed.
Lemma compacts_int z : compacts (int_text z).
Proof.
  assert (∀ z, 0 <= z → compacts (itoa z)) as Hnat.
  { intros x Hx. apply compacts_plain. destruct (itoa_digits x Hx) as (_ & Hd & _). eapply str_forall_impl; [|done]. intros c. unfold is_digit, plain_char, is_ws. intros. lia. }
  unfold int_text. destruct (Z.lt_ge_cases z 0) as [Hz|Hz]; [|by apply Hnat]. rewrite itoa_neg by done. apply (compacts_app "-"); [by apply compacts_plain|]. apply Hnat. lia.
Qed.
Lemma compacts_raw t : compacts t → raw_text (Some t) = t.
Proof. intros Ht. cbn. specialize (Ht ""). rewrite str_app_nil_r in Ht. rewrite Ht. apply str_app_nil_r. Qed.

(** *** Decoding of what is written *)

Section Unmarshal.
Context `{JSONErrors}.
Lemma unmarshal_text {A} (d : decoder A) (zero a : A) h t v : parses h t v → h <= maxNestingDepth → d zero t v = (a, false) → unmarshal d zero t = (a, None).
Proof. intros Hp Hh Hd. unfold unmarshal. rewrite (parses_json h t v) by done. by rewrite Hd. Qed.
Lemma unmarshal_ok_text {A} (d : decoder A) (zero a : A) h t v : parses h t v → h <= maxNestingDepth → d zero t v = (a, false) → unmarshal_ok d zero t = Ok a.
Proof. intros Hp Hh Hd. unfold unmarshal_ok. by rewrite (unmarshal_text d zero a h t v). Qed.
End Unmarshal.

Definition strings_text (ss : list string) : string := array_text (string_text <$> ss).
Lemma parses_strings ss : Forall valid_utf8 ss → parses 1 (strings_text ss) (JArray (JString <$> ss)).
Proof.
  intros Hv. pose proof (parses_array 0 ((λ s, (string_text s, JString (sanitize s))) <$> ss)) as Hp. rewrite <-!list_fmap_compose in Hp. change (0 + 1) with 1 in Hp.
  replace (JString <$> ss) with (snd ∘ (λ s, (string_text s, JString (sanitize s))) <$> ss); [apply Hp; [done|]|].
  - apply Forall_fmap, Forall_true. intros s. apply parses_string.
  - apply list_fmap_ext. intros i s Hs. cbn. f_equal. by apply (Forall_lookup_1 _ _ _ _ Hv Hs).
Qed.
Lemma parses_utf8 s : valid_utf8 s → parses 0 (string_text s) (JString s).
Proof. intros Hs. pose proof (parses_string s) as Hp. by rewrite Hs in Hp. Qed.
Lemma dec_strings_text ss text : dec_strings [] text (JArray (JString <$> ss)) = (ss, false).
Proof.
  unfold dec_strings. assert (imap (λ i v, dec_string (default "" ([] !! i)) "" v) (JString <$> ss) = (λ s, (s, false)) <$> ss) as ->.
  { apply list_eq. intros i. rewrite list_lookup_imap, !list_lookup_fmap. by destruct (ss !! i). }
  f_equal; [rewrite <-list_fmap_compose; apply list_fmap_id|]. by induction ss.
Qed.

Lemma dec_int_text z old text : - 2 ^ 63 <= z < 2 ^ 63 → dec_int old text (JNumber (int_text z)) = (z, false).
Proof. intros Hz. unfold dec_int. by rewrite ParseInt_int_text. Qed.
(** A member whose value fits its field. *)
Lemma dec_member_on {A B} (fields : list (string * decoder A)) (st : A) name text v (get : A → B) set d b :
  find_field fields name = Some (on get set d) → valid_utf8 name → d (get st) text v = (b, false) →
  dec_member fields (st, false) (stored_member (name, (text, v))) = (set st b, false).
Proof. intros Hf Hn Hd. unfold dec_member, stored_member, on in *. cbn [fst snd]. rewrite Hn, Hf. by rewrite Hd. Qed.

(** A member that is no field. *)
Lemma dec_member_skip {A} (fields : list (string * decoder A)) st name tv :
  find_field fields name = None → valid_utf8 name → dec_member fields st (stored_member (name, tv)) = st.
Proof. intros Hf Hn. unfold dec_member, stored_member. cbn [fst snd]. by rewrite Hn, Hf. Qed.

Lemma put_key_fresh {V} (m : list (string * V)) k v : k ∉ m.*1 → put_key m k v = m ++ [(k, v)].
Proof.
  induction m as [|[k' v'] m IH]; intros Hk; [done|]. cbn in *. apply not_elem_of_cons in Hk as [Hne Hk]. rewrite IH by done.
  by rewrite (proj2 (String.eqb_neq _ _)).
Qed.
Lemma put_key_keys {V} (m : list (string * V)) k v x : x ∈ (put_key m k v).*1 ↔ x = k ∨ x ∈ m.*1.
Proof.
  induction m as [|[k' v'] m IH]; cbn; [rewrite list_elem_of_singleton, elem_of_nil; tauto|]. destruct (String.eqb_spec k k') as [->|Hne]; cbn; rewrite !elem_of_cons; [tauto|]. rewrite IH. tauto.
Qed.
Lemma put_key_NoDup {V} (m : list (string * V)) k v : NoDup m.*1 → NoDup (put_key m k v).*1.
Proof.
  induction m as [|[k' v'] m IH]; intros Hn; cbn; [apply NoDup_singleton|]. cbn in Hn. apply NoDup_cons in Hn as [Hk Hn].
  destruct (String.eqb_spec k k') as [->|Hne]; cbn; [by apply NoDup_cons|]. apply NoDup_cons. split; [|by apply IH]. rewrite put_key_keys. naive_solver.
Qed.
(** The entries of a map with distinct names are decoded one by one. *)
Lemma dec_map_entries {A} (zero : A) (d : decoder A) (es : list (string * A)) (enc : A → string * json) text :
  Forall (λ e, d zero (enc e.2).1 (enc e.2).2 = (e.2, false)) es → NoDup es.*1 → dec_map zero d [] text (JObject ((λ e, (e.1, enc e.2)) <$> es)) = (es, false).
Proof.
  intros HF Hn. unfold dec_map. enough (∀ acc, NoDup (acc ++ es).*1 →
    fold_left (λ st m, let '(a, e) := d zero m.2.1 m.2.2 in (put_key st.1 m.1 a, st.2 || e)) ((λ e, (e.1, enc e.2)) <$> es) (acc, false) = (acc ++ es, false)) as Hall by by apply (Hall []).
  clear Hn. induction HF as [|[k a] es Hd HF IH]; intros acc Hn; [by rewrite app_nil_r|]. cbn [fmap list_fmap fold_left fst snd] in *. rewrite Hd.
  rewrite fmap_app in Hn. rewrite put_key_fresh by (intros Hk; apply NoDup_app in Hn as (_ & Hn & _); apply (Hn k Hk); by left). cbn [orb].
  rewrite IH; [by rewrite <-app_assoc|]. rewrite !fmap_app. rewrite <-app_assoc. done.
Qed.

(** Sorting by name does not look at the values. *)
Lemma insert_member_fmap {V W} (f : V → W) m ms : insert_member (m.1, f m.2) ((λ m, (m.1, f m.2)) <$> ms) = (λ m, (m.1, f m.2)) <$> insert_member m ms.
Proof. induction ms as [|m' ms IH]; [done|]. cbn. destruct (String.ltb m.1 m'.1); [done|]. cbn. by rewrite IH. Qed.
Lemma sort_members_fmap {V W} (f : V → W) ms : sort_members ((λ m, (m.1, f m.2)) <$> ms) = (λ m, (m.1, f m.2)) <$> sort_members ms.
Proof. induction ms as [|m ms IH]; [done|]. cbn. rewrite <-insert_member_fmap. f_equal. done. Qed.
Lemma insert_member_perm {V} (m : string * V) ms : insert_member m ms ≡ₚ m :: ms.
Proof. induction ms as [|m' ms IH]; [done|]. cbn. destruct (String.ltb m.1 m'.1); [done|]. rewrite IH. constructor. Qed.
Lemma sort_members_perm {V} (ms : list (string * V)) : sort_members ms ≡ₚ ms.
Proof. induction ms as [|m ms IH]; [done|]. cbn. by rewrite insert_member_perm, IH. Qed.

(** Decodes the members of an object one after the other. *)
Ltac dec_value := first [reflexivity | apply dec_strings_text | apply dec_int_text; done].
Ltac dec_fields := cbn [fmap list_fmap]; unfold dec_struct; cbn [fold_left];
  repeat first [erewrite dec_member_on; [|reflexivity|by vm_compute|dec_value] | rewrite dec_member_skip; [|reflexivity|by vm_compute]].
