(* ===== verification/GoRuntime.v ===== *)
(** * What Go leaves open: the order of map iteration and of equal elements

    A [for ... range] over a map visits its entries in an unspecified order, and
    [sort.Slice] leaves the order of equal elements unspecified.  The
    definitions that use them take a [GoRuntime], which decides both; the
    theorems hold for every runtime that satisfies [RuntimeOk], and several of
    them say that the result does not depend on the runtime at all.  The file
    also holds the model of [time.Time] and [time.Duration]. *)

From S2P Require Import Prelude GoStrings.

(** ** Orders *)

(** A comparison function for [sort.Slice]: a strict weak order. *)
Record strict_weak {A} (less : A → A → bool) : Prop := {
  sw_asymm a b : less a b = true → less b a = false;
  sw_trans a b c : less b a = false → less c b = false → less c a = false }.

Lemma strict_weak_Z : strict_weak Z.ltb.
Proof. split; intros *; rewrite ?Z.ltb_lt, ?Z.ltb_ge; lia. Qed.
Lemma strict_weak_string : strict_weak String.ltb.
Proof.
  assert (∀ a b, String.ltb a b = false ↔ String.le b a) as Hle.
  { intros a b. unfold String.le, String.leb, String.ltb. rewrite (String.compare_antisym a b).
    destruct (String.compare b a); simpl; split; naive_solver. }
  split.
  - intros a b Hab. apply Hle. unfold String.ltb, String.le, String.leb in *.
    by destruct (String.compare a b).
  - intros a b c. rewrite !Hle. intros ??. by etrans.
Qed.
Lemma string_ltb_irrefl a : String.ltb a a = false.
Proof. destruct strict_weak_string as [Ha _]. destruct (String.ltb a a) eqn:E; [|done]. by rewrite (Ha _ _ E) in E. Qed.
Lemma strict_weak_key {A K} (key : A → K) less : strict_weak less → strict_weak (λ a b, less (key a) (key b)).
Proof. intros [Ha Ht]. split; intros *; [apply Ha|apply Ht]. Qed.
(** Order by [less], and equal elements by [tie]. *)
Lemma strict_weak_lex {A} (less tie : A → A → bool) :
  strict_weak less → strict_weak tie →
  strict_weak (λ a b, less a b || (negb (less b a) && tie a b)).
Proof.
  intros [La Lt] [Ta Tt]. split.
  - intros a b. rewrite orb_true_iff, orb_false_iff, andb_true_iff, negb_true_iff.
    intros [H|[H1 H2]].
    + split; [by apply La|]. by rewrite H.
    + split; [done|]. rewrite (Ta _ _ H2). apply andb_false_r.
  - intros a b c. rewrite !orb_false_iff, !andb_false_iff, !negb_false_iff.
    intros [H1 H2] [H3 H4]. split; [by apply (Lt a b c)|].
    destruct (less a c) eqn:Hac; [by left|right].
    destruct H2 as [H2|H2]; [by rewrite (Lt b c a) in H2|].
    destruct H4 as [H4|H4]; [by rewrite (Lt c a b) in H4|]. by apply (Tt a b c).
Qed.

(** The same among the elements that satisfy [P]. *)
Record strict_weak_on {A} (P : A → Prop) (less : A → A → bool) : Prop := {
  swo_asymm a b : P a → P b → less a b = true → less b a = false;
  swo_trans a b c : P a → P b → P c → less b a = false → less c b = false → less c a = false }.

Lemma strict_weak_on_ext {A} (P : A → Prop) (less less' : A → A → bool) :
  (∀ a b, P a → P b → less a b = less' a b) → strict_weak less' → strict_weak_on P less.
Proof.
  intros Heq [Ha Ht]. split.
  - intros a b Pa Pb. rewrite !Heq by done. apply Ha.
  - intros a b c Pa Pb Pc. rewrite !Heq by done. apply Ht.
Qed.

(** ** The runtime *)

Class GoRuntime := {
  sort_slice {A} : (A → A → bool) → list A → list A;
  map_entries {K V} `{Countable K} : gmap K V → list (K * V) }.

Class RuntimeOk (R : GoRuntime) : Prop := {
  sort_perm {A} (less : A → A → bool) l : sort_slice less l ≡ₚ l;
  sort_sorted_on {A} (less : A → A → bool) l :
    strict_weak_on (.∈ l) less → Sorted (λ a b, less b a = false) (sort_slice less l);
  entries_perm {K V} `{Countable K} (m : gmap K V) : map_entries m ≡ₚ map_to_list m }.

(** The keys of a map, in iteration order. *)
Definition map_keys `{GoRuntime} {K V} `{Countable K} (m : gmap K V) : list K := (map_entries m).*1.

Section Runtime.
Context {R : GoRuntime} {HR : RuntimeOk R}.

Lemma StronglySorted_impl {A} (P Q : A → A → Prop) (l : list A) : (∀ x y, P x y → Q x y) → StronglySorted P l → StronglySorted Q l.
Proof. intros HPQ. induction 1; constructor; [done|]. eapply Forall_impl; [done|]. auto. Qed.
Lemma sort_sorted {A} (less : A → A → bool) l : strict_weak less → Sorted (λ a b, less b a = false) (sort_slice less l).
Proof. intros Hw. apply sort_sorted_on. by apply (strict_weak_on_ext _ less less). Qed.
Lemma Sorted_strongly_on {A} (P : A → Prop) (rel : A → A → Prop) (l : list A) :
  (∀ a b c, P a → P b → P c → rel a b → rel b c → rel a c) → Forall P l → Sorted rel l → StronglySorted rel l.
Proof.
  intros Ht. induction l as [|a l IH]; intros Hl Hs; [constructor|]. inversion_clear Hl as [|? ? Pa Pl]. inversion_clear Hs as [|? ? Hl Hhd].
  specialize (IH Pl Hl). constructor; [done|]. destruct Hhd as [|b l Hab]; [constructor|]. inversion_clear Pl as [|? ? Pb Pl']. inversion_clear IH as [|? ? _ Hb].
  constructor; [done|]. rewrite Forall_forall in Hb, Pl' |- *. intros c Hc. apply (Ht a b c); auto.
Qed.
Lemma sort_strongly_on {A} (P : A → Prop) (less : A → A → bool) l :
  strict_weak_on P less → Forall P l → StronglySorted (λ a b, less b a = false) (sort_slice less l).
Proof.
  intros Hw Hl. apply (Sorted_strongly_on P); [intros a b c Pa Pb Pc; by apply (swo_trans _ _ Hw a b c)|by rewrite sort_perm|].
  apply sort_sorted_on. rewrite Forall_forall in Hl. destruct Hw as [Ha Ht]. split; intros *; eauto.
Qed.
Lemma sort_strongly_sorted {A} (less : A → A → bool) l :
  strict_weak less → StronglySorted (λ a b, less b a = false) (sort_slice less l).
Proof. intros Hw. apply (sort_strongly_on (λ _, True)); [by apply (strict_weak_on_ext _ less less)|by apply Forall_forall]. Qed.
Lemma elem_of_sort {A} (less : A → A → bool) l x : x ∈ sort_slice less l ↔ x ∈ l.
Proof. by rewrite sort_perm. Qed.
Lemma entries_NoDup {K V} `{Countable K} (m : gmap K V) : NoDup (map_keys m).
Proof. unfold map_keys. rewrite entries_perm. apply NoDup_fst_map_to_list. Qed.
Lemma elem_of_entries {K V} `{Countable K} (m : gmap K V) k v : (k, v) ∈ map_entries m ↔ m !! k = Some v.
Proof. rewrite entries_perm. apply elem_of_map_to_list. Qed.
End Runtime.

(** Two runtimes sort permutations of the same list to the same list when no
    two different elements are equal for the order. *)
Lemma sort_slice_eq {R1 R2 : GoRuntime} {H1 : RuntimeOk R1} {H2 : RuntimeOk R2} {A} (less : A → A → bool) l1 l2 :
  strict_weak less → l1 ≡ₚ l2 →
  (∀ a b, a ∈ l1 → b ∈ l1 → less a b = false → less b a = false → a = b) →
  sort_slice (GoRuntime := R1) less l1 = sort_slice (GoRuntime := R2) less l2.
Proof.
  intros Hw Hp Heq. apply (StronglySorted_unique_strong (λ a b, less b a = false)).
  - intros a b Ha%elem_of_sort Hb%elem_of_sort. rewrite <-Hp in Hb. auto.
  - by apply sort_strongly_sorted.
  - by apply sort_strongly_sorted.
  - by rewrite !sort_perm.
Qed.
(** Elements with distinct keys, sorted by key. *)
Lemma ltb_antisym a b : String.ltb a b = false → String.ltb b a = false → a = b.
Proof.
  unfold String.ltb. rewrite (String.compare_antisym a).
  destruct (String.compare b a) eqn:E; try done. intros _ _. symmetry. by apply String.compare_eq_iff.
Qed.
Lemma NoDup_fmap_inj_in {A K} (key : A → K) (l : list A) a b :
  NoDup (key <$> l) → a ∈ l → b ∈ l → key a = key b → a = b.
Proof.
  intros Hn [i Hi]%list_elem_of_lookup [j Hj]%list_elem_of_lookup Hk.
  assert (i = j) as ->; [|congruence].
  apply (NoDup_lookup _ _ _ (key a) Hn); rewrite list_lookup_fmap; [by rewrite Hi|by rewrite Hj, Hk].
Qed.
Lemma key_sorted_unique {A} (key : A → string) (l1 l2 : list A) :
  l1 ≡ₚ l2 → NoDup (key <$> l1) →
  Sorted (λ a b, String.ltb (key b) (key a) = false) l1 → Sorted (λ a b, String.ltb (key b) (key a) = false) l2 →
  l1 = l2.
Proof.
  intros Hp Hn. pose proof (strict_weak_key key _ strict_weak_string) as Hw.
  assert (Transitive (λ a b, String.ltb (key b) (key a) = false)).
  { intros a b c ??. by apply (sw_trans _ Hw a b c). }
  intros S1%Sorted_StronglySorted S2%Sorted_StronglySorted; [|done..].
  apply (StronglySorted_unique_strong (λ a b, String.ltb (key b) (key a) = false)); try done.
  intros a b Ha Hb Hab Hba. rewrite <-Hp in Hb. apply (NoDup_fmap_inj_in key l1); try done. by apply ltb_antisym.
Qed.
Lemma sort_slice_key_eq {R1 R2 : GoRuntime} {H1 : RuntimeOk R1} {H2 : RuntimeOk R2} {A} (key : A → string) l1 l2 :
  l1 ≡ₚ l2 → NoDup (key <$> l1) →
  sort_slice (GoRuntime := R1) (λ a b, String.ltb (key a) (key b)) l1 =
  sort_slice (GoRuntime := R2) (λ a b, String.ltb (key a) (key b)) l2.
Proof.
  intros Hp Hn. pose proof (strict_weak_key key _ strict_weak_string) as Hw.
  apply (key_sorted_unique key).
  - by rewrite !sort_perm.
  - by rewrite sort_perm.
  - by apply (sort_sorted (λ a b, String.ltb (key a) (key b))).
  - by apply (sort_sorted (λ a b, String.ltb (key a) (key b))).
Qed.

(** *** A concrete runtime: stable insertion sort and the order of the keys'
    encodings. *)
Fixpoint insert_by {A} (less : A → A → bool) (x : A) (l : list A) : list A :=
  match l with
  | [] => [x]
  | y :: l => if less x y then x :: y :: l else y :: insert_by less x l
  end.
Definition insertion_sort {A} (less : A → A → bool) (l : list A) : list A :=
  fold_left (λ acc x, insert_by less x acc) l [].

Definition go_runtime : GoRuntime :=
  {| sort_slice := @insertion_sort; map_entries := λ K V _ _ m, map_to_list m |}.
(** The same with maps visited backwards. *)
Definition go_runtime_rev : GoRuntime :=
  {| sort_slice := @insertion_sort; map_entries := λ K V _ _ m, rev (map_to_list m) |}.

Lemma insert_by_perm {A} (less : A → A → bool) x l : insert_by less x l ≡ₚ x :: l.
Proof.
  induction l as [|y l IH]; simpl; [done|]. case_match; [done|]. rewrite IH. apply Permutation_swap.
Qed.
Lemma insert_by_sorted {A} (P : A → Prop) (less : A → A → bool) x l :
  strict_weak_on P less → P x → Forall P l → Sorted (λ a b, less b a = false) l → Sorted (λ a b, less b a = false) (insert_by less x l).
Proof.
  intros Hw Hx. intros Hl. induction 1 as [|y l Hs IH Hhd]; simpl; [by repeat constructor|]. inversion_clear Hl as [|? ? Py Pl].
  destruct (less x y) eqn:E.
  - repeat constructor; try done. by apply (swo_asymm _ _ Hw).
  - constructor; [by apply IH|]. destruct l as [|z l]; simpl; [by constructor|].
    inversion_clear Hhd. case_match; by constructor.
Qed.
Lemma insertion_sort_ok {A} (less : A → A → bool) l :
  insertion_sort less l ≡ₚ l ∧ (strict_weak_on (.∈ l) less → Sorted (λ a b, less b a = false) (insertion_sort less l)).
Proof.
  unfold insertion_sort. split.
  - change l with ([] ++ l) at 2. generalize (@nil A) as acc. induction l as [|x l IH]; intros acc; simpl; [by rewrite app_nil_r|].
    rewrite IH, insert_by_perm. simpl. apply Permutation_middle.
  - intros Hw. assert (∀ l' acc, Forall (.∈ l) l' → Forall (.∈ l) acc → Sorted (λ a b, less b a = false) acc →
      Sorted (λ a b, less b a = false) (fold_left (λ acc x, insert_by less x acc) l' acc)) as Hgo.
    { induction l' as [|x l' IH]; intros acc Hl Ha Hs; [done|]. inversion_clear Hl. apply IH; [done| |by apply (insert_by_sorted (.∈ l))].
      rewrite insert_by_perm. by constructor. }
    apply Hgo; [by apply Forall_forall|constructor|constructor].
Qed.
Lemma insertion_sort_sorted {A} (less : A → A → bool) l : strict_weak less → Sorted (λ a b, less b a = false) (insertion_sort less l).
Proof. intros Hw. apply insertion_sort_ok. by apply (strict_weak_on_ext _ less less). Qed.
#[export] Instance go_runtime_ok : RuntimeOk go_runtime.
Proof. split; intros; simpl; [apply insertion_sort_ok|by apply insertion_sort_ok|done]. Qed.
#[export] Instance go_runtime_rev_ok : RuntimeOk go_runtime_rev.
Proof.
  split; intros; simpl; [apply insertion_sort_ok|by apply insertion_sort_ok|].
  symmetry. apply Permutation_rev.
Qed.

(** ** Lists of optional results *)

Lemma omap_ext_in {A B} (f g : A → option B) (l : list A) : (∀ x, x ∈ l → f x = g x) → omap f l = omap g l.
Proof.
  induction l as [|x l IH]; intros Hfg; [done|]. simpl. rewrite Hfg by (by apply elem_of_cons; left).
  fold (omap f l) (omap g l). rewrite IH; [done|]. intros. apply Hfg. by apply elem_of_cons; right.
Qed.

(** Results that carry the key of their argument are as distinct as the keys. *)
Lemma NoDup_omap_key {A B K} (f : A → option B) (g : A → K) (h : B → K) (l : list A) :
  NoDup (g <$> l) → (∀ x y, x ∈ l → f x = Some y → h y = g x) → NoDup (h <$> omap f l).
Proof.
  induction l as [|x l IH]; intros Hn Hk; [constructor|]. inversion_clear Hn as [|? ? Hx Hl].
  assert (NoDup (h <$> omap f l)) as IH'.
  { apply IH; [done|]. intros z y ?. apply Hk. by apply elem_of_cons; right. }
  cbn [omap list_omap]. destruct (f x) as [y|] eqn:E; [|done]. cbn [fmap list_fmap]. constructor; [|done].
  intros (y' & Hy & (z & Hz & Hfz)%list_elem_of_omap)%list_elem_of_fmap. apply Hx.
  rewrite <-(Hk x y), Hy, (Hk z y'); try done; [by apply list_elem_of_fmap_2|by apply elem_of_cons; right|by apply elem_of_cons; left].
Qed.

(** ** Time

    A [time.Time] is the number of nanoseconds since the Unix epoch; the zero
    time is the first of January of the year 1.  A [time.Duration] is a signed
    64-bit number of nanoseconds and [Sub] saturates at its limits. *)
Definition time := Z.
Definition zero_time : time := -62135596800 * 10 ^ 9.
Definition IsZero (t : time) : bool := t =? zero_time.
Definition max_duration : Z := 2 ^ 63 - 1.
Definition Sub (a b : time) : Z := Z.max (- 2 ^ 63) (Z.min max_duration (a - b)).
Definition Before (a b : time) : bool := a <? b.
Definition After (a b : time) : bool := b <? a.
(** [t.Add(d)] *)
Definition Add_ (t : time) (d : Z) : time := t + d.

Definition Millisecond : Z := 10 ^ 6.
Definition Second : Z := 10 ^ 9.
Definition Minute : Z := 60 * Second.
Definition Hour : Z := 60 * Minute.
