(* ===== verification/GoIO.v ===== *)
(** * Byte streams

    [io.Reader] and [bufio.Reader] as far as the parsers use them: reading a
    byte or an exact number of bytes, discarding bytes, and a reader limited to
    the first bytes of another one. *)

From S2P Require Import Prelude.

(** A reader is the bytes it still delivers and the error it reports after them
    ([io.EOF] for a file or a [bytes.Reader]). *)
Record reader := Reader { r_bytes : list byte; r_final : goerror }.

(** [io.ReadFull(r, buf)] with [len(buf) = n]. *)
Definition io_ReadFull (r : reader) (n : Z) : outcome (list byte * reader) :=
  if n <=? len (r_bytes r) then
    Ok (sub (r_bytes r) 0 n, Reader (sub (r_bytes r) n (len (r_bytes r))) (r_final r))
  else if len (r_bytes r) =? 0 then Err (r_final r)
  else match r_final r with
       | io_EOF => Err io_ErrUnexpectedEOF
       | e => Err e
       end.

(** [r.ReadByte()] *)
Definition ReadByte (r : reader) : outcome (byte * reader) :=
  match r_bytes r with
  | [] => Err (r_final r)
  | b :: l => Ok (b, Reader l (r_final r))
  end.

(** [io.CopyN(io.Discard, r, n)]: a short stream is [io.EOF], and a negative
    count copies nothing. *)
Definition CopyN (r : reader) (n : Z) : outcome reader :=
  if n <=? 0 then Ok r
  else if n <=? len (r_bytes r) then Ok (Reader (sub (r_bytes r) n (len (r_bytes r))) (r_final r))
  else Err (r_final r).

(** [&io.LimitedReader{R: r, N: n}]: it ends with [io.EOF] after [n] bytes, or
    the way [r] ends if that is earlier. *)
Definition limited (r : reader) (n : Z) : reader :=
  if n <=? len (r_bytes r) then Reader (sub (r_bytes r) 0 n) io_EOF else r.
(** The field [N] when the limited reader is exhausted. *)
Definition missing (r : reader) (n : Z) : Z := Z.max 0 (n - len (r_bytes r)).
(** [r] after the limited reader is exhausted. *)
Definition after (r : reader) (n : Z) : reader :=
  Reader (drop (Z.to_nat n) (r_bytes r)) (r_final r).

(** ** Reading is the inverse of prepending *)

Definition push (bs : list byte) (r : reader) : reader := Reader (bs ++ r_bytes r) (r_final r).

Lemma push_app a b r : push (a ++ b) r = push a (push b r).
Proof. unfold push. cbn. by rewrite app_assoc. Qed.
Lemma push_nil r : push [] r = r.
Proof. by destruct r. Qed.
Lemma len_push bs r : len (r_bytes (push bs r)) = len bs + len (r_bytes r).
Proof. cbn. by rewrite len_app. Qed.
Lemma push_inj bs r r' : push bs r = push bs r' → r = r'.
Proof. destruct r, r'. unfold push. cbn. intros [= ?%app_inv_head ?]. congruence. Qed.

Lemma sub_split {A} (l : list A) n : 0 <= n <= len l → sub l 0 n ++ sub l n (len l) = l.
Proof.
  intros Hn. unfold sub, len in *. rewrite Z.sub_0_r, drop_0. rewrite (take_ge (drop (Z.to_nat n) l)) by (rewrite length_drop; lia).
  apply take_drop.
Qed.
Lemma io_ReadFull_push bs r n : len bs = n → io_ReadFull (push bs r) n = Ok (bs, r).
Proof.
  intros <-. unfold io_ReadFull. cbn. len_facts. rewrite len_app. branch. rewrite sub_head by done.
  rewrite sub_skip by lia. replace (len bs - len bs) with 0 by lia.
  replace (len bs + len (r_bytes r) - len bs) with (len (r_bytes r)) by lia. rewrite sub_all. by destruct r.
Qed.
Lemma io_ReadFull_inv r n bs r' : 0 <= n → io_ReadFull r n = Ok (bs, r') → len bs = n ∧ r = push bs r'.
Proof.
  intros Hn. unfold io_ReadFull. destruct (Z.leb_spec n (len (r_bytes r))) as [Hle|].
  - intros [= <- <-]. rewrite len_sub by lia. split; [lia|]. unfold push. cbn. destruct r as [l e]. cbn in *. f_equal.
    by rewrite sub_split by lia.
  - destruct (_ =? 0); [done|]. by destruct (r_final r).
Qed.
Lemma io_ReadFull_no_panic r n : io_ReadFull r n ≠ Panic.
Proof. unfold io_ReadFull. repeat case_match; done. Qed.

Lemma io_ReadFull_app l rest fin n :
  len l = n → io_ReadFull (Reader (l ++ rest) fin) n = Ok (l, Reader rest fin).
Proof. apply (io_ReadFull_push l (Reader rest fin)). Qed.
Lemma io_ReadFull_short l fin n :
  len l < n → io_ReadFull (Reader l fin) n =
  Err (if len l =? 0 then fin else match fin with io_EOF => io_ErrUnexpectedEOF | e => e end).
Proof. intros. unfold io_ReadFull. simpl. branch. destruct (_ =? 0); by destruct fin. Qed.
Lemma wp_io_ReadFull r n :
  0 <= n → wp (io_ReadFull r n) (λ x, len x.1 = n ∧ len (r_bytes x.2) = len (r_bytes r) - n).
Proof.
  intros. destruct (io_ReadFull r n) as [[bs r']|e|] eqn:E; [|done|by apply io_ReadFull_no_panic in E].
  apply io_ReadFull_inv in E as [Hb ->]; [|done]. cbn. rewrite len_app. lia.
Qed.

Lemma ReadByte_push b r : ReadByte (push [b] r) = Ok (b, r).
Proof. by destruct r. Qed.
Lemma ReadByte_inv r b r' : ReadByte r = Ok (b, r') → r = push [b] r'.
Proof. destruct r as [[|c l] e]; unfold ReadByte; cbn; [done|]. by intros [= <- <-]. Qed.

Lemma CopyN_push bs r n : len bs = n → CopyN (push bs r) n = Ok r.
Proof.
  intros <-. unfold CopyN. destruct (Z.leb_spec (len bs) 0) as [H|H].
  - destruct bs; [by rewrite push_nil|]. rewrite len_cons in H. len_facts. lia.
  - cbn. len_facts. rewrite len_app. branch. f_equal. rewrite sub_skip by lia. replace (len bs - len bs) with 0 by lia.
    replace (len bs + len (r_bytes r) - len bs) with (len (r_bytes r)) by lia. rewrite sub_all. by destruct r.
Qed.
Lemma CopyN_inv r n r' : 0 <= n → CopyN r n = Ok r' → ∃ bs, len bs = n ∧ r = push bs r'.
Proof.
  intros Hn. unfold CopyN. destruct (Z.leb_spec n 0).
  { intros [= <-]. exists []. rewrite push_nil. split; [unfold len; cbn; lia|done]. }
  destruct (Z.leb_spec n (len (r_bytes r))) as [Hle|]; [|done]. intros [= <-]. exists (sub (r_bytes r) 0 n).
  rewrite len_sub by lia. split; [lia|]. destruct r as [l e]. unfold push. cbn in *. f_equal.
  by rewrite sub_split by lia.
Qed.
Lemma CopyN_no_panic r n : CopyN r n ≠ Panic.
Proof. unfold CopyN. repeat case_match; done. Qed.

(** ** Numbers that fill their bytes *)

Lemma be_bytes_be l : be_bytes (length l) (be l) = l.
Proof.
  induction l as [|b l IH] using rev_ind; [done|]. rewrite be_snoc, length_app. cbn [length]. rewrite Nat.add_1_r.
  unfold be_bytes in *. cbn [le_bytes rev]. pose proof (b2z_range b).
  replace ((be l * 256 + b2z b) `div` 256) with (be l) by (rewrite Z.div_add_l, Z.div_small by lia; lia).
  rewrite IH. f_equal. f_equal. apply b2z_inj. rewrite z2b_spec, Z.add_comm, Z.mod_add by lia. by apply Z.mod_small.
Qed.
Lemma be_uint_all n bs v : length bs = n → be_uint n bs = Ok v → v = be bs ∧ bs = be_bytes n v ∧ 0 <= v < 256 ^ Z.of_nat n.
Proof.
  intros Hn Hv. pose proof (be_uint_range _ _ _ Hv) as Hr. revert Hv. unfold be_uint.
  destruct (Nat.ltb_spec (length bs) n) as [|_]; [lia|]. intros [= <-]. rewrite take_ge in * by lia. subst n. by rewrite be_bytes_be.
Qed.
