(* ===== verification/GoScan.v ===== *)
(** * Lines of a stream

    [bufio.Scanner] with [ScanLines]: a stream is cut at line feeds, a carriage
    return before one is dropped, and a line that does not fit the buffer ends the
    scan with an error. *)

From Stdlib Require Import Ascii.
From S2P Require Import Prelude GoIO GoStrings GoPath GoText.

(** A scan yields a line without its end-of-line marker, the end of the input, or
    [bufio.ErrTooLong] when a line does not fit the buffer. *)
Inductive scan_result := ScanLine (line rest : string) | ScanEnd | ScanTooLong.

Fixpoint dropCR (s : string) : string :=
  match s with
  | "" => ""
  | String c "" => if Ascii.eqb c "013"%char then "" else s
  | String c s => String c (dropCR s)
  end.
Definition ScanLines (maxTokenSize : Z) (s : string) : scan_result :=
  match s with
  | "" => ScanEnd
  | _ =>
    match Cut s "010"%char with
    | Some (line, rest) =>
      if maxTokenSize <? strlen line + 1 then ScanTooLong else ScanLine (dropCR line) rest
    | None => if maxTokenSize <=? strlen s then ScanTooLong else ScanLine (dropCR s) ""
    end
  end.

(** [bufio.MaxScanTokenSize], the buffer of a new scanner. *)
Definition MaxScanTokenSize : Z := 64 * 1024.
Definition ErrTooLong : goerror := Errorf "bufio.Scanner: token too long".

(** All the lines that [for scanner.Scan()] visits, and [scanner.Err()] after them. *)
Fixpoint scan_go (fuel : nat) (final : goerror) (s : string) : list string * option goerror :=
  match fuel with
  | O => ([], Some (Errorf ""))
  | S fuel =>
    match ScanLines MaxScanTokenSize s with
    | ScanEnd => ([], if bool_decide (final = io_EOF) then None else Some final)
    | ScanTooLong => ([], Some ErrTooLong)
    | ScanLine line rest => let '(lines, err) := scan_go fuel final rest in (line :: lines, err)
    end
  end.
Definition scan_lines (r : reader) : list string * option goerror :=
  let s := string_of_bytes (r_bytes r) in scan_go (S (String.length s)) (r_final r) s.

(** ** Facts *)

Lemma ScanLines_shorter m s line rest : ScanLines m s = ScanLine line rest → (String.length rest < String.length s)%nat.
Proof.
  unfold ScanLines. destruct s as [|c s]; [done|].
  destruct (Cut (String c s) _) as [[a b]|] eqn:E.
  - apply Cut_length in E. case_match; [done|]. intros [= _ <-]. lia.
  - case_match; [done|]. intros [= _ <-]. simpl. lia.
Qed.

(** Lines as a program prints them: they fit the buffer and keep their last character. *)
Definition plain_line (s : string) : Prop := no_newline s ∧ strlen s < MaxScanTokenSize - 1 ∧ dropCR s = s.
Fixpoint text_of (lines : list string) : string := match lines with [] => "" | l :: lines => l +:+ String "010" (text_of lines) end.

Lemma scan_go_text lines fuel : Forall plain_line lines → (length lines < fuel)%nat → scan_go fuel io_EOF (text_of lines) = (lines, None).
Proof.
  intros Hl. revert fuel. induction Hl as [|l lines (Hn & Hlen & Hcr) Hl IH]; intros [|fuel] Hf; cbn [length] in Hf; [lia|done|lia|].
  cbn [text_of scan_go]. destruct (Cut_free _ l (text_of lines) Hn) as [Hc _].
  assert (ScanLines MaxScanTokenSize (l +:+ String "010" (text_of lines)) = ScanLine l (text_of lines)) as ->.
  { unfold ScanLines. rewrite Hc. destruct (l +:+ String "010" (text_of lines)) eqn:E; [by destruct l|]. rewrite (proj2 (Z.ltb_ge _ _)) by lia. by rewrite Hcr. }
  rewrite IH by lia. done.
Qed.
Lemma text_of_length lines : (length lines <= String.length (text_of lines))%nat.
Proof. induction lines as [|l lines IH]; [done|]. cbn [text_of length]. pose proof (strlen_app l (String "010" (text_of lines))) as H. unfold strlen in H. cbn [String.length] in H. lia. Qed.
Lemma scan_lines_text lines : Forall plain_line lines → scan_lines (Reader (bytes_of_string (text_of lines)) io_EOF) = (lines, None).
Proof.
  intros Hl. unfold scan_lines. cbn [r_bytes r_final]. rewrite string_of_bytes_of_string. apply scan_go_text; [done|]. pose proof (text_of_length lines). lia.
Qed.
(** The scan ends within its fuel: the error of an exhausted scan is never returned. *)
Lemma scan_go_total fuel final s : (String.length s < fuel)%nat → final ≠ Errorf "" → (scan_go fuel final s).2 ≠ Some (Errorf "").
Proof.
  revert s. induction fuel as [|fuel IH]; intros s Hf Hn; [lia|]. cbn [scan_go]. destruct (ScanLines _ s) as [line rest| |] eqn:E; [|case_bool_decide; cbn; congruence|done].
  apply ScanLines_shorter in E. specialize (IH rest ltac:(lia) Hn). by destruct (scan_go fuel final rest).
Qed.
Lemma dropCR_id s : (∀ a, s ≠ a +:+ String "013" "") → dropCR s = s.
Proof.
  intros Ha. induction s as [|c s IH]; [done|]. cbn [dropCR]. destruct s as [|d s].
  - destruct (Ascii.eqb_spec c "013"); [|done]. subst. by destruct (Ha "").
  - f_equal. apply IH. intros a E. apply (Ha (String c a)). by rewrite E.
Qed.
Lemma dropCR_tight s : tight s → dropCR s = s.
Proof.
  intros (_ & _ & b & e & _ & He & _ & Hr). apply dropCR_id. intros a ->. rewrite str_rev_app_acc in Hr. cbn in Hr. injection Hr as <- _. done.
Qed.
Lemma dropCR_app a b : b ≠ "" → dropCR (a +:+ b) = a +:+ dropCR b.
Proof.
  intros Hb. induction a as [|c a IH]; [done|]. rewrite !str_app_cons. cbn [dropCR]. rewrite IH. destruct (a +:+ b) eqn:E; [|done]. by destruct a, b.
Qed.

(** ** The first position of a character *)

Lemma Index_free c s rest : free_of c s → Index (s +:+ String c rest) (String c "") = strlen s ∧ Index s (String c "") = -1.
Proof.
  assert (∀ x s, HasPrefix (String x s) (String c "") = Ascii.eqb x c) as Hp.
  { intros x s'. unfold HasPrefix. cbn. destruct (ascii_dec c x) as [->|Hn]; [by destruct s'; rewrite Ascii.eqb_refl|]. by destruct (Ascii.eqb_spec x c). }
  unfold free_of. induction s as [|x s IH]; [intros _; split; [|done]; rewrite str_app_nil; cbn [Index]; by rewrite Hp, Ascii.eqb_refl|].
  cbn [str_forall]. intros [Hx%negb_true_iff Hs]%andb_prop. destruct (IH Hs) as [H1 H2]. rewrite str_app_cons. cbn [Index]. rewrite !Hp, Hx, H1, H2.
  split; [|done]. unfold strlen. cbn [String.length]. rewrite (proj2 (Z.ltb_ge _ _)) by lia. lia.
Qed.
