(* ===== verification/GoSort.v ===== *)
(** * Stable sorting

    [sort.SliceStable] and [sort.Strings], whose results do not depend on the
    runtime: a stable sort has one result. *)

From S2P Require Import Prelude GoStrings GoRuntime.

(** [sort.SliceStable] *)
Definition SliceStable {A} (less : A → A → bool) (l : list A) : list A := insertion_sort less l.
(** [sort.Strings]: equal strings cannot be told apart. *)
Definition Strings (l : list string) : list string := insertion_sort String.ltb l.

(** Elements that a comparison does not order. *)
Definition tied {A} (less : A → A → bool) (x y : A) : bool := negb (less x y) && negb (less y x).

Lemma strict_weak_ext {A} (less less' : A → A → bool) : (∀ a b, less' a b = less a b) → strict_weak less → strict_weak less'.
Proof. intros He [Ha Ht]. split; intros *; rewrite !He; [apply Ha|apply Ht]. Qed.
Lemma list_filter_none {A} (P : A → Prop) `{∀ x, Decision (P x)} l : (∀ x, x ∈ l → P x → False) → filter P l = [].
Proof. induction l as [|x l IH]; intros Hn; [done|]. rewrite filter_cons, decide_False by (intros Hx; apply (Hn x); [set_solver|done]). apply IH. set_solver. Qed.

Section Stable.
Context {A : Type} (less : A → A → bool) (Hw : strict_weak less).

Lemma tied_below x y z : tied less x y = true → less y z = less x z ∧ less z y = less z x.
Proof.
  unfold tied. rewrite andb_true_iff, !negb_true_iff. intros [Hxy Hyx]. destruct Hw as [Ha Ht].
  assert (∀ a b c, less a b = false → less b a = false → less b c = false → less a c = false) as H1 by (intros a b c ? ? ?; by apply (Ht c b a)).
  assert (∀ a b c, less a b = false → less b a = false → less c b = false → less c a = false) as H2 by (intros a b c ? ? ?; by apply (Ht a b c)).
  split; apply Bool.eq_true_iff_eq; rewrite <-!Bool.not_false_iff_true; split; intros Hn E; apply Hn; [by apply (H1 y x)|by apply (H1 x y)|by apply (H2 y x)|by apply (H2 x y)].
Qed.
Lemma insert_by_filter x z l : Sorted (λ a b, less b a = false) l →
  filter (λ y, tied less x y = true) (insert_by less z l) = filter (λ y, tied less x y = true) (l ++ [z]).
Proof.
  induction l as [|y l IH]; intros Hs; [done|]. pose proof Hs as Hs'. apply Sorted_inv in Hs as [Hs _]. cbn [insert_by]. destruct (less z y) eqn:E.
  - assert (tied less x z = true → filter (λ y, tied less x y = true) (y :: l) = []) as Hnone.
    { intros Hz. assert (Transitive (λ a b, less b a = false)) by (intros a b c ??; by apply (sw_trans _ Hw a b c)).
      apply Sorted_StronglySorted in Hs'; [|done]. apply StronglySorted_inv in Hs' as [_ Hall]. rewrite Forall_forall in Hall.
      assert (∀ w, w ∈ y :: l → tied less x w = true → False) as Hno.
      { intros w Hw' Ht. assert (less z w = true) as Hzw.
        { destruct (less z w) eqn:Ezw; [done|]. apply elem_of_cons in Hw' as [->|Hw']; [congruence|]. rewrite (sw_trans _ Hw y w z) in E; [done|by apply Hall|done]. }
        destruct (tied_below x z w Hz) as [Hzx _]. unfold tied in Ht. rewrite <-Hzx, Hzw in Ht. done. }
      apply list_filter_none. exact Hno. }
    rewrite filter_app, (filter_cons _ z []), filter_nil. rewrite (filter_cons _ z). case_decide as Hz; [by rewrite Hnone|by rewrite app_nil_r].
  - cbn [app]. rewrite !(filter_cons _ y), IH by done. done.
Qed.

Lemma SliceStable_perm l : SliceStable less l ≡ₚ l.
Proof. apply insertion_sort_ok. Qed.
Lemma SliceStable_sorted l : StronglySorted (λ a b, less b a = false) (SliceStable less l).
Proof. apply Sorted_StronglySorted; [intros a b c ??; by apply (sw_trans _ Hw a b c)|]. by apply insertion_sort_sorted. Qed.
(** Elements that are not ordered keep their order. *)
Lemma SliceStable_stable x l : filter (λ y, tied less x y = true) (SliceStable less l) = filter (λ y, tied less x y = true) l.
Proof.
  induction l as [|z l IH] using rev_ind; [done|]. unfold SliceStable, insertion_sort in *. rewrite fold_left_app. cbn [fold_left].
  rewrite insert_by_filter, !filter_app, IH; [done|]. by apply insertion_sort_sorted.
Qed.
End Stable.

Lemma Strings_perm l : Strings l ≡ₚ l.
Proof. apply SliceStable_perm. Qed.
Lemma Strings_sorted l : StronglySorted (λ a b, String.ltb b a = false) (Strings l).
Proof. apply SliceStable_sorted, strict_weak_string. Qed.
(** A sorted list of strings is determined by its elements. *)
Lemma Strings_eq l k : l ≡ₚ k → Strings l = Strings k.
Proof.
  intros Hp. apply (StronglySorted_unique_strong (λ a b, String.ltb b a = false)); [|apply Strings_sorted..|by rewrite !Strings_perm].
  intros a b _ _ ? ?. by apply ltb_antisym.
Qed.

