(* ===== verification/Float64.v ===== *)
(** * 64-bit floating-point numbers

    A Go [float64] is an IEEE 754 binary64 number, modelled by the standard
    library's executable specification [SpecFloat] (53 bits of precision,
    exponents below 1024, round to nearest even).  Every operation rounds once,
    as on amd64: fused multiply-add, which Go allows on some other platforms,
    is not modelled.  The file also holds [strconv]'s [%.nf] format and the
    order lemmas the components use. *)

From S2P Require Import Prelude GoStrings GoRuntime.
From Stdlib Require Export Floats.SpecFloat.
From Stdlib Require Import Ascii.

Definition f64 := spec_float.

Definition fadd : f64 → f64 → f64 := SFadd 53 1024.
Definition fsub : f64 → f64 → f64 := SFsub 53 1024.
Definition fmul : f64 → f64 → f64 := SFmul 53 1024.
Definition fdiv : f64 → f64 → f64 := SFdiv 53 1024.
Definition fabs : f64 → f64 := SFabs.
(** [a < b], [a <= b], [a > b], [a >= b]: false if an operand is NaN. *)
Definition flt : f64 → f64 → bool := SFltb.
Definition fle : f64 → f64 → bool := SFleb.
Definition fgt (a b : f64) : bool := flt b a.
Definition fge (a b : f64) : bool := fle b a.
(** [a == b] *)
Definition feq : f64 → f64 → bool := SFeqb.

(** [float64(z)] *)
Definition of_Z (z : Z) : f64 := binary_normalize 53 1024 z 0 false.
Definition f0 : f64 := S754_zero false.
(** A decimal literal [n/d] whose numerator and denominator are exact. *)
Definition lit (n d : Z) : f64 := fdiv (of_Z n) (of_Z d).

(** [d.Minutes()] and [d.Seconds()] *)
Definition dur_float (unit d : Z) : f64 :=
  fadd (of_Z (Z.quot d unit)) (fdiv (of_Z (Z.rem d unit)) (of_Z unit)).
Definition Minutes : Z → f64 := dur_float Minute.
Definition Seconds : Z → f64 := dur_float Second.

(** [int64(x)]: truncation; a value that is not representable gives a value of
    the implementation, here [other]. *)
Definition trunc (x : f64) : option Z :=
  match x with
  | S754_zero _ => Some 0
  | S754_finite s m e =>
    let a := if 0 <=? e then Z.pos m * 2 ^ e else Z.pos m `div` 2 ^ (- e) in
    let z := if s then - a else a in
    if (- 2 ^ 63 <=? z) && (z <? 2 ^ 63) then Some z else None
  | _ => None
  end.
Definition to_int64 (other : f64 → Z) (x : f64) : Z := default (i64 (other x)) (trunc x).

(** ** Formatting *)

(** [n / d] rounded to the nearest integer, ties to even. *)
Definition round_half_even (n d : Z) : Z :=
  let q := n `div` d in
  match 2 * (n `mod` d) ?= d with
  | Lt => q
  | Gt => q + 1
  | Eq => if Z.even q then q else q + 1
  end.

Fixpoint zeros (n : nat) : string := match n with O => "" | S n => String "0"%char (zeros n) end.
Definition pad_left (n : nat) (s : string) : string := zeros (n - String.length s) +:+ s.

(** [%.nf] of a finite magnitude [m * 2^e]. *)
Definition fmt_mag (n : nat) (m e : Z) : string :=
  let p := 10 ^ Z.of_nat n in
  let q := if 0 <=? e then m * 2 ^ e * p else round_half_even (m * p) (2 ^ (- e)) in
  match n with
  | O => itoa q
  | S _ => itoa (q `div` p) +:+ "." +:+ pad_left n (itoa (q `mod` p))
  end.
Definition fmt_f (n : nat) (x : f64) : string :=
  match x with
  | S754_nan => "NaN"
  | S754_infinity s => if s then "-Inf" else "+Inf"
  | S754_zero s => (if s then "-" else "") +:+ fmt_mag n 0 0
  | S754_finite s m e => (if s then "-" else "") +:+ fmt_mag n (Z.pos m) e
  end.

Example fmt_examples :
  [fmt_f 1 (lit 3 2); fmt_f 0 (lit 1 2); fmt_f 0 (lit 3 2); fmt_f 1 (lit 9 100); fmt_f 1 (of_Z 12);
   fmt_f 0 (fsub f0 (lit 1 4)); fmt_f 2 (lit 1 1000); fmt_f 1 (lit 1 0)] =
  ["1.5"; "0"; "2"; "0.1"; "12.0"; "-0"; "0.00"; "+Inf"].
Proof. reflexivity. Qed.
Example minutes_example : Minutes (90 * Second) = lit 3 2.
Proof. reflexivity. Qed.

(** ** Order *)

Definition is_nan (x : f64) : bool := match x with S754_nan => true | _ => false end.

(** The order is the lexicographic order of these keys. *)
Definition mag_cmp (m1 : positive) (e1 : Z) (m2 : positive) (e2 : Z) : comparison :=
  match e1 ?= e2 with Eq => (Z.pos m1 ?= Z.pos m2) | c => c end.

Lemma mag_cmp_refl m e : mag_cmp m e m e = Eq.
Proof. unfold mag_cmp. by rewrite !Z.compare_refl. Qed.
Lemma mag_cmp_antisym m1 e1 m2 e2 : mag_cmp m1 e1 m2 e2 = CompOpp (mag_cmp m2 e2 m1 e1).
Proof.
  unfold mag_cmp. rewrite (Z.compare_antisym e2), (Z.compare_antisym (Z.pos m2)).
  by destruct (e2 ?= e1); simpl.
Qed.
Lemma mag_cmp_le_trans m1 e1 m2 e2 m3 e3 :
  mag_cmp m1 e1 m2 e2 ≠ Gt → mag_cmp m2 e2 m3 e3 ≠ Gt → mag_cmp m1 e1 m3 e3 ≠ Gt.
Proof.
  unfold mag_cmp.
  destruct (Z.compare_spec e1 e2), (Z.compare_spec e2 e3), (Z.compare_spec e1 e3); try done; try lia.
  destruct (Z.compare_spec (Z.pos m1) (Z.pos m2)), (Z.compare_spec (Z.pos m2) (Z.pos m3)),
    (Z.compare_spec (Z.pos m1) (Z.pos m3)); try done; lia.
Qed.

(** Numbers of different classes are ordered by class, negative infinity
    first; two finite numbers of the same sign by their magnitudes. *)
Definition class_of (x : f64) : Z :=
  match x with
  | S754_infinity true => -2 | S754_finite true _ _ => -1 | S754_zero _ => 0
  | S754_finite false _ _ => 1 | S754_infinity false => 2 | S754_nan => 3
  end.
Definition within (x y : f64) : comparison :=
  match x, y with
  | S754_finite false m1 e1, S754_finite false m2 e2 => mag_cmp m1 e1 m2 e2
  | S754_finite true m1 e1, S754_finite true m2 e2 => mag_cmp m2 e2 m1 e1
  | _, _ => Eq
  end.
Lemma SFcompare_class x y :
  SFcompare x y =
  if is_nan x || is_nan y then None
  else Some (match class_of x ?= class_of y with Eq => within x y | c => c end).
Proof.
  destruct x as [[]|[]| |[] m1 e1], y as [[]|[]| |[] m2 e2]; try done; simpl; f_equal;
    unfold mag_cmp; try (by destruct (e1 ?= e2)).
  rewrite (Z.compare_antisym e1 e2). change (Z.pos m2 ?= Z.pos m1) with (Pos.compare m2 m1).
  rewrite (Pos.compare_antisym m1 m2). by destruct (e1 ?= e2).
Qed.
Lemma within_trans x y z :
  class_of x = class_of y → class_of y = class_of z →
  within x y ≠ Gt → within y z ≠ Gt → within x z ≠ Gt.
Proof.
  destruct x as [|[]| |[] m1 e1], y as [|[]| |[] m2 e2], z as [|[]| |[] m3 e3]; simpl; try done;
    intros _ _ ??; by apply (mag_cmp_le_trans _ _ m2 e2).
Qed.

Lemma fle_spec x y :
  fle x y = true ↔ is_nan x = false ∧ is_nan y = false ∧
    (class_of x < class_of y ∨ class_of x = class_of y ∧ within x y ≠ Gt).
Proof.
  unfold fle, SFleb. rewrite SFcompare_class. destruct (is_nan x), (is_nan y); simpl; try naive_solver.
  destruct (Z.compare_spec (class_of x) (class_of y)) as [->|?|?].
  - destruct (within x y); naive_solver lia.
  - naive_solver lia.
  - split; [done|]. intros (_ & _ & [?|[??]]); lia.
Qed.
Lemma fle_trans x y z : fle x y = true → fle y z = true → fle x z = true.
Proof.
  rewrite !fle_spec. intros (? & ? & H1) (_ & ? & H2). split_and!; [done..|].
  destruct H1 as [?|[H1 W1]], H2 as [?|[H2 W2]]; [left; lia..|].
  right. split; [lia|]. by apply (within_trans x y z).
Qed.
Lemma fle_refl x : is_nan x = false → fle x x = true.
Proof.
  intros. apply fle_spec. split_and!; [done..|right]. split; [done|].
  destruct x as [|[]| |[] m e]; simpl; try done; by rewrite mag_cmp_refl.
Qed.
(** [a < b] is [a <= b] without [b <= a]. *)
Lemma within_antisym x y : class_of x = class_of y → within y x = CompOpp (within x y).
Proof.
  destruct x as [|[]| |[] m1 e1], y as [|[]| |[] m2 e2]; simpl; try done; intros _; apply mag_cmp_antisym.
Qed.
Lemma flt_spec x y : flt x y = true ↔ fle x y = true ∧ fle y x = false.
Proof.
  unfold flt, SFltb, fle, SFleb. rewrite !SFcompare_class, (orb_comm (is_nan y)), (Z.compare_antisym (class_of x)).
  destruct (is_nan x || is_nan y); [naive_solver|].
  destruct (Z.compare_spec (class_of x) (class_of y)) as [Hc|?|?]; simpl; [|naive_solver..].
  rewrite (within_antisym x y Hc). destruct (within x y); naive_solver.
Qed.
Lemma fle_total x y : is_nan x = false → is_nan y = false → fle x y = true ∨ fle y x = true.
Proof.
  intros Hx Hy. rewrite !fle_spec. destruct (Z.lt_trichotomy (class_of x) (class_of y)) as [?|[Hc|?]].
  - left. auto.
  - pose proof (within_antisym x y Hc). destruct (within x y) eqn:E.
    + left. naive_solver.
    + left. naive_solver.
    + right. split_and!; [done..|right]. split; [done|]. by rewrite H.
  - right. auto.
Qed.
Lemma fle_not_nan x y : fle x y = true → is_nan x = false ∧ is_nan y = false.
Proof. rewrite fle_spec. naive_solver. Qed.
(** [!(a < b)] is [b <= a] away from NaN. *)
Lemma flt_false x y : is_nan x = false → is_nan y = false → flt x y = false → fle y x = true.
Proof.
  intros Hx Hy Hl. destruct (fle y x) eqn:E; [done|].
  assert (flt x y = true); [|congruence]. apply flt_spec. split; [|done].
  destruct (fle_total x y); congruence.
Qed.
Lemma flt_le x y : flt x y = true → fle x y = true.
Proof. by intros [? _]%flt_spec. Qed.
Lemma flt_le_trans x y z : flt x y = true → fle y z = true → flt x z = true.
Proof.
  rewrite !flt_spec. intros [H1 H2] H3. split; [by apply (fle_trans x y z)|].
  destruct (fle z x) eqn:E; [|done]. by rewrite (fle_trans y z x) in H2.
Qed.

(** ** Quotients of equal integers *)

Definition f1 : f64 := S754_finite false (2 ^ 52) (-52).

Lemma digits2_shift m d : Z.pos (digits2_pos (Pos.iter xO m d)) = Z.pos (digits2_pos m) + Z.pos d.
Proof.
  revert m. induction d as [|d IH] using Pos.peano_ind; intros m; [simpl; lia|].
  rewrite Pos.iter_succ. cbn [digits2_pos]. rewrite Pos2Z.inj_succ, IH. lia.
Qed.
(** A positive integer of at most 53 digits is a finite number, exactly. *)
Lemma of_Z_finite k : 0 < k < 2 ^ 53 → ∃ m e, of_Z k = S754_finite false m e.
Proof.
  intros [Hk Hb]. destruct k as [|p|]; [lia| |lia].
  assert (1 <= Z.pos (digits2_pos p) <= 53) as Hd.
  { split; [lia|]. clear Hk. assert (∀ q : positive, 2 ^ (Z.pos (digits2_pos q) - 1) <= Z.pos q) as Hlow.
    { intros q. induction q as [q IH|q IH|]; cbn [digits2_pos]; [..|by vm_compute];
        rewrite Pos2Z.inj_succ; replace (Z.succ _ - 1) with (Z.succ (Z.pos (digits2_pos q) - 1)) by lia;
        rewrite Z.pow_succ_r by lia; lia. }
    specialize (Hlow p). destruct (Z.le_gt_cases (Z.pos (digits2_pos p)) 53); [done|].
    assert (2 ^ 53 <= 2 ^ (Z.pos (digits2_pos p) - 1)) by (apply Z.pow_le_mono_r; lia). lia. }
  unfold of_Z, binary_normalize, binary_round, fexp, emin.
  rewrite Z.max_l by lia. unfold shl_align.
  assert (∀ mz e, Z.pos (digits2_pos mz) = 53 → -1000 <= e <= 0 →
    binary_round_aux 53 1024 false (Z.pos mz) e loc_Exact = S754_finite false mz e) as Hr.
  { intros mz e Hm He. unfold binary_round_aux, shr_fexp, fexp, emin. cbn [Zdigits2]. rewrite Hm, Z.max_l by lia.
    replace (53 + e - 53 - e) with 0 by lia. cbn [shr shr_record_of_loc loc_of_shr_record shr_m round_nearest_even Zdigits2].
    rewrite Hm, Z.max_l by lia. replace (53 + e - 53 - e) with 0 by lia. cbn [shr shr_m].
    by destruct (Z.leb_spec e (1024 - 53)); [|lia]. }
  destruct (_ - 0) as [|q|d] eqn:E; [| lia|].
  - exists p, 0. apply Hr; lia.
  - eexists _, _. apply Hr; [rewrite digits2_shift|]; lia.
Qed.
Lemma fdiv_self s m e : fdiv (S754_finite s m e) (S754_finite s m e) = f1.
Proof.
  unfold fdiv, SFdiv, SFdiv_core_binary. rewrite xorb_nilpotent. cbn [Zdigits2].
  rewrite !Z.sub_diag. change (Z.min (fexp 53 1024 0) 0) with (-53). change (0 - -53) with 53. cbv iota.
  rewrite Z.shiftl_mul_pow2 by lia.
  pose proof (Z_div_mod (Z.pos m * 2 ^ 53) (Z.pos m)) as Hd. destruct (Z.div_eucl _ _) as [q r] eqn:E.
  destruct Hd as [Hd Hr]; [lia|]. assert (q = 2 ^ 53) as ->.
  { set (b := 2 ^ 53) in *. clearbody b. destruct (Z.lt_trichotomy q b) as [|[|]]; nia. }
  assert (r = 0) as -> by lia.
  unfold new_location, new_location_even, new_location_odd. destruct (Z.even _); reflexivity.
Qed.
Lemma fdiv_of_Z k : 0 < k < 2 ^ 53 → fdiv (of_Z k) (of_Z k) = f1.
Proof. intros (m & e & ->)%of_Z_finite. apply fdiv_self. Qed.
