(* ===== verification/GoTime.v ===== *)
(** * Dates

    [time.Time.Format] with the layouts the code uses.  A time has an instant and
    the offset of its location, in seconds east of UTC; the date is that of the
    proleptic Gregorian calendar. *)

From Stdlib Require Import Ascii.
From S2P Require Import Prelude GoStrings GoRuntime Float64.

Record ztime := { instant : time; zone : Z }.

(** The year, month and day of a number of days since the first of January 1970:
    years begin in March, in eras of 400 years. *)
Definition civil_era (doe : Z) : Z * Z * Z :=
  let yoe := (doe - doe `div` 1460 + doe `div` 36524 - doe `div` 146096) `div` 365 in
  let doy := doe - (365 * yoe + yoe `div` 4 - yoe `div` 100) in
  let mp := (5 * doy + 2) `div` 153 in
  (yoe, mp, doy - (153 * mp + 2) `div` 5 + 1).
Definition civil (days : Z) : Z * Z * Z :=
  let z := days + 719468 in
  let '(yoe, mp, d) := civil_era (z `mod` 146097) in
  let m := if mp <? 10 then mp + 3 else mp - 9 in
  (yoe + z `div` 146097 * 400 + (if m <=? 2 then 1 else 0), m, d).

(** [appendInt(b, x, width)] *)
Definition pad_int (width : nat) (x : Z) : string := (if x <? 0 then "-" else "") +:+ pad_left width (itoa (Z.abs x)).
Definition date_text (t : Z) : string := let '(y, m, d) := civil (t `div` 86400) in pad_int 4 y +:+ "-" +:+ pad_int 2 m +:+ "-" +:+ pad_int 2 d.
Definition clock_text (t : Z) : string :=
  let s := t `mod` 86400 in pad_int 2 (s `div` 3600) +:+ ":" +:+ pad_int 2 ((s `mod` 3600) `div` 60) +:+ ":" +:+ pad_int 2 (s `mod` 60).
(** [.999999999]: the fraction of a second without trailing zeros, and nothing for zero. *)
Fixpoint drop_zeros (s : string) : string := match s with String "0"%char s => drop_zeros s | _ => s end.
Definition fraction_text (ns : Z) : string := if ns =? 0 then "" else "." +:+ str_rev (drop_zeros (str_rev (pad_left 9 (itoa ns)) "")) "".

(** [t.Format("2006-01-02 15:04:05")] *)
Definition FormatDateTime (t : ztime) : string :=
  let s := instant t `div` Second + zone t in date_text s +:+ " " +:+ clock_text s.
(** [t.UTC().Format("2006-01-02T15:04:05.999999999Z07:00")] *)
Definition FormatNanoUTC (t : ztime) : string :=
  let s := instant t `div` Second in date_text s +:+ "T" +:+ clock_text s +:+ fraction_text (instant t `mod` Second) +:+ "Z".

Example format_examples :
  (FormatDateTime {| instant := 1700000000 * Second + 5; zone := 3600 |}, FormatNanoUTC {| instant := 1700000000 * Second + 120000000; zone := 3600 |},
   FormatNanoUTC {| instant := 951782400 * Second; zone := 0 |}, FormatDateTime {| instant := zero_time; zone := 0 |}) =
  ("2023-11-14 23:13:20", "2023-11-14T22:13:20.12Z", "2000-02-29T00:00:00Z", "0001-01-01 00:00:00").
Proof. reflexivity. Qed.
