(* ===== verification/HostEngine.v ===== *)
(** * The alert engine

    Models [src/internal/hostwatch/engine.go] (module [Engine]) and the
    sequence generator of [src/internal/idgen] (module [Idgen]).  The engine
    keeps the active alerts by key, with a counter of consecutive evaluations
    in which the condition of the alert was absent.  The theorems give the
    exact events and state of an evaluation, key by key, whatever the order in
    which Go iterates over its maps; and show that after any history an alert
    is active exactly if its condition was present in one of the last two (or
    three) evaluations of its scope. *)

From S2P Require Import Prelude GoStrings GoRuntime Float64.

Module Idgen.

(** [idgen.Generator]: an object with a state and [Next]. *)
Class Generator (G : Type) := Next : G → string * G.

(** [idgen.Sequence]; the counter is a [uint64]. *)
Record Sequence := { prefix : string; n : Z }.
Definition NewSequence (p : string) : Sequence :=
  {| prefix := if decide (p = "") then "id" else p; n := 0 |}.
Definition seqNext (s : Sequence) : string * Sequence :=
  let s := {| prefix := prefix s; n := u64 (n s + 1) |} in
  (prefix s +:+ "-" +:+ itoa (n s), s).
Definition Reset (s : Sequence) : Sequence := {| prefix := prefix s; n := 0 |}.
#[export] Instance sequence_generator : Generator Sequence := seqNext.

End Idgen.

Module Engine.
Import Idgen.

(** ** Data *)

Record SpawnParent := { ParentPID : Z; ParentComm : string; ChildCount : Z; Argv : string }.
Record SpawnCommand := { CommandComm : string; CommandCount : Z }.
Record SpawnState := {
  SpawnAt : time; ProcsTotal : Z; ProcsUID : Z; UID : Z; UIDLimit : Z; TotalLimit : Z;
  Delta : Z; NewPerSec : f64; TopParents : list SpawnParent; TopCommands : list SpawnCommand }.

Record Condition := { CKey : string; CSeverity : string; CTitle : string; CDetail : string }.

Record Alert := {
  ID : string; Key : string; Severity : string; Title : string; Detail : string; State : string;
  FiredAt : time; ResolvedAt : option time; AckedAt : option time; Spawn : option SpawnState }.
Record Event := { Type_ : string; EAlert : Alert }.

Definition with_condition (a : Alert) (c : Condition) : Alert :=
  {| ID := ID a; Key := Key a; Severity := CSeverity c; Title := CTitle c; Detail := CDetail c;
     State := State a; FiredAt := FiredAt a; ResolvedAt := ResolvedAt a; AckedAt := AckedAt a; Spawn := Spawn a |}.
Definition with_detail (a : Alert) (d : string) : Alert :=
  {| ID := ID a; Key := Key a; Severity := Severity a; Title := Title a; Detail := d;
     State := State a; FiredAt := FiredAt a; ResolvedAt := ResolvedAt a; AckedAt := AckedAt a; Spawn := Spawn a |}.
Definition resolve_at (a : Alert) (at_ : time) : Alert :=
  {| ID := ID a; Key := Key a; Severity := Severity a; Title := Title a; Detail := Detail a;
     State := "resolved"; FiredAt := FiredAt a; ResolvedAt := Some at_; AckedAt := AckedAt a; Spawn := Spawn a |}.
Definition ack_at (a : Alert) (at_ : time) : Alert :=
  {| ID := ID a; Key := Key a; Severity := Severity a; Title := Title a; Detail := Detail a;
     State := State a; FiredAt := FiredAt a; ResolvedAt := ResolvedAt a; AckedAt := Some at_; Spawn := Spawn a |}.
Definition with_spawn (a : Alert) (s : SpawnState) : Alert :=
  {| ID := ID a; Key := Key a; Severity := Severity a; Title := Title a; Detail := Detail a;
     State := State a; FiredAt := FiredAt a; ResolvedAt := ResolvedAt a; AckedAt := AckedAt a; Spawn := Some s |}.
Definition fire (id : string) (c : Condition) (at_ : time) : Alert :=
  {| ID := id; Key := CKey c; Severity := CSeverity c; Title := CTitle c; Detail := CDetail c;
     State := "firing"; FiredAt := at_; ResolvedAt := None; AckedAt := None; Spawn := None |}.

Record Engine (G : Type) := {
  active : gmap string Alert;
  clears : gmap string Z;
  parents : gmap string Z;
  IDs : G }.
Arguments active {G} e.
Arguments clears {G} e.
Arguments parents {G} e.
Arguments IDs {G} e.

Definition NewEngine {G} (ids : G) : Engine G :=
  {| active := ∅; clears := ∅; parents := ∅; IDs := ids |}.
Definition with_active {G} (e : Engine G) (a : gmap string Alert) : Engine G :=
  {| active := a; clears := clears e; parents := parents e; IDs := IDs e |}.
Definition with_clears {G} (e : Engine G) (c : gmap string Z) : Engine G :=
  {| active := active e; clears := c; parents := parents e; IDs := IDs e |}.
Definition with_parents {G} (e : Engine G) (p : gmap string Z) : Engine G :=
  {| active := active e; clears := clears e; parents := p; IDs := IDs e |}.
Definition with_IDs {G} (e : Engine G) (g : G) : Engine G :=
  {| active := active e; clears := clears e; parents := parents e; IDs := g |}.

(** ** Scopes *)

Definition sustainedKeyPrefix : string := "cpu.sustained:".
Definition spawnKey (key : string) : bool :=
  bool_decide (key = "spawn.rate") || bool_decide (key = "procs.uid") || bool_decide (key = "procs.total").

(** The three scopes the source passes as the strings ["slow"], ["spawn"] and
    ["sustained"]. *)
Inductive scope := Slow | SpawnScope | SustainedScope.
#[export] Instance scope_eq_dec : EqDecision scope.
Proof. solve_decision. Defined.

Definition withinScope (s : scope) (key : string) : bool :=
  let sustained := HasPrefix key sustainedKeyPrefix in
  match s with
  | SpawnScope => spawnKey key
  | SustainedScope => sustained
  | Slow => negb (spawnKey key) && negb sustained
  end.

Section Ops.
Context {R : GoRuntime} {G : Type} `{Generator G}.

(** The write [e.parents[key] = topPID] of the spawn scope. *)
Definition setParent (e : Engine G) (s : scope) (key : string) (topPID : Z) : Engine G :=
  if bool_decide (s = SpawnScope) && (0 <=? topPID)
  then with_parents e (<[key := topPID]> (parents e)) else e.

Definition applyCondition (e : Engine G) (at_ : time) (c : Condition) (s : scope) (topPID : Z)
  : Engine G * option Event :=
  let key := CKey c in
  let found := active e !! key in
  let e := with_clears e (<[key := 0]> (clears e)) in
  match found with
  | None =>
    let '(id, g) := Next (IDs e) in
    let e := with_IDs e g in
    let a := fire id c at_ in
    let e := with_active e (<[key := a]> (active e)) in
    (setParent e s key topPID, Some {| Type_ := "fired"; EAlert := a |})
  | Some a =>
    let severityChanged := negb (bool_decide (Severity a = CSeverity c)) in
    let parentChanged :=
      bool_decide (s = SpawnScope) && (0 <=? topPID) &&
      match parents e !! key with Some prior => negb (prior =? topPID) | None => false end in
    let changed :=
      negb (bool_decide (Title a = CTitle c)) || negb (bool_decide (Detail a = CDetail c)) || severityChanged in
    let a := if changed then with_condition a c else a in
    let e := if changed then with_active e (<[key := a]> (active e)) else e in
    (setParent e s key topPID,
     if severityChanged || parentChanged then Some {| Type_ := "updated"; EAlert := a |} else None)
  end.

(** The loop over the conditions: the engine, the keys seen, the events. *)
Definition conditionStep (at_ : time) (s : scope) (topPID : Z)
    (st : Engine G * gset string * list Event) (c : Condition) : Engine G * gset string * list Event :=
  let '(e, seen, out) := st in
  if negb (withinScope s (CKey c)) then st else
  let '(e, ev) := applyCondition e at_ c s topPID in
  (e, {[CKey c]} ∪ seen, out ++ option_list ev).

(** The body of the loop over the active alerts in [resolveMissing]. *)
Definition resolveStep (at_ : time) (seen : gset string) (s : scope) (clearAfter : Z)
    (st : Engine G * list Event) (entry : string * Alert) : Engine G * list Event :=
  let '(e, out) := st in
  let '(key, a) := entry in
  if negb (withinScope s key) then st else
  if bool_decide (key ∈ seen) then st else
  let n := default 0 (clears e !! key) + 1 in
  let e := with_clears e (<[key := n]> (clears e)) in
  if n <? clearAfter then (e, out) else
  ({| active := delete key (active e); clears := delete key (clears e);
      parents := delete key (parents e); IDs := IDs e |},
   out ++ [{| Type_ := "resolved"; EAlert := resolve_at a at_ |}]).

Definition resolveMissing (e : Engine G) (at_ : time) (seen : gset string) (s : scope) (clearAfter : Z)
  : Engine G * list Event :=
  fold_left (resolveStep at_ seen s clearAfter) (map_entries (active e)) (e, []).

Definition sortEvents (out : list Event) : list Event :=
  sort_slice (λ a b, String.ltb (Key (EAlert a)) (Key (EAlert b))) out.

Definition evaluate (e : Engine G) (at_ : time) (conditions : list Condition) (s : scope)
    (clearAfter topPID : Z) : Engine G * list Event :=
  let '(e, seen, out) := fold_left (conditionStep at_ s topPID) conditions (e, ∅, []) in
  let '(e, resolved) := resolveMissing e at_ seen s clearAfter in
  (e, sortEvents (out ++ resolved)).

Definition EvaluateSlow (e : Engine G) (at_ : time) (conditions : list Condition) : Engine G * list Event :=
  evaluate e at_ conditions Slow 2 0.
(** [topPID] is variadic; the source uses its first argument. *)
Definition EvaluateSpawn (e : Engine G) (at_ : time) (conditions : list Condition) (topPID : list Z)
  : Engine G * list Event :=
  evaluate e at_ conditions SpawnScope 3 (match topPID with [] => -1 | p :: _ => p end).
Definition EvaluateSustained (e : Engine G) (at_ : time) (conditions : list Condition) : Engine G * list Event :=
  evaluate e at_ conditions SustainedScope 2 (-1).
Definition Evaluate (e : Engine G) (at_ : time) (conditions : list Condition) : Engine G * list Event :=
  let '(e, out1) := EvaluateSlow e at_ conditions in
  let '(e, out2) := evaluate e at_ conditions SpawnScope 3 (-1) in
  let '(e, out3) := EvaluateSustained e at_ conditions in
  (e, sortEvents ((out1 ++ out2) ++ out3)).

Definition SetDetail (e : Engine G) (key detail : string) : Engine G * option Alert :=
  match active e !! key with
  | None => (e, None)
  | Some a =>
    if decide (Detail a = detail) then (e, None) else
    let a := with_detail a detail in
    (with_active e (<[key := a]> (active e)), Some a)
  end.

Definition Active (e : Engine G) : list Alert :=
  sort_slice (λ a b, String.ltb (Key a) (Key b)) (map_entries (active e)).*2.

Definition restoreStep (e : Engine G) (a : Alert) : Engine G :=
  if decide (State a = "firing") then with_active e (<[Key a := a]> (active e)) else e.
Definition Restore (e : Engine G) (alerts : list Alert) : Engine G := fold_left restoreStep alerts e.

(** The first alert with the id, in iteration order. *)
Fixpoint ackLoop (entries : list (string * Alert)) (id : string) : option (string * Alert) :=
  match entries with
  | [] => None
  | (key, a) :: entries => if decide (ID a = id) then Some (key, a) else ackLoop entries id
  end.
Definition Ack (e : Engine G) (id : string) (at_ : time) : Engine G * option Alert :=
  match ackLoop (map_entries (active e)) id with
  | None => (e, None)
  | Some (key, a) => (with_active e (<[key := ack_at a at_]> (active e)), Some (ack_at a at_))
  end.

End Ops.
End Engine.

(** ** An evaluation, key by key *)

Module EngineFacts.
Import Idgen Engine.

(** What the engine knows of one key: its alert, its clear counter and the
    parent process it was last attributed to. *)
Definition view := (option Alert * option Z * option Z)%type.
Definition key_view {G} (e : Engine G) (k : string) : view := (active e !! k, clears e !! k, parents e !! k).

(** The scopes partition the keys. *)
Definition scope_of (k : string) : scope :=
  if spawnKey k then SpawnScope else if HasPrefix k sustainedKeyPrefix then SustainedScope else Slow.
Lemma withinScope_spec s k : withinScope s k = bool_decide (s = scope_of k).
Proof.
  unfold scope_of. destruct (spawnKey k) eqn:E.
  - assert (HasPrefix k sustainedKeyPrefix = false) as Hp.
    { unfold spawnKey in E. to_prop. destruct E as [E|E]; [to_prop; destruct E as [E|E]|]; to_prop; by subst. }
    destruct s; simpl; rewrite ?E, ?Hp; reflexivity.
  - destruct (HasPrefix k sustainedKeyPrefix) eqn:Hp; destruct s; simpl; rewrite ?E, ?Hp; reflexivity.
Qed.

Definition new_parent (s : scope) (topPID : Z) (old : option Z) : option Z :=
  if bool_decide (s = SpawnScope) && (0 <=? topPID) then Some topPID else old.

(** What an evaluation does to a key of its scope whose condition is present,
    given the id for a new alert: the view and the event. *)
Definition view_present (s : scope) (topPID : Z) (at_ : time) (c : Condition) (id : string) (v : view)
  : view * option Event :=
  let '(a, _, p) := v in
  match a with
  | None => ((Some (fire id c at_), Some 0, new_parent s topPID p),
             Some {| Type_ := "fired"; EAlert := fire id c at_ |})
  | Some a =>
    let sev := negb (bool_decide (Severity a = CSeverity c)) in
    let par := bool_decide (s = SpawnScope) && (0 <=? topPID) &&
      match p with Some prior => negb (prior =? topPID) | None => false end in
    let a' := with_condition a c in
    ((Some a', Some 0, new_parent s topPID p),
     if sev || par then Some {| Type_ := "updated"; EAlert := a' |} else None)
  end.
(** ... and to a key of its scope whose condition is absent. *)
Definition view_absent (clearAfter : Z) (at_ : time) (v : view) : view * option Event :=
  let '(a, c, p) := v in
  match a with
  | None => (v, None)
  | Some a' =>
    let n := default 0 c + 1 in
    if n <? clearAfter then ((a, Some n, p), None)
    else ((None, None, None), Some {| Type_ := "resolved"; EAlert := resolve_at a' at_ |})
  end.

Section Facts.
Context {R : GoRuntime} {HR : RuntimeOk R} {G : Type} `{Generator G}.
Implicit Types e : Engine G.

Lemma with_condition_id a c :
  Title a = CTitle c → Detail a = CDetail c → Severity a = CSeverity c → with_condition a c = a.
Proof. destruct a, c; simpl. by intros -> -> ->. Qed.

(** [applyCondition] is [view_present] on its key and leaves the others. *)
Lemma applyCondition_view e at_ c s topPID k :
  key_view (applyCondition e at_ c s topPID).1 k =
  if decide (k = CKey c) then (view_present s topPID at_ c (Next (IDs e)).1 (key_view e (CKey c))).1
  else key_view e k.
Proof.
  unfold applyCondition, setParent, key_view, view_present, new_parent. destruct (decide (k = CKey c)) as [->|Hk].
  - destruct (active e !! CKey c) as [a|] eqn:E; simpl.
    + set (sev := negb (bool_decide (Severity a = CSeverity c))).
      set (ch := negb (bool_decide (Title a = CTitle c)) || negb (bool_decide (Detail a = CDetail c)) || sev).
      assert (ch = false → with_condition a c = a) as Hid.
      { subst ch sev. intros. to_prop. by apply with_condition_id. }
      destruct ch; [|rewrite Hid by done]; destruct (bool_decide _ && _); simpl;
        rewrite ?lookup_insert_eq, ?E; done.
    + destruct (Next (IDs e)) as [id g]. simpl. destruct (bool_decide _ && _); simpl; by rewrite !lookup_insert_eq.
  - destruct (active e !! CKey c) as [a|] eqn:E; simpl.
    + destruct (_ || _ || _); destruct (bool_decide _ && _); simpl; by rewrite ?lookup_insert_ne.
    + destruct (Next (IDs e)) as [id g]. simpl. destruct (bool_decide _ && _); simpl; by rewrite !lookup_insert_ne.
Qed.
Lemma applyCondition_event e at_ c s topPID :
  (applyCondition e at_ c s topPID).2 = (view_present s topPID at_ c (Next (IDs e)).1 (key_view e (CKey c))).2.
Proof.
  unfold applyCondition, view_present, key_view. simpl. destruct (active e !! CKey c) as [a|]; simpl.
  - set (sev := negb (bool_decide (Severity a = CSeverity c))).
    set (ch := negb (bool_decide (Title a = CTitle c)) || negb (bool_decide (Detail a = CDetail c)) || sev).
    assert (ch = false → with_condition a c = a) as Hid.
    { subst ch sev. intros. to_prop. by apply with_condition_id. }
    destruct ch; [|rewrite Hid by done]; done.
  - by destruct (Next (IDs e)).
Qed.
Lemma applyCondition_IDs e at_ c s topPID :
  IDs (applyCondition e at_ c s topPID).1 =
  match active e !! CKey c with Some _ => IDs e | None => (Next (IDs e)).2 end.
Proof.
  unfold applyCondition, setParent. destruct (active e !! CKey c) as [a|]; simpl.
  - by destruct (_ || _ || _), (bool_decide _ && _).
  - destruct (Next (IDs e)) as [id g]; simpl. by destruct (bool_decide _ && _).
Qed.

(** The in-scope conditions with the id each would give to a new alert: the
    generator is advanced by the conditions whose key is not active. *)
Fixpoint assign (act : gmap string Alert) (s : scope) (g : G) (cs : list Condition) : list (Condition * string) * G :=
  match cs with
  | [] => ([], g)
  | c :: cs =>
    if negb (withinScope s (CKey c)) then assign act s g cs else
    let g' := match act !! CKey c with Some _ => g | None => (Next g).2 end in
    let '(l, g'') := assign act s g' cs in
    ((c, (Next g).1) :: l, g'')
  end.
Fixpoint cond_at (pres : list (Condition * string)) (k : string) : option (Condition * string) :=
  match pres with
  | [] => None
  | (c, id) :: pres => if decide (CKey c = k) then Some (c, id) else cond_at pres k
  end.

Lemma assign_ext act1 act2 s g cs :
  (∀ k, k ∈ CKey <$> cs → act1 !! k = act2 !! k) → assign act1 s g cs = assign act2 s g cs.
Proof.
  revert g. induction cs as [|c cs IH]; intros g Hk; simpl; [done|].
  rewrite Hk by (apply elem_of_cons; by left).
  rewrite !(IH _ (λ k Hi, Hk k (proj2 (elem_of_cons _ _ _) (or_intror Hi)))). done.
Qed.
Lemma assign_keys act s g cs p : p ∈ (assign act s g cs).1 → p.1 ∈ cs ∧ withinScope s (CKey p.1) = true.
Proof.
  revert g. induction cs as [|c cs IH]; intros g; simpl; [by intros ?%elem_of_nil|].
  destruct (withinScope s (CKey c)) eqn:Ew; simpl.
  - pose proof (IH (match act !! CKey c with Some _ => g | None => (Next g).2 end)) as IH'.
    destruct (assign act s _ cs) as [l g''] eqn:E. simpl.
    intros [->|Hp]%elem_of_cons; [split; [by apply elem_of_cons; left|done]|].
    destruct (IH' Hp). split; [by apply elem_of_cons; right|done].
  - intros Hp. destruct (IH g Hp). split; [by apply elem_of_cons; right|done].
Qed.
Lemma cond_at_elem pres k p : cond_at pres k = Some p → p ∈ pres ∧ CKey p.1 = k.
Proof.
  induction pres as [|[c id] pres IH]; simpl; [done|]. case_decide as Hk.
  - intros [= <-]. split; [by apply elem_of_cons; left|done].
  - intros [? ?]%IH. split; [by apply elem_of_cons; right|done].
Qed.
Lemma cond_at_None pres k : k ∉ (CKey ∘ fst) <$> pres → cond_at pres k = None.
Proof.
  intros Hk. destruct (cond_at pres k) as [p|] eqn:E; [|done]. exfalso. apply Hk.
  apply cond_at_elem in E as [? <-]. by apply (list_elem_of_fmap_2 (CKey ∘ fst)).
Qed.

(** The loop over the conditions. *)
Lemma conditions_fold at_ s topPID cs e seen out :
  NoDup (CKey <$> cs) →
  let pres := (assign (active e) s (IDs e) cs).1 in
  let r := fold_left (conditionStep at_ s topPID) cs (e, seen, out) in
  (∀ k, key_view r.1.1 k =
    match cond_at pres k with
    | Some (c, id) => (view_present s topPID at_ c id (key_view e k)).1
    | None => key_view e k
    end) ∧
  IDs r.1.1 = (assign (active e) s (IDs e) cs).2 ∧
  (∀ k, k ∈ r.1.2 ↔ k ∈ seen ∨ is_Some (cond_at pres k)) ∧
  r.2 = out ++ omap (λ p, (view_present s topPID at_ p.1 p.2 (key_view e (CKey p.1))).2) pres.
Proof.
  revert e seen out. induction cs as [|c cs IH]; intros e seen out Hn.
  { simpl. split_and!; [done..| |by rewrite app_nil_r]. intros k. split; [by left|by intros [?|[? ?]]]. }
  inversion_clear Hn as [|? ? Hc Hcs]. cbn [fold_left assign]. unfold conditionStep at 2 4 6 8.
  destruct (withinScope s (CKey c)) eqn:Ew; cbn [negb]; [|by apply IH].
  pose proof (applyCondition_view e at_ c s topPID) as Hv.
  pose proof (applyCondition_event e at_ c s topPID) as He.
  pose proof (applyCondition_IDs e at_ c s topPID) as Hi.
  destruct (applyCondition e at_ c s topPID) as [e' ev]. cbn [fst snd] in *.
  destruct (IH e' ({[CKey c]} ∪ seen) (out ++ option_list ev) Hcs) as (IH1 & IH2 & IH3 & IH4).
  rewrite (assign_ext (active e') (active e)) in IH1, IH2, IH3, IH4.
  2,3,4,5: intros k Hk; specialize (Hv k); rewrite decide_False in Hv by (by intros ->); by injection Hv.
  rewrite Hi in *. clear IH. set (r := fold_left _ cs _) in *.
  destruct (assign (active e) s _ cs) as [pres g'] eqn:Ea. cbn [fst snd] in *.
  assert (CKey c ∉ (CKey ∘ fst) <$> pres) as Hcp.
  { intros ([c' id] & Hk & Hp)%list_elem_of_fmap. apply Hc. simpl in Hk. rewrite Hk.
    apply list_elem_of_fmap_2. apply (assign_keys (active e) s (match active e !! CKey c with Some _ => IDs e | None => (Next (IDs e)).2 end) cs (c', id)).
    by rewrite Ea. }
  split_and!.
  - intros k. rewrite IH1. cbn [cond_at]. destruct (decide (CKey c = k)) as [<-|Hne].
    + rewrite cond_at_None by done. rewrite Hv. by rewrite decide_True.
    + rewrite Hv, decide_False by done. done.
  - done.
  - intros k. rewrite IH3, elem_of_union, elem_of_singleton. cbn [cond_at].
    destruct (decide (CKey c = k)) as [<-|Hne]; [naive_solver eauto|].
    split; [intros [[?|?]|?]; [congruence|by left|by right]|intros [?|?]; [by left; right|by right]].
  - rewrite IH4, He, <-app_assoc. f_equal. cbn [omap list_omap fst snd].
    assert (∀ p, p ∈ pres → key_view e' (CKey p.1) = key_view e (CKey p.1)) as Heq.
    { intros p Hp. rewrite Hv, decide_False; [done|]. intros Hk. apply Hcp. rewrite <-Hk.
      by apply (list_elem_of_fmap_2 (CKey ∘ fst)). }
    rewrite (omap_ext_in _ (λ p, (view_present s topPID at_ p.1 p.2 (key_view e (CKey p.1))).2) pres)
      by (intros p Hp; by rewrite Heq).
    by destruct (view_present _ _ _ c _ _) as [v [ev'|]].
Qed.

(** The loop over the active alerts. *)
Definition resolve_view (clearAfter : Z) (v : view) : view :=
  let '(a, c, p) := v in
  let n := default 0 c + 1 in
  if n <? clearAfter then (a, Some n, p) else (None, None, None).
Definition missing (s : scope) (seen : gset string) (k : string) : bool :=
  withinScope s k && negb (bool_decide (k ∈ seen)).

Lemma resolveStep_view at_ seen s n e out k a k' :
  key_view (resolveStep at_ seen s n (e, out) (k, a)).1 k' =
  if decide (k' = k) then (if missing s seen k then resolve_view n (key_view e k) else key_view e k) else key_view e k'.
Proof.
  unfold resolveStep, missing, resolve_view, key_view. destruct (decide (k' = k)) as [->|Hk].
  - destruct (withinScope s k); simpl; [|done]. case_bool_decide; simpl; [done|].
    case_match; simpl; [by rewrite lookup_insert_eq|]. by rewrite !lookup_delete_eq.
  - destruct (withinScope s k); simpl; [|done]. case_bool_decide; simpl; [done|].
    case_match; simpl; [by rewrite lookup_insert_ne|]. by rewrite !lookup_delete_ne, lookup_insert_ne.
Qed.
Definition resolve_event (at_ : time) (seen : gset string) (s : scope) (n : Z) (e : Engine G) (p : string * Alert)
  : option Event :=
  if missing s seen p.1 && negb (default 0 (clears e !! p.1) + 1 <? n)
  then Some {| Type_ := "resolved"; EAlert := resolve_at p.2 at_ |} else None.
Lemma resolveStep_event at_ seen s n e out p :
  (resolveStep at_ seen s n (e, out) p).2 = out ++ option_list (resolve_event at_ seen s n e p) ∧
  IDs (resolveStep at_ seen s n (e, out) p).1 = IDs e.
Proof.
  destruct p as [k a]. unfold resolveStep, resolve_event, missing. simpl.
  destruct (withinScope s k); simpl; [|by rewrite app_nil_r].
  case_bool_decide; simpl; [by rewrite app_nil_r|]. case_match; simpl; [by rewrite app_nil_r|done].
Qed.

Lemma resolve_fold at_ seen s n (l : list (string * Alert)) e out :
  NoDup l.*1 →
  let r := fold_left (resolveStep at_ seen s n) l (e, out) in
  (∀ k, key_view r.1 k =
    if decide (k ∈ l.*1) then (if missing s seen k then resolve_view n (key_view e k) else key_view e k)
    else key_view e k) ∧
  IDs r.1 = IDs e ∧
  r.2 = out ++ omap (resolve_event at_ seen s n e) l.
Proof.
  revert e out. induction l as [|[k a] l IH]; intros e out Hn.
  { simpl. split_and!; [|done|by rewrite app_nil_r]. intros k. done. }
  inversion_clear Hn as [|? ? Hk Hl]. cbn [fold_left].
  pose proof (resolveStep_view at_ seen s n e out k a) as Hv.
  destruct (resolveStep_event at_ seen s n e out (k, a)) as [He Hi].
  destruct (resolveStep at_ seen s n (e, out) (k, a)) as [e' out']. cbn [fst snd] in *.
  destruct (IH e' out' Hl) as (IH1 & IH2 & IH3). split_and!.
  - intros k'. rewrite IH1, !Hv. cbn [fmap list_fmap fst].
    destruct (decide (k' = k)) as [->|Hne].
    + rewrite (decide_False (P := k ∈ l.*1)) by done.
      by rewrite (decide_True (P := k ∈ k :: l.*1)) by (by apply elem_of_cons; left).
    + destruct (decide (k' ∈ l.*1)) as [Hin|Hin].
      * by rewrite (decide_True (P := k' ∈ k :: l.*1)) by (by apply elem_of_cons; right).
      * rewrite (decide_False (P := k' ∈ k :: l.*1)); [done|]. by intros [?|?]%elem_of_cons.
  - by rewrite IH2.
  - rewrite IH3, He, <-app_assoc. f_equal.
    rewrite (omap_ext_in _ (resolve_event at_ seen s n e) l).
    + cbn [omap list_omap]. by destruct (resolve_event at_ seen s n e (k, a)).
    + intros [k' a'] Hin. unfold resolve_event. simpl.
      assert (k' ≠ k). { intros ->. apply Hk. by apply (list_elem_of_fmap_2 fst _ (k, a')). }
      specialize (Hv k'). rewrite decide_False in Hv by done. unfold key_view in Hv. by injection Hv as _ -> _.
Qed.

(** What an evaluation does to a key. *)
Definition key_step (at_ : time) (s : scope) (clearAfter topPID : Z) (pres : list (Condition * string))
    (k : string) (v : view) : view * option Event :=
  if negb (withinScope s k) then (v, None) else
  match cond_at pres k with
  | Some (c, id) => view_present s topPID at_ c id v
  | None => view_absent clearAfter at_ v
  end.

Lemma cond_at_within act s g cs k p : cond_at (assign act s g cs).1 k = Some p → withinScope s k = true.
Proof. by intros [Hp <-]%cond_at_elem; apply assign_keys in Hp as [_ ?]. Qed.
Lemma assign_cond_at act s g cs p :
  NoDup (CKey <$> cs) → p ∈ (assign act s g cs).1 → cond_at (assign act s g cs).1 (CKey p.1) = Some p.
Proof.
  revert g. induction cs as [|c cs IH]; intros g Hn; simpl; [by intros ?%elem_of_nil|].
  inversion_clear Hn as [|? ? Hc Hcs]. destruct (withinScope s (CKey c)); simpl; [|by apply IH].
  pose proof (IH (match act !! CKey c with Some _ => g | None => (Next g).2 end) Hcs) as IH'.
  pose proof (assign_keys act s (match act !! CKey c with Some _ => g | None => (Next g).2 end) cs) as Hk.
  destruct (assign act s _ cs) as [l g'']. simpl in *. intros [->|Hp]%elem_of_cons; [by rewrite decide_True|].
  rewrite decide_False; [by apply IH'|]. intros He. apply Hc. rewrite He. apply list_elem_of_fmap_2. by apply Hk.
Qed.

Lemma evaluate_view e at_ cs s n topPID k :
  NoDup (CKey <$> cs) →
  key_view (evaluate e at_ cs s n topPID).1 k =
  (key_step at_ s n topPID (assign (active e) s (IDs e) cs).1 k (key_view e k)).1.
Proof.
  intros Hn. unfold evaluate, resolveMissing, key_step.
  destruct (conditions_fold at_ s topPID cs e ∅ [] Hn) as (H1 & _ & H3 & _).
  destruct (fold_left (conditionStep at_ s topPID) cs (e, ∅, [])) as [[e1 seen] out]. cbn [fst snd] in *.
  destruct (resolve_fold at_ seen s n (map_entries (active e1)) e1 [] (entries_NoDup _)) as (R1 & _ & _).
  destruct (fold_left (resolveStep at_ seen s n) _ (e1, [])) as [e2 out2]. cbn [fst snd] in *.
  rewrite R1, H1. unfold missing.
  pose proof (cond_at_within (active e) s (IDs e) cs k) as Hw.
  specialize (H3 k). specialize (H1 k).
  destruct (cond_at _ k) as [[c id]|] eqn:Ec.
  - rewrite (Hw _ eq_refl). rewrite bool_decide_true by (apply H3; right; by eexists). simpl.
    by destruct (decide _).
  - rewrite bool_decide_false; [|intros [?|[? ?]]%H3; [set_solver|done]]. rewrite andb_true_r.
    destruct (withinScope s k); simpl; [|by destruct (decide _)].
    assert (k ∈ (map_entries (active e1)).*1 ↔ is_Some (active e !! k)) as Hin.
    { injection H1 as H1 _ _. rewrite <-H1. rewrite list_elem_of_fmap. split.
      - intros ([? a] & -> & ?%elem_of_entries). by eexists.
      - intros [a Ha]. exists (k, a). split; [done|]. by apply elem_of_entries. }
    unfold key_view in *. simpl. destruct (active e !! k) as [a|] eqn:Ea; simpl.
    + rewrite decide_True by (apply Hin; by eexists). by destruct (_ <? _).
    + rewrite decide_False; [done|]. intros [? ?]%Hin. done.
Qed.

Lemma evaluate_IDs e at_ cs s n topPID :
  NoDup (CKey <$> cs) → IDs (evaluate e at_ cs s n topPID).1 = (assign (active e) s (IDs e) cs).2.
Proof.
  intros Hn. unfold evaluate, resolveMissing.
  destruct (conditions_fold at_ s topPID cs e ∅ [] Hn) as (_ & H2 & _ & _).
  destruct (fold_left (conditionStep at_ s topPID) cs (e, ∅, [])) as [[e1 seen] out]. cbn [fst snd] in *.
  destruct (resolve_fold at_ seen s n (map_entries (active e1)) e1 [] (entries_NoDup _)) as (_ & R2 & _).
  destruct (fold_left (resolveStep at_ seen s n) _ (e1, [])) as [e2 out2]. cbn [fst snd] in *. congruence.
Qed.

(** *** The invariant *)

(** An alert is stored under its own key, counters and parents belong to
    active alerts, and counters are not negative. *)
Definition view_ok (k : string) (v : view) : Prop :=
  match v with
  | (Some a, c, _) => Key a = k ∧ 0 <= default 0 c
  | (None, c, p) => c = None ∧ p = None
  end.
Definition engine_ok e : Prop := ∀ k, view_ok k (key_view e k).

Lemma view_present_ok s topPID at_ c id v k :
  CKey c = k → view_ok k v → view_ok k (view_present s topPID at_ c id v).1.
Proof. intros <-. destruct v as [[[a|] cl] p]; simpl; [intros [<- ?]|]; done. Qed.
Lemma view_absent_ok n at_ v k : view_ok k v → view_ok k (view_absent n at_ v).1.
Proof. destruct v as [[[a|] cl] p]; simpl; [|done]. intros [? ?]. case_match; simpl; [split; [done|lia]|done]. Qed.
Lemma key_step_ok at_ s n topPID pres k v : view_ok k v → view_ok k (key_step at_ s n topPID pres k v).1.
Proof.
  intros Hv. unfold key_step. destruct (withinScope s k); simpl; [|done].
  destruct (cond_at pres k) as [[c id]|] eqn:E; [|by apply view_absent_ok].
  apply view_present_ok; [|done]. by apply cond_at_elem in E as [_ ?].
Qed.
Lemma evaluate_ok e at_ cs s n topPID :
  NoDup (CKey <$> cs) → engine_ok e → engine_ok (evaluate e at_ cs s n topPID).1.
Proof. intros Hn He k. rewrite evaluate_view by done. by apply key_step_ok. Qed.

Lemma engine_ext e1 e2 : (∀ k, key_view e1 k = key_view e2 k) → IDs e1 = IDs e2 → e1 = e2.
Proof.
  destruct e1 as [a1 c1 p1 i1], e2 as [a2 c2 p2 i2]. unfold key_view. simpl. intros Hk ->.
  f_equal; apply map_eq; intros k; specialize (Hk k); congruence.
Qed.

(** The event of a key carries the key. *)
Lemma key_step_event_key at_ s n topPID pres k v ev :
  view_ok k v → (key_step at_ s n topPID pres k v).2 = Some ev → Key (EAlert ev) = k.
Proof.
  unfold key_step. destruct (withinScope s k); simpl; [|done].
  destruct (cond_at pres k) as [[c id]|] eqn:E; [apply cond_at_elem in E as [_ Hc]; simpl in Hc|];
    destruct v as [[[a|] cl] p]; simpl; intros Hv; try done.
  - destruct Hv as [Ha _]. case_match; [|done]. by intros [= <-].
  - by intros [= <-].
  - destruct Hv as [Ha _]. case_match; [done|]. by intros [= <-].
Qed.

Lemma assign_NoDup act s g cs : NoDup (CKey <$> cs) → NoDup ((CKey ∘ fst) <$> (assign act s g cs).1).
Proof.
  revert g. induction cs as [|c cs IH]; intros g Hn; simpl; [constructor|].
  inversion_clear Hn as [|? ? Hc Hcs]. destruct (withinScope s (CKey c)); simpl; [|by apply IH].
  pose proof (IH (match act !! CKey c with Some _ => g | None => (Next g).2 end) Hcs) as IH'.
  pose proof (assign_keys act s (match act !! CKey c with Some _ => g | None => (Next g).2 end) cs) as Hk.
  destruct (assign act s _ cs) as [l g'']. simpl in *. constructor; [|done].
  intros (p & Hp & Hin)%list_elem_of_fmap. apply Hc. simpl in Hp. rewrite Hp.
  apply list_elem_of_fmap_2. by apply Hk.
Qed.
Lemma key_step_present at_ s n topPID act g cs p v :
  NoDup (CKey <$> cs) → p ∈ (assign act s g cs).1 →
  key_step at_ s n topPID (assign act s g cs).1 (CKey p.1) v = view_present s topPID at_ p.1 p.2 v.
Proof.
  intros Hn Hp. unfold key_step. destruct (assign_keys _ _ _ _ _ Hp) as [_ ->]. simpl.
  rewrite assign_cond_at by done. by destruct p.
Qed.

(** The state [e1] and the keys [seen] after the loop over the conditions: a
    key is missing if it is in scope and no condition has it, and the engine
    has not changed there. *)
Record after_conditions (e e1 : Engine G) (seen : gset string) (s : scope) (pres : list (Condition * string)) : Prop := {
  ac_missing k : missing s seen k = withinScope s k && bool_decide (cond_at pres k = None);
  ac_view k : cond_at pres k = None → key_view e1 k = key_view e k }.

Lemma evaluate_shape e at_ cs s n topPID :
  NoDup (CKey <$> cs) →
  let pres := (assign (active e) s (IDs e) cs).1 in
  ∃ e1 seen, after_conditions e e1 seen s pres ∧
    (evaluate e at_ cs s n topPID).2 =
    sortEvents (omap (λ p, (view_present s topPID at_ p.1 p.2 (key_view e (CKey p.1))).2) pres ++
                omap (resolve_event at_ seen s n e1) (map_entries (active e1))).
Proof.
  intros Hn pres. unfold evaluate, resolveMissing.
  destruct (conditions_fold at_ s topPID cs e ∅ [] Hn) as (H1 & _ & H3 & H4). fold pres in H1, H3, H4.
  destruct (fold_left (conditionStep at_ s topPID) cs (e, ∅, [])) as [[e1 seen] out]. cbn [fst snd] in *.
  destruct (resolve_fold at_ seen s n (map_entries (active e1)) e1 [] (entries_NoDup _)) as (_ & _ & R3).
  destruct (fold_left (resolveStep at_ seen s n) _ (e1, [])) as [e2 out2]. cbn [fst snd] in *.
  exists e1, seen. split; [|by rewrite H4, R3]. split.
  - intros k. unfold missing. f_equal. rewrite <-bool_decide_not. apply bool_decide_ext. rewrite H3.
    destruct (cond_at pres k); split; try done; [intros []; right; by eexists|]. intros _ [?|[??]]; [set_solver|done].
  - intros k Hk. by rewrite H1, Hk.
Qed.

Lemma missing_event e e1 seen s at_ n topPID pres k a :
  after_conditions e e1 seen s pres → missing s seen k = true → active e1 !! k = Some a →
  (key_step at_ s n topPID pres k (key_view e k)).2 = resolve_event at_ seen s n e1 (k, a).
Proof.
  intros Hac Hk Ha. pose proof Hk as [Hw Hc]%(eq_trans (eq_sym (ac_missing _ _ _ _ _ Hac k)))%andb_prop.
  apply bool_decide_eq_true in Hc. unfold key_step, resolve_event. rewrite Hw, Hc, <-(ac_view _ _ _ _ _ Hac k Hc). simpl.
  unfold key_view. rewrite Ha, Hk. simpl. by destruct (_ <? _).
Qed.
Lemma resolve_event_missing at_ seen s n e1 k a ev :
  resolve_event at_ seen s n e1 (k, a) = Some ev → missing s seen k = true.
Proof. unfold resolve_event. simpl. by destruct (missing s seen k). Qed.

(** The events of an evaluation: exactly the events of the keys. *)
Lemma elem_of_events e at_ cs s n topPID ev :
  NoDup (CKey <$> cs) →
  ev ∈ (evaluate e at_ cs s n topPID).2 ↔
  ∃ k, (key_step at_ s n topPID (assign (active e) s (IDs e) cs).1 k (key_view e k)).2 = Some ev.
Proof.
  intros Hn. destruct (evaluate_shape e at_ cs s n topPID Hn) as (e1 & seen & Hac & ->).
  unfold sortEvents. rewrite elem_of_sort, elem_of_app, !list_elem_of_omap. split.
  - intros [(p & Hp & Hev)|([k a] & Ha & Hev)].
    + exists (CKey p.1). by rewrite key_step_present.
    + exists k. rewrite (missing_event e e1 seen s at_ n topPID _ k a); try done.
      * by eapply resolve_event_missing.
      * by apply elem_of_entries.
  - intros [k Hk]. destruct (cond_at (assign (active e) s (IDs e) cs).1 k) as [p|] eqn:Ec.
    + apply cond_at_elem in Ec as [Hp <-]. left. exists p. by rewrite key_step_present in Hk.
    + right. assert (missing s seen k = true) as Hm.
      { rewrite (ac_missing _ _ _ _ _ Hac), Ec. revert Hk. unfold key_step. by destruct (withinScope s k). }
      pose proof (ac_view _ _ _ _ _ Hac k Ec) as Hv.
      destruct (active e1 !! k) as [a|] eqn:Ea.
      * exists (k, a). split; [by apply elem_of_entries|]. by rewrite <-(missing_event e e1 seen s at_ n topPID (assign (active e) s (IDs e) cs).1 k a).
      * exfalso. revert Hk. unfold key_step. rewrite Ec, <-Hv. unfold key_view. rewrite Ea. by destruct (withinScope s k).
Qed.
Lemma events_NoDup e at_ cs s n topPID :
  NoDup (CKey <$> cs) → engine_ok e → NoDup ((Key ∘ EAlert) <$> (evaluate e at_ cs s n topPID).2).
Proof.
  intros Hn He. destruct (evaluate_shape e at_ cs s n topPID Hn) as (e1 & seen & Hac & ->).
  unfold sortEvents. rewrite sort_perm, fmap_app. apply NoDup_app.
  assert (∀ p ev, p ∈ (assign (active e) s (IDs e) cs).1 →
    (view_present s topPID at_ p.1 p.2 (key_view e (CKey p.1))).2 = Some ev → Key (EAlert ev) = CKey p.1) as Hp.
  { intros p ev Hp Hev. rewrite <-(key_step_present at_ s n topPID (active e) (IDs e) cs) in Hev by done.
    by apply key_step_event_key in Hev. }
  assert (∀ k a ev, (k, a) ∈ map_entries (active e1) → resolve_event at_ seen s n e1 (k, a) = Some ev →
    Key (EAlert ev) = k ∧ cond_at (assign (active e) s (IDs e) cs).1 k = None) as Hr.
  { intros k a ev Ha%elem_of_entries Hev. pose proof (resolve_event_missing _ _ _ _ _ _ _ _ Hev) as Hm. split.
    - rewrite <-(missing_event e e1 seen s at_ n topPID (assign (active e) s (IDs e) cs).1 k a) in Hev by done. by apply key_step_event_key in Hev.
    - rewrite (ac_missing _ _ _ _ _ Hac) in Hm. to_prop. done. }
  split_and!.
  - apply (NoDup_omap_key _ (CKey ∘ fst)); [by apply assign_NoDup|]. intros p ev ??. by apply Hp.
  - intros k (ev & -> & (p & Hin & Hev)%list_elem_of_omap)%list_elem_of_fmap
      (ev' & Hk & ([k' a] & Ha & Hev')%list_elem_of_omap)%list_elem_of_fmap.
    apply Hp in Hev; [|done]. apply Hr in Hev' as [<- Hc]; [|done]. simpl in Hk.
    by rewrite <-Hk, Hev, assign_cond_at in Hc.
  - apply (NoDup_omap_key _ fst); [apply entries_NoDup|]. intros [k a] ev Ha Hev. by apply (Hr k a).
Qed.
Lemma events_sorted e at_ cs s n topPID :
  Sorted (λ a b, String.ltb (Key (EAlert b)) (Key (EAlert a)) = false) (evaluate e at_ cs s n topPID).2.
Proof.
  unfold evaluate. destruct (fold_left _ _ _) as [[e1 seen] out]. destruct (resolveMissing _ _ _ _ _) as [e2 out2].
  apply sort_sorted. apply (strict_weak_key (Key ∘ EAlert)), strict_weak_string.
Qed.

(** *** Histories *)

Record round := { r_scope : scope; r_at : time; r_conditions : list Condition; r_pid : Z }.
(** After how many absences an alert of a scope is resolved. *)
Definition clear_after (s : scope) : nat := match s with SpawnScope => 3 | _ => 2 end.
Definition run_round e (r : round) : Engine G :=
  (evaluate e (r_at r) (r_conditions r) (r_scope r) (Z.of_nat (clear_after (r_scope r))) (r_pid r)).1.
Definition run e (rs : list round) : Engine G := fold_left run_round rs e.

Definition has (k : string) (r : round) : bool := bool_decide (k ∈ CKey <$> r_conditions r).
(** The evaluations of a key's scope, the latest first. *)
Definition rounds_of (k : string) (rs : list round) : list round :=
  reverse (filter (λ r, r_scope r = scope_of k) rs).

Lemma cond_at_has act s g cs k :
  withinScope s k = true → (cond_at (assign act s g cs).1 k = None ↔ k ∉ CKey <$> cs).
Proof.
  intros Hw. revert g. induction cs as [|c cs IH]; intros g; simpl; [split; [intros _; apply not_elem_of_nil|done]|].
  rewrite not_elem_of_cons. destruct (withinScope s (CKey c)) eqn:Ec; simpl.
  - pose proof (IH (match act !! CKey c with Some _ => g | None => (Next g).2 end)) as IH'.
    destruct (assign act s _ cs) as [l g'']. simpl in *. case_decide as Hk; [|naive_solver]. split; [done|].
    intros [? _]. congruence.
  - rewrite IH. split; [|naive_solver]. intros. split; [|done]. intros ->. congruence.
Qed.

(** The state of a key after a history [h] of its scope (latest first), when
    the key started with the view [v0]: [first_true] counts the evaluations
    since the condition was last present. *)
Fixpoint first_true (h : list bool) : option nat :=
  match h with [] => None | true :: _ => Some O | false :: h => S <$> first_true h end.
Definition live (n : nat) (active0 : bool) (c0 : nat) (h : list bool) : option nat :=
  match first_true h with
  | Some m => if (m <? n)%nat then Some m else None
  | None => if active0 && (c0 + length h <? n)%nat then Some (c0 + length h)%nat else None
  end.
Definition tracks (m : option nat) (v : view) : Prop :=
  match m with
  | Some m => is_Some v.1.1 ∧ default 0 v.1.2 = Z.of_nat m
  | None => v.1.1 = None
  end.

Lemma live_absent n a0 c0 h :
  (0 < n)%nat →
  live n a0 c0 (false :: h) =
  match live n a0 c0 h with Some m => if (S m <? n)%nat then Some (S m) else None | None => None end.
Proof.
  intros. unfold live. simpl. destruct (first_true h) as [m|]; simpl.
  - destruct (Nat.ltb_spec m n), (Nat.ltb_spec (S m) n); try done; lia.
  - destruct a0; simpl; [|done]. rewrite Nat.add_succ_r.
    destruct (Nat.ltb_spec (c0 + length h) n), (Nat.ltb_spec (S (c0 + length h)) n); try done; lia.
Qed.
Lemma view_absent_tracks n at_ m v :
  tracks m v →
  tracks (match m with Some m => if (S m <? n)%nat then Some (S m) else None | None => None end)
    (view_absent (Z.of_nat n) at_ v).1.
Proof.
  destruct v as [[a c] p], m as [m|]; simpl.
  - intros [[a' ->] Hc]. simpl. rewrite Hc.
    destruct (Nat.ltb_spec (S m) n), (Z.ltb_spec (Z.of_nat m + 1) (Z.of_nat n)); simpl; try lia; [|done].
    split; [by eexists|lia].
  - by intros ->.
Qed.

Lemma run_round_view e r k :
  NoDup (CKey <$> r_conditions r) →
  (r_scope r ≠ scope_of k → key_view (run_round e r) k = key_view e k) ∧
  (r_scope r = scope_of k → ∀ n a0 c0 h, n = clear_after (scope_of k) →
    tracks (live n a0 c0 h) (key_view e k) → tracks (live n a0 c0 (has k r :: h)) (key_view (run_round e r) k)).
Proof.
  intros Hn. unfold run_round. rewrite evaluate_view by done. unfold key_step. rewrite withinScope_spec. split.
  - intros Hs. by rewrite bool_decide_false.
  - intros Hs n a0 c0 h -> Ht. rewrite bool_decide_true by done. cbn [negb]. unfold has.
    pose proof (cond_at_has (active e) (r_scope r) (IDs e) (r_conditions r) k) as Hc.
    rewrite withinScope_spec, bool_decide_true in Hc by done. specialize (Hc eq_refl). rewrite Hs in *.
    destruct (cond_at _ k) as [[c id]|].
    + rewrite bool_decide_true. 2: { destruct (decide (k ∈ CKey <$> r_conditions r)) as [|Hne]; [done|]. by apply Hc in Hne. }
      unfold live. simpl. replace (0 <? clear_after (scope_of k))%nat with true by (by destruct (scope_of k)).
      unfold view_present, key_view. destruct (active e !! k); simpl; split; try done; by eexists.
    + rewrite bool_decide_false by (by apply Hc). rewrite live_absent by (destruct (scope_of k); simpl; lia).
      by apply view_absent_tracks.
Qed.

Lemma run_tracks rs e k a0 c0 h :
  Forall (λ r, NoDup (CKey <$> r_conditions r)) rs →
  tracks (live (clear_after (scope_of k)) a0 c0 h) (key_view e k) →
  tracks (live (clear_after (scope_of k)) a0 c0 ((has k <$> rounds_of k rs) ++ h)) (key_view (run e rs) k).
Proof.
  intros Hrs. revert e h. induction Hrs as [|r rs Hr Hrs IH]; intros e h Ht; [done|]. cbn [run fold_left].
  fold (run (run_round e r) rs). destruct (run_round_view e r k Hr) as [Hout Hin].
  unfold rounds_of. rewrite filter_cons. destruct (decide (r_scope r = scope_of k)) as [Hs|Hs].
  - rewrite reverse_cons, fmap_app, <-app_assoc. apply IH. simpl. by apply Hin.
  - apply IH. by rewrite Hout.
Qed.

Lemma live_spec n a0 c0 (h : list bool) :
  is_Some (live n a0 c0 h) ↔
  true ∈ take n h ∨ (a0 = true ∧ (true ∉ h) ∧ (c0 + length h < n)%nat).
Proof.
  unfold live. assert (∀ m, first_true h = Some m → true ∈ h ∧ (true ∈ take n h ↔ (m < n)%nat)) as H1.
  { clear. revert n. induction h as [|[] h IH]; intros n m; simpl; [done|..].
    - intros [= <-]. split; [by apply elem_of_cons; left|]. destruct n; simpl.
      + split; [by intros ?%elem_of_nil|lia].
      + split; [lia|]. intros _. by apply elem_of_cons; left.
    - intros (m' & E & ->)%fmap_Some. destruct n as [|n]; simpl.
      + split; [apply elem_of_cons; right; by apply (IH 0%nat m')|]. split; [by intros ?%elem_of_nil|lia].
      + destruct (IH n m' E) as [? IH2]. split; [by apply elem_of_cons; right|].
        rewrite elem_of_cons, IH2. naive_solver lia. }
  assert (first_true h = None → true ∉ h) as H2.
  { clear. induction h as [|[] h IH]; simpl; [intros _; apply not_elem_of_nil|done|].
    intros E%fmap_None. apply not_elem_of_cons. split; [done|by apply IH]. }
  destruct (first_true h) as [m|].
  - destruct (H1 m eq_refl) as [Hin ->]. destruct (Nat.ltb_spec m n).
    + split; [by left|by eexists].
    + split; [by intros [? ?]|]. intros [?|(_ & ? & _)]; [lia|done].
  - specialize (H2 eq_refl). assert (true ∉ take n h) as H3. { intros (i & Hi & _)%elem_of_take. apply H2. by eapply list_elem_of_lookup_2. }
    destruct a0; simpl; [|naive_solver]. destruct (Nat.ltb_spec (c0 + length h) n).
    + split; [intros _; by right|by eexists].
    + split; [by intros [? ?]|]. intros [?|(_ & _ & ?)]; [done|lia].
Qed.

(** *** Restored alerts *)

Lemma Restore_active e alerts k :
  active (Restore e alerts) !! k =
  match last (filter (λ a, State a = "firing" ∧ Key a = k) alerts) with
  | Some a => Some a | None => active e !! k end.
Proof.
  unfold Restore. revert e. induction alerts as [|a alerts IH]; intros e; simpl; [done|].
  rewrite IH, filter_cons. unfold restoreStep.
  destruct (decide (State a = "firing")) as [Hs|Hs], (decide (Key a = k)) as [Hk|Hk].
  - rewrite (decide_True (P := _ ∧ _)) by done. rewrite last_cons. destruct (last _); [done|].
    simpl. by rewrite Hk, lookup_insert_eq.
  - rewrite (decide_False (P := _ ∧ _)) by naive_solver. destruct (last _); [done|]. simpl. by rewrite lookup_insert_ne.
  - by rewrite (decide_False (P := _ ∧ _)) by naive_solver.
  - by rewrite (decide_False (P := _ ∧ _)) by naive_solver.
Qed.
Lemma Restore_rest e alerts :
  clears (Restore e alerts) = clears e ∧ parents (Restore e alerts) = parents e ∧ IDs (Restore e alerts) = IDs e.
Proof.
  unfold Restore. revert e. induction alerts as [|a alerts IH]; intros e; [done|]. cbn [fold_left].
  destruct (IH (restoreStep e a)) as (-> & -> & ->). unfold restoreStep. by case_decide.
Qed.
Lemma Restore_some (g : G) alerts k :
  is_Some (active (Restore (NewEngine g) alerts) !! k) ↔ ∃ a, a ∈ alerts ∧ State a = "firing" ∧ Key a = k.
Proof.
  rewrite Restore_active. simpl. rewrite lookup_empty. set (l := filter _ alerts).
  assert (∀ a, a ∈ l ↔ (State a = "firing" ∧ Key a = k) ∧ a ∈ alerts) as Hl by (intros a; unfold l; by rewrite list_elem_of_filter).
  split.
  - intros [a Ha]. destruct (last l) as [a'|] eqn:E; [|done]. apply last_Some_elem_of in E. naive_solver.
  - intros (a & ? & ? & ?). assert (a ∈ l) as Hin by naive_solver. destruct (last l) eqn:E; [by eexists|].
    apply last_None in E. rewrite E in Hin. by apply elem_of_nil in Hin.
Qed.

(** *** Acknowledging *)

Lemma ackLoop_spec (l : list (string * Alert)) id :
  match ackLoop l id with
  | Some (k, a) => (k, a) ∈ l ∧ ID a = id
  | None => ∀ k a, (k, a) ∈ l → ID a ≠ id
  end.
Proof.
  induction l as [|[k a] l IH]; simpl; [intros k a Hin; by apply elem_of_nil in Hin|]. case_decide as Hi.
  - split; [by apply elem_of_cons; left|done].
  - destruct (ackLoop l id) as [[k' a']|].
    + destruct IH. split; [by apply elem_of_cons; right|done].
    + intros k' a' [[= -> ->]|?]%elem_of_cons; [done|by eapply IH].
Qed.

Lemma event_scope e at_ cs s n topPID ev :
  NoDup (CKey <$> cs) → engine_ok e → ev ∈ (evaluate e at_ cs s n topPID).2 → withinScope s (Key (EAlert ev)) = true.
Proof.
  intros Hn He [k Hk]%elem_of_events; [|done].
  pose proof (key_step_event_key _ _ _ _ _ _ _ _ (He k) Hk) as ->. revert Hk. unfold key_step.
  by destruct (withinScope s k).
Qed.
End Facts.

(** *** Independence of the runtime *)

Lemma evaluate_runtime {R1 R2 : GoRuntime} {H1 : RuntimeOk R1} {H2 : RuntimeOk R2} {G} `{Generator G}
    (e : Engine G) at_ cs s n topPID :
  NoDup (CKey <$> cs) → engine_ok e →
  evaluate (R := R1) e at_ cs s n topPID = evaluate (R := R2) e at_ cs s n topPID.
Proof.
  intros Hn He.
  pose proof (evaluate_view (R := R1) e at_ cs s n topPID) as V1. pose proof (evaluate_view (R := R2) e at_ cs s n topPID) as V2.
  pose proof (evaluate_IDs (R := R1) e at_ cs s n topPID Hn) as I1. pose proof (evaluate_IDs (R := R2) e at_ cs s n topPID Hn) as I2.
  pose proof (events_NoDup (R := R1) e at_ cs s n topPID Hn He) as N1. pose proof (events_NoDup (R := R2) e at_ cs s n topPID Hn He) as N2.
  pose proof (λ ev, elem_of_events (R := R1) e at_ cs s n topPID ev Hn) as E1. pose proof (λ ev, elem_of_events (R := R2) e at_ cs s n topPID ev Hn) as E2.
  pose proof (events_sorted (R := R1) e at_ cs s n topPID) as S1. pose proof (events_sorted (R := R2) e at_ cs s n topPID) as S2.
  destruct (evaluate (R := R1) _ _ _ _ _ _) as [e1 o1], (evaluate (R := R2) _ _ _ _ _ _) as [e2 o2]. cbn [fst snd] in *.
  f_equal.
  - apply engine_ext; [|congruence]. intros k. by rewrite V1, V2.
  - assert (o1 ≡ₚ o2) as Hp.
    { apply NoDup_Permutation; [by eapply NoDup_fmap_1|by eapply NoDup_fmap_1|]. intros ev. by rewrite E1, E2. }
    by apply (key_sorted_unique (Key ∘ EAlert)).
Qed.

Lemma Evaluate_runtime {R1 R2 : GoRuntime} {H1 : RuntimeOk R1} {H2 : RuntimeOk R2} {G} `{Generator G}
    (e : Engine G) at_ cs :
  NoDup (CKey <$> cs) → engine_ok e →
  Evaluate (R := R1) e at_ cs = Evaluate (R := R2) e at_ cs.
Proof.
  intros Hn He. unfold Evaluate, EvaluateSlow, EvaluateSustained.
  rewrite (evaluate_runtime (R1 := R1) (R2 := R2) e at_ cs Slow 2 0 Hn He).
  pose proof (evaluate_ok (R := R2) e at_ cs Slow 2 0 Hn He) as He1.
  pose proof (events_NoDup (R := R2) e at_ cs Slow 2 0 Hn He) as N1.
  pose proof (λ ev, event_scope (R := R2) e at_ cs Slow 2 0 ev Hn He) as S1.
  destruct (evaluate e at_ cs Slow 2 0) as [e1 o1]. cbn [fst snd] in *.
  rewrite (evaluate_runtime (R1 := R1) (R2 := R2) e1 at_ cs SpawnScope 3 (-1) Hn He1).
  pose proof (evaluate_ok (R := R2) e1 at_ cs SpawnScope 3 (-1) Hn He1) as He2.
  pose proof (events_NoDup (R := R2) e1 at_ cs SpawnScope 3 (-1) Hn He1) as N2.
  pose proof (λ ev, event_scope (R := R2) e1 at_ cs SpawnScope 3 (-1) ev Hn He1) as S2.
  destruct (evaluate e1 at_ cs SpawnScope 3 (-1)) as [e2 o2]. cbn [fst snd] in *.
  rewrite (evaluate_runtime (R1 := R1) (R2 := R2) e2 at_ cs SustainedScope 2 (-1) Hn He2).
  pose proof (events_NoDup (R := R2) e2 at_ cs SustainedScope 2 (-1) Hn He2) as N3.
  pose proof (λ ev, event_scope (R := R2) e2 at_ cs SustainedScope 2 (-1) ev Hn He2) as S3.
  destruct (evaluate e2 at_ cs SustainedScope 2 (-1)) as [e3 o3]. cbn [fst snd] in *.
  f_equal. apply (sort_slice_key_eq (Key ∘ EAlert)); [done|].
  rewrite !fmap_app. repeat (apply NoDup_app; split_and!; try done).
  - intros k (ev1 & -> & Hev1)%list_elem_of_fmap (ev2 & Hk & Hev2)%list_elem_of_fmap. simpl in Hk.
    apply S1 in Hev1. apply S2 in Hev2. rewrite <-Hk in Hev2. rewrite withinScope_spec in *. to_prop. congruence.
  - intros k [Hk1|Hk1]%elem_of_app (ev2 & Hk & Hev2)%list_elem_of_fmap;
      apply list_elem_of_fmap in Hk1 as (ev1 & -> & Hev1); simpl in Hk; apply S3 in Hev2; rewrite <-Hk in Hev2;
      [apply S1 in Hev1|apply S2 in Hev1]; rewrite withinScope_spec in *; to_prop; congruence.
Qed.
End EngineFacts.

(** ** Properties *)

Import Idgen Engine EngineFacts.

Section EngineProperties.
Context {R : GoRuntime} {HR : RuntimeOk R} {G : Type} `{Generator G}.
Implicit Types e : Engine G.

(** One evaluation, exactly: for conditions with distinct keys and an
    engine whose invariant holds, every key of the scope whose condition is
    present is active afterwards, with its counter reset and the condition's
    severity, title and detail; a new alert gets the generator's next id and a
    "fired" event, an existing one an "updated" event if its severity or its
    parent process changed.  A key of the scope whose condition is absent
    counts the absence, and is removed with a "resolved" event when the counter
    reaches the limit.  Keys of other scopes do not change.  The events are
    exactly these, one per key at most, sorted by key, and the invariant is
    kept. *)
Theorem engine_evaluate_exact e at_ cs s n topPID
  (Hn : NoDup (CKey <$> cs)) (He : engine_ok e) :
  let pres := (assign (active e) s (IDs e) cs).1 in
  let r := evaluate e at_ cs s n topPID in
  (∀ k, key_view r.1 k = (key_step at_ s n topPID pres k (key_view e k)).1) ∧
  (∀ ev, ev ∈ r.2 ↔ ∃ k, (key_step at_ s n topPID pres k (key_view e k)).2 = Some ev) ∧
  IDs r.1 = (assign (active e) s (IDs e) cs).2 ∧
  NoDup ((Key ∘ EAlert) <$> r.2) ∧
  Sorted (λ a b, String.ltb (Key (EAlert b)) (Key (EAlert a)) = false) r.2 ∧
  engine_ok r.1.
Proof.
  split_and!.
  - intros k. by apply evaluate_view.
  - intros ev. by apply elem_of_events.
  - by apply evaluate_IDs.
  - by apply events_NoDup.
  - apply events_sorted.
  - by apply evaluate_ok.
Qed.

(** C35: Hysteresis over whole histories: after any sequence of evaluations of
    any scopes, starting from an engine that restored some stored alerts, an
    alert is active exactly if its condition was present in one of the last
    two evaluations of its scope (three for the spawn scope), or if it was
    restored as firing, never reported since, and its scope has been evaluated
    fewer than two (three) times. *)
Theorem engine_hysteresis (g : G) alerts rs k
  (Hrs : Forall (λ r, NoDup (CKey <$> r_conditions r)) rs) :
  is_Some (active (run (Restore (NewEngine g) alerts) rs) !! k) ↔
  (∃ r, r ∈ take (clear_after (scope_of k)) (rounds_of k rs) ∧ k ∈ CKey <$> r_conditions r) ∨
  ((∃ a, a ∈ alerts ∧ State a = "firing" ∧ Key a = k) ∧
   (∀ r, r ∈ rounds_of k rs → k ∉ CKey <$> r_conditions r) ∧
   (length (rounds_of k rs) < clear_after (scope_of k))%nat).
Proof.
  set (a0 := bool_decide (is_Some (active (Restore (NewEngine g) alerts) !! k))).
  assert (tracks (live (clear_after (scope_of k)) a0 0 []) (key_view (Restore (NewEngine g) alerts) k)) as Ht.
  { unfold live, tracks, key_view. simpl. destruct (Restore_rest (NewEngine g) alerts) as (-> & _ & _).
    replace (0 <? clear_after (scope_of k))%nat with true by (by destruct (scope_of k)). rewrite andb_true_r.
    subst a0. case_bool_decide as Ha; simpl; [by rewrite lookup_empty|]. by apply eq_None_not_Some. }
  apply (run_tracks rs) in Ht; [|done]. rewrite app_nil_r in Ht.
  set (h := has k <$> rounds_of k rs) in Ht. rewrite <-Restore_some with (g := g).
  transitivity (is_Some (live (clear_after (scope_of k)) a0 0 h)).
  { unfold tracks, key_view in Ht. destruct (live _ _ _ _); simpl in Ht; [|rewrite Ht]; naive_solver eauto. }
  rewrite live_spec. subst h a0. rewrite <-fmap_take, bool_decide_eq_true, length_fmap. simpl.
  assert (∀ l : list round, true ∈ has k <$> l ↔ ∃ r, r ∈ l ∧ k ∈ CKey <$> r_conditions r) as Hex.
  { intros l. rewrite list_elem_of_fmap. unfold has.
    split; intros (r & Hr & Hin); exists r; [|by rewrite bool_decide_true].
    split; [done|]. symmetry in Hr. by apply bool_decide_eq_true in Hr. }
  rewrite !Hex. naive_solver.
Qed.

(** Acknowledging by id: when no two active alerts share the id, [Ack]
    marks exactly the alert with that id and changes nothing else, and reports
    failure without a change when no alert has it; the iteration order plays
    no part. *)
Theorem engine_ack_exact e id at_
  (Hu : ∀ k1 k2 a1 a2, active e !! k1 = Some a1 → active e !! k2 = Some a2 → ID a1 = id → ID a2 = id → k1 = k2) :
  (∀ k a, active e !! k = Some a → ID a = id →
     Ack e id at_ = (with_active e (<[k := ack_at a at_]> (active e)), Some (ack_at a at_))) ∧
  ((∀ k a, active e !! k = Some a → ID a ≠ id) → Ack e id at_ = (e, None)).
Proof.
  unfold Ack. pose proof (ackLoop_spec (map_entries (active e)) id) as Hl.
  destruct (ackLoop _ id) as [[k' a']|].
  - destruct Hl as [Hin%elem_of_entries Hid]. split.
    + intros k a Ha Hia. assert (k' = k) as -> by (by eapply Hu). congruence.
    + intros Hno. by destruct (Hno k' a').
  - split; [|done]. intros k a Ha Hia. by destruct (Hl k a (proj2 (elem_of_entries _ _ _) Ha)).
Qed.
End EngineProperties.

(** No dependence on what Go leaves open: two runtimes that iterate over
    maps in different orders, and sort equal elements differently, give the
    same engine and the same events, for each scope and for [Evaluate]. *)
Theorem engine_runtime_independent (R1 R2 : GoRuntime) (H1 : RuntimeOk R1) (H2 : RuntimeOk R2) (e : Engine Sequence)
  at_ cs s n topPID (Hn : NoDup (CKey <$> cs)) (He : engine_ok e) :
  evaluate (R := R1) e at_ cs s n topPID = evaluate (R := R2) e at_ cs s n topPID ∧
  Evaluate (R := R1) e at_ cs = Evaluate (R := R2) e at_ cs.
Proof. split; [by apply evaluate_runtime|by apply Evaluate_runtime]. Qed.

(** Witnesses: two load conditions and a spawn condition. *)
Definition demo_condition (k sev : string) : Condition :=
  {| CKey := k; CSeverity := sev; CTitle := "t"; CDetail := "d" |}.
Definition demo_conditions : list Condition := [demo_condition "load.high" "warn"; demo_condition "spawn.rate" "critical"].
Definition demo_engine : Engine Sequence := NewEngine (NewSequence "").
Definition demo_alert (id k : string) : Alert := fire id (demo_condition k "warn") 0.

Lemma demo_NoDup : NoDup (CKey <$> demo_conditions).
Proof. apply (bool_decide_unpack _). vm_compute. exact I. Qed.
Lemma demo_engine_ok : engine_ok demo_engine.
Proof. intros k. unfold key_view. simpl. by rewrite !lookup_empty. Qed.

Lemma engine_evaluate_exact_witness :
  engine_ok (evaluate (R := go_runtime) demo_engine 7 demo_conditions Slow 2 0).1.
Proof. apply (engine_evaluate_exact (R := go_runtime) demo_engine 7 demo_conditions Slow 2 0 demo_NoDup demo_engine_ok). Defined.

Lemma engine_hysteresis_witness :
  is_Some (active (run (R := go_runtime) (Restore demo_engine [])
    [{| r_scope := Slow; r_at := 0; r_conditions := demo_conditions; r_pid := 0 |};
     {| r_scope := Slow; r_at := 1; r_conditions := []; r_pid := 0 |}]) !! "load.high").
Proof.
  apply (engine_hysteresis (R := go_runtime) (NewSequence "") []
    [{| r_scope := Slow; r_at := 0; r_conditions := demo_conditions; r_pid := 0 |};
     {| r_scope := Slow; r_at := 1; r_conditions := []; r_pid := 0 |}] "load.high").
  - apply List.Forall_cons; [exact demo_NoDup|]. apply List.Forall_cons; [apply NoDup_nil_2|apply List.Forall_nil].
  - left. eexists. split; [apply (list_elem_of_lookup_2 _ 1); reflexivity|].
    apply (list_elem_of_lookup_2 _ 0). reflexivity.
Defined.

Lemma engine_ack_exact_witness :
  (Ack (R := go_runtime) (with_active demo_engine {["k" := demo_alert "id-1" "k"]}) "id-1" 9).2 =
  Some (ack_at (demo_alert "id-1" "k") 9).
Proof.
  destruct (engine_ack_exact (R := go_runtime) (with_active demo_engine {["k" := demo_alert "id-1" "k"]}) "id-1" 9) as [Hack _].
  - simpl. intros k1 k2 a1 a2 [<- _]%lookup_singleton_Some [<- _]%lookup_singleton_Some _ _. reflexivity.
  - rewrite (Hack "k" (demo_alert "id-1" "k")); [reflexivity|apply lookup_singleton_eq|reflexivity].
Defined.

Lemma engine_runtime_independent_witness :
  Evaluate (R := go_runtime) demo_engine 7 demo_conditions = Evaluate (R := go_runtime_rev) demo_engine 7 demo_conditions.
Proof.
  apply (engine_runtime_independent go_runtime go_runtime_rev _ _ demo_engine 7 demo_conditions Slow 2 0 demo_NoDup demo_engine_ok).
Defined.
