(* ===== verification/HostEvaluate.v ===== *)
(** * Watch configuration and host conditions

    Models [src/internal/hostwatch/config.go] (module [Config]),
    [evaluate.go] and the data of [sample.go] (module [Evaluate]) and
    [classify.go] (module [Classify]).  The theorems show that a validated
    configuration satisfies every bound the validator names and is a fixed
    point of it, and give the exact conditions an evaluation of a window of
    samples reports, with distinct keys, independently of map iteration. *)

From S2P Require Import Prelude GoStrings GoPath GoRuntime Float64 HostEngine.
From Stdlib Require Import Ascii.
Import HostEngine.Engine.

Module Config.

Record LoadThresholds := {
  WarnMultiple : f64; CriticalMultiple : f64; LoadSustain : Z; TrendMinutes : Z; TrendSlopeMultiple : f64 }.
Record MemoryConfig := { WarnSustain : Z; SwapGrowthMB : f64 }.
Record LimitsConfig := { WarnPct : f64; CriticalPct : f64 }.
Record DiskConfig := { WarnGB : f64; CriticalGB : f64 }.
Record KindsConfig := {
  CPUPct : f64; CPUSustain : Z; CountSustain : Z; Gradle : Z; Simulator : Z; QEMU : Z; Agents : Z }.
Record SpawnConfig := {
  SpawnInterval : Z; RateWarn : f64; RateCritical : f64; UIDWarnPct : f64; UIDCriticalPct : f64;
  TotalWarnPct : f64; TotalCriticalPct : f64 }.
Record SustainedConfig := {
  SCPUPct : f64; Window : Z; MinFraction : f64; Allowlist : list string; Interval : Z; MaxGap : Z }.
Record JVMHistoryConfig := { Enabled : bool; JInterval : Z; Timeout : Z }.
Record Config := {
  set_ : bool; Load : LoadThresholds; Memory : MemoryConfig; Limits : LimitsConfig; Disk : DiskConfig;
  ThermalSustain : Z; Kinds : KindsConfig; SpawnC : SpawnConfig; Sustained : SustainedConfig;
  JVMHistory : JVMHistoryConfig }.

Definition minJVMHistoryInterval : Z := Minute.
Definition maxJVMHistoryInterval : Z := Hour.
Definition minJVMHistoryTimeout : Z := Second.
Definition sustainedWindowIntervals : Z := 16.

Definition DefaultJVMHistoryConfig : JVMHistoryConfig :=
  {| Enabled := false; JInterval := 5 * Minute; Timeout := 30 * Second |}.
Definition DefaultSustainedConfig : SustainedConfig :=
  {| SCPUPct := of_Z 50; Window := 15 * Minute; MinFraction := lit 9 10; Allowlist := []; Interval := 0; MaxGap := 0 |}.
Definition DefaultConfig : Config :=
  {| set_ := true;
     Load := {| WarnMultiple := lit 15 10; CriticalMultiple := of_Z 3; LoadSustain := 2; TrendMinutes := 5;
                TrendSlopeMultiple := lit 5 10 |};
     Memory := {| WarnSustain := 2; SwapGrowthMB := of_Z 1024 |};
     Limits := {| WarnPct := of_Z 70; CriticalPct := of_Z 90 |};
     Disk := {| WarnGB := of_Z 20; CriticalGB := of_Z 5 |};
     ThermalSustain := 2;
     Kinds := {| CPUPct := of_Z 600; CPUSustain := 3; CountSustain := 2; Gradle := 3; Simulator := 3; QEMU := 2; Agents := 8 |};
     SpawnC := {| SpawnInterval := 5 * Second; RateWarn := of_Z 40; RateCritical := of_Z 120; UIDWarnPct := of_Z 40;
                  UIDCriticalPct := of_Z 70; TotalWarnPct := of_Z 50; TotalCriticalPct := of_Z 80 |};
     Sustained := DefaultSustainedConfig;
     JVMHistory := DefaultJVMHistoryConfig |}.

(** [(j *JVMHistoryConfig) validate]: the corrected value and the problems. *)
Definition validateJVM (j : JVMHistoryConfig) : JVMHistoryConfig * list string :=
  let d := DefaultJVMHistoryConfig in
  let '(j, p1) :=
    if (JInterval j <? minJVMHistoryInterval) || (maxJVMHistoryInterval <? JInterval j)
    then ({| Enabled := Enabled j; JInterval := JInterval d; Timeout := Timeout j |}, ["jvm_history.interval"])
    else (j, []) in
  let '(j, p2) :=
    if (Timeout j <? minJVMHistoryTimeout) || (JInterval j <? Timeout j)
    then ({| Enabled := Enabled j; JInterval := JInterval j; Timeout := Z.min (Timeout d) (JInterval j) |}, ["jvm_history.timeout"])
    else (j, []) in
  (j, p1 ++ p2).

(** [sustainedWindowIntervals * interval] in [int64] arithmetic. *)
Definition ValidateWatchInterval (s : SustainedConfig) (interval : Z) : SustainedConfig * bool :=
  let minWindow := i64 (sustainedWindowIntervals * interval) in
  if minWindow <=? Window s then (s, true)
  else ({| SCPUPct := SCPUPct s; Window := minWindow; MinFraction := MinFraction s; Allowlist := Allowlist s;
           Interval := Interval s; MaxGap := MaxGap s |}, false).

Definition validateSustained (s : SustainedConfig) : SustainedConfig * list string :=
  let d := DefaultSustainedConfig in
  let '(s, p1) :=
    if negb (fgt (SCPUPct s) f0)
    then ({| SCPUPct := SCPUPct d; Window := Window s; MinFraction := MinFraction s; Allowlist := Allowlist s;
             Interval := Interval s; MaxGap := MaxGap s |}, ["sustained.cpu_pct"]) else (s, []) in
  let '(s, p2) :=
    if Window s <? Minute
    then ({| SCPUPct := SCPUPct s; Window := Window d; MinFraction := MinFraction s; Allowlist := Allowlist s;
             Interval := Interval s; MaxGap := MaxGap s |}, ["sustained.window"]) else (s, []) in
  let '(s, p3) :=
    if negb (fgt (MinFraction s) (lit 5 10) && fle (MinFraction s) (of_Z 1))
    then ({| SCPUPct := SCPUPct s; Window := Window s; MinFraction := MinFraction d; Allowlist := Allowlist s;
             Interval := Interval s; MaxGap := MaxGap s |}, ["sustained.min_fraction"]) else (s, []) in
  (s, p1 ++ p2 ++ p3).

(** A field of the configuration by name, as the validator's tables of
    pointers name them. *)
Record field (A : Type) := Field { f_name : string; f_get : Config → A; f_set : A → Config → Config }.
Arguments Field {A} f_name f_get f_set.
Arguments f_name {A} f.
Arguments f_get {A} f c.
Arguments f_set {A} f v c.

Definition set_Load (l : LoadThresholds) (c : Config) : Config :=
  {| set_ := set_ c; Load := l; Memory := Memory c; Limits := Limits c; Disk := Disk c;
     ThermalSustain := ThermalSustain c; Kinds := Kinds c; SpawnC := SpawnC c; Sustained := Sustained c; JVMHistory := JVMHistory c |}.
Definition set_Memory (m : MemoryConfig) (c : Config) : Config :=
  {| set_ := set_ c; Load := Load c; Memory := m; Limits := Limits c; Disk := Disk c;
     ThermalSustain := ThermalSustain c; Kinds := Kinds c; SpawnC := SpawnC c; Sustained := Sustained c; JVMHistory := JVMHistory c |}.
Definition set_Limits (l : LimitsConfig) (c : Config) : Config :=
  {| set_ := set_ c; Load := Load c; Memory := Memory c; Limits := l; Disk := Disk c;
     ThermalSustain := ThermalSustain c; Kinds := Kinds c; SpawnC := SpawnC c; Sustained := Sustained c; JVMHistory := JVMHistory c |}.
Definition set_Disk (d : DiskConfig) (c : Config) : Config :=
  {| set_ := set_ c; Load := Load c; Memory := Memory c; Limits := Limits c; Disk := d;
     ThermalSustain := ThermalSustain c; Kinds := Kinds c; SpawnC := SpawnC c; Sustained := Sustained c; JVMHistory := JVMHistory c |}.
Definition set_Thermal (t : Z) (c : Config) : Config :=
  {| set_ := set_ c; Load := Load c; Memory := Memory c; Limits := Limits c; Disk := Disk c;
     ThermalSustain := t; Kinds := Kinds c; SpawnC := SpawnC c; Sustained := Sustained c; JVMHistory := JVMHistory c |}.
Definition set_Kinds (k : KindsConfig) (c : Config) : Config :=
  {| set_ := set_ c; Load := Load c; Memory := Memory c; Limits := Limits c; Disk := Disk c;
     ThermalSustain := ThermalSustain c; Kinds := k; SpawnC := SpawnC c; Sustained := Sustained c; JVMHistory := JVMHistory c |}.
Definition set_Spawn (s : SpawnConfig) (c : Config) : Config :=
  {| set_ := set_ c; Load := Load c; Memory := Memory c; Limits := Limits c; Disk := Disk c;
     ThermalSustain := ThermalSustain c; Kinds := Kinds c; SpawnC := s; Sustained := Sustained c; JVMHistory := JVMHistory c |}.
Definition set_Sustained (s : SustainedConfig) (c : Config) : Config :=
  {| set_ := set_ c; Load := Load c; Memory := Memory c; Limits := Limits c; Disk := Disk c;
     ThermalSustain := ThermalSustain c; Kinds := Kinds c; SpawnC := SpawnC c; Sustained := s; JVMHistory := JVMHistory c |}.
Definition set_JVM (j : JVMHistoryConfig) (c : Config) : Config :=
  {| set_ := set_ c; Load := Load c; Memory := Memory c; Limits := Limits c; Disk := Disk c;
     ThermalSustain := ThermalSustain c; Kinds := Kinds c; SpawnC := SpawnC c; Sustained := Sustained c; JVMHistory := j |}.

Definition float_fields : list (field f64) :=
  [ Field "load.warn_multiple" (WarnMultiple ∘ Load)
      (λ v c, set_Load (Build_LoadThresholds v (CriticalMultiple (Load c)) (LoadSustain (Load c)) (TrendMinutes (Load c)) (TrendSlopeMultiple (Load c))) c);
    Field "load.critical_multiple" (CriticalMultiple ∘ Load)
      (λ v c, set_Load (Build_LoadThresholds (WarnMultiple (Load c)) v (LoadSustain (Load c)) (TrendMinutes (Load c)) (TrendSlopeMultiple (Load c))) c);
    Field "load.trend_slope_multiple" (TrendSlopeMultiple ∘ Load)
      (λ v c, set_Load (Build_LoadThresholds (WarnMultiple (Load c)) (CriticalMultiple (Load c)) (LoadSustain (Load c)) (TrendMinutes (Load c)) v) c);
    Field "memory.swap_growth_mb" (SwapGrowthMB ∘ Memory)
      (λ v c, set_Memory (Build_MemoryConfig (WarnSustain (Memory c)) v) c);
    Field "limits.warn_pct" (WarnPct ∘ Limits) (λ v c, set_Limits (Build_LimitsConfig v (CriticalPct (Limits c))) c);
    Field "limits.critical_pct" (CriticalPct ∘ Limits) (λ v c, set_Limits (Build_LimitsConfig (WarnPct (Limits c)) v) c);
    Field "disk.warn_gb" (WarnGB ∘ Disk) (λ v c, set_Disk (Build_DiskConfig v (CriticalGB (Disk c))) c);
    Field "disk.critical_gb" (CriticalGB ∘ Disk) (λ v c, set_Disk (Build_DiskConfig (WarnGB (Disk c)) v) c);
    Field "kinds.cpu_pct" (CPUPct ∘ Kinds)
      (λ v c, let k := Kinds c in set_Kinds (Build_KindsConfig v (CPUSustain k) (CountSustain k) (Gradle k) (Simulator k) (QEMU k) (Agents k)) c);
    Field "spawn.rate_warn" (RateWarn ∘ SpawnC)
      (λ v c, let s := SpawnC c in set_Spawn (Build_SpawnConfig (SpawnInterval s) v (RateCritical s) (UIDWarnPct s) (UIDCriticalPct s) (TotalWarnPct s) (TotalCriticalPct s)) c);
    Field "spawn.rate_critical" (RateCritical ∘ SpawnC)
      (λ v c, let s := SpawnC c in set_Spawn (Build_SpawnConfig (SpawnInterval s) (RateWarn s) v (UIDWarnPct s) (UIDCriticalPct s) (TotalWarnPct s) (TotalCriticalPct s)) c);
    Field "spawn.uid_warn_pct" (UIDWarnPct ∘ SpawnC)
      (λ v c, let s := SpawnC c in set_Spawn (Build_SpawnConfig (SpawnInterval s) (RateWarn s) (RateCritical s) v (UIDCriticalPct s) (TotalWarnPct s) (TotalCriticalPct s)) c);
    Field "spawn.uid_critical_pct" (UIDCriticalPct ∘ SpawnC)
      (λ v c, let s := SpawnC c in set_Spawn (Build_SpawnConfig (SpawnInterval s) (RateWarn s) (RateCritical s) (UIDWarnPct s) v (TotalWarnPct s) (TotalCriticalPct s)) c);
    Field "spawn.total_warn_pct" (TotalWarnPct ∘ SpawnC)
      (λ v c, let s := SpawnC c in set_Spawn (Build_SpawnConfig (SpawnInterval s) (RateWarn s) (RateCritical s) (UIDWarnPct s) (UIDCriticalPct s) v (TotalCriticalPct s)) c);
    Field "spawn.total_critical_pct" (TotalCriticalPct ∘ SpawnC)
      (λ v c, let s := SpawnC c in set_Spawn (Build_SpawnConfig (SpawnInterval s) (RateWarn s) (RateCritical s) (UIDWarnPct s) (UIDCriticalPct s) (TotalWarnPct s) v) c) ].

Definition int_fields : list (field Z) :=
  [ Field "load.sustain" (LoadSustain ∘ Load)
      (λ v c, let l := Load c in set_Load (Build_LoadThresholds (WarnMultiple l) (CriticalMultiple l) v (TrendMinutes l) (TrendSlopeMultiple l)) c);
    Field "load.trend_minutes" (TrendMinutes ∘ Load)
      (λ v c, let l := Load c in set_Load (Build_LoadThresholds (WarnMultiple l) (CriticalMultiple l) (LoadSustain l) v (TrendSlopeMultiple l)) c);
    Field "memory.warn_sustain" (WarnSustain ∘ Memory) (λ v c, set_Memory (Build_MemoryConfig v (SwapGrowthMB (Memory c))) c);
    Field "thermal.sustain" ThermalSustain set_Thermal;
    Field "kinds.cpu_sustain" (CPUSustain ∘ Kinds)
      (λ v c, let k := Kinds c in set_Kinds (Build_KindsConfig (CPUPct k) v (CountSustain k) (Gradle k) (Simulator k) (QEMU k) (Agents k)) c);
    Field "kinds.count_sustain" (CountSustain ∘ Kinds)
      (λ v c, let k := Kinds c in set_Kinds (Build_KindsConfig (CPUPct k) (CPUSustain k) v (Gradle k) (Simulator k) (QEMU k) (Agents k)) c);
    Field "kinds.gradle" (Gradle ∘ Kinds)
      (λ v c, let k := Kinds c in set_Kinds (Build_KindsConfig (CPUPct k) (CPUSustain k) (CountSustain k) v (Simulator k) (QEMU k) (Agents k)) c);
    Field "kinds.simulator" (Simulator ∘ Kinds)
      (λ v c, let k := Kinds c in set_Kinds (Build_KindsConfig (CPUPct k) (CPUSustain k) (CountSustain k) (Gradle k) v (QEMU k) (Agents k)) c);
    Field "kinds.qemu" (QEMU ∘ Kinds)
      (λ v c, let k := Kinds c in set_Kinds (Build_KindsConfig (CPUPct k) (CPUSustain k) (CountSustain k) (Gradle k) (Simulator k) v (Agents k)) c);
    Field "kinds.agents" (Agents ∘ Kinds)
      (λ v c, let k := Kinds c in set_Kinds (Build_KindsConfig (CPUPct k) (CPUSustain k) (CountSustain k) (Gradle k) (Simulator k) (QEMU k) v) c) ].

(** The warning/critical pairs of the spawn thresholds. *)
Definition spawn_pairs : list (string * (Config → f64) * field f64) :=
  [ ("rate", RateWarn ∘ SpawnC,
     Field "rate" (RateCritical ∘ SpawnC)
       (λ v c, let s := SpawnC c in set_Spawn (Build_SpawnConfig (SpawnInterval s) (RateWarn s) v (UIDWarnPct s) (UIDCriticalPct s) (TotalWarnPct s) (TotalCriticalPct s)) c));
    ("uid_pct", UIDWarnPct ∘ SpawnC,
     Field "uid_pct" (UIDCriticalPct ∘ SpawnC)
       (λ v c, let s := SpawnC c in set_Spawn (Build_SpawnConfig (SpawnInterval s) (RateWarn s) (RateCritical s) (UIDWarnPct s) v (TotalWarnPct s) (TotalCriticalPct s)) c));
    ("total_pct", TotalWarnPct ∘ SpawnC,
     Field "total_pct" (TotalCriticalPct ∘ SpawnC)
       (λ v c, let s := SpawnC c in set_Spawn (Build_SpawnConfig (SpawnInterval s) (RateWarn s) (RateCritical s) (UIDWarnPct s) (UIDCriticalPct s) (TotalWarnPct s) v) c)) ].

(** One row of a table: a field that is not positive gets its default. *)
Definition fixField {A} (positive : A → bool) (st : Config * list string) (f : field A) : Config * list string :=
  let '(c, problems) := st in
  if negb (positive (f_get f c)) then (f_set f (f_get f DefaultConfig) c, problems ++ [f_name f]) else st.
Definition fixPair (st : Config * list string) (p : string * (Config → f64) * field f64) : Config * list string :=
  let '(c, problems) := st in
  let '(name, warn, critical) := p in
  if flt (f_get critical c) (warn c) then (f_set critical (warn c) c, problems ++ [name]) else st.

Definition validateConfig (c : Config) : Config * list string :=
  let st := fold_left (fixField (λ v, fgt v f0)) float_fields (c, []) in
  let '(c, problems) := fold_left (fixField (λ v, 0 <? v)) int_fields st in
  let '(c, problems) :=
    if SpawnInterval (SpawnC c) <? Second
    then (let s := SpawnC c in
          set_Spawn (Build_SpawnConfig (SpawnInterval (SpawnC DefaultConfig)) (RateWarn s) (RateCritical s) (UIDWarnPct s)
            (UIDCriticalPct s) (TotalWarnPct s) (TotalCriticalPct s)) c, problems ++ ["spawn.interval"])
    else (c, problems) in
  let '(s, ps) := validateSustained (Sustained c) in
  let '(j, pj) := validateJVM (JVMHistory c) in
  let c := set_JVM j (set_Sustained s c) in
  fold_left fixPair spawn_pairs (c, problems ++ ps ++ pj).

End Config.

Module ConfigFacts.
Import Config.

Record sustained_valid (s : SustainedConfig) : Prop := {
  sv_cpu : fgt (SCPUPct s) f0 = true;
  sv_window : Minute <= Window s;
  sv_fraction : fgt (MinFraction s) (lit 5 10) = true ∧ fle (MinFraction s) (of_Z 1) = true }.
Record jvm_valid (j : JVMHistoryConfig) : Prop := {
  jv_interval : minJVMHistoryInterval <= JInterval j <= maxJVMHistoryInterval;
  jv_timeout : minJVMHistoryTimeout <= Timeout j <= JInterval j }.

Definition positive_floats (c : Config) : Prop := Forall (λ f, fgt (f_get f c) f0 = true) float_fields.
Definition positive_ints (c : Config) : Prop := Forall (λ f, 0 < f_get f c) int_fields.
Definition ordered_pairs (c : Config) : Prop :=
  Forall (λ p : string * (Config → f64) * field f64, fle (p.1.2 c) (f_get p.2 c) = true) spawn_pairs.

(** What a configuration must satisfy. *)
Record valid (c : Config) : Prop := {
  v_floats : positive_floats c;
  v_ints : positive_ints c;
  v_interval : Second <= SpawnInterval (SpawnC c);
  v_sustained : sustained_valid (Sustained c);
  v_jvm : jvm_valid (JVMHistory c);
  v_pairs : ordered_pairs c }.

Ltac each := repeat (apply List.Forall_cons; [intros|]); try apply List.Forall_nil.

(** Writing one field sets it and leaves every other one. *)
Definition lawful {A} (fs : list (field A)) : Prop :=
  Forall (λ f, Forall (λ g, ∀ v c, f_get g (f_set f v c) = v ∨ f_get g (f_set f v c) = f_get g c) fs) fs ∧
  Forall (λ f, ∀ v c, f_get f (f_set f v c) = v) fs.
Lemma float_lawful : lawful float_fields.
Proof. split; each; solve [reflexivity|left; reflexivity|right; reflexivity]. Qed.
Lemma int_lawful : lawful int_fields.
Proof. split; each; solve [reflexivity|left; reflexivity|right; reflexivity]. Qed.
Lemma int_set_float :
  Forall (λ f, Forall (λ g, ∀ v c, f_get g (f_set f v c) = f_get g c) float_fields) int_fields.
Proof. each; reflexivity. Qed.
Lemma pair_set_float :
  Forall (λ p : string * (Config → f64) * field f64,
    Forall (λ g, ∀ v c, f_get g (f_set p.2 v c) = v ∨ f_get g (f_set p.2 v c) = f_get g c) float_fields) spawn_pairs.
Proof. each; solve [left; reflexivity|right; reflexivity]. Qed.

(** Configurations that agree on the fields of a table. *)
Lemma same_floats c c' : Forall (λ f, f_get f c' = f_get f c) float_fields → positive_floats c → positive_floats c'.
Proof. unfold positive_floats. rewrite !Forall_forall. intros Hs Hc f Hf. rewrite Hs by done. by apply Hc. Qed.
Lemma same_ints c c' : Forall (λ f, f_get f c' = f_get f c) int_fields → positive_ints c → positive_ints c'.
Proof. unfold positive_ints. rewrite !Forall_forall. intros Hs Hc f Hf. rewrite Hs by done. by apply Hc. Qed.

(** *** One table *)

Lemma fixField_eq {A} (pos : A → bool) c ps f :
  fixField pos (c, ps) f =
  if pos (f_get f c) then (c, ps) else (f_set f (f_get f DefaultConfig) c, ps ++ [f_name f]).
Proof. unfold fixField. by destruct (pos (f_get f c)). Qed.
Lemma fixField_noop {A} (pos : A → bool) fs c ps :
  Forall (λ f, pos (f_get f c) = true) fs → fold_left (fixField pos) fs (c, ps) = (c, ps).
Proof. induction 1 as [|f fs Hf Hfs IH]; [done|]. cbn [fold_left]. by rewrite fixField_eq, Hf. Qed.

Lemma fixField_problems {A} (pos : A → bool) fs c ps :
  let r := fold_left (fixField pos) fs (c, ps) in
  ∃ new, r.2 = ps ++ new ∧ (new = [] → r.1 = c ∧ Forall (λ f, pos (f_get f c) = true) fs).
Proof.
  revert c ps. induction fs as [|f fs IH]; intros c ps; cbn [fold_left].
  { exists []. by rewrite app_nil_r. }
  rewrite fixField_eq. destruct (pos (f_get f c)) eqn:E.
  - destruct (IH c ps) as (new & Hn & Hk). exists new. split; [done|]. intros Hnil. destruct (Hk Hnil). split; [done|]. by constructor.
  - destruct (IH (f_set f (f_get f DefaultConfig) c) (ps ++ [f_name f])) as (new & Hn & _).
    exists (f_name f :: new). split; [|done]. by rewrite Hn, <-app_assoc.
Qed.

Lemma fixField_positive {A} (pos : A → bool) fs c ps :
  lawful fs → Forall (λ f, pos (f_get f DefaultConfig) = true) fs →
  Forall (λ f, pos (f_get f (fold_left (fixField pos) fs (c, ps)).1) = true) fs.
Proof.
  intros [Hl Hs] Hd.
  assert (∀ gs c ps done_, Forall (λ f, f ∈ fs) gs → Forall (λ f, f ∈ fs) done_ →
    Forall (λ f, pos (f_get f c) = true) done_ →
    Forall (λ f, pos (f_get f (fold_left (fixField pos) gs (c, ps)).1) = true) (done_ ++ gs)) as Hgen.
  { clear c ps. induction gs as [|g gs IH]; intros c ps dn Hgs Hdn Hp; [by rewrite app_nil_r|].
    apply Forall_cons in Hgs as [Hg Hgs]. cbn [fold_left].
    replace (dn ++ g :: gs) with ((dn ++ [g]) ++ gs) by (by rewrite <-app_assoc).
    rewrite Forall_forall in Hl, Hs, Hd. rewrite fixField_eq. destruct (pos (f_get g c)) eqn:E.
    - apply IH; [done|by apply Forall_app; repeat constructor|]. apply Forall_app. by repeat constructor.
    - apply IH; [done|by apply Forall_app; repeat constructor|]. rewrite Forall_app, Forall_singleton. split.
      + rewrite Forall_forall in Hp, Hdn |- *. intros f Hf. specialize (Hl g Hg). rewrite Forall_forall in Hl.
        destruct (Hl f (Hdn f Hf) (f_get g DefaultConfig) c) as [-> | ->]; [by apply Hd|by apply Hp].
      + rewrite Hs by done. by apply Hd. }
  apply (Hgen fs c ps []); [|constructor..]. by apply Forall_forall.
Qed.

(** A property of the configuration that no row changes. *)
Lemma fixField_inv {A} (P : Config → Prop) (pos : A → bool) fs c ps :
  Forall (λ f, ∀ v c, P c → P (f_set f v c)) fs → P c → P (fold_left (fixField pos) fs (c, ps)).1.
Proof.
  intros Hf. revert c ps. induction Hf as [|f fs Hf Hfs IH]; intros c ps Hc; [done|]. cbn [fold_left].
  rewrite fixField_eq. destruct (pos (f_get f c)); apply IH; auto.
Qed.

(** *** Sub-structures *)

Definition fraction_ok (x : f64) : bool := fgt x (lit 5 10) && fle x (of_Z 1).
Lemma validateSustained_eq s :
  validateSustained s =
  ({| SCPUPct := if fgt (SCPUPct s) f0 then SCPUPct s else SCPUPct DefaultSustainedConfig;
      Window := if Window s <? Minute then Window DefaultSustainedConfig else Window s;
      MinFraction := if fraction_ok (MinFraction s) then MinFraction s else MinFraction DefaultSustainedConfig;
      Allowlist := Allowlist s; Interval := Interval s; MaxGap := MaxGap s |},
   (if fgt (SCPUPct s) f0 then [] else ["sustained.cpu_pct"]) ++
   (if Window s <? Minute then ["sustained.window"] else []) ++
   (if fraction_ok (MinFraction s) then [] else ["sustained.min_fraction"])).
Proof.
  destruct s as [cpu w fr al iv mg]. cbv [validateSustained fraction_ok].
  cbn [SCPUPct Window MinFraction Allowlist Interval MaxGap].
  destruct (fgt cpu f0); cbn [negb]; cbv beta iota zeta; cbn [SCPUPct Window MinFraction Allowlist Interval MaxGap];
    destruct (w <? Minute); cbv beta iota zeta; cbn [SCPUPct Window MinFraction Allowlist Interval MaxGap];
    destruct (fgt fr (lit 5 10) && fle fr (of_Z 1)); cbn [negb]; cbv beta iota zeta; reflexivity.
Qed.
Lemma validateSustained_ok s :
  sustained_valid (validateSustained s).1 ∧
  ((validateSustained s).2 = [] ↔ sustained_valid s) ∧ (sustained_valid s → (validateSustained s).1 = s).
Proof.
  rewrite validateSustained_eq. cbn [fst snd]. destruct s as [cpu w fr al iv mg].
  cbn [SCPUPct Window MinFraction Allowlist Interval MaxGap]. split_and!.
  - constructor; cbn [SCPUPct Window MinFraction].
    + destruct (fgt cpu f0) eqn:E; [done|reflexivity].
    + destruct (Z.ltb_spec w Minute); [vm_compute; congruence|done].
    + destruct (fraction_ok fr) eqn:E; [by apply andb_prop|by split; vm_compute].
  - split.
    + intros Hnil. destruct (fgt cpu f0) eqn:E1; [|done]. destruct (Z.ltb_spec w Minute); [done|].
      destruct (fraction_ok fr) eqn:E3; [|done]. constructor; cbn; [done..|by apply andb_prop].
    + intros [H1 H2 [H3 H4]]. cbn [SCPUPct Window MinFraction] in *. unfold fraction_ok.
      by rewrite H1, (proj2 (Z.ltb_ge _ _)), H3, H4.
  - intros [H1 H2 [H3 H4]]. cbn [SCPUPct Window MinFraction] in *. unfold fraction_ok.
    by rewrite H1, (proj2 (Z.ltb_ge _ _)), H3, H4.
Qed.
Lemma validateJVM_ok j :
  jvm_valid (validateJVM j).1 ∧ ((validateJVM j).2 = [] ↔ jvm_valid j) ∧ (jvm_valid j → (validateJVM j).1 = j).
Proof.
  destruct j as [en iv to]. unfold validateJVM. cbn [JInterval Timeout Enabled DefaultJVMHistoryConfig].
  destruct ((iv <? minJVMHistoryInterval) || (maxJVMHistoryInterval <? iv)) eqn:E1;
    cbv beta iota zeta; cbn [JInterval Timeout Enabled].
  - assert (¬ jvm_valid {| Enabled := en; JInterval := iv; Timeout := to |}) as Hno.
    { intros [H1 _]. cbn in H1. to_prop. destruct E1; to_prop; lia. }
    destruct ((to <? minJVMHistoryTimeout) || (5 * Minute <? to)) eqn:E2; cbv beta iota zeta; cbn [fst snd];
      (split; [constructor; cbn [JInterval Timeout]; to_prop|naive_solver]);
      unfold minJVMHistoryTimeout, minJVMHistoryInterval, maxJVMHistoryInterval, Hour, Minute, Second in *; lia.
  - to_prop. destruct ((to <? minJVMHistoryTimeout) || (iv <? to)) eqn:E2; cbv beta iota zeta; cbn [fst snd].
    + assert (¬ jvm_valid {| Enabled := en; JInterval := iv; Timeout := to |}) as Hno.
      { intros [_ H2]. cbn in H2. to_prop. destruct E2; to_prop; lia. }
      split; [|naive_solver]. constructor; cbn [JInterval Timeout]; [lia|].
      unfold minJVMHistoryTimeout, minJVMHistoryInterval, Minute, Second in *. lia.
    + to_prop. assert (jvm_valid {| Enabled := en; JInterval := iv; Timeout := to |}) by (constructor; cbn; lia). naive_solver.
Qed.

(** *** Pairs *)

Lemma fixPair_eq c ps name warn critical :
  fixPair (c, ps) (name, warn, critical) =
  if flt (f_get critical c) (warn c) then (f_set critical (warn c) c, ps ++ [name]) else (c, ps).
Proof. done. Qed.
Lemma fixPair_inv (P : Config → Prop) c ps :
  P c → (∀ p c, p ∈ spawn_pairs → P c → P (f_set p.2 (p.1.2 c) c)) → P (fold_left fixPair spawn_pairs (c, ps)).1.
Proof.
  intros Hc Hp. assert (∀ l c ps, (∀ p, p ∈ l → p ∈ spawn_pairs) → P c → P (fold_left fixPair l (c, ps)).1) as Hgen.
  { clear c ps Hc. induction l as [|[[name warn] critical] l IH]; intros c ps Hl Hc; [done|]. cbn [fold_left].
    rewrite fixPair_eq. destruct (flt _ _); apply IH; try (intros; apply Hl; by apply elem_of_cons; right); [|done].
    apply (Hp (name, warn, critical)); [|done]. apply Hl. by apply elem_of_cons; left. }
  by apply Hgen.
Qed.
Lemma fixPair_floats c ps : positive_floats c → positive_floats (fold_left fixPair spawn_pairs (c, ps)).1.
Proof.
  intros Hc. apply fixPair_inv; [done|]. clear c ps Hc. intros p c Hp Hc.
  pose proof pair_set_float as Hpf. rewrite Forall_forall in Hpf. specialize (Hpf p Hp). unfold positive_floats in *.
  assert (fgt (p.1.2 c) f0 = true) as Hw.
  { rewrite Forall_lookup in Hc. unfold spawn_pairs in Hp. rewrite !elem_of_cons, elem_of_nil in Hp.
    destruct Hp as [-> | [-> | [-> | []]]];
      [exact (Hc 9%nat _ eq_refl)|exact (Hc 11%nat _ eq_refl)|exact (Hc 13%nat _ eq_refl)]. }
  rewrite Forall_forall in Hpf, Hc |- *. intros g Hg. destruct (Hpf g Hg (p.1.2 c) c) as [-> | ->]; [done|by apply Hc].
Qed.

Definition pairs_ordered (c : Config) : Prop :=
  flt (RateCritical (SpawnC c)) (RateWarn (SpawnC c)) = false ∧
  flt (UIDCriticalPct (SpawnC c)) (UIDWarnPct (SpawnC c)) = false ∧
  flt (TotalCriticalPct (SpawnC c)) (TotalWarnPct (SpawnC c)) = false.
Lemma flt_irrefl x : flt x x = false.
Proof. destruct (flt x x) eqn:E; [|done]. apply flt_spec in E as [??]. congruence. Qed.
Lemma fixPair_result c ps :
  let r := fold_left fixPair spawn_pairs (c, ps) in
  pairs_ordered r.1 ∧ ∃ new, r.2 = ps ++ new ∧ (new = [] ↔ pairs_ordered c) ∧ (pairs_ordered c → r.1 = c).
Proof.
  unfold spawn_pairs. cbn [fold_left]. rewrite fixPair_eq. cbn [f_get f_set compose].
  unfold pairs_ordered. set (s := SpawnC c).
  destruct (flt (RateCritical s) (RateWarn s)) eqn:E1; rewrite fixPair_eq; cbn [f_get f_set]; cbn;
    fold s; destruct (flt (UIDCriticalPct s) (UIDWarnPct s)) eqn:E2; rewrite fixPair_eq; cbn [f_get f_set]; cbn;
    fold s; destruct (flt (TotalCriticalPct s) (TotalWarnPct s)) eqn:E3; cbn; fold s;
    rewrite ?flt_irrefl, ?E1, ?E2, ?E3; (split; [done|]); rewrite <-?app_assoc;
    (eexists; split; [try reflexivity; by rewrite app_nil_r|]); naive_solver.
Qed.

(** *** The whole validator *)

Lemma default_floats : positive_floats DefaultConfig.
Proof. each; reflexivity. Qed.
Lemma default_ints : Forall (λ f, (0 <? f_get f DefaultConfig) = true) int_fields.
Proof. each; reflexivity. Qed.
Lemma positive_ints_bool c : positive_ints c ↔ Forall (λ f, (0 <? f_get f c) = true) int_fields.
Proof. unfold positive_ints. by setoid_rewrite Z.ltb_lt. Qed.

Lemma pairs_fle c : positive_floats c → (pairs_ordered c ↔ ordered_pairs c).
Proof.
  intros Hf. assert (∀ i x, float_fields !! i = Some x → is_nan (f_get x c) = false) as Hn.
  { intros i x Hx. unfold positive_floats in Hf. rewrite Forall_lookup in Hf. specialize (Hf i x Hx). unfold fgt in Hf.
    by apply flt_le, fle_not_nan in Hf as [_ ?]. }
  assert (∀ i j x y, float_fields !! i = Some x → float_fields !! j = Some y →
    (flt (f_get y c) (f_get x c) = false ↔ fle (f_get x c) (f_get y c) = true)) as Hxy.
  { intros i j x y Hx Hy. split; [by apply flt_false; eapply Hn|]. intros Hle.
    destruct (flt (f_get y c) (f_get x c)) eqn:E; [|done]. apply flt_spec in E as [_ E]. congruence. }
  unfold pairs_ordered, ordered_pairs, spawn_pairs. rewrite !Forall_cons.
  pose proof (Hxy 9%nat 10%nat _ _ eq_refl eq_refl) as H1. pose proof (Hxy 11%nat 12%nat _ _ eq_refl eq_refl) as H2.
  pose proof (Hxy 13%nat 14%nat _ _ eq_refl eq_refl) as H3. cbn [f_get fst snd compose] in *.
  rewrite <-H1, <-H2, <-H3. split; [intros (?&?&?); by repeat split|intros (?&?&?&_); done].
Qed.

Lemma pair_cases (P : Config → Prop) c ps :
  P c → (∀ c s, P c → SpawnInterval s = SpawnInterval (SpawnC c) → P (set_Spawn s c)) →
  P (fold_left fixPair spawn_pairs (c, ps)).1.
Proof.
  intros Hc Hs. apply fixPair_inv; [done|]. clear c ps Hc. intros p c Hp Hc. unfold spawn_pairs in Hp.
  rewrite !elem_of_cons, elem_of_nil in Hp. destruct Hp as [-> | [-> | [-> | []]]]; by apply Hs.
Qed.

(** The configuration and the problems after the two tables. *)
Definition tables (c : Config) : Config * list string :=
  fold_left (fixField (λ v, 0 <? v)) int_fields (fold_left (fixField (λ v, fgt v f0)) float_fields (c, [])).
Lemma tables_ok c :
  positive_floats (tables c).1 ∧ positive_ints (tables c).1 ∧
  ((tables c).2 = [] ↔ positive_floats c ∧ positive_ints c) ∧
  (positive_floats c ∧ positive_ints c → (tables c).1 = c).
Proof.
  unfold tables. destruct (fold_left (fixField (λ v, fgt v f0)) float_fields (c, [])) as [c1 p1] eqn:E1.
  pose proof (fixField_positive (λ v, fgt v f0) float_fields c [] float_lawful default_floats) as F1.
  destruct (fixField_problems (λ v, fgt v f0) float_fields c []) as (new1 & N1 & K1).
  rewrite E1 in F1, N1, K1. cbn [fst snd] in *.
  destruct (fixField_problems (λ v, 0 <? v) int_fields c1 p1) as (new2 & N2 & K2).
  split_and!.
  - apply fixField_inv; [|done]. pose proof int_set_float as Hi. rewrite Forall_forall in Hi |- *.
    intros f Hf v c' Hc'. unfold positive_floats in *. specialize (Hi f Hf). rewrite Forall_forall in Hi, Hc' |- *.
    intros g Hg. rewrite Hi by done. by apply Hc'.
  - apply positive_ints_bool. by apply fixField_positive; [apply int_lawful|apply default_ints].
  - rewrite N2, N1. split.
    + intros [[_ Hn1]%app_eq_nil Hn2]%app_eq_nil. destruct (K1 Hn1) as [-> ?]. destruct (K2 Hn2) as [_ ?].
      split; [done|by apply positive_ints_bool].
    + intros [Hf Hi%positive_ints_bool]. rewrite (fixField_noop _ _ _ _ Hf) in E1. injection E1 as <- <-.
      rewrite (fixField_noop _ _ _ _ Hi) in N2. cbn [snd] in N2. by rewrite <-N1, <-N2.
  - intros [Hf Hi%positive_ints_bool]. rewrite (fixField_noop _ _ _ _ Hf) in E1. injection E1 as <- <-.
    by rewrite (fixField_noop _ _ _ _ Hi).
Qed.

Definition fix_interval (st : Config * list string) : Config * list string :=
  let '(c, problems) := st in
  if SpawnInterval (SpawnC c) <? Second
  then (let s := SpawnC c in
        set_Spawn (Build_SpawnConfig (SpawnInterval (SpawnC DefaultConfig)) (RateWarn s) (RateCritical s) (UIDWarnPct s)
          (UIDCriticalPct s) (TotalWarnPct s) (TotalCriticalPct s)) c, problems ++ ["spawn.interval"])
  else st.
Lemma fix_interval_ok c ps :
  let r := fix_interval (c, ps) in
  (positive_floats c → positive_floats r.1) ∧ (positive_ints c → positive_ints r.1) ∧
  Second <= SpawnInterval (SpawnC r.1) ∧ Sustained r.1 = Sustained c ∧ JVMHistory r.1 = JVMHistory c ∧
  (r.2 = [] ↔ ps = [] ∧ Second <= SpawnInterval (SpawnC c)) ∧ (Second <= SpawnInterval (SpawnC c) → r.1 = c).
Proof.
  unfold fix_interval. cbv zeta. destruct (Z.ltb_spec (SpawnInterval (SpawnC c)) Second); cbn [fst snd].
  - split_and!; [apply same_floats; each; reflexivity|apply same_ints; each; reflexivity|vm_compute; congruence|done|done| |lia].
    split; [by intros [? ?]%app_eq_nil|lia].
  - split_and!; try done. naive_solver.
Qed.

Lemma validateConfig_unfold c :
  validateConfig c =
  let '(c, problems) := fix_interval (tables c) in
  fold_left fixPair spawn_pairs
    (set_JVM (validateJVM (JVMHistory c)).1 (set_Sustained (validateSustained (Sustained c)).1 c),
     problems ++ (validateSustained (Sustained c)).2 ++ (validateJVM (JVMHistory c)).2).
Proof.
  unfold validateConfig, fix_interval, tables. destruct (fold_left _ int_fields _) as [c1 p1].
  destruct (SpawnInterval (SpawnC c1) <? Second);
    destruct (validateSustained _), (validateJVM _); reflexivity.
Qed.

Lemma validateConfig_ok c :
  valid (validateConfig c).1 ∧ ((validateConfig c).2 = [] ↔ valid c) ∧ (valid c → (validateConfig c).1 = c).
Proof.
  rewrite validateConfig_unfold. destruct (tables_ok c) as (T1 & T2 & T3 & T4). destruct (tables c) as [c1 p1].
  cbn [fst snd] in *. destruct (fix_interval_ok c1 p1) as (I1 & I2 & I3 & I4 & I5 & I6 & I7).
  destruct (fix_interval (c1, p1)) as [c2 p2]. cbn [fst snd] in *.
  destruct (validateSustained_ok (Sustained c2)) as (S1 & S2 & S3).
  destruct (validateJVM_ok (JVMHistory c2)) as (J1 & J2 & J3).
  set (c3 := set_JVM _ _). set (p3 := p2 ++ _).
  assert (positive_floats c3) as F3 by (apply (same_floats c2); [each; reflexivity|auto]).
  assert (positive_ints c3) as N3 by (apply (same_ints c2); [each; reflexivity|auto]).
  destruct (fixPair_result c3 p3) as (P1 & new & P2 & P3 & P4).
  pose proof (fixPair_floats c3 p3 F3) as F4.
  assert (positive_floats c ∧ positive_ints c ∧ Second <= SpawnInterval (SpawnC c) ∧ sustained_valid (Sustained c) ∧
    jvm_valid (JVMHistory c) → c3 = c) as Hsame.
  { intros (?&?&?&?&?). assert (c1 = c) as -> by auto. assert (c2 = c) as -> by auto. subst c3.
    rewrite S3, J3 by done. by destruct c. }
  assert (p3 = [] ↔ positive_floats c ∧ positive_ints c ∧ Second <= SpawnInterval (SpawnC c) ∧ sustained_valid (Sustained c) ∧
    jvm_valid (JVMHistory c)) as Hp3.
  { subst p3. split.
    - intros [[Hp1 Hi]%I6 [Hs Hj]%app_eq_nil]%app_eq_nil. apply T3 in Hp1 as [? ?].
      assert (c1 = c) as -> by auto. assert (c2 = c) as -> by auto. naive_solver.
    - intros (?&?&?&?&?). assert (c1 = c) as -> by auto. assert (c2 = c) as -> by auto.
      rewrite (proj2 I6), (proj2 S2), (proj2 J2); try done. naive_solver. }
  split_and!.
  - constructor; [done|apply (pair_cases positive_ints); [done|intros; apply (same_ints c0); [each; reflexivity|done]]|..].
    + by apply (pair_cases (λ c, Second <= SpawnInterval (SpawnC c))); [|intros ? s ? Hs; cbn; rewrite Hs].
    + by apply (pair_cases (λ c, sustained_valid (Sustained c))).
    + by apply (pair_cases (λ c, jvm_valid (JVMHistory c))).
    + by apply pairs_fle.
  - rewrite P2. split.
    + intros [Hp Hn]%app_eq_nil. apply Hp3 in Hp as (?&?&?&?&?). apply P3 in Hn.
      rewrite Hsame in Hn by done. constructor; try done. by apply pairs_fle.
    + intros []. rewrite (proj2 Hp3), (proj2 P3); [done|rewrite Hsame by done; by apply pairs_fle|done].
  - intros []. rewrite P4; [by apply Hsame|]. rewrite Hsame by done. by apply pairs_fle.
Qed.
End ConfigFacts.

(** ** Host conditions *)

Module Evaluate.
Import Config.

Record LimitUsage := { Current : Z; Limit : Z; Pct : f64 }.
Record KindStat := { Count : Z; KCPUPct : f64; RSSMB : f64 }.
Record ProcStat := { PPid : Z; PName : string; PCPUPct : f64; PRSSMB : f64 }.
Record Sample := {
  At : time; NCPU : Z; Load1 : f64; Load5 : f64; Load15 : f64; MemoryPressure : string; SwapUsedMB : f64;
  MemFreePct : f64; SLimits : gmap string LimitUsage; DataFreeGB : f64; ThermalThrottled : bool;
  SKinds : gmap string KindStat; TopCPU : list ProcStat; SelfCPUPct : f64; SSpawn : option SpawnState }.

Definition zero_kind : KindStat := {| Count := 0; KCPUPct := f0; RSSMB := f0 |}.
(** [s.Kinds[kind]]: the zero value when the key is absent. *)
Definition kindOf (s : Sample) (kind : string) : KindStat := default zero_kind (SKinds s !! kind).

Definition sustained (w : list Sample) (n : Z) (ok : Sample → bool) : bool :=
  let n := if n <? 1 then 1 else n in
  if len w <? n then false else forallb ok (drop (Z.to_nat (len w - n)) w).

(** The accumulators of the regression: n, sx, sy, sxx, sxy. *)
Definition slopeStep (end_ : time) (d : Z) (acc : f64 * f64 * f64 * f64 * f64) (v : Sample)
  : f64 * f64 * f64 * f64 * f64 :=
  let '(n, sx, sy, sxx, sxy) := acc in
  if d <? Sub end_ (At v) then acc else
  let x := Minutes (Sub (At v) end_) in
  (fadd n (of_Z 1), fadd sx x, fadd sy (Load1 v), fadd sxx (fmul x x), fadd sxy (fmul x (Load1 v))).
Definition slope (w : list Sample) (d : Z) : f64 :=
  match last w with
  | None => f0
  | Some e =>
    if len w <? 2 then f0 else
    let '(n, sx, sy, sxx, sxy) := fold_left (slopeStep (At e) d) w (f0, f0, f0, f0, f0) in
    let den := fsub (fmul n sxx) (fmul sx sx) in
    if flt n (of_Z 2) || flt (fabs den) (lit 1 (10 ^ 9)) then f0
    else fdiv (fsub (fmul n sxy) (fmul sx sy)) den
  end.

Definition cond (k sev title detail : string) : Condition :=
  {| CKey := k; CSeverity := sev; CTitle := title; CDetail := detail |}.

Definition evalLoad (c : Config) (w : list Sample) (s : Sample) : list Condition :=
  if NCPU s <=? 0 then [] else
  let n := of_Z (NCPU s) in
  let detail := "1-minute load " +:+ fmt_f 1 (Load1 s) +:+ " across " +:+ itoa (NCPU s) +:+ " CPUs" in
  (if sustained w (LoadSustain (Load c)) (λ x, fgt (Load1 x) (fmul (CriticalMultiple (Load c)) n))
   then [cond "load.high" "critical" "Host load is critical" detail]
   else if sustained w (LoadSustain (Load c)) (λ x, fgt (Load1 x) (fmul (WarnMultiple (Load c)) n))
   then [cond "load.high" "warn" "Host load is high" detail] else []) ++
  (if fgt (Load1 s) n && fgt (slope w (i64 (TrendMinutes (Load c) * Minute))) (fmul (TrendSlopeMultiple (Load c)) n)
   then [cond "load.climbing" "warn" "Load climbing" ("1-minute load " +:+ fmt_f 1 (Load1 s) +:+ " is rising")] else []).

(** The loop over the earlier samples, the latest first. *)
Fixpoint swapLoop (c : Config) (s : Sample) (earlier : list Sample) : list Condition :=
  match earlier with
  | [] => []
  | x :: earlier =>
    if 5 * Minute <? Sub (At s) (At x) then [] else
    let grown := fsub (SwapUsedMB s) (SwapUsedMB x) in
    if fgt grown (SwapGrowthMB (Memory c))
    then [cond "memory.swap_growth" "warn" "Swap growing quickly" ("swap grew " +:+ fmt_f 0 grown +:+ " MB")]
    else swapLoop c s earlier
  end.
Definition evalMemory (c : Config) (w : list Sample) (s : Sample) : list Condition :=
  let detail := "swap " +:+ fmt_f 0 (SwapUsedMB s) +:+ " MB" in
  (if decide (MemoryPressure s = "critical")
   then [cond "memory.pressure" "critical" "Memory pressure is critical" detail]
   else if sustained w (WarnSustain (Memory c)) (λ x, bool_decide (MemoryPressure x = "warn"))
   then [cond "memory.pressure" "warn" "Memory pressure is elevated" detail] else []) ++
  swapLoop c s (tail (reverse w)).

Definition limitCondition (c : Config) (e : string * LimitUsage) : option Condition :=
  let '(key, v) := e in
  if bool_decide (key = "procs") || bool_decide (key = "procs_per_uid") then None else
  if Limit v <=? 0 then None else
  let detail := key +:+ ": " +:+ fmt_f 0 (Pct v) +:+ "%" in
  if fgt (Pct v) (CriticalPct (Limits c))
  then Some (cond ("limit:" +:+ key) "critical" "Resource limit near exhaustion" detail)
  else if fgt (Pct v) (WarnPct (Limits c))
  then Some (cond ("limit:" +:+ key) "warn" "Resource limit elevated" detail) else None.

Definition evalDiskThermal (c : Config) (w : list Sample) (s : Sample) : list Condition :=
  let detail := fmt_f 1 (DataFreeGB s) +:+ " GB free" in
  (if fge (DataFreeGB s) f0 && flt (DataFreeGB s) (CriticalGB (Disk c))
   then [cond "disk.free" "critical" "Data disk nearly full" detail]
   else if fge (DataFreeGB s) f0 && flt (DataFreeGB s) (WarnGB (Disk c))
   then [cond "disk.free" "warn" "Data disk low" detail] else []) ++
  (if sustained w (ThermalSustain c) ThermalThrottled
   then [cond "thermal.throttled" "warn" "CPU thermally throttled" "thermal speed limit active"] else []).

Definition kindCount (s : Sample) (kind : string) : Z :=
  if decide (kind = "agents") then Count (kindOf s "codex") + Count (kindOf s "claude") else Count (kindOf s kind).

Definition kindCondition (c : Config) (w : list Sample) (e : string * KindStat) : option Condition :=
  let '(kind, stat) := e in
  if negb (bool_decide (kind = "other")) && fge (KCPUPct stat) (CPUPct (Kinds c)) &&
     sustained w (CPUSustain (Kinds c)) (λ x, fge (KCPUPct (kindOf x kind)) (CPUPct (Kinds c)))
  then Some (cond ("kind.cpu:" +:+ kind) "warn" (kind +:+ " CPU high") (fmt_f 0 (KCPUPct stat) +:+ "% CPU"))
  else None.
Definition countRows (c : Config) (s : Sample) : list (string * Z * Z) :=
  [("gradle", Count (kindOf s "gradle"), Gradle (Kinds c));
   ("simulator", Count (kindOf s "simulator"), Simulator (Kinds c));
   ("qemu", Count (kindOf s "qemu"), QEMU (Kinds c));
   ("agents", Count (kindOf s "codex") + Count (kindOf s "claude"), Agents (Kinds c))].
Definition countCondition (c : Config) (w : list Sample) (row : string * Z * Z) : option Condition :=
  let '(key, count, threshold) := row in
  if (threshold <=? count) && sustained w (CountSustain (Kinds c)) (λ x, threshold <=? kindCount x key)
  then Some (cond ("kind.count:" +:+ key) "warn" (key +:+ " process count high") (itoa count +:+ " processes"))
  else None.

Section Ops.
Context {R : GoRuntime}.

Definition evalLimits (c : Config) (s : Sample) : list Condition :=
  omap (limitCondition c) (map_entries (SLimits s)).
Definition evalKinds (c : Config) (w : list Sample) (s : Sample) : list Condition :=
  omap (kindCondition c w) (map_entries (SKinds s)) ++ omap (countCondition c w) (countRows c s).

Definition Evaluate (cfg : Config) (window : list Sample) : list Condition :=
  match last window with
  | None => []
  | Some s =>
    sort_slice (λ a b, String.ltb (CKey a) (CKey b))
      (evalLoad cfg window s ++ evalMemory cfg window s ++ evalLimits cfg s ++
       evalDiskThermal cfg window s ++ evalKinds cfg window s)
  end.
End Ops.
End Evaluate.

(** ** Process kinds *)

Module Classify.

Definition directKinds : list (string * string) :=
  [("java", "java"); ("xcodebuild", "xcodebuild"); ("swift-frontend", "swift-frontend"); ("clang", "clang"); ("clang++", "clang");
   ("go", "go"); ("compile", "go"); ("link", "go"); ("gopls", "go"); ("node", "node"); ("bun", "bun"); ("codex", "codex"); ("claude", "claude");
   ("emulator", "qemu"); ("launchd_sim", "simulator"); ("bsdtar", "bsdtar"); ("git", "git"); ("mds_stores", "spotlight"); ("gradle", "gradle")].
Fixpoint assoc (l : list (string * string)) (k : string) : option string :=
  match l with [] => None | (k', v) :: l => if decide (k' = k) then Some v else assoc l k end.

Definition Classify `{Unicode} (comm args : string) : string :=
  if decide (comm = "") then "other" else
  let name := ToLower (Base comm) in
  let s := ToLower args in
  if bool_decide (name = "java") &&
     (Contains s "kotlin-daemon" || Contains s "kotlincompilerdaemon" || Contains s "kotlincompiledaemon")
  then "kotlin-daemon"
  else if bool_decide (name = "java") &&
     (Contains s "gradledaemon" || Contains s "gradlewrappermain" || Contains s "gradle-launcher")
  then "gradle"
  else match assoc directKinds name with
       | Some kind => kind
       | None => if HasPrefix name "qemu-system" then "qemu"
                 else if HasPrefix name "mdworker" then "spotlight" else "other"
       end.

Example Classify_examples :
  [@Classify ascii_only "/usr/bin/Java" "-cp gradle-launcher.jar"; @Classify ascii_only "qemu-system-x86_64" "";
   @Classify ascii_only "/opt/node/" ""; @Classify ascii_only "zsh" ""; @Classify ascii_only "/" ""] =
  ["gradle"; "qemu"; "node"; "other"; "other"].
Proof. reflexivity. Qed.

End Classify.

Module EvaluateFacts.
Import Config Evaluate.

(** The last [n] samples of a window (one, if [n] is not positive). *)
Definition latest (n : Z) (w : list Sample) : list Sample := drop (Z.to_nat (len w - Z.max 1 n)) w.
(** [P] held in each of the last [n] samples, and there are that many. *)
Definition held (n : Z) (w : list Sample) (P : Sample → Prop) : Prop :=
  Z.max 1 n <= len w ∧ Forall P (latest n w).

Lemma sustained_held w n ok : sustained w n ok = true ↔ held n w (λ x, ok x = true).
Proof.
  unfold sustained, held, latest. replace (if n <? 1 then 1 else n) with (Z.max 1 n) by (destruct (Z.ltb_spec n 1); lia).
  destruct (Z.ltb_spec (len w) (Z.max 1 n)).
  - split; [done|lia].
  - rewrite forallb_forall. rewrite Forall_forall. setoid_rewrite <-list_elem_of_In. naive_solver.
Qed.

(** Which part of the evaluation a key comes from. *)
Definition bucket (k : string) : nat :=
  if HasPrefix k "load." then 1 else if HasPrefix k "memory." then 2 else if HasPrefix k "limit:" then 3
  else if HasPrefix k "disk." || HasPrefix k "thermal." then 4
  else if HasPrefix k "kind.cpu:" then 5 else if HasPrefix k "kind.count:" then 6 else 0.
(** A list of conditions of one part: distinct keys of the slow scope, and a
    known severity. *)
Definition part (i : nat) (l : list Condition) : Prop :=
  NoDup (CKey <$> l) ∧
  Forall (λ c, bucket (CKey c) = i ∧ EngineFacts.scope_of (CKey c) = Slow ∧
               (CSeverity c = "warn" ∨ CSeverity c = "critical")) l.

Lemma part_nil i : part i [].
Proof. split; constructor. Qed.
Lemma part_one i c :
  bucket (CKey c) = i → EngineFacts.scope_of (CKey c) = Slow → (CSeverity c = "warn" ∨ CSeverity c = "critical") → part i [c].
Proof. split; [apply NoDup_singleton|by apply Forall_singleton]. Qed.
(** Two parts of the same kind with different keys, or of different kinds. *)
Lemma part_app i l1 l2 :
  part i l1 → part i l2 → (∀ c1 c2, c1 ∈ l1 → c2 ∈ l2 → CKey c1 ≠ CKey c2) → part i (l1 ++ l2).
Proof.
  intros [N1 F1] [N2 F2] Hd. split; [|by apply Forall_app]. rewrite fmap_app. apply NoDup_app. split_and!; [done| |done].
  intros k (c1 & -> & ?)%list_elem_of_fmap (c2 & Hk & ?)%list_elem_of_fmap. by apply (Hd c1 c2).
Qed.
Lemma part_omap {A} i pre (f : A → option Condition) (g : A → string) (l : list A) :
  NoDup (g <$> l) → (∀ k, bucket (pre +:+ k) = i ∧ EngineFacts.scope_of (pre +:+ k) = Slow) →
  (∀ x c, f x = Some c → CKey c = pre +:+ g x ∧ (CSeverity c = "warn" ∨ CSeverity c = "critical")) →
  part i (omap f l).
Proof.
  intros Hn Hpre Hf. split.
  - apply (NoDup_omap_key f (λ x, pre +:+ g x)); [|intros; by apply Hf].
    rewrite (list_fmap_compose g (String.app pre)). by apply NoDup_fmap_2; [apply _|].
  - apply Forall_forall. intros c (x & _ & Hfx)%list_elem_of_omap. destruct (Hf x c Hfx) as [-> ?].
    by destruct (Hpre (g x)).
Qed.

Lemma evalLoad_part c w s : part 1 (evalLoad c w s).
Proof.
  unfold evalLoad. destruct (_ <=? _); [apply part_nil|]. cbv zeta. apply part_app.
  - repeat case_match; first [apply part_nil|apply part_one; [reflexivity|reflexivity|simpl; auto]].
  - repeat case_match; first [apply part_nil|apply part_one; [reflexivity|reflexivity|simpl; auto]].
  - intros c1 c2. repeat case_match; rewrite ?list_elem_of_singleton, ?elem_of_nil; intros; subst; simpl; congruence.
Qed.
Lemma HasPrefix_self p k : HasPrefix (p +:+ k) p = true.
Proof. apply HasPrefix_app. unfold HasPrefix. induction p as [|c p IH]; [done|]. simpl. by destruct (ascii_dec c c). Qed.
Lemma bucket_limit k : bucket ("limit:" +:+ k) = 3%nat.
Proof. unfold bucket. rewrite HasPrefix_self. reflexivity. Qed.
Lemma bucket_cpu k : bucket ("kind.cpu:" +:+ k) = 5%nat.
Proof. unfold bucket. rewrite HasPrefix_self. reflexivity. Qed.
Lemma bucket_count k : bucket ("kind.count:" +:+ k) = 6%nat.
Proof. unfold bucket. rewrite HasPrefix_self. reflexivity. Qed.
Ltac in_bucket := intros; split; [first [apply bucket_limit|apply bucket_cpu|apply bucket_count]|reflexivity].
Ltac one_part := repeat case_match; first [apply part_nil|apply part_one; [reflexivity|reflexivity|simpl; auto]].
Ltac other_key := intros c1 c2; repeat case_match; rewrite ?list_elem_of_singleton, ?elem_of_nil; intros; subst; simpl; congruence.
Lemma swapLoop_cases c s l :
  swapLoop c s l = [] ∨ ∃ d, swapLoop c s l = [cond "memory.swap_growth" "warn" "Swap growing quickly" d].
Proof. induction l as [|x l IH]; simpl; [by left|]. repeat case_match; [by left|right; by eexists|done]. Qed.
Lemma evalMemory_part c w s : part 2 (evalMemory c w s).
Proof.
  unfold evalMemory. cbv zeta. destruct (swapLoop_cases c s (tail (reverse w))) as [-> |[d ->]];
    (apply part_app; [one_part..|other_key]).
Qed.
Lemma evalDiskThermal_part c w s : part 4 (evalDiskThermal c w s).
Proof. unfold evalDiskThermal. cbv zeta. apply part_app; [one_part..|other_key]. Qed.
Lemma evalLimits_part `{R : GoRuntime} `{!RuntimeOk R} c s : part 3 (evalLimits c s).
Proof.
  apply (part_omap 3 "limit:" _ fst); [apply entries_NoDup|in_bucket|]. intros [k v] cd. unfold limitCondition.
  repeat case_match; try done; intros [= <-]; simpl; auto.
Qed.
Lemma kindCpu_part `{R : GoRuntime} `{!RuntimeOk R} c w s : part 5 (omap (kindCondition c w) (map_entries (SKinds s))).
Proof.
  apply (part_omap 5 "kind.cpu:" _ fst); [apply entries_NoDup|in_bucket|]. intros [k v] cd. unfold kindCondition.
  case_match; [|done]. intros [= <-]; simpl; auto.
Qed.
Lemma countRows_NoDup c s : NoDup ((fst ∘ fst) <$> countRows c s).
Proof. simpl. apply (bool_decide_unpack _). vm_compute. exact I. Qed.
Lemma kindCount_part c w s : part 6 (omap (countCondition c w) (countRows c s)).
Proof.
  apply (part_omap 6 "kind.count:" _ (fst ∘ fst)); [apply countRows_NoDup|in_bucket|].
  intros [[k n] t] cd. unfold countCondition. case_match; [|done]. intros [= <-]; simpl; auto.
Qed.

(** All parts together, before sorting. *)
Definition allConditions `{R : GoRuntime} (cfg : Config) (w : list Sample) (s : Sample) : list Condition :=
  evalLoad cfg w s ++ evalMemory cfg w s ++ evalLimits cfg s ++ evalDiskThermal cfg w s ++ evalKinds cfg w s.

Lemma part_elem i l c : part i l → c ∈ l →
  bucket (CKey c) = i ∧ EngineFacts.scope_of (CKey c) = Slow ∧ (CSeverity c = "warn" ∨ CSeverity c = "critical").
Proof. intros [_ Hf] Hc. rewrite Forall_forall in Hf. by apply Hf. Qed.

Lemma parts_NoDup (ls : list (list Condition)) (start : nat) :
  (∀ i l, ls !! i = Some l → part (start + i) l) → NoDup (CKey <$> mjoin ls).
Proof.
  revert start. induction ls as [|l ls IH]; intros start Hp; [constructor|]. cbn [mjoin list_join]. rewrite fmap_app. apply NoDup_app.
  pose proof (Hp 0%nat l eq_refl) as Hl. rewrite Nat.add_0_r in Hl. split_and!; [apply Hl| |].
  - intros k (c1 & -> & H1)%list_elem_of_fmap (c2 & Hk & H2)%list_elem_of_fmap.
    apply (part_elem _ _ _ Hl) in H1 as [Hb1 _]. apply list_elem_of_join in H2 as (l' & H2 & [j Hj]%list_elem_of_lookup).
    specialize (Hp (S j) l' Hj). apply (part_elem _ _ _ Hp) in H2 as [Hb2 _]. rewrite <-Hk, Hb1 in Hb2. lia.
  - apply (IH (S start)). intros j l' Hj. rewrite Nat.add_succ_l, <-Nat.add_succ_r. by apply Hp.
Qed.

Lemma allConditions_parts `{R : GoRuntime} `{!RuntimeOk R} cfg w s :
  ∃ ls, allConditions cfg w s = mjoin ls ∧ ∀ i l, ls !! i = Some l → part (1 + i) l.
Proof.
  exists [evalLoad cfg w s; evalMemory cfg w s; evalLimits cfg s; evalDiskThermal cfg w s;
     omap (kindCondition cfg w) (map_entries (SKinds s)); omap (countCondition cfg w) (countRows cfg s)].
  split; [unfold allConditions, evalKinds; cbn [mjoin list_join]; by rewrite app_nil_r|].
  intros i l Hi.
  destruct i as [|[|[|[|[|[|i]]]]]]; simpl in Hi; simplify_eq; simpl;
    [apply evalLoad_part|apply evalMemory_part|apply evalLimits_part|apply evalDiskThermal_part|apply kindCpu_part|apply kindCount_part].
Qed.
Lemma allConditions_NoDup `{R : GoRuntime} `{!RuntimeOk R} cfg w s : NoDup (CKey <$> allConditions cfg w s).
Proof. destruct (allConditions_parts cfg w s) as (ls & -> & Hp). by apply (parts_NoDup ls 1). Qed.
Lemma allConditions_elem `{R : GoRuntime} `{!RuntimeOk R} cfg w s c :
  c ∈ allConditions cfg w s → EngineFacts.scope_of (CKey c) = Slow ∧ (CSeverity c = "warn" ∨ CSeverity c = "critical").
Proof.
  destruct (allConditions_parts cfg w s) as (ls & -> & Hp).
  rewrite list_elem_of_join. intros (l & Hc & Hl). apply list_elem_of_lookup in Hl as [i Hi].
  by destruct (part_elem _ _ _ (Hp i l Hi) Hc) as [_ ?].
Qed.

(** *** The rules *)

Section Rules.
Context {R : GoRuntime} {HR : RuntimeOk R}.

(** The evaluation reports [key] with severity [sev]. *)
Definition reports (cfg : Config) (w : list Sample) (key sev : string) : Prop :=
  ∃ c, c ∈ Evaluate cfg w ∧ CKey c = key ∧ CSeverity c = sev.
(** A list has a condition with the key and the severity. *)
Definition has_cond (l : list Condition) (key sev : string) : Prop :=
  ∃ c, c ∈ l ∧ CKey c = key ∧ CSeverity c = sev.

(** A key is reported by the part it belongs to. *)
Lemma reports_part cfg w s key sev :
  last w = Some s →
  reports cfg w key sev ↔
  has_cond (match bucket key with
            | 1%nat => evalLoad cfg w s | 2%nat => evalMemory cfg w s | 3%nat => evalLimits cfg s
            | 4%nat => evalDiskThermal cfg w s
            | 5%nat => omap (kindCondition cfg w) (map_entries (SKinds s))
            | 6%nat => omap (countCondition cfg w) (countRows cfg s)
            | _ => [] end) key sev.
Proof.
  intros Hl. assert (∀ c, c ∈ Evaluate cfg w ↔
    c ∈ evalLoad cfg w s ∨ c ∈ evalMemory cfg w s ∨ c ∈ evalLimits cfg s ∨ c ∈ evalDiskThermal cfg w s ∨
    c ∈ omap (kindCondition cfg w) (map_entries (SKinds s)) ∨ c ∈ omap (countCondition cfg w) (countRows cfg s)) as Hin.
  { intros c. unfold Evaluate. rewrite Hl, elem_of_sort. unfold evalKinds. by rewrite !elem_of_app. }
  unfold reports, has_cond. setoid_rewrite Hin. split.
  - intros (c & Hc & <- & Hsev). exists c. split; [|done].
    destruct Hc as [Hc|[Hc|[Hc|[Hc|[Hc|Hc]]]]].
    + by destruct (part_elem _ _ c (evalLoad_part cfg w s) Hc) as [-> _].
    + by destruct (part_elem _ _ c (evalMemory_part cfg w s) Hc) as [-> _].
    + by destruct (part_elem _ _ c (evalLimits_part cfg s) Hc) as [-> _].
    + by destruct (part_elem _ _ c (evalDiskThermal_part cfg w s) Hc) as [-> _].
    + by destruct (part_elem _ _ c (kindCpu_part cfg w s) Hc) as [-> _].
    + by destruct (part_elem _ _ c (kindCount_part cfg w s) Hc) as [-> _].
  - intros (c & Hc & Hk & Hsev). exists c. split; [|done].
    destruct (bucket key) as [|[|[|[|[|[|[|i]]]]]]]; try (by apply elem_of_nil in Hc); tauto.
Qed.

Lemma has_cond_app l1 l2 k sev : has_cond (l1 ++ l2) k sev ↔ has_cond l1 k sev ∨ has_cond l2 k sev.
Proof. unfold has_cond. setoid_rewrite elem_of_app. naive_solver. Qed.
Lemma has_cond_nil k sev : has_cond [] k sev ↔ False.
Proof. split; [|done]. by intros (c & ?%elem_of_nil & _). Qed.
Lemma has_cond_one c k sev : has_cond [c] k sev ↔ CKey c = k ∧ CSeverity c = sev.
Proof. unfold has_cond. setoid_rewrite list_elem_of_singleton. naive_solver. Qed.
Lemma has_cond_omap {A} (f : A → option Condition) l k sev :
  has_cond (omap f l) k sev ↔ ∃ x c, x ∈ l ∧ f x = Some c ∧ CKey c = k ∧ CSeverity c = sev.
Proof. unfold has_cond. setoid_rewrite list_elem_of_omap. naive_solver. Qed.

Lemma load_rules cfg w s :
  (has_cond (evalLoad cfg w s) "load.high" "critical" ↔
    0 < NCPU s ∧ sustained w (LoadSustain (Load cfg)) (λ x, fgt (Load1 x) (fmul (CriticalMultiple (Load cfg)) (of_Z (NCPU s)))) = true) ∧
  (has_cond (evalLoad cfg w s) "load.high" "warn" ↔
    0 < NCPU s ∧ sustained w (LoadSustain (Load cfg)) (λ x, fgt (Load1 x) (fmul (CriticalMultiple (Load cfg)) (of_Z (NCPU s)))) = false ∧
    sustained w (LoadSustain (Load cfg)) (λ x, fgt (Load1 x) (fmul (WarnMultiple (Load cfg)) (of_Z (NCPU s)))) = true) ∧
  (has_cond (evalLoad cfg w s) "load.climbing" "warn" ↔
    0 < NCPU s ∧ fgt (Load1 s) (of_Z (NCPU s)) = true ∧
    fgt (slope w (i64 (TrendMinutes (Load cfg) * Minute))) (fmul (TrendSlopeMultiple (Load cfg)) (of_Z (NCPU s))) = true).
Proof.
  unfold evalLoad. destruct (Z.leb_spec (NCPU s) 0).
  { rewrite !has_cond_nil. intuition lia. }
  cbv zeta. rewrite !has_cond_app.
  destruct (sustained w _ (λ x, fgt (Load1 x) (fmul (CriticalMultiple _) _))), (sustained w _ (λ x, fgt (Load1 x) (fmul (WarnMultiple _) _))),
    (fgt (Load1 s) _), (fgt (slope _ _) _); simpl; rewrite ?has_cond_nil, ?has_cond_one; simpl; intuition (done || congruence).
Qed.

Lemma swapLoop_spec cfg s l sev :
  has_cond (swapLoop cfg s l) "memory.swap_growth" sev ↔
  sev = "warn" ∧ ∃ pre x post, l = pre ++ x :: post ∧
    Forall (λ y, Sub (At s) (At y) <= 5 * Minute) (pre ++ [x]) ∧
    fgt (fsub (SwapUsedMB s) (SwapUsedMB x)) (SwapGrowthMB (Memory cfg)) = true.
Proof.
  induction l as [|y l IH]; cbn [swapLoop].
  { rewrite has_cond_nil. split; [done|]. intros (_ & pre & x & post & He & _). by destruct pre. }
  destruct (Z.ltb_spec (5 * Minute) (Sub (At s) (At y))).
  { rewrite has_cond_nil. split; [done|]. intros (_ & pre & x & post & He & Hf & _).
    destruct pre as [|z pre]; injection He as <- _; apply Forall_cons in Hf as [? _]; lia. }
  cbv zeta. destruct (fgt (fsub (SwapUsedMB s) (SwapUsedMB y)) _) eqn:Hg.
  - rewrite has_cond_one. simpl. split; [|naive_solver]. intros [_ <-]. split; [done|].
    exists [], y, l. split_and!; [done|by apply Forall_singleton|done].
  - rewrite IH. split; intros (-> & pre & x & post & He & Hf & Hx); (split; [done|]).
    + exists (y :: pre), x, post. split_and!; [by rewrite He|by constructor|done].
    + destruct pre as [|z pre]; injection He as <- He; [congruence|].
      exists pre, x, post. apply Forall_cons in Hf as [_ Hf]. done.
Qed.
Lemma memory_rules cfg w s :
  (has_cond (evalMemory cfg w s) "memory.pressure" "critical" ↔ MemoryPressure s = "critical") ∧
  (has_cond (evalMemory cfg w s) "memory.pressure" "warn" ↔
    MemoryPressure s ≠ "critical" ∧
    sustained w (WarnSustain (Memory cfg)) (λ x, bool_decide (MemoryPressure x = "warn")) = true) ∧
  (has_cond (evalMemory cfg w s) "memory.swap_growth" "warn" ↔
    has_cond (swapLoop cfg s (tail (reverse w))) "memory.swap_growth" "warn").
Proof.
  unfold evalMemory. cbv zeta. rewrite !has_cond_app.
  assert (∀ sev, ¬ has_cond (swapLoop cfg s (tail (reverse w))) "memory.pressure" sev) as Hno.
  { intros sev. destruct (swapLoop_cases cfg s (tail (reverse w))) as [-> |[d ->]];
      [by intros ?%has_cond_nil|by intros [? _]%has_cond_one]. }
  split_and!; case_decide; try destruct (sustained _ _ _); rewrite ?has_cond_nil, ?has_cond_one; simpl; naive_solver.
Qed.
Lemma limit_rules cfg s k sev :
  has_cond (evalLimits cfg s) ("limit:" +:+ k) sev ↔
  k ≠ "procs" ∧ k ≠ "procs_per_uid" ∧ ∃ v, SLimits s !! k = Some v ∧ 0 < Limit v ∧
    (sev = "critical" ∧ fgt (Pct v) (CriticalPct (Limits cfg)) = true ∨
     sev = "warn" ∧ fgt (Pct v) (CriticalPct (Limits cfg)) = false ∧ fgt (Pct v) (WarnPct (Limits cfg)) = true).
Proof.
  unfold evalLimits. rewrite has_cond_omap. split.
  - intros ([k' v] & c & Hin%elem_of_entries & Hc & Hk & <-). revert Hc. unfold limitCondition.
    case_bool_decide; [done|]. case_bool_decide; [done|]. simpl. destruct (Z.leb_spec (Limit v) 0); [done|].
    destruct (fgt (Pct v) (CriticalPct _)) eqn:E1; [|destruct (fgt (Pct v) (WarnPct _)) eqn:E2; [|done]];
      intros [= <-]; simpl in Hk; apply (inj (String.app "limit:")) in Hk as ->; naive_solver.
  - intros (Hk1 & Hk2 & v & Hv & Hl & Hs). exists (k, v).
    assert (limitCondition cfg (k, v) = Some (cond ("limit:" +:+ k) sev
      (if fgt (Pct v) (CriticalPct (Limits cfg)) then "Resource limit near exhaustion" else "Resource limit elevated")
      (k +:+ ": " +:+ fmt_f 0 (Pct v) +:+ "%"))) as Hc.
    { unfold limitCondition. rewrite !bool_decide_false by done. simpl. rewrite (proj2 (Z.leb_gt _ _)) by done.
      destruct Hs as [(-> & ->)|(-> & -> & ->)]; reflexivity. }
    eexists. split_and!; [by apply elem_of_entries|exact Hc|done|done].
Qed.
Lemma disk_rules cfg w s :
  (has_cond (evalDiskThermal cfg w s) "disk.free" "critical" ↔
    fge (DataFreeGB s) f0 = true ∧ flt (DataFreeGB s) (CriticalGB (Disk cfg)) = true) ∧
  (has_cond (evalDiskThermal cfg w s) "disk.free" "warn" ↔
    fge (DataFreeGB s) f0 = true ∧ flt (DataFreeGB s) (CriticalGB (Disk cfg)) = false ∧ flt (DataFreeGB s) (WarnGB (Disk cfg)) = true) ∧
  (has_cond (evalDiskThermal cfg w s) "thermal.throttled" "warn" ↔ sustained w (ThermalSustain cfg) ThermalThrottled = true).
Proof.
  unfold evalDiskThermal. cbv zeta. rewrite !has_cond_app.
  destruct (fge (DataFreeGB s) f0), (flt (DataFreeGB s) (CriticalGB _)), (flt (DataFreeGB s) (WarnGB _)), (sustained w _ _);
    cbn [andb]; rewrite ?has_cond_nil, ?has_cond_one; simpl; intuition (done || congruence).
Qed.
Lemma kind_rules cfg w s k :
  has_cond (omap (kindCondition cfg w) (map_entries (SKinds s))) ("kind.cpu:" +:+ k) "warn" ↔
  k ≠ "other" ∧ ∃ st, SKinds s !! k = Some st ∧ fge (KCPUPct st) (CPUPct (Kinds cfg)) = true ∧
    sustained w (CPUSustain (Kinds cfg)) (λ x, fge (KCPUPct (kindOf x k)) (CPUPct (Kinds cfg))) = true.
Proof.
  rewrite has_cond_omap. split.
  - intros ([k' st] & c & Hin%elem_of_entries & Hc & Hk & _). revert Hc. unfold kindCondition.
    case_bool_decide; [done|]. simpl. destruct (fge (KCPUPct st) _) eqn:E1; [|done]. simpl.
    destruct (sustained w _ _) eqn:E2; [|done]. intros [= <-]. simpl in Hk.
    apply (inj (String.app "kind.cpu:")) in Hk as ->. naive_solver.
  - intros (Hk & st & Hst & H1 & H2). exists (k, st). eexists. split_and!; [by apply elem_of_entries| | |].
    + unfold kindCondition. rewrite bool_decide_false by done. simpl. by rewrite H1, H2.
    + done.
    + done.
Qed.
Lemma count_rules cfg w s k n t :
  (k, n, t) ∈ countRows cfg s →
  has_cond (omap (countCondition cfg w) (countRows cfg s)) ("kind.count:" +:+ k) "warn" ↔
  t <= n ∧ sustained w (CountSustain (Kinds cfg)) (λ x, t <=? kindCount x k) = true.
Proof.
  intros Hrow. rewrite has_cond_omap. split.
  - intros ([[k' n'] t'] & c & Hin & Hc & Hk & _). revert Hc. unfold countCondition.
    destruct ((t' <=? n') && _) eqn:E; [|done]. intros [= <-]. simpl in Hk.
    apply (inj (String.app "kind.count:")) in Hk as ->. 
    assert ((k, n', t') = (k, n, t)) as [= -> ->]
      by (by apply (NoDup_fmap_inj_in (fst ∘ fst) (countRows cfg s)); [apply countRows_NoDup|..]).
    to_prop. done.
  - intros [H1 H2]. exists (k, n, t). eexists. split_and!; [done| | |].
    + unfold countCondition. by rewrite (proj2 (Z.leb_le _ _)), H2.
    + done.
    + done.
Qed.
(** The last sample is among those in which a condition held. *)
Lemma held_last n w s P : last w = Some s → held n w P → P s.
Proof.
  intros [w' ->]%last_Some [Hl Hf]. rewrite Forall_forall in Hf. apply Hf. unfold latest. rewrite drop_app_le.
  - apply elem_of_app. right. by left.
  - unfold len in *. rewrite length_app in *. cbn [length] in *. lia.
Qed.
Lemma held_ext n w (P Q : Sample → Prop) : (∀ x, P x ↔ Q x) → held n w P ↔ held n w Q.
Proof. intros HPQ. unfold held. rewrite !Forall_forall. naive_solver. Qed.
Lemma count_held cfg w s k t : last w = Some s → (k, kindCount s k, t) ∈ countRows cfg s →
  has_cond (omap (countCondition cfg w) (countRows cfg s)) ("kind.count:" +:+ k) "warn" ↔ held (CountSustain (Kinds cfg)) w (λ x, t <= kindCount x k).
Proof.
  intros Hs Hrow. rewrite (count_rules cfg w s k _ t Hrow), sustained_held, (held_ext _ _ _ (λ x, t <= kindCount x k)) by (intros x; apply Z.leb_le).
  split; [by intros [_ ?]|]. intros Hh. split; [|done]. exact (held_last _ _ _ _ Hs Hh).
Qed.

(** The slope of the load over time, by least squares over the samples of the last
    [d]: with [x] the minutes since the last sample (so not positive) and [y] the
    load, all in floating point, zero when there are fewer than two samples or
    they are at one time. *)
Definition trend (w : list Sample) (d : Z) (now : time) : f64 :=
  let recent := filter (λ v, Sub now (At v) <= d) w in
  let x v := Minutes (Sub (At v) now) in
  let sum f := fold_left (λ a v, fadd a (f v)) recent f0 in
  let n := sum (λ _, of_Z 1) in
  let den := fsub (fmul n (sum (λ v, fmul (x v) (x v)))) (fmul (sum x) (sum x)) in
  if flt n (of_Z 2) || flt (fabs den) (lit 1 (10 ^ 9)) then f0
  else fdiv (fsub (fmul n (sum (λ v, fmul (x v) (Load1 v)))) (fmul (sum x) (sum Load1))) den.

Lemma slopeStep_sums now d w n sx sy sxx sxy :
  let recent := filter (λ v, Sub now (At v) <= d) w in
  let x v := Minutes (Sub (At v) now) in
  let sum f a := fold_left (λ a v, fadd a (f v)) recent a in
  fold_left (slopeStep now d) w (n, sx, sy, sxx, sxy) =
  (sum (λ _, of_Z 1) n, sum x sx, sum Load1 sy, sum (λ v, fmul (x v) (x v)) sxx, sum (λ v, fmul (x v) (Load1 v)) sxy).
Proof.
  cbv zeta. revert n sx sy sxx sxy. induction w as [|v w IH]; intros n sx sy sxx sxy; [done|]. cbn [fold_left]. unfold slopeStep at 2.
  rewrite filter_cons. destruct (Z.ltb_spec d (Sub now (At v))); [rewrite decide_False by lia|rewrite decide_True by lia; cbn [fold_left]]; apply IH.
Qed.
Lemma slope_trend w s d : last w = Some s → slope w d = trend w d (At s).
Proof.
  intros Hs. unfold slope, trend. rewrite Hs, slopeStep_sums. destruct (Z.ltb_spec (len w) 2) as [Hl|_]; [|done]. cbv zeta.
  destruct w as [|v [|v' w]]; [done| |unfold len in Hl; cbn [length] in Hl; lia]. rewrite filter_cons, filter_nil. by case_decide.
Qed.

(** The keys with the severities they can have, besides those of limits and kinds. *)
Definition fixed_rules : list (string * string) :=
  [("load.high", "critical"); ("load.high", "warn"); ("load.climbing", "warn"); ("memory.pressure", "critical"); ("memory.pressure", "warn");
   ("memory.swap_growth", "warn"); ("disk.free", "critical"); ("disk.free", "warn"); ("thermal.throttled", "warn");
   ("kind.count:gradle", "warn"); ("kind.count:simulator", "warn"); ("kind.count:qemu", "warn"); ("kind.count:agents", "warn")].
Definition known_rule (key sev : string) : Prop :=
  (key, sev) ∈ fixed_rules ∨ (∃ k, key = "limit:" +:+ k ∧ sev ∈ ["critical"; "warn"]) ∨ ∃ k, key = "kind.cpu:" +:+ k ∧ sev = "warn".
Lemma known_fixed c : bool_decide ((CKey c, CSeverity c) ∈ fixed_rules) = true → known_rule (CKey c) (CSeverity c).
Proof. intros H. left. by apply bool_decide_eq_true in H. Qed.
Ltac literal := rewrite ?Forall_app; repeat case_match; split_and?; repeat first [apply List.Forall_nil|apply List.Forall_cons]; by apply known_fixed.
Lemma known_parts cfg w s :
  Forall (λ c, known_rule (CKey c) (CSeverity c)) (evalLoad cfg w s ++ evalMemory cfg w s ++ evalLimits cfg s ++ evalDiskThermal cfg w s ++ evalKinds cfg w s).
Proof.
  unfold evalKinds. rewrite !Forall_app. split_and!.
  - unfold evalLoad. cbv zeta. literal.
  - unfold evalMemory. cbv zeta. destruct (swapLoop_cases cfg s (tail (reverse w))) as [->|[d ->]]; literal.
  - apply Forall_forall. intros c ([k v] & _ & Hc)%list_elem_of_omap. unfold limitCondition in Hc. right; left. exists k.
    repeat case_match; simplify_eq; (split; [done|set_solver]).
  - unfold evalDiskThermal. cbv zeta. literal.
  - apply Forall_forall. intros c ([k v] & _ & Hc)%list_elem_of_omap. unfold kindCondition in Hc. right; right. exists k. repeat case_match; by simplify_eq.
  - apply Forall_forall. intros c ([[k n] t] & Hrow & Hc)%list_elem_of_omap. unfold countCondition in Hc. destruct (_ && _); [|done]. injection Hc as <-.
    unfold countRows in Hrow. rewrite !elem_of_cons, elem_of_nil in Hrow. destruct Hrow as [[=]|[[=]|[[=]|[[=]|[]]]]]; subst; by apply known_fixed.
Qed.
End Rules.
End EvaluateFacts.

Module ClassifyFacts.
Import Classify.

Definition kinds : list string :=
  ["other"; "kotlin-daemon"; "gradle"; "java"; "xcodebuild"; "swift-frontend"; "clang"; "go"; "node"; "bun"; "codex";
   "claude"; "qemu"; "simulator"; "bsdtar"; "git"; "spotlight"].
Lemma assoc_kinds name k : assoc directKinds name = Some k → k ∈ kinds.
Proof.
  assert (∀ l, assoc l name = Some k → (name, k) ∈ l) as Hin.
  { induction l as [|[n v] l IH]; simpl; [done|]. case_decide; [intros [= <-]; subst; by apply elem_of_cons; left|].
    intros ?%IH. by apply elem_of_cons; right. }
  intros Hk%Hin. assert (Forall (λ p : string * string, p.2 ∈ kinds) directKinds) as Hall.
  { apply (bool_decide_unpack _). vm_compute. exact I. }
  rewrite Forall_forall in Hall. by apply (Hall (name, k)).
Qed.
End ClassifyFacts.

(** ** Properties *)

Import Config ConfigFacts Evaluate EvaluateFacts Classify ClassifyFacts.

(** Validation: whatever was loaded (NaN included), the validated
    configuration has positive thresholds and counts, a spawn interval of at
    least a second, a sustained window of at least a minute with a fraction
    above one half and at most one, JVM sampling between a minute and an hour
    with a timeout that fits in the interval, and critical spawn thresholds at
    least as high as the warning ones.  A problem is reported exactly if the
    configuration did not satisfy this, and a valid configuration is left
    unchanged. *)
Theorem config_validated c :
  valid (validateConfig c).1 ∧ ((validateConfig c).2 = [] ↔ valid c) ∧ (valid c → (validateConfig c).1 = c).
Proof. apply validateConfig_ok. Qed.

Section EvaluateProperties.
Context {R : GoRuntime} {HR : RuntimeOk R}.

(** C36: The rules of the host evaluation, exactly: for each condition and
    severity, it is reported if and only if its rule holds of the last samples
    of the window, critical taking precedence over warning; process-count
    limits are left to the spawn probe.  A climbing load is a load above the
    number of CPUs whose least-squares slope over the trend window is above its
    threshold; process counts are those of Gradle, simulators, QEMU, and of
    Codex and Claude together, each with its own threshold.  Nothing else is
    reported. *)
Theorem evaluate_rules cfg w s (Hs : last w = Some s) :
  let n := of_Z (NCPU s) in
  let crit := held (LoadSustain (Load cfg)) w (λ x, fgt (Load1 x) (fmul (CriticalMultiple (Load cfg)) n) = true) in
  let many kind count t := reports cfg w ("kind.count:" +:+ kind) "warn" ↔ held (CountSustain (Kinds cfg)) w (λ x, t <= count x) in
  (reports cfg w "load.high" "critical" ↔ 0 < NCPU s ∧ crit) ∧
  (reports cfg w "load.high" "warn" ↔ 0 < NCPU s ∧ ¬ crit ∧
     held (LoadSustain (Load cfg)) w (λ x, fgt (Load1 x) (fmul (WarnMultiple (Load cfg)) n) = true)) ∧
  (reports cfg w "load.climbing" "warn" ↔ 0 < NCPU s ∧ fgt (Load1 s) n = true ∧
     fgt (trend w (i64 (TrendMinutes (Load cfg) * Minute)) (At s)) (fmul (TrendSlopeMultiple (Load cfg)) n) = true) ∧
  (reports cfg w "memory.pressure" "critical" ↔ MemoryPressure s = "critical") ∧
  (reports cfg w "memory.pressure" "warn" ↔ MemoryPressure s ≠ "critical" ∧
     held (WarnSustain (Memory cfg)) w (λ x, MemoryPressure x = "warn")) ∧
  (reports cfg w "memory.swap_growth" "warn" ↔ ∃ pre x post, tail (reverse w) = pre ++ x :: post ∧
     Forall (λ y, Sub (At s) (At y) <= 5 * Minute) (pre ++ [x]) ∧
     fgt (fsub (SwapUsedMB s) (SwapUsedMB x)) (SwapGrowthMB (Memory cfg)) = true) ∧
  (∀ k sev, reports cfg w ("limit:" +:+ k) sev ↔ k ≠ "procs" ∧ k ≠ "procs_per_uid" ∧
     ∃ v, SLimits s !! k = Some v ∧ 0 < Limit v ∧
       (sev = "critical" ∧ fgt (Pct v) (CriticalPct (Limits cfg)) = true ∨
        sev = "warn" ∧ fgt (Pct v) (CriticalPct (Limits cfg)) = false ∧ fgt (Pct v) (WarnPct (Limits cfg)) = true)) ∧
  (reports cfg w "disk.free" "critical" ↔ fge (DataFreeGB s) f0 = true ∧ flt (DataFreeGB s) (CriticalGB (Disk cfg)) = true) ∧
  (reports cfg w "disk.free" "warn" ↔
     fge (DataFreeGB s) f0 = true ∧ flt (DataFreeGB s) (CriticalGB (Disk cfg)) = false ∧ flt (DataFreeGB s) (WarnGB (Disk cfg)) = true) ∧
  (reports cfg w "thermal.throttled" "warn" ↔ held (ThermalSustain cfg) w (λ x, ThermalThrottled x = true)) ∧
  (∀ k, reports cfg w ("kind.cpu:" +:+ k) "warn" ↔ k ≠ "other" ∧ ∃ st, SKinds s !! k = Some st ∧
     fge (KCPUPct st) (CPUPct (Kinds cfg)) = true ∧
     held (CPUSustain (Kinds cfg)) w (λ x, fge (KCPUPct (kindOf x k)) (CPUPct (Kinds cfg)) = true)) ∧
  many "gradle" (λ x, Count (kindOf x "gradle")) (Gradle (Kinds cfg)) ∧
  many "simulator" (λ x, Count (kindOf x "simulator")) (Simulator (Kinds cfg)) ∧
  many "qemu" (λ x, Count (kindOf x "qemu")) (QEMU (Kinds cfg)) ∧
  many "agents" (λ x, Count (kindOf x "codex") + Count (kindOf x "claude")) (Agents (Kinds cfg)) ∧
  ∀ key sev, reports cfg w key sev → known_rule key sev.
Proof.
  destruct (load_rules cfg w s) as (L1 & L2 & L3). destruct (memory_rules cfg w s) as (M1 & M2 & M3).
  destruct (disk_rules cfg w s) as (D1 & D2 & D3). rewrite (slope_trend w s) in L3 by done.
  assert (∀ key sev, reports cfg w key sev → known_rule key sev) as Hk.
  { intros key sev (c & Hc & <- & <-). unfold Evaluate in Hc. rewrite Hs, elem_of_sort in Hc.
    pose proof (known_parts cfg w s) as Hall. rewrite Forall_forall in Hall. by apply Hall. }
  assert (∀ k t, (k, kindCount s k, t) ∈ countRows cfg s →
    reports cfg w ("kind.count:" +:+ k) "warn" ↔ held (CountSustain (Kinds cfg)) w (λ x, t <= kindCount x k)) as Hn.
  { intros k t Hrow. rewrite (reports_part cfg w s), bucket_count by done. by apply count_held. }
  cbv zeta. split_and!; try done; try (apply Hn; repeat first [exact (list_elem_of_here _ _)|apply list_elem_of_further]); intros; rewrite (reports_part cfg w s) by done;
    rewrite ?bucket_limit, ?bucket_cpu; try done.
  - rewrite L1. by rewrite sustained_held.
  - rewrite L2, <-sustained_held, not_true_iff_false, <-sustained_held. done.
  - rewrite M2, sustained_held. rewrite (held_ext _ _ _ (λ x, MemoryPressure x = "warn")); [done|]. intros x. apply bool_decide_eq_true.
  - rewrite M3, swapLoop_spec. naive_solver.
  - apply limit_rules.
  - rewrite D3. by rewrite sustained_held.
  - rewrite kind_rules. by setoid_rewrite sustained_held.
Qed.

(** The conditions of an evaluation have distinct keys, sorted, all of the
    slow scope of the alert engine (so that [EvaluateSlow] handles every one of
    them), with severity warn or critical. *)
Theorem evaluate_wellformed cfg w :
  NoDup (CKey <$> Evaluate cfg w) ∧
  Sorted (λ a b, String.ltb (CKey b) (CKey a) = false) (Evaluate cfg w) ∧
  Forall (λ c, withinScope Slow (CKey c) = true ∧ (CSeverity c = "warn" ∨ CSeverity c = "critical")) (Evaluate cfg w).
Proof.
  unfold Evaluate. destruct (last w) as [s|]; [|split_and!; constructor]. fold (allConditions cfg w s).
  set (less := λ a b : Condition, String.ltb (CKey a) (CKey b)).
  split_and!.
  - rewrite sort_perm. apply allConditions_NoDup.
  - apply (sort_sorted less), (strict_weak_key CKey), strict_weak_string.
  - rewrite sort_perm. apply Forall_forall. intros c Hc. apply allConditions_elem in Hc as [Hs Hsev].
    split; [|done]. rewrite EngineFacts.withinScope_spec, Hs. done.
Qed.
End EvaluateProperties.

(** The order in which Go iterates over the limit and kind maps of a
    sample does not affect the reported conditions. *)
Theorem evaluate_runtime_independent (R1 R2 : GoRuntime) (H1 : RuntimeOk R1) (H2 : RuntimeOk R2) cfg w :
  Evaluate.Evaluate (R := R1) cfg w = Evaluate.Evaluate (R := R2) cfg w.
Proof.
  unfold Evaluate.Evaluate. destruct (last w) as [s|]; [|done]. apply (sort_slice_key_eq CKey).
  - unfold evalLimits, evalKinds. by rewrite !entries_perm.
  - apply (allConditions_NoDup (R := R1)).
Qed.

(** Process kinds: the kind is always one of the known ones; only the last
    element of the command's path counts; and a java process is told apart by
    its arguments, a Kotlin daemon before a Gradle one. *)
Theorem classify_spec `{Unicode} dir name args
  (Hslash : no_slash name = true) (Hname : name ≠ "") :
  Classify (dir +:+ String "/" name) args = Classify name args ∧ Classify name args ∈ kinds ∧
  (ToLower name = "java" →
   Classify name args =
   if Contains (ToLower args) "kotlin-daemon" || Contains (ToLower args) "kotlincompilerdaemon" || Contains (ToLower args) "kotlincompiledaemon"
   then "kotlin-daemon"
   else if Contains (ToLower args) "gradledaemon" || Contains (ToLower args) "gradlewrappermain" || Contains (ToLower args) "gradle-launcher"
   then "gradle" else "java").
Proof.
  destruct (Base_dir dir name Hslash Hname) as [Hb1 Hb2]. unfold Classify. rewrite Hb1, Hb2.
  rewrite (decide_False (P := name = "")) by done. rewrite (decide_False (P := dir +:+ _ = "")) by (by destruct dir).
  split_and!; [done| |].
  - destruct (_ && _); [apply (bool_decide_unpack _); vm_compute; exact I|].
    destruct (_ && _); [apply (bool_decide_unpack _); vm_compute; exact I|].
    destruct (assoc directKinds (ToLower name)) as [k|] eqn:E; [by eapply assoc_kinds|].
    repeat case_match; apply (bool_decide_unpack _); vm_compute; exact I.
  - intros Hj. rewrite Hj. rewrite bool_decide_true by done. cbn [andb].
    by destruct (_ || _ || _); [|destruct (_ || _ || _)].
Qed.

(** Witnesses: a host of two CPUs under a load of ten. *)
Definition demo_sample (at_ : time) (load : Z) : Sample :=
  {| At := at_; NCPU := 2; Load1 := of_Z load; Load5 := f0; Load15 := f0; MemoryPressure := "normal"; SwapUsedMB := f0;
     MemFreePct := of_Z 50; SLimits := ∅; DataFreeGB := of_Z 100; ThermalThrottled := false;
     SKinds := ∅; TopCPU := []; SelfCPUPct := f0; SSpawn := None |}.
Lemma evaluate_rules_witness :
  reports (R := go_runtime) DefaultConfig [demo_sample 0 10; demo_sample Minute 11] "load.high" "critical".
Proof.
  apply (proj1 (evaluate_rules (R := go_runtime) DefaultConfig [demo_sample 0 10; demo_sample Minute 11]
    (demo_sample Minute 11) eq_refl)).
  split; [reflexivity|]. split; [vm_compute; congruence|].
  apply List.Forall_cons; [reflexivity|]. apply List.Forall_cons; [reflexivity|]. apply List.Forall_nil.
Defined.
Lemma evaluate_wellformed_witness :
  NoDup (CKey <$> Evaluate.Evaluate (R := go_runtime) DefaultConfig [demo_sample 0 10]).
Proof. apply (evaluate_wellformed (R := go_runtime) (HR := go_runtime_ok) DefaultConfig [demo_sample 0 10]). Defined.
Lemma evaluate_runtime_independent_witness :
  Evaluate.Evaluate (R := go_runtime) DefaultConfig [demo_sample 0 10] =
  Evaluate.Evaluate (R := go_runtime_rev) DefaultConfig [demo_sample 0 10].
Proof. apply (evaluate_runtime_independent go_runtime go_runtime_rev go_runtime_ok go_runtime_rev_ok). Defined.
Lemma classify_spec_witness :
  @Classify ascii_only "/usr/bin/java" "org.gradle.launcher.daemon.bootstrap.GradleDaemon" = "gradle".
Proof.
  exact (eq_trans (proj1 (@classify_spec ascii_only "/usr/bin" "java" "org.gradle.launcher.daemon.bootstrap.GradleDaemon"
    eq_refl ltac:(discriminate))) eq_refl).
Defined.
