(* ===== verification/HostSustained.v ===== *)
(** * Sustained CPU load of a process

    Models [src/internal/hostwatch/sustained.go]: the [SustainedTracker] and
    its helpers.  The tracker maps a PID to the recent CPU readings of the
    process; pointers in the map of the source are values of the model's map,
    written back under their key.  The theorems show that a process is only
    reported if an unbroken stretch of its readings once covered the whole window
    with the configured share of all those in it above the threshold, that a process sampled above
    the threshold for a window is reported, that a firing report ends only for
    one of the stated reasons, and that reports are sorted and independent of
    map iteration. *)

From S2P Require Import Prelude GoStrings GoPath GoRuntime Float64 HostEngine HostEvaluate.
Import HostEvaluate.Config.

Module Sustained.

Definition startTolerance : Z := 3 * Second.
Definition sustainedMinGap : Z := 5 * Minute.
Definition sustainedMinClearPoints : Z := 4.
Definition sustainedClearFraction : f64 := lit 5 10.

Record ProcObs := {
  PID : Z; PPID : Z; Name : string; CPU : f64; Started : time; Skip : bool }.
Record SustainedFinding := {
  FPID : Z; FName : string; FStarted : time; Since : time; Duration : Z; AvgCPU : f64; Fraction : f64 }.
Record cpuPoint := { at_ : time; above : bool; cpu : f64 }.
Record sustainedEntry := {
  name : string; started : time; points : list cpuPoint; since : time; lastGood : time; adopt : bool }.
Record SustainedTracker := { cfg : SustainedConfig; entries : gmap Z sustainedEntry; last_ : time }.

Definition NewSustainedTracker (c : SustainedConfig) : SustainedTracker :=
  {| cfg := c; entries := ∅; last_ := zero_time |}.
Definition with_entries (t : SustainedTracker) (es : gmap Z sustainedEntry) : SustainedTracker :=
  {| cfg := cfg t; entries := es; last_ := last_ t |}.
Definition with_points (e : sustainedEntry) (ps : list cpuPoint) : sustainedEntry :=
  {| name := name e; started := started e; points := ps; since := since e; lastGood := lastGood e; adopt := adopt e |}.
Definition with_since (e : sustainedEntry) (s : time) : sustainedEntry :=
  {| name := name e; started := started e; points := points e; since := s; lastGood := lastGood e; adopt := adopt e |}.

(** [-d] on the most negative duration is the duration itself. *)
Definition sameStart (a b : time) : bool :=
  let d := Sub a b in
  let d := if d <? 0 then i64 (- d) else d in
  d <=? startTolerance.

Definition Allowed `{Unicode} (c : SustainedConfig) (n : string) : bool :=
  let base := ToLower (Base n) in
  existsb (λ p, match Match (ToLower p) base with Some ok => ok | None => false end) (Allowlist c).

Definition maxGap (c : SustainedConfig) : Z := if sustainedMinGap <? MaxGap c then MaxGap c else sustainedMinGap.
(** For an interval of 2^62 nanoseconds (146 years) the divisor wraps to zero, and
    the division of the code would panic; the quotient of the model is zero. *)
Definition capacity (c : SustainedConfig) : Z :=
  if Interval c <=? 0 then 0 else Z.quot (Window c) (i64 (4 * Interval c)).
Definition minClearPoints (c : SustainedConfig) : Z :=
  let n := if (0 <? capacity c) && (capacity c <? sustainedMinClearPoints) then capacity c else sustainedMinClearPoints in
  if n <? 2 then 2 else n.
Definition minAbovePoints (c : SustainedConfig) : Z :=
  let h := Z.quot (capacity c) 2 in if 3 <? h then h else 3.

(** The loop of [trimPoints] drops points while the next one is old too. *)
Fixpoint trimPoints (ps : list cpuPoint) (cutoff : time) : list cpuPoint :=
  match ps with
  | p :: ((q :: _) as rest) => if Before (at_ q) cutoff then trimPoints rest cutoff else ps
  | _ => ps
  end.
Definition inWindow (ps : list cpuPoint) (cutoff : time) : list cpuPoint :=
  match ps with
  | p :: rest => if Before (at_ p) cutoff then rest else ps
  | [] => []
  end.
Definition staleHistory (c : SustainedConfig) (e : sustainedEntry) (at' : time) : bool :=
  match last (points e) with
  | None => false
  | Some p => if Interval c <=? 0 then false else i64 (8 * Interval c) <? Sub at' (at_ p)
  end.

Definition countAbove (ps : list cpuPoint) : Z := len (filter (λ p, above p = true) ps).
Definition anyAbove (ps : list cpuPoint) : bool := existsb above ps.
Definition lastBelow (ps : list cpuPoint) (n : Z) : bool :=
  if len ps <? n then false else forallb (λ p, negb (above p)) (drop (Z.to_nat (len ps - n)) ps).
Definition summarize (ps : list cpuPoint) : f64 * f64 :=
  let n := of_Z (len ps) in
  (fdiv (of_Z (countAbove ps)) n, fdiv (fold_left (λ s p, fadd s (cpu p)) ps f0) n).

Definition Seed (t : SustainedTracker) (at' : time) (pid : Z) (n : string) (since_ started_ : time) : SustainedTracker :=
  with_entries t (<[pid := {| name := n; started := started_; points := []; since := since_; lastGood := at'; adopt := true |}]> (entries t)).

Definition dropIfReused (es : gmap Z sustainedEntry) (p : ProcObs) : gmap Z sustainedEntry :=
  match es !! PID p with
  | None => es
  | Some e =>
    if adopt e && bool_decide (Base (Name p) = Base (name e)) && (IsZero (started e) || sameStart (started e) (Started p))
    then <[PID p := {| name := name e; started := Started p; points := points e; since := since e;
                       lastGood := lastGood e; adopt := false |}]> es
    else if adopt e || negb (sameStart (started e) (Started p)) then delete (PID p) es
    else es
  end.

Definition resetAfterGap (es : gmap Z sustainedEntry) : gmap Z sustainedEntry :=
  omap (λ e, if IsZero (since e) then None else Some (with_points e [])) es.

Definition record (c : SustainedConfig) (at' : time) (es : gmap Z sustainedEntry) (p : ProcObs) : gmap Z sustainedEntry :=
  let above_ := fge (CPU p) (SCPUPct c) in
  match (match es !! PID p with
         | Some e => Some e
         | None => if above_ then Some {| name := Name p; started := Started p; points := []; since := zero_time;
                                          lastGood := zero_time; adopt := false |} else None
         end) with
  | None => es
  | Some e =>
    let ps := if staleHistory c e at' then [] else points e in
    let cutoff := Add_ at' (- Window c) in
    let ps := trimPoints (ps ++ [{| at_ := at'; above := above_; cpu := CPU p |}]) cutoff in
    let e := {| name := name e; started := started e; points := ps; since := since e; lastGood := at'; adopt := adopt e |} in
    let in_ := inWindow ps cutoff in
    let carried := negb (IsZero (since e)) && (len in_ <? minClearPoints c) in
    if negb (anyAbove in_) && negb carried then delete (PID p) es else <[PID p := e]> es
  end.

(** The body of the loop over the entries in [evaluate]: the entry that stays,
    if any, and the finding. *)
Definition evalEntry (c : SustainedConfig) (at' : time) (pid : Z) (e : sustainedEntry)
  : option sustainedEntry * option SustainedFinding :=
  let cutoff := Add_ at' (- Window c) in
  if Window c <=? Sub at' (lastGood e) then (None, None) else
  let e := with_points e (trimPoints (points e) cutoff) in
  let in_ := inWindow (points e) cutoff in
  match points e, in_ with
  | p0 :: _, q0 :: _ =>
    let '(frac, avg) := summarize in_ in
    let covered := Window c <=? Sub at' (at_ p0) in
    let since' :=
      if IsZero (since e) && covered && fge frac (MinFraction c) && (minAbovePoints c <=? countAbove in_) then at_ q0
      else if negb (IsZero (since e)) && flt frac sustainedClearFraction && (minClearPoints c <=? len in_) && lastBelow in_ 2
      then zero_time
      else since e in
    let e := with_since e since' in
    if IsZero since' then (Some e, None)
    else (Some e, Some {| FPID := pid; FName := name e; FStarted := started e; Since := since';
                          Duration := Sub at' since'; AvgCPU := avg; Fraction := frac |})
  | _, _ => (Some e, None)
  end.

Section Ops.
Context {R : GoRuntime} `{Unicode}.

Definition evaluate (c : SustainedConfig) (at' : time) (es : gmap Z sustainedEntry)
  : gmap Z sustainedEntry * list SustainedFinding :=
  (map_imap (λ pid e, (evalEntry c at' pid e).1) es,
   sort_slice (λ a b, FPID a <? FPID b) (omap (λ '(pid, e), (evalEntry c at' pid e).2) (map_entries es))).

(** The loop over the processes of a snapshot: the entries and the PIDs seen. *)
Definition observeStep (c : SustainedConfig) (at' : time) (st : gmap Z sustainedEntry * gset Z) (p : ProcObs)
  : gmap Z sustainedEntry * gset Z :=
  let '(es, seen) := st in
  if (PID p <=? 0) || Allowed c (Name p) then st else
  let es := dropIfReused es p in
  (if Skip p then es else record c at' es p, {[PID p]} ∪ seen).

Definition Observe (t : SustainedTracker) (at' : time) (procs : list ProcObs) : SustainedTracker * list SustainedFinding :=
  let es :=
    if negb (IsZero (last_ t)) && ((maxGap (cfg t) <? Sub at' (last_ t)) || Before at' (last_ t))
    then resetAfterGap (entries t) else entries t in
  let '(es, seen) := fold_left (observeStep (cfg t) at') procs (es, ∅) in
  let es := filter (λ '(pid, _), pid ∈ seen) es in
  let '(es, out) := evaluate (cfg t) at' es in
  ({| cfg := cfg t; entries := es; last_ := at' |}, out).

End Ops.

(** ** Owner chains *)

Record ChainLink := { LPID : Z; LName : string }.

(** The walk over the parents: the links so far, the process itself first. *)
Fixpoint chainLoop (fuel : nat) (table : gmap Z ProcObs) (cur : Z) (maxDepth : Z) (seen : gset Z) (rev : list ChainLink)
  : list ChainLink :=
  match fuel with
  | O => rev
  | S fuel =>
    if negb (len rev <=? maxDepth) || bool_decide (cur ∈ seen) then rev else
    match table !! cur with
    | None => rev
    | Some p =>
      let rev := rev ++ [{| LPID := PID p; LName := Base (Name p) |}] in
      if PPID p <=? 0 then rev else chainLoop fuel table (PPID p) maxDepth ({[cur]} ∪ seen) rev
    end
  end.
(** Each round adds a link while there are at most [maxDepth] of them. *)
Definition ParentChain (table : gmap Z ProcObs) (pid maxDepth : Z) : list ChainLink :=
  reverse (chainLoop (Z.to_nat (maxDepth + 2)) table pid maxDepth ∅ []).

Definition formatChain (chain : list ChainLink) : string :=
  Join (map (λ l, LName l +:+ "(" +:+ itoa (LPID l) +:+ ")") chain) " > ".

Definition unifiedLogHint : string :=
  "sustained load usually means a client is polling or streaming the unified log (`log stream`, `log show`, OSLogStore); look for those clients".
Definition OffenderHint `{Unicode} (n : string) : string :=
  let b := ToLower (Base n) in
  if decide (b = "diagnosticd") then unifiedLogHint
  else if decide (b = "oslogservice") then unifiedLogHint
  else if decide (b = "mds_stores") then
    "Spotlight is re-indexing or a client keeps triggering indexing; check `mdutil -s /` and recently changed large directories"
  else "".
Definition SuggestNextCommand (goos : string) (pid : Z) : string :=
  if decide (goos = "darwin") then "sample " +:+ itoa pid +:+ " 10" else "top -H -p " +:+ itoa pid.

End Sustained.

(** ** What the entries record *)

Module SustainedFacts.
Import Sustained.

(** A history is the list of snapshots observed so far, the oldest first. *)
Definition history := list (time * list ProcObs).

(** [trimPoints] keeps a suffix; sorted readings keep at most one before the
    cutoff. *)
Lemma trimPoints_suffix ps cutoff : ∃ pre, ps = pre ++ trimPoints ps cutoff.
Proof.
  induction ps as [|p ps IH]; [by exists []|]. destruct ps as [|q ps]; [by exists []|].
  cbn [trimPoints]. destruct (Before (at_ q) cutoff); [|by exists []].
  destruct IH as [pre IH]. exists (p :: pre). cbn [app]. f_equal. exact IH.
Qed.
Lemma trimPoints_Forall (P : cpuPoint → Prop) ps cutoff : Forall P ps → Forall P (trimPoints ps cutoff).
Proof. destruct (trimPoints_suffix ps cutoff) as [pre Hpre]. rewrite Hpre at 1. by intros [_ ?]%Forall_app. Qed.
Lemma trimPoints_sorted ps cutoff :
  StronglySorted (λ p q, at_ p <= at_ q) ps → StronglySorted (λ p q, at_ p <= at_ q) (trimPoints ps cutoff).
Proof. destruct (trimPoints_suffix ps cutoff) as [pre Hpre]. rewrite Hpre at 1. apply StronglySorted_app_1_r. Qed.
Lemma inWindow_spec ps cutoff :
  StronglySorted (λ p q, at_ p <= at_ q) ps →
  Forall (λ q, cutoff <= at_ q) (inWindow (trimPoints ps cutoff) cutoff).
Proof.
  induction 1 as [|p ps Hs IH Hp]; [constructor|]. destruct ps as [|q ps].
  - simpl. unfold Before. destruct (Z.ltb_spec (at_ p) cutoff); repeat constructor. done.
  - cbn [trimPoints]. unfold Before at 1. destruct (Z.ltb_spec (at_ q) cutoff) as [Hq|Hq]; [done|].
    inversion_clear Hs as [|? ? _ Hq']. apply Forall_cons in Hp as [Hpq Hp].
    assert (Forall (λ x, cutoff <= at_ x) (q :: ps)) as Hrest.
    { constructor; [done|]. eapply Forall_impl; [exact Hq'|]. simpl. intros. lia. }
    cbn [inWindow]. unfold Before. destruct (Z.ltb_spec (at_ p) cutoff); [done|]. by constructor.
Qed.
Lemma inWindow_sub ps cutoff : ∃ pre, ps = pre ++ inWindow ps cutoff.
Proof. destruct ps as [|p ps]; [by exists []|]. simpl. destruct (Before _ _); [by exists [p]|by exists []]. Qed.
Lemma inWindow_Forall (P : cpuPoint → Prop) ps cutoff : Forall P ps → Forall P (inWindow ps cutoff).
Proof. destruct (inWindow_sub ps cutoff) as [pre Hpre]. rewrite Hpre at 1. by intros [_ ?]%Forall_app. Qed.

Lemma sameStart_refl a : sameStart a a = true.
Proof. unfold sameStart, Sub. replace (a - a) with 0 by lia. reflexivity. Qed.

(** *** What a reading is added to *)

Lemma snoc_sorted ps p :
  StronglySorted (λ p q, at_ p <= at_ q) ps → Forall (λ q, at_ q <= at_ p) ps →
  StronglySorted (λ p q, at_ p <= at_ q) (ps ++ [p]).
Proof.
  intros Hs Hp. apply StronglySorted_app_2; [|done|repeat constructor].
  intros x y Hx ->%list_elem_of_singleton. rewrite Forall_forall in Hp. by apply Hp.
Qed.

(** The entry [record] adds the reading to. *)
Definition target (c : SustainedConfig) (es : gmap Z sustainedEntry) (p : ProcObs) : option sustainedEntry :=
  match es !! PID p with
  | Some e => Some e
  | None => if fge (CPU p) (SCPUPct c) then Some {| name := Name p; started := Started p; points := []; since := zero_time;
                                    lastGood := zero_time; adopt := false |} else None
  end.
Definition recorded (c : SustainedConfig) (at' : time) (p : ProcObs) (e : sustainedEntry) : sustainedEntry :=
  let ps := if staleHistory c e at' then [] else points e in
  {| name := name e; started := started e;
     points := trimPoints (ps ++ [{| at_ := at'; above := fge (CPU p) (SCPUPct c); cpu := CPU p |}]) (Add_ at' (- Window c));
     since := since e; lastGood := at'; adopt := adopt e |}.
Lemma record_lookup c at' es p pid e :
  record c at' es p !! pid = Some e →
  (pid ≠ PID p ∧ es !! pid = Some e) ∨
  (pid = PID p ∧ ∃ e0, target c es p = Some e0 ∧ e = recorded c at' p e0).
Proof.
  unfold record. fold (target c es p). destruct (target c es p) as [e0|] eqn:Et.
  - cbv zeta. destruct (decide (pid = PID p)) as [->|Hne].
    + destruct (_ && _); [by rewrite lookup_delete_eq|]. rewrite lookup_insert_eq. intros [= <-].
      right. split; [done|]. by exists e0.
    + destruct (_ && _); [rewrite lookup_delete_ne by done|rewrite lookup_insert_ne by done]; by left.
  - intros He. destruct (decide (pid = PID p)) as [->|Hne]; [|by left].
    unfold target in Et. rewrite He in Et. done.
Qed.

(** A finding describes an entry that fires. *)
Lemma evalEntry_finding c now pid e f :
  (evalEntry c now pid e).2 = Some f →
  ∃ e', (evalEntry c now pid e).1 = Some e' ∧ IsZero (since e') = false ∧
    FPID f = pid ∧ FStarted f = started e' ∧ Since f = since e'.
Proof.
  unfold evalEntry. destruct (_ <=? Sub now _); [done|]. cbv zeta. cbn [points with_points].
  destruct (trimPoints _ _) as [|p0 ps']; [done|]. destruct (inWindow _ _) as [|q0 ins']; [done|].
  destruct (summarize _) as [frac avg]. set (s := if _ : bool then at_ q0 else _).
  destruct (IsZero s) eqn:Ez; [done|]. cbn [fst snd]. intros [= <-]. eexists. split; [done|]. done.
Qed.

(** *** A process under load is reported *)

Abbreviation by_time := (StronglySorted (λ p q : cpuPoint, at_ p <= at_ q)).

(** What trimming drops of sorted readings is old, and if it drops anything an
    old reading stays in front. *)
Definition split_at (cutoff : time) (A P : list cpuPoint) : Prop :=
  ∃ pre, A = pre ++ P ∧ Forall (λ p, at_ p < cutoff) pre ∧ (pre = [] ∨ ∃ q rest, P = q :: rest ∧ at_ q < cutoff).

Lemma trimPoints_cons2 p q ps cutoff :
  trimPoints (p :: q :: ps) cutoff = if at_ q <? cutoff then trimPoints (q :: ps) cutoff else p :: q :: ps.
Proof. done. Qed.
Lemma trimPoints_split cutoff A : by_time A → split_at cutoff A (trimPoints A cutoff).
Proof.
  induction 1 as [|p A Hs IH Hp]; [by exists []; auto|]. destruct A as [|q A]; [by exists []; auto|].
  rewrite trimPoints_cons2. destruct (Z.ltb_spec (at_ q) cutoff) as [Hq|_]; [|by exists []; auto].
  destruct IH as (pre & HA & Hpre & Hh). apply Forall_cons in Hp as [Hpq _]. exists (p :: pre).
  split_and!; [cbn [app]; by rewrite <-HA|constructor; [lia|done]|].
  right. destruct Hh as [-> |Hh]; [|done]. cbn [app] in HA. rewrite <-HA. by exists q, A.
Qed.
Lemma split_at_mono c1 c2 A P : c1 <= c2 → split_at c1 A P → split_at c2 A P.
Proof.
  intros Hc (pre & -> & Hf & Hh). exists pre. split_and!; [done| |].
  - eapply Forall_impl; [exact Hf|]. simpl. lia.
  - destruct Hh as [|(q & rest & -> & Hq)]; [by left|right]. exists q, rest. split; [done|lia].
Qed.
Lemma split_at_trans cutoff A P Q : split_at cutoff A P → split_at cutoff P Q → split_at cutoff A Q.
Proof.
  intros (pre & -> & Hf & Hh) (pre' & -> & Hf' & Hh'). exists (pre ++ pre'). rewrite app_assoc.
  split_and!; [done|by apply Forall_app|]. destruct Hh' as [-> |?]; [|by right]. rewrite app_nil_r. done.
Qed.
Lemma split_at_snoc cutoff A P p : split_at cutoff A P → split_at cutoff (A ++ [p]) (P ++ [p]).
Proof.
  intros (pre & -> & Hf & Hh). exists pre. rewrite app_assoc. split_and!; [done..|].
  destruct Hh as [|(q & rest & -> & Hq)]; [by left|right]. by exists q, (rest ++ [p]).
Qed.
Lemma filter_old cutoff (A : list cpuPoint) : Forall (λ p, at_ p < cutoff) A → filter (λ p, cutoff <= at_ p) A = [].
Proof. induction 1 as [|p A Hp Hf IH]; [done|]. rewrite filter_cons_False by lia. done. Qed.
Lemma filter_fresh cutoff (A : list cpuPoint) : Forall (λ p, cutoff <= at_ p) A → filter (λ p, cutoff <= at_ p) A = A.
Proof. induction 1 as [|p A Hp Hf IH]; [done|]. rewrite filter_cons_True by done. by rewrite IH. Qed.
(** The readings in the window are all those since the cutoff. *)
Lemma inWindow_filter cutoff A P :
  by_time A → split_at cutoff A P → inWindow (trimPoints P cutoff) cutoff = filter (λ p, cutoff <= at_ p) A.
Proof.
  intros Hs HP. assert (by_time P) as HsP.
  { destruct HP as (pre & -> & _). by apply StronglySorted_app_1_r in Hs. }
  pose proof (split_at_trans _ _ _ _ HP (trimPoints_split cutoff P HsP)) as (pre & HA & Hf & _).
  pose proof (inWindow_spec P cutoff HsP) as Hin. set (T := trimPoints P cutoff) in *.
  rewrite HA, filter_app, (filter_old _ _ Hf). simpl. destruct T as [|q T]; [done|].
  cbn [inWindow] in *. unfold Before in *. destruct (Z.ltb_spec (at_ q) cutoff).
  - rewrite filter_cons_False by lia. by rewrite filter_fresh.
  - by rewrite filter_fresh.
Qed.

(** *** Episodes: what justifies a report *)

Lemma Sorted_snoc {A} (rel : A → A → Prop) l y : Sorted rel l → (∀ x, last l = Some x → rel x y) → Sorted rel (l ++ [y]).
Proof.
  induction 1 as [|x l Hs IH Hhd]; intros Hl; [repeat constructor|]. destruct l as [|x' l].
  - repeat constructor. by apply Hl.
  - cbn [app] in *. constructor; [by apply IH|]. inversion_clear Hhd. by constructor.
Qed.
Lemma StronglySorted_filter {A} (rel : A → A → Prop) (P : A → Prop) `{∀ x, Decision (P x)} l :
  StronglySorted rel l → StronglySorted rel (filter P l).
Proof.
  induction 1 as [|x l Hs IH Hx]; [constructor|]. rewrite filter_cons. case_decide; [|done]. constructor; [done|].
  rewrite Forall_forall in Hx |- *. intros y [_ Hy]%list_elem_of_filter. auto.
Qed.
Lemma StronglySorted_map {A B} (f : A → B) (rel : B → B → Prop) l : StronglySorted (λ x y, rel (f x) (f y)) l → StronglySorted rel (f <$> l).
Proof. induction 1 as [|x l Hs IH Hx]; [constructor|]. rewrite fmap_cons. constructor; [done|]. by apply Forall_fmap. Qed.

Section Episodes.
Context `{Unicode} (c : SustainedConfig).

(** The sightings of processes in a history, in order. *)
Definition sightings (h : history) : list (time * ProcObs) := h ≫= λ s, (λ p, (s.1, p)) <$> s.2.
(** The sightings of [pid] that count, and the readings among them: all those
    with a usable CPU figure. *)
Definition watched (pid : Z) (x : time * ProcObs) : Prop := PID x.2 = pid ∧ Allowed c (Name x.2) = false.
Definition readings (pid : Z) (seg : list (time * ProcObs)) : list cpuPoint :=
  (λ x, {| at_ := x.1; above := fge (CPU x.2) (SCPUPct c); cpu := CPU x.2 |}) <$> filter (λ x, watched pid x ∧ Skip x.2 = false) seg.

(** A stretch of sightings in which [pid] is the process started at [st], without
    a step back in time, a suspend, or a hole in its readings. *)
Definition follows (t now : time) : Prop := t <= now ∧ Sub now t <= maxGap c.
Definition unbroken (p q : cpuPoint) : Prop := Interval c <= 0 ∨ Sub (at_ q) (at_ p) <= i64 (8 * Interval c).
Record episode (pid : Z) (st : time) (seg : list (time * ProcObs)) : Prop := {
  ep_start : Forall (λ x, watched pid x → sameStart st (Started x.2) = true) seg;
  ep_steady : Sorted (λ x y, follows x.1 y.1) seg;
  ep_unbroken : Sorted unbroken (readings pid seg) }.

(** The least number of readings above the threshold. *)
Definition least_above : Z := Z.max 3 (if Interval c <=? 0 then 0 else Z.quot (Z.quot (Window c) (i64 (4 * Interval c))) 2).
(** [justified h pid st since]: when some snapshot of the history had been seen, a
    stretch of sightings up to its end was an episode of the process; a reading
    of it was a window old, and of all its readings inside the window at least
    the minimum number and the configured fraction were above the threshold;
    [since] is the time of the first reading inside the window. *)
Definition justified (h : history) (pid : Z) (st since_ : time) : Prop :=
  ∃ h1 now procs h2 pre seg,
    h = h1 ++ (now, procs) :: h2 ∧ sightings (h1 ++ [(now, procs)]) = pre ++ seg ∧ episode pid st seg ∧
    (∃ q, q ∈ readings pid seg ∧ Window c <= Sub now (at_ q)) ∧
    let ins := filter (λ q, now - Window c <= at_ q) (readings pid seg) in
    let n := len (filter (λ q, above q = true) ins) in
    least_above <= n ∧ fge (fdiv (of_Z n) (of_Z (len ins))) (MinFraction c) = true ∧ at_ <$> head ins = Some since_.

(** An entry holds the readings of an episode that reaches the last sighting, but
    for those trimmed. *)
Record entry_ok (h : history) (o : list (time * ProcObs)) (reach : time → Prop) (now : time) (pid : Z) (e : sustainedEntry) : Prop := {
  eo_seg : ∃ pre seg, o = pre ++ seg ∧ episode pid (started e) seg ∧ (∀ x, last seg = Some x → reach x.1) ∧
    split_at (now - Window c) (readings pid seg) (points e);
  eo_since : IsZero (since e) = false → justified h pid (started e) (since e);
  eo_adopt : adopt e = false;
  eo_pid : 0 < pid }.
Definition entries_ok h o reach now (es : gmap Z sustainedEntry) : Prop := map_Forall (entry_ok h o reach now) es.

Lemma sightings_app h1 h2 : sightings (h1 ++ h2) = sightings h1 ++ sightings h2.
Proof. apply bind_app. Qed.
Lemma sightings_one now procs : sightings [(now, procs)] = (λ p, (now, p)) <$> procs.
Proof. unfold sightings. cbn. apply app_nil_r. Qed.
Lemma follows_refl now : follows now now.
Proof. unfold follows, Sub, maxGap, max_duration, sustainedMinGap, Minute, Second. split; [lia|]. destruct (Z.ltb_spec (5 * (60 * 10 ^ 9)) (MaxGap c)); lia. Qed.
Lemma least_above_eq : minAbovePoints c = least_above.
Proof. unfold minAbovePoints, least_above, capacity. destruct (_ <=? 0); [done|]. set (x := Z.quot (Z.quot _ _) 2). destruct (Z.ltb_spec 3 x); lia. Qed.

Lemma readings_app pid s1 s2 : readings pid (s1 ++ s2) = readings pid s1 ++ readings pid s2.
Proof. unfold readings. by rewrite filter_app, fmap_app. Qed.
Lemma readings_skip pid x : ¬ (watched pid x ∧ Skip x.2 = false) → readings pid [x] = [].
Proof. intros Hx. unfold readings. by rewrite filter_cons_False. Qed.
Lemma readings_sorted pid seg : Sorted (λ x y, follows x.1 y.1) seg → by_time (readings pid seg).
Proof.
  intros Hs. apply StronglySorted_map, StronglySorted_filter. cbn [at_]. apply Sorted_StronglySorted; [intros x y z ??; lia|].
  clear -Hs. induction Hs as [|x l Hs IH Hhd]; constructor; [done|]. destruct Hhd as [|y l [Hy _]]; by constructor.
Qed.
Lemma split_at_last cutoff A P : split_at cutoff A P → last A = last P.
Proof. intros (pre & -> & _ & [-> |(q & rest & -> & _)]); [done|]. rewrite last_app, last_cons. by destruct (last rest). Qed.

Lemma justified_mono h h' pid st s : justified h pid st s → justified (h ++ h') pid st s.
Proof.
  intros (h1 & now & procs & h2 & pre & seg & -> & ?). exists h1, now, procs, (h2 ++ h'), pre, seg. split; [|done].
  by rewrite <-app_assoc.
Qed.
Lemma entry_ok_mono h h' o (reach reach' : time → Prop) now now' pid e :
  (∀ t, reach t → reach' t) → now <= now' → entry_ok h o reach now pid e → entry_ok (h ++ h') o reach' now' pid e.
Proof.
  intros Hr Hn [(pre & seg & H1 & H2 & H3 & H4) Hs Ha Hp]. constructor; [|intros Hz; by apply justified_mono, Hs|done|done].
  exists pre, seg. split_and!; [done..|intros x Hx; by apply Hr, H3|]. eapply split_at_mono; [|done]. lia.
Qed.

(** *** Each step keeps the entries *)

Lemma resetAfterGap_ok h o reach reach' now now' es : entries_ok h o reach now es → entries_ok h o reach' now' (resetAfterGap es).
Proof.
  intros He pid e. unfold resetAfterGap. rewrite lookup_omap. intros (e' & He' & Hz)%bind_Some.
  destruct (He pid e' He') as [_ Hs Ha Hp]. destruct (IsZero (since e')) eqn:E; [done|]. injection Hz as <-.
  constructor; cbn; [|intros _; by apply Hs|done|done]. exists o, []. rewrite app_nil_r.
  split_and!; [done|by repeat constructor|done|]. exists []. auto.
Qed.
Lemma dropIfReused_ok h o reach now es p : entries_ok h o reach now es → entries_ok h o reach now (dropIfReused es p).
Proof.
  intros He. unfold dropIfReused. destruct (es !! PID p) as [e|] eqn:E; [|done].
  rewrite (eo_adopt _ _ _ _ _ _ (He _ _ E)). simpl. destruct (sameStart _ _); simpl; [done|]. by apply map_Forall_delete.
Qed.
Lemma dropIfReused_start h o reach now es p e :
  entries_ok h o reach now es → dropIfReused es p !! PID p = Some e → sameStart (started e) (Started p) = true.
Proof.
  intros He. unfold dropIfReused. destruct (es !! PID p) as [e'|] eqn:E; [|congruence].
  rewrite (eo_adopt _ _ _ _ _ _ (He _ _ E)). simpl. destruct (sameStart _ _) eqn:Es; simpl.
  - rewrite E. by intros [= <-].
  - by rewrite lookup_delete_eq.
Qed.

(** A sighting that gives no reading. *)
Lemma entry_ok_pass h o now p pid e :
  (watched pid (now, p) → sameStart (started e) (Started p) = true ∧ Skip p = true) →
  entry_ok h o (λ t, follows t now) now pid e → entry_ok h (o ++ [(now, p)]) (λ t, t = now) now pid e.
Proof.
  intros Hw [(pre & seg & -> & [E1 E2 E3] & Hl & Hsp) Hs Ha Hp]. constructor; [|done..].
  assert (readings pid (seg ++ [(now, p)]) = readings pid seg) as Hr.
  { rewrite readings_app, readings_skip, app_nil_r; [done|]. cbn. intros [Hx Hsk]. apply Hw in Hx as [_ Hx]. congruence. }
  exists pre, (seg ++ [(now, p)]). rewrite Hr, app_assoc. split_and!; [done| |intros x; rewrite last_snoc; by intros [= <-]|done].
  constructor; [|by apply Sorted_snoc|by rewrite Hr]. apply Forall_app. split; [done|]. constructor; [|done]. intros Hx. by apply Hw.
Qed.
(** A reading, added to an episode or beginning one. *)
Lemma episode_one pid st now p : (watched pid (now, p) → sameStart st (Started p) = true) → episode pid st [(now, p)].
Proof.
  intros Hst. constructor; [by repeat constructor|by repeat constructor|]. unfold readings. rewrite filter_cons. case_decide; by repeat constructor.
Qed.
Lemma entry_ok_read h o now p e :
  Allowed c (Name p) = false → Skip p = false → sameStart (started e) (Started p) = true →
  entry_ok h o (λ t, follows t now) now (PID p) e → entry_ok h (o ++ [(now, p)]) (λ t, t = now) now (PID p) (recorded c now p e).
Proof.
  intros Hal Hsk Hst [(pre & seg & -> & [E1 E2 E3] & Hl & Hsp) Hs Ha Hp]. constructor; [|done..].
  set (pt := {| at_ := now; above := fge (CPU p) (SCPUPct c); cpu := CPU p |}).
  assert (readings (PID p) [(now, p)] = [pt]) as Hr.
  { unfold readings. rewrite filter_cons_True; [done|]. cbn. done. }
  unfold recorded. cbn [started points]. fold pt. unfold Add_. fold (now - Window c). destruct (staleHistory c e now) eqn:Est.
  - exists (pre ++ seg), [(now, p)]. split_and!; [done|by apply episode_one|by intros x [= <-]|]. rewrite Hr. apply trimPoints_split. by repeat constructor.
  - exists pre, (seg ++ [(now, p)]). rewrite app_assoc. split_and!; [done| |intros x; rewrite last_snoc; by intros [= <-]|].
    + constructor; [apply Forall_app; split; [done|by repeat constructor]|by apply Sorted_snoc|]. rewrite readings_app, Hr. apply Sorted_snoc; [done|].
      intros q. rewrite (split_at_last _ _ _ Hsp). intros Hq. unfold staleHistory in Est. rewrite Hq in Est. unfold unbroken. cbn [at_].
      destruct (Z.leb_spec (Interval c) 0); [by left|right]. by apply Z.ltb_ge in Est.
    + rewrite readings_app, Hr. eapply split_at_trans; [by apply split_at_snoc|]. apply trimPoints_split.
      assert (by_time (readings (PID p) (seg ++ [(now, p)]))) as Hb by (by apply readings_sorted, Sorted_snoc).
      rewrite readings_app, Hr in Hb. destruct Hsp as (l & HA & _). rewrite HA, <-app_assoc in Hb. by apply StronglySorted_app_1_r in Hb.
Qed.

Lemma target_ok h o now es p e :
  entries_ok h o (λ t, follows t now) now es → 0 < PID p → (∀ e, es !! PID p = Some e → sameStart (started e) (Started p) = true) →
  target c es p = Some e → entry_ok h o (λ t, follows t now) now (PID p) e ∧ sameStart (started e) (Started p) = true.
Proof.
  intros He Hp Hst. unfold target. destruct (es !! PID p) as [e'|] eqn:E.
  - intros [= <-]. split; [by apply He|by apply Hst].
  - destruct (fge _ _); [|done]. intros [= <-]. split; [|apply sameStart_refl]. constructor; cbn; [|done..].
    exists o, []. rewrite app_nil_r. split_and!; [done|by repeat constructor|done|]. exists []. auto.
Qed.
Lemma observeStep_ok h o now es seen p :
  entries_ok h o (λ t, follows t now) now es → entries_ok h (o ++ [(now, p)]) (λ t, t = now) now (observeStep c now (es, seen) p).1.
Proof.
  intros He. unfold observeStep. destruct (Z.leb_spec (PID p) 0) as [Hp|Hp]; cbn [orb].
  { intros pid e Hpe. apply entry_ok_pass; [|by apply He]. intros [Heq _]. cbn in Heq. pose proof (eo_pid _ _ _ _ _ _ (He _ _ Hpe)). lia. }
  destruct (Allowed c (Name p)) eqn:Hal.
  { intros pid e Hpe. apply entry_ok_pass; [|by apply He]. intros [_ Heq]. cbn in Heq. congruence. }
  pose proof (dropIfReused_ok _ _ _ _ _ p He) as Hd. pose proof (λ e, dropIfReused_start _ _ _ _ _ p e He) as Hst. cbn [fst].
  set (es' := dropIfReused es p) in *. destruct (Skip p) eqn:Hsk.
  - intros pid e Hpe. apply entry_ok_pass; [|by apply Hd]. intros [<- _]. split; [by apply Hst|done].
  - intros pid e [[Hne Hl]|[-> (e0 & Ht & ->)]]%record_lookup.
    + apply entry_ok_pass; [|by apply Hd]. intros [Heq _]. cbn in Heq. congruence.
    + destruct (target_ok _ _ _ _ _ _ Hd Hp Hst Ht) as [H1 H2]. by apply entry_ok_read.
Qed.
Lemma observe_fold_ok h o now ps es seen :
  entries_ok h o (λ t, follows t now) now es → ps ≠ [] →
  entries_ok h (o ++ ((λ p, (now, p)) <$> ps)) (λ t, t = now) now (fold_left (observeStep c now) ps (es, seen)).1.
Proof.
  intros He. induction ps as [|p ps IH] using rev_ind; [done|]. intros _. rewrite fold_left_app, fmap_app, app_assoc. cbn [fold_left fmap list_fmap].
  assert (entries_ok h (o ++ ((λ p, (now, p)) <$> ps)) (λ t, follows t now) now (fold_left (observeStep c now) ps (es, seen)).1) as Hps.
  { destruct (decide (ps = [])) as [->|Hne]; [by rewrite app_nil_r|]. intros pid e Hpe. rewrite <-(app_nil_r h).
    eapply entry_ok_mono; [|reflexivity|by apply IH]. intros t ->. apply follows_refl. }
  destruct (fold_left (observeStep c now) ps (es, seen)) as [es' seen']. by apply observeStep_ok.
Qed.

Lemma evalEntry_ok h1 now procs pid e e' :
  let h := h1 ++ [(now, procs)] in entry_ok h (sightings h) (λ t, t = now) now pid e → (evalEntry c now pid e).1 = Some e' →
  entry_ok h (sightings h) (λ t, t = now) now pid e'.
Proof.
  intros h [(pre & seg & Ho & Hep & Hl & Hsp) Hs Ha Hp]. unfold evalEntry. destruct (_ <=? Sub now _); [done|]. cbv zeta. cbn [points with_points]. unfold Add_. fold (now - Window c).
  pose proof (readings_sorted pid seg (ep_steady _ _ _ Hep)) as Hb. rewrite (inWindow_filter _ _ _ Hb Hsp).
  assert (split_at (now - Window c) (readings pid seg) (trimPoints (points e) (now - Window c))) as Hsp'.
  { eapply split_at_trans; [exact Hsp|]. apply trimPoints_split. destruct Hsp as (l & HA & _). rewrite HA in Hb. by apply StronglySorted_app_1_r in Hb. }
  set (ps := trimPoints (points e) _) in *. set (ins := filter _ (readings pid seg)).
  assert (∀ s, (s = since e ∨ s = zero_time ∨ justified h pid (started e) s) →
    entry_ok h (sightings h) (λ t, t = now) now pid (with_since (with_points e ps) s)) as Hok.
  { intros s Hj. constructor; cbn; [by exists pre, seg| |done|done]. intros Hz. destruct Hj as [-> | [-> | ?]]; [by apply Hs|by vm_compute in Hz|done]. }
  assert (entry_ok h (sightings h) (λ t, t = now) now pid (with_points e ps)) as Hsame by (specialize (Hok (since e)); by destruct e; apply Hok; left).
  destruct ps as [|p0 ps'] eqn:Eps; [by intros [= <-]|]. destruct ins as [|q0 ins'] eqn:Eins; [by intros [= <-]|].
  cbn [since with_points]. destruct (summarize (q0 :: ins')) as [frac avg] eqn:Esum.
  intros Hres. set (s := if _ : bool then at_ q0 else _) in Hres.
  assert (e' = with_since (with_points e (p0 :: ps')) s) as -> by (destruct (IsZero s); by injection Hres as <-).
  apply Hok. subst s. destruct (_ && _) eqn:Efire; [right; right|destruct (negb _ && _ && _ && _); [right; left|left]; done].
  to_prop. rewrite least_above_eq in *. apply (f_equal fst) in Esum. change (fdiv (of_Z (countAbove (q0 :: ins'))) (of_Z (len (q0 :: ins'))) = frac) in Esum.
  exists h1, now, procs, [], pre, seg. split_and!; [done|done|done| |]; [exists p0; split; [|done]|].
  - destruct Hsp' as (l & -> & _). apply elem_of_app. right. by left.
  - cbv zeta. fold ins. rewrite Eins. fold (countAbove (q0 :: ins')). rewrite Esum. done.
Qed.
End Episodes.

(** [tracks c st A now e]: [A] holds all the readings since the entry began,
    each above the threshold, and the entry those since the window's anchor. *)
Record tracks (c : SustainedConfig) (st : time) (A : list cpuPoint) (now : time) (e : sustainedEntry) : Prop := {
  tk_start : started e = st;
  tk_adopt : adopt e = false;
  tk_sorted : by_time A;
  tk_above : Forall (λ p, above p = true ∧ zero_time < at_ p <= now) A;
  tk_split : split_at (now - Window c) A (points e) }.

Lemma tracks_recorded c st A before now p e :
  tracks c st A before e → before <= now → zero_time < now → fge (CPU p) (SCPUPct c) = true →
  (∀ q, last A = Some q → Interval c <= 0 ∨ Sub now (at_ q) <= i64 (8 * Interval c)) →
  tracks c st (A ++ [{| at_ := now; above := true; cpu := CPU p |}]) now (recorded c now p e).
Proof.
  intros [Hst Had Hs Ha Hsp] Hb Hz Hcpu Hstale.
  assert (staleHistory c e now = false) as Hfresh.
  { unfold staleHistory. destruct (last (points e)) as [q|] eqn:El; [|done].
    destruct Hsp as (pre & -> & _). rewrite last_app, El in Hstale. destruct (Hstale q eq_refl).
    - by destruct (Z.leb_spec (Interval c) 0); [|lia].
    - destruct (_ <=? 0); [done|]. apply Z.ltb_ge. lia. }
  unfold recorded. rewrite Hfresh, Hcpu. constructor; cbn [started adopt points]; try done.
  - apply snoc_sorted; [done|]. eapply Forall_impl; [exact Ha|]. cbn. lia.
  - apply Forall_app. split; [eapply Forall_impl; [exact Ha|]; cbn; naive_solver lia|]. constructor; [|done]. cbn. lia.
  - set (pt := {| at_ := now |}). unfold Add_. fold (now - Window c).
    eapply split_at_trans; [apply split_at_snoc; eapply split_at_mono; [|exact Hsp]; lia|].
    apply trimPoints_split, snoc_sorted.
    + destruct Hsp as (pre & -> & _). by apply StronglySorted_app_1_r in Hs.
    + destruct Hsp as (pre & -> & _). apply Forall_app in Ha as [_ Ha]. eapply Forall_impl; [exact Ha|]. cbn. lia.
Qed.

Lemma countAbove_all ps : Forall (λ p, above p = true) ps → countAbove ps = len ps.
Proof.
  intros Hf. unfold countAbove. f_equal. induction Hf as [|p ps Hp Hf IH]; [done|].
  rewrite filter_cons_True by done. by rewrite IH.
Qed.
Lemma lastBelow_above ps n : Forall (λ p, above p = true) ps → 0 < n → lastBelow ps n = false.
Proof.
  intros Hf Hn. unfold lastBelow. destruct (Z.ltb_spec (len ps) n); [done|].
  destruct (drop _ ps) as [|q qs] eqn:E.
  - apply (f_equal length) in E. rewrite length_drop in E. simpl in E. unfold len in *. lia.
  - apply (Forall_drop _ (Z.to_nat (len ps - n))) in Hf. rewrite E in Hf. apply Forall_cons in Hf as [Hq _].
    simpl. by rewrite Hq.
Qed.

Lemma evalEntry_tracks c st A now pid e :
  tracks c st A now e → lastGood e = now → 0 < Window c < 2 ^ 63 →
  (∃ q, last A = Some q ∧ at_ q = now) →
  ∃ e', (evalEntry c now pid e).1 = Some e' ∧ tracks c st A now e' ∧ lastGood e' = now ∧
    ∀ a A', A = a :: A' → Window c <= now - at_ a → len A < 2 ^ 53 → fge f1 (MinFraction c) = true →
    minAbovePoints c <= len (filter (λ p, now - Window c <= at_ p) A) →
    ∃ f, (evalEntry c now pid e).2 = Some f ∧ FPID f = pid ∧ FName f = name e ∧ FStarted f = st.
Proof.
  intros [Hst Had Hs Ha Hsp] Hlg HW (ql & Hlast & Hql). unfold evalEntry.
  rewrite Hlg. replace (Sub now now) with 0 by (unfold Sub, max_duration; lia).
  destruct (Z.leb_spec (Window c) 0); [lia|]. cbv zeta. cbn [points with_points]. unfold Add_. fold (now - Window c).
  pose proof (inWindow_filter _ _ _ Hs Hsp) as Hin. rewrite Hin.
  set (P := trimPoints (points e) (now - Window c)) in *.
  assert (split_at (now - Window c) A P) as HP.
  { eapply split_at_trans; [exact Hsp|]. apply trimPoints_split. destruct Hsp as (pre & -> & _).
    by apply StronglySorted_app_1_r in Hs. }
  set (I := filter _ A) in *.
  assert (Forall (λ p, above p = true ∧ zero_time < at_ p <= now) I) as HI.
  { apply Forall_forall. intros x [_ Hx]%list_elem_of_filter. rewrite Forall_forall in Ha. by apply Ha. }
  assert (ql ∈ I) as HqI by (apply list_elem_of_filter; split; [lia|by apply last_Some_elem_of]).
  destruct P as [|p0 P'] eqn:EP; [rewrite <-Hin in HqI; by apply elem_of_nil in HqI|].
  destruct I as [|q0 I'] eqn:EI; [by apply elem_of_nil in HqI|].
  destruct (summarize (q0 :: I')) as [frac avg] eqn:Esum. cbn [since with_points].
  assert (Forall (λ p, above p = true) (q0 :: I')) as HIa by (eapply Forall_impl; [exact HI|naive_solver]).
  rewrite (lastBelow_above _ 2 HIa) by lia. rewrite (countAbove_all _ HIa), !andb_false_r.
  set (s := if _ : bool then at_ q0 else since e).
  exists (with_since (with_points e (p0 :: P')) s). split; [by destruct (IsZero s)|]. split; [by constructor|].
  split; [done|]. intros a A' HA Hcov Hlen Hmf Hmin.
  assert (frac = f1) as ->.
  { apply (f_equal fst) in Esum. change (fdiv (of_Z (countAbove (q0 :: I'))) (of_Z (len (q0 :: I'))) = frac) in Esum.
    rewrite <-Esum, (countAbove_all _ HIa). apply fdiv_of_Z. split; [unfold len; simpl; lia|].
    rewrite <-EI. unfold I, len in *. pose proof (length_filter (λ p, now - Window c <= at_ p) A). lia. }
  assert (Window c <= Sub now (at_ p0)) as Hc0.
  { assert (Window c <= now - at_ p0); [|unfold Sub, max_duration; lia].
    destruct HP as (pre & HA' & _ & [-> |(? & ? & [= <- <-] & Hq)]); [|lia]. cbn [app] in HA'. congruence. }
  assert (IsZero s = false) as ->.
  { subst s. apply Z.leb_le in Hc0, Hmin. rewrite Hc0, Hmf, Hmin, !andb_true_r.
    destruct (IsZero (since e)) eqn:Ez; [|done]. apply Forall_cons in HI as [HI _]. unfold IsZero. apply Z.eqb_neq. lia. }
  eexists. split; [reflexivity|]. cbn. done.
Qed.

Lemma trimPoints_idem ps cutoff : trimPoints (trimPoints ps cutoff) cutoff = trimPoints ps cutoff.
Proof.
  induction ps as [|p ps IH]; [done|]. destruct ps as [|q ps]; [done|].
  rewrite trimPoints_cons2. destruct (at_ q <? cutoff) eqn:E; [done|]. by rewrite trimPoints_cons2, E.
Qed.
Lemma record_kept c st A now es p e :
  target c es p = Some e → tracks c st A now (recorded c now p e) → 0 < Window c →
  (∃ q, last A = Some q ∧ at_ q = now) → record c now es p !! PID p = Some (recorded c now p e).
Proof.
  intros Ht Htr HW (q & Hl & Hq). unfold record. fold (target c es p). rewrite Ht. cbv zeta. cbn [since].
  set (ps := trimPoints _ _). assert (inWindow ps (Add_ now (- Window c)) = filter (λ p, now - Window c <= at_ p) A) as ->.
  { rewrite <-(inWindow_filter (now - Window c) A (points (recorded c now p e))) by (apply Htr).
    unfold recorded. cbn [points]. rewrite trimPoints_idem. done. }
  assert (anyAbove (filter (λ p, now - Window c <= at_ p) A) = true) as ->; [|apply lookup_insert_eq].
  apply existsb_exists. exists q. assert (q ∈ A) as HqA by (by apply last_Some_elem_of). split.
  - apply list_elem_of_In, list_elem_of_filter. split; [lia|done].
  - pose proof (tk_above _ _ _ _ _ Htr) as Ha. rewrite Forall_forall in Ha. by apply Ha.
Qed.
Lemma dropIfReused_same c st A now es p e :
  es !! PID p = Some e → tracks c st A now e → sameStart st (Started p) = true → dropIfReused es p = es.
Proof. intros He [<- Had _ _ _] Hs. unfold dropIfReused. by rewrite He, Had, Hs. Qed.
Lemma dropIfReused_ne es p pid : PID p ≠ pid → dropIfReused es p !! pid = es !! pid.
Proof.
  intros Hne. unfold dropIfReused. destruct (es !! PID p); [|done].
  destruct (_ && _ && _); [by apply lookup_insert_ne|]. destruct (_ || _); [by apply lookup_delete_ne|done].
Qed.
Lemma record_ne c now es p pid : PID p ≠ pid → record c now es p !! pid = es !! pid.
Proof.
  intros Hne. unfold record. destruct (match es !! PID p with Some _ => _ | None => _ end); [|done]. cbv zeta.
  destruct (_ && _); [by apply lookup_delete_ne|by apply lookup_insert_ne].
Qed.

(** *** A firing process stays reported *)

Lemma lastBelow_last ps p n : last ps = Some p → above p = true → 0 < n → lastBelow ps n = false.
Proof.
  intros Hl Hp Hn. unfold lastBelow. destruct (Z.ltb_spec (len ps) n); [done|].
  apply last_Some in Hl as [l' ->]. rewrite drop_app_le, forallb_app; [simpl; by rewrite Hp, andb_false_r|].
  unfold len in *. rewrite length_app in *. simpl in *. lia.
Qed.
Lemma trimPoints_last ps cutoff : last (trimPoints ps cutoff) = last ps.
Proof.
  induction ps as [|p ps IH]; [done|]. destruct ps as [|q ps]; [done|].
  rewrite trimPoints_cons2. by destruct (at_ q <? cutoff).
Qed.
Lemma inWindow_last ps p cutoff : last ps = Some p → cutoff <= at_ p → last (inWindow ps cutoff) = Some p.
Proof.
  destruct ps as [|q ps]; [done|]. intros Hl Hp. simpl. unfold Before. destruct (Z.ltb_spec (at_ q) cutoff); [|done].
  destruct ps; [|done]. injection Hl as ->. lia.
Qed.

(** The snapshot shows the process the entry describes. *)
Definition same_process (e : sustainedEntry) (p : ProcObs) : Prop :=
  if adopt e then Base (Name p) = Base (name e) ∧ (started e = zero_time ∨ sameStart (started e) (Started p) = true)
  else sameStart (started e) (Started p) = true.

Lemma dropIfReused_keeps es p e :
  es !! PID p = Some e → same_process e p →
  ∃ e', dropIfReused es p !! PID p = Some e' ∧ since e' = since e ∧ name e' = name e ∧
    started e' = (if adopt e then Started p else started e).
Proof.
  unfold same_process, dropIfReused. intros He Hs. rewrite He. destruct (adopt e) eqn:Ea; simpl.
  - destruct Hs as [Hb Hs]. rewrite bool_decide_true by done.
    assert (IsZero (started e) || sameStart (started e) (Started p) = true) as ->.
    { destruct Hs as [-> | ->]; [done|apply orb_true_r]. }
    cbn [andb]. rewrite lookup_insert_eq. eauto.
  - rewrite Hs. simpl. rewrite He. eauto.
Qed.
Lemma record_firing c now es p e :
  es !! PID p = Some e → fge (CPU p) (SCPUPct c) = true → 0 < Window c →
  record c now es p !! PID p = Some (recorded c now p e) ∧
  let in_ := inWindow (points (recorded c now p e)) (now - Window c) in ∃ q, last in_ = Some q ∧ above q = true.
Proof.
  intros He Hcpu HW. unfold record. fold (target c es p). assert (target c es p = Some e) as -> by (unfold target; by rewrite He).
  cbv zeta. cbn [since]. assert (∃ q, last (inWindow (points (recorded c now p e)) (now - Window c)) = Some q ∧ above q = true) as Hq.
  { eexists. split; [apply inWindow_last; [unfold recorded; cbn [points]; rewrite trimPoints_last; apply last_snoc|cbn [at_]; lia]|done]. }
  split; [|done]. destruct Hq as (q & Hq & Ha). unfold recorded in Hq. cbn [points] in Hq. unfold Add_. fold (now - Window c).
  unfold Add_ in Hq. fold (now - Window c) in Hq.
  assert (anyAbove (inWindow (trimPoints ((if staleHistory c e now then [] else points e) ++
    [{| at_ := now; above := fge (CPU p) (SCPUPct c); cpu := CPU p |}]) (now - Window c)) (now - Window c)) = true) as ->.
  { apply existsb_exists. exists q. split; [|done]. by apply list_elem_of_In, last_Some_elem_of. }
  simpl. apply lookup_insert_eq.
Qed.
Lemma evalEntry_firing c now pid e q :
  IsZero (since e) = false → lastGood e = now → 0 < Window c →
  last (inWindow (trimPoints (points e) (now - Window c)) (now - Window c)) = Some q → above q = true →
  ∃ f, (evalEntry c now pid e).2 = Some f ∧ FPID f = pid ∧ Since f = since e ∧ FName f = name e ∧ FStarted f = started e.
Proof.
  intros Hz Hlg HW Hq Ha. unfold evalEntry. rewrite Hlg. replace (Sub now now) with 0 by (unfold Sub, max_duration; lia).
  destruct (Z.leb_spec (Window c) 0); [lia|]. cbv zeta. cbn [points with_points]. unfold Add_. fold (now - Window c).
  destruct (trimPoints _ _) as [|p0 P']; [done|]. rewrite (lastBelow_last _ q 2 Hq Ha) by lia.
  destruct (inWindow _ _) as [|q0 I']; [done|]. destruct (summarize _) as [frac avg].
  rewrite !andb_false_r. cbn [since with_points]. rewrite Hz. cbn [andb]. cbv iota. rewrite Hz.
  eexists. split; [reflexivity|]. done.
Qed.

(** *** Owner chains *)

Definition link (p : ProcObs) : ChainLink := {| LPID := PID p; LName := Base (Name p) |}.

(** [walk table cur ps]: [ps] are the table's processes from [cur] upwards. *)
Fixpoint walk (table : gmap Z ProcObs) (cur : Z) (ps : list ProcObs) : Prop :=
  match ps with
  | [] => True
  | p :: ps => table !! cur = Some p ∧ (ps ≠ [] → 0 < PPID p) ∧ walk table (PPID p) ps
  end.
(** The table keys of such a walk, and where it would go on. *)
Fixpoint visited (cur : Z) (ps : list ProcObs) : list Z :=
  match ps with [] => [] | p :: ps => cur :: visited (PPID p) ps end.
Definition next (cur : Z) (ps : list ProcObs) : Z := match last ps with Some p => PPID p | None => cur end.

Lemma next_cons cur p ps : next cur (p :: ps) = next (PPID p) ps.
Proof. unfold next. rewrite last_cons. by destruct (last ps). Qed.

(** The links added by the loop, and why it stopped. *)
Definition chain_ok (table : gmap Z ProcObs) (cur d : Z) (seen : gset Z) (rv out : list ChainLink) : Prop :=
  ∃ ps, out = rv ++ map link ps ∧ walk table cur ps ∧
    NoDup (visited cur ps) ∧ (∀ x, x ∈ visited cur ps → x ∉ seen) ∧ (len rv <= d + 1 → len rv + len ps <= d + 1) ∧
    (d < len rv + len ps ∨ (ps ≠ [] ∧ next cur ps <= 0) ∨ table !! next cur ps = None ∨
     next cur ps ∈ seen ∨ next cur ps ∈ visited cur ps).
Lemma chain_stop table cur d seen rv :
  d < len rv ∨ table !! cur = None ∨ cur ∈ seen → chain_ok table cur d seen rv rv.
Proof.
  intros Hs. exists []. rewrite app_nil_r. split_and!; try done; [constructor|set_solver|rewrite len_nil; lia|].
  rewrite len_nil. unfold next. simpl. destruct Hs as [|[|]]; [left; lia|tauto..].
Qed.
Lemma chainLoop_spec fuel table cur d seen rv :
  d + 1 - len rv < Z.of_nat fuel → chain_ok table cur d seen rv (chainLoop fuel table cur d seen rv).
Proof.
  revert cur seen rv. induction fuel as [|fuel IH]; intros cur seen rv Hf; cbn [chainLoop]; [apply chain_stop; left; lia|].
  destruct (Z.leb_spec (len rv) d) as [Hd|Hd]; cbn [negb orb]; [|apply chain_stop; left; lia].
  destruct (bool_decide_reflect (cur ∈ seen)) as [Hin|Hin]; [apply chain_stop; tauto|].
  destruct (table !! cur) as [p|] eqn:Ep; [|apply chain_stop; tauto].
  destruct (Z.leb_spec (PPID p) 0) as [Hp|Hp].
  { exists [p]. cbn [walk visited map]. split_and!; try done; [apply NoDup_singleton|set_solver|rewrite len_cons, len_nil; lia|].
    right; left. unfold next. done. }
  destruct (IH (PPID p) ({[cur]} ∪ seen) (rv ++ [link p])) as (ps & Heq & Hw & Hn & Hs & Hl & Hst).
  { rewrite len_app, len_cons, len_nil. lia. }
  exists (p :: ps). unfold link at 1 in Heq. rewrite Heq, <-app_assoc. cbn [walk visited map app].
  rewrite len_app, !len_cons, len_nil in *. split_and!; try done.
  - constructor; [|done]. intros Hc. apply Hs in Hc. set_solver.
  - intros x [-> |Hx]%elem_of_cons; [done|]. apply Hs in Hx. set_solver.
  - lia.
  - rewrite next_cons. destruct Hst as [?|[[_ ?]|[?|[Hst|?]]]]; [left; lia| |tauto| |].
    + right; left. done.
    + apply elem_of_union in Hst as [->%elem_of_singleton|?]; [|tauto]. do 4 right. by left.
    + do 4 right. by right.
Qed.

Section Runs.
Context {R : GoRuntime} {HR : RuntimeOk R} `{Unicode}.

(** The invariant of a tracker that observed the history [h]. *)
Record tracker_ok (c : SustainedConfig) (h : history) (t : SustainedTracker) : Prop := {
  to_cfg : cfg t = c;
  to_entries : entries_ok c h (sightings h) (λ t', t' = last_ t) (last_ t) (entries t);
  to_last : last_ t = zero_time → entries t = ∅ }.

Lemma gap_ok c h t now : tracker_ok c h t →
  entries_ok c h (sightings h) (λ t', follows c t' now) now
    (if negb (IsZero (last_ t)) && ((maxGap (cfg t) <? Sub now (last_ t)) || Before now (last_ t)) then resetAfterGap (entries t) else entries t).
Proof.
  intros [<- He Hl]. destruct (IsZero (last_ t)) eqn:Ez; cbn [negb andb]; [apply Z.eqb_eq, Hl in Ez; rewrite Ez; apply map_Forall_empty|].
  destruct (_ || Before now (last_ t)) eqn:Eg; [by eapply resetAfterGap_ok|]. to_prop. unfold Before in *. to_prop.
  intros pid e Hpe. rewrite <-(app_nil_r h). eapply entry_ok_mono; [| |by rewrite app_nil_r; apply He]; [|lia].
  intros t' ->. unfold follows. lia.
Qed.
Lemma Observe_ok c h t now procs :
  tracker_ok c h t → zero_time < now →
  tracker_ok c (h ++ [(now, procs)]) (Observe t now procs).1 ∧
  ∀ f, f ∈ (Observe t now procs).2 → justified c (h ++ [(now, procs)]) (FPID f) (FStarted f) (Since f).
Proof.
  intros Ht Hnow. pose proof (gap_ok c h t now Ht) as Hes. destruct Ht as [<- _ _]. set (c := cfg t) in *. set (h' := h ++ [(now, procs)]). unfold Observe, evaluate.
  set (es := if _ : bool then resetAfterGap _ else _) in *.
  assert (let '(es1, seen) := fold_left (observeStep c now) procs (es, ∅) in
    entries_ok c h' (sightings h') (λ t, t = now) now (filter (λ '(pid, _), pid ∈ seen) es1)) as Hf.
  { destruct (decide (procs = [])) as [->|Hne].
    - cbn [fold_left]. intros pid e [_ Hin]%map_lookup_filter_Some. set_solver.
    - pose proof (observe_fold_ok c h (sightings h) now procs es ∅ Hes Hne) as Hok. destruct (fold_left _ procs _) as [es1 seen].
      intros pid e [Hpe _]%map_lookup_filter_Some. unfold h' at 2. rewrite sightings_app, sightings_one.
      eapply entry_ok_mono; [|reflexivity|by apply Hok]. done. }
  destruct (fold_left _ procs (es, ∅)) as [es1 seen]. cbn [fst snd]. split.
  - constructor; cbn; [done| |intros Hz; unfold zero_time in *; lia].
    intros pid e. rewrite map_lookup_imap. intros (e0 & He0 & Hev)%bind_Some. by eapply evalEntry_ok; [apply Hf|].
  - intros f. rewrite elem_of_sort, list_elem_of_omap. intros ([pid e] & Hpe%elem_of_entries & Hev).
    apply evalEntry_finding in Hev as (e' & He' & Hz & -> & -> & ->).
    eapply evalEntry_ok in He'; [|by apply Hf]. by apply (eo_since _ _ _ _ _ _ _ He').
Qed.

(** The other processes of a snapshot leave the entry alone. *)
Lemma observe_others c now pid l es seen :
  Forall (λ q, PID q ≠ pid) l →
  (fold_left (observeStep c now) l (es, seen)).1 !! pid = es !! pid ∧
  (pid ∈ seen → pid ∈ (fold_left (observeStep c now) l (es, seen)).2).
Proof.
  intros Hf. revert es seen. induction Hf as [|q l Hq Hf IH]; intros es seen; [done|]. cbn [fold_left].
  unfold observeStep at 2 4. destruct (_ || _); [apply IH|].
  destruct (IH (if Skip q then dropIfReused es q else record c now (dropIfReused es q) q) ({[PID q]} ∪ seen)) as [IH1 IH2].
  split; [|set_solver]. rewrite IH1. destruct (Skip q); rewrite ?record_ne by done; by apply dropIfReused_ne.
Qed.
Lemma filter_single {A} (P : A → Prop) `{∀ x, Decision (P x)} l p :
  filter P l = [p] → ∃ l1 l2, l = l1 ++ p :: l2 ∧ Forall (λ q, ¬ P q) l1 ∧ Forall (λ q, ¬ P q) l2 ∧ P p.
Proof.
  induction l as [|q l IH]; [done|]. rewrite filter_cons. case_decide as Hq.
  - intros [= -> Hn]. exists [], l. split_and!; [done..| |done].
    apply Forall_forall. intros x Hx HP. assert (x ∈ filter P l) as Hf by (by apply list_elem_of_filter).
    rewrite Hn in Hf. by apply elem_of_nil in Hf.
  - intros (l1 & l2 & -> & ? & ? & ?)%IH. exists (q :: l1), l2. split_and!; [done| |done..]. by constructor.
Qed.

(** A snapshot with exactly one usable reading of the process, above the
    threshold. *)
Definition loaded (c : SustainedConfig) (pid : Z) (st : time) (s : time * list ProcObs) : Prop :=
  zero_time < s.1 ∧ ∃ p, filter (λ q, PID q = pid) s.2 = [p] ∧ Skip p = false ∧ Allowed c (Name p) = false ∧
    fge (CPU p) (SCPUPct c) = true ∧ sameStart st (Started p) = true.

(** Snapshots close enough that neither a suspend nor a stale history breaks
    the load. *)
Definition steady (c : SustainedConfig) (t t' : time) : Prop :=
  t <= t' ∧ Sub t' t <= maxGap c ∧ (Interval c <= 0 ∨ Sub t' t <= i64 (8 * Interval c)).

Lemma observe_fold_one c now procs es p :
  filter (λ q, PID q = PID p) procs = [p] → 0 < PID p → Skip p = false → Allowed c (Name p) = false →
  ∃ es1 seen, fold_left (observeStep c now) procs (es, ∅) = (es1, seen) ∧ PID p ∈ seen ∧
    ∃ es0, es0 !! PID p = es !! PID p ∧ es1 !! PID p = record c now (dropIfReused es0 p) p !! PID p.
Proof.
  intros (l1 & l2 & -> & H1 & H2 & _)%filter_single Hpid Hskip Hall. rewrite fold_left_app. cbn [fold_left].
  pose proof (observe_others c now (PID p) l1 es ∅ H1) as [Hl1 _].
  destruct (fold_left _ l1 _) as [es0 s0]. cbn [fst] in Hl1. unfold observeStep at 2. rewrite Hall, Hskip, orb_false_r.
  destruct (Z.leb_spec (PID p) 0); [lia|].
  pose proof (observe_others c now (PID p) l2 (record c now (dropIfReused es0 p) p) ({[PID p]} ∪ s0) H2) as [Hl2 Hs2].
  destruct (fold_left _ l2 _) as [es1 s1]. cbn [fst snd] in *. exists es1, s1. split; [done|]. split; [set_solver|].
  by exists es0.
Qed.

(** Readings that make an entry fire: they cover the window, and enough of
    them lie in it. *)
Definition enough (c : SustainedConfig) (ts : list time) (now : time) : Prop :=
  ∃ t0, head ts = Some t0 ∧ Window c <= now - t0 ∧ len ts < 2 ^ 53 ∧
    minAbovePoints c <= len (filter (λ t, now - Window c <= t) ts).

Lemma length_filter_times k A : length (filter (λ t, k <= t) (at_ <$> A)) = length (filter (λ p, k <= at_ p) A).
Proof.
  induction A as [|a A IH]; [done|]. rewrite fmap_cons, !filter_cons. case_decide; cbn [length]; [f_equal|]; exact IH.
Qed.
Lemma enough_points c A now :
  enough c (at_ <$> A) now → ∃ a A', A = a :: A' ∧ Window c <= now - at_ a ∧ len A < 2 ^ 53 ∧
    minAbovePoints c <= len (filter (λ p, now - Window c <= at_ p) A).
Proof.
  intros (t0 & Hh & HW & Hl & Hm). destruct A as [|a A]; [done|]. injection Hh as <-. exists a, A. split_and!; [done..| |].
  - unfold len in *. by rewrite length_fmap in Hl.
  - unfold len in *. by rewrite length_filter_times in Hm.
Qed.

Section Load.
Context (c : SustainedConfig).
Hypothesis (HW : 0 < Window c < 2 ^ 63) (Hmf : fge f1 (MinFraction c) = true).

(** One loaded snapshot: [e0] is the entry its reading is added to. *)
Lemma Observe_tracks t now procs p st A before e0 :
  cfg t = c → filter (λ q, PID q = PID p) procs = [p] → 0 < PID p → Skip p = false → Allowed c (Name p) = false →
  fge (CPU p) (SCPUPct c) = true → zero_time < now → before <= now →
  (∀ es0, es0 !! PID p = (if negb (IsZero (last_ t)) && ((maxGap (cfg t) <? Sub now (last_ t)) || Before now (last_ t))
     then resetAfterGap (entries t) else entries t) !! PID p → target c (dropIfReused es0 p) p = Some e0) →
  tracks c st A before e0 →
  (∀ q, last A = Some q → Interval c <= 0 ∨ Sub now (at_ q) <= i64 (8 * Interval c)) →
  let A' := A ++ [{| at_ := now; above := true; cpu := CPU p |}] in
  let '(t', fs) := Observe t now procs in
  cfg t' = c ∧ last_ t' = now ∧ (∃ e', entries t' !! PID p = Some e' ∧ tracks c st A' now e') ∧
  (enough c (at_ <$> A') now → ∃ f, f ∈ fs ∧ FPID f = PID p ∧ FStarted f = st).
Proof.
  intros Hc Hone Hpid Hskip Hall Hcpu Hz Hb Ht Htr Hst A'. unfold Observe, evaluate. rewrite Hc in *.
  set (es := if _ : bool then resetAfterGap _ else _) in *.
  destruct (observe_fold_one c now procs es p) as (es1 & seen & -> & Hseen & es0 & Hes0 & Hes1); [done..|].
  pose proof (tracks_recorded c st A before now p e0 Htr Hb Hz Hcpu Hst) as Htr'. fold A' in Htr'.
  assert (∃ q, last A' = Some q ∧ at_ q = now) as Hlast by (unfold A'; rewrite last_snoc; eauto).
  rewrite (record_kept c st A' now _ p e0 (Ht _ Hes0) Htr') in Hes1 by (done || lia).
  destruct (evalEntry_tracks c st A' now (PID p) _ Htr' eq_refl HW Hlast) as (e' & Hev & Htr2 & _ & Hfire).
  assert (filter (λ '(pid, _), pid ∈ seen) es1 !! PID p = Some (recorded c now p e0)) as Hf
    by (by apply map_lookup_filter_Some).
  cbn [cfg last_ entries]. split_and!; [done..| |].
  - exists e'. split; [|done]. rewrite map_lookup_imap, Hf. exact Hev.
  - intros (a & A0 & HA & H1 & H2 & H3)%enough_points.
    destruct (Hfire a A0 HA H1 H2 Hmf H3) as (f & Hf2 & ? & _ & ?). exists f. split; [|done].
    apply elem_of_sort, list_elem_of_omap. exists (PID p, recorded c now p e0). split; [by apply elem_of_entries|done].
Qed.

(** The state of a tracker under load. *)
Definition under_load (t : SustainedTracker) (pid : Z) (st : time) (A : list cpuPoint) : Prop :=
  cfg t = c ∧ zero_time < last_ t ∧ last (at_ <$> A) = Some (last_ t) ∧
  ∃ e, entries t !! pid = Some e ∧ tracks c st A (last_ t) e.

Lemma Observe_first t now procs p :
  cfg t = c → entries t !! PID p = None → 0 < PID p → filter (λ q, PID q = PID p) procs = [p] →
  loaded c (PID p) (Started p) (now, procs) →
  let '(t', fs) := Observe t now procs in
  ∃ A, at_ <$> A = [now] ∧ under_load t' (PID p) (Started p) A.
Proof.
  intros Hc Hnone Hpid Hone (Hz & p' & Hone' & Hs & Hall & Hcpu & Hsame). cbn [fst snd] in *.
  rewrite Hone in Hone'. injection Hone' as <-.
  set (e0 := {| name := Name p; started := Started p; points := []; since := zero_time; lastGood := zero_time; adopt := false |}).
  pose proof (Observe_tracks t now procs p (Started p) [] now e0 Hc Hone Hpid Hs Hall Hcpu Hz (Z.le_refl _)) as HO.
  destruct (Observe t now procs) as [t' fs].
  destruct HO as (Hc' & Hl & (e' & He' & Htr) & _).
  - intros es0 Hes0. assert (es0 !! PID p = None) as Hn.
    { rewrite Hes0. destruct (_ && _); [|done]. unfold resetAfterGap. by rewrite lookup_omap, Hnone. }
    unfold target, dropIfReused. by rewrite Hn, Hn, Hcpu.
  - constructor; try done; [constructor..|]. by exists []; auto.
  - done.
  - eexists. split; [|split_and!; [done|by rewrite Hl| |exists e'; rewrite Hl; done]]; [done|]. by rewrite Hl.
Qed.

Lemma Observe_next t now procs pid st A :
  under_load t pid st A → 0 < pid → loaded c pid st (now, procs) → steady c (last_ t) now →
  let '(t', fs) := Observe t now procs in
  ∃ A', at_ <$> A' = (at_ <$> A) ++ [now] ∧ under_load t' pid st A' ∧
  (enough c (at_ <$> A') now → ∃ f, f ∈ fs ∧ FPID f = pid ∧ FStarted f = st).
Proof.
  intros (Hc & Hz0 & Hlast & e & He & Htr) Hpid (Hz & p & Hone & Hs & Hall & Hcpu & Hsame) (Hle & Hgap & Hstale). cbn [fst snd] in *.
  assert (PID p = pid) as <-.
  { assert (p ∈ filter (λ q, PID q = pid) procs) as Hp by (rewrite Hone; by left). by apply list_elem_of_filter in Hp as [? _]. }
  pose proof (Observe_tracks t now procs p st A (last_ t) e Hc Hone Hpid Hs Hall Hcpu Hz Hle) as HO.
  destruct (Observe t now procs) as [t' fs]. destruct HO as (Hc' & Hl & (e' & He' & Htr') & Hf).
  - intros es0 Hes0. rewrite Hc in Hes0. assert (es0 !! PID p = Some e) as Hn.
    { rewrite Hes0. unfold Before. destruct (Z.ltb_spec (maxGap c) (Sub now (last_ t))); [lia|].
      destruct (Z.ltb_spec now (last_ t)); [lia|]. by rewrite andb_false_r. }
    rewrite (dropIfReused_same c st A (last_ t) es0 p e) by done. unfold target. by rewrite Hn.
  - done.
  - intros q Hq. rewrite fmap_last, Hq in Hlast. injection Hlast as ->. done.
  - exists (A ++ [{| at_ := now; above := true; cpu := CPU p |}]). rewrite fmap_app. split; [reflexivity|].
    split; [|by rewrite fmap_app in Hf].
    split_and!; [done|by rewrite Hl|rewrite Hl, fmap_app; apply last_snoc|]. exists e'. by rewrite Hl.
Qed.
End Load.

(** The findings of a snapshot have different PIDs. *)
Lemma findings_keys c now m :
  NoDup (FPID <$> omap (λ '(pid, e), (evalEntry c now pid e).2) (map_entries m)).
Proof.
  apply (NoDup_omap_key _ fst); [apply entries_NoDup|].
  intros [pid e] f _ Hf. by apply evalEntry_finding in Hf as (_ & _ & _ & -> & _).
Qed.
Lemma sort_keys_strict (l : list SustainedFinding) :
  NoDup (FPID <$> l) → StronglySorted (λ a b, FPID a < FPID b) (sort_slice (λ a b, FPID a <? FPID b) l).
Proof.
  intros Hn. pose proof (sort_strongly_sorted _ l (strict_weak_key FPID _ strict_weak_Z)) as Hs.
  assert (NoDup (FPID <$> sort_slice (λ a b, FPID a <? FPID b) l)) as Hn' by (by rewrite sort_perm).
  induction Hs as [|a l' Hs IH Ha]; [constructor|]. rewrite fmap_cons in Hn'. apply NoDup_cons in Hn' as [Hna Hn'].
  constructor; [by apply IH|]. apply Forall_forall. intros b Hb. rewrite Forall_forall in Ha.
  specialize (Ha b Hb). apply Z.ltb_ge in Ha. assert (FPID a ≠ FPID b); [|lia].
  intros Heq. apply Hna. rewrite Heq. by apply list_elem_of_fmap_2.
Qed.

(** Feeding a sequence of snapshots: the tracker after them and the findings of
    the last. *)
Definition observeAll (t : SustainedTracker) (hs : list (time * list ProcObs)) : SustainedTracker * list SustainedFinding :=
  fold_left (λ st s, Observe st.1 s.1 s.2) hs (t, []).

Lemma Observe_last t now procs : last_ (Observe t now procs).1 = now.
Proof. unfold Observe. by destruct (fold_left _ procs _), (evaluate _ _ _). Qed.
Lemma observeAll_last hs t fs :
  last_ (fold_left (λ st s, Observe st.1 s.1 s.2) hs (t, fs)).1 = default (last_ t) (last (hs.*1)).
Proof.
  induction hs as [|[now procs] hs IH] using rev_ind; [done|]. rewrite fold_left_app, fmap_app. cbn [fold_left fst snd fmap list_fmap].
  rewrite last_snoc. apply Observe_last.
Qed.

Lemma observeAll_ok c t fs h hs :
  tracker_ok c h t → (∀ f, f ∈ fs → justified c h (FPID f) (FStarted f) (Since f)) → Forall (λ s, zero_time < s.1) hs →
  let r := fold_left (λ st s, Observe st.1 s.1 s.2) hs (t, fs) in
  tracker_ok c (h ++ hs) r.1 ∧ ∀ f, f ∈ r.2 → justified c (h ++ hs) (FPID f) (FStarted f) (Since f).
Proof.
  intros Ht Hfs Hf. revert h t fs Ht Hfs. induction Hf as [|[now procs] hs Hz Hf IH]; intros h t fs Ht Hfs; [by rewrite app_nil_r|].
  cbn [fold_left fst snd]. destruct (Observe_ok c h t now procs Ht Hz) as [Ht' Hfs'].
  destruct (Observe t now procs) as [t' fs']. rewrite cons_middle, app_assoc. by apply IH.
Qed.

Lemma observeAll_load c t fs pid st A hs :
  0 < Window c < 2 ^ 63 → fge f1 (MinFraction c) = true →
  under_load c t pid st A → 0 < pid → Forall (loaded c pid st) hs → Sorted (steady c) (last_ t :: hs.*1) → hs ≠ [] →
  let '(t', fs') := fold_left (λ st s, Observe st.1 s.1 s.2) hs (t, fs) in
  enough c ((at_ <$> A) ++ hs.*1) (last_ t') → ∃ f, f ∈ fs' ∧ FPID f = pid ∧ FStarted f = st.
Proof.
  intros HW Hmf HA Hpid Hl. revert t fs A HA. induction Hl as [|[now procs] hs Hl Hls IH]; intros t fs A HA Hs Hne; [done|].
  rewrite fmap_cons in Hs. apply Sorted_inv in Hs as [Hs Hhd]. inversion_clear Hhd as [|? ? Hst].
  pose proof (Observe_next c HW Hmf t now procs pid st A HA Hpid Hl Hst) as HN. cbn [fold_left fst snd].
  destruct (Observe t now procs) as [t' fs']. destruct HN as (A' & HA' & Hu & Hfire).
  assert (last_ t' = now) as Hlast.
  { destruct Hu as (_ & _ & Hla & _). rewrite HA', last_snoc in Hla. by injection Hla. }
  destruct hs as [|s hs].
  - cbn [fold_left fmap list_fmap]. cbn [fst] in *. rewrite Hlast, <-HA'. exact Hfire.
  - specialize (IH t' fs' A' Hu). rewrite Hlast, HA', <-app_assoc in IH. by apply IH.
Qed.
End Runs.
End SustainedFacts.

(** ** Properties *)

Section Properties.
Import Sustained SustainedFacts.


(** C38: a process that is not on the allowlist and that the tracker does not know
    yet, read above the threshold in every snapshot, is reported as soon as the snapshots cover the window
    and enough of them lie inside it, if no two consecutive snapshots are
    further apart than the suspend gap and the stale-history limit. *)
Theorem sustained_detects {R : GoRuntime} {HR : RuntimeOk R} `{Unicode} (c : SustainedConfig) (t : SustainedTracker)
    (p : ProcObs) (t0 : time) (procs : list ProcObs) (hs : history) (now : time) :
  cfg t = c → entries t !! PID p = None → 0 < PID p → filter (λ q, PID q = PID p) procs = [p] →
  Forall (loaded c (PID p) (Started p)) ((t0, procs) :: hs) → hs ≠ [] →
  Sorted (steady c) (t0 :: hs.*1) → last (hs.*1) = Some now →
  0 < Window c < 2 ^ 63 → fge f1 (MinFraction c) = true → enough c (t0 :: hs.*1) now →
  ∃ f, f ∈ (observeAll t ((t0, procs) :: hs)).2 ∧ FPID f = PID p ∧ FStarted f = Started p.
Proof.
  intros Hc Hnone Hpid Hone [Hl Hls]%Forall_cons Hne Hs Hlast HW Hmf He. unfold observeAll. cbn [fold_left fst snd].
  pose proof (Observe_first c HW Hmf t t0 procs p Hc Hnone Hpid Hone Hl) as HF.
  destruct (Observe t t0 procs) as [t' fs]. destruct HF as (A & HA & Hu).
  assert (last_ t' = t0) as Ht0 by (destruct Hu as (_ & _ & Hla & _); rewrite HA in Hla; by injection Hla).
  pose proof (observeAll_load c t' fs (PID p) (Started p) A hs HW Hmf Hu Hpid Hls) as HL. rewrite Ht0, HA in HL.
  pose proof (observeAll_last hs t' fs) as Hn. rewrite Hlast in Hn. destruct (fold_left _ hs _) as [t'' fs'].
  simpl in Hn. rewrite Hn in HL. by apply HL.
Qed.

(** A process that is reported stays reported under the same start of the
    load, also across a suspend or a restart that restored the report, as long
    as the snapshots show the same process above the threshold. *)
Theorem sustained_carried {R : GoRuntime} {HR : RuntimeOk R} `{Unicode} (t : SustainedTracker) (now : time)
    (procs : list ProcObs) (p : ProcObs) (e : sustainedEntry) :
  entries t !! PID p = Some e → since e ≠ zero_time → same_process e p →
  filter (λ q, PID q = PID p) procs = [p] → 0 < PID p → Skip p = false → Allowed (cfg t) (Name p) = false →
  fge (CPU p) (SCPUPct (cfg t)) = true → 0 < Window (cfg t) →
  ∃ f, f ∈ (Observe t now procs).2 ∧ FPID f = PID p ∧ Since f = since e ∧ FName f = name e ∧
    FStarted f = (if adopt e then Started p else started e).
Proof.
  intros He Hz Hsame Hone Hpid Hskip Hall Hcpu HW. unfold Observe, evaluate.
  set (es := if _ : bool then resetAfterGap _ else _).
  assert (∃ ps, es !! PID p = Some (with_points e ps)) as [ps Hes].
  { subst es. destruct (_ && _); [|exists (points e); by destruct e]. exists []. unfold resetAfterGap, IsZero.
    rewrite lookup_omap, He. simpl. by destruct (Z.eqb_spec (since e) zero_time). }
  destruct (observe_fold_one (cfg t) now procs es p) as (es1 & seen & -> & Hseen & es0 & Hes0 & Hes1); [done..|].
  rewrite Hes in Hes0. destruct (dropIfReused_keeps es0 p _ Hes0) as (e' & He' & Hs' & Hn' & Hst'); [done|].
  destruct (record_firing (cfg t) now _ p e' He' Hcpu HW) as [Hrec (q & Hq & Ha)]. rewrite Hrec in Hes1.
  destruct (evalEntry_firing (cfg t) now (PID p) (recorded (cfg t) now p e') q) as (f & Hf & ? & Hsi & Hnm & Hsta); try done.
  { unfold recorded, IsZero. cbn [since]. rewrite Hs'. by apply Z.eqb_neq. }
  { unfold recorded in *. cbn [points] in *. unfold Add_ in *. fold (now - Window (cfg t)) in *. by rewrite trimPoints_idem. }
  exists f. split; [|split_and!; [done|by rewrite Hsi|by rewrite Hnm|by rewrite Hsta]].
  apply elem_of_sort, list_elem_of_omap. exists (PID p, recorded (cfg t) now p e'). split; [|done].
  apply elem_of_entries. by apply map_lookup_filter_Some.
Qed.

(** The tracker and its findings do not depend on the order in which Go
    iterates over the entries nor on how it sorts. *)
Theorem sustained_runtime_independent (R1 R2 : GoRuntime) (H1 : RuntimeOk R1) (H2 : RuntimeOk R2) `{Unicode}
    (t : SustainedTracker) (now : time) (procs : list ProcObs) :
  Observe (R := R1) t now procs = Observe (R := R2) t now procs ∧
  StronglySorted (λ a b, FPID a < FPID b) (Observe (R := R1) t now procs).2.
Proof.
  unfold Observe. destruct (fold_left _ procs _) as [es seen]. unfold evaluate.
  set (m := filter _ es). set (g := λ '(pid, e), (evalEntry (cfg t) now pid e).2). cbn [snd].
  pose proof (findings_keys (R := R1) (cfg t) now m) as Hn. fold g in Hn.
  split; [f_equal|].
  - apply sort_slice_eq; [apply (strict_weak_key FPID), strict_weak_Z| |].
    + apply omap_Permutation. by rewrite !entries_perm.
    + intros a b Ha Hb Hab%Z.ltb_ge Hba%Z.ltb_ge. apply (NoDup_fmap_inj_in FPID _ a b Hn Ha Hb). lia.
  - by apply sort_keys_strict.
Qed.

(** The owner chain of a process is the walk over parent PIDs from the
    process, printed outermost first: it visits no PID twice, has at most
    [maxDepth] ancestors, and ends early only at a process without a parent,
    at a parent missing from the table, or at a cycle. *)
Theorem parent_chain_spec (table : gmap Z ProcObs) (pid maxDepth : Z) :
  ∃ ps, ParentChain table pid maxDepth = reverse (map link ps) ∧ walk table pid ps ∧ NoDup (visited pid ps) ∧
    (-1 <= maxDepth → len ps <= maxDepth + 1) ∧
    (maxDepth < len ps ∨ (ps ≠ [] ∧ next pid ps <= 0) ∨ table !! next pid ps = None ∨ next pid ps ∈ visited pid ps).
Proof.
  destruct (chainLoop_spec (Z.to_nat (maxDepth + 2)) table pid maxDepth ∅ []) as (ps & Heq & Hw & Hn & _ & Hl & Hst).
  { rewrite len_nil. lia. }
  exists ps. unfold ParentChain. rewrite Heq, len_nil in *. split_and!; try done; [lia|]. set_solver.
Qed.

(** [sameStart] is not symmetric: an unknown (zero) start time matches
    every later one, because the saturated difference has no positive
    counterpart, while a known start time never matches the unknown one. *)
Theorem same_start_zero_asymmetric (t : time) :
  0 <= t → sameStart zero_time t = true ∧ sameStart t zero_time = false.
Proof.
  intros Ht. assert (Sub zero_time t = - 2 ^ 63) as E1 by (unfold Sub, zero_time, max_duration; lia).
  assert (Sub t zero_time = max_duration) as E2 by (unfold Sub, zero_time, max_duration; lia).
  unfold sameStart. rewrite E1, E2. split; reflexivity.
Qed.
End Properties.

(** ** Concrete instances *)

Section Witnesses.
Import Sustained SustainedFacts.

Definition demo_proc : ProcObs :=
  {| PID := 42; PPID := 1; Name := "/usr/bin/busy"; CPU := of_Z 90; Started := 0; Skip := false |}.
Definition demo_init : ProcObs := {| PID := 1; PPID := 0; Name := "launchd"; CPU := f0; Started := 0; Skip := false |}.
Definition demo_snapshots : history :=
  [(Minute, [demo_init; demo_proc]); (6 * Minute, [demo_proc; demo_init]); (11 * Minute, [demo_proc]); (16 * Minute, [demo_init; demo_proc])].
Definition demo_finding : SustainedFinding :=
  {| FPID := 42; FName := "/usr/bin/busy"; FStarted := 0; Since := Minute; Duration := 15 * Minute; AvgCPU := of_Z 90; Fraction := f1 |}.
#[local] Existing Instance ascii_only.

Lemma demo_loaded : Forall (loaded DefaultSustainedConfig 42 0) demo_snapshots.
Proof. repeat constructor; exists demo_proc; split_and!; vm_compute; reflexivity. Qed.
Lemma demo_steady : Sorted (steady DefaultSustainedConfig) [Minute; 6 * Minute; 11 * Minute; 16 * Minute].
Proof.
  assert (∀ t, 0 <= t <= Hour → steady DefaultSustainedConfig t (t + 5 * Minute)) as Hs.
  { intros t Ht. unfold steady, Sub, maxGap, max_duration, sustainedMinGap, Minute, Hour, Second in *. simpl.
    split_and!; [lia..|by left]. }
  repeat apply Sorted_cons; repeat apply HdRel_cons; try apply Sorted_nil; try apply HdRel_nil; (apply Hs; by vm_compute).
Qed.
Lemma sustained_detects_witness :
  ∃ f, f ∈ (observeAll (R := go_runtime) (NewSustainedTracker DefaultSustainedConfig) demo_snapshots).2 ∧ FPID f = 42 ∧ FStarted f = 0.
Proof.
  apply (sustained_detects (R := go_runtime) DefaultSustainedConfig (NewSustainedTracker DefaultSustainedConfig) demo_proc Minute
    [demo_init; demo_proc] (tail demo_snapshots) (16 * Minute)).
  - reflexivity.
  - reflexivity.
  - reflexivity.
  - reflexivity.
  - exact demo_loaded.
  - discriminate.
  - exact demo_steady.
  - reflexivity.
  - split; reflexivity.
  - vm_compute. reflexivity.
  - exists Minute. split_and!; [reflexivity|vm_compute; discriminate|reflexivity|vm_compute; discriminate].
Defined.
Definition demo_seeded : SustainedTracker := Seed (NewSustainedTracker DefaultSustainedConfig) Minute 42 "busy" 7 0.
Lemma sustained_carried_witness :
  ∃ f, f ∈ (Observe (R := go_runtime) demo_seeded (2 * Hour) [demo_init; demo_proc]).2 ∧ FPID f = 42 ∧ Since f = 7 ∧
    FName f = "busy" ∧ FStarted f = 0.
Proof.
  apply (sustained_carried (R := go_runtime) demo_seeded (2 * Hour) [demo_init; demo_proc] demo_proc
    {| name := "busy"; started := 0; points := []; since := 7; lastGood := Minute; adopt := true |}).
  - reflexivity.
  - discriminate.
  - split; [reflexivity|right; reflexivity].
  - reflexivity.
  - reflexivity.
  - reflexivity.
  - vm_compute. reflexivity.
  - vm_compute. reflexivity.
  - reflexivity.
Defined.
Lemma sustained_runtime_independent_witness :
  Observe (R := go_runtime) demo_seeded Hour [demo_proc] = Observe (R := go_runtime_rev) demo_seeded Hour [demo_proc].
Proof. apply (sustained_runtime_independent go_runtime go_runtime_rev _ _ demo_seeded Hour [demo_proc]). Defined.
Lemma same_start_zero_asymmetric_witness : sameStart zero_time Hour = true ∧ sameStart Hour zero_time = false.
Proof. apply (same_start_zero_asymmetric Hour). discriminate. Defined.
End Witnesses.
