(* ===== verification/HostSpawn.v ===== *)
(** * Bursts of new processes

    Models [src/internal/hostwatch/spawn.go]: the [spawnTracker], the
    conditions on the spawn rate and the process limits, the attribution to
    parents and commands, and the part of the service that publishes the state
    and decides what is written to the store.  The operating system's process
    table is a parameter ([SpawnBackend]).  The theorems give the counts of a
    probe, the alert on the spawn rate over whole histories, the ranking of the
    parents, and the throttling of the writes. *)

From S2P Require Import Prelude GoStrings GoPath GoRuntime Float64 HostEngine HostEvaluate.
Import HostEngine.Idgen HostEngine.Engine.
Import HostEvaluate.Config.

Module Spawn.

Record SpawnProcess := { PID : Z; PPID : Z; PUID : Z; Comm : string }.

(** [SpawnBackend] without [List], whose result is an argument of the tick:
    the command line of a process, if it can be read, and the limits, both as
    they are throughout a run. *)
Class SpawnBackend := { BArgv : Z → option string; BLimits : Z * Z }.

(** [previous] is [None] for Go's nil map, before the first probe. *)
Record spawnTracker := {
  previous : option (gset Z); at_ : time; warnStreak : Z; probes : list SpawnState; argv : gmap Z string }.
Record spawnPersistItem := { state : SpawnState; events : list Event; sample : bool }.
Record spawnPersistRecord := { rec_at : time; rec_detail : string }.

Definition new_state (at' : time) (uid uidLimit totalLimit : Z) : SpawnState :=
  {| SpawnAt := at'; ProcsTotal := 0; ProcsUID := 0; UID := uid; UIDLimit := uidLimit; TotalLimit := totalLimit;
     Delta := 0; NewPerSec := f0; TopParents := []; TopCommands := [] |}.
Definition with_counts (s : SpawnState) (total uid delta : Z) (rate : f64) : SpawnState :=
  {| SpawnAt := SpawnAt s; ProcsTotal := total; ProcsUID := uid; UID := UID s; UIDLimit := UIDLimit s;
     TotalLimit := TotalLimit s; Delta := delta; NewPerSec := rate; TopParents := TopParents s; TopCommands := TopCommands s |}.
Definition with_top (s : SpawnState) (ps : list SpawnParent) (cs : list SpawnCommand) : SpawnState :=
  {| SpawnAt := SpawnAt s; ProcsTotal := ProcsTotal s; ProcsUID := ProcsUID s; UID := UID s; UIDLimit := UIDLimit s;
     TotalLimit := TotalLimit s; Delta := Delta s; NewPerSec := NewPerSec s; TopParents := ps; TopCommands := cs |}.
Definition with_argv (p : SpawnParent) (a : string) : SpawnParent :=
  {| ParentPID := ParentPID p; ParentComm := ParentComm p; ChildCount := ChildCount p; Argv := a |}.

(** The loop of [update]: the PIDs seen, [ProcsUID] and [Delta]. *)
Definition updateStep (prev : option (gset Z)) (uid : Z) (st : gset Z * Z * Z) (p : SpawnProcess) : gset Z * Z * Z :=
  let '(current, n, delta) := st in
  if PID p <=? 0 then st else
  ({[PID p]} ∪ current, if PUID p =? uid then n + 1 else n,
   match prev with
   | Some prev => if bool_decide (PID p ∈ prev) then delta else delta + 1
   | None => delta
   end).
Definition update (t : spawnTracker) (at' : time) (processes : list SpawnProcess) (uid uidLimit totalLimit : Z)
  : spawnTracker * SpawnState :=
  let '(current, n, delta) := fold_left (updateStep (previous t) uid) processes (∅, 0, 0) in
  let rate :=
    if bool_decide (previous t ≠ None) && After at' (at_ t)
    then fdiv (of_Z delta) (Seconds (Sub at' (at_ t))) else f0 in
  let s := with_counts (new_state at' uid uidLimit totalLimit) (Z.of_nat (size current)) n delta rate in
  let ps := probes t ++ [s] in
  ({| previous := Some current; at_ := at'; warnStreak := warnStreak t;
      probes := if 120 <? len ps then tail ps else ps; argv := argv t |}, s).

Definition spawnPctSeverity (count limit : Z) (warn critical : f64) : string :=
  if limit <=? 0 then "" else
  let pct := fdiv (fmul (of_Z 100) (of_Z count)) (of_Z limit) in
  if fge pct critical then "critical" else if fge pct warn then "warn" else "".

Definition condition (k s t : string) : Condition := {| CKey := k; CSeverity := s; CTitle := t; CDetail := "" |}.
Definition evaluateSpawn (cfg : Config) (t : spawnTracker) (s : SpawnState) : spawnTracker * list Condition :=
  let streak := if fge (NewPerSec s) (RateWarn (SpawnC cfg)) then warnStreak t + 1 else 0 in
  let t := {| previous := previous t; at_ := at_ t; warnStreak := streak; probes := probes t; argv := argv t |} in
  let out1 :=
    if fge (NewPerSec s) (RateCritical (SpawnC cfg)) then [condition "spawn.rate" "critical" "Process spawn rate is critical"]
    else if 2 <=? streak then [condition "spawn.rate" "warn" "Process spawn rate is high"] else [] in
  let sev2 := spawnPctSeverity (ProcsUID s) (UIDLimit s) (UIDWarnPct (SpawnC cfg)) (UIDCriticalPct (SpawnC cfg)) in
  let out2 := if decide (sev2 = "") then [] else [condition "procs.uid" sev2 "User process limit is near exhaustion"] in
  let sev3 := spawnPctSeverity (ProcsTotal s) (TotalLimit s) (TotalWarnPct (SpawnC cfg)) (TotalCriticalPct (SpawnC cfg)) in
  let out3 := if decide (sev3 = "") then [] else [condition "procs.total" sev3 "System process limit is near exhaustion"] in
  (t, out1 ++ out2 ++ out3).

Definition truncateRunes (value : string) (maxLen : Z) : string :=
  let r := runes value in
  if maxLen <? len r then string_of_runes (take (Z.to_nat maxLen) r) else value.

(** The loop of [attributeSpawn]: [byPID], [children] and [commands]. *)
Definition bump {K} `{Countable K} (m : gmap K Z) (k : K) : gmap K Z := <[k := default 0 (m !! k) + 1]> m.
Definition attributeStep (uid : Z) (st : gmap Z SpawnProcess * gmap Z Z * gmap string Z) (p : SpawnProcess)
  : gmap Z SpawnProcess * gmap Z Z * gmap string Z :=
  let '(byPID, children, commands) := st in
  let byPID := <[PID p := p]> byPID in
  if PUID p =? uid then (byPID, bump children (PPID p), bump commands (Comm p)) else (byPID, children, commands).

Definition parentLess (a b : SpawnParent) : bool :=
  (ChildCount b <? ChildCount a) || (ChildCount a =? ChildCount b) && (ParentPID a <? ParentPID b).
Definition commandLess (a b : SpawnCommand) : bool :=
  (CommandCount b <? CommandCount a) || (CommandCount a =? CommandCount b) && String.ltb (CommandComm a) (CommandComm b).

Section Ops.
Context {R : GoRuntime} {B : SpawnBackend}.

Definition parentEntry (byPID : gmap Z SpawnProcess) (e : Z * Z) : option SpawnParent :=
  let '(pid, count) := e in
  if 0 <? pid
  then Some {| ParentPID := pid; ParentComm := match byPID !! pid with Some p => Comm p | None => "" end;
               ChildCount := count; Argv := "" |}
  else None.
Definition attributeSpawn (s : SpawnState) (processes : list SpawnProcess) (readArgv : bool) : SpawnState :=
  let '(byPID, children, commands) := fold_left (attributeStep (UID s)) processes (∅, ∅, ∅) in
  let ps := sort_slice parentLess (TopParents s ++ omap (parentEntry byPID) (map_entries children)) in
  let ps := if 5 <? len ps then take 5 ps else ps in
  let ps :=
    if readArgv
    then map (λ p, match BArgv (ParentPID p) with Some a => with_argv p (truncateRunes a 200) | None => p end) ps
    else ps in
  let cs := sort_slice commandLess
    (TopCommands s ++ map (λ '(c, n), {| CommandComm := c; CommandCount := n |}) (map_entries commands)) in
  let cs := if 5 <? len cs then take 5 cs else cs in
  with_top s ps cs.

(** [fillSpawnArgv]: the cached command lines of processes that are no longer
    among the top parents are dropped, missing ones are read. *)
Definition fillStep (st : gmap Z string * list SpawnParent) (p : SpawnParent) : gmap Z string * list SpawnParent :=
  let '(cache, out) := st in
  let cache :=
    match cache !! ParentPID p with
    | Some _ => cache
    | None => match BArgv (ParentPID p) with
              | Some a => <[ParentPID p := truncateRunes a 200]> cache
              | None => cache
              end
    end in
  (cache, out ++ [with_argv p (default "" (cache !! ParentPID p))]).
Definition fillSpawnArgv (t : spawnTracker) (s : SpawnState) : spawnTracker * SpawnState :=
  let present := (list_to_set (map ParentPID (TopParents s)) : gset Z) in
  let cache := filter (λ '(pid, _), pid ∈ present) (argv t) in
  let '(cache, ps) := fold_left fillStep (TopParents s) (cache, []) in
  ({| previous := previous t; at_ := at_ t; warnStreak := warnStreak t; probes := probes t; argv := cache |},
   with_top s ps (TopCommands s)).

Definition spawnDetail `{Printable} (s : SpawnState) : string :=
  let detail := fmt_f 0 (NewPerSec s) +:+ " new/s; " +:+ itoa (ProcsUID s) +:+ " procs for uid " +:+ itoa (UID s) in
  let detail :=
    match TopParents s with
    | [] => detail
    | p :: _ => detail +:+ "; top parent: " +:+ ParentComm p +:+ " (pid " +:+ itoa (ParentPID p) +:+ ", " +:+
                itoa (ChildCount p) +:+ " children) " +:+ Quote (Argv p)
    end in
  let detail :=
    match TopCommands s with
    | [] => detail
    | cs => detail +:+ "; top: " +:+ Join (map (λ c, CommandComm c +:+ "×" +:+ itoa (CommandCount c)) (take 2 cs)) ", "
    end in
  truncateRunes detail 300.

End Ops.
End Spawn.

(** ** The service *)

Module SpawnService.
Import Spawn.

(** The fields of [Service] the spawn probe uses.  The queue of the persister
    is a channel of capacity 16, [None] until its first use. *)
Record Service (G : Type) := {
  engine : Engine G;
  tracker : spawnTracker;
  current : option SpawnState;
  spawnPersisted : gmap string spawnPersistRecord;
  spawnPersistQueue : option (list spawnPersistItem);
  spawnPersistDropped : Z;
  spawnPersistWarnAt : time;
  spawnCPUAt : time;
  spawnCPU : Z }.
Arguments engine {G} s.
Arguments tracker {G} s.
Arguments current {G} s.
Arguments spawnPersisted {G} s.
Arguments spawnPersistQueue {G} s.
Arguments spawnPersistDropped {G} s.
Arguments spawnPersistWarnAt {G} s.
Arguments spawnCPUAt {G} s.
Arguments spawnCPU {G} s.

Definition with_tracker {G} (s : Service G) (t : spawnTracker) : Service G :=
  {| engine := engine s; tracker := t; current := current s; spawnPersisted := spawnPersisted s;
     spawnPersistQueue := spawnPersistQueue s; spawnPersistDropped := spawnPersistDropped s;
     spawnPersistWarnAt := spawnPersistWarnAt s; spawnCPUAt := spawnCPUAt s; spawnCPU := spawnCPU s |}.
Definition with_published {G} (s : Service G) (e : Engine G) (c : SpawnState) (p : gmap string spawnPersistRecord) : Service G :=
  {| engine := e; tracker := tracker s; current := Some c; spawnPersisted := p;
     spawnPersistQueue := spawnPersistQueue s; spawnPersistDropped := spawnPersistDropped s;
     spawnPersistWarnAt := spawnPersistWarnAt s; spawnCPUAt := spawnCPUAt s; spawnCPU := spawnCPU s |}.
Definition with_queue {G} (s : Service G) (q : list spawnPersistItem) (dropped : Z) (warnAt : time) : Service G :=
  {| engine := engine s; tracker := tracker s; current := current s; spawnPersisted := spawnPersisted s;
     spawnPersistQueue := Some q; spawnPersistDropped := dropped; spawnPersistWarnAt := warnAt;
     spawnCPUAt := spawnCPUAt s; spawnCPU := spawnCPU s |}.
Definition with_cpu {G} (s : Service G) (a : time) (c : Z) : Service G :=
  {| engine := engine s; tracker := tracker s; current := current s; spawnPersisted := spawnPersisted s;
     spawnPersistQueue := spawnPersistQueue s; spawnPersistDropped := spawnPersistDropped s;
     spawnPersistWarnAt := spawnPersistWarnAt s; spawnCPUAt := a; spawnCPU := c |}.

(** What [publishSpawn] sends to the subscribers, in order. *)
Inductive notification := WatchSample (s : option SpawnState) | AlertsEvent (e : Event).

(** *** What is written to the store *)

(** The first loop of [spawnPersistenceItem], over the events of the probe. *)
Definition persistEvent (at' : time) (prev : gmap string string)
    (st : gmap string spawnPersistRecord * list Event * bool) (ev : Event)
  : gmap string spawnPersistRecord * list Event * bool :=
  let '(persisted, out, smp) := st in
  let key := Key (EAlert ev) in
  if decide (Type_ ev = "resolved") then (delete key persisted, out ++ [ev], smp) else
  let severityChanged :=
    bool_decide (Type_ ev = "updated") && negb (bool_decide (default "" (prev !! key) = Severity (EAlert ev))) in
  let recent :=
    match persisted !! key with Some r => Sub at' (rec_at r) <? 30 * Second | None => false end in
  if negb severityChanged && bool_decide (Type_ ev = "updated") && recent then st else
  (<[key := {| rec_at := at'; rec_detail := Detail (EAlert ev) |}]> persisted, out ++ [ev],
   smp || bool_decide (Type_ ev = "fired") || severityChanged).
(** The second loop, over the active alerts. *)
Definition persistDetail (at' : time) (st : gmap string spawnPersistRecord * list Event) (a : Alert)
  : gmap string spawnPersistRecord * list Event :=
  let '(persisted, out) := st in
  if negb (spawnKey (Key a)) then st else
  let keep :=
    match persisted !! Key a with
    | Some r => bool_decide (rec_detail r = Detail a) || (Sub at' (rec_at r) <? 30 * Second)
    | None => false
    end in
  if keep then st else
  (<[Key a := {| rec_at := at'; rec_detail := Detail a |}]> persisted, out ++ [{| Type_ := "detail"; EAlert := a |}]).

Section Ops.
Context {R : GoRuntime} {B : SpawnBackend} `{Printable} {G : Type} `{Generator G}.
Implicit Types s : Service G.

Definition spawnPersistenceItem (persisted : gmap string spawnPersistRecord) (e : Engine G) (st : SpawnState)
    (evs : list Event) (prev : gmap string string) : gmap string spawnPersistRecord * spawnPersistItem :=
  let '(persisted, out, smp) := fold_left (persistEvent (SpawnAt st) prev) evs (persisted, [], false) in
  let '(persisted, out) := fold_left (persistDetail (SpawnAt st)) (Active e) (persisted, out) in
  (persisted, {| state := st; events := out; sample := smp |}).

Definition spawnHasActive (e : Engine G) : bool := existsb spawnKey (map_keys (active e)).

Definition set_detail (d : string) (c : Condition) : Condition :=
  {| CKey := CKey c; CSeverity := CSeverity c; CTitle := CTitle c; CDetail := d |}.
Definition sampleSpawn (cfg : Config) (uid : Z) (s : Service G) (started : time) (processes : list SpawnProcess)
  : Service G * SpawnState * list Condition :=
  let '(uidLimit, totalLimit) := BLimits in
  let '(t, st) := update (tracker s) started processes uid uidLimit totalLimit in
  let '(t, conditions) := evaluateSpawn cfg t st in
  let '(t, st, conditions) :=
    if (0 <? len conditions) || spawnHasActive (engine s) then
      let st := attributeSpawn st processes false in
      let '(t, st) := fillSpawnArgv t st in
      (t, st, map (set_detail (spawnDetail st)) conditions)
    else (t, st, conditions) in
  let t := {| previous := previous t; at_ := at_ t; warnStreak := warnStreak t;
              probes := <[(length (probes t) - 1)%nat := st]> (probes t); argv := argv t |} in
  (with_tracker s t, st, conditions).

(** [alert := active[key]; alert.Spawn = &state; active[key] = alert]: the zero
    alert is stored when the key is missing. *)
Definition zero_alert : Alert :=
  {| ID := ""; Key := ""; Severity := ""; Title := ""; Detail := ""; State := ""; FiredAt := zero_time;
     ResolvedAt := None; AckedAt := None; Spawn := None |}.
Definition attachSpawn (st : SpawnState) (m : gmap string Alert) (c : Condition) : gmap string Alert :=
  <[CKey c := with_spawn (default zero_alert (m !! CKey c)) st]> m.
Definition event_spawn (st : SpawnState) (ev : Event) : Event := {| Type_ := Type_ ev; EAlert := with_spawn (EAlert ev) st |}.

Definition previousSeverities (e : Engine G) (conditions : list Condition) : gmap string string :=
  fold_left (λ m c, <[CKey c := match active e !! CKey c with Some a => Severity a | None => "" end]> m) conditions ∅.
Definition publishSpawn (s : Service G) (st : SpawnState) (conditions : list Condition)
  : Service G * list Event * spawnPersistItem * gmap string string * list notification :=
  let prev := previousSeverities (engine s) conditions in
  let parentPID := match TopParents st with [] => 0 | p :: _ => ParentPID p end in
  let '(e, evs) := EvaluateSpawn (engine s) (SpawnAt st) conditions [parentPID] in
  let e := with_active e (fold_left (attachSpawn st) conditions (active e)) in
  let evs := map (event_spawn st) evs in
  let '(persisted, item) := spawnPersistenceItem (spawnPersisted s) e st evs prev in
  (with_published s e st persisted, evs, item, prev, WatchSample (Some st) :: map AlertsEvent evs).

(** Sending to the queue without blocking: a full queue drops the item, and
    warns at most every 30 seconds. *)
Definition enqueueSpawnPersistence (now : time) (s : Service G) (item : spawnPersistItem) : Service G * bool :=
  match events item with
  | [] => (s, false)
  | _ =>
    let q := default [] (spawnPersistQueue s) in
    if len q <? 16 then (with_queue s (q ++ [item]) (spawnPersistDropped s) (spawnPersistWarnAt s), false) else
    let dropped := u64 (spawnPersistDropped s + 1) in
    if IsZero (spawnPersistWarnAt s) || (30 * Second <=? Sub now (spawnPersistWarnAt s))
    then (with_queue s q dropped now, true) else (with_queue s q dropped (spawnPersistWarnAt s), false)
  end.

(** The calls [persistSpawn] makes on the store; a failed call is logged and
    the others are made. *)
Inductive storeCall := UpsertAlert (a : Alert) | SaveHostSample (s : SpawnState).
Definition persistSpawn (item : spawnPersistItem) : list storeCall :=
  match events item with
  | [] => []
  | evs => map (λ ev, UpsertAlert (EAlert ev)) evs ++ (if sample item then [SaveHostSample (state item)] else [])
  end.

(** The alerts passed to the desktop notifier. *)
Definition notified (prev : gmap string string) (evs : list Event) : list Alert :=
  map EAlert (filter (λ ev, Type_ ev = "fired" ∨
    (Type_ ev = "updated" ∧ default "" (prev !! Key (EAlert ev)) ≠ Severity (EAlert ev))) evs).

(** One tick, given what [List] returned. *)
Record TickResult := { tick_service : Service G; tick_notified : list Alert; tick_sent : list notification }.
Definition TickSpawn (cfg : Config) (uid : Z) (s : Service G) (started now : time) (listing : outcome (list SpawnProcess))
  : outcome TickResult :=
  processes ← wrap_err "spawn process list" listing;
  let '(s, st, conditions) := sampleSpawn cfg uid s started processes in
  let '(s, evs, item, prev, sent) := publishSpawn s st conditions in
  Ok {| tick_service := (enqueueSpawnPersistence now s item).1; tick_notified := notified prev evs; tick_sent := sent |}.

(** The self-monitoring of the probe: whether it warns. *)
Definition recordSpawnCPU (s : Service G) (at' : time) (cpu : Z) : Service G * bool :=
  let cpuAt := if IsZero (spawnCPUAt s) then at' else spawnCPUAt s in
  let total := i64 (spawnCPU s + cpu) in
  let window := Sub at' cpuAt in
  if window <? Minute then (with_cpu s cpuAt total, false) else
  let pct := fdiv (fmul (of_Z 100) (of_Z total)) (of_Z window) in
  (with_cpu s at' 0, fgt pct (of_Z 1)).

End Ops.

(** A [uint64] limit as an [int], unlimited or too large as zero. *)
Definition finiteLimit (v : Z) : Z := if (v =? 2 ^ 64 - 1) || (2 ^ 63 - 1 <? v) then 0 else v.

End SpawnService.

(** ** Facts *)

Module SpawnFacts.
Import Spawn SpawnService HostEngine.EngineFacts.

(** The live PIDs of a listing, its processes of a user, and those not in an
    earlier set. *)
Definition pids (processes : list SpawnProcess) : gset Z :=
  list_to_set (map PID (filter (λ p, 0 < PID p) processes)).
Definition owned (uid : Z) (processes : list SpawnProcess) : list SpawnProcess :=
  filter (λ p, 0 < PID p ∧ PUID p = uid) processes.
Definition fresh (prev : gset Z) (processes : list SpawnProcess) : list SpawnProcess :=
  filter (λ p, 0 < PID p ∧ PID p ∉ prev) processes.
Definition new_count (prev : option (gset Z)) (processes : list SpawnProcess) : Z :=
  match prev with Some prev => len (fresh prev processes) | None => 0 end.

Lemma len_filter_cons {A} (P : A → Prop) `{∀ x, Decision (P x)} x l :
  len (filter P (x :: l)) = (if decide (P x) then 1 else 0) + len (filter P l).
Proof. rewrite filter_cons. case_decide; rewrite ?len_cons; lia. Qed.
Lemma updateStep_fold prev uid l c n d :
  fold_left (updateStep prev uid) l (c, n, d) = (pids l ∪ c, n + len (owned uid l), d + new_count prev l).
Proof.
  revert c n d. induction l as [|p l IH]; intros c n d.
  { assert (pids [] ∪ c = c) as -> by set_solver. unfold owned, new_count, fresh, len. simpl.
    apply pair_eq. rewrite pair_eq. split_and!; [done|lia|destruct prev; lia]. }
  cbn [fold_left]. unfold updateStep at 2. unfold pids, owned, new_count, fresh in *. rewrite len_filter_cons.
  destruct (Z.leb_spec (PID p) 0) as [Hp|Hp].
  - rewrite IH, filter_cons_False by lia. rewrite decide_False by lia.
    apply pair_eq. rewrite pair_eq. split_and!; [done|lia|]. destruct prev; [rewrite len_filter_cons, decide_False by lia|]; lia.
  - rewrite IH, filter_cons_True by lia. cbn [map list_to_set].
    apply pair_eq. rewrite pair_eq. split_and!; [set_solver| |].
    + destruct (Z.eqb_spec (PUID p) uid); [rewrite decide_True by lia|rewrite decide_False by lia]; lia.
    + destruct prev as [prev|]; [|lia]. rewrite len_filter_cons. case_bool_decide.
      * rewrite decide_False by tauto. lia.
      * rewrite decide_True by tauto. lia.
Qed.

(** The rate of a probe at [at'] after one at [before]. *)
Definition rate (prev : option (gset Z)) (before at' : time) (processes : list SpawnProcess) : f64 :=
  if bool_decide (prev ≠ None) && After at' before
  then fdiv (of_Z (new_count prev processes)) (Seconds (Sub at' before)) else f0.

Lemma update_spec t at' processes uid ul tl :
  let '(t', s) := update t at' processes uid ul tl in
  previous t' = Some (pids processes) ∧ at_ t' = at' ∧ warnStreak t' = warnStreak t ∧ argv t' = argv t ∧
  s = with_counts (new_state at' uid ul tl) (Z.of_nat (size (pids processes))) (len (owned uid processes))
        (new_count (previous t) processes) (rate (previous t) (at_ t) at' processes) ∧
  (len (probes t) <= 120 → probes t' = drop (length (probes t) - 119) (probes t) ++ [s]).
Proof.
  unfold update. rewrite updateStep_fold, (right_id_L ∅ (∪)). rewrite !Z.add_0_l. split_and!; [done..|].
  intros Hl. cbn [probes]. rewrite len_app, len_cons, len_nil. unfold len in *.
  destruct (Z.ltb_spec 120 (Z.of_nat (length (probes t)) + (0 + 1))).
  - replace (length (probes t) - 119)%nat with 1%nat by lia. destruct (probes t); [simpl in *; lia|done].
  - replace (length (probes t) - 119)%nat with 0%nat by lia. done.
Qed.

(** *** The spawn-rate alert over histories *)

Section Rates.
Context {R : GoRuntime} {B : SpawnBackend} `{Printable} {G : Type} `{Generator G}.

Lemma evaluateSpawn_tracker cfg t s :
  let '(t', _) := evaluateSpawn cfg t s in
  previous t' = previous t ∧ at_ t' = at_ t ∧ probes t' = probes t ∧ argv t' = argv t ∧
  warnStreak t' = (if fge (NewPerSec s) (RateWarn (SpawnC cfg)) then warnStreak t + 1 else 0).
Proof. done. Qed.

(** The rate condition of an evaluation. *)
Definition rate_condition (cs : list Condition) : option Condition := find (λ c, bool_decide (CKey c = "spawn.rate")) cs.
Lemma find_not {A} (p : A → bool) l : forallb (λ x, negb (p x)) l = true → find p l = None.
Proof. induction l as [|x l IH]; [done|]. simpl. destruct (p x); [done|]. exact IH. Qed.
Lemma rate_condition_spec cfg t s :
  rate_condition (evaluateSpawn cfg t s).2 =
  if fge (NewPerSec s) (RateCritical (SpawnC cfg)) then Some (condition "spawn.rate" "critical" "Process spawn rate is critical")
  else if 2 <=? (if fge (NewPerSec s) (RateWarn (SpawnC cfg)) then warnStreak t + 1 else 0)
  then Some (condition "spawn.rate" "warn" "Process spawn rate is high") else None.
Proof.
  unfold evaluateSpawn, rate_condition. cbv zeta. cbn [snd].
  set (o2 := if decide (spawnPctSeverity (ProcsUID s) _ _ _ = "") then _ else _).
  set (o3 := if decide (spawnPctSeverity (ProcsTotal s) _ _ _ = "") then _ else _).
  assert (find (λ c, bool_decide (CKey c = "spawn.rate")) (o2 ++ o3) = None) as Hn.
  { apply find_not. rewrite forallb_app. subst o2 o3. by do 2 case_decide. }
  destruct (fge (NewPerSec s) (RateCritical _)); [done|]. destruct (2 <=? _); [done|]. exact Hn.
Qed.

(** The conditions of a probe have different keys, all of the spawn scope. *)
Lemma evaluateSpawn_keys cfg t s :
  NoDup (CKey <$> (evaluateSpawn cfg t s).2) ∧ ∀ c, c ∈ (evaluateSpawn cfg t s).2 → withinScope SpawnScope (CKey c) = true.
Proof.
  unfold evaluateSpawn. cbv zeta. cbn [snd].
  destruct (fge (NewPerSec s) (RateCritical _)); [|destruct (2 <=? _)]; do 2 case_decide; cbn [app fmap list_fmap condition CKey];
    (split; [apply (bool_decide_unpack _); vm_compute; exact I|]; intros c Hc;
     repeat (apply elem_of_cons in Hc as [->|Hc]; [reflexivity|]); by apply elem_of_nil in Hc).
Qed.

(** Attribution keeps the counts of the state. *)
Lemma attributeSpawn_counts s processes b :
  SpawnAt (attributeSpawn s processes b) = SpawnAt s ∧ NewPerSec (attributeSpawn s processes b) = NewPerSec s.
Proof. unfold attributeSpawn. by destruct (fold_left _ _ _) as [[byPID ch] cm]. Qed.
Lemma fillSpawnArgv_counts t s :
  let '(t', s') := fillSpawnArgv t s in
  SpawnAt s' = SpawnAt s ∧ NewPerSec s' = NewPerSec s ∧ previous t' = previous t ∧ at_ t' = at_ t ∧
  warnStreak t' = warnStreak t ∧ probes t' = probes t.
Proof. unfold fillSpawnArgv. by destruct (fold_left _ _ _) as [c ps]. Qed.

Lemma sampleSpawn_spec cfg uid (s : Service G) started processes :
  let '(s', st, cs) := sampleSpawn cfg uid s started processes in
  ∃ st0, let e := evaluateSpawn cfg (update (tracker s) started processes uid BLimits.1 BLimits.2).1 st0 in
  (∃ d, cs = map (set_detail d) e.2 ∨ cs = e.2) ∧
  engine s' = engine s ∧ spawnPersisted s' = spawnPersisted s ∧ spawnPersistQueue s' = spawnPersistQueue s ∧
  previous (tracker s') = Some (pids processes) ∧ at_ (tracker s') = started ∧
  warnStreak (tracker s') = warnStreak e.1 ∧ length (probes (tracker s')) = length (probes e.1) ∧
  SpawnAt st = started ∧ NewPerSec st0 = rate (previous (tracker s)) (at_ (tracker s)) started processes.
Proof.
  unfold sampleSpawn. destruct BLimits as [ul tl].
  pose proof (update_spec (tracker s) started processes uid ul tl) as Hu. cbn [fst snd].
  destruct (update (tracker s) started processes uid ul tl) as [t1 st1]. destruct Hu as (Hp & Ha & Hw & _ & Hst & _). cbn [fst snd] in *.
  destruct (evaluateSpawn cfg t1 st1) as [t2 cs] eqn:Ee.
  pose proof (evaluateSpawn_tracker cfg t1 st1) as He. rewrite Ee in He. destruct He as (Hp2 & Ha2 & Hb2 & _ & Hw2).
  destruct (_ || _).
  - pose proof (fillSpawnArgv_counts t2 (attributeSpawn st1 processes false)) as Hf.
    destruct (attributeSpawn_counts st1 processes false) as [Hat Hrt]. destruct (fillSpawnArgv _ _) as [t3 st3].
    destruct Hf as (H1 & H2 & H3 & H4 & H5 & H6). exists st1. rewrite Ee. cbn.
    split_and!; try congruence; [by eexists; left|by rewrite length_insert, H6|by rewrite H1, Hat, Hst|by rewrite Hst].
  - exists st1. rewrite Ee. cbn. split_and!; try congruence; [by exists ""; right|by rewrite length_insert|by rewrite Hst|by rewrite Hst].
Qed.
End Rates.

Section Publish.
Context {R : GoRuntime} {HR : RuntimeOk R} {B : SpawnBackend} `{Printable} {G : Type} `{Generator G}.
Implicit Types s : Service G.

Lemma with_spawn_twice a st : with_spawn (with_spawn a st) st = with_spawn a st.
Proof. done. Qed.
Lemma attach_fold st cs m k :
  fold_left (attachSpawn st) cs m !! k =
  if decide (k ∈ CKey <$> cs) then Some (with_spawn (default zero_alert (m !! k)) st) else m !! k.
Proof.
  revert m. induction cs as [|c cs IH]; intros m; [by rewrite decide_False by apply not_elem_of_nil|].
  cbn [fold_left]. rewrite IH. unfold attachSpawn. destruct (decide (k = CKey c)) as [->|Hne].
  - rewrite lookup_insert_eq, (decide_True (P := CKey c ∈ CKey <$> c :: cs)) by (by apply elem_of_cons; left). by case_decide.
  - rewrite lookup_insert_ne by done. rewrite fmap_cons. do 2 case_decide; try done; set_solver.
Qed.

(** Attaching the state to the alerts of a view. *)
Definition att_view (st : SpawnState) (present : bool) (v : view) : view :=
  if present then ((λ a, with_spawn a st) <$> v.1.1, v.1.2, v.2) else v.
Lemma att_view_tracks st b m v : tracks m v → tracks m (att_view st b v).
Proof.
  destruct b, v as [[a c] p], m as [m|]; simpl; try done; [|by intros ->].
  intros [[a' ->] Hc]. split; [by eexists|done].
Qed.
Lemma att_view_ok st b k v : view_ok k v → view_ok k (att_view st b v).
Proof. by destruct b, v as [[[a|] c] p]. Qed.

Definition parent_pid (st : SpawnState) : Z := match TopParents st with [] => 0 | p :: _ => ParentPID p end.
Lemma present_some e at' cs pid k :
  NoDup (CKey <$> cs) → k ∈ CKey <$> cs → withinScope SpawnScope k = true →
  is_Some (active (evaluate (G := G) e at' cs SpawnScope 3 pid).1 !! k).
Proof.
  intros Hn Hk Hw. pose proof (evaluate_view e at' cs SpawnScope 3 pid k Hn) as Hv. unfold key_step in Hv. rewrite Hw in Hv.
  destruct (cond_at _ k) as [[c id]|] eqn:Ec; [|by apply (cond_at_has _ _ _ _ _ Hw) in Ec].
  unfold key_view in Hv. apply (f_equal (λ v, v.1.1)) in Hv. cbn [fst snd negb] in Hv. rewrite Hv.
  destruct (active e !! k); by eexists.
Qed.
Lemma publish_engine s st cs :
  NoDup (CKey <$> cs) → (∀ c, c ∈ cs → withinScope SpawnScope (CKey c) = true) →
  let '(s', evs, item, prev, sent) := publishSpawn s st cs in
  tracker s' = tracker s ∧ spawnPersistQueue s' = spawnPersistQueue s ∧
  evs = map (event_spawn st) (evaluate (engine s) (SpawnAt st) cs SpawnScope 3 (parent_pid st)).2 ∧
  prev = previousSeverities (engine s) cs ∧
  (spawnPersisted s', item) = spawnPersistenceItem (spawnPersisted s) (engine s') st evs prev ∧
  current s' = Some st ∧
  ∀ k, key_view (engine s') k =
    att_view st (bool_decide (k ∈ CKey <$> cs)) (key_view (evaluate (engine s) (SpawnAt st) cs SpawnScope 3 (parent_pid st)).1 k).
Proof.
  intros Hn Hsc. unfold publishSpawn, EvaluateSpawn. fold (parent_pid st).
  pose proof (λ k, present_some (engine s) (SpawnAt st) cs (parent_pid st) k Hn) as Hpres.
  destruct (evaluate (engine s) (SpawnAt st) cs SpawnScope 3 (parent_pid st)) as [e evs]. cbn [fst snd] in *.
  destruct (spawnPersistenceItem _ _ _ _ _) as [pr item] eqn:Ei. cbn. split_and!; try done.
  intros k. unfold key_view, att_view. cbn. rewrite attach_fold.
  destruct (decide (k ∈ CKey <$> cs)) as [Hk|Hk]; [rewrite bool_decide_true by done|by rewrite bool_decide_false].
  destruct (Hpres k Hk) as [a Ha].
  { apply list_elem_of_fmap in Hk as (c & -> & Hc). by apply Hsc. }
  by rewrite Ha.
Qed.
Lemma enqueue_same now s item :
  let s' := (enqueueSpawnPersistence now s item).1 in
  engine s' = engine s ∧ tracker s' = tracker s ∧ current s' = current s ∧ spawnPersisted s' = spawnPersisted s ∧
  (len (default [] (spawnPersistQueue s)) <= 16 → len (default [] (spawnPersistQueue s')) <= 16).
Proof.
  unfold enqueueSpawnPersistence. destruct (events item); [done|]. destruct (Z.ltb_spec (len (default [] (spawnPersistQueue s))) 16).
  - cbn. split_and!; try done. intros _. rewrite len_app, len_cons, len_nil. lia.
  - by destruct (_ || _).
Qed.

(** *** Ticks *)

(** A tick whose process list could be read: its start, the time at its end,
    the processes. *)
Definition tick_input := (time * time * list SpawnProcess)%type.
Definition tick (cfg : Config) (uid : Z) s (x : tick_input) : Service G :=
  match TickSpawn cfg uid s x.1.1 x.1.2 (Ok x.2) with Ok r => tick_service r | _ => s end.

(** The conditions on a probe with rate [r], up to their details. *)
Record probe_conditions (cfg : Config) (r : f64) (streak : Z) (cs : list Condition) : Prop := {
  pc_NoDup : NoDup (CKey <$> cs);
  pc_scope : ∀ c, c ∈ cs → withinScope SpawnScope (CKey c) = true;
  pc_rate : (CSeverity <$> rate_condition cs) =
    if fge r (RateCritical (SpawnC cfg)) then Some "critical" else if 2 <=? streak then Some "warn" else None }.

Lemma find_set_detail d cs : rate_condition (map (set_detail d) cs) = set_detail d <$> rate_condition cs.
Proof. unfold rate_condition. induction cs as [|c cs IH]; [done|]. simpl. by case_bool_decide. Qed.
Lemma map_set_detail_keys d cs : CKey <$> map (set_detail d) cs = CKey <$> cs.
Proof. induction cs as [|c cs IH]; [done|]. cbn. by f_equal. Qed.
Lemma probe_conditions_eval cfg t st0 cs d :
  cs = map (set_detail d) (evaluateSpawn cfg t st0).2 ∨ cs = (evaluateSpawn cfg t st0).2 →
  probe_conditions cfg (NewPerSec st0) (warnStreak (evaluateSpawn cfg t st0).1) cs.
Proof.
  intros Hcs. pose proof (evaluateSpawn_tracker cfg t st0) as Ht. pose proof (rate_condition_spec cfg t st0) as Hr.
  destruct (evaluateSpawn_keys cfg t st0) as [Hn Hsc]. destruct (evaluateSpawn cfg t st0) as [t' cs0].
  destruct Ht as (_ & _ & _ & _ & Hw). cbn [fst snd] in *. rewrite <-Hw in Hr.
  assert (CSeverity <$> rate_condition cs0 = if fge (NewPerSec st0) (RateCritical (SpawnC cfg)) then Some "critical"
    else if 2 <=? warnStreak t' then Some "warn" else None) as Hsev.
  { rewrite Hr. destruct (fge (NewPerSec st0) (RateCritical _)); [reflexivity|]. by destruct (2 <=? _). }
  destruct Hcs as [-> | ->]; constructor; try done.
  - by rewrite map_set_detail_keys.
  - intros c (c' & -> & Hc')%list_elem_of_fmap. exact (Hsc c' Hc').
  - rewrite find_set_detail, <-Hsev. by destruct (rate_condition cs0).
Qed.

Lemma tick_spec cfg uid s started now processes :
  let s' := tick cfg uid s (started, now, processes) in
  let r := rate (previous (tracker s)) (at_ (tracker s)) started processes in
  let streak := if fge r (RateWarn (SpawnC cfg)) then warnStreak (tracker s) + 1 else 0 in
  ∃ st cs,
    probe_conditions cfg r streak cs ∧ SpawnAt st = started ∧ current s' = Some st ∧
    previous (tracker s') = Some (pids processes) ∧ at_ (tracker s') = started ∧ warnStreak (tracker s') = streak ∧
    (len (probes (tracker s)) <= 120 → len (probes (tracker s')) <= 120) ∧
    (len (default [] (spawnPersistQueue s)) <= 16 → len (default [] (spawnPersistQueue s')) <= 16) ∧
    (∀ k, key_view (engine s') k = att_view st (bool_decide (k ∈ CKey <$> cs))
       (key_view (evaluate (engine s) started cs SpawnScope 3 (parent_pid st)).1 k)) ∧
    ∃ item, (spawnPersisted s', item) = spawnPersistenceItem (spawnPersisted s) (engine s') st
      (map (event_spawn st) (evaluate (engine s) started cs SpawnScope 3 (parent_pid st)).2)
      (previousSeverities (engine s) cs).
Proof.
  cbv zeta. unfold tick, TickSpawn. cbn [fst snd wrap_err]. rewrite bind_ok.
  pose proof (sampleSpawn_spec cfg uid s started processes) as Hs.
  destruct (sampleSpawn cfg uid s started processes) as [[s1 st] cs].
  destruct Hs as (st0 & (d & Hcs) & He1 & Hpe1 & Hq1 & Hp1 & Ha1 & Hw1 & Hl1 & <- & Hrate).
  pose proof (update_spec (tracker s) (SpawnAt st) processes uid BLimits.1 BLimits.2) as Hu.
  destruct (update _ _ _ _ _ _) as [t1 st1]. destruct Hu as (_ & _ & Huw & _ & _ & Hub). cbn [fst] in *.
  apply probe_conditions_eval in Hcs. pose proof (evaluateSpawn_tracker cfg t1 st0) as Ht.
  destruct (evaluateSpawn cfg t1 st0) as [t2 cs2]. destruct Ht as (_ & _ & Htb & _ & Htw). cbn [fst] in *.
  rewrite Htw, Huw, Hrate in *.
  pose proof (publish_engine s1 st cs (pc_NoDup _ _ _ _ Hcs) (pc_scope _ _ _ _ Hcs)) as Hp.
  destruct (publishSpawn s1 st cs) as [[[[s2 evs] item] prev] sent].
  destruct Hp as (Hpt & Hpq & -> & -> & Hpi & Hpc & Hpv). cbn [tick_service].
  pose proof (enqueue_same now s2 item) as Hq. cbv zeta in Hq. destruct Hq as (Hqe & Hqt & Hqc & Hqp & Hqq).
  exists st, cs. rewrite Hqe, Hqt, Hqc, Hqp, Hpt, Hp1, Ha1, Hw1. rewrite <-He1, <-Hpe1.
  split_and!; try done.
  - unfold len at 2. rewrite Hl1, Htb. intros Hle. rewrite (Hub Hle), length_app, length_drop. simpl. unfold len in *. lia.
  - by rewrite <-Hq1, <-Hpq.
  - by exists item.
Qed.

(** *** Histories of ticks, the newest first *)

Definition new_service (g : G) : Service G :=
  {| engine := NewEngine g;
     tracker := {| previous := None; at_ := zero_time; warnStreak := 0; probes := []; argv := ∅ |};
     current := None; spawnPersisted := ∅; spawnPersistQueue := None; spawnPersistDropped := 0;
     spawnPersistWarnAt := zero_time; spawnCPUAt := zero_time; spawnCPU := 0 |}.
Definition ticks (cfg : Config) (uid : Z) (g : G) (xs : list tick_input) : Service G :=
  fold_right (λ x s, tick cfg uid s x) (new_service g) xs.

(** The rates of the ticks, from their process lists alone. *)
Fixpoint rates (xs : list tick_input) : list f64 :=
  match xs with
  | [] => []
  | x :: older =>
    match older with [] => f0 | y :: _ => rate (Some (pids y.2)) y.1.1 x.1.1 x.2 end :: rates older
  end.
(** The severity of the newest of some rates: critical from one rate, a warning
    from two in a row. *)
Definition level (cfg : Config) (rs : list f64) : option string :=
  match rs with
  | [] => None
  | r :: older =>
    if fge r (RateCritical (SpawnC cfg)) then Some "critical"
    else if fge r (RateWarn (SpawnC cfg)) && match older with r' :: _ => fge r' (RateWarn (SpawnC cfg)) | [] => false end
    then Some "warn" else None
  end.
Fixpoint alarms (cfg : Config) (rs : list f64) : list bool :=
  match rs with [] => [] | r :: older => bool_decide (is_Some (level cfg rs)) :: alarms cfg older end.
Fixpoint streak (cfg : Config) (rs : list f64) : Z :=
  match rs with [] => 0 | r :: older => if fge r (RateWarn (SpawnC cfg)) then streak cfg older + 1 else 0 end.

Lemma streak_nonneg cfg rs : 0 <= streak cfg rs.
Proof. induction rs as [|r rs IH]; simpl; [done|]. destruct (fge _ _); lia. Qed.
Lemma level_streak cfg r older :
  level cfg (r :: older) =
  if fge r (RateCritical (SpawnC cfg)) then Some "critical" else if 2 <=? streak cfg (r :: older) then Some "warn" else None.
Proof.
  unfold level. destruct (fge r (RateCritical _)); [done|]. cbn [streak]. destruct (fge r (RateWarn _)); [|done].
  destruct older as [|r' older]; [done|]. cbn [streak andb]. pose proof (streak_nonneg cfg older).
  destruct (fge r' (RateWarn _)); [|done]. by destruct (Z.leb_spec 2 (streak cfg older + 1 + 1)); [|lia].
Qed.

Lemma rate_condition_elem cs c : rate_condition cs = Some c → c ∈ cs ∧ CKey c = "spawn.rate".
Proof. intros [Hin Hk]%find_some. apply list_elem_of_In in Hin. by to_prop. Qed.
Lemma rate_condition_has cs : "spawn.rate" ∈ CKey <$> cs ↔ is_Some (rate_condition cs).
Proof.
  split.
  - intros (c & Hk & Hc)%list_elem_of_fmap. destruct (rate_condition cs) as [c'|] eqn:E; [by eexists|].
    apply list_elem_of_In in Hc. pose proof (List.find_none _ _ E c Hc) as Hf. simpl in Hf. to_prop. congruence.
  - intros [c [Hc <-]%rate_condition_elem]. by apply list_elem_of_fmap_2.
Qed.
(** The severity of the alert after an evaluation that saw its condition. *)
Lemma present_severity (e : Engine G) at' cs pid c :
  NoDup (CKey <$> cs) → c ∈ cs → withinScope SpawnScope (CKey c) = true →
  ∃ a, active (evaluate e at' cs SpawnScope 3 pid).1 !! CKey c = Some a ∧ Severity a = CSeverity c.
Proof.
  intros Hn Hc Hw. pose proof (evaluate_view e at' cs SpawnScope 3 pid (CKey c) Hn) as Hv. unfold key_step in Hv. rewrite Hw in Hv.
  assert (CKey c ∈ CKey <$> cs) as Hk by (by apply list_elem_of_fmap_2).
  destruct (cond_at _ (CKey c)) as [[c' id]|] eqn:Ec; [|by apply (cond_at_has _ _ _ _ _ Hw) in Ec].
  apply cond_at_elem in Ec as [[Hc' _]%assign_keys Hk']. cbn [fst] in *.
  assert (c' = c) as -> by (by apply (NoDup_fmap_inj_in CKey cs)).
  unfold key_view in Hv. apply (f_equal (λ v, v.1.1)) in Hv. cbn [fst snd negb] in Hv. rewrite Hv.
  destruct (active e !! CKey c); by eexists.
Qed.

Lemma ticks_spec cfg uid g xs :
  let s := ticks cfg uid g xs in
  previous (tracker s) = (λ x, pids x.2) <$> head xs ∧ at_ (tracker s) = match xs with [] => zero_time | x :: _ => x.1.1 end ∧
  warnStreak (tracker s) = streak cfg (rates xs) ∧ len (probes (tracker s)) <= 120 ∧
  len (default [] (spawnPersistQueue s)) <= 16 ∧
  tracks (live 3 false 0 (alarms cfg (rates xs))) (key_view (engine s) "spawn.rate") ∧
  ∀ sev, level cfg (rates xs) = Some sev →
    ∃ a st, active (engine s) !! "spawn.rate" = Some a ∧ Severity a = sev ∧ current s = Some st ∧ Spawn a = Some st.
Proof.
  induction xs as [|[[started now] procs] xs IH]; [by split_and!|].
  cbn [ticks fold_right]. fold (ticks cfg uid g xs). set (s := ticks cfg uid g xs) in *. destruct IH as (Hp & Ha & Hw & Hb & Hq & Ht & _).
  destruct (tick_spec cfg uid s started now procs) as (st & cs & Hcs & Hat & Hcur & Hp' & Ha' & Hw' & Hb' & Hq' & Hv & _).
  assert (rates (((started, now, procs) : tick_input) :: xs) = rate (previous (tracker s)) (at_ (tracker s)) started procs :: rates xs) as Hr.
  { rewrite Hp, Ha. by destruct xs. }
  set (s' := tick cfg uid s (started, now, procs)) in *. cbv zeta. rewrite Hr. set (r := rate _ _ _ _) in *.
  assert (level cfg (r :: rates xs) = CSeverity <$> rate_condition cs) as Hlv.
  { rewrite level_streak, (pc_rate _ _ _ _ Hcs). cbn [streak]. by rewrite <-Hw. }
  rewrite Hp', Ha', Hw'. split_and!; [done|done|cbn [streak]; by rewrite Hw|by apply Hb'|by apply Hq'| |].
  - cbn [alarms]. rewrite Hv. apply att_view_tracks.
    destruct (run_round_view s.(engine) {| r_scope := SpawnScope; r_at := started; r_conditions := cs; r_pid := parent_pid st |} "spawn.rate"
      (pc_NoDup _ _ _ _ Hcs)) as [_ Hrun].
    specialize (Hrun eq_refl 3%nat false 0%nat (alarms cfg (rates xs)) eq_refl Ht).
    replace (bool_decide (is_Some (level cfg (r :: rates xs)))) with (bool_decide ("spawn.rate" ∈ CKey <$> cs)); [exact Hrun|].
    apply bool_decide_ext. rewrite rate_condition_has, Hlv, fmap_is_Some. done.
  - intros sev. rewrite Hlv. intros (c & Hc & ->)%fmap_Some. apply rate_condition_elem in Hc as [Hc Hk].
    destruct (present_severity (engine s) started cs (parent_pid st) c) as (a & Hact & Hsev);
      [apply Hcs|done|by apply (pc_scope _ _ _ _ Hcs)|].
    exists (with_spawn a st), st. rewrite Hk in Hact. specialize (Hv "spawn.rate"). unfold key_view in Hv. rewrite Hact in Hv.
    apply (f_equal (λ v, v.1.1)) in Hv. rewrite bool_decide_true in Hv by (rewrite <-Hk; by apply list_elem_of_fmap_2). done.
Qed.

(** *** What is written *)

(** A fold of updates of one key each. *)
Lemma fold_keyed {X V} (key : X → string) (step : gmap string V → X → gmap string V) (f : X → option V → option V) l m k :
  (∀ m x k, step m x !! k = if decide (k = key x) then f x (m !! k) else m !! k) → NoDup (key <$> l) →
  fold_left step l m !! k = match find (λ x, bool_decide (key x = k)) l with Some x => f x (m !! k) | None => m !! k end.
Proof.
  intros Hstep. revert m. induction l as [|x l IH]; intros m Hn; [done|]. rewrite fmap_cons in Hn. apply NoDup_cons in Hn as [Hx Hn].
  cbn [fold_left find]. rewrite (IH _ Hn), Hstep. case_bool_decide as Hk.
  - rewrite decide_True by done. rewrite find_not; [done|]. apply forallb_forall. intros y Hy%list_elem_of_In.
    apply negb_true_iff, bool_decide_eq_false. intros Hky. apply Hx. rewrite Hk, <-Hky. by apply list_elem_of_fmap_2.
  - by rewrite decide_False.
Qed.
Lemma find_key {X} (key : X → string) l x :
  NoDup (key <$> l) → x ∈ l → find (λ y, bool_decide (key y = key x)) l = Some x.
Proof.
  intros Hn Hx. destruct (find _ l) as [y|] eqn:E.
  - apply find_some in E as [Hy%list_elem_of_In Hk]. to_prop. f_equal. by apply (NoDup_fmap_inj_in key l).
  - apply list_elem_of_In in Hx. pose proof (List.find_none _ _ E x Hx) as Hf. simpl in Hf. by to_prop.
Qed.
Lemma find_key_none {X} (key : X → string) l k :
  (∀ x, x ∈ l → key x ≠ k) → find (λ y, bool_decide (key y = k)) l = None.
Proof.
  intros Hl. destruct (find _ l) as [y|] eqn:E; [|done]. apply find_some in E as [Hy%list_elem_of_In Hk]. to_prop. by destruct (Hl y).
Qed.

(** The record of a key after its event, and after the look at its alert. *)
Definition sev_changed (prev : gmap string string) (ev : Event) : bool :=
  bool_decide (Type_ ev = "updated") && negb (bool_decide (default "" (prev !! Key (EAlert ev)) = Severity (EAlert ev))).
Definition event_record (at' : time) (prev : gmap string string) (ev : Event) (old : option spawnPersistRecord)
  : option spawnPersistRecord :=
  if decide (Type_ ev = "resolved") then None else
  if negb (sev_changed prev ev) && bool_decide (Type_ ev = "updated") &&
     match old with Some r => Sub at' (rec_at r) <? 30 * Second | None => false end
  then old else Some {| rec_at := at'; rec_detail := Detail (EAlert ev) |}.
Definition detail_record (at' : time) (a : Alert) (old : option spawnPersistRecord) : option spawnPersistRecord :=
  if negb (spawnKey (Key a)) then old else
  if match old with Some r => bool_decide (rec_detail r = Detail a) || (Sub at' (rec_at r) <? 30 * Second) | None => false end
  then old else Some {| rec_at := at'; rec_detail := Detail a |}.

Lemma persistEvent_fold at' prev evs p out smp k :
  NoDup ((Key ∘ EAlert) <$> evs) →
  (fold_left (persistEvent at' prev) evs (p, out, smp)).1.1 !! k =
  match find (λ ev, bool_decide (Key (EAlert ev) = k)) evs with Some ev => event_record at' prev ev (p !! k) | None => p !! k end.
Proof.
  intros Hn. rewrite <-(fold_keyed (Key ∘ EAlert) (λ p ev, (persistEvent at' prev (p, [], false) ev).1.1)).
  - f_equal. revert p out smp. clear Hn. induction evs as [|ev evs IH]; intros p out smp; [done|]. cbn [fold_left].
    destruct (persistEvent at' prev (p, out, smp) ev) as [[p' out'] smp'] eqn:E. rewrite IH. f_equal.
    revert E. unfold persistEvent. case_decide; [by intros [= <- _ _]|]. destruct (_ && _ && _); by intros [= <- _ _].
  - intros m ev k'. unfold persistEvent, event_record, sev_changed. cbn [compose].
    destruct (decide (Type_ ev = "resolved")); cbn [fst snd].
    + case_decide as Hk; [rewrite Hk; apply lookup_delete_eq|by apply lookup_delete_ne].
    + case_decide as Hk; [rewrite Hk|]; destruct (_ && _ && _); cbn [fst snd]; try done; [apply lookup_insert_eq|by apply lookup_insert_ne].
  - done.
Qed.
Lemma persistDetail_fold at' l p out k :
  NoDup (Key <$> l) →
  (fold_left (persistDetail at') l (p, out)).1 !! k =
  match find (λ a, bool_decide (Key a = k)) l with Some a => detail_record at' a (p !! k) | None => p !! k end.
Proof.
  intros Hn. rewrite <-(fold_keyed Key (λ p a, (persistDetail at' (p, []) a).1)).
  - f_equal. revert p out. clear Hn. induction l as [|a l IH]; intros p out; [done|]. cbn [fold_left].
    destruct (persistDetail at' (p, out) a) as [p' out'] eqn:E. rewrite IH. f_equal.
    revert E. unfold persistDetail. destruct (negb _); [by intros [= <- _]|]. case_match; by intros [= <- _].
  - intros m a k'. unfold persistDetail, detail_record. case_decide as Hk; [rewrite Hk|]; destruct (negb _); try done;
      (case_match; cbn [fst]; [done|]); [apply lookup_insert_eq|by apply lookup_insert_ne].
  - done.
Qed.
Lemma Active_keys (e : Engine G) :
  engine_ok e → NoDup (Key <$> Active e) ∧ ∀ a, a ∈ Active e ↔ active e !! Key a = Some a.
Proof.
  intros He. assert (∀ k a, active e !! k = Some a → Key a = k) as Hk.
  { intros k a Ha. specialize (He k). unfold key_view, view_ok in He. rewrite Ha in He. by destruct He. }
  unfold Active. split.
  - rewrite sort_perm. rewrite <-list_fmap_compose.
    assert ((Key ∘ snd) <$> map_entries (active e) = map_keys (active e)) as ->; [|apply entries_NoDup].
    unfold map_keys. apply list_fmap_ext. intros i [k a] Hi. simpl. apply Hk, elem_of_entries, list_elem_of_lookup. by exists i.
  - intros a. rewrite elem_of_sort, list_elem_of_fmap. split.
    + intros ([k a'] & -> & Ha%elem_of_entries). simpl. by rewrite (Hk k a' Ha).
    + intros Ha. exists (Key a, a). split; [done|]. by apply elem_of_entries.
Qed.
Lemma persistence_lookup persisted (e : Engine G) st evs prev k :
  engine_ok e → NoDup ((Key ∘ EAlert) <$> evs) →
  let p' := (spawnPersistenceItem persisted e st evs prev).1 in
  let r := match find (λ ev, bool_decide (Key (EAlert ev) = k)) evs with
           | Some ev => event_record (SpawnAt st) prev ev (persisted !! k) | None => persisted !! k end in
  p' !! k = match active e !! k with Some a => detail_record (SpawnAt st) a r | None => r end.
Proof.
  intros He Hn. destruct (Active_keys e He) as [Hna Hin]. unfold spawnPersistenceItem.
  pose proof (persistEvent_fold (SpawnAt st) prev evs persisted [] false k Hn) as H1.
  destruct (fold_left (persistEvent _ _) _ _) as [[p1 out1] smp]. cbn [fst] in H1.
  pose proof (persistDetail_fold (SpawnAt st) (Active e) p1 out1 k Hna) as H2.
  destruct (fold_left (persistDetail _) _ _) as [p2 out2]. cbn [fst] in *. rewrite H2, <-H1.
  destruct (active e !! k) as [a|] eqn:Ea.
  - assert (Key a = k) as <- by (specialize (He k); unfold key_view, view_ok in He; rewrite Ea in He; by destruct He).
    by rewrite (find_key Key _ a Hna) by (by apply Hin).
  - rewrite find_key_none; [done|]. intros a Ha%Hin <-. congruence.
Qed.

Lemma find_event (e : Engine G) at' cs pid st k :
  NoDup (CKey <$> cs) → engine_ok e →
  find (λ ev, bool_decide (Key (EAlert ev) = k)) (map (event_spawn st) (evaluate e at' cs SpawnScope 3 pid).2) =
  event_spawn st <$> (key_step at' SpawnScope 3 pid (assign (active e) SpawnScope (IDs e) cs).1 k (key_view e k)).2.
Proof.
  intros Hn He. pose proof (events_NoDup e at' cs SpawnScope 3 pid Hn He) as Hnd.
  pose proof (λ ev, elem_of_events e at' cs SpawnScope 3 pid ev Hn) as Hin. destruct (evaluate e at' cs SpawnScope 3 pid) as [e' evs].
  cbn [snd] in *. set (pres := (assign _ _ _ _).1) in *.
  destruct (key_step at' SpawnScope 3 pid pres k (key_view e k)).2 as [ev|] eqn:Ek; simpl.
  - assert (Key (EAlert ev) = k) as <- by (by eapply key_step_event_key).
    apply (find_key (Key ∘ EAlert) _ (event_spawn st ev)).
    + rewrite <-list_fmap_compose. exact Hnd.
    + apply list_elem_of_fmap_2. apply Hin. by eexists.
  - apply (find_key_none (Key ∘ EAlert)). intros x (ev & -> & (k' & Hk')%Hin)%list_elem_of_fmap Hk. simpl in Hk.
    assert (Key (EAlert ev) = k') by (by eapply key_step_event_key). congruence.
Qed.

(** The service between ticks: the engine's invariant, and only active spawn
    alerts have a record. *)
Record service_ok s : Prop := {
  so_engine : engine_ok (engine s);
  so_persisted : ∀ k, is_Some (spawnPersisted s !! k) → spawnKey k = true ∧ is_Some (active (engine s) !! k) }.

(** One key through a tick: its view and its record. *)
Section Key.
Context (started : time) (st : SpawnState) (pid : Z) (pres : list (Condition * string)) (prev : gmap string string) (b : bool).

Definition after_view (k : string) (v : view) : view := att_view st b (key_step started SpawnScope 3 pid pres k v).1.
Definition after_record (k : string) (v : view) (o : option spawnPersistRecord) : option spawnPersistRecord :=
  let r := match event_spawn st <$> (key_step started SpawnScope 3 pid pres k v).2 with
           | Some ev => event_record started prev ev o | None => o end in
  match (after_view k v).1.1 with Some a => detail_record started a r | None => r end.

(** Looking at an active alert of the scope leaves a record of its detail, or a
    recent one. *)
Definition fresh_record (a : Alert) (o : option spawnPersistRecord) : Prop :=
  ∃ r, o = Some r ∧ (rec_detail r = Detail a ∨ Sub started (rec_at r) < 30 * Second).
Lemma detail_record_fresh a o : spawnKey (Key a) = true → fresh_record a (detail_record started a o).
Proof.
  intros Hk. unfold detail_record, fresh_record. rewrite Hk. cbn [negb]. destruct o as [r|]; [|by eexists; split; [done|left]].
  destruct (_ || _) eqn:E; [|by eexists; split; [done|left]]. exists r. split; [done|]. to_prop. destruct E; to_prop; auto.
Qed.
Lemma detail_record_change a o r r' :
  o = Some r → detail_record started a o = Some r' → r' ≠ r → rec_at r' = started ∧ 30 * Second <= Sub started (rec_at r).
Proof.
  intros -> Hd Hne. revert Hd. unfold detail_record. destruct (negb _); [congruence|].
  destruct (_ || _) eqn:E; [congruence|]. intros [= <-]. to_prop. done.
Qed.
Lemma detail_record_recent a d : detail_record started a (Some {| rec_at := started; rec_detail := d |}) = Some {| rec_at := started; rec_detail := d |}.
Proof.
  unfold detail_record. destruct (negb _); [done|]. cbn [rec_at]. replace (Sub started started <? 30 * Second) with true; [by rewrite orb_true_r|].
  symmetry. apply Z.ltb_lt. unfold Sub, max_duration, Second. lia.
Qed.
Lemma detail_record_key k a o : Key a = k → spawnKey k = false → detail_record started a o = o.
Proof. intros <- Hk. unfold detail_record. by rewrite Hk. Qed.

(** What a tick guarantees of a record: it belongs to an active alert, it is
    fresh, and it changed only after 30 seconds or with the severity. *)
Definition record_ok (k : string) (v : view) (o : option spawnPersistRecord) (v' : view) (o' : option spawnPersistRecord) : Prop :=
  (is_Some o' → spawnKey k = true ∧ is_Some v'.1.1) ∧
  (∀ a', v'.1.1 = Some a' → spawnKey k = true → fresh_record a' o') ∧
  (∀ r r', o = Some r → o' = Some r' → r' ≠ r → rec_at r' = started ∧
     (30 * Second <= Sub started (rec_at r) ∨
      ∃ a a', v.1.1 = Some a ∧ v'.1.1 = Some a' ∧ Severity a ≠ Severity a')).

(** An alert that stays active: its record after an update that may have been
    recorded, [o1], and the look at its detail. *)
Lemma record_ok_active k v o v' a a' o1 :
  spawnKey k = true → v.1.1 = Some a → v'.1.1 = Some a' → Key a' = k →
  (o1 = o ∨ ∃ d, o1 = Some {| rec_at := started; rec_detail := d |} ∧
     ∀ r, o = Some r → 30 * Second <= Sub started (rec_at r) ∨ Severity a ≠ Severity a') →
  record_ok k v o v' (detail_record started a' o1).
Proof.
  intros Hk Hv Hv' Hka Ho. split_and!.
  - intros _. split; [done|]. by rewrite Hv'.
  - intros a'' Ha''. rewrite Hv' in Ha''. injection Ha'' as <-. intros _. apply detail_record_fresh. by rewrite Hka.
  - intros r r' -> Hr' Hne. destruct Ho as [-> |(d & -> & Hd)].
    + destruct (detail_record_change a' (Some r) r r' eq_refl Hr' Hne). auto.
    + rewrite detail_record_recent in Hr'. injection Hr' as <-. split; [done|]. destruct (Hd r eq_refl); [by left|right]. eauto.
Qed.
Lemma att_view_active v : (att_view st b v).1.1 = (if b then (λ a, with_spawn a st) <$> v.1.1 else v.1.1).
Proof. by destruct b. Qed.
Lemma att_active_some v a :
  v.1.1 = Some a → ∃ a', (att_view st b v).1.1 = Some a' ∧ Key a' = Key a ∧ Severity a' = Severity a ∧ Detail a' = Detail a.
Proof. intros Ha. rewrite att_view_active, Ha. destruct b; eauto. Qed.

(** An alert that is not active afterwards has no record. *)
Lemma record_ok_gone k v o v' : v'.1.1 = None → record_ok k v o v' None.
Proof. intros Hv'. split_and!; [by intros []|by rewrite Hv'|done]. Qed.
Lemma att_gone c p : (att_view st b (None, c, p)).1.1 = None.
Proof. rewrite att_view_active. by destruct b. Qed.
Lemma key_other k v o :
  view_ok k v → spawnKey k = false → (is_Some o → spawnKey k = true ∧ is_Some v.1.1) →
  record_ok k v o (after_view k v) (after_record k v o).
Proof.
  intros Hv Hk Ho. assert (o = None) as -> by (destruct o; [destruct Ho; [by eexists|congruence]|done]).
  unfold after_record, after_view, key_step. cbn [withinScope]. rewrite Hk. cbn [negb fst snd fmap option_fmap option_map].
  assert (∀ x, (att_view st b v).1.1 = x → match x with Some a => detail_record started a None | None => None end = None) as Hd.
  { intros [a|] Ha; [|done]. apply (detail_record_key k); [|done]. destruct v as [[[a0|] c] p].
    - destruct (att_active_some (Some a0, c, p) a0 eq_refl) as (a' & Ha' & Hka & _). rewrite Ha' in Ha. injection Ha as <-. rewrite Hka. apply Hv.
    - by rewrite att_gone in Ha. }
  rewrite (Hd _ eq_refl). split_and!; [by intros []|congruence|done].
Qed.
Lemma key_updated k a cl p c id o :
  cond_at pres k = Some (c, id) → spawnKey k = true → Key a = k → prev !! k = Some (Severity a) →
  record_ok k (Some a, cl, p) o (after_view k (Some a, cl, p)) (after_record k (Some a, cl, p) o).
Proof.
  intros Ec Hk Hka Hprev. unfold after_record, after_view, key_step. cbn [withinScope]. rewrite Hk, Ec. cbn [negb view_present fst snd].
  destruct (att_active_some (Some (with_condition a c), Some 0, new_parent SpawnScope pid p) _ eq_refl) as (a' & Ha' & Hka' & Hsa & _).
  rewrite Ha'. apply (record_ok_active k _ o _ a a'); [done..|by rewrite Hka'|].
  destruct (_ || _) eqn:Eev; [|by left]. cbn [fmap option_fmap option_map].
  unfold event_record, sev_changed. cbn [Type_ EAlert event_spawn with_spawn Key Severity with_condition].
  rewrite Hka, Hprev. rewrite decide_False by done. rewrite (bool_decide_true ("updated" = "updated")), andb_true_r by done. cbn [andb].
  destruct (negb (negb _) && _) eqn:En; [by left|]. right. eexists. split; [done|]. intros r ->. rewrite Hsa. cbn [Severity with_condition].
  to_prop. destruct En as [En|En]; to_prop; [by right|by left].
Qed.
Lemma key_fired k cl p c id :
  cond_at pres k = Some (c, id) → spawnKey k = true →
  record_ok k (None, cl, p) None (after_view k (None, cl, p)) (after_record k (None, cl, p) None).
Proof.
  intros Ec Hk. unfold after_record, after_view, key_step. cbn [withinScope]. rewrite Hk, Ec. cbn [negb view_present fst snd].
  destruct (att_active_some (Some (fire id c started), Some 0, new_parent SpawnScope pid p) _ eq_refl) as (a' & Ha' & _ & _ & Hda).
  rewrite Ha'. cbn [fmap option_fmap option_map].
  unfold event_record. cbn [Type_ event_spawn]. rewrite decide_False, (bool_decide_false ("fired" = "updated")) by done.
  rewrite !andb_false_r. cbn [andb]. rewrite detail_record_recent. split_and!; [| |done].
  - intros _. split; [done|by rewrite Ha'].
  - intros a'' Ha''. rewrite Ha' in Ha''. injection Ha'' as <-. intros _. eexists. split; [done|]. left. by rewrite Hda.
Qed.
Lemma key_absent k a cl p o :
  cond_at pres k = None → spawnKey k = true → Key a = k →
  record_ok k (Some a, cl, p) o (after_view k (Some a, cl, p)) (after_record k (Some a, cl, p) o).
Proof.
  intros Ec Hk Hka. unfold after_record, after_view, key_step. cbn [withinScope]. rewrite Hk, Ec. cbn [negb view_absent fst snd].
  destruct (_ <? 3); cbn [fst snd fmap option_fmap option_map].
  - destruct (att_active_some (Some a, Some (default 0 cl + 1), p) _ eq_refl) as (a' & Ha' & Hka' & _).
    rewrite Ha'. apply (record_ok_active k _ o _ a a'); [done..|by rewrite Hka'|by left].
  - rewrite att_gone. apply record_ok_gone, att_gone.
Qed.
Lemma key_record_ok k v o :
  view_ok k v → (is_Some o → spawnKey k = true ∧ is_Some v.1.1) →
  (is_Some (cond_at pres k) → prev !! k = Some (match v.1.1 with Some a => Severity a | None => "" end)) →
  record_ok k v o (after_view k v) (after_record k v o).
Proof.
  intros Hv Ho Hprev. destruct (spawnKey k) eqn:Hk; [|by apply key_other; [..|by rewrite Hk]].
  destruct v as [[[a|] cl] p].
  - destruct (cond_at pres k) as [[c id]|] eqn:Ec; [|by apply key_absent; [..|apply Hv]].
    apply (key_updated k a cl p c id); [done..|apply Hv|by apply Hprev].
  - assert (o = None) as -> by (destruct o; [by destruct (Ho (ex_intro _ _ eq_refl)) as [_ []]|done]).
    destruct (cond_at pres k) as [[c id]|] eqn:Ec; [by apply (key_fired k cl p c id)|].
    unfold after_record, after_view, key_step. cbn [withinScope]. rewrite Hk, Ec. cbn [negb view_absent fst snd fmap option_fmap option_map].
    rewrite att_gone. apply record_ok_gone, att_gone.
Qed.
End Key.

Lemma previous_lookup (e : Engine G) cs k :
  k ∈ CKey <$> cs → previousSeverities e cs !! k = Some (match active e !! k with Some a => Severity a | None => "" end).
Proof.
  unfold previousSeverities. assert (∀ m : gmap string string, fold_left (λ m c, <[CKey c := match active e !! CKey c with Some a => Severity a | None => "" end]> m) cs m !! k =
    if decide (k ∈ CKey <$> cs) then Some (match active e !! k with Some a => Severity a | None => "" end) else m !! k) as Hf.
  { induction cs as [|c cs IH]; intros m; [done|]. cbn [fold_left]. rewrite IH, fmap_cons.
    destruct (decide (k = CKey c)) as [->|Hne].
    - rewrite lookup_insert_eq. rewrite (decide_True (P := CKey c ∈ CKey c :: _)) by (by apply elem_of_cons; left). by case_decide.
    - rewrite lookup_insert_ne by done. do 2 case_decide; try done; set_solver. }
  intros Hk. rewrite Hf. by rewrite decide_True.
Qed.
Lemma tick_records cfg uid s started now processes :
  service_ok s → let s' := tick cfg uid s (started, now, processes) in
  engine_ok (engine s') ∧
  ∀ k, record_ok started k (key_view (engine s) k) (spawnPersisted s !! k) (key_view (engine s') k) (spawnPersisted s' !! k).
Proof.
  intros [He Hp] s'. destruct (tick_spec cfg uid s started now processes) as (st & cs & Hcs & Hat & _ & _ & _ & _ & _ & _ & Hv & item & Hi).
  fold s' in Hv, Hi. pose proof (pc_NoDup _ _ _ _ Hcs) as Hn.
  assert (engine_ok (engine s')) as He'.
  { intros k. rewrite Hv. apply att_view_ok, evaluate_ok; done. }
  split; [done|]. intros k. apply (f_equal fst) in Hi. cbn [fst] in Hi. rewrite Hi.
  set (pres := (assign (active (engine s)) SpawnScope (IDs (engine s)) cs).1).
  assert (spawnPersisted s' !! k = after_record started st (parent_pid st) pres (previousSeverities (engine s) cs)
    (bool_decide (k ∈ CKey <$> cs)) k (key_view (engine s) k) (spawnPersisted s !! k)) as Hrec.
  { rewrite Hi, persistence_lookup, find_event, Hat; [|done|done|done|].
    - unfold after_record, after_view, pres. rewrite <-evaluate_view, <-Hv by done. done.
    - rewrite <-list_fmap_compose. by apply events_NoDup. }
  rewrite <-Hi, Hrec. rewrite Hv, evaluate_view by done. apply key_record_ok; [apply He|apply Hp|].
  intros [[c id] Hc]. unfold key_view. cbn [fst]. apply previous_lookup.
  apply cond_at_elem in Hc as [[Hc _]%assign_keys <-]. by apply list_elem_of_fmap_2.
Qed.
End Publish.

(** *** The ranking of the parents *)

Section Top.
Context {R : GoRuntime} {HR : RuntimeOk R} {B : SpawnBackend}.

(** The children of a process that belong to the user. *)
Definition child_count (uid : Z) (processes : list SpawnProcess) (pid : Z) : Z :=
  len (filter (λ p, PUID p = uid ∧ PPID p = pid) processes).
Lemma bump_lookup {K} `{Countable K} (m : gmap K Z) k k' :
  bump m k !! k' = if decide (k' = k) then Some (default 0 (m !! k') + 1) else m !! k'.
Proof. unfold bump. case_decide as Hk; [rewrite Hk; apply lookup_insert_eq|by apply lookup_insert_ne]. Qed.
Lemma children_fold uid l st pid :
  (fold_left (attributeStep uid) l st).1.2 !! pid =
  let n := child_count uid l pid in if n =? 0 then st.1.2 !! pid else Some (default 0 (st.1.2 !! pid) + n).
Proof.
  revert st. induction l as [|p l IH]; intros [[byPID ch] cm]; [done|]. cbn [fold_left]. rewrite IH. clear IH.
  unfold child_count. rewrite len_filter_cons. set (n := len (filter _ l)). pose proof (len_nonneg (filter (λ p, PUID p = uid ∧ PPID p = pid) l)) as Hn.
  fold n in Hn. unfold attributeStep. destruct (Z.eqb_spec (PUID p) uid) as [Hu|Hu]; cbn [fst snd].
  - rewrite bump_lookup. destruct (decide (pid = PPID p)) as [Hp|Hp].
    + rewrite decide_True by done. generalize (default 0 (ch !! pid)). intros d.
      destruct (Z.eqb_spec n 0), (Z.eqb_spec (1 + n) 0); try lia; simpl; f_equal; lia.
    + rewrite decide_False by naive_solver. done.
  - rewrite decide_False by naive_solver. done.
Qed.

Lemma parentLess_weak : strict_weak parentLess.
Proof.
  split; unfold parentLess.
  - intros a b Hab. apply orb_false_iff. rewrite andb_false_iff, !Z.ltb_ge, Z.eqb_neq. to_prop.
    destruct Hab as [Hab|Hab]; to_prop; lia.
  - intros a b c Hab Hbc. apply orb_false_iff. rewrite andb_false_iff, !Z.ltb_ge, Z.eqb_neq. to_prop.
    repeat match goal with H : _ ∨ _ |- _ => destruct H; to_prop end; lia.
Qed.
Lemma parentLess_total a b : parentLess a b = false → ParentPID a ≠ ParentPID b → parentLess b a = true.
Proof.
  unfold parentLess. intros Hab Hne. apply orb_true_iff. rewrite andb_true_iff, !Z.ltb_lt, Z.eqb_eq. to_prop.
  repeat match goal with H : _ ∨ _ |- _ => destruct H; to_prop end; lia.
Qed.

(** All parents of processes of the user, in the order of the ranking. *)
Lemma attribute_parents s processes :
  TopParents s = [] →
  ∃ all, TopParents (attributeSpawn s processes false) = take 5 all ∧
    StronglySorted (λ a b, parentLess b a = false) all ∧ NoDup (ParentPID <$> all) ∧
    (∀ p, p ∈ all → 0 < ParentPID p ∧ 0 < ChildCount p ∧ ChildCount p = child_count (UID s) processes (ParentPID p)) ∧
    (∀ pid, 0 < pid → 0 < child_count (UID s) processes pid → pid ∈ ParentPID <$> all).
Proof.
  intros Hs. unfold attributeSpawn. pose proof (λ pid, children_fold (UID s) processes (∅, ∅, ∅) pid) as Hc.
  destruct (fold_left _ _ _) as [[byPID ch] cm]. cbn [fst snd] in Hc. rewrite Hs. cbn [app TopParents with_top].
  set (l := omap (parentEntry byPID) (map_entries ch)). exists (sort_slice parentLess l).
  assert (∀ pid n, ch !! pid = Some n ↔ n = child_count (UID s) processes pid ∧ 0 < n) as Hch.
  { intros pid n. rewrite Hc, lookup_empty. cbv zeta. pose proof (len_nonneg (filter (λ p, PUID p = UID s ∧ PPID p = pid) processes)) as Hn.
    fold (child_count (UID s) processes pid) in Hn. simpl. destruct (Z.eqb_spec (child_count (UID s) processes pid) 0); naive_solver lia. }
  assert (∀ p, p ∈ l → ∃ pid n, (pid, n) ∈ map_entries ch ∧ 0 < pid ∧ ParentPID p = pid ∧ ChildCount p = n) as Hl.
  { intros p ([pid n] & Hin & Hp)%list_elem_of_omap. exists pid, n. unfold parentEntry in Hp.
    destruct (Z.ltb_spec 0 pid); [|done]. by injection Hp as <-. }
  split_and!.
  - unfold len. destruct (Z.ltb_spec 5 (Z.of_nat (length (sort_slice parentLess l)))); [done|]. rewrite take_ge; [done|lia].
  - apply sort_strongly_sorted, parentLess_weak.
  - rewrite sort_perm. apply (NoDup_omap_key _ fst); [apply entries_NoDup|]. intros [pid n] p _ Hp. unfold parentEntry in Hp.
    destruct (0 <? pid); [|done]. by injection Hp as <-.
  - intros p (pid & n & Hin & Hpid & -> & ->)%elem_of_sort%Hl. apply elem_of_entries, Hch in Hin as [-> ?]. done.
  - intros pid Hpid Hn. rewrite sort_perm. apply list_elem_of_fmap.
    eexists {| ParentPID := pid; ChildCount := child_count (UID s) processes pid |}. split; [done|]. apply list_elem_of_omap.
    exists (pid, child_count (UID s) processes pid). split; [by apply elem_of_entries, Hch|].
    unfold parentEntry. destruct (Z.ltb_spec 0 pid); [done|lia].
Qed.
(** Sorted by the ranking with different PIDs is strictly sorted. *)
Lemma sorted_strict all i j p q :
  StronglySorted (λ a b, parentLess b a = false) all → NoDup (ParentPID <$> all) →
  all !! i = Some p → all !! j = Some q → (i < j)%nat → parentLess p q = true.
Proof.
  intros Hs Hn Hi Hj Hij. apply parentLess_total.
  - revert i j Hi Hj Hij. clear Hn. induction Hs as [|a l Hs IH Ha]; intros [|i] [|j]; simpl; intros Hi Hj Hij; try lia; try done.
    + injection Hi as <-. rewrite Forall_forall in Ha. apply Ha. by eapply list_elem_of_lookup_2.
    + apply (IH i j); [done..|lia].
  - intros Heq. assert (j = i); [|lia]. apply (NoDup_lookup _ _ _ (ParentPID p) Hn).
    + rewrite list_lookup_fmap, Hj. simpl. by f_equal.
    + by rewrite list_lookup_fmap, Hi.
Qed.
Lemma strict_take all n :
  StronglySorted (λ a b, parentLess b a = false) all → NoDup (ParentPID <$> all) →
  StronglySorted (λ a b, parentLess a b = true) (take n all).
Proof.
  intros Hs Hn. revert n. induction Hs as [|a l Hs IH Ha]; intros [|n]; simpl; try constructor.
  - apply IH. by apply NoDup_cons in Hn as [_ ?].
  - apply Forall_forall. intros b (i & Hb & _)%elem_of_take.
    apply (sorted_strict (a :: l) 0 (S i)); [by constructor|done..|lia].
Qed.
End Top.
End SpawnFacts.

(** ** Properties *)

Section Properties.
Import Spawn SpawnService SpawnFacts HostEngine.EngineFacts.
Context {R : GoRuntime} {HR : RuntimeOk R} {B : SpawnBackend} `{Printable} {G : Type} `{Generator G}.

(** C39: The spawn-rate alert over whole histories of ticks of a new service,
    read off the process lists alone: the alert is active exactly if one of the
    last three ticks had a critical rate, or a high rate for the second time in
    a row; and a tick that has one sets the alert's severity and attaches the
    published state.  The probe buffer keeps at most 120 states and the queue of
    the persister at most 16 items. *)
Theorem spawn_rate_alert (cfg : Config) (uid : Z) (g : G) (xs : list tick_input) :
  let s := ticks cfg uid g xs in
  (is_Some (active (engine s) !! "spawn.rate") ↔ true ∈ take 3 (alarms cfg (rates xs))) ∧
  (∀ sev, level cfg (rates xs) = Some sev →
     ∃ a st, active (engine s) !! "spawn.rate" = Some a ∧ Severity a = sev ∧ current s = Some st ∧ Spawn a = Some st) ∧
  len (probes (tracker s)) <= 120 ∧ len (default [] (spawnPersistQueue s)) <= 16.
Proof.
  destruct (ticks_spec cfg uid g xs) as (_ & _ & _ & Hb & Hq & Ht & Hl). cbv zeta in *. split_and!; [|done..].
  transitivity (is_Some (live 3 false 0 (alarms cfg (rates xs)))); [|rewrite live_spec; naive_solver].
  unfold tracks, key_view in Ht. destruct (live _ _ _ _); simpl in Ht; [|rewrite Ht]; naive_solver eauto.
Qed.

(** What a tick writes to the store: afterwards exactly the active spawn
    alerts have a record of their last write; the record holds the alert's
    detail or is less than 30 seconds old; and an existing record is renewed
    only when it is 30 seconds old or the alert's severity changed. *)
Theorem spawn_writes_throttled (cfg : Config) (uid : Z) (s : Service G) (started now : time) (processes : list SpawnProcess) :
  service_ok s →
  let s' := tick cfg uid s (started, now, processes) in
  service_ok s' ∧
  (∀ k, is_Some (spawnPersisted s' !! k) ↔ spawnKey k = true ∧ is_Some (active (engine s') !! k)) ∧
  (∀ k a, active (engine s') !! k = Some a → spawnKey k = true →
     ∃ r, spawnPersisted s' !! k = Some r ∧ (rec_detail r = Detail a ∨ Sub started (rec_at r) < 30 * Second)) ∧
  (∀ k r r', spawnPersisted s !! k = Some r → spawnPersisted s' !! k = Some r' → r' ≠ r →
     rec_at r' = started ∧ (30 * Second <= Sub started (rec_at r) ∨
       ∃ a a', active (engine s) !! k = Some a ∧ active (engine s') !! k = Some a' ∧ Severity a ≠ Severity a')).
Proof.
  intros Hs s'. destruct (tick_records cfg uid s started now processes Hs) as [He Hr]. fold s' in He, Hr.
  split_and!.
  - constructor; [done|]. intros k. apply (Hr k).
  - intros k. split; [apply (Hr k)|]. intros [Hk [a Ha]]. destruct (Hr k) as (_ & Hf & _).
    destruct (Hf a Ha Hk) as (r & -> & _). by eexists.
  - intros k a Ha Hk. destruct (Hr k) as (_ & Hf & _). by apply Hf.
  - intros k r r'. apply (Hr k).
Qed.

(** The parents reported with a burst are the five processes with the most
    children of the user, ties by PID: each with its true count, in order, and a
    parent left out has a full list of better ones before it. *)
Theorem spawn_top_parents (s : SpawnState) (processes : list SpawnProcess) :
  TopParents s = [] →
  let top := TopParents (attributeSpawn s processes false) in
  len top <= 5 ∧ StronglySorted (λ a b, parentLess a b = true) top ∧
  (∀ p, p ∈ top → 0 < ParentPID p ∧ 0 < ChildCount p ∧ ChildCount p = child_count (UID s) processes (ParentPID p)) ∧
  (∀ pid, 0 < pid → 0 < child_count (UID s) processes pid → pid ∉ ParentPID <$> top →
     len top = 5 ∧ ∀ p, p ∈ top → child_count (UID s) processes pid < ChildCount p ∨
       (child_count (UID s) processes pid = ChildCount p ∧ ParentPID p < pid)).
Proof.
  intros Hs. destruct (attribute_parents s processes Hs) as (all & -> & Hsort & Hnd & Hin & Hall). cbv zeta. split_and!.
  - unfold len. rewrite length_take. lia.
  - by apply strict_take.
  - intros p (i & Hp & _)%elem_of_take. apply Hin. by apply list_elem_of_lookup_2 in Hp.
  - intros pid Hpid Hn Hout. destruct (list_elem_of_fmap ParentPID all pid) as [Hq _]. destruct (Hq (Hall pid Hpid Hn)) as (q & -> & Hqa).
    apply list_elem_of_lookup in Hqa as [j Hj]. assert (5 <= j)%nat as H5.
    { destruct (decide (5 <= j)%nat); [done|]. destruct Hout. apply list_elem_of_fmap_2, (list_elem_of_lookup_2 _ j).
      rewrite lookup_take. by rewrite decide_True by lia. }
    pose proof (lookup_lt_Some _ _ _ Hj). split; [unfold len; rewrite length_take; lia|].
    intros p (i & Hp & Hi)%elem_of_take. destruct (Hin q (list_elem_of_lookup_2 _ _ _ Hj)) as (_ & _ & <-).
    assert (parentLess p q = true) as Hlt by (by apply (sorted_strict all i j); [..|lia]).
    unfold parentLess in Hlt. to_prop. destruct Hlt; to_prop; [by left|right; lia].
Qed.
End Properties.

(** ** Concrete instances *)

Section Witnesses.
Import Spawn SpawnService SpawnFacts HostEngine.EngineFacts.

Definition demo_backend : SpawnBackend := {| BArgv := λ _, Some "make -j8"; BLimits := (1000, 4000) |}.
Definition demo_children (n : nat) : list SpawnProcess :=
  {| PID := 7; PPID := 1; PUID := 501; Comm := "make" |} ::
  map (λ i, {| PID := Z.of_nat i; PPID := 7; PUID := 501; Comm := "cc" |}) (seq 100 n).
Definition demo_state : SpawnState := new_state 0 501 1000 4000.
Definition demo_ticks : list tick_input :=
  [(Second, Second, demo_children 300); (0, 0, demo_children 1)].
Definition demo_service : Service Sequence := new_service (NewSequence "").
#[local] Existing Instance ascii_printable.
#[local] Existing Instance demo_backend.

Lemma spawn_rate_alert_witness :
  is_Some (active (engine (ticks (R := go_runtime) DefaultConfig 501 (NewSequence "") demo_ticks)) !! "spawn.rate").
Proof.
  destruct (spawn_rate_alert (R := go_runtime) DefaultConfig 501 (NewSequence "") demo_ticks) as [Hact _].
  apply Hact. apply (list_elem_of_lookup_2 _ 0). vm_compute. reflexivity.
Defined.
Lemma demo_service_ok : service_ok demo_service.
Proof.
  constructor.
  - intros k. unfold key_view. simpl. by rewrite !lookup_empty.
  - intros k. simpl. rewrite lookup_empty. by intros [].
Qed.
Lemma spawn_writes_throttled_witness :
  service_ok (tick (R := go_runtime) DefaultConfig 501 demo_service (0, 0, demo_children 3)).
Proof. apply (spawn_writes_throttled (R := go_runtime) DefaultConfig 501 demo_service 0 0 (demo_children 3) demo_service_ok). Defined.
Lemma spawn_top_parents_witness :
  len (TopParents (attributeSpawn (R := go_runtime) demo_state (demo_children 12) false)) <= 5.
Proof. apply (spawn_top_parents (R := go_runtime) demo_state (demo_children 12)). reflexivity. Defined.
End Witnesses.
