(* ===== verification/Metrics.v ===== *)
(** * Live process metrics

    Models [src/internal/metrics/ring.go]: the ring buffer of a process
    (module [Ring]), its one-minute aggregates, and the [Collector] of the ring
    buffers by PID (module [Collect]).  An index out of range is a [Panic].
    The theorems show that the collector refines a map from PIDs to the list of
    their samples, of which it shows the last 1800, that an aggregate is exactly
    the summary of the samples of its minute, and that [Recent], which reads a
    buffer after releasing the lock, can return samples out of order when an
    [Add] runs at the same time. *)

From S2P Require Import Prelude GoStrings GoRuntime Float64.

Module Ring.

Definition DefaultRetainWindow : Z := 30 * Minute.
Definition maxSamples : Z := DefaultRetainWindow `quot` Second.

Record Sample := { TakenAt : time; PID : Z; RSSKiB : Z; CPUPct : f64; VSizeKiB : Z }.
Record Aggregate := {
  APID : Z; MinuteAt : time; AvgRSSKiB : Z; MaxRSSKiB : Z; AvgCPUPct : f64; MaxCPUPct : f64; SampleCount : Z }.
(** [samples] is a Go array: its length is [maxSamples]. *)
Record RingBuffer := { samples : list Sample; head : Z; count : Z }.

Definition zero_sample : Sample := {| TakenAt := zero_time; PID := 0; RSSKiB := 0; CPUPct := f0; VSizeKiB := 0 |}.
Definition new_ring : RingBuffer := {| samples := replicate (Z.to_nat maxSamples) zero_sample; head := 0; count := 0 |}.

Definition RingAdd (r : RingBuffer) (s : Sample) : outcome RingBuffer :=
  ss ← set_idx (samples r) (head r) s;
  Ok {| samples := ss; head := Z.rem (head r + 1) maxSamples;
        count := if count r <? maxSamples then count r + 1 else count r |}.

(** [copy(dst, src)]: the elements written over the front of [dst]. *)
Definition copy {A} (dst src : list A) : list A := take (length dst) src ++ drop (length src) dst.

(** [Samples], with the fields [head] and [count] read from [r] and the array
    from [ss]. *)
Definition samples_from (r : RingBuffer) (ss : list Sample) : outcome (list Sample) :=
  if count r =? 0 then Ok [] else
  let out := replicate (Z.to_nat (count r)) zero_sample in
  if count r <? maxSamples then
    front ← slice ss 0 (count r);
    Ok (copy out front)
  else
    old ← slice_from ss (head r);
    new ← slice ss 0 (head r);
    let n := min (length out) (length old) in
    Ok (take n old ++ copy (drop n out) new).
Definition Samples (r : RingBuffer) : outcome (list Sample) := samples_from r (samples r).

(** [t.Truncate(d)], rounding down since the zero time. *)
Definition Truncate (t : time) (d : Z) : time := t - (t - zero_time) `mod` d.

(** The loop of [Aggregate] over the samples. *)
Definition new_aggregate (pid : Z) (minute : time) : Aggregate :=
  {| APID := pid; MinuteAt := minute; AvgRSSKiB := 0; MaxRSSKiB := 0; AvgCPUPct := f0; MaxCPUPct := f0; SampleCount := 0 |}.
Definition accumulate (a : Aggregate) (s : Sample) : Aggregate :=
  {| APID := APID a; MinuteAt := MinuteAt a; AvgRSSKiB := i64 (AvgRSSKiB a + RSSKiB s);
     MaxRSSKiB := if MaxRSSKiB a <? RSSKiB s then RSSKiB s else MaxRSSKiB a;
     AvgCPUPct := fadd (AvgCPUPct a) (CPUPct s);
     MaxCPUPct := if fgt (CPUPct s) (MaxCPUPct a) then CPUPct s else MaxCPUPct a;
     SampleCount := SampleCount a + 1 |}.
Definition group_key (s : Sample) : Z * time := (PID s, Truncate (TakenAt s) Minute).
Definition groupStep (groups : gmap (Z * time) Aggregate) (s : Sample) : gmap (Z * time) Aggregate :=
  let k := group_key s in
  <[k := accumulate (default (new_aggregate k.1 k.2) (groups !! k)) s]> groups.
Definition finish (a : Aggregate) : Aggregate :=
  if 0 <? SampleCount a then
    {| APID := APID a; MinuteAt := MinuteAt a; AvgRSSKiB := i64 (Z.quot (AvgRSSKiB a) (SampleCount a));
       MaxRSSKiB := MaxRSSKiB a; AvgCPUPct := fdiv (AvgCPUPct a) (of_Z (SampleCount a));
       MaxCPUPct := MaxCPUPct a; SampleCount := SampleCount a |}
  else a.
Definition aggregate {R : GoRuntime} (r : RingBuffer) : outcome (list Aggregate) :=
  ss ← Samples r;
  if len ss =? 0 then Ok [] else
  Ok (map finish (map_entries (fold_left groupStep ss ∅)).*2).

End Ring.

Module Collect.
Import Ring.

Record Collector := { pids : gmap Z RingBuffer }.
Definition NewCollector : Collector := {| pids := ∅ |}.

Definition Add (c : Collector) (s : Sample) : outcome Collector :=
  rb ← Ring.RingAdd (default new_ring (pids c !! PID s)) s;
  Ok {| pids := <[PID s := rb]> (pids c) |}.

Definition Recent (c : Collector) (pid limit : Z) : outcome (list Sample) :=
  match pids c !! pid with
  | None => Ok []
  | Some rb =>
    all ← Samples rb;
    if (0 <? limit) && (limit <? len all) then slice_from all (len all - limit) else Ok all
  end.

Section Ops.
Context {R : GoRuntime}.

Definition PIDs (c : Collector) : list Z := map_keys (pids c).

(** The loop of [FlushAggregates]: the buffers left and the aggregates. *)
Fixpoint flushLoop (cutoff : time) (entries : list (Z * RingBuffer)) (left_ : gmap Z RingBuffer) (all : list Aggregate)
  : outcome (gmap Z RingBuffer * list Aggregate) :=
  match entries with
  | [] => Ok (left_, all)
  | (pid, rb) :: entries =>
    aggs ← aggregate rb;
    ss ← Samples rb;
    let left_ := match last ss with
                 | Some s => if Before (TakenAt s) cutoff then delete pid left_ else left_
                 | None => left_
                 end in
    flushLoop cutoff entries left_ (all ++ aggs)
  end.
(** [now] is the clock reading. *)
Definition FlushAggregates (c : Collector) (now : time) (retainWindow : Z) : outcome (Collector * list Aggregate) :=
  '(m, all) ← flushLoop (Add_ now (- retainWindow)) (map_entries (pids c)) (pids c) [];
  Ok ({| pids := m |}, all).
End Ops.
End Collect.

(** ** The ring buffer holds the last samples *)

Module RingFacts.
Import Ring.

Lemma maxSamples_eq : maxSamples = 1800.
Proof. reflexivity. Qed.
Definition cap : nat := Z.to_nat maxSamples.
Lemma cap_Z : Z.of_nat cap = maxSamples.
Proof. reflexivity. Qed.
Lemma cap_pos : (0 < cap)%nat.
Proof. pose proof cap_Z. rewrite maxSamples_eq in *. lia. Qed.
#[global] Opaque cap.

(** The last [cap] samples of a list. *)
Definition recent (l : list Sample) : list Sample := drop (length l - cap) l.

(** [repr r l]: the buffer after the samples [l]; sample number [j] is in slot
    [j] modulo the capacity. *)
Record repr (r : RingBuffer) (l : list Sample) : Prop := {
  rp_length : length (samples r) = cap;
  rp_head : head r = Z.of_nat (length l mod cap)%nat;
  rp_count : count r = Z.of_nat (min (length l) cap);
  rp_slots : ∀ j, (length l ≤ j + cap)%nat → (j < length l)%nat → samples r !! (j mod cap)%nat = l !! j }.

Lemma repr_new : repr new_ring [].
Proof.
  constructor; cbn [length]; [apply length_replicate| | |lia].
  - by rewrite Nat.Div0.mod_0_l.
  - done.
Qed.

Lemma slot_inj j n : (j < n)%nat → (n ≤ j + cap)%nat → (j mod cap = n mod cap)%nat → (n = j + cap)%nat.
Proof.
  intros Hj Hn Hm. pose proof (Nat.div_mod_eq j cap). pose proof (Nat.div_mod_eq n cap). pose proof cap_pos.
  assert (n / cap = j / cap + 1)%nat; nia.
Qed.

Lemma Add_repr r l s : repr r l → wp (RingAdd r s) (λ r', repr r' (l ++ [s])) ∧ RingAdd r s ≠ Panic ∧ ∀ e, RingAdd r s ≠ Err e.
Proof.
  intros [Hlen Hh Hc Hs]. assert (length l mod cap < cap)%nat as Hm by (apply Nat.mod_upper_bound; pose proof cap_pos; lia).
  assert (RingAdd r s = Ok {| samples := <[(length l mod cap)%nat := s]> (samples r); head := Z.rem (head r + 1) maxSamples;
    count := if count r <? maxSamples then count r + 1 else count r |}) as ->.
  { unfold RingAdd, set_idx. rewrite Hh. unfold len. rewrite Hlen.
    destruct (_ && _) eqn:E; [|to_prop; destruct E; to_prop; lia]. by rewrite Nat2Z.id. }
  split; [|split; [|intros e]; discriminate]. apply wp_ok. rewrite <-cap_Z. constructor; cbn [samples head count].
  - by rewrite length_insert.
  - rewrite Hh, length_app. cbn [length]. rewrite Z.rem_mod_nonneg by lia.
    rewrite <-(Nat.Div0.add_mod_idemp_l (length l) 1 cap), (Nat2Z.inj_mod (_ + 1)), Nat2Z.inj_add. done.
  - rewrite Hc, length_app. cbn [length]. destruct (Z.ltb_spec (Z.of_nat (length l `min` cap)) (Z.of_nat cap)); lia.
  - intros j Hj1 Hj2. rewrite length_app in *. cbn [length] in *. destruct (decide (j = length l)) as [->|Hne].
    + rewrite list_lookup_insert_eq by (by rewrite Hlen). by rewrite lookup_app_r, Nat.sub_diag by lia.
    + rewrite list_lookup_insert_ne; [rewrite Hs, lookup_app_l by lia; done|].
      intros Heq. symmetry in Heq. apply slot_inj in Heq; lia.
Qed.

Lemma lookup_recent l k : recent l !! k = l !! (length l - cap + k)%nat.
Proof. unfold recent. apply lookup_drop. Qed.
Lemma copy_full {A} (dst src : list A) : length dst = length src → copy dst src = src.
Proof. intros Hl. unfold copy. rewrite take_ge by lia. rewrite drop_ge by lia. apply app_nil_r. Qed.

(** The slots from the head on, then those before it, are the last samples. *)
Lemma rotated r l :
  repr r l → (cap ≤ length l)%nat →
  drop (length l mod cap) (samples r) ++ take (length l mod cap) (samples r) = recent l.
Proof.
  intros [Hlen Hh Hc Hs] Hl. set (h := (length l mod cap)%nat).
  assert (h < cap)%nat as Hm by (apply Nat.mod_upper_bound; pose proof cap_pos; lia).
  apply list_eq. intros k. rewrite lookup_recent. destruct (decide (k < cap)%nat) as [Hk|Hk].
  - rewrite <-Hs by lia. assert (((length l - cap + k) mod cap = (h + k) mod cap)%nat) as ->.
    { unfold h. rewrite Nat.Div0.add_mod_idemp_l. rewrite <-(Nat.Div0.mod_add (length l - cap + k) 1 cap). f_equal. lia. }
    destruct (decide (h + k < cap)%nat).
    + rewrite lookup_app_l by (rewrite length_drop; lia). rewrite lookup_drop. by rewrite Nat.mod_small.
    + rewrite lookup_app_r by (rewrite length_drop; lia). rewrite length_drop, Hlen, lookup_take, decide_True by lia.
      f_equal. replace (h + k)%nat with (k - (cap - h) + 1 * cap)%nat by lia. rewrite Nat.Div0.mod_add. by rewrite Nat.mod_small by lia.
  - rewrite !(lookup_ge_None_2); [done|lia|]. rewrite length_app, length_drop, length_take. lia.
Qed.

Lemma Samples_repr r l : repr r l → Samples r = Ok (recent l).
Proof.
  intros Hr. pose proof Hr as [Hlen Hh Hc Hs]. unfold Samples, samples_from. rewrite Hc, <-cap_Z. pose proof cap_pos.
  destruct (Z.eqb_spec (Z.of_nat (length l `min` cap)) 0) as [H0|H0].
  { assert (l = []) as -> by (apply nil_length_inv; lia). done. }
  destruct (Z.ltb_spec (Z.of_nat (length l `min` cap)) (Z.of_nat cap)) as [Hl|Hl].
  - rewrite (slice_ok (samples r)) by (unfold len; lia). cbn [mbind outcome_bind]. unfold sub. rewrite Z.sub_0_r, !Nat2Z.id, drop_0. f_equal.
    assert (take (length l `min` cap) (samples r) = recent l) as Ht.
    { unfold recent. replace (length l - cap)%nat with 0%nat by lia. rewrite drop_0. apply list_eq. intros i.
      destruct (decide (i < length l)%nat) as [Hi|Hi].
      - rewrite lookup_take, decide_True by lia. rewrite <-Hs by lia. by rewrite Nat.mod_small by lia.
      - rewrite !lookup_ge_None_2; [done|lia|]. rewrite length_take. lia. }
    rewrite copy_full; [done|]. rewrite length_replicate, length_take. lia.
  - assert (length l mod cap < cap)%nat as Hm by (apply Nat.mod_upper_bound; lia).
    rewrite Hh. rewrite slice_from_ok by (unfold len; lia). cbn [mbind outcome_bind]. rewrite slice_ok by (unfold len; lia).
    cbn [mbind outcome_bind]. f_equal. rewrite <-(rotated r l Hr) by lia. unfold sub, len.
    rewrite Z.sub_0_r, drop_0, !Nat2Z.id.
    set (h := (length l mod cap)%nat) in *. rewrite (take_ge (drop h (samples r))) by (rewrite length_drop; lia).
    rewrite length_replicate, length_drop, Hlen. rewrite (take_ge (drop h (samples r))) by (rewrite length_drop; lia).
    f_equal. apply copy_full. rewrite length_drop, length_replicate, length_take. lia.
Qed.

(** Reading a full buffer whose array has been written since its position was
    loaded. *)
Lemma torn_read r r' l s :
  repr r l → (cap ≤ length l)%nat → RingAdd r s = Ok r' →
  samples_from r (samples r') = Ok (s :: tail (recent l)) ∧ repr r' (l ++ [s]).
Proof.
  intros Hr Hl Hadd. destruct (Add_repr r l s Hr) as (Hwp & _ & _). rewrite Hadd in Hwp. split; [|exact Hwp].
  pose proof Hr as [Hlen Hh Hc _]. set (h := (length l mod cap)%nat) in *.
  assert (h < cap)%nat as Hm by (apply Nat.mod_upper_bound; pose proof cap_pos; lia).
  assert (samples r' = <[h := s]> (samples r)) as Hs.
  { revert Hadd. unfold RingAdd, set_idx. rewrite Hh. unfold len. rewrite Hlen. destruct (_ && _); [|done].
    cbn [mbind outcome_bind]. intros [= <-]. cbn [samples]. by rewrite Nat2Z.id. }
  rewrite <-(rotated r l Hr Hl). fold h. unfold samples_from. rewrite Hc, <-cap_Z, Hh. pose proof cap_pos.
  destruct (Z.eqb_spec (Z.of_nat (length l `min` cap)) 0); [lia|].
  destruct (Z.ltb_spec (Z.of_nat (length l `min` cap)) (Z.of_nat cap)); [lia|].
  assert (length (samples r') = cap) as Hlen' by (by rewrite Hs, length_insert).
  rewrite slice_from_ok by (unfold len; lia). cbn [mbind outcome_bind]. rewrite slice_ok by (unfold len; lia). cbn [mbind outcome_bind].
  f_equal. unfold sub, len. rewrite Z.sub_0_r, drop_0, !Nat2Z.id, Hs.
  rewrite (take_ge (drop h _)) by (rewrite length_drop, length_insert; lia).
  rewrite length_replicate, length_drop, length_insert, Hlen. rewrite (take_ge (drop h _)) by (rewrite length_drop, length_insert; lia).
  rewrite copy_full by (rewrite length_drop, length_replicate, length_take, length_insert; lia).
  rewrite take_insert_ge by lia. destruct (lookup_lt_is_Some_2 (samples r) h) as [x Hx]; [lia|].
  rewrite (drop_S (samples r) x h) by done. rewrite (drop_S _ s h) by (by rewrite list_lookup_insert_eq by lia).
  rewrite drop_insert_lt by lia. done.
Qed.
End RingFacts.

(** ** Aggregates *)

Module AggregateFacts.
Import Ring RingFacts.

(** The samples of one process and minute, and their running summary. *)
Definition group (k : Z * time) (ss : list Sample) : list Sample := filter (λ s, group_key s = k) ss.
Definition summary (k : Z * time) (g : list Sample) : Aggregate := fold_left accumulate g (new_aggregate k.1 k.2).

Lemma groups_lookup ss m k :
  fold_left groupStep ss m !! k =
  match group k ss with
  | [] => m !! k
  | g => Some (fold_left accumulate g (default (new_aggregate k.1 k.2) (m !! k)))
  end.
Proof.
  revert m. induction ss as [|s ss IH]; intros m; [done|]. cbn [fold_left]. rewrite IH. unfold group, groupStep. rewrite filter_cons.
  destruct (decide (group_key s = k)) as [<-|Hk].
  - rewrite lookup_insert_eq. cbn [fold_left]. by destruct (filter _ ss).
  - by rewrite lookup_insert_ne.
Qed.

Definition total (g : list Sample) : Z := fold_right (λ s n, RSSKiB s + n) 0 g.

Lemma accumulate_fold g a :
  let r := fold_left accumulate g a in
  APID r = APID a ∧ MinuteAt r = MinuteAt a ∧ SampleCount r = SampleCount a + len g ∧
  i64 (AvgRSSKiB r) = i64 (AvgRSSKiB a + total g) ∧
  MaxRSSKiB a <= MaxRSSKiB r ∧ Forall (λ s, RSSKiB s <= MaxRSSKiB r) g ∧
  (MaxRSSKiB r = MaxRSSKiB a ∨ ∃ s, s ∈ g ∧ RSSKiB s = MaxRSSKiB r).
Proof.
  revert a. induction g as [|s g IH]; intros a.
  { simpl. split_and!; try done; [unfold len; simpl; lia|f_equal; lia|by left]. }
  cbn [fold_left total fold_right]. destruct (IH (accumulate a s)) as (H1 & H2 & H3 & H4 & H5 & H6 & H7).
  set (r := fold_left accumulate g (accumulate a s)) in *. cbn [accumulate APID MinuteAt SampleCount AvgRSSKiB MaxRSSKiB] in *.
  split_and!; try done.
  - rewrite H3, len_cons. lia.
  - rewrite H4, i64_add. f_equal. fold (total g). lia.
  - destruct (Z.ltb_spec (MaxRSSKiB a) (RSSKiB s)); lia.
  - constructor; [|done]. destruct (Z.ltb_spec (MaxRSSKiB a) (RSSKiB s)); lia.
  - destruct H7 as [H7|(s' & Hs' & H7)]; [|right; exists s'; split; [by apply elem_of_cons; right|done]].
    destruct (Z.ltb_spec (MaxRSSKiB a) (RSSKiB s)); [right; exists s; split; [by apply elem_of_cons; left|done]|by left].
Qed.

(** What one row says about the samples of its minute. *)
Definition row_of (g : list Sample) (a : Aggregate) : Prop :=
  SampleCount a = len g ∧ 0 < len g ∧
  Forall (λ s, RSSKiB s <= MaxRSSKiB a) g ∧ (MaxRSSKiB a = 0 ∨ ∃ s, s ∈ g ∧ RSSKiB s = MaxRSSKiB a) ∧
  (Forall (λ s, 0 <= RSSKiB s < 2 ^ 52) g → len g <= maxSamples → AvgRSSKiB a = total g `div` len g).

Lemma total_bound g : Forall (λ s, 0 <= RSSKiB s < 2 ^ 52) g → 0 <= total g <= 2 ^ 52 * len g.
Proof.
  induction 1 as [|s g Hs Hg IH]; [unfold len; simpl; lia|]. cbn [total fold_right]. fold (total g). rewrite len_cons. lia.
Qed.
Lemma i64_in_range a : i64 (i64 a) = i64 a.
Proof. apply i64_small, i64_range. Qed.
Lemma avg_wrapped g a : g ≠ [] → AvgRSSKiB (fold_left accumulate g a) = i64 (AvgRSSKiB a + total g).
Proof.
  intros Hg. pose proof (accumulate_fold g a) as (_ & _ & _ & H4 & _). rewrite <-H4.
  destruct (exists_last Hg) as (g' & s & ->). rewrite fold_left_app. cbn [fold_left accumulate AvgRSSKiB]. by rewrite i64_in_range.
Qed.
Lemma summary_row k g :
  g ≠ [] → row_of g (finish (summary k g)) ∧ APID (finish (summary k g)) = k.1 ∧ MinuteAt (finish (summary k g)) = k.2.
Proof.
  intros Hg. pose proof (accumulate_fold g (new_aggregate k.1 k.2)) as (H1 & H2 & H3 & _ & _ & H6 & H7).
  pose proof (avg_wrapped g (new_aggregate k.1 k.2) Hg) as H4. unfold summary. set (r := fold_left accumulate g _) in *.
  cbn [new_aggregate APID MinuteAt SampleCount AvgRSSKiB MaxRSSKiB] in *.
  assert (0 < len g) as Hl by (destruct g; [done|rewrite len_cons; glia]).
  unfold finish. rewrite H3, Z.add_0_l. destruct (Z.ltb_spec 0 (len g)); [|lia]. split; [|done].
  split_and!; cbn; try done. intros Hb Hm. rewrite H4, Z.add_0_l. pose proof (total_bound g Hb) as Ht. rewrite maxSamples_eq in Hm.
  assert (0 <= total g < 2 ^ 63) as Ht' by nia. rewrite (i64_small (total g)) by lia. rewrite Z.quot_div_nonneg by lia.
  apply i64_small. pose proof (Z.div_pos (total g) (len g)). assert (total g `div` len g <= total g); [|lia].
  apply Z.div_le_upper_bound; [lia|nia].
Qed.

Section Rows.
Context {R : GoRuntime} {HR : RuntimeOk R}.

Lemma aggregate_rows r l :
  repr r l → ∃ rows, aggregate r = Ok rows ∧ NoDup ((λ a, (APID a, MinuteAt a)) <$> rows) ∧
    ∀ a, a ∈ rows ↔ ∃ k, group k (recent l) ≠ [] ∧ a = finish (summary k (group k (recent l))).
Proof.
  intros Hr. unfold aggregate. rewrite (Samples_repr r l Hr). cbn [mbind outcome_bind].
  destruct (Z.eqb_spec (len (recent l)) 0) as [H0|H0].
  { assert (recent l = []) as -> by (apply nil_length_inv; unfold len in H0; lia). exists []. split_and!; [done|constructor|].
    intros a. rewrite elem_of_nil. naive_solver. }
  eexists. split; [reflexivity|]. set (m := fold_left groupStep (recent l) ∅).
  assert (∀ k a, m !! k = Some a ↔ group k (recent l) ≠ [] ∧ a = summary k (group k (recent l))) as Hm.
  { intros k a. unfold m. rewrite groups_lookup, lookup_empty. unfold summary. destruct (group k (recent l)); naive_solver. }
  split.
  - rewrite <-!list_fmap_compose. assert (((λ a, (APID a, MinuteAt a)) ∘ finish ∘ snd) <$> map_entries m = map_keys m) as ->; [|apply entries_NoDup].
    apply list_fmap_ext. intros i [k a] Hi. apply list_elem_of_lookup_2, elem_of_entries, Hm in Hi as [Hg ->].
    destruct (summary_row k _ Hg) as (_ & H1 & H2). simpl. rewrite H1, H2. by destruct k.
  - intros a. rewrite list_elem_of_fmap. split.
    + intros (a' & -> & ([k a''] & -> & Hk%elem_of_entries)%list_elem_of_fmap). apply Hm in Hk as [Hg ->]. by exists k.
    + intros (k & Hg & ->). eexists. split; [reflexivity|]. apply list_elem_of_fmap.
      exists (k, summary k (group k (recent l))). split; [done|]. by apply elem_of_entries, Hm.
Qed.
End Rows.
End AggregateFacts.

(** ** The collector refines a map of histories *)

Module CollectFacts.
Import Ring Collect RingFacts AggregateFacts.

(** An operation on the collector, and its effect on the samples of each PID
    since the PID was last evicted. *)
Inductive op := OAdd (s : Sample) | OFlush (now : time) (retainWindow : Z).
Definition expired (cutoff : time) (l : list Sample) : bool :=
  match last l with Some s => Before (TakenAt s) cutoff | None => false end.
Definition spec_step (m : gmap Z (list Sample)) (o : op) : gmap Z (list Sample) :=
  match o with
  | OAdd s => <[PID s := default [] (m !! PID s) ++ [s]]> m
  | OFlush now w => filter (λ '(_, l), expired (now - w) l = false) m
  end.
Definition spec (os : list op) : gmap Z (list Sample) := fold_left spec_step os ∅.
(** The samples [Recent] should show. *)
Definition shown (l : list Sample) (limit : Z) : list Sample :=
  if (0 <? limit) && (limit <? len (recent l)) then drop (Z.to_nat (len (recent l) - limit)) (recent l) else recent l.

Section Run.
Context {R : GoRuntime} {HR : RuntimeOk R}.

Definition step (c : Collector) (o : op) : outcome Collector :=
  match o with
  | OAdd s => Collect.Add c s
  | OFlush now w => '(c, _) ← FlushAggregates c now w; Ok c
  end.
Fixpoint run (c : Collector) (os : list op) : outcome Collector :=
  match os with [] => Ok c | o :: os => c ← step c o; run c os end.

(** The buffers represent the histories, none of which is empty. *)
Definition cell (r : option RingBuffer) (l : option (list Sample)) : Prop :=
  match r, l with Some r, Some l => repr r l ∧ l ≠ [] | None, None => True | _, _ => False end.
Definition refines (c : Collector) (m : gmap Z (list Sample)) : Prop := ∀ pid, cell (pids c !! pid) (m !! pid).

Lemma Add_refines c m s : refines c m → ∃ c', Collect.Add c s = Ok c' ∧ refines c' (spec_step m (OAdd s)).
Proof.
  intros Hc. unfold Collect.Add. assert (repr (default new_ring (pids c !! PID s)) (default [] (m !! PID s))) as Hr.
  { specialize (Hc (PID s)). destruct (pids c !! PID s), (m !! PID s); simpl in *; try done; [apply Hc|apply repr_new]. }
  destruct (Add_repr _ _ s Hr) as (Hwp & Hp & He). destruct (Ring.RingAdd _ s) as [rb|e|]; [|by destruct (He e)|done].
  eexists. split; [reflexivity|]. intros pid. cbn [pids spec_step]. destruct (decide (PID s = pid)) as [<-|Hne].
  - rewrite !lookup_insert_eq. split; [exact Hwp|]. by destruct (default [] (m !! PID s)).
  - rewrite !lookup_insert_ne by done. apply Hc.
Qed.

Lemma last_recent l : last (recent l) = last l.
Proof.
  destruct (decide (l = [])) as [->|Hne]; [done|]. unfold recent. transitivity (last (take (length l - cap) l ++ drop (length l - cap) l)); [|by rewrite take_drop].
  rewrite last_app. destruct (last (drop _ l)) eqn:E; [done|]. apply last_None in E.
  apply (f_equal length) in E. rewrite length_drop in E. cbn [length] in E. pose proof cap_pos. destruct l; [done|]. cbn [length] in *. lia.
Qed.
Lemma flushLoop_spec cutoff es (m : gmap Z (list Sample)) left_ all :
  NoDup es.*1 → (∀ pid r, (pid, r) ∈ es → ∃ l, m !! pid = Some l ∧ repr r l ∧ l ≠ []) →
  ∃ left' all', flushLoop cutoff es left_ all = Ok (left', all') ∧
    ∀ pid, left' !! pid = if decide (pid ∈ es.*1 ∧ (expired cutoff <$> m !! pid) = Some true) then None else left_ !! pid.
Proof.
  revert left_ all. induction es as [|[pid r] es IH]; intros left_ all Hn He.
  { eexists _, _. split; [reflexivity|]. intros pid. rewrite decide_False; [done|]. intros [H _]. by apply elem_of_nil in H. }
  rewrite fmap_cons in Hn. apply NoDup_cons in Hn as [Hp Hn]. cbn [fst] in Hp.
  destruct (He pid r) as (l & Hl & Hr & Hne); [by apply elem_of_cons; left|]. cbn [flushLoop].
  destruct (aggregate_rows r l Hr) as (rows & -> & _). cbn [mbind outcome_bind]. rewrite (Samples_repr r l Hr). cbn [mbind outcome_bind].
  rewrite last_recent. set (left1 := match last l with Some s => _ | None => _ end).
  destruct (IH left1 (all ++ rows) Hn) as (left' & all' & Hrun & Hleft). { intros. apply He. by apply elem_of_cons; right. }
  exists left', all'. split; [done|]. intros pid'. rewrite Hleft, fmap_cons. cbn [fst].
  assert (left1 !! pid' = if decide (pid' = pid ∧ expired cutoff l = true) then None else left_ !! pid') as Hl1.
  { subst left1. unfold expired. destruct (last l) as [s|]; [|by rewrite decide_False by naive_solver].
    destruct (Before _ _); [|by rewrite decide_False by naive_solver]. destruct (decide (pid' = pid)) as [->|].
    - rewrite decide_True by done. apply lookup_delete_eq.
    - rewrite decide_False by naive_solver. by apply lookup_delete_ne. }
  rewrite Hl1. destruct (decide (pid' = pid)) as [->|Hd].
  - rewrite Hl. cbn [fmap option_fmap option_map]. rewrite decide_False by naive_solver.
    destruct (expired cutoff l); [rewrite !decide_True; [done| |done]|rewrite !decide_False by naive_solver; done].
    split; [by apply elem_of_cons; left|done].
  - rewrite (decide_False (P := pid' = pid ∧ _)) by naive_solver.
    destruct (decide (pid' ∈ es.*1 ∧ _)) as [Hin|Hin]; [rewrite decide_True|rewrite decide_False]; try done; rewrite elem_of_cons; naive_solver.
Qed.
Lemma Flush_refines c m now w :
  refines c m → ∃ c' all, FlushAggregates c now w = Ok (c', all) ∧ refines c' (spec_step m (OFlush now w)).
Proof.
  intros Hc. unfold FlushAggregates. unfold Add_. fold (now - w).
  destruct (flushLoop_spec (now - w) (map_entries (pids c)) m (pids c) []) as (left' & all & -> & Hl).
  - apply entries_NoDup.
  - intros pid r Hr%elem_of_entries. specialize (Hc pid). rewrite Hr in Hc. destruct (m !! pid); [|done]. eexists. split; [done|]. apply Hc.
  - eexists _, _. split; [reflexivity|]. intros pid. cbn [pids spec_step]. rewrite Hl. specialize (Hc pid).
    rewrite map_lookup_filter. destruct (pids c !! pid) as [r|] eqn:Er.
    + assert (pid ∈ (map_entries (pids c)).*1) as Hin.
      { apply list_elem_of_fmap. exists (pid, r). split; [done|]. by apply elem_of_entries. }
      destruct (m !! pid) as [l|]; [|done]. simpl. destruct (expired (now - w) l) eqn:Ee.
      * rewrite decide_True by done. by case_guard.
      * rewrite decide_False by naive_solver. by case_guard.
    + destruct (m !! pid); [done|]. by rewrite decide_False by (intros [_ ?]; done).
Qed.
Lemma run_refines os c m : refines c m → ∃ c', run c os = Ok c' ∧ refines c' (fold_left spec_step os m).
Proof.
  revert c m. induction os as [|o os IH]; intros c m Hc; [by eexists|]. cbn [run fold_left].
  assert (∃ c', step c o = Ok c' ∧ refines c' (spec_step m o)) as (c' & -> & Hc').
  { destruct o as [s|now w]; cbn [step]; [by apply Add_refines|].
    destruct (Flush_refines c m now w Hc) as (c' & all & -> & Hc'). by eexists. }
  cbn [mbind outcome_bind]. by apply IH.
Qed.
Lemma Recent_refines c m pid limit : refines c m → Recent c pid limit = Ok (shown (default [] (m !! pid)) limit).
Proof.
  intros Hc. specialize (Hc pid). unfold Recent. destruct (pids c !! pid) as [r|], (m !! pid) as [l|]; try done.
  - destruct Hc as [Hr _]. rewrite (Samples_repr r l Hr). cbn [mbind outcome_bind]. unfold shown. simpl.
    destruct (_ && _) eqn:E; [|done]. to_prop. rewrite slice_from_ok by glia. f_equal. unfold sub, len. by rewrite take_ge by (rewrite length_drop; lia).
  - unfold shown. simpl. unfold recent. simpl. destruct (_ && _) eqn:E; [|done]. to_prop. unfold len in *. simpl in *. lia.
Qed.
End Run.
End CollectFacts.

(** ** Properties *)

Section Properties.
Import Ring Collect RingFacts AggregateFacts CollectFacts.
Context {R : GoRuntime} {HR : RuntimeOk R}.

(** C40: The collector refines a map from PIDs to the samples added since the
    PID was last evicted: no sequence of additions and flushes fails, [Recent]
    shows the newest of the last 1800 samples of a PID in the order they were
    added, and a flush evicts exactly the PIDs whose newest sample is older than
    the window. *)
Theorem collector_refines (os : list op) :
  ∃ c, run NewCollector os = Ok c ∧
    (∀ pid limit, Recent c pid limit = Ok (shown (default [] (spec os !! pid)) limit)) ∧
    (∀ pid, pid ∈ PIDs c ↔ is_Some (spec os !! pid)).
Proof.
  destruct (run_refines os NewCollector ∅) as (c & Hrun & Hc); [intros pid; done|]. exists c. split_and!; [done| |].
  - intros pid limit. by apply Recent_refines.
  - intros pid. unfold PIDs, map_keys. rewrite list_elem_of_fmap. specialize (Hc pid). fold (spec os) in Hc. split.
    + intros ([pid' r] & -> & Hr%elem_of_entries). simpl in *. rewrite Hr in Hc. destruct (spec os !! pid'); [by eexists|done].
    + intros [l Hl]. rewrite Hl in Hc. destruct (pids c !! pid) as [r|] eqn:Er; [|done]. exists (pid, r). split; [done|]. by apply elem_of_entries.
Qed.

(** The rows of a buffer: one per process and minute with samples, each with
    the number of them, their largest resident size, and the mean of the sizes
    rounded down, which does not overflow for sizes below 2^52 KiB. *)
Theorem aggregate_exact (r : RingBuffer) (l : list Sample) :
  repr r l →
  ∃ rows, aggregate r = Ok rows ∧ NoDup ((λ a, (APID a, MinuteAt a)) <$> rows) ∧
    (∀ a, a ∈ rows → row_of (group (APID a, MinuteAt a) (recent l)) a) ∧
    (∀ s, s ∈ recent l → ∃ a, a ∈ rows ∧ APID a = PID s ∧ MinuteAt a = Truncate (TakenAt s) Minute).
Proof.
  intros Hr. destruct (aggregate_rows r l Hr) as (rows & Hrows & Hn & Hin). exists rows. split_and!; [done..| |].
  - intros a (k & Hg & ->)%Hin. destruct (summary_row k _ Hg) as (Hrow & -> & ->). by destruct k.
  - intros s Hs. assert (group (group_key s) (recent l) ≠ []) as Hg.
    { intros Hg. assert (s ∈ group (group_key s) (recent l)) as Hin' by (by apply list_elem_of_filter). rewrite Hg in Hin'. by apply elem_of_nil in Hin'. }
    eexists. split; [apply Hin; eexists; split; [exact Hg|reflexivity]|]. destruct (summary_row (group_key s) _ Hg) as (_ & -> & ->). done.
Qed.
End Properties.

(** [Recent] reads a buffer after it released the lock.  If it loads the
    position of a full buffer before an [Add] and the array after it, the new
    sample comes first: the result is the history neither before nor after the
    [Add], and it is not in the order of the samples. *)
Theorem recent_races_with_add (r r' : Ring.RingBuffer) (l : list Ring.Sample) (s : Ring.Sample) :
  RingFacts.repr r l → Ring.maxSamples <= len l → Ring.RingAdd r s = Ok r' →
  Ring.samples_from r (Ring.samples r') = Ok (s :: tail (RingFacts.recent l)) ∧
  Ring.Samples r = Ok (RingFacts.recent l) ∧ Ring.Samples r' = Ok (tail (RingFacts.recent l) ++ [s]).
Proof.
  intros Hr Hl Hadd. assert (RingFacts.cap ≤ length l)%nat as Hl' by (rewrite <-RingFacts.cap_Z in Hl; unfold len in Hl; lia).
  destruct (RingFacts.torn_read r r' l s Hr Hl' Hadd) as [Ht Hr']. split_and!; [done|by apply RingFacts.Samples_repr|].
  rewrite (RingFacts.Samples_repr r' _ Hr'). f_equal. unfold RingFacts.recent. pose proof RingFacts.cap_pos.
  rewrite length_app. cbn [length]. rewrite drop_app_le by lia. f_equal.
  replace (length l + 1 - RingFacts.cap)%nat with (S (length l - RingFacts.cap)) by lia.
  rewrite <-(Nat.add_1_r (length l - RingFacts.cap)), <-drop_drop. by destruct (drop (length l - RingFacts.cap) l).
Qed.

(** ** Concrete instances *)

Section Witnesses.
Import Ring Collect RingFacts AggregateFacts CollectFacts.

Definition demo_sample (t rss : Z) : Sample := {| TakenAt := t * Second; PID := 7; RSSKiB := rss; CPUPct := of_Z 3; VSizeKiB := 0 |}.
Definition demo_samples (n : nat) : list Sample := map (λ i, demo_sample (Z.of_nat i) (Z.of_nat i)) (seq 0 n).
Fixpoint fill (r : RingBuffer) (l : list Sample) : RingBuffer :=
  match l with [] => r | s :: l => match Ring.RingAdd r s with Ok r => fill r l | _ => r end end.
Lemma fill_repr r l k : repr r k → repr (fill r l) (k ++ l).
Proof.
  revert r k. induction l as [|s l IH]; intros r k Hr; [by rewrite app_nil_r|]. cbn [fill].
  destruct (Add_repr r k s Hr) as (Hwp & Hp & He). destruct (Ring.RingAdd r s) as [r'|e|]; [|by destruct (He e)|done].
  replace (k ++ s :: l) with ((k ++ [s]) ++ l) by (by rewrite <-app_assoc). by apply IH.
Qed.
Lemma collector_refines_witness :
  ∃ c, run (R := go_runtime) NewCollector [OAdd (demo_sample 1 10); OAdd (demo_sample 2 20); OFlush Hour Minute] = Ok c.
Proof.
  destruct (collector_refines (R := go_runtime) [OAdd (demo_sample 1 10); OAdd (demo_sample 2 20); OFlush Hour Minute]) as (c & Hc & _).
  exists c. exact Hc.
Defined.
Lemma aggregate_exact_witness :
  ∃ rows, aggregate (R := go_runtime) (fill new_ring (demo_samples 100)) = Ok rows ∧
    ∀ a, a ∈ rows → row_of (group (APID a, MinuteAt a) (recent (demo_samples 100))) a.
Proof.
  destruct (aggregate_exact (R := go_runtime) (fill new_ring (demo_samples 100)) (demo_samples 100)) as (rows & Hrows & _ & Hrow & _).
  - exact (fill_repr new_ring (demo_samples 100) [] repr_new).
  - exists rows. split; [exact Hrows|exact Hrow].
Defined.
Definition demo_full : list Sample := replicate 1800 (demo_sample 1 1).
Definition after_add (r : RingBuffer) (s : Sample) : RingBuffer := match Ring.RingAdd r s with Ok r => r | _ => r end.
Lemma after_add_ok r l s : repr r l → Ring.RingAdd r s = Ok (after_add r s).
Proof. intros Hr. destruct (Add_repr r l s Hr) as (_ & Hp & He). unfold after_add. destruct (Ring.RingAdd r s) as [r'|e|]; [done|by destruct (He e)|done]. Qed.
Lemma recent_races_with_add_witness :
  let r := fill new_ring demo_full in
  samples_from r (samples (after_add r (demo_sample 2 2))) = Ok (demo_sample 2 2 :: tail (recent demo_full)).
Proof.
  apply (recent_races_with_add (fill new_ring demo_full) (after_add (fill new_ring demo_full) (demo_sample 2 2)) demo_full (demo_sample 2 2)).
  - exact (fill_repr new_ring demo_full [] repr_new).
  - vm_compute. discriminate.
  - apply (after_add_ok _ demo_full), (fill_repr new_ring demo_full [] repr_new).
Defined.
End Witnesses.
