(* ===== verification/Arrays.v ===== *)
(** * Slices used as arrays, and loops over them

    Total correctness of code without an error result: [runs m Q] says that
    [m] returns a value, without a panic, and that the value satisfies [Q].
    [get] and [put] are the reads and writes of a slice within its bounds; the
    rules turn the bounds-checked [idx] and [set_idx] of the models into them.
    [for_each] is a [for _, x := range l] loop that updates a state.  The file
    also has the lemmas on filters and sums over lists. *)

From stdpp Require Import relations.
From S2P Require Import Prelude.

(** ** Filters *)

Lemma filter_none {A} (P : A → Prop) `{∀ x, Decision (P x)} (l : list A) : (∀ x, x ∈ l → ¬ P x) → filter P l = [].
Proof. induction l as [|x l IH]; intros Hn; [done|]. rewrite filter_cons, decide_False by set_solver. apply IH. set_solver. Qed.
Lemma filter_all {A} (P : A → Prop) `{∀ x, Decision (P x)} (l : list A) : (∀ x, x ∈ l → P x) → filter P l = l.
Proof. induction l as [|x l IH]; intros Hn; [done|]. rewrite filter_cons, decide_True by set_solver. rewrite IH; set_solver. Qed.

Lemma length_omap {A B} (f : A → option B) (l : list A) : (length (omap f l) <= length l)%nat.
Proof. induction l as [|x l IH]; [done|]. cbn [omap list_omap length]. destruct (f x); cbn [length]; lia. Qed.

(** ** Total correctness *)

Definition runs {A} (m : outcome A) (Q : A → Prop) : Prop := ∃ a, m = Ok a ∧ Q a.

Lemma runs_ok {A} (a : A) (Q : A → Prop) : Q a → runs (Ok a) Q.
Proof. intros; by exists a. Qed.
Lemma runs_bind {A B} (m : outcome A) (f : A → outcome B) Q :
  runs m (λ a, runs (f a) Q) → runs (m ≫= f) Q.
Proof. by intros (a & -> & b & Hb & HQ); exists b. Qed.
Lemma runs_mono {A} (m : outcome A) (P Q : A → Prop) : runs m P → (∀ a, P a → Q a) → runs m Q.
Proof. intros (a & -> & HP) HPQ. exists a. auto. Qed.
Lemma runs_wp {A} (m : outcome A) Q : runs m Q → wp m Q.
Proof. by intros (a & -> & HQ). Qed.
Lemma runs_if {A} (b : bool) (m1 m2 : outcome A) Q :
  (b = true → runs m1 Q) → (b = false → runs m2 Q) → runs (if b then m1 else m2) Q.
Proof. destruct b; auto. Qed.

(** ** Reads and writes within bounds *)

Definition get {A} `{Inhabited A} (l : list A) (i : Z) : A := l !!! Z.to_nat i.
Definition put {A} (l : list A) (i : Z) (a : A) : list A := <[Z.to_nat i := a]> l.

Section Arrays.
Context {A : Type} `{!Inhabited A}.
Implicit Types (l : list A) (i j : Z) (a : A).

Lemma len_put l i a : len (put l i a) = len l.
Proof. unfold len, put. by rewrite length_insert. Qed.
Lemma get_lookup l i a : l !! Z.to_nat i = Some a → get l i = a.
Proof. apply list_lookup_total_correct. Qed.
Lemma lookup_get l i : 0 <= i < len l → l !! Z.to_nat i = Some (get l i).
Proof. unfold len. intros. apply list_lookup_lookup_total_lt. lia. Qed.
Lemma get_put l i j a : 0 <= i < len l → 0 <= j → get (put l i a) j = if decide (j = i) then a else get l j.
Proof.
  unfold get, put, len. intros Hi Hj. case_decide as Hd.
  - subst. rewrite list_lookup_total_insert_eq; [done|lia].
  - rewrite list_lookup_total_insert_ne; [done|lia].
Qed.
Lemma get_put_eq l i a : 0 <= i < len l → get (put l i a) i = a.
Proof. intros. rewrite get_put by lia. by rewrite decide_True. Qed.
Lemma get_put_ne l i j a : 0 <= i → 0 <= j → i ≠ j → get (put l i a) j = get l j.
Proof. intros. unfold get, put. apply list_lookup_total_insert_ne. lia. Qed.
Lemma put_get l i : put l i (get l i) = l.
Proof.
  unfold put. destruct (l !! Z.to_nat i) as [a|] eqn:E.
  - rewrite (get_lookup _ _ _ E). by apply list_insert_id.
  - apply list_insert_ge. by apply lookup_ge_None.
Qed.
Lemma get_replicate n a i : 0 <= i < n → get (replicate (Z.to_nat n) a) i = a.
Proof. intros. apply get_lookup, lookup_replicate_2. lia. Qed.
Lemma get_app_l l k i : 0 <= i < len l → get (l ++ k) i = get l i.
Proof. unfold len. intros. apply get_lookup. rewrite lookup_app_l by lia. apply lookup_get. unfold len; lia. Qed.
Lemma len_snoc l a : len (l ++ [a]) = len l + 1.
Proof. by rewrite len_app. Qed.
Lemma get_snoc l a : get (l ++ [a]) (len l) = a.
Proof. apply get_lookup. unfold len. rewrite Nat2Z.id. apply list_lookup_middle. done. Qed.
Lemma elem_of_get l a : a ∈ l ↔ ∃ i, 0 <= i < len l ∧ get l i = a.
Proof.
  rewrite list_elem_of_lookup. split.
  - intros (i & Hi). exists (Z.of_nat i). pose proof (lookup_lt_Some _ _ _ Hi). unfold len.
    split; [lia|]. apply get_lookup. by rewrite Nat2Z.id.
  - intros (i & Hi & <-). exists (Z.to_nat i). by apply lookup_get.
Qed.
Lemma NoDup_get l : NoDup l ↔ ∀ i j, 0 <= i < len l → 0 <= j < len l → get l i = get l j → i = j.
Proof.
  rewrite NoDup_alt. unfold len. split.
  - intros Hl i j Hi Hj He. enough (Z.to_nat i = Z.to_nat j) by lia.
    apply (Hl _ _ (get l i)); [by apply lookup_get|]. rewrite He. by apply lookup_get.
  - intros Hl i j a Hi Hj. pose proof (lookup_lt_Some _ _ _ Hi). pose proof (lookup_lt_Some _ _ _ Hj).
    enough (Z.of_nat i = Z.of_nat j) by lia. apply Hl; [lia..|].
    by rewrite (get_lookup l (Z.of_nat i) a), (get_lookup l (Z.of_nat j) a) by (by rewrite Nat2Z.id).
Qed.
Lemma array_ext l k : len l = len k → (∀ i, 0 <= i < len l → get l i = get k i) → l = k.
Proof.
  unfold len. intros Hl Hg. apply list_eq. intros i. destruct (decide (i < length l)%nat).
  - pose proof (lookup_get l (Z.of_nat i)) as H1. pose proof (lookup_get k (Z.of_nat i)) as H2.
    unfold len in *. rewrite Nat2Z.id in *. rewrite H1, H2, Hg by lia. done.
  - rewrite !lookup_ge_None_2 by lia. done.
Qed.

Lemma len_replicate n a : 0 <= n → len (replicate (Z.to_nat n) a) = n.
Proof. unfold len. rewrite length_replicate. lia. Qed.
Lemma get_sub l lo hi i : 0 <= lo <= hi → hi <= len l → 0 <= i < hi - lo → get (sub l lo hi) i = get l (lo + i).
Proof.
  intros. unfold get, sub, len in *. rewrite lookup_total_take_lt by lia.
  rewrite lookup_total_drop. f_equal. lia.
Qed.

Lemma elem_of_sub l lo hi a : a ∈ sub l lo hi → a ∈ l.
Proof. unfold sub. intros (i & Hi & _)%elem_of_take. rewrite lookup_drop in Hi. by eapply list_elem_of_lookup_2. Qed.

Lemma idx_get l i : 0 <= i < len l → idx l i = Ok (get l i).
Proof. intros Hi. apply idx_ok; [lia|]. by apply lookup_get. Qed.
Lemma idx_inv l i x : idx l i = Ok x → 0 <= i < len l ∧ get l i = x.
Proof.
  intros H. destruct (decide (0 <= i < len l)) as [Hi|Hi]; [rewrite idx_get in H by done; by injection H|]. unfold idx in H.
  destruct (Z.leb_spec 0 i); [|done]. rewrite lookup_ge_None_2 in H by (unfold len in Hi; lia). done.
Qed.
Lemma set_idx_put l i a : 0 <= i < len l → set_idx l i a = Ok (put l i a).
Proof. intros Hi. unfold set_idx. by rewrite (proj2 (Z.leb_le _ _)), (proj2 (Z.ltb_lt _ _)) by lia. Qed.

Lemma runs_idx l i Q : 0 <= i < len l → Q (get l i) → runs (idx l i) Q.
Proof. intros. rewrite idx_get by done. by apply runs_ok. Qed.
Lemma runs_set_idx l i a Q : 0 <= i < len l → Q (put l i a) → runs (set_idx l i a) Q.
Proof. intros. rewrite set_idx_put by done. by apply runs_ok. Qed.
Lemma runs_slice l lo hi Q : 0 <= lo <= hi → hi <= len l → Q (sub l lo hi) → runs (slice l lo hi) Q.
Proof. intros. rewrite slice_ok by done. by apply runs_ok. Qed.
End Arrays.

(** ** Loops *)

Fixpoint for_each {A S} (l : list A) (body : S → A → outcome S) (s : S) : outcome S :=
  match l with [] => Ok s | x :: l => s ← body s x; for_each l body s end.

(** The loop rule: an invariant on the state and the elements done so far. *)
Lemma for_each_app {A S} (l k : list A) body (s : S) :
  for_each (l ++ k) body s = (s ← for_each l body s; for_each k body s).
Proof. revert s. induction l as [|x l IH]; intros s; simpl; [done|]. destruct (body s x); simpl; auto. Qed.
Lemma runs_for_each {A S} (Inv : list A → S → Prop) (l : list A) body (s : S) :
  Inv [] s →
  (∀ done_ x rest s, l = done_ ++ x :: rest → Inv done_ s → runs (body s x) (Inv (done_ ++ [x]))) →
  runs (for_each l body s) (Inv l).
Proof.
  intros H0 Hstep. enough (∀ k d s, l = d ++ k → Inv d s → runs (for_each k body s) (Inv l)) as H by by apply (H l []).
  induction k as [|x k IH]; intros d s' Hl Hd; simpl.
  - rewrite app_nil_r in Hl. subst. by apply runs_ok.
  - apply runs_bind. eapply runs_mono; [by eapply Hstep|]. intros s'' Hs. apply (IH (d ++ [x])); [|done].
    by rewrite <-app_assoc.
Qed.

(** Counting loops: [upto lo n] is [lo, lo+1, ..., n-1] and [downto] the same
    from the end. *)
Definition upto (lo hi : Z) : list Z := seqZ lo (hi - lo).
Definition downto (lo hi : Z) : list Z := rev (upto lo hi).

Lemma elem_of_upto lo hi i : i ∈ upto lo hi ↔ lo <= i < hi.
Proof. unfold upto. rewrite elem_of_seqZ. lia. Qed.
Lemma upto_snoc lo hi : lo <= hi → upto lo (hi + 1) = upto lo hi ++ [hi].
Proof. intros. unfold upto. replace (hi + 1 - lo) with (hi - lo + 1) by lia. rewrite seqZ_app by lia. f_equal. replace (lo + (hi - lo)) with hi by lia. rewrite seqZ_cons by lia. by rewrite seqZ_nil by lia. Qed.
Lemma upto_nil lo hi : hi <= lo → upto lo hi = [].
Proof. intros. unfold upto. apply seqZ_nil. lia. Qed.
Lemma upto_split lo i hi d r : upto lo hi = d ++ i :: r → d = upto lo i ∧ r = upto (i + 1) hi ∧ lo <= i < hi.
Proof.
  intros Hs. assert (i = lo + len d) as Hi.
  { assert ((upto lo hi) !! length d = Some i) as Hl by (rewrite Hs; by apply list_lookup_middle).
    unfold upto in Hl. apply lookup_seqZ in Hl as [-> ?]. unfold len. lia. }
  assert (lo <= i < hi) as Hr by (apply elem_of_upto; rewrite Hs; set_solver).
  assert (upto lo hi = upto lo i ++ i :: upto (i + 1) hi) as Hs'.
  { unfold upto. replace (hi - lo) with ((i - lo) + (hi - i)) by lia. rewrite seqZ_app by lia. f_equal.
    replace (lo + (i - lo)) with i by lia. rewrite seqZ_cons by lia. f_equal; f_equal; lia. }
  rewrite Hs in Hs'. apply app_inj_1 in Hs' as [-> Hr']; [by simplify_eq|].
  unfold upto, len in *. rewrite length_seqZ. lia.
Qed.

Lemma range_length (l : list Z) k : NoDup l → (∀ x, x ∈ l → 0 <= x < k) → 0 <= k → (length l <= Z.to_nat k)%nat.
Proof.
  intros Hnd Hin Hk. transitivity (length (upto 0 k)).
  - apply submseteq_length, NoDup_submseteq; [done|]. intros x Hx. apply elem_of_upto. auto.
  - unfold upto. rewrite length_seqZ. lia.
Qed.

(** Loop rules for counters: the invariant speaks of the next value. *)
Lemma runs_for_upto {S} (Inv : Z → S → Prop) lo hi body (s : S) :
  lo <= hi → Inv lo s →
  (∀ i s, lo <= i < hi → Inv i s → runs (body s i) (Inv (i + 1))) →
  runs (for_each (upto lo hi) body s) (Inv hi).
Proof.
  intros Hle H0 Hstep. eapply runs_mono.
  - apply (runs_for_each (λ d s, Inv (lo + len d) s)); [by rewrite len_nil, Z.add_0_r|].
    intros d x r s' Hs Hd. apply upto_split in Hs as (-> & _ & Hx). rewrite len_app, len_cons, len_nil.
    unfold len, upto in *. rewrite length_seqZ in *. replace (lo + (Z.of_nat (Z.to_nat (x - lo)) + (0 + 1))) with (x + 1) by lia.
    replace (lo + Z.of_nat (Z.to_nat (x - lo))) with x in Hd by lia. auto.
  - intros s'. unfold len, upto. rewrite length_seqZ. by replace (lo + Z.of_nat (Z.to_nat (hi - lo))) with hi by lia.
Qed.
Lemma runs_for_downto {S} (Inv : Z → S → Prop) lo hi body (s : S) :
  lo <= hi → Inv hi s →
  (∀ i s, lo <= i < hi → Inv (i + 1) s → runs (body s i) (Inv i)) →
  runs (for_each (downto lo hi) body s) (Inv lo).
Proof.
  intros Hle H0 Hstep. eapply runs_mono.
  - apply (runs_for_each (λ d s, Inv (hi - len d) s)); [by rewrite len_nil, Z.sub_0_r|].
    intros d x r s' Hs Hd. apply (f_equal (@rev Z)) in Hs. unfold downto in Hs.
    rewrite rev_involutive, rev_app_distr in Hs. cbn [rev] in Hs. rewrite <-app_assoc in Hs. cbn [app] in Hs.
    apply upto_split in Hs as (_ & Hd' & Hx). apply (f_equal length) in Hd'. rewrite length_rev in Hd'.
    unfold upto in Hd'. rewrite length_seqZ in Hd'. rewrite len_app, len_cons, len_nil. unfold len in *.
    replace (hi - (Z.of_nat (length d) + (0 + 1))) with x by lia. apply Hstep; [done|].
    by replace (x + 1) with (hi - Z.of_nat (length d)) by lia.
  - intros s'. unfold len, downto, upto. rewrite length_rev, length_seqZ. by replace (hi - Z.of_nat (Z.to_nat (hi - lo))) with lo by lia.
Qed.

(** [for i := range l { out[i] = f(l[i]) }] *)
Fixpoint map_each {A B} (f : A → outcome B) (l : list A) : outcome (list B) :=
  match l with [] => Ok [] | x :: l => y ← f x; ys ← map_each f l; Ok (y :: ys) end.

Lemma map_each_ok {A B} (f : A → outcome B) (g : A → B) (l : list A) :
  (∀ x, x ∈ l → f x = Ok (g x)) → map_each f l = Ok (g <$> l).
Proof.
  induction l as [|x l IH]; intros Hf; [done|]. cbn. rewrite Hf by set_solver. cbn. rewrite IH by set_solver. done.
Qed.

(** ** [sort.Search]

    The least index in [0 .. n) where [f] is true, for an [f] that is false and
    then true; the bisection halves an interval of at most [n], so [n] steps
    are enough. *)
Fixpoint searchLoop (fuel : nat) (f : Z → bool) (i j : Z) : Z :=
  match fuel with
  | O => i
  | S fuel =>
    if i <? j then
      let h := Z.shiftr (i + j) 1 in
      if negb (f h) then searchLoop fuel f (h + 1) j else searchLoop fuel f i h
    else i
  end.
Definition Search (n : Z) (f : Z → bool) : Z := searchLoop (Z.to_nat n) f 0 n.

Lemma search_nonneg fuel f i j : 0 <= i → 0 <= searchLoop fuel f i j.
Proof.
  revert i j. induction fuel as [|fuel IH]; intros i j Hi; cbn; [done|].
  destruct (Z.ltb_spec i j); [|done]. destruct (f _); cbn; apply IH; [done|].
  assert (0 <= Z.shiftr (i + j) 1) by (apply Z.shiftr_nonneg; lia). lia.
Qed.
Lemma Search_spec n f : 0 <= n → (∀ i j, 0 <= i <= j → j < n → f i = true → f j = true) →
  0 <= Search n f <= n ∧ (∀ i, 0 <= i < Search n f → f i = false) ∧ (∀ i, Search n f <= i < n → f i = true).
Proof.
  intros Hn Hmono. unfold Search.
  enough (∀ fuel i j, 0 <= i <= j → j <= n → j - i <= Z.of_nat fuel → (∀ k, 0 <= k < i → f k = false) → (∀ k, j <= k < n → f k = true) →
    let r := searchLoop fuel f i j in 0 <= r <= n ∧ (∀ k, 0 <= k < r → f k = false) ∧ ∀ k, r <= k < n → f k = true) as H
    by (apply H; try lia; intros; lia).
  induction fuel as [|fuel IH]; intros i j Hi Hj Hf Hlo Hhi; cbn [searchLoop].
  - assert (i = j) as -> by lia. split_and!; [lia..|done|done].
  - destruct (Z.ltb_spec i j) as [Hlt|Hge]; [|assert (i = j) as -> by lia; split_and!; [lia..|done|done]].
    rewrite Z.shiftr_div_pow2 by lia. change (2 ^ 1) with 2.
    assert (i <= (i + j) / 2 < j) as Hh by (split; [apply Z.div_le_lower_bound|apply Z.div_lt_upper_bound]; lia).
    set (h := (i + j) / 2) in *. destruct (f h) eqn:E; cbn [negb].
    + apply IH; try lia; [done|]. intros k Hk. apply (Hmono h k); [lia..|done].
    + apply IH; try lia; [|done]. intros k Hk. destruct (f k) eqn:Ek; [|done].
      rewrite (Hmono k h) in E; [done|lia..|done].
Qed.

(** ** Sums *)

Fixpoint sum_over {A} (f : A → Z) (l : list A) : Z := match l with [] => 0 | x :: l => f x + sum_over f l end.

Section Sums.
Context {A : Type}.
Implicit Types (f g : A → Z) (l : list A).
Lemma sum_over_ext f g l : (∀ x, x ∈ l → f x = g x) → sum_over f l = sum_over g l.
Proof. induction l as [|x l IH]; intros Hfg; cbn; [done|]. rewrite IH by set_solver. rewrite Hfg by set_solver. done. Qed.
Lemma sum_over_app f l k : sum_over f (l ++ k) = sum_over f l + sum_over f k.
Proof. induction l as [|x l IH]; cbn; [done|]. rewrite IH. lia. Qed.
Lemma sum_over_perm f l k : l ≡ₚ k → sum_over f l = sum_over f k.
Proof. induction 1; cbn; lia. Qed.
Lemma sum_over_nonneg f l : (∀ x, x ∈ l → 0 <= f x) → 0 <= sum_over f l.
Proof.
  induction l as [|x l IH]; intros Hf; cbn; [done|].  pose proof (Hf x ltac:(set_solver)).
  assert (0 <= sum_over f l) by (apply IH; set_solver). lia.
Qed.
(** Sums of functions that differ at one element. *)
Lemma sum_over_change f g l x : NoDup l → x ∈ l → (∀ y, y ∈ l → y ≠ x → g y = f y) → sum_over g l = sum_over f l + g x - f x.
Proof.
  induction 1 as [|y l Hy Hnd IH]; [set_solver|]. intros Hx Hfg. cbn.
  apply elem_of_cons in Hx as [->|Hx].
  - rewrite (sum_over_ext g f); [lia|]. intros z Hz. apply Hfg; [set_solver|]. intros ->. done.
  - rewrite IH; [|done|set_solver]. rewrite (Hfg y); [lia|set_solver|]. intros ->. done.
Qed.
End Sums.
Lemma sum_fmap {A B} (f : B → Z) (g : A → B) l : sum_over f (g <$> l) = sum_over (λ x, f (g x)) l.
Proof. induction l as [|x l IH]; [done|]. cbn. by rewrite IH. Qed.
Lemma sum_over_add {A} (f g : A → Z) l : sum_over (λ x, f x + g x) l = sum_over f l + sum_over g l.
Proof. induction l as [|x l IH]; cbn; lia. Qed.
Lemma sum_over_zero {A} (l : list A) : sum_over (λ _, 0) l = 0.
Proof. induction l as [|x l IH]; cbn; lia. Qed.
