(* ===== verification/HeapGraph.v ===== *)
(** * The object graph of a heap dump

    [ObjectGraph] and [graphBuilder] of [src/internal/heap/graph.go], and the
    GC roots of [src/internal/heap/roots.go]: objects collected in parse order
    with the ids they refer to become a graph on indices, sorted by object id,
    with the edges in compressed rows.  The theorem of the file says that the
    graph is the one the collected objects describe. *)

From S2P Require Import Prelude Arrays GoStrings GoRuntime.

Module Graph.

Definition javaLangClass : string := "java.lang.Class".
Definition maxGraphObjects : Z := 2 ^ 31 - 2.
Definition maxGraphEdges : Z := 2 ^ 31 - 1.

(** ** GC roots *)

Inductive RootKind :=
| RootUnknown | RootJNIGlobal | RootJNILocal | RootJavaFrame | RootNativeStack
| RootStickyClass | RootThreadBlock | RootMonitorUsed | RootThreadObject
| RootInternedString | RootFinalizing | RootDebugger | RootReferenceCleanup
| RootVMInternal | RootJNIMonitor.
#[export] Instance RootKind_eq_dec : EqDecision RootKind.
Proof. solve_decision. Defined.

(** The string values of the kinds. *)
Definition kind_string (k : RootKind) : string :=
  match k with
  | RootUnknown => "unknown" | RootJNIGlobal => "jni_global" | RootJNILocal => "jni_local"
  | RootJavaFrame => "java_frame" | RootNativeStack => "native_stack"
  | RootStickyClass => "sticky_class" | RootThreadBlock => "thread_block"
  | RootMonitorUsed => "monitor_used" | RootThreadObject => "thread_object"
  | RootInternedString => "interned_string" | RootFinalizing => "finalizing"
  | RootDebugger => "debugger" | RootReferenceCleanup => "reference_cleanup"
  | RootVMInternal => "vm_internal" | RootJNIMonitor => "jni_monitor"
  end.

Record GCRoot := { Object : Z; Kind : RootKind; ThreadID : Z }.
Record rawRoot := { root_id : Z; kind : RootKind; threadSerial : Z }.
#[export] Instance GCRoot_inhabited : Inhabited GCRoot := populate {| Object := 0; Kind := RootUnknown; ThreadID := 0 |}.

Definition hasThreadSerial (k : RootKind) : bool :=
  match k with
  | RootJNILocal | RootJavaFrame | RootNativeStack | RootThreadBlock | RootThreadObject | RootJNIMonitor => true
  | _ => false
  end.

(** ** The graph *)

Record ObjectGraph := {
  IDSize : Z; Unresolved : Z;
  ids : list Z; class : list Z; shallow : list Z;
  outStart : list Z; out : list Z; roots : list Z; gcRoots : list GCRoot;
  (* the reverse rows of path queries, built on the first one *)
  predCache : option (list Z * list Z);
  classNames : list string; classObjOf : gmap Z string }.

Definition Len (g : ObjectGraph) : Z := len (ids g).
Definition ID (g : ObjectGraph) (i : Z) : outcome Z := idx (ids g) i.
Definition Index (g : ObjectGraph) (id : Z) : Z * bool :=
  let j := Search (len (ids g)) (λ k, id <=? get (ids g) k) in
  if (j <? len (ids g)) && (get (ids g) j =? id) then (i32 j, true) else (-1, false).
Definition ClassName (g : ObjectGraph) (i : Z) : outcome string :=
  c ← idx (class g) i; idx (classNames g) c.
Definition DisplayName (g : ObjectGraph) (i : Z) : outcome string :=
  match classObjOf g !! i with Some name => Ok ("class " +:+ name) | None => ClassName g i end.
Definition ShallowSize (g : ObjectGraph) (i : Z) : outcome Z := idx (shallow g) i.
Definition Out (g : ObjectGraph) (i : Z) : outcome (list Z) :=
  lo ← idx (outStart g) i; hi ← idx (outStart g) (i + 1); slice (out g) lo hi.
Definition Roots (g : ObjectGraph) : list Z := roots g.
Definition NumEdges (g : ObjectGraph) : Z := len (out g).
Definition GCRoots (g : ObjectGraph) : list GCRoot := gcRoots g.

(** [hi] advances over the records of object [i]; the number of records is
    fuel enough. *)
Fixpoint rootsEnd (fuel : nat) (rs : list GCRoot) (i hi : Z) : Z :=
  match fuel with
  | O => hi
  | S fuel => if (hi <? len rs) && (Object (get rs hi) =? i) then rootsEnd fuel rs i (hi + 1) else hi
  end.
Definition RootsOf (g : ObjectGraph) (i : Z) : outcome (list GCRoot) :=
  let lo := Search (len (gcRoots g)) (λ k, i <=? Object (get (gcRoots g) k)) in
  let hi := rootsEnd (length (gcRoots g)) (gcRoots g) i lo in
  slice (gcRoots g) lo hi.

(** ** The builder *)

Record classKey := { classID : Z; primType : Z }.
#[export] Instance classKey_eq_dec : EqDecision classKey.
Proof. solve_decision. Defined.
#[export] Instance classKey_countable : Countable classKey.
Proof.
  refine (inj_countable' (λ k, (classID k, primType k)) (λ p, {| classID := p.1; primType := p.2 |}) _).
  by intros [].
Defined.

Record graphBuilder := {
  idSize : Z;
  b_ids : list Z; b_class : list Z; b_shallow : list Z;
  edgeOff : list Z; edgeCnt : list Z; rawEdges : list Z;
  b_roots : list rawRoot; err : option goerror;
  threadBySerial : gmap Z Z;
  classIdx : gmap classKey Z; classKeys : list classKey; b_classNames : list string }.

Definition newGraphBuilder (idSize : Z) : graphBuilder :=
  {| idSize := idSize; b_ids := []; b_class := []; b_shallow := []; edgeOff := []; edgeCnt := []; rawEdges := [];
     b_roots := []; err := None; threadBySerial := ∅; classIdx := ∅; classKeys := []; b_classNames := [] |}.

(** Functional updates of the fields the operations write. *)
Definition with_class (b : graphBuilder) (idx' : gmap classKey Z) (keys : list classKey) (names : list string) : graphBuilder :=
  {| idSize := idSize b; b_ids := b_ids b; b_class := b_class b; b_shallow := b_shallow b; edgeOff := edgeOff b;
     edgeCnt := edgeCnt b; rawEdges := rawEdges b; b_roots := b_roots b; err := err b;
     threadBySerial := threadBySerial b; classIdx := idx'; classKeys := keys; b_classNames := names |}.
Definition with_objects (b : graphBuilder) (oids cs ss : list Z) : graphBuilder :=
  {| idSize := idSize b; b_ids := oids; b_class := cs; b_shallow := ss; edgeOff := edgeOff b;
     edgeCnt := edgeCnt b; rawEdges := rawEdges b; b_roots := b_roots b; err := err b;
     threadBySerial := threadBySerial b; classIdx := classIdx b; classKeys := classKeys b; b_classNames := b_classNames b |}.
Definition with_edges (b : graphBuilder) (off cnt raw : list Z) : graphBuilder :=
  {| idSize := idSize b; b_ids := b_ids b; b_class := b_class b; b_shallow := b_shallow b; edgeOff := off;
     edgeCnt := cnt; rawEdges := raw; b_roots := b_roots b; err := err b;
     threadBySerial := threadBySerial b; classIdx := classIdx b; classKeys := classKeys b; b_classNames := b_classNames b |}.
Definition with_roots (b : graphBuilder) (rs : list rawRoot) (ts : gmap Z Z) : graphBuilder :=
  {| idSize := idSize b; b_ids := b_ids b; b_class := b_class b; b_shallow := b_shallow b; edgeOff := edgeOff b;
     edgeCnt := edgeCnt b; rawEdges := rawEdges b; b_roots := rs; err := err b;
     threadBySerial := ts; classIdx := classIdx b; classKeys := classKeys b; b_classNames := b_classNames b |}.
(** [if b.err == nil { b.err = e }] *)
Definition fail_with (b : graphBuilder) (e : goerror) : graphBuilder :=
  {| idSize := idSize b; b_ids := b_ids b; b_class := b_class b; b_shallow := b_shallow b; edgeOff := edgeOff b;
     edgeCnt := edgeCnt b; rawEdges := rawEdges b; b_roots := b_roots b;
     err := match err b with None => Some e | Some e' => Some e' end;
     threadBySerial := threadBySerial b; classIdx := classIdx b; classKeys := classKeys b; b_classNames := b_classNames b |}.

Definition classFor (b : graphBuilder) (k : classKey) (presetName : string) : graphBuilder * Z :=
  match classIdx b !! k with
  | Some i => (b, i)
  | None =>
    let i := i32 (len (classKeys b)) in
    (with_class b (<[k := i]> (classIdx b)) (classKeys b ++ [k]) (b_classNames b ++ [presetName]), i)
  end.

Definition edges_error : goerror :=
  Errorf ("hprof: heap has more than " +:+ itoa maxGraphEdges +:+ " references, which exceeds the supported maximum").
Definition objects_error : goerror :=
  Errorf ("hprof: heap has more than " +:+ itoa maxGraphObjects +:+ " objects, which exceeds the supported maximum").

Definition appendRefs (b : graphBuilder) (p : Z) (refs : list Z) : outcome graphBuilder :=
  if (len refs =? 0) || (p <? 0) then Ok b
  else if maxGraphEdges <? len (rawEdges b) + len refs then Ok (fail_with b edges_error)
  else
    off ← set_idx (edgeOff b) p (len (rawEdges b));
    let raw := rawEdges b ++ List.filter (λ r, negb (r =? 0)) refs in
    o ← idx off p;
    cnt ← set_idx (edgeCnt b) p (i32 (len raw - o));
    Ok (with_edges b off cnt raw).

Definition addObject (b : graphBuilder) (id class shallow : Z) (refs : list Z) : outcome (graphBuilder * Z) :=
  let p := len (b_ids b) in
  if maxGraphObjects <=? p then Ok (fail_with b objects_error, -1)
  else
    let b := with_objects b (b_ids b ++ [id]) (b_class b ++ [class]) (b_shallow b ++ [shallow]) in
    let b := with_edges b (edgeOff b ++ [len (rawEdges b)]) (edgeCnt b ++ [0]) (rawEdges b) in
    b ← appendRefs b p refs; Ok (b, p).

(** *** Building the graph *)

(** One object of [resolveEdges]: [outStart[i] = len(out)] for the next [i], and
    the references of the object that are in the graph. *)
Definition refTargets (g : ObjectGraph) (run : list Z) : list Z :=
  omap (λ ref, let '(t, ok) := Index g ref in if ok then Some t else None) run.
Definition edgeStep (g : ObjectGraph) (b : graphBuilder) (st : list Z * list Z) (p : Z) : outcome (list Z * list Z) :=
  let '(starts, out) := st in
  off ← idx (edgeOff b) p; off' ← idx (edgeOff b) p; cnt ← idx (edgeCnt b) p;
  run ← slice (rawEdges b) off (off' + cnt);
  Ok (starts ++ [len out], out ++ refTargets g run).
Definition resolveEdges (g : ObjectGraph) (b : graphBuilder) (perm : list Z) : outcome ObjectGraph :=
  '(starts, out) ← for_each perm (edgeStep g b) ([], []);
  Ok {| IDSize := IDSize g; Unresolved := Unresolved g; ids := ids g; class := class g; shallow := shallow g;
        outStart := starts ++ [len out]; out := out; roots := roots g; gcRoots := gcRoots g; predCache := predCache g;
        classNames := classNames g; classObjOf := classObjOf g |}.

Record resolving := { seen : gset Z; r_gcRoots : list GCRoot; r_roots : list Z }.
Definition rootStep (g : ObjectGraph) (threads : gmap Z Z) (st : resolving) (r : rawRoot) : resolving :=
  let '(i, ok) := Index g (root_id r) in
  if negb ok then st else
  let root := {| Object := i; Kind := kind r;
    ThreadID := if hasThreadSerial (kind r) && negb (bool_decide (kind r = RootThreadObject))
                then default 0 (threads !! threadSerial r) else 0 |} in
  if bool_decide (i ∈ seen st) then {| seen := seen st; r_gcRoots := r_gcRoots st ++ [root]; r_roots := r_roots st |}
  else {| seen := {[i]} ∪ seen st; r_gcRoots := r_gcRoots st ++ [root]; r_roots := r_roots st ++ [i] |}.
(** [sort.SliceStable] *)
Definition sort_stable {A} (less : A → A → bool) (l : list A) : list A := insertion_sort less l.
Definition resolveRoots (g : ObjectGraph) (raw : list rawRoot) (threads : gmap Z Z) : ObjectGraph :=
  let st := fold_left (rootStep g threads) raw {| seen := ∅; r_gcRoots := gcRoots g; r_roots := roots g |} in
  {| IDSize := IDSize g; Unresolved := Unresolved g; ids := ids g; class := class g; shallow := shallow g;
     outStart := outStart g; out := out g; roots := r_roots st;
     gcRoots := sort_stable (λ a b, Object a <? Object b) (r_gcRoots st); predCache := predCache g;
     classNames := classNames g; classObjOf := classObjOf g |}.

Definition classObjStep (g : ObjectGraph) (m : gmap Z string) (ik : Z * classKey) : outcome (gmap Z string) :=
  let '(i, k) := ik in
  if negb (primType k =? 0) || (classID k =? 0) then Ok m else
  let '(obj, ok) := Index g (classID k) in
  if ok then
    name ← ClassName g obj;
    if bool_decide (name = javaLangClass) then cn ← idx (classNames g) i; Ok (<[obj := cn]> m) else Ok m
  else Ok m.

Section Build.
Context `{GoRuntime}.

Definition sortPerm (b : graphBuilder) : list Z :=
  sort_slice (λ x y, get (b_ids b) x <? get (b_ids b) y) (i32 <$> upto 0 (len (b_ids b))).

Definition build (b : graphBuilder) (names : classKey → string) : outcome ObjectGraph :=
  let perm := sortPerm b in
  ids ← map_each (idx (b_ids b)) perm;
  class ← map_each (idx (b_class b)) perm;
  shallow ← map_each (idx (b_shallow b)) perm;
  cnames ← map_each (λ ik, n ← idx (b_classNames b) ik.1; Ok (if bool_decide (n = "") then names ik.2 else n))
    (zip (upto 0 (len (classKeys b))) (classKeys b));
  g ← resolveEdges {| IDSize := idSize b; Unresolved := 0; ids := ids; class := class; shallow := shallow;
        outStart := []; out := []; roots := []; gcRoots := []; predCache := None; classNames := cnames; classObjOf := ∅ |}
      b perm;
  let g := resolveRoots g (b_roots b) (threadBySerial b) in
  objs ← for_each (zip (upto 0 (len (classKeys b))) (classKeys b)) (classObjStep g) ∅;
  Ok {| IDSize := IDSize g; Unresolved := Unresolved g; ids := Graph.ids g; class := Graph.class g; shallow := Graph.shallow g;
        outStart := outStart g; out := out g; roots := roots g; gcRoots := gcRoots g; predCache := predCache g;
        classNames := classNames g; classObjOf := objs |}.
End Build.
End Graph.

(** ** Well-formed graphs *)

Module GraphFacts.
Export Graph.

(** The objects [i] refers to, and the reference relation. *)
Definition row (g : ObjectGraph) (i : Z) : list Z := sub (out g) (get (outStart g) i) (get (outStart g) (i + 1)).
Definition edge (g : ObjectGraph) (u v : Z) : Prop := 0 <= u < Len g ∧ v ∈ row g u.

(** The rows of the reverse graph in offsets [start]. *)
Definition reverse_rows (g : ObjectGraph) (start preds : list Z) : Prop :=
  len start = Len g + 1 ∧ ∀ t, 0 <= t < Len g →
    0 <= get start t <= get start (t + 1) ∧ get start (t + 1) <= len preds ∧
    ∀ v, v ∈ sub preds (get start t) (get start (t + 1)) ↔ 0 <= v < Len g ∧ t ∈ row g v.

Record graph_ok (g : ObjectGraph) : Prop := {
  go_len : Len g <= maxGraphObjects;
  go_sorted i j : 0 <= i < j → j < Len g → get (ids g) i <= get (ids g) j;
  go_class : len (class g) = Len g;
  go_classes c : c ∈ class g → 0 <= c < len (classNames g);
  go_shallow : len (shallow g) = Len g;
  go_sizes s : s ∈ shallow g → i64 s = s;
  go_start : len (outStart g) = Len g + 1;
  go_first : get (outStart g) 0 = 0;
  go_last : get (outStart g) (Len g) = len (out g);
  go_rows i : 0 <= i < Len g → 0 <= get (outStart g) i <= get (outStart g) (i + 1) ∧ get (outStart g) (i + 1) <= len (out g);
  go_row_len i : 0 <= i < Len g → len (row g i) <= maxGraphEdges;
  go_out w : w ∈ out g → 0 <= w < Len g;
  go_roots r : r ∈ roots g → 0 <= r < Len g;
  go_roots_nodup : NoDup (roots g);
  go_gcroots : StronglySorted (λ a b, Object a <= Object b) (gcRoots g);
  go_root_records i : i ∈ roots g ↔ i ∈ (Object <$> gcRoots g);
  go_cache start preds : predCache g = Some (start, preds) → reverse_rows g start preds;
}.

(** *** Lookup by object id *)

(** Ids may repeat in a malformed dump; then one of the objects is found. *)
Lemma index_found g id : Len g <= maxGraphObjects → (∀ i j, 0 <= i < j → j < Len g → get (ids g) i <= get (ids g) j) →
  id ∈ ids g → ∃ i, 0 <= i < Len g ∧ get (ids g) i = id ∧ Index g id = (i, true).
Proof.
  intros Hlen Hs (i & Hi & Hid)%elem_of_get. unfold Index, Len in *.
  destruct (Search_spec (len (ids g)) (λ k, id <=? get (ids g) k)) as (Hr & Hlo & Hhi).
  { apply len_nonneg. }
  { intros a b Hab Hb Ha. to_prop. apply Z.leb_le. destruct (decide (a = b)) as [->|]; [done|].
    pose proof (Hs a b ltac:(lia) Hb). lia. }
  set (j := Search _ _) in *. cbv beta in *.
  assert (j <= i) as Hji by (destruct (decide (i < j)) as [Hl|]; [specialize (Hlo i ltac:(lia)); to_prop; lia|lia]).
  assert (get (ids g) j = id) as Hj.
  { specialize (Hhi j ltac:(lia)). to_prop. destruct (decide (j = i)) as [->|]; [done|]. pose proof (Hs j i ltac:(lia) ltac:(lia)). lia. }
  exists j. rewrite (proj2 (Z.ltb_lt _ _)), (proj2 (Z.eqb_eq _ _)) by lia. cbn. unfold maxGraphObjects in Hlen. rewrite i32_small by lia.
  split_and!; [lia..|done|done].
Qed.
Lemma index_absent g id : id ∉ ids g → Index g id = (-1, false).
Proof.
  intros Hn. unfold Index. set (j := Search _ _). destruct (j <? len (ids g)) eqn:E1; [|done].
  destruct (get (ids g) j =? id) eqn:E2; [|done]. to_prop. destruct Hn. rewrite <-E2.
  assert (0 <= j) by (unfold j, Search; apply search_nonneg; lia). apply elem_of_get. eauto.
Qed.
Lemma ids_strict g i j : graph_ok g → NoDup (ids g) → 0 <= i < j → j < Len g → get (ids g) i < get (ids g) j.
Proof.
  intros G Hnd Hi Hj. pose proof (go_sorted _ G i j Hi Hj). rewrite NoDup_get in Hnd. unfold Len in *.
  assert (get (ids g) i ≠ get (ids g) j); [|lia]. intros He. specialize (Hnd i j ltac:(lia) ltac:(lia) He). lia.
Qed.

(** ** What the builder holds *)

Record object := { o_id : Z; o_class : Z; o_shallow : Z; o_refs : list Z }.
Definition refs_of (b : graphBuilder) (p : Z) : list Z :=
  sub (rawEdges b) (get (edgeOff b) p) (get (edgeOff b) p + get (edgeCnt b) p).
Definition object_at (b : graphBuilder) (p : Z) : object :=
  {| o_id := get (b_ids b) p; o_class := get (b_class b) p; o_shallow := get (b_shallow b) p; o_refs := refs_of b p |}.
(** The objects in parse order. *)
Definition objects (b : graphBuilder) : list object := object_at b <$> upto 0 (len (b_ids b)).

Record builder_ok (b : graphBuilder) : Prop := {
  bo_len : len (b_ids b) <= maxGraphObjects;
  bo_class : len (b_class b) = len (b_ids b);
  bo_shallow : len (b_shallow b) = len (b_ids b);
  bo_sizes s : s ∈ b_shallow b → i64 s = s;
  bo_off : len (edgeOff b) = len (b_ids b);
  bo_cnt : len (edgeCnt b) = len (b_ids b);
  bo_run p : 0 <= p < len (b_ids b) →
    0 <= get (edgeOff b) p ∧ 0 <= get (edgeCnt b) p ∧ get (edgeOff b) p + get (edgeCnt b) p <= len (rawEdges b);
  bo_raw : len (rawEdges b) <= maxGraphEdges;
  bo_names : len (b_classNames b) = len (classKeys b);
  bo_classes c : c ∈ b_class b → 0 <= c < len (classKeys b);
  bo_index k i : classIdx b !! k = Some i ↔ 0 <= i ∧ classKeys b !! Z.to_nat i = Some k;
  bo_keys : len (classKeys b) <= maxGraphObjects + 2;
}.

(** ** Building *)

(** A row of a compressed row structure that is appended to. *)
Definition rows_of (starts out : list Z) (i : Z) : list Z :=
  sub out (get (starts ++ [len out]) i) (get (starts ++ [len out]) (i + 1)).
Definition rows_inv (R : Z → list Z) (d : list Z) (st : list Z * list Z) : Prop :=
  len st.1 = len d ∧ get (st.1 ++ [len st.2]) 0 = 0 ∧ get (st.1 ++ [len st.2]) (len d) = len st.2 ∧
  ∀ i, 0 <= i < len d →
    0 <= get (st.1 ++ [len st.2]) i <= get (st.1 ++ [len st.2]) (i + 1) ∧
    get (st.1 ++ [len st.2]) (i + 1) <= len st.2 ∧ rows_of st.1 st.2 i = R (get d i).

Lemma sub_app_l {A} (l k : list A) lo hi : 0 <= lo → hi <= len l → sub (l ++ k) lo hi = sub l lo hi.
Proof.
  unfold sub, len. intros. destruct (decide (Z.to_nat lo <= length l)%nat).
  - rewrite drop_app_le by lia. rewrite take_app_le; [done|]. rewrite length_drop. lia.
  - replace (Z.to_nat (hi - lo)) with 0%nat by lia. done.
Qed.
Lemma sub_app_r {A} (l k : list A) : sub (l ++ k) (len l) (len (l ++ k)) = k.
Proof. unfold sub, len. rewrite Nat2Z.id, drop_app_length, take_ge; [done|]. rewrite length_app. lia. Qed.
Lemma rows_inv_snoc R d starts out p : rows_inv R d (starts, out) →
  rows_inv R (d ++ [p]) (starts ++ [len out], out ++ R p).
Proof.
  intros (Hl & H0 & Hlast & Hrow). unfold rows_inv, rows_of in *. cbn [fst snd] in *.
  set (S := starts ++ [len out]) in *. assert (len S = len d + 1) as HS by (unfold S; rewrite len_app, Hl; done).
  assert (∀ i, 0 <= i <= len d → get (S ++ [len (out ++ R p)]) i = get S i) as HS' by (intros; apply get_app_l; lia).
  assert (get (S ++ [len (out ++ R p)]) (len d + 1) = len (out ++ R p)) as Hend by (rewrite <-HS; apply get_snoc).
  pose proof (len_nonneg d). rewrite len_app, len_cons, len_nil. change (0 + 1) with 1.
  split_and!; [by rewrite HS|rewrite HS' by lia; done|done|].
  intros i Hi. destruct (decide (i = len d)) as [->|Hne].
  - rewrite Hend, HS', Hlast, get_snoc by lia. rewrite sub_app_r. pose proof (len_nonneg out). rewrite len_app.
    pose proof (len_nonneg (R p)). split_and!; [lia..|done].
  - destruct (Hrow i) as (Ha & Hb & Hc); [lia|]. rewrite !HS' by lia. pose proof (len_nonneg (R p)).
    split_and!; [lia..|rewrite len_app; lia|]. rewrite get_app_l by lia. by rewrite sub_app_l by lia.
Qed.

(** Every element is in one of the rows. *)
Lemma row_cover (S : Z → Z) n k : 0 <= n → S 0 = 0 → 0 <= k < S n → ∃ i, 0 <= i < n ∧ S i <= k < S (i + 1).
Proof.
  intros Hn H0. revert n Hn. apply (natlike_ind (λ n, 0 <= k < S n → ∃ i, 0 <= i < n ∧ S i <= k < S (i + 1))); [lia|].
  intros n Hn IH Hk. destruct (decide (k < S n)) as [Hlt|Hge].
  - destruct IH as (i & Hi & ?); [lia|]. exists i. lia.
  - exists n. unfold Z.succ in *. lia.
Qed.
Lemma elem_of_sub_get {A} `{Inhabited A} (l : list A) lo hi x : 0 <= lo <= hi → hi <= len l →
  x ∈ sub l lo hi ↔ ∃ k, lo <= k < hi ∧ get l k = x.
Proof.
  intros Hlo Hhi. rewrite elem_of_get, len_sub by lia. split.
  - intros (k & Hk & Hx). exists (lo + k). rewrite get_sub in Hx by lia. split; [lia|done].
  - intros (k & Hk & Hx). exists (k - lo). rewrite get_sub by lia. split; [lia|]. by replace (lo + (k - lo)) with k by lia.
Qed.
Lemma in_row_of starts out d R w : rows_inv R d (starts, out) → w ∈ out → ∃ i, 0 <= i < len d ∧ w ∈ R (get d i).
Proof.
  intros (_ & H0 & Hlast & Hrow) (k & Hk & Hw)%elem_of_get. cbn [fst snd] in *.
  destruct (row_cover (get (starts ++ [len out])) (len d) k) as (i & Hi & Hki); [apply len_nonneg|done|by rewrite Hlast|].
  exists i. split; [done|]. destruct (Hrow i Hi) as (? & ? & <-). apply elem_of_sub_get; [lia..|eauto].
Qed.

Lemma resolveEdges_spec g b perm : builder_ok b → (∀ p, p ∈ perm → 0 <= p < len (b_ids b)) →
  runs (resolveEdges g b perm) (λ g', ∃ starts out',
    rows_inv (λ p, refTargets g (refs_of b p)) perm (starts, out') ∧ g' =
    {| IDSize := IDSize g; Unresolved := Unresolved g; ids := ids g; class := class g; shallow := shallow g;
       outStart := starts ++ [len out']; out := out'; roots := roots g; gcRoots := gcRoots g; predCache := predCache g;
       classNames := classNames g; classObjOf := classObjOf g |}).
Proof.
  intros B Hp. unfold resolveEdges. apply runs_bind.
  eapply runs_mono; [apply (runs_for_each (rows_inv (λ p, refTargets g (refs_of b p))))|].
  - unfold rows_inv. cbn. split_and!; [done..|]. intros i. unfold len. cbn. lia.
  - intros d p r [starts out'] Heq Hinv. assert (0 <= p < len (b_ids b)) as Hr by (apply Hp; rewrite Heq; set_solver).
    pose proof (bo_off _ B). pose proof (bo_cnt _ B). destruct (bo_run _ B p Hr) as (H1 & H2 & H3).
    unfold edgeStep. do 3 (apply runs_bind, runs_idx; [lia|]). apply runs_bind, runs_slice; [lia..|]. apply runs_ok.
    by apply (rows_inv_snoc (λ p, refTargets g (refs_of b p))).
  - intros [starts out'] Hinv. apply runs_ok. eauto.
Qed.

(** The sorting permutation. *)
Section Sorting.
Context {R : GoRuntime} {HR : RuntimeOk R}.

Lemma i32_upto n : n <= 2 ^ 31 → i32 <$> upto 0 n = upto 0 n.
Proof.
  intros Hn. rewrite <-(list_fmap_id (upto 0 n)) at 2. apply list_fmap_ext. intros i x Hx.
  apply list_elem_of_lookup_2, elem_of_upto in Hx. unfold id. apply i32_small. lia.
Qed.
Lemma sortPerm_perm b : builder_ok b → sortPerm b ≡ₚ upto 0 (len (b_ids b)).
Proof. intros B. unfold sortPerm. rewrite sort_perm, i32_upto; [done|]. pose proof (bo_len _ B). unfold maxGraphObjects in *. lia. Qed.
Lemma StronglySorted_get {A} `{Inhabited A} (Q : A → A → Prop) l i j :
  StronglySorted Q l → 0 <= i < j → j < len l → Q (get l i) (get l j).
Proof.
  intros Hs. revert i j. induction Hs as [|x l Hs IH Hx]; intros i j Hi Hj; [unfold len in Hj; cbn in Hj; lia|].
  rewrite len_cons in Hj. assert (∀ k, 0 < k → get (x :: l) k = get l (k - 1)) as Hget.
  { intros k Hk. unfold get. replace (Z.to_nat k) with (S (Z.to_nat (k - 1))) by lia. done. }
  rewrite (Hget j) by lia. destruct (decide (i = 0)) as [->|].
  - rewrite Forall_forall in Hx. apply Hx, elem_of_get. exists (j - 1). split; [lia|done].
  - rewrite (Hget i) by lia. apply IH; lia.
Qed.
Lemma get_fmap {A B} `{Inhabited A, Inhabited B} (f : A → B) l i : 0 <= i < len l → get (f <$> l) i = f (get l i).
Proof. intros Hi. apply get_lookup. by rewrite list_lookup_fmap, (lookup_get l i Hi). Qed.
Lemma sortPerm_sorted b : builder_ok b → ∀ i j, 0 <= i < j → j < len (b_ids b) →
  get (b_ids b) (get (sortPerm b) i) <= get (b_ids b) (get (sortPerm b) j).
Proof.
  intros B i j Hi Hj. pose proof (sortPerm_perm b B) as Hperm.
  assert (len (sortPerm b) = len (b_ids b)) as Hl by (unfold len at 1; rewrite Hperm; unfold upto; rewrite length_seqZ; pose proof (len_nonneg (b_ids b)); lia).
  pose proof (sort_strongly_sorted (λ x y, get (b_ids b) x <? get (b_ids b) y) (i32 <$> upto 0 (len (b_ids b)))) as Hs.
  apply (StronglySorted_get _ _ i j) in Hs; [cbn in Hs; to_prop; done| |lia|by rewrite <-Hl in Hj].
  apply (strict_weak_key (get (b_ids b))), strict_weak_Z.
Qed.
End Sorting.

(** *** Roots *)

Definition first_seen (l : list Z) : list Z :=
  fold_left (λ acc x, if decide (x ∈ acc) then acc else acc ++ [x]) l [].
Definition root_target (g : ObjectGraph) (r : rawRoot) : option Z :=
  let '(i, ok) := Index g (root_id r) in if ok then Some i else None.
Definition root_record (g : ObjectGraph) (threads : gmap Z Z) (r : rawRoot) : option GCRoot :=
  i ← root_target g r;
  Some {| Object := i; Kind := kind r;
    ThreadID := if hasThreadSerial (kind r) && negb (bool_decide (kind r = RootThreadObject))
                then default 0 (threads !! threadSerial r) else 0 |}.

Lemma first_seen_spec l : NoDup (first_seen l) ∧ ∀ x, x ∈ first_seen l ↔ x ∈ l.
Proof.
  unfold first_seen. enough (∀ acc, NoDup acc →
    NoDup (fold_left (λ acc x, if decide (x ∈ acc) then acc else acc ++ [x]) l acc) ∧
    ∀ x, x ∈ fold_left (λ acc x, if decide (x ∈ acc) then acc else acc ++ [x]) l acc ↔ x ∈ acc ∨ x ∈ l) as H.
  { destruct (H [] ltac:(constructor)) as [Hn Hx]. split; [done|]. intros x. rewrite Hx. set_solver. }
  induction l as [|x l IH]; intros acc Hacc; cbn [fold_left]; [split; [done|set_solver]|].
  destruct (IH (if decide (x ∈ acc) then acc else acc ++ [x])) as [Hn Hx].
  - case_decide; [done|]. apply NoDup_app. split_and!; [done|set_solver|apply NoDup_singleton].
  - split; [done|]. intros y. rewrite Hx. case_decide; set_solver.
Qed.
Lemma rootLoop_spec g threads raw st :
  seen st = list_to_set (r_roots st) →
  fold_left (rootStep g threads) raw st =
    {| seen := seen (fold_left (rootStep g threads) raw st);
       r_gcRoots := r_gcRoots st ++ omap (root_record g threads) raw;
       r_roots := fold_left (λ acc x, if decide (x ∈ acc) then acc else acc ++ [x]) (omap (root_target g) raw) (r_roots st) |}.
Proof.
  revert st. induction raw as [|r raw IH]; intros st Hseen; cbn [fold_left omap list_omap].
  - rewrite app_nil_r. by destruct st.
  - assert (seen (rootStep g threads st r) = list_to_set (r_roots (rootStep g threads st r)) ∧
      r_gcRoots (rootStep g threads st r) = r_gcRoots st ++ option_list (root_record g threads r) ∧
      r_roots (rootStep g threads st r) = fold_left (λ acc x, if decide (x ∈ acc) then acc else acc ++ [x]) (option_list (root_target g r)) (r_roots st)) as (H1 & H2 & H3).
    { unfold rootStep, root_record, root_target. destruct (Index g (root_id r)) as [i ok]. destruct ok; cbn -[decide].
      - rewrite Hseen. case_bool_decide as Hd; rewrite elem_of_list_to_set in Hd; cbn -[decide].
        + by rewrite decide_True.
        + rewrite decide_False by done. split_and!; [set_solver|done..].
      - by rewrite app_nil_r. }
    rewrite IH by done. rewrite H2, H3. f_equal.
    + rewrite <-app_assoc. f_equal. by destruct (root_record g threads r).
    + by destruct (root_target g r).
Qed.
Lemma sort_stable_object (l : list GCRoot) :
  StronglySorted (λ a b, Object a <= Object b) (sort_stable (λ a b, Object a <? Object b) l) ∧
  sort_stable (λ a b, Object a <? Object b) l ≡ₚ l.
Proof.
  unfold sort_stable. destruct (insertion_sort_ok (λ a b, Object a <? Object b) l) as [Hp _]. pose proof (insertion_sort_sorted (λ a b, Object a <? Object b) l) as Hs. split; [|done].
  specialize (Hs (strict_weak_key Object _ strict_weak_Z)). apply Sorted_StronglySorted in Hs; [|intros a b c; rewrite !Z.ltb_ge; lia].
  clear Hp. induction Hs as [|a k _ IH Ha]; [constructor|]. constructor; [done|]. eapply Forall_impl; [done|]. cbn. intros b. by rewrite Z.ltb_ge.
Qed.

(** *** The graph of a builder *)

Definition present (os : list object) (id : Z) : Prop := id ∈ (o_id <$> os).
#[export] Instance present_dec os id : Decision (present os id).
Proof. unfold present. apply _. Defined.

(** Object [i] of the graph is the object [o]: same class and size, and its
    edges are its references to objects of the dump, in order. *)
Definition is_object (g : ObjectGraph) (os : list object) (i : Z) (o : object) : Prop :=
  0 <= i < Len g ∧ get (ids g) i = o_id o ∧ get (class g) i = o_class o ∧ get (shallow g) i = o_shallow o ∧
  get (ids g) <$> row g i = filter (present os) (o_refs o).

Record represents (g : ObjectGraph) (b : graphBuilder) : Prop := {
  re_len : Len g = len (objects b);
  re_index id : (∃ i, Index g id = (i, true) ∧ 0 <= i < Len g ∧ get (ids g) i = id) ↔ present (objects b) id;
  re_absent id : ¬ present (objects b) id → Index g id = (-1, false);
  re_distinct : NoDup (b_ids b) → NoDup (ids g);
  re_object o : NoDup (b_ids b) → o ∈ objects b → ∃ i, Index g (o_id o) = (i, true) ∧ is_object g (objects b) i o;
  re_roots : get (ids g) <$> roots g = first_seen (filter (present (objects b)) (root_id <$> b_roots b));
  re_gcRoots : gcRoots g = sort_stable (λ a b, Object a <? Object b) (omap (root_record g (threadBySerial b)) (b_roots b));
}.

Lemma len_upto n : 0 <= n → len (upto 0 n) = n.
Proof. intros. unfold len, upto. rewrite length_seqZ. lia. Qed.
Lemma get_upto n i : 0 <= i < n → get (upto 0 n) i = i.
Proof. intros. apply get_lookup, lookup_seqZ. lia. Qed.
Lemma b_ids_objects b : o_id <$> objects b = b_ids b.
Proof.
  unfold objects. rewrite <-list_fmap_compose. apply array_ext; unfold len at 1; rewrite length_fmap; fold (len (upto 0 (len (b_ids b)))).
  - apply len_upto, len_nonneg.
  - rewrite len_upto by apply len_nonneg. intros i Hi. rewrite get_fmap by (rewrite len_upto; lia). by rewrite get_upto.
Qed.
Lemma len_objects b : len (objects b) = len (b_ids b).
Proof. unfold objects. unfold len at 1. rewrite length_fmap. fold (len (upto 0 (len (b_ids b)))). apply len_upto, len_nonneg. Qed.

Lemma first_seen_fmap (f : Z → Z) l : (∀ x y, x ∈ l → y ∈ l → f x = f y → x = y) → f <$> first_seen l = first_seen (f <$> l).
Proof.
  intros Hinj. unfold first_seen.
  enough (∀ k acc, (∀ x, x ∈ k → x ∈ l) → (∀ x, x ∈ acc → x ∈ l) →
    f <$> fold_left (λ acc x, if decide (x ∈ acc) then acc else acc ++ [x]) k acc =
    fold_left (λ acc x, if decide (x ∈ acc) then acc else acc ++ [x]) (f <$> k) (f <$> acc)) as H by (apply (H l []); set_solver).
  induction k as [|x k IH]; intros acc Hk Hacc; cbn [fold_left fmap list_fmap]; [done|].
  rewrite IH; [|set_solver|case_decide; set_solver]. f_equal. destruct (decide (x ∈ acc)) as [Hx|Hx].
  - rewrite decide_True; [done|]. by apply list_elem_of_fmap_2.
  - rewrite decide_False; [by rewrite fmap_app|]. intros (y & Hy & Hya)%list_elem_of_fmap. apply Hinj in Hy as ->; set_solver.
Qed.

(** A lookup that agrees with membership in [os]. *)
Definition index_ok (g : ObjectGraph) (os : list object) : Prop := ∀ id,
  (∃ i, 0 <= i < Len g ∧ get (ids g) i = id ∧ Index g id = (i, true) ∧ present os id) ∨
  (¬ present os id ∧ Index g id = (-1, false)).

Lemma index_targets g os {A} (key : A → Z) (l : list A) : index_ok g os →
  get (ids g) <$> omap (λ x, let '(i, ok) := Index g (key x) in if ok then Some i else None) l = filter (present os) (key <$> l).
Proof.
  intros Hok. induction l as [|x l IH]; [done|]. cbn [omap list_omap fmap list_fmap]. rewrite filter_cons.
  destruct (Hok (key x)) as [(i & Hi & Hid & -> & Hp)|(Hn & ->)].
  - rewrite decide_True by done. cbn [fmap list_fmap]. by rewrite Hid, IH.
  - by rewrite decide_False.
Qed.
Lemma elem_of_targets g os {A} (key : A → Z) (l : list A) i : index_ok g os →
  i ∈ omap (λ x, let '(i, ok) := Index g (key x) in if ok then Some i else None) l → 0 <= i < Len g.
Proof.
  intros Hok (x & Hx & Hi)%list_elem_of_omap. destruct (Hok (key x)) as [(j & Hj & _ & Hix & _)|(_ & Hix)]; rewrite Hix in Hi; by simplify_eq.
Qed.

Section Build.
Context {R : GoRuntime} {HR : RuntimeOk R}.
Variables (b : graphBuilder) (B : builder_ok b).

Lemma sorted_len : len (sortPerm b) = len (b_ids b).
Proof. unfold len at 1. rewrite (sortPerm_perm b B). unfold upto. rewrite length_seqZ. pose proof (len_nonneg (b_ids b)). lia. Qed.
Lemma sorted_range p : p ∈ sortPerm b ↔ 0 <= p < len (b_ids b).
Proof. rewrite (sortPerm_perm b B). apply elem_of_upto. Qed.
Lemma map_sorted (l : list Z) : len l = len (b_ids b) → map_each (idx l) (sortPerm b) = Ok (get l <$> sortPerm b).
Proof. intros Hl. apply map_each_ok. intros p Hp%sorted_range. apply idx_get. lia. Qed.

(** Lookup in any graph with the sorted ids. *)
Lemma sorted_index g : ids g = get (b_ids b) <$> sortPerm b →
  (∀ i j, 0 <= i < j → j < Len g → get (ids g) i <= get (ids g) j) ∧ Len g = len (b_ids b) ∧ index_ok g (objects b).
Proof.
  intros Hids. assert (Len g = len (b_ids b)) as Hl by (unfold Len; rewrite Hids; unfold len at 1; rewrite length_fmap; apply sorted_len).
  assert (∀ i j, 0 <= i < j → j < Len g → get (ids g) i <= get (ids g) j) as Hs.
  { intros i j Hi Hj. rewrite Hids, !get_fmap by (rewrite sorted_len; lia). apply sortPerm_sorted; [done..|lia]. }
  assert (ids g ≡ₚ b_ids b) as Hp.
  { rewrite Hids, (sortPerm_perm b B). apply reflexive_eq, array_ext; unfold len at 1; rewrite length_fmap; fold (len (upto 0 (len (b_ids b)))).
    - apply len_upto, len_nonneg.
    - rewrite len_upto by apply len_nonneg. intros i Hi. rewrite get_fmap by (rewrite len_upto; lia). by rewrite get_upto. }
  split_and!; [done..|]. intros id. unfold present. rewrite b_ids_objects. destruct (decide (id ∈ ids g)) as [Hin|Hn].
  - left. destruct (index_found g id) as (i & Hi & Hid & Hix); [rewrite Hl; apply B|done..|]. exists i. split_and!; [apply Hi|apply Hi|done|done|by apply (elem_of_Permutation_proper _ _ _ Hp)].
  - right. rewrite <-Hp. split; [done|]. by apply index_absent.
Qed.

(** The class objects: [obj] is the object of the [j]-th class of the table. *)
Definition class_object (g : ObjectGraph) (obj : Z) (n : string) (jk : Z * classKey) : Prop :=
  primType jk.2 = 0 ∧ classID jk.2 ≠ 0 ∧ Index g (classID jk.2) = (obj, true) ∧
  ClassName g obj = Ok javaLangClass ∧ get (classNames g) jk.1 = n.

Lemma zip_keys_range jk : jk ∈ zip (upto 0 (len (classKeys b))) (classKeys b) → 0 <= jk.1 < len (classKeys b) ∧ classKeys b !! Z.to_nat jk.1 = Some jk.2.
Proof.
  destruct jk as [j k]. intros (i & Hi)%list_elem_of_lookup. apply lookup_zip_Some in Hi as [Hu Hk]. apply lookup_seqZ in Hu as [-> Hu].
  cbn [fst snd]. split; [lia|]. by replace (Z.to_nat (0 + Z.of_nat i)) with i by lia.
Qed.
Lemma keys_inj jk jk' : jk ∈ zip (upto 0 (len (classKeys b))) (classKeys b) → jk' ∈ zip (upto 0 (len (classKeys b))) (classKeys b) →
  jk.2 = jk'.2 → jk = jk'.
Proof.
  intros [H1 H2]%zip_keys_range [H3 H4]%zip_keys_range He. rewrite He in H2.
  pose proof (proj2 (bo_index _ B _ _) (conj (proj1 H1) H2)) as E1. pose proof (proj2 (bo_index _ B _ _) (conj (proj1 H3) H4)) as E2.
  destruct jk, jk'; cbn in *. congruence.
Qed.
Lemma classObjLoop_spec g : index_ok g (objects b) → len (class g) = Len g → (∀ c, c ∈ class g → 0 <= c < len (classNames g)) →
  len (classNames g) = len (classKeys b) →
  runs (for_each (zip (upto 0 (len (classKeys b))) (classKeys b)) (classObjStep g) ∅)
    (λ m, ∀ obj n, m !! obj = Some n ↔ ∃ jk, jk ∈ zip (upto 0 (len (classKeys b))) (classKeys b) ∧ class_object g obj n jk).
Proof.
  intros Hok Hcl Hcls Hn. eapply runs_mono; [apply (runs_for_each (λ d (m : gmap Z string), ∀ obj n, m !! obj = Some n ↔ ∃ jk, jk ∈ d ∧ class_object g obj n jk))|done].
  { intros obj n. rewrite lookup_empty. set_solver. }
  intros d [j k] r m Heq Hinv. set (all := zip _ _) in *.
  assert ((j, k) ∈ all) as Hall by (rewrite Heq; set_solver). pose proof (zip_keys_range _ Hall) as [Hj Hk]. cbn [fst snd] in *.
  assert (∀ Q, (∀ obj n, ¬ class_object g obj n (j, k)) → (∀ m', (∀ obj n, m' !! obj = Some n ↔ ∃ jk, jk ∈ d ++ [(j, k)] ∧ class_object g obj n jk) → Q m') → Q m) as Hskip.
  { intros Q Hno HQ. apply HQ. intros obj n. rewrite Hinv. setoid_rewrite elem_of_app. setoid_rewrite list_elem_of_singleton.
    split; [intros (jk & ? & ?); eauto|]. intros (jk & [?| ->] & ?); [eauto|by destruct (Hno obj n)]. }
  unfold classObjStep. apply runs_if; intros Hc; to_prop.
  { apply runs_ok, Hskip; [|auto]. intros obj n (H1 & H2 & _). cbn in *. destruct Hc; to_prop; done. }
  destruct (Hok (classID k)) as [(i & Hi & Hid & Hix & _)|(_ & Hix)]; rewrite Hix; cycle 1.
  { apply runs_ok, Hskip; [|auto]. intros obj n (_ & _ & H3 & _). cbn in H3. congruence. }
  assert (0 <= get (class g) i < len (classNames g)) as Hci by (apply Hcls, elem_of_get; exists i; split; [lia|done]).
  assert (ClassName g i = Ok (get (classNames g) (get (class g) i))) as Hname.
  { unfold ClassName. rewrite idx_get by lia. cbn. by rewrite idx_get. }
  rewrite Hname. apply runs_bind, runs_ok. apply runs_if; intros Hb; to_prop; cycle 1.
  { apply runs_ok, Hskip; [|auto]. intros obj n (_ & _ & H3 & H4 & _). cbn in H3. congruence. }
  apply runs_bind, runs_idx; [lia|]. apply runs_ok. intros obj n. setoid_rewrite elem_of_app. setoid_rewrite list_elem_of_singleton.
  assert (class_object g i (get (classNames g) j) (j, k)) as Hthis by (split_and!; cbn; congruence).
  destruct (decide (obj = i)) as [->|Hne].
  - rewrite lookup_insert_eq. split; [intros [= <-]; eauto|]. intros (jk & Hin & Hco).
    assert (jk = (j, k)) as ->; [|f_equal; by destruct Hco as (_ & _ & _ & _ & <-)].
    destruct Hin as [Hin| ->]; [|done]. assert (jk ∈ all) as Hjk by (rewrite Heq; set_solver).
    destruct Hco as (P1 & P2 & P3 & _). apply (keys_inj jk (j, k)); [done..|]. cbn.
    destruct (Hok (classID jk.2)) as [(i' & _ & Hid' & Hix' & _)|(_ & Hix')]; [|congruence].
    assert (i' = i) as -> by congruence. assert (classID jk.2 = classID k) as HID by congruence.
    destruct jk as [? [c' p']], k as [c p]. cbn in *. congruence.
  - rewrite lookup_insert_ne by done. rewrite Hinv. split; [intros (jk & ? & ?); eauto|].
    intros (jk & [?| ->] & Hco); [eauto|]. destruct Hco as (_ & _ & H3 & _). cbn in H3. congruence.
Qed.

Lemma filter_row g os run : index_ok g os → get (ids g) <$> refTargets g run = filter (present os) run.
Proof. intros Hok. unfold refTargets. etrans; [apply (index_targets g os id run Hok)|]. f_equal. apply list_fmap_id. Qed.

(** *** The graph after the edges and the roots are resolved *)

Section Resolved.
Variables (g0 : ObjectGraph) (starts out' : list Z).
Hypothesis (Hids : ids g0 = get (b_ids b) <$> sortPerm b) (Hcls : class g0 = get (b_class b) <$> sortPerm b).
Hypothesis (Hsh : shallow g0 = get (b_shallow b) <$> sortPerm b) (Hnm : len (classNames g0) = len (classKeys b)).
Hypothesis (Hr0 : roots g0 = []) (Hg0 : gcRoots g0 = []) (Hc0 : predCache g0 = None).
Hypothesis (Hrows : rows_inv (λ p, refTargets g0 (refs_of b p)) (sortPerm b) (starts, out')).
Let g1 : ObjectGraph :=
  {| IDSize := IDSize g0; Unresolved := Unresolved g0; ids := ids g0; class := class g0; shallow := shallow g0;
     outStart := starts ++ [len out']; out := out'; roots := roots g0; gcRoots := gcRoots g0; predCache := predCache g0;
     classNames := classNames g0; classObjOf := classObjOf g0 |}.
Let g : ObjectGraph := resolveRoots g1 (b_roots b) (threadBySerial b).

Lemma resolved_roots : roots g = first_seen (omap (root_target g) (b_roots b)) ∧
  gcRoots g = sort_stable (λ a b, Object a <? Object b) (omap (root_record g (threadBySerial b)) (b_roots b)).
Proof.
  unfold g, resolveRoots. rewrite rootLoop_spec by (cbn; by rewrite Hr0). cbn. rewrite Hr0, Hg0. done.
Qed.
Lemma resolved_index : Len g = len (b_ids b) ∧ (∀ i j, 0 <= i < j → j < Len g → get (ids g) i <= get (ids g) j) ∧ index_ok g (objects b).
Proof. destruct (sorted_index g0 Hids) as (Hs & Hl & Hok). done. Qed.
Lemma resolved_row i : 0 <= i < len (b_ids b) → row g i = refTargets g (refs_of b (get (sortPerm b) i)).
Proof. intros Hi. destruct Hrows as (_ & _ & _ & Hr). rewrite sorted_len in Hr. destruct (Hr i Hi) as (_ & _ & He). exact He. Qed.
Lemma resolved_root_range i : i ∈ omap (root_target g) (b_roots b) → 0 <= i < Len g.
Proof. destruct resolved_index as (_ & _ & Hok). apply (elem_of_targets g (objects b) root_id (b_roots b) i Hok). Qed.

Lemma resolved_graph_ok : graph_ok g.
Proof.
  destruct resolved_roots as [E7 E8]. destruct resolved_index as (HL & Hs & Hok).
  pose proof Hrows as (Hlen & Hfirst & Hlast & Hr). cbn [fst snd] in *. rewrite sorted_len in *.
  destruct (first_seen_spec (omap (root_target g) (b_roots b))) as [Hfn Hfe].
  destruct (sort_stable_object (omap (root_record g (threadBySerial b)) (b_roots b))) as [Hss Hsp].
  split; rewrite ?HL; try done.
  - apply B.
  - intros i j Hi Hj. apply Hs; [done|by rewrite HL].
  - cbn. rewrite Hcls. unfold len at 1. rewrite length_fmap. apply sorted_len.
  - intros c. cbn. rewrite Hcls, Hnm. intros (p & -> & Hp)%list_elem_of_fmap. apply (bo_classes _ B), elem_of_get.
    exists p. apply sorted_range in Hp. by rewrite (bo_class _ B).
  - cbn. rewrite Hsh. unfold len at 1. rewrite length_fmap. apply sorted_len.
  - intros s. cbn. rewrite Hsh. intros (p & -> & Hp)%list_elem_of_fmap. apply (bo_sizes _ B), elem_of_get.
    exists p. apply sorted_range in Hp. by rewrite (bo_shallow _ B).
  - cbn. by rewrite len_app, Hlen.
  - intros i Hi. destruct (Hr i Hi) as (? & ? & _). done.
  - intros i Hi. rewrite resolved_row by done. unfold refTargets. etrans; [|apply (bo_raw _ B)].
    transitivity (len (refs_of b (get (sortPerm b) i))); [unfold len; apply inj_le, length_omap|].
    unfold refs_of. assert (get (sortPerm b) i ∈ sortPerm b) as Hp by (apply elem_of_get; exists i; rewrite sorted_len; done).
    destruct (bo_run _ B _ (proj1 (sorted_range _) Hp)) as (? & ? & ?). rewrite len_sub by lia. lia.
  - intros w Hw. rewrite <-HL. destruct (in_row_of _ _ _ _ w Hrows Hw) as (i & Hi & Hin).
    apply (elem_of_targets g (objects b) id (refs_of b (get (sortPerm b) i)) w Hok). done.
  - rewrite E7. intros r Hr'. apply Hfe, resolved_root_range in Hr'. lia.
  - by rewrite E7.
  - by rewrite E8.
  - intros i. rewrite E7, E8, Hfe, Hsp. rewrite list_elem_of_omap, list_elem_of_fmap. setoid_rewrite list_elem_of_omap.
    unfold root_record. split.
    + intros (r & Hr' & Ht). eexists. split; [|exists r; split; [done|]; rewrite Ht; done]. done.
    + intros (y & -> & r & Hr' & Ht). exists r. split; [done|]. destruct (root_target g r); [|done]. by injection Ht as <-.
  - cbn. by rewrite Hc0.
Qed.
Lemma resolved_represents : represents g b.
Proof.
  destruct resolved_roots as [E7 E8]. destruct resolved_index as (HL & Hs & Hok). split; try done.
  - by rewrite len_objects.
  - intros id. destruct (Hok id) as [(i & Hi & Hid & Hix & Hp)|(Hn & Hix)].
    + split; [done|]. eauto.
    + split; [|done]. intros (i & He & _). congruence.
  - intros id Hn. destruct (Hok id) as [(i & Hi & Hid & Hix & Hp)|(_ & Hix)]; done.
  - intros Hnd. cbn. rewrite Hids. apply NoDup_fmap_2_strong; [|rewrite (sortPerm_perm b B); apply NoDup_seqZ].
    intros x y Hx%sorted_range Hy%sorted_range. by apply NoDup_get.
  - intros o Hnd (p & -> & Hp)%list_elem_of_fmap. apply elem_of_upto, sorted_range in Hp.
    destruct (Hok (get (b_ids b) p)) as [(i & Hi & Hid & Hix & _)|(Hn & _)].
    2: { destruct Hn. unfold present. rewrite b_ids_objects. apply elem_of_get. exists p. by apply sorted_range in Hp. }
    assert (get (sortPerm b) i = p) as Hpi.
    { cbn in Hid. rewrite HL in Hi. rewrite Hids, get_fmap in Hid by (rewrite sorted_len; lia). apply sorted_range in Hp.
      assert (get (sortPerm b) i ∈ sortPerm b) as Hgi%sorted_range by (apply elem_of_get; exists i; rewrite sorted_len; done).
      rewrite NoDup_get in Hnd. apply Hnd; done. }
    exists i. split; [done|]. split_and!; [lia..|done| | |].
    + cbn. rewrite Hcls, get_fmap by (rewrite sorted_len; lia). by rewrite Hpi.
    + cbn. rewrite Hsh, get_fmap by (rewrite sorted_len; lia). by rewrite Hpi.
    + rewrite resolved_row, Hpi by lia. by apply filter_row.
  - rewrite E7, first_seen_fmap.
    + f_equal. apply (index_targets g (objects b) root_id (b_roots b) Hok).
    + assert (∀ x, x ∈ omap (root_target g) (b_roots b) → Index g (get (ids g) x) = (x, true)) as Hcan.
      { intros x (r & Hr & Hx)%list_elem_of_omap. unfold root_target in Hx. destruct (Hok (root_id r)) as [(i & _ & Hid & Hix & _)|(_ & Hix)]; rewrite Hix in Hx; [|done].
        injection Hx as <-. by rewrite Hid. }
      intros x y Hx%Hcan Hy%Hcan He. rewrite He, Hy in Hx. by injection Hx.
Qed.
End Resolved.

(** The name of an entry of the class table. *)
Definition table_name (names : classKey → string) (ik : Z * classKey) : string :=
  if bool_decide (get (b_classNames b) ik.1 = "") then names ik.2 else get (b_classNames b) ik.1.

(** The whole of [build]. *)
Lemma build_spec names : runs (build b names) (λ g, graph_ok g ∧ represents g b ∧
  (∀ obj n, classObjOf g !! obj = Some n ↔
    ∃ jk, jk ∈ zip (upto 0 (len (classKeys b))) (classKeys b) ∧ class_object g obj n jk) ∧
  classNames g = table_name names <$> zip (upto 0 (len (classKeys b))) (classKeys b) ∧
  IDSize g = idSize b ∧ Unresolved g = 0 ∧ predCache g = None).
Proof.
  unfold build. rewrite !map_sorted by (apply B || done). set (keys := zip _ _).
  do 3 apply runs_bind, runs_ok. cbv beta.
  rewrite (map_each_ok _ (table_name names)).
  2: { intros [j k] [Hj _]%zip_keys_range. cbn [fst snd] in *. rewrite idx_get by (rewrite (bo_names _ B); lia). done. }
  apply runs_bind, runs_ok, runs_bind. set (cn := _ <$> keys).
  assert (len cn = len (classKeys b)) as Hcn.
  { unfold cn, keys, len. rewrite length_fmap, length_zip. unfold upto. rewrite length_seqZ. unfold len. lia. }
  eapply runs_mono; [apply (resolveEdges_spec _ b (sortPerm b) B); intros p; apply sorted_range|].
  intros g1 (starts & out' & Hrows & ->). cbv beta zeta.
  match type of Hrows with rows_inv (λ p, refTargets ?G _) _ _ => set (g0 := G) in * end.
  pose proof (resolved_graph_ok g0 starts out' eq_refl eq_refl eq_refl Hcn eq_refl eq_refl eq_refl Hrows) as G.
  pose proof (resolved_represents g0 starts out' eq_refl eq_refl eq_refl eq_refl eq_refl Hrows) as Re.
  destruct (resolved_index g0 starts out' eq_refl) as (_ & _ & Hok).
  match type of G with graph_ok ?G' => set (g2 := G') in * end. apply runs_bind.
  eapply runs_mono; [apply (classObjLoop_spec g2 Hok); [apply G..|done]|]. intros m Hm. apply runs_ok.
  split_and!; [destruct G; by constructor|destruct Re; by constructor|done..].
Qed.
End Build.

(** ** The operations of the builder *)

Lemma classFor_spec b k name b' i : builder_ok b → len (classKeys b) < maxGraphObjects + 2 → classFor b k name = (b', i) →
  builder_ok b' ∧ 0 <= i < len (classKeys b') ∧ classKeys b' !! Z.to_nat i = Some k ∧ objects b' = objects b ∧
  len (classKeys b) <= len (classKeys b') <= len (classKeys b) + 1 ∧
  b_ids b' = b_ids b ∧ err b' = err b ∧ b_roots b' = b_roots b ∧ rawEdges b' = rawEdges b.
Proof.
  intros B Hk. unfold classFor. destruct (classIdx b !! k) as [j|] eqn:E; intros [= <- <-].
  - pose proof E as [Hj Hkj]%(bo_index _ B). apply lookup_lt_Some in Hkj as Hlt. unfold len in *. split_and!; done || lia.
  - pose proof (len_nonneg (classKeys b)). unfold maxGraphObjects in *. rewrite i32_small by lia.
    assert (∀ j, classKeys b !! j ≠ Some k) as Hno.
    { intros j Hj. assert (classIdx b !! k = Some (Z.of_nat j)) by (apply (bo_index _ B); rewrite Nat2Z.id; split; [lia|done]). congruence. }
    split_and!; cbn; rewrite ?len_snoc; try done; try lia.
    2: { unfold len. rewrite Nat2Z.id. by apply list_lookup_middle. }
    destruct B as [B1 B2 B3 BS B4 B5 B6 B7 B8 B9 B10 B11]. split; cbn; rewrite ?len_snoc; try done; try (unfold maxGraphObjects; lia).
    + intros c Hc. specialize (B9 c Hc). lia.
    + intros k' j. destruct (decide (k' = k)) as [->|Hne].
      * rewrite lookup_insert_eq. split.
        -- intros [= <-]. split; [lia|]. unfold len. rewrite Nat2Z.id. by apply list_lookup_middle.
        -- intros [Hj Hl]. f_equal. apply lookup_app_Some in Hl as [Hl|[Hl1 Hl2]]; [by apply Hno in Hl|].
           apply list_lookup_singleton_Some in Hl2 as [Hl2 _]. unfold len in *. lia.
      * rewrite lookup_insert_ne by done. rewrite B10. split; (intros [Hj Hl]; split; [done|]); [by apply lookup_app_l_Some|].
        apply lookup_app_Some in Hl as [Hl|[_ Hl]]; [done|]. by apply list_lookup_singleton_Some in Hl as [_ ->].
Qed.

Definition nonzero (refs : list Z) : list Z := List.filter (λ r, negb (r =? 0)) refs.

Lemma get_app_r {A} `{Inhabited A} (l k : list A) i : len l <= i → get (l ++ k) i = get k (i - len l).
Proof. intros Hi. unfold get, len in *. rewrite lookup_total_app_r by lia. f_equal. lia. Qed.
Lemma objects_ext b b' : b_ids b' = b_ids b → (∀ p, 0 <= p < len (b_ids b) → object_at b' p = object_at b p) → objects b' = objects b.
Proof.
  intros Hi Ho. unfold objects. rewrite Hi. apply list_fmap_ext. intros i p Hp.
  apply list_elem_of_lookup_2, elem_of_upto in Hp. by apply Ho.
Qed.

(** References are appended to an object that has none. *)
Definition set_refs (b b' : graphBuilder) (p : Z) (refs : list Z) : Prop :=
  b_ids b' = b_ids b ∧ b_class b' = b_class b ∧ b_shallow b' = b_shallow b ∧ b_roots b' = b_roots b ∧
  threadBySerial b' = threadBySerial b ∧ classIdx b' = classIdx b ∧ classKeys b' = classKeys b ∧
  b_classNames b' = b_classNames b ∧ idSize b' = idSize b ∧
  refs_of b' p = refs ∧ ∀ q, 0 <= q < len (b_ids b) → q ≠ p → refs_of b' q = refs_of b q.

Lemma appendRefs_spec b p refs : builder_ok b → 0 <= p < len (b_ids b) → refs_of b p = [] →
  runs (appendRefs b p refs) (λ b', builder_ok b' ∧
    (err b' = err b ∧ set_refs b b' p (nonzero refs) ∨ err b' ≠ None ∧ b' = fail_with b edges_error)).
Proof.
  intros B Hp Hnil. pose proof (bo_off _ B). pose proof (bo_cnt _ B). pose proof (bo_raw _ B). unfold appendRefs.
  apply runs_if; intros Hc; to_prop.
  { apply runs_ok. split; [done|left]. split; [done|]. split_and!; try done. destruct Hc; to_prop; [|lia].
    destruct refs; [done|]. rewrite len_cons in *. pose proof (len_nonneg refs). lia. }
  apply runs_if; intros Hm; to_prop.
  { apply runs_ok. split; [by destruct B; constructor|right]. split; [|done]. cbn. by destruct (err b). }
  pose proof (len_nonneg (rawEdges b)). set (raw := rawEdges b ++ _).
  assert (len (nonzero refs) <= len refs) as Hfl by (unfold nonzero, len; pose proof (List.filter_length_le (λ r, negb (r =? 0)) refs); lia).
  assert (len raw = len (rawEdges b) + len (nonzero refs)) as Hraw by (unfold raw; by rewrite len_app).
  pose proof (len_nonneg (nonzero refs)). unfold maxGraphEdges in *.
  apply runs_bind, runs_set_idx; [lia|]. apply runs_bind, runs_idx; [rewrite len_put; lia|].
  rewrite get_put_eq by lia. apply runs_bind, runs_set_idx; [lia|]. apply runs_ok. rewrite i32_small by lia.
  assert (∀ q, 0 <= q < len (b_ids b) → q ≠ p → refs_of (with_edges b (put (edgeOff b) p (len (rawEdges b))) (put (edgeCnt b) p (len raw - len (rawEdges b))) raw) q = refs_of b q) as Hother.
  { intros q Hq Hne. unfold refs_of. cbn. rewrite !get_put_ne by lia. destruct (bo_run _ B q Hq) as (? & ? & ?). apply sub_app_l; lia. }
  split; [|left; split; [done|]; split_and!; try done].
  - destruct B as [B1 B2 B3 BS B4 B5 B6 B7 B8 B9 B10 B11]. split; cbn; rewrite ?len_put; try done; try (unfold maxGraphEdges; lia).
    intros q Hq. destruct (decide (q = p)) as [->|Hne]; [rewrite !get_put_eq by lia; lia|].
    rewrite !get_put_ne by lia. specialize (B6 q Hq). lia.
  - unfold refs_of. cbn. rewrite !get_put_eq by lia. replace (len (rawEdges b) + (len raw - len (rawEdges b))) with (len raw) by lia.
    apply sub_app_r.
Qed.

Lemma addObject_spec b id cls sh refs : builder_ok b → 0 <= cls < len (classKeys b) → i64 sh = sh →
  runs (addObject b id cls sh refs) (λ r, builder_ok r.1 ∧ b_roots r.1 = b_roots b ∧ threadBySerial r.1 = threadBySerial b ∧
    classKeys r.1 = classKeys b ∧ len (b_ids b) <= len (b_ids r.1) ∧
    (err r.1 = err b ∧ r.2 = len (b_ids b) ∧ b_ids r.1 = b_ids b ++ [id] ∧
       objects r.1 = objects b ++ [{| o_id := id; o_class := cls; o_shallow := sh; o_refs := nonzero refs |}] ∨
     err r.1 ≠ None)).
Proof.
  intros B Hcls Hsh. unfold addObject. apply runs_if; intros Hm; to_prop.
  { apply runs_ok. cbn. split_and!; try done; [by destruct B; constructor|right; by destruct (err b)]. }
  set (b1 := with_edges _ _ _ _). pose proof (len_nonneg (b_ids b)). pose proof (len_nonneg (rawEdges b)).
  assert (∀ q, 0 <= q < len (b_ids b) → object_at b1 q = object_at b q) as Hold.
  { intros q Hq. unfold object_at, refs_of. cbn. destruct B. rewrite !get_app_l by lia. done. }
  assert (get (b_ids b1) (len (b_ids b)) = id ∧ get (b_class b1) (len (b_ids b)) = cls ∧ get (b_shallow b1) (len (b_ids b)) = sh ∧ refs_of b1 (len (b_ids b)) = []) as (N1 & N2 & N3 & N4).
  { unfold refs_of. cbn. rewrite get_snoc. rewrite <-(bo_class _ B) at 1. rewrite get_snoc. rewrite <-(bo_shallow _ B) at 1. rewrite get_snoc.
    rewrite <-(bo_cnt _ B). rewrite get_snoc. split_and!; try done. unfold sub. rewrite Z.add_0_r, Z.sub_diag. done. }
  assert (builder_ok b1) as B1.
  { destruct B as [B1 B2 B3 BS B4 B5 B6 B7 B8 B9 B10 B11]. split; cbn; rewrite ?len_snoc; try done; try lia.
    - intros s [Hs| ->%list_elem_of_singleton]%elem_of_app; [auto|done].
    - intros q Hq. destruct (decide (q = len (b_ids b))) as [->|Hne].
      + assert (get (edgeOff b ++ [len (rawEdges b)]) (len (b_ids b)) = len (rawEdges b)) as -> by (rewrite <-B4; apply get_snoc).
        assert (get (edgeCnt b ++ [0]) (len (b_ids b)) = 0) as -> by (rewrite <-B5; apply get_snoc). lia.
      + rewrite !get_app_l by lia. apply B6. lia.
    - intros c [Hc| ->%list_elem_of_singleton]%elem_of_app; [auto|done]. }
  apply runs_bind. eapply runs_mono; [apply (appendRefs_spec b1 (len (b_ids b)) refs B1)|].
  - cbn. rewrite len_snoc. lia.
  - done.
  - intros b2 (B2 & Hb2). apply runs_ok. cbn [fst snd].
    destruct Hb2 as [(He & S1 & S2 & S3 & S4 & S5 & S6 & S7 & S8 & S9 & S10 & S11)|(He & ->)].
    + split_and!; try done; [rewrite S1; cbn; rewrite len_snoc; lia|]. left.
      split_and!; [done..|]. unfold objects. rewrite S1. cbn [b_ids b1 with_edges with_objects].
      rewrite len_snoc, upto_snoc by lia. rewrite fmap_app. f_equal.
      * apply list_fmap_ext. intros i q Hq. apply list_elem_of_lookup_2, elem_of_upto in Hq. rewrite <-Hold by lia.
        unfold object_at. rewrite S1, S2, S3, S11; [done| |lia]. cbn. rewrite len_snoc. lia.
      * cbn [fmap list_fmap]. unfold object_at. rewrite S1, S2, S3, S10. by rewrite N1, N2, N3.
    + cbn. rewrite len_snoc. split_and!; try done; try lia. by right.
Qed.

(** *** Root records of an object *)
Lemma rootsEnd_spec rs i : StronglySorted (λ a b, Object a <= Object b) rs → ∀ fuel hi, 0 <= hi <= len rs → len rs - hi <= Z.of_nat fuel →
  let e := rootsEnd fuel rs i hi in hi <= e <= len rs ∧ (∀ k, hi <= k < e → Object (get rs k) = i) ∧ (e < len rs → Object (get rs e) ≠ i).
Proof.
  intros Hs. induction fuel as [|fuel IH]; intros hi Hhi Hf; cbn [rootsEnd].
  - split_and!; try lia.
  - destruct (hi <? len rs) eqn:E1; cbn [andb]; to_prop; [|split_and!; intros; lia].
    destruct (Object (get rs hi) =? i) eqn:E2; to_prop; [|split_and!; [lia..|intros; lia|done]].
    destruct (IH (hi + 1)) as (H1 & H2 & H3); [lia..|]. split_and!; [lia..| |done].
    intros k Hk. destruct (decide (k = hi)) as [->|]; [done|apply H2; lia].
Qed.
(** [RootsOf] returns the records of the object, in order. *)
Lemma RootsOf_spec g i : graph_ok g → runs (RootsOf g i) (λ rs, rs = filter (λ r, Object r = i) (gcRoots g)).
Proof.
  intros G. unfold RootsOf. set (rs := gcRoots g) in *. pose proof (go_gcroots _ G : StronglySorted _ rs) as Hs.
  destruct (Search_spec (len rs) (λ k, i <=? Object (get rs k))) as (Hr & Hlo & Hhi).
  { apply len_nonneg. }
  { intros x y Hxy Hy Hx. to_prop. apply Z.leb_le. destruct (decide (x = y)) as [->|]; [done|].
    pose proof (StronglySorted_get _ _ x y Hs ltac:(lia) Hy). cbn in *. lia. }
  set (lo := Search _ _) in *. cbv beta in *.
  destruct (rootsEnd_spec rs i Hs (length rs) lo) as (He & Hin & Hout); [lia|unfold len; lia|].
  set (e := rootsEnd _ _ _ _) in *. cbv zeta in *. rewrite slice_ok by lia. apply runs_ok.
  assert (rs = sub rs 0 lo ++ sub rs lo e ++ sub rs e (len rs)) as Hsplit.
  { unfold sub. rewrite !Z.sub_0_r. cbn [Z.to_nat drop]. unfold len in *.
    rewrite <-(take_drop (Z.to_nat lo) rs) at 1. f_equal. rewrite <-(take_drop (Z.to_nat (e - lo)) (drop (Z.to_nat lo) rs)) at 1. f_equal.
    rewrite drop_drop. rewrite take_ge; [f_equal; lia|]. rewrite length_drop. lia. }
  symmetry. rewrite Hsplit at 1. rewrite !filter_app.
  assert (∀ a b, 0 <= a <= b → b <= len rs → (∀ k, a <= k < b → Object (get rs k) ≠ i) → filter (λ r, Object r = i) (sub rs a b) = []) as Hnone.
  { intros x y Hx Hy Hk. apply filter_none. intros r (k & Hk' & <-)%elem_of_sub_get; [auto|lia..]. }
  rewrite (Hnone 0 lo), (Hnone e (len rs)); try lia.
  - rewrite app_nil_r. cbn [app]. apply filter_all. intros r (k & Hk & <-)%elem_of_sub_get; [auto|lia..].
  - intros k Hk Hki. destruct (decide (k = e)) as [->|]; [by apply Hout; [lia|]|].
    pose proof (StronglySorted_get _ _ e k Hs ltac:(lia) ltac:(lia)) as Hek. specialize (Hhi e ltac:(lia)). to_prop.
    cbn in Hek. apply Hout; lia.
  - intros k Hk. specialize (Hlo k ltac:(lia)). to_prop. lia.
Qed.
Lemma display_ok g i : graph_ok g → 0 <= i < Len g → ∃ name, DisplayName g i = Ok name.
Proof.
  intros G Hi. unfold DisplayName, ClassName. destruct (classObjOf g !! i); [eauto|]. pose proof (go_class _ G).
  rewrite idx_get by lia. cbn. rewrite idx_get; [eauto|]. apply (go_classes _ G), elem_of_get. exists i. split; [lia|done].
Qed.
End GraphFacts.
