(* ===== verification/DomTheory.v ===== *)
(** * Dominators of a flow graph numbered in depth-first preorder

    The theory behind the dominator tree of [src/internal/heap/dominators.go]:
    a flow graph on [0 .. m-1] with root [0], a depth-first spanning tree
    given by [par], and the facts on semidominators of Lengauer and Tarjan.
    The facts about the numbering that a depth-first search establishes are the
    hypotheses of the section; [HeapDominators] discharges them for the search
    of the code. *)

From S2P Require Import Prelude.

(** Walks and dominance *)

Inductive path (E : Z → Z → Prop) : Z → Z → list Z → Prop :=
| path_one u : path E u u [u]
| path_cons u v w l : E u v → path E v w l → path E u w (u :: l).

Definition dom (E : Z → Z → Prop) (x v : Z) : Prop := ∀ l, path E 0 v l → x ∈ l.
(** [d] is the immediate dominator of [v]. *)
Definition is_idom (E : Z → Z → Prop) (v d : Z) : Prop :=
  dom E d v ∧ d ≠ v ∧ ∀ d', dom E d' v → d' ≠ v → dom E d' d.

Inductive anc (m : Z) (par : Z → Z) (u : Z) : Z → Prop :=
| anc_refl : anc m par u u
| anc_par v : 0 < v < m → anc m par u (par v) → anc m par u v.

(** What depth-first search gives: tree edges are edges, an edge to a later
    node goes to a descendant, and the descendants of a node are numbered
    contiguously. *)
Record dfs_tree (m : Z) (E : Z → Z → Prop) (par : Z → Z) : Prop := {
  dt_pos : 0 < m;
  dt_range : ∀ u v, E u v → 0 <= u < m ∧ 0 < v < m;
  dt_par : ∀ v, 0 < v < m → 0 <= par v < v ∧ E (par v) v;
  dt_edge : ∀ u v, E u v → u < v → anc m par u v;
  dt_interval : ∀ z v y, anc m par z y → z <= v <= y → anc m par z v;
}.

(** [semip w v]: a walk from [v] to [w] whose inner nodes come after [w]. *)
Inductive semip (E : Z → Z → Prop) (w : Z) : Z → Prop :=
| semip_edge v : E v w → semip E w v
| semip_step v x : E v x → w < x → semip E w x → semip E w v.
Definition is_semi (E : Z → Z → Prop) (w s : Z) : Prop := semip E w s ∧ ∀ v, semip E w v → s <= v.

Section Theory.
Context {m : Z} {E : Z → Z → Prop} {par : Z → Z} (T : dfs_tree m E par).
Local Abbreviation anc := (anc m par).
Local Abbreviation semip := (semip E).
Local Abbreviation dom := (dom E).
Local Abbreviation path := (path E).

(** ** The spanning tree *)

Lemma anc_le u v : anc u v → u <= v.
Proof. induction 1 as [|v Hv _ IH]; [lia|]. pose proof (dt_par _ _ _ T v Hv). lia. Qed.
Lemma anc_trans a b c : anc a b → anc b c → anc a c.
Proof. intros Ha. induction 1; [done|]. by apply anc_par. Qed.
Lemma anc_antisym a b : anc a b → anc b a → a = b.
Proof. intros ?%anc_le ?%anc_le. lia. Qed.
Lemma anc_up a v : anc a v → a ≠ v → 0 < v < m ∧ anc a (par v).
Proof. by inversion 1. Qed.
Lemma anc_linear a b v : anc a v → anc b v → a <= b → anc a b.
Proof. intros Ha Hb Hle. apply (dt_interval _ _ _ T a b v); [done|]. apply anc_le in Hb. lia. Qed.
Lemma anc_root v : 0 <= v < m → anc 0 v.
Proof.
  intros Hv. assert (0 <= v) as H0 by lia. revert v H0 Hv.
  refine (Zlt_0_ind _ _). intros v IH _ Hv. destruct (decide (v = 0)) as [->|Hn]; [constructor|].
  assert (0 < v < m) as Hv' by lia. pose proof (dt_par _ _ _ T v Hv'). apply anc_par; [done|]. apply IH; lia.
Qed.
Lemma anc_range u v : anc u v → 0 <= v < m → 0 <= u < m.
Proof. induction 1 as [|v Hv _ IH]; [done|]. intros _. apply IH. pose proof (dt_par _ _ _ T v Hv). lia. Qed.
Lemma anc_between p w y v : par w = p → 0 < w < m → anc y v → p < y → w <= v → w <= y.
Proof.
  intros Hp Hw Hyv Hpy Hwv. destruct (decide (w <= y)) as [|Hn]; [done|].
  assert (anc y w) as Hyw by (apply (dt_interval _ _ _ T y w v); [done|lia]).
  destruct (anc_up y w Hyw) as [_ Hyp]; [lia|]. rewrite Hp in Hyp. apply anc_le in Hyp. lia.
Qed.

(** ** Walks *)

Lemma path_app a b c l k : path a b l → path b c k → ∃ j, path a c j ∧ ∀ x, x ∈ j → x ∈ l ∨ x ∈ k.
Proof.
  intros Hl. revert k. induction Hl as [u|u v w l He Hp IH]; intros k Hk.
  - exists k. split; [done|]. auto.
  - destruct (IH k Hk) as (j & Hj & Hin). exists (u :: j). split; [by econstructor|]. set_solver.
Qed.
Lemma path_snoc a b c l : path a b l → E b c → path a c (l ++ [c]).
Proof. induction 1; intros; econstructor; eauto using DomTheory.path. Qed.
Lemma path_last a b l : path a b l → b ∈ l.
Proof. induction 1; set_solver. Qed.
Lemma path_first a b l : path a b l → a ∈ l.
Proof. destruct 1; set_solver. Qed.

(** The tree path between a node and a descendant. *)
Lemma tree_path u v : anc u v → ∃ l, path u v l ∧ ∀ x, x ∈ l → anc u x ∧ anc x v.
Proof.
  induction 1 as [|v Hv Hu (l & Hl & Hin)].
  - exists [u]. split; [constructor|]. intros x ->%list_elem_of_singleton. split; constructor.
  - exists (l ++ [v]). split; [eapply path_snoc; [done|by apply (dt_par _ _ _ T)]|].
    intros x [Hx|Hx]%elem_of_app; [destruct (Hin x Hx); split; [done|by apply anc_par]|].
    apply list_elem_of_singleton in Hx as ->. split; [by apply anc_par|constructor].
Qed.
Lemma semip_path w v : semip w v → ∃ l, path v w l ∧ ∀ x, x ∈ l → x = v ∨ w <= x.
Proof.
  induction 1 as [v He|v x He Hx Hs (l & Hl & Hin)].
  - exists [v; w]. split; [econstructor; [done|constructor]|]. set_solver by lia.
  - exists (v :: l). split; [by econstructor|]. intros y [->|Hy]%elem_of_cons; [by left|].
    destruct (Hin y Hy) as [->|]; right; lia.
Qed.

(** ** Semidominators *)

Lemma semip_anc w v : semip w v → v < w → anc v w.
Proof.
  destruct 1 as [v He|v x He Hx _]; intros Hv; [by apply (dt_edge _ _ _ T)|].
  apply (dt_interval _ _ _ T v w x); [|lia]. apply (dt_edge _ _ _ T); [done|lia].
Qed.
Lemma semip_range w v : semip w v → 0 <= v < m.
Proof. destruct 1; by eapply (dt_range _ _ _ T). Qed.
Lemma semi_anc w s : 0 < w < m → is_semi E w s → anc s w ∧ s < w ∧ 0 <= s.
Proof.
  intros Hw [Hs Hmin]. destruct (dt_par _ _ _ T w Hw) as [Hp He].
  pose proof (Hmin _ (semip_edge _ _ _ He)). pose proof (semip_range _ _ Hs).
  split_and!; [apply semip_anc; [done|]|..]; lia.
Qed.

(** The nodes a semidominator is computed from: the sources of the edges into
    [w], and the semidominators of the later ancestors of these. *)
Lemma semip_candidate w v u s : E v w → w < u → anc u v → semip u s → semip w s.
Proof.
  intros He Hu Huv Hs. assert (semip w u) as Hwu.
  { assert (semip w v) as Hv by by constructor. clear He. induction Huv as [|v Hvm Huv IH]; [done|]. apply IH.
    destruct (dt_par _ _ _ T v Hvm). pose proof (anc_le _ _ Huv). eapply semip_step; [done|lia|done]. }
  induction Hs as [s Hs|s x Hs Hx Hsx IH]; (eapply semip_step; [done| |]); [lia|done|lia|done].
Qed.
Lemma semip_cases w x : semip w x → E x w ∨ ∃ v u, E v w ∧ w < u ∧ anc u v ∧ semip u x.
Proof.
  induction 1 as [v He|x y He Hy Hs [IH|(v & u & Hv & Hu & Huv & Huy)]]; [by left|right..].
  - exists y, y. split_and!; [done..|constructor|by constructor].
  - exists v. destruct (Z.lt_trichotomy y u) as [Hyu|[->|Hyu]].
    + exists y. split_and!; [done..| |by constructor]. eapply anc_trans; [by apply semip_anc|done].
    + exists u. split_and!; [done..|by constructor].
    + exists u. split_and!; [done..|by eapply semip_step].
Qed.

(** ** Dominators are ancestors *)

Lemma dom_anc d w : 0 <= w < m → dom d w → anc d w.
Proof. intros Hw Hd. destruct (tree_path 0 w) as (l & Hl & Hin); [by apply anc_root|]. by apply Hin, Hd. Qed.
Lemma dom_refl v : dom v v.
Proof. intros l. apply path_last. Qed.
Lemma dom_root v : dom 0 v.
Proof. intros l. apply path_first. Qed.
Lemma sdom_semi d w s : 0 < w < m → is_semi E w s → dom d w → d ≠ w → anc d s.
Proof.
  intros Hw Hs Hd Hne. destruct (semi_anc w s Hw Hs) as (Hsw & Hlt & H0).
  assert (anc d w) as Hdw by (apply dom_anc; [lia|done]). pose proof (anc_le _ _ Hdw).
  destruct (tree_path 0 s) as (l & Hl & Hin); [apply anc_root; lia|].
  destruct (semip_path w s) as (k & Hk & Hkin); [apply Hs|].
  destruct (path_app _ _ _ _ _ Hl Hk) as (j & Hj & Hjin).
  destruct (Hjin _ (Hd j Hj)) as [Hx|Hx]; [by apply Hin|].
  destruct (Hkin _ Hx) as [->|]; [constructor|lia].
Qed.
(** A dominator of [w] above [u] on the tree path to [w] dominates [u]. *)
Lemma dom_above d u w : anc u w → d < u → dom d w → dom d u.
Proof.
  intros Hu Hd Hdw l Hl. destruct (tree_path u w Hu) as (k & Hk & Hkin).
  destruct (path_app _ _ _ _ _ Hl Hk) as (j & Hj & Hjin). destruct (Hjin _ (Hdw j Hj)) as [|Hx]; [done|].
  destruct (Hkin _ Hx) as [Hux _]. apply anc_le in Hux. lia.
Qed.

(** A walk to [w] around an ancestor [d] enters the tree path below [d]
    through a walk of later nodes from a node before [d]. *)
Lemma around d w l : 0 <= w < m → anc d w → path 0 w l → d ∉ l →
  ∃ x y, 0 <= x < d ∧ anc d y ∧ anc y w ∧ y ≠ d ∧ semip y x.
Proof.
  intros Hw Hdw Hp Hd.
  assert (∀ a l, path a w l → d ∉ l →
    (∃ x y, 0 <= x < d ∧ anc d y ∧ anc y w ∧ y ≠ d ∧ semip y x) ∨
    ∃ y, anc d y ∧ anc y w ∧ y ≠ d ∧ (a = y ∨ semip y a)) as H.
  { clear l Hp Hd. intros a l Hp. remember w as w' eqn:Hw'. induction Hp as [u|a b w'' l He Hp IH]; intros Hd; subst.
    - right. exists w. split_and!; [done|constructor|set_solver|by left].
    - destruct (IH eq_refl Hw Hdw) as [?|(y & Hdy & Hyw & Hne & Hb)]; [set_solver|by left|].
      assert (b ≠ d) as Hbd by (intros ->; apply path_first in Hp; set_solver).
      destruct Hb as [->|Hb]; [right; exists y; split_and!; [done..|]; right; by constructor|].
      pose proof (semip_range _ _ Hb).
      destruct (decide (b < d)); [left; exists b, y; split_and!; [lia..|done|done|done|done]|right].
      destruct (Z.lt_trichotomy b y) as [Hby|[->|Hby]].
      + assert (anc b y) by by apply semip_anc. exists b. split_and!; [by apply (anc_linear d b y); [..|lia]|by eapply anc_trans|done|].
        right. by constructor.
      + exists y. split_and!; [done..|]. right. by constructor.
      + exists y. split_and!; [done..|]. right. by eapply semip_step. }
  destruct (H 0 l Hp Hd) as [?|(y & Hdy & Hyw & Hne & [<-|Hs])]; [done|..].
  - apply anc_le in Hdy. pose proof (anc_range _ _ Hdw Hw). assert (d = 0) as -> by lia. done.
  - exists 0, y. split_and!; [lia| |done..]. pose proof (anc_range _ _ Hdw Hw).
    destruct (decide (d = 0)) as [->|]; [|lia]. apply path_first in Hp. done.
Qed.

(** ** The two theorems on immediate dominators *)

(** No node on the tree path from the semidominator has an earlier one: the
    semidominator is the immediate dominator. *)
Lemma idom_is_semi w s : 0 < w < m → is_semi E w s →
  (∀ y x, anc s y → y ≠ s → anc y w → semip y x → s <= x) → is_idom E w s.
Proof.
  intros Hw Hs Hmin. destruct (semi_anc w s Hw Hs) as (Hsw & Hlt & H0). split_and!; [|lia|].
  - intros l Hl. destruct (decide (s ∈ l)) as [|Hn]; [done|].
    destruct (around s w l) as (x & y & Hx & Hsy & Hyw & Hne & Hyx); [lia|done..|].
    pose proof (Hmin y x Hsy Hne Hyw Hyx). lia.
  - intros d Hd Hne. pose proof (sdom_semi d w s Hw Hs Hd Hne) as Hds.
    destruct (decide (d = s)) as [->|]; [apply dom_refl|]. apply anc_le in Hds.
    apply (dom_above d s w); [done|lia|done].
Qed.
(** Otherwise the node with the earliest one has the same immediate dominator. *)
Lemma idom_same w s u su d : 0 < w < m → is_semi E w s → is_semi E u su →
  anc s u → u ≠ s → anc u w → (∀ y x, anc s y → y ≠ s → anc y w → semip y x → su <= x) →
  is_idom E u d → is_idom E w d.
Proof.
  intros Hw Hs Hsu Hau Hne Huw Hmin (Hdu & Hd & Himm).
  destruct (semi_anc w s Hw Hs) as (Hsw & Hlt & H0).
  pose proof (anc_le _ _ Huw). pose proof (anc_le _ _ Hau). assert (0 < u < m) as Hu by lia.
  pose proof (sdom_semi d u su Hu Hsu Hdu Hd) as Hdsu. pose proof (anc_le _ _ Hdsu).
  assert (anc d u) as Hdau by (apply dom_anc; [lia|done]). assert (anc d w) as Hdw by by eapply anc_trans.
  assert (su <= s) as Hsus.
  { destruct Hs as [Hs _]. apply (Hmin w s); [done|lia|constructor|done]. }
  split_and!; [|pose proof (anc_le _ _ Hdau); lia|].
  - intros l Hl. destruct (decide (d ∈ l)) as [|Hn]; [done|exfalso].
    destruct (around d w l) as (x & y & Hx & Hdy & Hyw & Hyd & Hyx); [lia|done..|].
    destruct (decide (y <= s)) as [Hys|Hys].
    + assert (anc y u) as Hyu by (apply (anc_linear y u w); [done..|lia]).
      destruct (tree_path 0 x) as (l1 & Hl1 & Hin1); [apply anc_root; pose proof (semip_range _ _ Hyx); lia|].
      destruct (semip_path y x Hyx) as (l2 & Hl2 & Hin2). destruct (tree_path y u Hyu) as (l3 & Hl3 & Hin3).
      destruct (path_app _ _ _ _ _ Hl2 Hl3) as (l4 & Hl4 & Hin4). destruct (path_app _ _ _ _ _ Hl1 Hl4) as (l5 & Hl5 & Hin5).
      pose proof (anc_le _ _ Hdy). specialize (Hdu l5 Hl5). apply Hin5 in Hdu as [Hx1|Hx1].
      * destruct (Hin1 _ Hx1) as [_ Hz]. apply anc_le in Hz. lia.
      * apply Hin4 in Hx1 as [Hx2|Hx2]; [destruct (Hin2 _ Hx2) as [->|]; lia|].
        destruct (Hin3 _ Hx2) as [Hz _]. apply anc_le in Hz. lia.
    + assert (anc s y) as Hsy by (apply (anc_linear s y w); [done..|lia]).
      pose proof (Hmin y x Hsy ltac:(lia) Hyw Hyx). lia.
  - intros d' Hd' Hne'. pose proof (sdom_semi d' w s Hw Hs Hd' Hne') as Hd's. apply anc_le in Hd's.
    apply Himm; [|lia]. apply (dom_above d' u w); [done|lia|done].
Qed.

Lemma idom_unique v d d' : 0 <= v < m → is_idom E v d → is_idom E v d' → d = d'.
Proof.
  intros Hv (Hd & Hne & Hi) (Hd' & Hne' & Hi'). pose proof (Hi _ Hd' Hne') as H1. pose proof (Hi' _ Hd Hne) as H2.
  assert (anc d v) as Ha by by apply dom_anc. assert (anc d' v) as Ha' by by apply dom_anc.
  apply anc_antisym; apply dom_anc; eauto using anc_range.
Qed.

(** ** The dominator tree *)

Lemma path_prefix a c l b : path a c l → b ∈ l → ∃ l1, path a b l1 ∧ ∀ x, x ∈ l1 → x ∈ l.
Proof.
  induction 1 as [u|u v c l He Hp IH]; intros Hb.
  - apply list_elem_of_singleton in Hb as ->. exists [u]. split; [constructor|done].
  - destruct (decide (b = u)) as [->|Hne].
    + exists [u]. split; [constructor|set_solver].
    + destruct IH as (l1 & Hl1 & Hin); [set_solver|]. exists (u :: l1). split; [by econstructor|set_solver].
Qed.
Lemma dom_trans a b c : dom a b → dom b c → dom a c.
Proof. intros Hab Hbc l Hl. destruct (path_prefix _ _ _ _ Hl (Hbc l Hl)) as (l1 & Hl1 & Hin). auto. Qed.
Lemma idom_before v d : 0 < v < m → is_idom E v d → 0 <= d < v.
Proof.
  intros Hv (Hd & Hne & _). assert (anc d v) as Ha by (apply dom_anc; [lia|done]).
  pose proof (anc_le _ _ Ha). pose proof (anc_range _ _ Ha). lia.
Qed.
(** Dominators are the ancestors in the tree of immediate dominators. *)
Lemma dom_iff_anc idom d v : (∀ v, 0 < v < m → is_idom E v (idom v)) → 0 <= v < m → dom d v ↔ DomTheory.anc m idom d v.
Proof.
  intros Hi Hv. split.
  - assert (0 <= v) as H0 by lia. revert v H0 Hv. refine (Zlt_0_ind _ _). intros v IH _ Hv Hd.
    destruct (decide (d = v)) as [->|Hne]; [constructor|]. assert (0 < v < m) as Hv'.
    { destruct (decide (v = 0)) as [->|]; [|lia]. apply dom_anc in Hd; [|lia]. inversion Hd; lia || congruence. }
    destruct (idom_before v (idom v) Hv' (Hi v Hv')). apply anc_par; [done|]. apply IH; [lia..|].
    by apply (Hi v Hv').
  - intros Ha. induction Ha as [|v Hv' Ha IH]; [apply dom_refl|]. destruct (idom_before v (idom v) Hv' (Hi v Hv')).
    apply (dom_trans d (idom v) v); [apply IH; lia|]. by apply (Hi v Hv').
Qed.
End Theory.

(** Facts about any tree of parents that come before their children. *)
Section Tree.
Context {m : Z} {p : Z → Z} (Hp : ∀ v, 0 < v < m → 0 <= p v < v).

Lemma tree_le u v : anc m p u v → u <= v.
Proof. induction 1 as [|v Hv _ IH]; [lia|]. specialize (Hp v Hv). lia. Qed.
Lemma tree_trans a b c : anc m p a b → anc m p b c → anc m p a c.
Proof. intros Ha. induction 1; [done|]. by apply anc_par. Qed.
Lemma tree_linear a b v : anc m p a v → anc m p b v → anc m p a b ∨ anc m p b a.
Proof.
  intros Ha. revert b. induction Ha as [|v Hv Ha IH]; intros b Hb; [by right|].
  inversion Hb as [|? ? Hb']; subst; [left; by apply anc_par|auto].
Qed.
Lemma tree_siblings a b v : a ≠ b → p a = p b → 0 < a < m → 0 < b < m → anc m p a v → anc m p b v → False.
Proof.
  intros Hne He Ha Hb H1 H2. assert (∀ x y, x ≠ y → p x = p y → 0 < x < m → 0 < y < m → ¬ anc m p x y) as Hno.
  { intros x y Hxy Hpe Hx Hy Han. inversion Han as [|? ? Han']; subst; [done|]. rewrite <-Hpe in Han'. apply tree_le in Han'.
    specialize (Hp x Hx). lia. }
  destruct (tree_linear a b v H1 H2); [by apply (Hno a b)|by apply (Hno b a)].
Qed.
Lemma tree_child u v : anc m p u v → u ≠ v → ∃ c, 0 < c < m ∧ p c = u ∧ anc m p c v.
Proof.
  induction 1 as [|v Hv Ha IH]; intros Hne; [done|]. destruct (decide (u = p v)) as [->|Hs].
  - exists v. split_and!; [lia..|done|constructor].
  - destruct (IH Hs) as (c & Hc & Hpc & Hcv). exists c. split_and!; [lia..|done|by apply anc_par].
Qed.
Lemma tree_root v : 0 <= v < m → anc m p 0 v.
Proof.
  intros Hv. assert (0 <= v) as H0 by lia. revert v H0 Hv. refine (Zlt_0_ind _ _). intros v IH _ Hv.
  destruct (decide (v = 0)) as [->|Hn]; [constructor|]. specialize (Hp v ltac:(lia)). apply anc_par; [lia|]. apply IH; lia.
Qed.
End Tree.
