(* ===== verification/HeapLT.v ===== *)
(** * The Lengauer-Tarjan algorithm

    [lengauerTarjan] and [ltState] of [src/internal/heap/dominators.go]: the
    semidominators, the link-eval forest with path compression, the buckets as
    linked lists in two arrays, and the final pass.  The theorem of the file,
    against the theory in [DomTheory]: on a graph numbered in depth-first
    preorder the result is the array of immediate dominators. *)

From S2P Require Import Prelude Arrays DomTheory.

Module LT.

(** The scratch slice [path] of the source is local to [compress]. *)
Record ltState := { semi : list Z; ancestor : list Z; label : list Z }.

(** The first loop of [compress]; nodes decrease along [ancestor], so the
    length of the array is fuel enough. *)
Fixpoint compressPath (fuel : nat) (anc : list Z) (x : Z) (path : list Z) : outcome (list Z) :=
  match fuel with
  | O => out_of_fuel
  | S fuel =>
    a ← idx anc x; aa ← idx anc a;
    if negb (aa =? -1) then compressPath fuel anc a (path ++ [x]) else Ok path
  end.
Definition compressStep (lt : ltState) (y : Z) : outcome ltState :=
  a ← idx (ancestor lt) y;
  la ← idx (label lt) a; sla ← idx (semi lt) la;
  ly ← idx (label lt) y; sly ← idx (semi lt) ly;
  label' ← (if sla <? sly then set_idx (label lt) y la else Ok (label lt));
  aa ← idx (ancestor lt) a;
  ancestor' ← set_idx (ancestor lt) y aa;
  Ok {| semi := semi lt; ancestor := ancestor'; label := label' |}.
Definition compress (lt : ltState) (v : Z) : outcome ltState :=
  path ← compressPath (S (length (ancestor lt))) (ancestor lt) v [];
  for_each (rev path) compressStep lt.

Definition eval (lt : ltState) (v : Z) : outcome (Z * ltState) :=
  a ← idx (ancestor lt) v;
  if a =? -1 then Ok (v, lt)
  else lt ← compress lt v; u ← idx (label lt) v; Ok (u, lt).

Record work := { lt : ltState; idom : list Z; bucketHead : list Z; bucketNext : list Z }.

(** One predecessor of [w]. *)
Definition predStep (w : Z) (lt : ltState) (v : Z) : outcome ltState :=
  '(u, lt) ← eval lt v;
  su ← idx (semi lt) u; sw ← idx (semi lt) w;
  if su <? sw then
    semi' ← set_idx (semi lt) w su;
    Ok {| semi := semi'; ancestor := ancestor lt; label := label lt |}
  else Ok lt.

(** The loop over the bucket of [p]; it visits each node at most once. *)
Fixpoint bucketLoop (fuel : nat) (p v : Z) (st : work) : outcome work :=
  match fuel with
  | O => out_of_fuel
  | S fuel =>
    if v =? -1 then Ok st else
    '(u, lt') ← eval (lt st) v;
    su ← idx (semi lt') u; sv ← idx (semi lt') v;
    idom' ← set_idx (idom st) v (if su <? sv then u else p);
    next ← idx (bucketNext st) v;
    bucketLoop fuel p next
      {| lt := lt'; idom := idom'; bucketHead := bucketHead st; bucketNext := bucketNext st |}
  end.

Definition semiStep (parent predStart preds : list Z) (st : work) (w : Z) : outcome work :=
  lo ← idx predStart w; hi ← idx predStart (w + 1); vs ← slice preds lo hi;
  lt1 ← for_each vs (predStep w) (lt st);
  sw ← idx (semi lt1) w;
  old ← idx (bucketHead st) sw;
  next ← set_idx (bucketNext st) w old;
  head ← set_idx (bucketHead st) sw w;
  p ← idx parent w;
  anc ← set_idx (ancestor lt1) w p;
  first ← idx head p;
  st ← bucketLoop (S (length head)) p first
    {| lt := {| semi := semi lt1; ancestor := anc; label := label lt1 |};
       idom := idom st; bucketHead := head; bucketNext := next |};
  head ← set_idx (bucketHead st) p (-1);
  Ok {| lt := lt st; idom := idom st; bucketHead := head; bucketNext := bucketNext st |}.

Definition finalStep (semi : list Z) (idom : list Z) (w : Z) : outcome (list Z) :=
  iw ← idx idom w; sw ← idx semi w;
  if negb (iw =? sw) then iiw ← idx idom iw; set_idx idom w iiw else Ok idom.

Definition lengauerTarjan (m : Z) (parent predStart preds : list Z) : outcome (list Z) :=
  let zeros := replicate (Z.to_nat m) 0 in
  let minus := replicate (Z.to_nat m) (-1) in
  st ← for_each (downto 1 (i32 (m - 1) + 1)) (semiStep parent predStart preds)
    {| lt := {| semi := upto 0 m; ancestor := minus; label := upto 0 m |};
       idom := zeros; bucketHead := minus; bucketNext := zeros |};
  for_each (upto 1 m) (finalStep (semi (lt st))) (idom st).

End LT.

(** ** The link-eval forest *)

Module LTFacts.
Export LT.

Section Forest.
Context {m : Z} {E : Z → Z → Prop} {par : Z → Z} (T : dfs_tree m E par).
Local Abbreviation anc := (anc m par).

(** [y] is on the tree path from [a], excluded, to [x]. *)
Definition seg (a x y : Z) : Prop := anc a y ∧ y ≠ a ∧ anc y x.

(** The nodes from [k] on are linked: [ancestor] is an ancestor in the tree,
    the nodes of the tree path to it are linked, and [label] is one of them
    with the least [semi]. *)
Record forest (k : Z) (lt : ltState) : Prop := {
  f_semi : len (semi lt) = m;
  f_ancestor : len (ancestor lt) = m;
  f_label : len (label lt) = m;
  f_root x : 0 <= x < k → get (ancestor lt) x = -1 ∧ get (label lt) x = x;
  f_linked x : k <= x < m →
    0 <= get (ancestor lt) x < x ∧ anc (get (ancestor lt) x) x ∧
    seg (get (ancestor lt) x) x (get (label lt) x) ∧
    ∀ y, seg (get (ancestor lt) x) x y →
      k <= y ∧ get (semi lt) (get (label lt) x) <= get (semi lt) y;
}.

Lemma seg_range a x y : 0 <= a → 0 <= x < m → seg a x y → 0 <= y <= x.
Proof.
  intros Ha Hx (H1 & _ & H2). pose proof (anc_le T _ _ H2). pose proof (anc_range T _ _ H2 Hx). lia.
Qed.
Lemma seg_split a b x y : anc a b → anc b x → seg a x y → seg a b y ∨ seg b x y.
Proof.
  intros Hab Hbx (H1 & H2 & H3). destruct (decide (y <= b)).
  - left. split_and!; [done..|]. by apply (anc_linear T y b x).
  - right. split_and!; [apply (anc_linear T b y x); [done..|lia]|lia|done].
Qed.
Lemma seg_l a b x y : anc b x → seg a b y → seg a x y.
Proof. intros Hb (H1 & H2 & H3). split_and!; [done..|]. by eapply anc_trans. Qed.
Lemma seg_r a b x y : anc a b → seg b x y → seg a x y.
Proof.
  intros Ha (H1 & H2 & H3). pose proof (anc_le T _ _ Ha). pose proof (anc_le T _ _ H1).
  split_and!; [by eapply anc_trans|lia|done].
Qed.

Lemma compressStep_spec k lt y : 0 < k → forest k lt → k <= y < m → k <= get (ancestor lt) y →
  runs (compressStep lt y) (λ lt', forest k lt' ∧ semi lt' = semi lt ∧
    get (ancestor lt') y = get (ancestor lt) (get (ancestor lt) y) ∧
    ∀ x, 0 <= x → x ≠ y → get (ancestor lt') x = get (ancestor lt) x).
Proof.
  intros Hk F Hy Hay. destruct (f_linked _ _ F y Hy) as (Ha & Haa & Hly & Hym). set (a := get (ancestor lt) y) in *.
  destruct (f_linked _ _ F a) as (Hb & Hba & Hla & Ham); [lia|]. set (b := get (ancestor lt) a) in *.
  pose proof (f_semi _ _ F). pose proof (f_ancestor _ _ F). pose proof (f_label _ _ F).
  pose proof (seg_range a y _ ltac:(lia) ltac:(lia) Hly). pose proof (seg_range b a _ ltac:(lia) ltac:(lia) Hla).
  unfold compressStep. fold a. do 5 (apply runs_bind, runs_idx; [lia|]; cbv beta; fold a).
  set (better := get (semi lt) (get (label lt) a) <? get (semi lt) (get (label lt) y)).
  assert (∃ u, seg b y u ∧ (∀ z, seg b y z → k <= z ∧ get (semi lt) u <= get (semi lt) z) ∧
    (if better then set_idx (label lt) y (get (label lt) a) else Ok (label lt)) = Ok (put (label lt) y u)) as (u & Hu & Hum & ->).
  { destruct better eqn:Eb; unfold better in Eb; to_prop.
    - exists (get (label lt) a). split_and!; [by eapply seg_l| |by apply set_idx_put; lia].
      intros z [Hz|Hz]%(seg_split _ a); [by apply Ham|..|done|done]. destruct (Hym z Hz). lia.
    - exists (get (label lt) y). split_and!; [by eapply seg_r| |by rewrite put_get].
      intros z [Hz|Hz]%(seg_split _ a); [|by apply Hym|done|done]. destruct (Ham z Hz). lia. }
  apply runs_bind, runs_ok, runs_bind, runs_idx; [lia|]. fold b. apply runs_bind, runs_set_idx; [lia|]. apply runs_ok.
  split_and!; cbn; [|done|by rewrite get_put_eq by lia|intros x ??; by rewrite get_put_ne by lia].
  split; cbn; rewrite ?len_put; [done..| |].
  - intros x Hx. rewrite !get_put_ne by lia. by apply F.
  - intros x Hx. destruct (decide (x = y)) as [->|Hne].
    + rewrite !get_put_eq by lia. split_and!; [lia..|by eapply anc_trans|done|done].
    + rewrite !get_put_ne by lia. by apply F.
Qed.

(** The nodes [compress] collects: up the forest to the child of a root. *)
Inductive chain (anc : list Z) : Z → list Z → Prop :=
| chain_top x : get anc (get anc x) = -1 → chain anc x []
| chain_up x l : get anc (get anc x) ≠ -1 → chain anc (get anc x) l → chain anc x (x :: l).

Lemma linked_iff k lt x : forest k lt → 0 < k → 0 <= x < m → get (ancestor lt) x ≠ -1 ↔ k <= x.
Proof.
  intros F Hk Hx. destruct (decide (x < k)).
  - destruct (f_root _ _ F x); [lia|]. lia.
  - destruct (f_linked _ _ F x); lia.
Qed.
Lemma compressPath_spec k lt : 0 < k → forest k lt → ∀ fuel x path,
  k <= x < m → x < Z.of_nat fuel →
  runs (compressPath fuel (ancestor lt) x path) (λ r, ∃ l, r = path ++ l ∧ chain (ancestor lt) x l).
Proof.
  intros Hk F. induction fuel as [|fuel IH]; intros x path Hx Hf; [lia|]. cbn [compressPath].
  pose proof (f_ancestor _ _ F). destruct (f_linked _ _ F x Hx) as (Ha & _).
  apply runs_bind, runs_idx; [lia|]. apply runs_bind, runs_idx; [lia|].
  apply runs_if; intros Hb; to_prop.
  - eapply runs_mono; [apply IH|].
    + split; [|lia]. apply (linked_iff _ _ _ F); [done|lia|done].
    + lia.
    + intros r (l & -> & Hl). exists (x :: l). split; [by rewrite <-app_assoc|]. by apply chain_up.
  - apply runs_ok. exists []. rewrite app_nil_r. split; [done|]. by apply chain_top.
Qed.
Lemma compressRev_spec k l : 0 < k → ∀ lt v, forest k lt → k <= v < m → chain (ancestor lt) v l →
  runs (for_each (rev l) compressStep lt) (λ lt', forest k lt' ∧ semi lt' = semi lt ∧
    get (ancestor lt') (get (ancestor lt') v) = -1 ∧
    ∀ x, v < x → get (ancestor lt') x = get (ancestor lt) x).
Proof.
  intros Hk. induction l as [|y l IH]; intros lt v F Hv Hc.
  - apply runs_ok. inversion Hc. by split_and!.
  - assert (y = v) as -> by by inversion Hc. inversion_clear Hc as [|? ? Hne Hc']. cbn [rev]. rewrite for_each_app. apply runs_bind.
    destruct (f_linked _ _ F v Hv) as (Ha & _).
    assert (k <= get (ancestor lt) v) as Hka by (apply (linked_iff _ _ _ F); [done|lia|done]).
    eapply runs_mono; [apply (IH lt (get (ancestor lt) v) F); [lia|done]|]. intros lt' (F' & Hs & Htop & Hsame).
    assert (get (ancestor lt') v = get (ancestor lt) v) as Hav by (apply Hsame; lia).
    cbn [for_each]. apply runs_bind. eapply runs_mono; [apply (compressStep_spec k); [done..|by rewrite Hav]|].
    intros lt'' (F'' & Hs' & Hv'' & Hsame'). apply runs_ok.
    split_and!; [done|congruence| |intros x Hx; rewrite Hsame' by lia; apply Hsame; lia].
    assert (get (ancestor lt') (get (ancestor lt) v) < k) as Hlt.
    { destruct (f_linked _ _ F' (get (ancestor lt) v)) as (Ha' & _); [lia|].
      destruct (decide (get (ancestor lt') (get (ancestor lt) v) < k)) as [|Hge]; [done|]. exfalso.
      assert (get (ancestor lt') (get (ancestor lt') (get (ancestor lt) v)) ≠ -1) as Hx by (apply (linked_iff _ _ _ F'); lia).
      by apply Hx. }
    destruct (f_linked _ _ F' (get (ancestor lt) v)) as (Ha' & _); [lia|].
    rewrite Hv'', Hav, Hsame' by lia. apply (f_root _ _ F'); lia.
Qed.

(** [eval]: of a root the node itself, of a linked node an ancestor among the
    linked ones with the least [semi]; the forest only changes by compression. *)
Definition best (k : Z) (semi : list Z) (v u : Z) : Prop :=
  anc u v ∧ k <= u ∧ ∀ y, anc y v → k <= y → get semi u <= get semi y.
Lemma eval_spec k lt v : 0 < k → forest k lt → 0 <= v < m →
  runs (eval lt v) (λ r, forest k r.2 ∧ semi r.2 = semi lt ∧
    (v < k → r.1 = v) ∧ (k <= v → best k (semi lt) v r.1)).
Proof.
  intros Hk F Hv. pose proof (f_ancestor _ _ F). unfold eval. apply runs_bind, runs_idx; [lia|].
  apply runs_if; intros Hb; to_prop.
  { apply runs_ok. split_and!; [done..|intros Hle]. by apply (linked_iff _ _ _ F) in Hle. }
  assert (k <= v) as Hkv by (by apply (linked_iff _ _ _ F)).
  apply runs_bind. unfold compress. apply runs_bind.
  eapply runs_mono; [apply (compressPath_spec k lt Hk F); [lia|unfold len in *; lia]|].
  intros ? (l & -> & Hl). cbn [app].
  eapply runs_mono; [apply (compressRev_spec k l Hk lt v F); [lia|done]|].
  intros lt' (F' & Hs & Htop & _). pose proof (f_label _ _ F').
  destruct (f_linked _ _ F' v) as (Ha & Haa & Hl' & Hmin); [lia|].
  assert (get (ancestor lt') v < k) as Hlt.
  { destruct (decide (get (ancestor lt') v < k)) as [|Hge]; [done|].
    destruct (linked_iff _ _ (get (ancestor lt') v) F' Hk) as [_ Hx]; [lia|]. exfalso. apply Hx; [lia|done]. }
  apply runs_bind, runs_idx; [lia|]. apply runs_ok. cbn.
  split_and!; [done|done|lia|intros _]. split_and!; [apply Hl'|by apply Hmin|].
  intros y Hy Hky. rewrite <-Hs. apply Hmin. split_and!; [|lia|done].
  apply (anc_linear T _ y v); [done..|lia].
Qed.

(** [semi] of the linked nodes is all the forest depends on, and linking the
    next node to its parent. *)
Lemma forest_semi k lt semi' : len semi' = m → (∀ x, k <= x < m → get semi' x = get (semi lt) x) → 0 < k →
  forest k lt → forest k {| semi := semi'; ancestor := ancestor lt; label := label lt |}.
Proof.
  intros Hl Hs Hk F. split; cbn; [done|apply F..|]. intros x Hx. destruct (f_linked _ _ F x Hx) as (Ha & Haa & Hlx & Hmin).
  split_and!; [lia..|done|done|]. intros y Hy. destruct (Hmin y Hy).
  assert (0 <= y <= x) by (apply (seg_range (get (ancestor lt) x)); [lia..|done]).
  assert (0 <= get (label lt) x <= x) by (apply (seg_range (get (ancestor lt) x)); [lia..|done]).
  destruct (Hmin (get (label lt) x) Hlx). rewrite !Hs by lia. done.
Qed.
Lemma forest_link w lt : 0 < w < m → forest (w + 1) lt →
  forest w {| semi := semi lt; ancestor := put (ancestor lt) w (par w); label := label lt |}.
Proof.
  intros Hw F. pose proof (f_ancestor _ _ F). destruct (dt_par _ _ _ T w Hw) as [Hp He].
  destruct (f_root _ _ F w) as [_ Hlw]; [lia|].
  split; cbn; rewrite ?len_put; [apply F..| |].
  - intros x Hx. rewrite get_put_ne by lia. apply F. lia.
  - intros x Hx. destruct (decide (x = w)) as [->|Hne].
    + rewrite get_put_eq, Hlw by lia. assert (anc (par w) w) by (apply anc_par; [done|constructor]).
      split_and!; [lia..|done|split_and!; [done|lia|constructor]|].
      intros y (H1 & H2 & H3). destruct (decide (y = w)) as [->|Hyw]; [lia|].
      destruct (anc_up _ _ H3 Hyw) as [_ H4]. destruct H2. by apply (anc_antisym T).
    + rewrite get_put_ne by lia. destruct (f_linked _ _ F x) as (Ha & Haa & Hlx & Hmin); [lia|].
      split_and!; [lia..|done|done|]. intros y Hy. destruct (Hmin y Hy). lia.
Qed.
End Forest.

(** ** The main loop *)

(** The predecessors of the nodes, in compressed rows. *)
Record csr (m : Z) (E : Z → Z → Prop) (predStart preds : list Z) : Prop := {
  csr_len : len predStart = m + 1;
  csr_bounds w : 0 <= w < m → 0 <= get predStart w <= get predStart (w + 1) ∧ get predStart (w + 1) <= len preds;
  csr_row w v : 0 <= w < m → v ∈ sub preds (get predStart w) (get predStart (w + 1)) ↔ E v w;
}.

Section Main.
Context {m : Z} {E : Z → Z → Prop} {par : Z → Z} (T : dfs_tree m E par).
Context (parent predStart preds : list Z).
Hypothesis (Hparent : len parent = m) (Hpar : ∀ v, 0 < v < m → get parent v = par v).
Hypothesis (Hcsr : csr m E predStart preds).
Local Abbreviation anc := (anc m par).
Local Abbreviation forest := (@forest m par).

(** The semidominators of the nodes from [k] on are known, the others are
    initial. *)
Definition semis (k : Z) (S : list Z) : Prop :=
  (∀ x, k <= x < m → is_semi E x (get S x)) ∧ ∀ x, 0 <= x < k → get S x = x.

(** The loop over the predecessors [d] of [w], started with [S]. *)
Definition pred_inv (w : Z) (S : list Z) (d : list Z) (lt : ltState) : Prop :=
  forest (w + 1) lt ∧ (∀ x, 0 <= x → x ≠ w → get (semi lt) x = get S x) ∧
  (get (semi lt) w = w ∨ semip E w (get (semi lt) w)) ∧
  ∀ v, v ∈ d → (v < w → get (semi lt) w <= v) ∧ ∀ u, w < u → anc u v → get (semi lt) w <= get S u.

(** The value a predecessor [v] of [w] contributes through [u = eval v]. *)
Lemma pred_value w S d lt v u : 0 < w < m → semis (w + 1) S → pred_inv w S d lt → E v w → 0 <= v < m →
  (v < w + 1 → u = v) → (w + 1 <= v → best (m:=m) (par:=par) (w + 1) (semi lt) v u) →
  (v < w → get (semi lt) u = v) ∧ (v = w → get (semi lt) u = get (semi lt) w) ∧
  (w < v → semip E w (get (semi lt) u) ∧ ∀ y, w < y → anc y v → get (semi lt) u <= get S y).
Proof.
  intros Hw [Hs Hs0] (F & Hsame & _) He Hv Hlow Hhigh. split_and!; intros Hvw.
  - rewrite Hlow, Hsame by lia. apply Hs0. lia.
  - rewrite Hlow by lia. by subst.
  - destruct Hhigh as (Hau & Hku & Hmin); [lia|]. pose proof (anc_le T _ _ Hau). split.
    + rewrite Hsame by lia. eapply (semip_candidate T w v u); [done|lia|done|]. apply Hs. lia.
    + intros y Hy Hyv. pose proof (anc_le T _ _ Hyv). rewrite <-Hsame by lia. apply Hmin; [done|lia].
Qed.
Lemma predStep_spec w S d lt v : 0 < w < m → semis (w + 1) S → pred_inv w S d lt → E v w →
  runs (predStep w lt v) (pred_inv w S (d ++ [v])).
Proof.
  intros Hw HS Hinv He. destruct (dt_range _ _ _ T v w He) as [Hv _].
  pose proof Hinv as (F & Hsame & Hcur & Hd).
  unfold predStep. apply runs_bind. eapply runs_mono; [apply (eval_spec T (w + 1) lt v); [lia|done..]|].
  intros [u lt2] (F2 & Hs2 & Hlow & Hhigh). cbn [fst snd] in *.
  destruct (pred_value w S d lt v u) as (H1 & H2 & H3); [done..|].
  assert (0 <= u <= v) as Hu.
  { destruct (decide (v < w + 1)); [rewrite Hlow by lia; lia|].
    destruct Hhigh as (Hau & ? & _); [lia|]. apply (anc_le T) in Hau. lia. }
  pose proof (f_semi _ _ F2). apply runs_bind, runs_idx; [lia|]. apply runs_bind, runs_idx; [lia|].
  rewrite Hs2 in *. set (su := get (semi lt) u) in *. set (sw := get (semi lt) w) in *.
  assert (∀ cur, cur = Z.min su sw → ∀ v', v' ∈ d ++ [v] →
    (v' < w → cur <= v') ∧ ∀ y, w < y → anc y v' → cur <= get S y) as Hnew.
  { intros cur -> v' [Hv'|Hv']%elem_of_app.
    - destruct (Hd v' Hv') as [Ha Hb]. split; [intros Hlt; specialize (Ha Hlt); lia|].
      intros y Hy Hyv. specialize (Hb y Hy Hyv). lia.
    - apply list_elem_of_singleton in Hv' as ->. split; [intros; rewrite H1 by lia; lia|]. intros y Hy Hyv.
      pose proof (anc_le T _ _ Hyv). destruct H3 as (_ & H3); [lia|]. specialize (H3 y Hy Hyv). lia. }
  apply runs_if; intros Hb; to_prop.
  - apply runs_bind, runs_set_idx; [lia|]. apply runs_ok. unfold pred_inv. cbn.
    rewrite get_put_eq by lia. split_and!.
    + apply (forest_semi T); [rewrite len_put; congruence| |lia|done].
      intros x Hx. rewrite get_put_ne by lia. by rewrite Hs2.
    + intros x Hx Hne. rewrite get_put_ne by lia. by apply Hsame.
    + destruct (Z.lt_trichotomy v w) as [Hl|[Hl|Hl]]; [|specialize (H2 Hl); lia|right; by apply H3].
      right. rewrite H1 by done. by constructor.
    + apply Hnew. lia.
  - apply runs_ok. unfold pred_inv. rewrite Hs2. split_and!; [done..|]. apply Hnew. lia.
Qed.
Lemma predLoop_spec w lt : 0 < w < m → forest (w + 1) lt → semis (w + 1) (semi lt) →
  runs (for_each (sub preds (get predStart w) (get predStart (w + 1))) (predStep w) lt)
    (λ lt', forest (w + 1) lt' ∧ semis w (semi lt')).
Proof.
  intros Hw F HS. pose proof HS as [Hs Hs0].
  assert (∀ v, v ∈ sub preds (get predStart w) (get predStart (w + 1)) ↔ E v w) as Hrow
    by (intros v; apply (csr_row _ _ _ _ Hcsr); lia).
  eapply runs_mono; [apply (runs_for_each (pred_inv w (semi lt)))|].
  - split_and!; [done..|left; apply Hs0; lia|set_solver].
  - intros d v r lt1 Heq Hinv. apply predStep_spec; [done..|]. apply Hrow. rewrite Heq. set_solver.
  - intros lt' (F' & Hsame & Hcur & Hd). split; [done|]. split; [|intros x Hx; rewrite Hsame by lia; apply Hs0; lia].
    intros x Hx. destruct (decide (x = w)) as [->|Hne]; [|rewrite Hsame by lia; apply Hs; lia].
    destruct (dt_par _ _ _ T w Hw) as [Hp He].
    destruct (Hd _ (proj2 (Hrow _) He)) as [Hcp _]. split; [destruct Hcur; [lia|done]|].
    intros v [Hv|(v' & u & Hv' & Hu & Huv & Huv')]%(semip_cases T).
    + destruct (Hd _ (proj2 (Hrow _) Hv)) as [Ha _]. destruct (decide (v < w)); [auto|]. lia.
    + destruct (Hd _ (proj2 (Hrow _) Hv')) as [_ Hb]. specialize (Hb u Hu Huv).
      destruct (dt_range _ _ _ T v' w Hv'). pose proof (anc_le T _ _ Huv).
      destruct (Hs u) as [_ Hmin]; [lia|]. specialize (Hmin v Huv'). lia.
Qed.

(** *** Buckets *)

(** The linked list of nodes from [h] along [next]. *)
Fixpoint lrep (next : list Z) (h : Z) (l : list Z) : Prop :=
  match l with [] => h = -1 | x :: l => h = x ∧ 0 <= x ∧ lrep next (get next x) l end.

(** What the bucket loop decides of a node: its immediate dominator is its
    semidominator, or that of the node stored. *)
Definition resolved (S idom : list Z) (v : Z) : Prop :=
  (get idom v = get S v ∧ is_idom E v (get S v)) ∨
  (get S v < get idom v < v ∧ ∀ d, is_idom E (get idom v) d → is_idom E v d).

(** [eval] below the parent [p] of [w], for a node [v] with semidominator [p]. *)
Lemma bucket_resolves w S v u : 0 < w < m → semis w S → w <= v < m → get S v = par w →
  best (m:=m) (par:=par) w S v u →
  is_idom E v (par w) ∧ par w <= get S u ∨
  get S u < get S v ∧ get S v < u < v ∧ ∀ d, is_idom E u d → is_idom E v d.
Proof.
  intros Hw [Hs Hs0] Hv Hp (Huv & Hwu & Hmin). pose proof (anc_le T _ _ Huv).
  assert (is_semi E v (par w)) as Hsv by (rewrite <-Hp; apply Hs; lia).
  destruct (dt_par _ _ _ T w Hw) as [Hpw _]. destruct (semi_anc T v (par w)) as (Hpv & _ & _); [lia|done|].
  assert (∀ y x, anc (par w) y → y ≠ par w → anc y v → semip E y x → get S u <= x) as Hall.
  { intros y x Hpy Hne Hyv Hx. pose proof (anc_le T _ _ Hpy). pose proof (anc_le T _ _ Hyv).
    assert (w <= y) by (apply (anc_between T (par w) w y v); [done..|lia|lia]).
    specialize (Hmin y Hyv ltac:(lia)). destruct (Hs y) as [_ Hy]; [lia|]. specialize (Hy x Hx). lia. }
  destruct (decide (par w <= get S u)) as [Hle|Hlt].
  - left. split; [|done]. apply (idom_is_semi T v (par w)); [lia|done|]. intros y x Hpy Hne Hyv Hx.
    specialize (Hall y x Hpy Hne Hyv Hx). lia.
  - right. rewrite Hp. assert (u ≠ v) by (intros ->; lia). split_and!; [lia..|].
    intros d Hd. apply (idom_same T v (par w) u (get S u) d); [lia|done|apply Hs; lia| |lia|done|done|done].
    apply (anc_linear T (par w) u v); [done..|lia].
Qed.

Lemma bucketLoop_spec w S l : 0 < w < m → semis w S → ∀ fuel v st,
  (length l < fuel)%nat → lrep (bucketNext st) v l → NoDup l → (∀ x, x ∈ l → w <= x < m ∧ get S x = par w) →
  forest w (lt st) → semi (lt st) = S → len (idom st) = m → len (bucketNext st) = m →
  runs (bucketLoop fuel (par w) v st) (λ st', forest w (lt st') ∧ semi (lt st') = S ∧ len (idom st') = m ∧
    bucketHead st' = bucketHead st ∧ bucketNext st' = bucketNext st ∧
    (∀ x, x ∈ l → resolved S (idom st') x) ∧ ∀ x, 0 <= x → x ∉ l → get (idom st') x = get (idom st) x).
Proof.
  intros Hw HS. induction l as [|x l IH]; intros fuel v st Hf Hrep Hnd Hin F Hsemi Hidom Hnext; (destruct fuel as [|fuel]; [simpl in Hf; lia|]); cbn [bucketLoop].
  - cbn in Hrep. rewrite Hrep. cbn. apply runs_ok. split_and!; [done..|set_solver|done].
  - destruct Hrep as (-> & Hx & Hrep). destruct (Hin x) as [Hxr Hxp]; [set_solver|].
    rewrite (proj2 (Z.eqb_neq x (-1))) by lia. apply runs_bind.
    eapply runs_mono; [apply (eval_spec T w (lt st) x); [lia|done|lia]|].
    intros [u lt'] (F' & Hs' & _ & Hbest). cbn [fst snd] in *. specialize (Hbest ltac:(lia)). rewrite Hsemi in *.
    pose proof Hbest as (Hux & Hwu & _). pose proof (anc_le T _ _ Hux). pose proof (f_semi _ _ F'). rewrite Hs' in *.
    do 2 (apply runs_bind, runs_idx; [lia|]). apply runs_bind, runs_set_idx; [lia|]. apply runs_bind, runs_idx; [lia|].
    apply NoDup_cons in Hnd as [Hxl Hnd].
    eapply runs_mono; [apply IH; cbn; rewrite ?len_put; try done; [simpl in Hf; lia|]|].
    { intros y Hy. apply Hin. set_solver. }
    cbn. intros st' (H1 & H2 & H3 & H4 & H5 & H6 & H7). split_and!; [done..| |].
    + intros y [->|Hy]%elem_of_cons; [|by apply H6]. unfold resolved. rewrite H7, get_put_eq by (done || lia).
      destruct (bucket_resolves w S x u Hw HS Hxr Hxp Hbest) as [[Hd Hle]|(Hlt & Hu & Hd)].
      * rewrite (proj2 (Z.ltb_ge _ _)) by lia. left. by rewrite Hxp.
      * rewrite (proj2 (Z.ltb_lt _ _)) by lia. by right.
    + intros y Hy Hn. rewrite H7, get_put_ne by set_solver by lia. done.
Qed.
(** *** The loop over the nodes *)

(** Before node [k - 1]: the forest and the semidominators, and each node done
    is resolved or waits in the bucket of its semidominator, until the child
    of that on the way to it is linked. *)
Record loop_inv (k : Z) (bucket : Z → list Z) (st : work) : Prop := {
  li_forest : forest k (lt st);
  li_semis : semis k (semi (lt st));
  li_idom : len (idom st) = m ∧ get (idom st) 0 = 0;
  li_head : len (bucketHead st) = m;
  li_next : len (bucketNext st) = m;
  li_rep s : 0 <= s < m → lrep (bucketNext st) (get (bucketHead st) s) (bucket s);
  li_nodup s : NoDup (bucket s);
  li_bucket s v : v ∈ bucket s → k <= v < m ∧ get (semi (lt st)) v = s ∧
    ∀ c, 0 < c < m → par c = s → anc c v → c < k;
  li_done v : k <= v < m → v ∈ bucket (get (semi (lt st)) v) ∨ resolved (semi (lt st)) (idom st) v;
}.

Lemma lrep_put next h l w a : 0 <= w → w ∉ l → lrep next h l → lrep (put next w a) h l.
Proof.
  intros Hw. revert h. induction l as [|x l IH]; intros h Hn; simpl; [done|]. intros (-> & Hx & Hl).
  split_and!; [done..|]. rewrite get_put_ne by set_solver. apply IH; [set_solver|done].
Qed.
Lemma resolved_ext S S' i i' v : 0 <= v → get S v = get S' v → get i v = get i' v → resolved S i v → resolved S' i' v.
Proof. unfold resolved. by intros _ -> ->. Qed.

(** The state of the buckets when [w] has been put into the bucket of its
    semidominator, before the loop over the bucket of its parent. *)
Definition pushed (bucket : Z → list Z) (S : list Z) (w s : Z) : list Z :=
  if decide (s = get S w) then w :: bucket s else bucket s.

Lemma pushed_spec w bucket st lt1 : 0 < w < m → loop_inv (w + 1) bucket st →
  forest (w + 1) lt1 → semis w (semi lt1) →
  (∀ x, w < x < m → get (semi lt1) x = get (semi (lt st)) x) →
  (∀ s, 0 <= s < m → lrep (put (bucketNext st) w (get (bucketHead st) (get (semi lt1) w)))
     (get (put (bucketHead st) (get (semi lt1) w) w) s) (pushed bucket (semi lt1) w s)) ∧
  (∀ s, NoDup (pushed bucket (semi lt1) w s)) ∧
  (∀ s v, v ∈ pushed bucket (semi lt1) w s → w <= v < m ∧ get (semi lt1) v = s ∧
    ∀ c, 0 < c < m → par c = s → anc c v → c < w + 1).
Proof.
  intros Hw I F HS Hsame. pose proof (li_head _ _ _ I). pose proof (li_next _ _ _ I).
  destruct HS as [Hs _]. destruct (semi_anc T w (get (semi lt1) w)) as (_ & Hsw & Hs0); [done|apply Hs; lia|].
  assert (∀ s, w ∉ bucket s) as Hn by (intros s Hx; apply (li_bucket _ _ _ I) in Hx; lia).
  unfold pushed. split_and!; intros s.
  - intros Hr. case_decide as Hd.
    + subst s. rewrite get_put_eq by lia. cbn. rewrite get_put_eq by lia. split_and!; [done|lia|].
      apply lrep_put; [lia|done|]. by apply I.
    + rewrite get_put_ne by lia. apply lrep_put; [lia|done|]. by apply I.
  - case_decide; [apply NoDup_cons; split; [done|]|]; by apply I.
  - intros v Hv. assert (v = w ∧ s = get (semi lt1) w ∨ v ∈ bucket s) as [[-> ->]|Hb] by (case_decide; set_solver).
    + split_and!; [lia..|]. intros c Hc _ Hcw. apply (anc_le T) in Hcw. lia.
    + destruct (li_bucket _ _ _ I s v Hb) as (Hr & Hsv & Hc). rewrite Hsame by lia. split_and!; [lia..|done].
Qed.

Lemma semiStep_spec w bucket st : 0 < w < m → loop_inv (w + 1) bucket st →
  runs (semiStep parent predStart preds st w) (λ st', ∃ bucket', loop_inv w bucket' st').
Proof.
  intros Hw I. destruct (csr_bounds _ _ _ _ Hcsr w) as [Hlo Hhi]; [lia|]. pose proof (csr_len _ _ _ _ Hcsr).
  pose proof (li_head _ _ _ I). pose proof (li_next _ _ _ I). destruct (li_idom _ _ _ I) as [Hil Hi0].
  unfold semiStep. do 2 (apply runs_bind, runs_idx; [lia|]). apply runs_bind, runs_slice; [lia..|].
  apply runs_bind. eapply runs_mono; [apply (predLoop_spec w (lt st) Hw (li_forest _ _ _ I) (li_semis _ _ _ I))|].
  cbv beta. intros lt1 (F1 & HS1). pose proof (f_semi _ _ F1). pose proof (f_ancestor _ _ F1).
  assert (∀ x, w < x < m → get (semi lt1) x = get (semi (lt st)) x) as Hsame.
  { intros x Hx. destruct (proj1 HS1 x) as [Ha Hb]; [lia|]. destruct (proj1 (li_semis _ _ _ I) x) as [Ha' Hb']; [lia|].
    apply Z.le_antisymm; auto. }
  destruct (semi_anc T w (get (semi lt1) w)) as (_ & Hsw & Hs0); [done|apply HS1; lia|].
  destruct (pushed_spec w bucket st lt1 Hw I F1 HS1 Hsame) as (Hrep & Hnd & Hb).
  destruct (dt_par _ _ _ T w Hw) as [Hp _].
  do 2 (apply runs_bind, runs_idx; [lia|]). do 2 (apply runs_bind, runs_set_idx; [lia|]).
  apply runs_bind, runs_idx; [lia|]. rewrite Hpar by done. apply runs_bind, runs_set_idx; [lia|].
  apply runs_bind, runs_idx; [rewrite len_put; lia|]. apply runs_bind.
  set (bk := pushed bucket (semi lt1) w) in *.
  eapply runs_mono; [apply (bucketLoop_spec w (semi lt1) (bk (par w)) Hw HS1); cbn; rewrite ?len_put; try done|].
  - enough (length (bk (par w)) <= Z.to_nat m)%nat by (unfold put, len in *; rewrite length_insert; lia).
    apply range_length; [done| |lia].
    intros x Hx. apply Hb in Hx. lia.
  - apply Hrep. lia.
  - intros x Hx. apply Hb in Hx. lia.
  - by apply (forest_link T).
  - intros st' (F' & Hs' & Hid & Hhd & Hnx & Hres & Hkeep). cbn in *.
    apply runs_bind, runs_set_idx; [rewrite Hhd, len_put; lia|]. apply runs_ok.
    exists (λ s, if decide (s = par w) then [] else bk s). split; cbn; rewrite ?Hs', ?Hhd, ?Hnx, ?len_put; try done.
    + split; [done|]. rewrite Hkeep; [done|lia|]. intros Hx. apply Hb in Hx. lia.
    + intros s Hs. case_decide as Hd; [subst; by rewrite get_put_eq by (rewrite len_put; lia)|].
      rewrite get_put_ne by lia. by apply Hrep.
    + intros s. case_decide; [constructor|done].
    + intros s v Hv. case_decide as Hd; [set_solver|]. destruct (Hb s v Hv) as (Hr & Hsv & Hc).
      split_and!; [lia..|]. intros c Hc1 Hc2 Hc3. specialize (Hc c Hc1 Hc2 Hc3).
      destruct (decide (c = w)) as [->|]; [by subst|lia].
    + intros v Hv. destruct (decide (v ∈ bk (par w))) as [Hin|Hn]; [right; by apply Hres|].
      destruct (decide (v = w)) as [->|Hne].
      * left. destruct (decide (get (semi lt1) w = par w)) as [He|]; [|].
        -- destruct Hn. rewrite <-He. unfold bk, pushed. rewrite decide_True by done. set_solver.
        -- unfold bk, pushed. rewrite decide_True by done. set_solver.
      * rewrite Hsame by lia. destruct (li_done _ _ _ I v) as [Hx|Hx]; [lia|..].
        -- left. assert (v ∈ bk (get (semi (lt st)) v)) as Hbk by (unfold bk, pushed; case_decide; set_solver).
           case_decide as Hd; [by rewrite Hd in Hbk|done].
        -- right. eapply resolved_ext; [|by symmetry; apply Hsame; lia|by symmetry; apply Hkeep; [lia|]|done]. lia.
Qed.

Lemma child_towards s v : anc s v → s ≠ v → ∃ c, 0 < c < m ∧ par c = s ∧ anc c v.
Proof.
  induction 1 as [|v Hv Ha IH]; intros Hne; [done|]. destruct (decide (s = par v)) as [->|Hs].
  - exists v. split_and!; [lia..|done|constructor].
  - destruct (IH Hs) as (c & Hc & Hp & Hcv). exists c. split_and!; [lia..|done|by apply anc_par].
Qed.
Lemma finalStep_spec S i0 : len S = m → len i0 = m → semis 1 S → (∀ v, 0 < v < m → resolved S i0 v) → ∀ w i,
  1 <= w < m → len i = m → (∀ x, w <= x < m ∨ x = 0 → get i x = get i0 x) → (∀ x, 0 < x < w → is_idom E x (get i x)) →
  runs (finalStep S i w) (λ i', len i' = m ∧ (∀ x, w + 1 <= x < m ∨ x = 0 → get i' x = get i0 x) ∧
    ∀ x, 0 < x < w + 1 → is_idom E x (get i' x)).
Proof.
  intros HS Hi0 Hsemi Hres w i Hw Hi Hsame Hdone. unfold finalStep.
  do 2 (apply runs_bind, runs_idx; [lia|]). rewrite Hsame by lia.
  destruct (semi_anc T w (get S w)) as (_ & Hsw & Hs0); [lia|apply Hsemi; lia|].
  destruct (Hres w) as [[He Hd]|[Hu Hd]]; [lia|..].
  - rewrite (proj2 (Z.eqb_eq _ _)) by done. cbn. apply runs_ok. split_and!; [done|intros; apply Hsame; lia|].
    intros x Hx. destruct (decide (x = w)) as [->|]; [|apply Hdone; lia]. by rewrite Hsame, He by lia.
  - rewrite (proj2 (Z.eqb_neq _ _)) by lia. cbn [negb]. apply runs_bind, runs_idx; [lia|]. apply runs_set_idx; [lia|].
    rewrite len_put. split_and!; [done|intros x Hx; rewrite get_put_ne by lia; apply Hsame; lia|].
    intros x Hx. destruct (decide (x = w)) as [->|]; [|rewrite get_put_ne by lia; apply Hdone; lia].
    rewrite get_put_eq by lia. apply Hd, Hdone. lia.
Qed.

(** [lengauerTarjan] returns the immediate dominators. *)
Theorem lengauerTarjan_spec : m <= 2 ^ 31 →
  runs (lengauerTarjan m parent predStart preds)
    (λ idom, len idom = m ∧ get idom 0 = 0 ∧ ∀ v, 0 < v < m → is_idom E v (get idom v)).
Proof.
  intros Hm. pose proof (dt_pos _ _ _ T). unfold lengauerTarjan. rewrite i32_small by lia.
  replace (m - 1 + 1) with m by lia.
  assert (len (upto 0 m) = m ∧ ∀ x, 0 <= x < m → get (upto 0 m) x = x) as [Hl Hg].
  { unfold len, upto. rewrite length_seqZ. split; [lia|]. intros x Hx. apply get_lookup, lookup_seqZ. lia. }
  apply runs_bind. eapply runs_mono; [apply (runs_for_downto (λ k st, ∃ bucket, loop_inv k bucket st)); [lia|..]|].
  - exists (λ _, []). split; cbn; rewrite ?len_replicate, ?get_replicate by lia; try done; try lia.
    + split; cbn; rewrite ?len_replicate by lia; try done; [|intros x Hx; lia].
      intros x Hx. rewrite get_replicate by lia. auto.
    + split; [intros x Hx; lia|done].
    + intros s Hs. cbn. by apply get_replicate.
    + intros s. constructor.
    + set_solver.
  - intros w st Hw (bucket & I). apply (semiStep_spec w bucket); [lia|done].
  - cbv beta. intros st (bucket & I). pose proof (f_semi _ _ (li_forest _ _ _ I)). destruct (li_idom _ _ _ I) as [Hil Hi0].
    assert (∀ v, 0 < v < m → resolved (semi (lt st)) (idom st) v) as Hres.
    { intros v Hv. destruct (li_done _ _ _ I v) as [Hb|]; [lia| |done]. exfalso.
      destruct (semi_anc T v (get (semi (lt st)) v)) as (Ha & Hlt & _); [lia|apply (li_semis _ _ _ I); lia|].
      destruct (child_towards _ _ Ha) as (c & Hc & Hp & Hcv); [lia|].
      apply (li_bucket _ _ _ I) in Hb as (_ & _ & Hb). specialize (Hb c Hc Hp Hcv). lia. }
    eapply runs_mono; [apply (runs_for_upto (λ w i, len i = m ∧ (∀ x, w <= x < m ∨ x = 0 → get i x = get (idom st) x) ∧
      ∀ x, 0 < x < w → is_idom E x (get i x))); [lia|split_and!; [done..|intros; lia]|]|].
    + intros w i Hw (Hi & Hsame & Hd). by apply (finalStep_spec (semi (lt st)) (idom st)); [..|apply I| | | | |].
    + cbv beta. intros i (Hi & Hsame & Hd). split_and!; [done| |done]. rewrite Hsame; [done|by right].
Qed.
End Main.
End LTFacts.
