(* ===== verification/HeapCSR.v ===== *)
(** * Compressed rows

    The construction [src/internal/heap] uses three times (the reverse graph in
    preorder numbers and the children of the dominator tree in
    [dominators.go], the reverse object graph in [paths.go]): count the edges
    into each node, turn the counts into offsets, and place each edge at the
    next free position of its row.  [csr_build] says that the rows are the
    edges into each node in the order of the input. *)

From S2P Require Import Prelude Arrays.

Module CSR.

(** [w] is the width of the integers of the arrays. *)
Section Steps.
Variable w : Z → Z.
(** [start[to+1]++] *)
Definition countEdge (start : list Z) (to : Z) : outcome (list Z) :=
  c ← idx start (to + 1); set_idx start (to + 1) (w (c + 1)).
(** [start[i] += start[i-1]] *)
Definition sumStep (start : list Z) (i : Z) : outcome (list Z) :=
  a ← idx start i; b ← idx start (i - 1); set_idx start i (w (a + b)).
(** [preds[fill[to]] = from; fill[to]++] *)
Definition fillEdge (st : list Z * list Z) (e : Z * Z) : outcome (list Z * list Z) :=
  let '(preds, fill) := st in let '(to, from) := e in
  pos ← idx fill to; preds ← set_idx preds pos from;
  pos ← idx fill to; fill ← set_idx fill to (w (pos + 1));
  Ok (preds, fill).
End Steps.
End CSR.

Module CSRFacts.
Export CSR.

(** The edges into [t], and the number of edges into nodes before [i]. *)
Definition into (es : list (Z * Z)) (t : Z) : list (Z * Z) := filter (λ e, e.1 = t) es.
Definition before (es : list (Z * Z)) (i : Z) : Z := len (filter (λ e : Z * Z, e.1 < i) es).

Lemma filter_split {A} (P Q : A → Prop) `{∀ x, Decision (P x), ∀ x, Decision (Q x), ∀ x, Decision (P x ∨ Q x)} (l : list A) :
  (∀ x, P x → ¬ Q x) → len (filter (λ x, P x ∨ Q x) l) = len (filter P l) + len (filter Q l).
Proof.
  intros Hd. induction l as [|x l IH]; [done|]. rewrite !filter_cons. specialize (Hd x).
  destruct (decide (P x)), (decide (Q x)); [exfalso; auto|..]; (destruct (decide (P x ∨ Q x)); [|try (exfalso; tauto)]);
    rewrite ?len_cons; try lia; try (exfalso; tauto).
Qed.
Lemma before_succ es i : before es (i + 1) = before es i + len (into es i).
Proof.
  unfold before, into. rewrite <-(filter_split (λ e : Z * Z, e.1 < i) (λ e, e.1 = i)) by (intros [] ?; cbn in *; lia).
  f_equal. apply list_filter_iff. intros [a b]. cbn. lia.
Qed.
Lemma before_mono es i j : i <= j → before es i <= before es j.
Proof.
  intros Hij. unfold before, len. apply inj_le, submseteq_length, sublist_submseteq.
  induction es as [|e es IH]; [done|]. rewrite !filter_cons. repeat case_decide; try lia; auto using sublist.
Qed.
Lemma before_0 es : (∀ e, e ∈ es → 0 <= e.1) → before es 0 = 0.
Proof. intros Hr. unfold before. rewrite filter_none; [done|]. intros e He. specialize (Hr e He). lia. Qed.
Lemma before_all es m : (∀ e, e ∈ es → e.1 < m) → before es m = len es.
Proof. intros Hr. unfold before. by rewrite filter_all. Qed.
Lemma into_app es d t : into (d ++ es) t = into d t ++ into es t.
Proof. apply filter_app. Qed.

Lemma sub_put_out {A} `{Inhabited A} (l : list A) p a lo hi : 0 <= lo <= hi → hi <= len l → 0 <= p → ¬ lo <= p < hi → sub (put l p a) lo hi = sub l lo hi.
Proof.
  intros. apply array_ext; rewrite !len_sub by (rewrite ?len_put; lia); [done|]. intros i Hi.
  rewrite !get_sub by (rewrite ?len_put; lia). apply get_put_ne; lia.
Qed.
Lemma sub_put_snoc {A} `{Inhabited A} (l : list A) lo hi a : 0 <= lo <= hi → hi < len l → sub (put l hi a) lo (hi + 1) = sub l lo hi ++ [a].
Proof.
  intros. apply array_ext; rewrite ?len_snoc, !len_sub by (rewrite ?len_put; lia); [lia|]. intros i Hi.
  rewrite get_sub by (rewrite ?len_put; lia). destruct (decide (lo + i = hi)) as [<-|].
  - rewrite get_put_eq by lia. symmetry. replace i with (len (sub l lo (lo + i))) at 2 by (rewrite len_sub; lia). apply get_snoc.
  - rewrite get_put_ne by lia. rewrite get_app_l by (rewrite len_sub; lia). by rewrite get_sub by lia.
Qed.

Section Build.
Context (w : Z → Z) (m : Z) (es : list (Z * Z)).
Hypothesis (Hm : 0 <= m) (Hr : ∀ e, e ∈ es → 0 <= e.1 < m) (Hw : ∀ z, 0 <= z <= len es → w z = z).

Lemma into_le d r t : es = d ++ r → len (into d t) <= len es.
Proof.
  intros ->. unfold into. rewrite len_app. assert (len (filter (λ e : Z * Z, e.1 = t) d) <= len d).
  { unfold len. pose proof (length_filter (λ e : Z * Z, e.1 = t) d). lia. }
  pose proof (len_nonneg r). lia.
Qed.

(** The counts. *)
Lemma count_spec d r start : es = d ++ r → len start = m + 1 → get start 0 = 0 →
  (∀ t, 0 <= t < m → get start (t + 1) = len (into d t)) →
  runs (for_each r (λ s e, countEdge w s e.1) start)
    (λ s, len s = m + 1 ∧ get s 0 = 0 ∧ ∀ t, 0 <= t < m → get s (t + 1) = len (into es t)).
Proof.
  revert d start. induction r as [|[to from] r IH]; intros d start Hes Hl H0 Hc; cbn [for_each].
  { apply runs_ok. rewrite app_nil_r in Hes. by subst d. }
  assert (0 <= to < m) as Ht by (apply (Hr (to, from)); rewrite Hes; set_solver).
  assert (len (into (d ++ [(to, from)]) to) = len (into d to) + 1) as Hto.
  { rewrite into_app, len_app. unfold into at 2. rewrite filter_cons, decide_True by done. done. }
  pose proof (into_le (d ++ [(to, from)]) r to) as Hle. rewrite <-app_assoc in Hle. specialize (Hle Hes).
  pose proof (len_nonneg (into d to)).
  apply runs_bind. unfold countEdge. cbn [fst]. apply runs_bind, runs_idx; [lia|]. apply runs_set_idx; [lia|].
  rewrite Hc by done. rewrite Hw by lia. apply (IH (d ++ [(to, from)])).
  - by rewrite <-app_assoc.
  - by rewrite len_put.
  - by rewrite get_put_ne by lia.
  - intros t Ht'. destruct (decide (t = to)) as [->|Hne].
    + rewrite get_put_eq by lia. by rewrite Hto.
    + rewrite get_put_ne by lia. rewrite Hc by done. rewrite into_app. unfold into at 3. rewrite filter_cons, decide_False by (cbn; lia).
      by rewrite filter_nil, app_nil_r.
Qed.
(** The offsets. *)
Lemma sum_spec start : len start = m + 1 → get start 0 = 0 → (∀ t, 0 <= t < m → get start (t + 1) = len (into es t)) →
  runs (for_each (upto 1 (m + 1)) (sumStep w) start) (λ s, len s = m + 1 ∧ ∀ i, 0 <= i <= m → get s i = before es i).
Proof.
  intros Hl H0 Hc. assert (∀ e, e ∈ es → 0 <= e.1) as Hr0 by (intros e He; apply Hr in He; lia).
  assert (∀ i, 0 <= i <= m → 0 <= before es i <= len es) as Hb.
  { intros i Hi. split; [apply len_nonneg|]. rewrite <-(before_all es m) by (intros e He; apply Hr in He; lia). apply before_mono. lia. }
  eapply runs_mono; [apply (runs_for_upto (λ i s, len s = m + 1 ∧ (∀ j, 0 <= j < i → get s j = before es j) ∧
    ∀ t, i <= t + 1 <= m → get s (t + 1) = len (into es t))); [lia|..]|].
  - split_and!; [done| |intros; apply Hc; lia]. intros j Hj. assert (j = 0) as -> by lia. by rewrite H0, before_0.
  - intros i s Hi (Hs & Hd & Hn). unfold sumStep. do 2 (apply runs_bind, runs_idx; [lia|]). apply runs_set_idx; [lia|].
    rewrite (Hd (i - 1)) by lia. replace (get s i) with (len (into es (i - 1))) by (rewrite <-Hn by lia; f_equal; lia).
    assert (len (into es (i - 1)) + before es (i - 1) = before es i) as He.
    { replace i with (i - 1 + 1) at 3 by lia. rewrite before_succ. lia. }
    rewrite He, Hw by (apply Hb; lia). rewrite len_put. split_and!; [done|..].
    + intros j Hj. destruct (decide (j = i)) as [->|]; [by rewrite get_put_eq by lia|]. rewrite get_put_ne by lia. apply Hd. lia.
    + intros t Ht. rewrite get_put_ne by lia. apply Hn. lia.
  - cbv beta. intros s (Hs & Hd & _). split; [done|]. intros i Hi. apply Hd. lia.
Qed.

(** The placement. *)
Definition fill_inv (d : list (Z * Z)) (st : list Z * list Z) : Prop :=
  len st.1 = len es ∧ len st.2 = m ∧ ∀ t, 0 <= t < m →
    get st.2 t = before es t + len (into d t) ∧ sub st.1 (before es t) (get st.2 t) = (into d t).*2.
Lemma fill_spec st d r : es = d ++ r → fill_inv d st →
  runs (for_each r (fillEdge w) st) (fill_inv es).
Proof.
  revert d st. induction r as [|[to from] r IH]; intros d [preds fill] Hes (Hp & Hf & Hinv); cbn [for_each].
  { apply runs_ok. rewrite app_nil_r in Hes. by subst d. }
  cbn [fst snd] in *. assert (0 <= to < m) as Ht by (apply (Hr (to, from)); rewrite Hes; set_solver).
  assert (∀ t, into (d ++ [(to, from)]) t = into d t ++ if decide (to = t) then [(to, from)] else []) as Hnew.
  { intros t. rewrite into_app. f_equal. }
  assert (∀ t, 0 <= t <= m → 0 <= before es t <= len es) as Hb.
  { intros t Ht'. split; [apply len_nonneg|]. rewrite <-(before_all es m) by (intros e He; apply Hr in He; lia). apply before_mono. lia. }
  assert (∀ t, 0 <= t < m → before es t + len (into d t) + (if decide (to = t) then 1 else 0) <= before es (t + 1)) as Hroom.
  { intros t Ht'. rewrite before_succ. rewrite Hes at 3. replace (d ++ (to, from) :: r) with ((d ++ [(to, from)]) ++ r) by by rewrite <-app_assoc.
    rewrite into_app, Hnew, !len_app. pose proof (len_nonneg (into r t)). case_decide; unfold len; cbn; lia. }
  destruct (Hinv to Ht) as [Hft Hrow]. pose proof (Hroom to Ht) as Hrt. rewrite decide_True in Hrt by done.
  pose proof (Hb to ltac:(lia)). pose proof (Hb (to + 1) ltac:(lia)). pose proof (len_nonneg (into d to)).
  unfold fillEdge. apply runs_bind. apply runs_bind, runs_idx; [lia|]. apply runs_bind, runs_set_idx; [lia|].
  apply runs_bind, runs_idx; [lia|]. rewrite Hw by lia. apply runs_bind, runs_set_idx; [lia|]. apply runs_ok.
  apply (IH (d ++ [(to, from)])); [by rewrite <-app_assoc|]. split_and!; cbn [fst snd]; rewrite ?len_put; [done..|].
  intros t Ht'. rewrite Hnew. pose proof (Hb t ltac:(lia)). pose proof (Hb (t + 1) ltac:(lia)). pose proof (Hroom t Ht').
  destruct (Hinv t Ht') as [Hft' Hrow']. pose proof (len_nonneg (into d t)). destruct (decide (to = t)) as [<-|Hne].
  - rewrite get_put_eq by lia. split; [rewrite len_snoc; lia|]. rewrite sub_put_snoc by lia. by rewrite Hrow, fmap_app.
  - rewrite get_put_ne by lia. rewrite app_nil_r. split; [done|]. rewrite sub_put_out; [done|lia..|].
    intros Hbad. destruct (decide (t < to)).
    + pose proof (before_mono es (t + 1) to ltac:(lia)). lia.
    + pose proof (before_mono es (to + 1) t ltac:(lia)). lia.
Qed.

(** The three loops together. *)
Lemma csr_build : 
  runs (start ← for_each es (λ s e, countEdge w s e.1) (replicate (Z.to_nat (m + 1)) 0);
        start ← for_each (upto 1 (m + 1)) (sumStep w) start;
        total ← idx start m;
        fill ← slice start 0 m;
        st ← for_each es (fillEdge w) (replicate (Z.to_nat total) 0, fill);
        Ok (start, st.1))
    (λ r, len r.1 = m + 1 ∧ len r.2 = len es ∧ get r.1 0 = 0 ∧ get r.1 m = len es ∧ ∀ t, 0 <= t < m →
      0 <= get r.1 t <= get r.1 (t + 1) ∧ get r.1 (t + 1) <= len es ∧
      sub r.2 (get r.1 t) (get r.1 (t + 1)) = (into es t).*2).
Proof.
  apply runs_bind. eapply runs_mono; [apply (count_spec [] es)|].
  - done.
  - apply len_replicate. lia.
  - apply get_replicate. lia.
  - intros t Ht. apply get_replicate. lia.
  - cbv beta. intros s1 (Hl & H0 & Hc). apply runs_bind. eapply runs_mono; [by apply sum_spec|].
    cbv beta. intros s2 (Hl2 & Hb). apply runs_bind, runs_idx; [lia|]. apply runs_bind, runs_slice; [lia..|].
    assert (before es m = len es) as Hall by (apply before_all; intros e He; apply Hr in He; lia).
    assert (before es 0 = 0) as Hz by (apply before_0; intros e He; apply Hr in He; lia).
    rewrite Hb, Hall by lia. apply runs_bind. pose proof (len_nonneg es).
    eapply runs_mono; [apply (fill_spec _ [] es)|].
    + done.
    + split_and!; cbn [fst snd]; [apply len_replicate; lia|rewrite len_sub by lia; lia|]. intros t Ht.
      rewrite get_sub by lia. rewrite Z.add_0_l, Hb by lia. split; [unfold len; cbn; lia|]. unfold sub. by rewrite Z.sub_diag.
    + intros [preds fill] (Hp & Hf & Hrows). cbn [fst snd] in *. apply runs_ok. cbn [fst snd].
      split_and!; [done..|by rewrite Hb by lia|by rewrite Hb by lia|]. intros t Ht. rewrite !Hb by lia. destruct (Hrows t Ht) as [Hft Hrow].
      rewrite before_succ at 1 2 3. rewrite <-Hft at 3. pose proof (len_nonneg (into es t)).
      pose proof (before_mono es (t + 1) m ltac:(lia)). rewrite before_succ in *. pose proof (len_nonneg (filter (λ e : Z * Z, e.1 < t) es)).
      unfold before in *. split_and!; [lia..|done].
Qed.
End Build.
End CSRFacts.
