(* ===== verification/HeapDFS.v ===== *)
(** * Depth-first numbering of the heap

    [dfsPreorder] of [src/internal/heap/dominators.go]: an iterative search with
    an explicit stack from the GC roots under a virtual root [0].  The theorem
    of the file: it terminates, numbers exactly the reachable objects, and the
    numbering is a depth-first preorder ([dfs_tree] of [DomTheory]). *)

From S2P Require Import Prelude Arrays HeapGraph DomTheory.

Module DFS.
Export Graph.

(** ** Depth-first numbering *)

(** The stack has its top first; a frame is a node and the position of its
    next edge. *)
Record dfsState := { dfnum : list Z; vertex : list Z; parent : list Z; stack : list (Z * Z) }.

Definition visit (g : ObjectGraph) (st : dfsState) (v from : Z) : outcome dfsState :=
  dfnum' ← set_idx (dfnum st) v (i32 (len (vertex st)));
  next ← idx (outStart g) v;
  Ok {| dfnum := dfnum'; vertex := vertex st ++ [v]; parent := parent st ++ [from]; stack := (v, next) :: stack st |}.
Definition with_stack (st : dfsState) (s : list (Z * Z)) : dfsState :=
  {| dfnum := dfnum st; vertex := vertex st; parent := parent st; stack := s |}.

(** The inner loop; every step takes an edge or leaves an object, so the number
    of both is fuel enough. *)
Fixpoint dfsLoop (fuel : nat) (g : ObjectGraph) (st : dfsState) : outcome dfsState :=
  match fuel with
  | O => out_of_fuel
  | S fuel =>
    match stack st with
    | [] => Ok st
    | (v, next) :: rest =>
      end_ ← idx (outStart g) (v + 1);
      if next =? end_ then dfsLoop fuel g (with_stack st rest)
      else
        w ← idx (out g) next;
        let st := with_stack st ((v, next + 1) :: rest) in
        dw ← idx (dfnum st) w;
        if dw <? 0 then
          dv ← idx (dfnum st) v;
          st ← visit g st w dv;
          dfsLoop fuel g st
        else dfsLoop fuel g st
    end
  end.
Definition dfsRoot (g : ObjectGraph) (st : dfsState) (r : Z) : outcome dfsState :=
  dr ← idx (dfnum st) r;
  if 0 <=? dr then Ok st
  else st ← visit g st r 0; dfsLoop (S (length (out g) + length (ids g))) g st.
Definition dfsPreorder (g : ObjectGraph) : outcome (list Z * list Z * list Z) :=
  st ← for_each (roots g) (dfsRoot g)
    {| dfnum := replicate (Z.to_nat (Len g)) (-1); vertex := [-1]; parent := [-1]; stack := [] |};
  Ok (dfnum st, vertex st, parent st).

End DFS.

(** ** The search *)

Module DFSFacts.
Export DFS GraphFacts.

(** Ancestors of old nodes when nodes are added. *)
Lemma anc_ext m m' p p' z d : (∀ x, 0 < x < m → p' x = p x ∧ p x < x) → m <= m' → d < m → anc m p z d ↔ anc m' p' z d.
Proof.
  intros Hp Hm Hd. split; intros Ha.
  - induction Ha as [|d Hdm Ha IH]; [constructor|]. destruct (Hp d Hdm) as [He Hl].
    apply anc_par; [lia|]. rewrite He. apply IH. lia.
  - induction Ha as [|d Hdm Ha IH]; [constructor|]. destruct (Hp d ltac:(lia)) as [He Hl].
    apply anc_par; [lia|]. rewrite <-He. apply IH. lia.
Qed.
Lemma anc_zero m p z : anc m p z 0 → z = 0.
Proof. inversion 1; [done|lia]. Qed.

Section Search.
Context (g : ObjectGraph) (G : graph_ok g).

Definition visited (st : dfsState) (v : Z) : Prop := 0 <= get (dfnum st) v.
Definition on_stack (st : dfsState) (v : Z) : Prop := ∃ n, (v, n) ∈ stack st.

(** The frames are a path of the tree. *)
Fixpoint stack_path (num par : list Z) (s : list (Z * Z)) : Prop :=
  match s with
  | [] => True
  | (v, _) :: s => get par (get num v) = match s with [] => 0 | (u, _) :: _ => get num u end ∧ stack_path num par s
  end.

(** [w] is an object that is about to be visited, or [-1]. *)
Record dfs_inv (w : Z) (st : dfsState) : Prop := {
  di_dfnum : len (dfnum st) = Len g;
  di_parent : len (parent st) = len (vertex st);
  di_first : 1 <= len (vertex st) <= Len g + 1 ∧ get (vertex st) 0 = -1;
  di_num v : 0 <= v < Len g → get (dfnum st) v = -1 ∨ 0 < get (dfnum st) v < len (vertex st) ∧ get (vertex st) (get (dfnum st) v) = v;
  di_vertex d : 0 < d < len (vertex st) → 0 <= get (vertex st) d < Len g ∧ get (dfnum st) (get (vertex st) d) = d;
  di_par d : 0 < d < len (vertex st) → 0 <= get (parent st) d < d ∧
    (get (parent st) d = 0 ∧ get (vertex st) d ∈ roots g ∨
     0 < get (parent st) d ∧ edge g (get (vertex st) (get (parent st) d)) (get (vertex st) d));
  di_frame v n : (v, n) ∈ stack st → 0 <= v < Len g ∧ visited st v ∧ get (outStart g) v <= n <= get (outStart g) (v + 1) ∧
    ∀ k, get (outStart g) v <= k < n → visited st (get (out g) k) ∨ get (out g) k = w;
  di_path : stack_path (dfnum st) (parent st) (stack st);
  di_done v : 0 <= v < Len g → visited st v → ¬ on_stack st v → ∀ x, x ∈ row g v → visited st x;
  di_below v n : (v, n) ∈ stack st → ∀ d, get (dfnum st) v <= d < len (vertex st) →
    anc (len (vertex st)) (get (parent st)) (get (dfnum st) v) d;
  di_edge u v : 0 <= u < Len g → 0 <= v < Len g → visited st u → visited st v → v ∈ row g u →
    get (dfnum st) u < get (dfnum st) v → anc (len (vertex st)) (get (parent st)) (get (dfnum st) u) (get (dfnum st) v);
  di_interval z v y : anc (len (vertex st)) (get (parent st)) z y → 0 <= z → z <= v <= y → y < len (vertex st) →
    anc (len (vertex st)) (get (parent st)) z v;
}.

Section Inv.
Context {w : Z} {st : dfsState} (I : dfs_inv w st).
Local Abbreviation N := (len (vertex st)).
Local Abbreviation anc := (anc N (get (parent st))).
Local Abbreviation num := (get (dfnum st)).

Lemma inv_num v : 0 <= v < Len g → visited st v → 0 < num v < N ∧ get (vertex st) (num v) = v.
Proof. intros Hv Hvis. destruct (di_num _ _ I v Hv) as [He|]; [|done]. unfold visited in Hvis. lia. Qed.
Lemma inv_num_inj u v : 0 <= u < Len g → 0 <= v < Len g → visited st u → num u = num v → u = v.
Proof.
  intros Hu Hv Hvu He. assert (visited st v) by (unfold visited in *; lia).
  destruct (inv_num u Hu) as [_ <-]; [done|]. destruct (inv_num v Hv) as [_ <-]; [done|]. by rewrite He.
Qed.
Lemma inv_root d : 0 <= d < N → anc 0 d.
Proof.
  intros Hd. assert (0 <= d) as H0 by lia. revert d H0 Hd. refine (Zlt_0_ind _ _). intros d IH _ Hd.
  destruct (decide (d = 0)) as [->|]; [constructor|]. destruct (di_par _ _ I d) as [Hp _]; [lia|].
  apply anc_par; [lia|]. apply IH; lia.
Qed.
(** The frames are the ancestors of the top. *)
Lemma inv_stack_anc s v n z : (∀ u k, (u, k) ∈ (v, n) :: s → 0 <= u < Len g ∧ visited st u) →
  stack_path (dfnum st) (parent st) ((v, n) :: s) →
  (anc z (num v) → z = 0 ∨ ∃ u k, (u, k) ∈ (v, n) :: s ∧ z = num u) ∧ (∀ u k, (u, k) ∈ (v, n) :: s → anc (num u) (num v)).
Proof.
  revert v n. induction s as [|[u k] s IH]; intros v n Hin [Hp Hs].
  - split.
    + intros Ha. inversion Ha as [|? Hd Ha' Heq]; subst; [right; exists v, n; set_solver|left]. rewrite Hp in Ha'. by apply anc_zero in Ha'.
    + intros u k [= -> ->]%list_elem_of_singleton. constructor.
  - destruct (IH u k) as [IH1 IH2]; [set_solver|done|]. destruct (Hin v n ltac:(set_solver)) as [Hv Hvv].
    destruct (inv_num v Hv Hvv) as [Hn _]. split.
    + intros Ha. inversion Ha as [|? Hd Ha' Heq]; subst; [right; exists v, n; set_solver|]. rewrite Hp in Ha'.
      destruct (IH1 Ha') as [->|(x & j & Hx & ->)]; [by left|right; exists x, j; set_solver].
    + intros x j [[= -> ->]|Hx]%elem_of_cons; [constructor|]. apply anc_par; [lia|]. rewrite Hp. by eapply IH2.
Qed.
(** An object that is not visited has a number to come. *)
Lemma inv_room v : 0 <= v < Len g → ¬ visited st v → N <= Len g.
Proof.
  intros Hv Hn. assert (length (v :: (get (vertex st) <$> upto 1 N)) <= Z.to_nat (Len g))%nat as Hl.
  { apply range_length.
    - apply NoDup_cons. split.
      + intros (d & -> & Hd%elem_of_upto)%list_elem_of_fmap. destruct (di_vertex _ _ I d) as [_ He]; [lia|]. apply Hn. unfold visited. lia.
      + apply NoDup_fmap_2_strong; [|apply NoDup_seqZ]. intros x y Hx%elem_of_upto Hy%elem_of_upto He.
        destruct (di_vertex _ _ I x) as [_ <-]; [lia|]. destruct (di_vertex _ _ I y) as [_ <-]; [lia|]. by rewrite He.
    - intros x [->|(d & -> & Hd%elem_of_upto)%list_elem_of_fmap]%elem_of_cons; [done|]. apply (di_vertex _ _ I); lia.
    - unfold Len. apply len_nonneg. }
  cbn in Hl. rewrite length_fmap in Hl. unfold upto in Hl. rewrite length_seqZ in Hl. lia.
Qed.
End Inv.

(** *** Visiting an object *)

Definition may_visit (st : dfsState) (w from : Z) : Prop :=
  stack st = [] ∧ from = 0 ∧ w ∈ roots g ∨
  ∃ v n rest, stack st = (v, n) :: rest ∧ from = get (dfnum st) v ∧ w ∈ row g v.

Section Visit.
Variables (w from : Z) (st : dfsState) (I : dfs_inv w st).
Hypothesis (Hw : 0 <= w < Len g) (Hnew : ¬ visited st w) (Hmay : may_visit st w from).
Local Abbreviation N := (len (vertex st)).
Let st' : dfsState :=
  {| dfnum := put (dfnum st) w N; vertex := vertex st ++ [w]; parent := parent st ++ [from];
     stack := (w, get (outStart g) w) :: stack st |}.

Lemma visit_from : 0 <= from < N.
Proof.
  destruct Hmay as [(_ & -> & _)|(v & n & rest & Hs & -> & _)]; [pose proof (di_first _ _ I); lia|].
  destruct (di_frame _ _ I v n) as (Hv & Hvv & _); [rewrite Hs; set_solver|]. pose proof (inv_num I v Hv Hvv). lia.
Qed.
Lemma visit_num v : 0 <= v → v ≠ w → get (dfnum st') v = get (dfnum st) v.
Proof. intros. cbn. rewrite get_put_ne by lia. done. Qed.
Lemma visit_num_w : get (dfnum st') w = N.
Proof. cbn. apply get_put_eq. rewrite (di_dfnum _ _ I). lia. Qed.
Lemma visit_visited v : 0 <= v → visited st' v ↔ visited st v ∨ v = w.
Proof.
  intros Hv. unfold visited. pose proof (di_first _ _ I). destruct (decide (v = w)) as [->|Hne].
  - rewrite visit_num_w. split; [auto|lia].
  - rewrite visit_num by done. tauto.
Qed.
Lemma visit_parent d : 0 <= d < N → get (parent st') d = get (parent st) d.
Proof. intros Hd. cbn. by rewrite get_app_l by (rewrite ?(di_parent _ _ I); lia). Qed.
Lemma visit_vertex d : 0 <= d < N → get (vertex st') d = get (vertex st) d.
Proof. intros Hd. cbn. by rewrite get_app_l by lia. Qed.
Lemma visit_last : get (parent st') N = from ∧ get (vertex st') N = w ∧ len (vertex st') = N + 1.
Proof. cbn. rewrite <-(di_parent _ _ I) at 1. rewrite !get_snoc, len_snoc. done. Qed.
Lemma visit_anc z d : d < N → anc (N + 1) (get (parent st')) z d ↔ anc N (get (parent st)) z d.
Proof.
  intros Hd. symmetry. apply anc_ext; [|lia|done]. intros x Hx. rewrite visit_parent by lia.
  destruct (di_par _ _ I x Hx). lia.
Qed.
Lemma visit_anc_new z : anc (N + 1) (get (parent st')) z N ↔ z = N ∨ anc N (get (parent st)) z from.
Proof.
  destruct visit_last as (Hp & _ & _). pose proof visit_from. pose proof (di_first _ _ I). rewrite <-visit_anc by lia. split.
  - intros Ha. inversion Ha as [|? Hd Ha' Heq]; [by left|right]. by rewrite Hp in Ha'.
  - intros [->|Ha]; [constructor|]. apply anc_par; [lia|]. by rewrite Hp.
Qed.
(** The ancestors of the new node are the frames and the virtual root, and
    what was numbered after a frame is below it. *)
Lemma visit_frames z d : anc N (get (parent st)) z from → z <= d < N → anc N (get (parent st)) z d.
Proof.
  intros Ha Hd. destruct Hmay as [(_ & -> & _)|(v & n & rest & Hs & -> & _)].
  - apply anc_zero in Ha as ->. by apply (inv_root I).
  - pose proof (di_path _ _ I) as Hp. rewrite Hs in Hp. apply (proj1 (inv_stack_anc I rest v n z ltac:(intros u k Hu; rewrite <-Hs in Hu; apply (di_frame _ _ I) in Hu; tauto) Hp)) in Ha.
    destruct Ha as [->|(u & k & Hu & ->)]; [by apply (inv_root I)|]. rewrite <-Hs in Hu. by apply (di_below _ _ I u k).
Qed.
Lemma visit_stack u k : (u, k) ∈ stack st → anc N (get (parent st)) (get (dfnum st) u) from.
Proof.
  intros Hk. destruct Hmay as [(Hs & _)|(v & n & rest & Hs & -> & _)]; [rewrite Hs in Hk; set_solver|].
  pose proof (di_path _ _ I) as Hp. rewrite Hs in Hp, Hk.
  apply (proj2 (inv_stack_anc I rest v n 0 ltac:(intros x j Hx; rewrite <-Hs in Hx; apply (di_frame _ _ I) in Hx; tauto) Hp) u k Hk).
Qed.
(** An object with an edge to [w] is on the stack. *)
Lemma visit_edge_from u : 0 <= u < Len g → visited st u → w ∈ row g u → anc N (get (parent st)) (get (dfnum st) u) from.
Proof.
  intros Hu Hvu Hin. destruct (decide (Exists (λ f, f.1 = u) (stack st))) as [He|Hno].
  - apply Exists_exists in He as ([x k] & Hk & Hx). cbn in Hx. subst. by apply (visit_stack u k).
  - exfalso. apply Hnew, (di_done _ _ I u); [done..| |done]. intros (k & Hk). apply Hno, Exists_exists. by exists (u, k).
Qed.

Lemma visit_path : stack_path (dfnum st') (parent st') (stack st').
Proof.
  destruct visit_last as (Hlast & _ & _). assert (∀ s, (∀ u k, (u, k) ∈ s → 0 <= u < Len g ∧ visited st u) →
    stack_path (dfnum st) (parent st) s → stack_path (dfnum st') (parent st') s) as Hold.
  { induction s as [|[v n] s IH]; intros Hin; [done|]. intros [Hp Hs]. destruct (Hin v n ltac:(set_solver)) as [Hv Hvv].
    assert (v ≠ w) by (intros ->; done). pose proof (inv_num I v Hv Hvv) as [Hn _]. split; [|apply IH; [set_solver|done]].
    rewrite visit_num by lia. rewrite visit_parent, Hp by lia. destruct s as [|[u k] s]; [done|].
    destruct (Hin u k ltac:(set_solver)) as [Hu Hvu]. symmetry. apply visit_num; [lia|]. intros ->. done. }
  split.
  - rewrite visit_num_w, Hlast. destruct Hmay as [(Hs & Hf & _)|(v & n & rest & Hs & Hf & _)]; rewrite Hs, Hf; [done|].
    destruct (di_frame _ _ I v n) as (Hv & Hvv & _); [rewrite Hs; set_solver|]. symmetry. apply visit_num; [lia|]. intros ->. done.
  - apply Hold; [|apply I]. intros u k Hu. apply (di_frame _ _ I) in Hu. tauto.
Qed.

Lemma visit_inv : dfs_inv (-1) st'.
Proof.
  pose proof (di_first _ _ I) as [Hfirst Hv0]. pose proof visit_from as Hfrom. pose proof (inv_room I w Hw Hnew) as Hroom.
  destruct visit_last as (Hlp & Hlv & Hlen). pose proof visit_num_w as Hnw. pose proof (di_dfnum _ _ I).
  assert (∀ v, 0 <= v < Len g → visited st v → v ≠ w) as Hnw' by (intros v Hv Hvv ->; done).
  split; rewrite ?Hlen.
  - cbn. by rewrite len_put.
  - cbn. rewrite !len_snoc. by rewrite (di_parent _ _ I).
  - split; [lia|]. by rewrite visit_vertex by lia.
  - intros v Hv. destruct (decide (v = w)) as [->|Hne]; [right; rewrite Hnw; split; [lia|done]|].
    rewrite visit_num by lia. destruct (di_num _ _ I v Hv) as [|[Hn Hvn]]; [by left|right].
    rewrite visit_vertex by lia. split; [lia|done].
  - intros d Hd. destruct (decide (d = N)) as [->|Hne]; [by rewrite Hlv|]. rewrite visit_vertex by lia.
    destruct (di_vertex _ _ I d) as [Hr Hn]; [lia|]. rewrite visit_num; [done|lia|]. apply Hnw'; [done|]. unfold visited. lia.
  - intros d Hd. destruct (decide (d = N)) as [->|Hne].
    + rewrite Hlp, Hlv. split; [lia|]. destruct Hmay as [(_ & Hf & Hr)|(v & n & rest & Hs & Hf & Hin)]; [by left|right].
      destruct (di_frame _ _ I v n) as (Hv & Hvv & _); [rewrite Hs; set_solver|]. destruct (inv_num I v Hv Hvv) as [Hn Hvn].
      rewrite Hf. split; [lia|]. rewrite visit_vertex, Hvn by lia. done.
    + rewrite visit_parent, (visit_vertex d) by lia. destruct (di_par _ _ I d) as [Hp Hc]; [lia|]. split; [done|].
      rewrite visit_vertex by lia. done.
  - intros v n [[= -> ->]|Hin]%elem_of_cons.
    + destruct (go_rows _ G w Hw). split_and!; [lia..|apply visit_visited; [lia|by right]|lia|lia|intros; lia].
    + destruct (di_frame _ _ I v n Hin) as (Hv & Hvv & Hn & Hk). split_and!; [lia..|apply visit_visited; [lia|by left]|lia|lia|].
      intros k Hkr. assert (0 <= get (out g) k < Len g) as Ho.
      { apply (go_out _ G), elem_of_get. exists k. destruct (go_rows _ G v Hv). split; [lia|done]. }
      left. apply visit_visited; [lia|]. auto.
  - apply visit_path.
  - intros v Hv Hvv Hns x Hx. apply (proj1 (visit_visited v ltac:(lia))) in Hvv as [Hvv| ->]; [|destruct Hns; exists (get (outStart g) w); cbn; set_solver].
    assert (0 <= x < Len g) by (apply (go_out _ G); by eapply elem_of_sub). apply visit_visited; [lia|left].
    apply (di_done _ _ I v Hv Hvv); [|done]. intros (k & Hk). apply Hns. exists k. cbn. set_solver.
  - intros v n [[= -> ->]|Hin]%elem_of_cons d.
    + rewrite Hnw. intros Hd. assert (d = N) as -> by lia. constructor.
    + destruct (di_frame _ _ I v n Hin) as (Hv & Hvv & _). rewrite visit_num by (lia || by apply Hnw'). intros Hd.
      pose proof (inv_num I v Hv Hvv). destruct (decide (d = N)) as [->|Hne].
      * apply visit_anc_new. right. by apply (visit_stack v n).
      * apply visit_anc; [lia|]. apply (di_below _ _ I v n Hin). lia.
  - intros u v Hu Hv Hvu Hvv Hin Hlt. apply (proj1 (visit_visited u ltac:(lia))) in Hvu as [Hvu| ->].
    + rewrite (visit_num u) in * by (lia || by apply Hnw'). pose proof (inv_num I u Hu Hvu).
      apply (proj1 (visit_visited v ltac:(lia))) in Hvv as [Hvv| ->].
      * rewrite (visit_num v) in * by (lia || by apply Hnw'). pose proof (inv_num I v Hv Hvv). apply visit_anc; [lia|].
        by apply (di_edge _ _ I).
      * rewrite Hnw. apply visit_anc_new. right. by apply visit_edge_from.
    + rewrite Hnw in Hlt. apply (proj1 (visit_visited v ltac:(lia))) in Hvv as [Hvv| ->]; [|lia].
      rewrite visit_num in Hlt by (lia || by apply Hnw'). pose proof (inv_num I v Hv Hvv). lia.
  - intros z v y Ha Hz Hzv Hy. destruct (decide (y = N)) as [->|Hne].
    + destruct (decide (v = N)) as [->|Hvn]; [done|]. apply visit_anc_new in Ha as [->|Ha]; [lia|].
      apply visit_anc; [lia|]. apply visit_frames; [done|lia].
    + apply visit_anc in Ha; [|lia]. apply visit_anc; [lia|]. apply (di_interval _ _ I z v y); [done|lia..].
Qed.
Lemma visit_spec : runs (visit g st w from) (λ s, s = st' ∧ dfs_inv (-1) s).
Proof.
  pose proof (di_dfnum _ _ I). pose proof (go_start _ G). pose proof (inv_room I w Hw Hnew). pose proof (di_first _ _ I).
  pose proof (go_len _ G). unfold maxGraphObjects in *. unfold visit.
  rewrite i32_small by lia. apply runs_bind, runs_set_idx; [lia|]. apply runs_bind, runs_idx; [lia|]. apply runs_ok.
  split; [done|apply visit_inv].
Qed.
End Visit.

(** *** The loop *)

(** What is left to do: edges of the frames and of the objects to come, and the
    objects themselves. *)
Definition cost (v : Z) : Z := get (outStart g) (v + 1) - get (outStart g) v + 1.
Definition todo (num : list Z) (v : Z) : Z := if decide (0 <= get num v) then 0 else cost v.
Definition frame_cost (f : Z * Z) : Z := get (outStart g) (f.1 + 1) - f.2 + 1.
Definition measure (st : dfsState) : Z := sum_over frame_cost (stack st) + sum_over (todo (dfnum st)) (upto 0 (Len g)).

Lemma cost_pos v : 0 <= v < Len g → 1 <= cost v.
Proof. intros Hv. destruct (go_rows _ G v Hv). unfold cost. lia. Qed.
Lemma todo_nonneg num v : 0 <= v < Len g → 0 <= todo num v <= cost v.
Proof. intros Hv. pose proof (cost_pos v Hv). unfold todo. case_decide; lia. Qed.
Lemma sum_cost n : 0 <= n <= Len g → sum_over cost (upto 0 n) = get (outStart g) n + n.
Proof.
  intros Hn. assert (0 <= n) as H0 by lia. revert n H0 Hn. apply (natlike_ind (λ n, 0 <= n <= Len g → sum_over cost (upto 0 n) = get (outStart g) n + n)).
  - intros _. rewrite upto_nil by lia. cbn. rewrite (go_first _ G). lia.
  - intros n Hn IH Hle. unfold Z.succ. rewrite upto_snoc by lia. rewrite sum_over_app, IH by lia. cbn. unfold cost. lia.
Qed.
Lemma measure_visit st w from : 0 <= w < Len g → ¬ visited st w → len (dfnum st) = Len g → 0 <= len (vertex st) →
  measure {| dfnum := put (dfnum st) w (len (vertex st)); vertex := vertex st ++ [w]; parent := parent st ++ [from];
     stack := (w, get (outStart g) w) :: stack st |} = measure st.
Proof.
  intros Hw Hn Hl Hv. unfold measure. cbn [stack dfnum sum_over]. unfold frame_cost at 1. cbn [fst snd].
  rewrite (sum_over_change (todo (dfnum st)) (todo (put (dfnum st) w (len (vertex st)))) (upto 0 (Len g)) w).
  - unfold todo at 2 3. rewrite get_put_eq by lia. rewrite decide_True by lia. rewrite decide_False by done. unfold cost. lia.
  - apply NoDup_seqZ.
  - by apply elem_of_upto.
  - intros y Hy%elem_of_upto Hne. unfold todo. by rewrite get_put_ne by lia.
Qed.
Lemma measure_nonneg w st : dfs_inv w st → 0 <= measure st.
Proof.
  intros I. unfold measure. assert (0 <= sum_over frame_cost (stack st)).
  { apply sum_over_nonneg. intros [v n] Hin. destruct (di_frame _ _ I v n Hin) as (_ & _ & ? & _). unfold frame_cost. cbn. lia. }
  assert (0 <= sum_over (todo (dfnum st)) (upto 0 (Len g))); [|lia].
  apply sum_over_nonneg. intros v Hv%elem_of_upto. by apply todo_nonneg.
Qed.

(** Leaving a finished object, and taking an edge. *)
Lemma pop_inv st v n rest : dfs_inv (-1) st → stack st = (v, n) :: rest → n = get (outStart g) (v + 1) → dfs_inv (-1) (with_stack st rest).
Proof.
  intros I Hs Hn. destruct (di_frame _ _ I v n) as (Hv & Hvv & Hr & Hk); [rewrite Hs; set_solver|].
  assert (∀ x k, (x, k) ∈ rest → (x, k) ∈ stack st) as Hsub by (rewrite Hs; set_solver).
  pose proof I as []. split; cbn; try done.
  - intros x k Hx. exact (di_frame0 x k (Hsub x k Hx)).
  - by rewrite Hs in di_path0; destruct di_path0.
  - intros x Hx Hvx Hns y Hy. destruct (decide (x = v)) as [->|Hne].
    + unfold row in Hy. destruct (go_rows _ G v Hv). apply elem_of_sub_get in Hy as (k & Hkr & <-); [|lia..].
      destruct (Hk k) as [|He]; [lia|done|]. pose proof (go_out _ G (get (out g) k)) as Ho. rewrite He in Ho.
      assert (0 <= -1 < Len g); [|lia]. apply Ho, elem_of_get. exists k. split; [lia|done].
    + apply (di_done0 x); [done|done| |done]. intros (k & Hkx). rewrite Hs in Hkx. apply elem_of_cons in Hkx as [[= -> _]|Hkx]; [done|].
      apply Hns. by exists k.
  - intros x k Hx. exact (di_below0 x k (Hsub x k Hx)).
Qed.
Lemma advance_inv st v n rest : dfs_inv (-1) st → stack st = (v, n) :: rest → n < get (outStart g) (v + 1) →
  dfs_inv (get (out g) n) (with_stack st ((v, n + 1) :: rest)).
Proof.
  intros I Hs Hn. destruct (di_frame _ _ I v n) as (Hv & Hvv & Hr & Hk); [rewrite Hs; set_solver|].
  assert (∀ x k, get (outStart g) x <= k → 0 <= x < Len g → k < get (outStart g) (x + 1) → get (out g) k ≠ -1) as Hno.
  { intros x k Hk1 Hx Hk2 He. destruct (go_rows _ G x Hx). pose proof (go_out _ G (get (out g) k)) as Ho. rewrite He in Ho.
    assert (0 <= -1 < Len g); [|lia]. apply Ho, elem_of_get. exists k. split; [lia|done]. }
  assert (∀ x k, (x, k) ∈ rest → (x, k) ∈ stack st) as Hsub by (rewrite Hs; set_solver).
  pose proof I as []. split; cbn; try done.
  - intros x k [[= -> ->]|Hx]%elem_of_cons.
    + split_and!; [lia..|done|lia|lia|]. intros k Hkr. destruct (decide (k = n)) as [->|]; [by right|left].
      destruct (Hk k) as [|He]; [lia|done|]. exfalso. apply (Hno v k); [lia..|done].
    + destruct (di_frame0 x k (Hsub _ _ Hx)) as (H1 & H2 & H3 & H4). split_and!; [lia..|done|lia|lia|]. intros j Hj.
      destruct (H4 j Hj) as [|He]; [by left|]. exfalso. apply (Hno x j); [lia..|done].
  - rewrite Hs in di_path0. destruct di_path0 as [Hp Hs']. by split.
  - intros x Hx Hvx Hns y Hy. apply (di_done0 x); [done|done| |done]. intros (k & Hkx). apply Hns. rewrite Hs in Hkx.
    apply elem_of_cons in Hkx as [[= -> ->]|Hkx]; [exists (n + 1)|exists k]; cbn; set_solver.
  - intros x k [[= -> ->]|Hx]%elem_of_cons; [|exact (di_below0 x k (Hsub x k Hx))]. apply (di_below0 v n). rewrite Hs. set_solver.
Qed.
(** The object an edge leads to is visited already. *)
Lemma settled_inv st w : dfs_inv w st → 0 <= w < Len g → visited st w → dfs_inv (-1) st.
Proof.
  intros I Hw Hvw. pose proof I as []. split; try done. intros v n Hin. destruct (di_frame0 v n Hin) as (H1 & H2 & H3 & H4).
  split_and!; [lia..|done|lia|lia|]. intros k Hk. destruct (H4 k Hk) as [|He]; [by left|left]. by rewrite He.
Qed.

Lemma dfsLoop_spec fuel : ∀ st, dfs_inv (-1) st → measure st < Z.of_nat fuel →
  runs (dfsLoop fuel g st) (λ st', dfs_inv (-1) st' ∧ stack st' = [] ∧ ∀ v, 0 <= v < Len g → visited st v → visited st' v).
Proof.
  induction fuel as [|fuel IH]; intros st I Hf; [pose proof (measure_nonneg _ _ I); lia|]. cbn [dfsLoop].
  destruct (stack st) as [|[v n] rest] eqn:Hs; [apply runs_ok; by rewrite Hs|].
  destruct (di_frame _ _ I v n) as (Hv & Hvv & Hr & Hk); [rewrite Hs; set_solver|]. destruct (go_rows _ G v Hv) as [Hg1 Hg2].
  pose proof (go_start _ G). pose proof (di_dfnum _ _ I). apply runs_bind, runs_idx; [lia|]. apply runs_if; intros Hb; to_prop.
  - eapply runs_mono; [apply IH; [by eapply pop_inv|]|].
    + unfold measure in *. rewrite Hs in Hf. cbn in *. unfold frame_cost at 1 in Hf. cbn in Hf. lia.
    + done.
  - assert (n < get (outStart g) (v + 1)) as Hlt by lia. pose proof (advance_inv st v n rest I Hs Hlt) as Ia.
    set (w := get (out g) n) in *. set (st1 := with_stack st ((v, n + 1) :: rest)) in *.
    assert (w ∈ row g v) as Hwr by (apply elem_of_sub_get; [lia..|]; exists n; split; [lia|done]).
    assert (0 <= w < Len g) as Hw by (apply (go_out _ G); by eapply elem_of_sub).
    assert (measure st1 = measure st - 1) as Hm by (unfold measure; rewrite Hs; cbn; unfold frame_cost at 1 3; cbn; lia).
    apply runs_bind, runs_idx; [lia|]. fold w. apply runs_bind, runs_idx; [cbn; lia|]. apply runs_if; intros Hd; to_prop.
    + apply runs_bind, runs_idx; [cbn; lia|]. apply runs_bind. assert (¬ visited st1 w) as Hnv by (unfold visited; lia).
      eapply runs_mono; [apply (visit_spec w (get (dfnum st1) v) st1 Ia Hw Hnv)|].
      { right. exists v, (n + 1), rest. done. }
      intros st2 (-> & I2). eapply runs_mono; [apply IH; [done|]|].
      * rewrite measure_visit; [lia|done..|apply len_nonneg].
      * cbv beta. intros st3 (I3 & Hs3 & Hvis). split_and!; [done..|]. intros x Hx Hvx. apply Hvis; [done|].
        unfold visited in *. cbn. pose proof (len_nonneg (vertex st)). destruct (decide (x = w)) as [->|]; [rewrite get_put_eq by (cbn; lia); lia|by rewrite get_put_ne by lia].
    + eapply runs_mono; [apply IH; [|lia]|].
      * by apply (settled_inv st1 w).
      * done.
Qed.

(** *** The result *)

(** Objects reachable from the GC roots. *)
Inductive reachable : Z → Prop :=
| reach_root r : r ∈ roots g → reachable r
| reach_edge u v : reachable u → v ∈ row g u → reachable v.

(** The graph in preorder numbers, under the virtual root. *)
Definition flow (vertex : list Z) (d e : Z) : Prop :=
  0 < e < len vertex ∧ (d = 0 ∧ get vertex e ∈ roots g ∨ 0 < d < len vertex ∧ get vertex e ∈ row g (get vertex d)).

Record dfs_result (num vert par : list Z) : Prop := {
  dr_num_len : len num = Len g;
  dr_len : 1 <= len vert <= Len g + 1;
  dr_par_len : len par = len vert;
  dr_num v : 0 <= v < Len g → get num v = -1 ∨ 0 < get num v < len vert ∧ get vert (get num v) = v;
  dr_vertex d : 0 < d < len vert → 0 <= get vert d < Len g ∧ get num (get vert d) = d;
  dr_tree : dfs_tree (len vert) (flow vert) (get par);
  dr_roots r : r ∈ roots g → 0 < get num r;
  dr_closed u v : 0 <= u < Len g → 0 < get num u → v ∈ row g u → 0 < get num v;
}.

Lemma row_range u v : 0 <= u < Len g → v ∈ row g u → 0 <= v < Len g.
Proof. intros Hu Hv. apply (go_out _ G). by eapply elem_of_sub. Qed.
Lemma reachable_range v : reachable v → 0 <= v < Len g.
Proof. induction 1 as [r Hr|u v Hu IH Hv]; [by apply (go_roots _ G)|by eapply row_range]. Qed.

Lemma inv_tree st : dfs_inv (-1) st → dfs_tree (len (vertex st)) (flow (vertex st)) (get (parent st)).
Proof.
  intros I. pose proof (di_first _ _ I) as [Hf _]. split.
  - lia.
  - intros u v [Hv [[-> _]|[Hu _]]]; lia.
  - intros v Hv. destruct (di_par _ _ I v Hv) as [Hp Hc]. split; [done|]. split; [done|].
    destruct Hc as [[-> Hr]|[H0 [_ He]]]; [by left|right]. split; [lia|done].
  - intros u v [Hv [[-> _]|[Hu Hin]]] Hlt; [apply (inv_root I); lia|].
    destruct (di_vertex _ _ I u Hu) as [Hur Hun]. destruct (di_vertex _ _ I v Hv) as [Hvr Hvn].
    rewrite <-Hun, <-Hvn. apply (di_edge _ _ I); unfold visited; try done; lia.
  - intros z v y Ha Hzv. destruct (decide (y < len (vertex st))) as [Hy|Hy].
    + destruct (decide (0 <= z)) as [Hz|Hz]; [by apply (di_interval _ _ I z v y)|].
      assert (∀ y, anc (len (vertex st)) (get (parent st)) z y → 0 <= y < len (vertex st) → 0 <= z) as Hn.
      { clear -I. induction 1 as [|y Hy Ha IH]; [lia|]. intros _. apply IH. destruct (di_par _ _ I y Hy). lia. }
      destruct (decide (0 <= y)); [pose proof (Hn y Ha ltac:(lia)); lia|].
      assert (z = y) as -> by (inversion Ha; lia). assert (v = y) as -> by lia. constructor.
    + inversion Ha as [|? Hd]; [|lia]. assert (v = y) as -> by lia. constructor.
Qed.

Lemma dfsRoot_spec st r : dfs_inv (-1) st → stack st = [] → r ∈ roots g →
  runs (dfsRoot g st r) (λ st', dfs_inv (-1) st' ∧ stack st' = [] ∧ visited st' r ∧ ∀ v, 0 <= v < Len g → visited st v → visited st' v).
Proof.
  intros I Hs Hr. pose proof (go_roots _ G r Hr) as Hrr. pose proof (di_dfnum _ _ I). unfold dfsRoot.
  apply runs_bind, runs_idx; [lia|]. apply runs_if; intros Hb; to_prop; [by apply runs_ok|].
  assert (¬ visited st r) as Hn by (unfold visited; lia).
  assert (dfs_inv r st) as Ir.
  { pose proof I as []. split; try done. intros v n. rewrite Hs. set_solver. }
  apply runs_bind. eapply runs_mono; [apply (visit_spec r 0 st Ir Hrr Hn)|]. { by left. }
  intros st1 (-> & I1). eapply runs_mono; [apply dfsLoop_spec; [done|]|].
  - rewrite measure_visit; [|done..|apply len_nonneg]. unfold measure. rewrite Hs. cbn [sum_over].
    assert (sum_over (todo (dfnum st)) (upto 0 (Len g)) <= sum_over cost (upto 0 (Len g))) as Hle.
    { assert (∀ l, (∀ v, v ∈ l → 0 <= v < Len g) → sum_over (todo (dfnum st)) l <= sum_over cost l) as Hle.
      { induction l as [|v l IH]; intros Hin; cbn; [lia|]. pose proof (todo_nonneg (dfnum st) v ltac:(apply Hin; set_solver)).
        specialize (IH ltac:(set_solver)). lia. }
      apply Hle. intros v. apply elem_of_upto. }
    rewrite sum_cost in Hle by (unfold Len; pose proof (len_nonneg (ids g)); lia). rewrite (go_last _ G) in Hle. unfold Len, len in *. lia.
  - cbv beta. intros st2 (I2 & Hs2 & Hvis).
    assert (∀ x, 0 <= x < Len g → visited st x ∨ x = r → visited st2 x) as Hv2.
    { intros x Hx Hvx. apply Hvis; [done|]. unfold visited in *. cbn. pose proof (len_nonneg (vertex st)).
      destruct (decide (x = r)) as [->|]; [rewrite get_put_eq by lia; lia|rewrite get_put_ne by lia; tauto]. }
    split_and!; [done..|by apply Hv2; [|right]|]. intros v Hv Hvv. apply Hv2; [done|by left].
Qed.

(** [dfsPreorder] terminates without a panic and numbers the reachable objects
    in depth-first preorder. *)
Lemma dfsPreorder_spec : runs (dfsPreorder g) (λ r, dfs_result r.1.1 r.1.2 r.2).
Proof.
  unfold dfsPreorder. pose proof (len_nonneg (ids g)) as Hlen. fold (Len g) in Hlen. apply runs_bind.
  eapply runs_mono; [apply (runs_for_each (λ d st, dfs_inv (-1) st ∧ stack st = [] ∧ ∀ r, r ∈ d → visited st r))|].
  - split_and!; [|done|set_solver]. assert (∀ v, 0 <= v < Len g → get (replicate (Z.to_nat (Len g)) (-1)) v = -1) as Hg by (intros; by apply get_replicate).
    split; cbn; try done; try set_solver; try (intros; unfold len in *; cbn in *; lia).
    + by apply len_replicate.
    + unfold len. cbn. split; [lia|done].
    + intros v Hv Hvv. unfold visited in Hvv. cbn in Hvv. rewrite Hg in Hvv by done. lia.
    + intros u v Hu Hv Hvv. unfold visited in Hvv. cbn in Hvv. rewrite Hg in Hvv by done. lia.
    + intros z v y _ Hz Hzv Hy. change (len [-1]) with 1 in *. assert (z = v) as -> by lia. constructor.
  - intros d r rest st Hl (I & Hs & Hd). eapply runs_mono; [apply dfsRoot_spec; [done..|rewrite Hl; set_solver]|].
    cbv beta. intros st' (I' & Hs' & Hr & Hvis). split_and!; [done..|]. intros x [Hx| ->%list_elem_of_singleton]%elem_of_app; [|done].
    apply Hvis; [|auto]. apply (go_roots _ G). rewrite Hl. set_solver.
  - intros st (I & Hs & Hroots). apply runs_ok. cbn. pose proof (di_first _ _ I).
    assert (∀ v, 0 <= v < Len g → visited st v → 0 < get (dfnum st) v) as Hpos.
    { intros v Hv Hvv. pose proof (inv_num I v Hv Hvv). lia. }
    split.
    + apply I.
    + lia.
    + apply I.
    + apply (di_num _ _ I).
    + apply (di_vertex _ _ I).
    + by apply inv_tree.
    + intros r Hr. apply Hpos; [by apply (go_roots _ G)|auto].
    + intros u v Hu Hnu Hv. pose proof (row_range u v Hu Hv). apply Hpos; [done|]. apply (di_done _ _ I u); [done|unfold visited; lia| |done].
      intros (n & Hn). rewrite Hs in Hn. set_solver.
Qed.

(** The numbered objects are the reachable ones. *)
Lemma numbered_reachable num vert par v : dfs_result num vert par → 0 <= v < Len g → 0 < get num v ↔ reachable v.
Proof.
  intros D Hv. split.
  - intros Hn. destruct (dr_num _ _ _ D v Hv) as [|[Hr Hv']]; [lia|]. rewrite <-Hv'. clear Hv Hn Hv'.
    assert (0 <= get num v) as H0 by lia. revert H0 Hr. generalize (get num v). clear v.
    refine (Zlt_0_ind _ _). intros d IH _ Hd.
    destruct (dt_par _ _ _ (dr_tree _ _ _ D) d Hd) as [Hp [_ [[He Hr]|[Hpd Hin]]]]; [by apply reach_root|].
    eapply reach_edge; [|done]. apply IH; lia.
  - intros Hr. clear Hv. induction Hr as [r Hr|u v Hu IH Hin]; [by apply (dr_roots _ _ _ D)|].
    by apply (dr_closed _ _ _ D u); [apply reachable_range| |].
Qed.
End Search.
End DFSFacts.
