(* ===== verification/HeapDominators.v ===== *)
(** * Reachability, dominators and retained sizes of a heap

    [src/internal/heap/dominators.go] up to the dominator tree: the reverse
    graph, retained sizes, the aggregates by class and the queries on the result
    (the depth-first numbering is in [HeapDFS], [lengauerTarjan] in [HeapLT]).
    The theorem of the file:
    [ComputeRetained] returns, for every well-formed graph, the reachable
    objects, their immediate dominators, and as the retained size of an object
    the sum of the sizes of the objects it dominates. *)

From S2P Require Import Prelude Arrays GoRuntime Float64 HeapGraph DomTheory HeapLT HeapCSR HeapDFS.

Module Dominators.
Export Graph CSR DFS.

(** ** The reverse graph in compressed rows *)

(** Aggregates of the reachable instances of a class. *)
Record ClassRetained := {
  cr_ClassName : string; Instances : Z; ShallowBytes : Z; RetainedBytes : Z; PercentOfHeap : f64 }.
#[export] Instance ClassRetained_inhabited : Inhabited ClassRetained :=
  populate {| cr_ClassName := ""; Instances := 0; ShallowBytes := 0; RetainedBytes := 0; PercentOfHeap := f0 |}.

Record RetainedSnapshot := {
  Graph : ObjectGraph; TotalShallowBytes : Z; ReachableObjects : Z; ReachableBytes : Z;
  s_dfnum : list Z; s_vertex : list Z; s_idom : list Z; retained : list Z;
  childStart : list Z; children : list Z; classes : list ClassRetained }.

(** [for d := 1; d < m; d++ { for _, w := range g.Out(s.vertex[d]) { f(w, d) } }] *)
Definition over_edges {S} (g : ObjectGraph) (vertex : list Z) (f : S → Z → Z → outcome S) (s : S) : outcome S :=
  for_each (upto 1 (len vertex)) (λ s d,
    v ← idx vertex d; row ← Out g v; for_each row (λ s w, f s w d) s) s.
Definition predecessors (g : ObjectGraph) (dfnum vertex : list Z) : outcome (list Z * list Z) :=
  let m := len vertex in
  start ← over_edges g vertex (λ start w _, dw ← idx dfnum w; countEdge i64 start dw) (replicate (Z.to_nat (m + 1)) 0);
  start ← for_each (roots g) (λ start r, dr ← idx dfnum r; countEdge i64 start dr) start;
  start ← for_each (upto 1 (m + 1)) (sumStep i64) start;
  total ← idx start m;
  fill ← slice start 0 m;
  st ← over_edges g vertex (λ st w d, dw ← idx dfnum w; fillEdge i64 st (dw, i32 d)) (replicate (Z.to_nat total) 0, fill);
  st ← for_each (roots g) (λ st r, dr ← idx dfnum r; fillEdge i64 st (dr, 0)) st;
  Ok (start, st.1).

(** ** The dominator tree and the retained sizes *)

Definition dominatorChildren (idom : list Z) : outcome (list Z * list Z) :=
  let m := len idom in
  start ← for_each (upto 1 m) (λ start d, p ← idx idom d; countEdge i32 start p) (replicate (Z.to_nat (m + 1)) 0);
  start ← for_each (upto 1 (m + 1)) (sumStep i32) start;
  total ← idx start m;
  fill ← slice start 0 m;
  st ← for_each (upto 1 m) (λ st d, p ← idx idom d; fillEdge i32 st (p, i32 d)) (replicate (Z.to_nat total) 0, fill);
  Ok (start, st.1).

(** [s.retained[s.idom[d]] += s.retained[d]] *)
Definition retainStep (idom retained : list Z) (d : Z) : outcome (list Z) :=
  p ← idx idom d; a ← idx retained p; b ← idx retained d; set_idx retained p (i64 (a + b)).

(** One instance [d] of class [c] below the frames of the walk. *)
Definition addInstance (k : ClassRetained) (shallow : Z) (credit : Z) : ClassRetained :=
  {| cr_ClassName := cr_ClassName k; Instances := i64 (Instances k + 1); ShallowBytes := i64 (ShallowBytes k + shallow);
     RetainedBytes := i64 (RetainedBytes k + credit); PercentOfHeap := PercentOfHeap k |}.
(** The walk over the dominator tree; each step enters or leaves a node. *)
Fixpoint aggLoop (fuel : nat) (g : ObjectGraph) (vertex retained childStart children : list Z)
    (classes : list ClassRetained) (onPath : list Z) (stack : list (Z * Z)) : outcome (list ClassRetained) :=
  match fuel with
  | O => out_of_fuel
  | S fuel =>
    match stack with
    | [] => Ok classes
    | (d, next) :: rest =>
      end_ ← idx childStart (d + 1);
      if next =? end_ then
        onPath ← (if negb (d =? 0) then
                    v ← idx vertex d; c ← idx (class g) v; n ← idx onPath c; set_idx onPath c (i32 (n - 1))
                  else Ok onPath);
        aggLoop fuel g vertex retained childStart children classes onPath rest
      else
        d' ← idx children next;
        obj ← idx vertex d';
        c ← idx (class g) obj;
        k ← idx classes c;
        sh ← idx (shallow g) obj;
        n ← idx onPath c;
        credit ← (if n =? 0 then idx retained d' else Ok 0);
        classes ← set_idx classes c (addInstance k sh credit);
        onPath ← set_idx onPath c (i32 (n + 1));
        first ← idx childStart d';
        aggLoop fuel g vertex retained childStart children classes onPath ((d', first) :: (d, next + 1) :: rest)
    end
  end.
Definition aggregateClasses (g : ObjectGraph) (vertex retained childStart children : list Z) : outcome (list ClassRetained) :=
  let classes := (λ n, {| cr_ClassName := n; Instances := 0; ShallowBytes := 0; RetainedBytes := 0; PercentOfHeap := f0 |}) <$> classNames g in
  first ← idx childStart 0;
  aggLoop (2 * length vertex + 1) g vertex retained childStart children classes
    (replicate (length (classNames g)) 0) [(0, first)].

Definition ComputeRetained (g : ObjectGraph) : outcome RetainedSnapshot :=
  let total := fold_left (λ t s, i64 (t + s)) (shallow g) 0 in
  '(dfnum, vertex, parent) ← dfsPreorder g;
  let m := len vertex in
  '(predStart, preds) ← predecessors g dfnum vertex;
  idom ← LT.lengauerTarjan m parent predStart preds;
  retained ← for_each (upto 1 m) (λ r d, v ← idx vertex d; s ← idx (shallow g) v; set_idx r d s)
    (replicate (Z.to_nat m) 0);
  retained ← for_each (downto 1 m) (retainStep idom) retained;
  reachable ← idx retained 0;
  '(start, children) ← dominatorChildren idom;
  classes ← aggregateClasses g vertex retained start children;
  Ok {| Graph := g; TotalShallowBytes := total; ReachableObjects := m - 1; ReachableBytes := reachable;
        s_dfnum := dfnum; s_vertex := vertex; s_idom := idom; retained := retained;
        childStart := start; children := children; classes := classes |}.

(** ** Queries *)

Definition Retained (s : RetainedSnapshot) (i : Z) : outcome Z :=
  d ← idx (s_dfnum s) i; if 0 <? d then idx (retained s) d else Ok 0.
Definition Reachable (s : RetainedSnapshot) (i : Z) : outcome bool :=
  d ← idx (s_dfnum s) i; Ok (0 <? d).
Definition ImmediateDominator (s : RetainedSnapshot) (i : Z) : outcome (Z * bool) :=
  d ← idx (s_dfnum s) i;
  if d <=? 0 then Ok (-1, false) else
  p ← idx (s_idom s) d;
  if p =? 0 then Ok (-1, false) else
  p' ← idx (s_idom s) d; v ← idx (s_vertex s) p'; Ok (v, true).

End Dominators.

(** ** Facts *)

Module DominatorFacts.
Export Dominators GraphFacts CSRFacts DFSFacts.

Lemma for_each_ext {A S} (l : list A) (f f' : S → A → outcome S) s :
  (∀ s x, x ∈ l → f s x = f' s x) → for_each l f s = for_each l f' s.
Proof.
  revert s. induction l as [|x l IH]; intros s Hf; cbn; [done|]. rewrite Hf by set_solver.
  destruct (f' s x); cbn; [|done..]. apply IH. set_solver.
Qed.
Lemma for_each_fmap {A B S} (h : A → B) (l : list A) (f : S → B → outcome S) s :
  for_each (h <$> l) f s = for_each l (λ s x, f s (h x)) s.
Proof. revert s. induction l as [|x l IH]; intros s; cbn; [done|]. destruct (f s (h x)); cbn; [|done..]. apply IH. Qed.
Lemma for_each_bind {A B S} (h : A → list B) (l : list A) (f : S → B → outcome S) s :
  for_each (l ≫= h) f s = for_each l (λ s x, for_each (h x) f s) s.
Proof.
  revert s. induction l as [|x l IH]; intros s; [done|]. rewrite bind_cons, for_each_app. cbn.
  destruct (for_each (h x) f s); cbn; [|done..]. apply IH.
Qed.

(** One call on both sides of an equation of runs. *)
Ltac case_run :=
  match goal with |- (?x ≫= _) = _ => destruct x; cbn [mbind outcome_bind]; [|done..] end.

Lemma out_row g v : graph_ok g → 0 <= v < Len g → Out g v = Ok (row g v).
Proof.
  intros G Hv. pose proof (go_start _ G). destruct (go_rows _ G v Hv). unfold Out. rewrite !idx_get by lia. cbn. by rewrite slice_ok by lia.
Qed.

(** ** Retained sizes *)

Section Retain.
Context (m : Z) (idom : list Z) (W : Z → Z).
Hypothesis (Hm : 0 < m) (Hlen : len idom = m) (Hidom : ∀ v, 0 < v < m → 0 <= get idom v < v).
Local Abbreviation anc := (anc m (get idom)).

(** The nodes whose sizes have reached [d] when the nodes from [k] on are done. *)
Definition gathered (k d e : Z) : Prop := (e = d ∧ 0 < d) ∨ ∃ c, k <= c < m ∧ get idom c = d ∧ anc c e.
Definition retain_inv (k : Z) (r : list Z) : Prop :=
  len r = m ∧ ∀ d, 0 <= d < m → ∃ L, NoDup L ∧ (∀ e, e ∈ L ↔ gathered k d e) ∧ get r d = i64 (sum_over W L).

Lemma gathered_done k d e : 1 <= k <= d + 1 → 0 < d < m → gathered k d e ↔ anc d e.
Proof.
  intros Hk Hd. split.
  - intros [[-> _]|(c & Hc & He & Ha)]; [constructor|]. eapply tree_trans; [|done].
    apply anc_par; [lia|rewrite He; constructor].
  - intros Ha. destruct (decide (d = e)) as [->|Hne]; [left; lia|right]. destruct (tree_child d e Ha Hne) as (c & Hc & He & Hce).
    exists c. pose proof (Hidom c Hc). split_and!; [lia..|done|done].
Qed.
Lemma retainStep_spec d r : 1 <= d < m → retain_inv (d + 1) r → runs (retainStep idom r d) (retain_inv d).
Proof.
  intros Hd [Hr Hinv]. pose proof (Hidom d ltac:(lia)) as Hp. set (p := get idom d) in *.
  destruct (Hinv d ltac:(lia)) as (Ld & Nd & Ed & Sd). destruct (Hinv p ltac:(lia)) as (Lp & Np & Ep & Sp).
  unfold retainStep. do 3 (apply runs_bind, runs_idx; [lia|]). apply runs_set_idx; [lia|]. fold p.
  split; [by rewrite len_put|]. intros x Hx. destruct (decide (x = p)) as [->|Hne].
  - exists (Lp ++ Ld). split_and!.
    + apply NoDup_app. split_and!; [done| |done]. intros e He1 He2. apply Ep in He1. apply Ed, gathered_done in He2; [|lia..].
      destruct He1 as [[-> _]|(c & Hc & Hcp & Hce)]; [apply (tree_le Hidom) in He2; lia|].
      apply (tree_siblings Hidom c d e); try done; lia.
    + intros e. rewrite elem_of_app, Ep, Ed, (gathered_done (d + 1) d e) by lia. unfold gathered. split.
      * intros [[?|(c & Hc & Hcp & Hce)]|Ha]; [by left|right; exists c; split_and!; [lia..|done|done]|right; exists d; split_and!; [lia..|done|done]].
      * intros [?|(c & Hc & Hcp & Hce)]; [left; by left|]. destruct (decide (c = d)) as [->|]; [by right|left; right].
        exists c. split_and!; [lia..|done|done].
    + rewrite get_put_eq by lia. rewrite Sd, Sp, sum_over_app. apply i64_add_mod.
  - destruct (Hinv x Hx) as (L & NL & EL & SL). exists L. rewrite get_put_ne by lia. split_and!; [done| |done].
    intros e. rewrite EL. unfold gathered. split.
    + intros [?|(c & Hc & Hcp & Hce)]; [by left|right; exists c; split_and!; [lia..|done|done]].
    + intros [?|(c & Hc & Hcp & Hce)]; [by left|right]. exists c. destruct (decide (c = d)) as [->|]; [done|].
      split_and!; [lia..|done|done].
Qed.
(** The sums over the subtrees of the tree of immediate dominators. *)
Lemma retain_spec r0 : len r0 = m → (∀ d, 0 < d < m → get r0 d = i64 (W d)) → get r0 0 = 0 →
  runs (for_each (downto 1 m) (retainStep idom) r0)
    (λ r, len r = m ∧ ∀ d, 0 <= d < m → ∃ L, NoDup L ∧ (∀ e, e ∈ L ↔ 0 < e < m ∧ anc d e) ∧ get r d = i64 (sum_over W L)).
Proof.
  intros Hl Hw H0. eapply runs_mono; [apply (runs_for_downto retain_inv); [lia|..]|].
  - split; [done|]. intros d Hd. destruct (decide (d = 0)) as [->|Hne].
    + exists []. split_and!; [constructor| |by rewrite H0]. intros e. unfold gathered. split; [set_solver|]. intros [[??]|(c & Hc & _)]; lia.
    + exists [d]. split_and!; [apply NoDup_singleton| |rewrite Hw by lia; cbn; f_equal; lia]. intros e. unfold gathered. rewrite list_elem_of_singleton.
      split; [intros ->; left; lia|]. intros [[??]|(c & Hc & _)]; lia.
  - intros d r Hd. by apply retainStep_spec.
  - cbv beta. intros r [Hr Hinv]. split; [done|]. intros d Hd. destruct (Hinv d Hd) as (L & NL & EL & SL). exists L.
    split_and!; [done| |done]. intros e. rewrite EL. unfold gathered. split.
    + intros [[-> ?]|(c & Hc & Hcp & Hce)]; [split; [lia|constructor]|]. pose proof (tree_le Hidom _ _ Hce).
      assert (0 < e < m) as He by (inversion Hce; lia). split; [done|]. eapply tree_trans; [|done]. apply anc_par; [lia|]. rewrite Hcp. constructor.
    + intros [He Ha]. destruct (decide (d = e)) as [->|Hne]; [left; lia|right]. destruct (tree_child d e Ha Hne) as (c & Hc & Hcp & Hce).
      exists c. split_and!; [lia..|done|done].
Qed.
End Retain.

Section Graph.
Context (g : ObjectGraph) (G : graph_ok g) (num vert par : list Z) (D : dfs_result g num vert par).
Local Abbreviation m := (len vert).
Local Abbreviation flow := (flow g vert).

(** ** The reverse graph *)

(** The edges in preorder numbers, target first, in the order of the loops. *)
Definition edge_list : list (Z * Z) :=
  (upto 1 m ≫= λ d, (λ w, (get num w, d)) <$> row g (get vert d)) ++ ((λ r, (get num r, 0)) <$> roots g).

Lemma over_edges_eq {S} (f : S → Z → Z → outcome S) (h : S → Z * Z → outcome S) s :
  (∀ s w d, 0 <= w < Len g → 0 < d < m → f s w d = h s (get num w, d)) →
  over_edges g vert f s = for_each (upto 1 m ≫= λ d, (λ w, (get num w, d)) <$> row g (get vert d)) h s.
Proof.
  intros Hf. unfold over_edges. rewrite for_each_bind. apply for_each_ext. intros s' d Hd%elem_of_upto.
  destruct (dr_vertex _ _ _ _ D d) as [Hv _]; [lia|]. rewrite idx_get by lia. cbn. rewrite (out_row g _ G Hv). cbn.
  rewrite for_each_fmap. apply for_each_ext. intros s'' w Hw. apply Hf; [by eapply (row_range g G)|lia].
Qed.
Lemma num_pos v : 0 <= v < Len g → 0 < get num v → 0 < get num v < m.
Proof. intros Hv Hn. destruct (dr_num _ _ _ _ D v Hv) as [|[? _]]; lia. Qed.
Lemma edge_list_range e : e ∈ edge_list → 0 <= e.1 < m.
Proof.
  intros [He|He]%elem_of_app.
  - apply list_elem_of_bind in He as (d & He & Hd%elem_of_upto). apply list_elem_of_fmap in He as (w & -> & Hw). cbn.
    destruct (dr_vertex _ _ _ _ D d) as [Hv Hn]; [lia|]. pose proof (row_range g G _ _ Hv Hw).
    assert (0 < get num w) by (eapply (dr_closed _ _ _ _ D); [apply Hv|lia|done]). pose proof (num_pos w). lia.
  - apply list_elem_of_fmap in He as (r & -> & Hr). cbn. pose proof (go_roots _ G r Hr).
    pose proof (num_pos r ltac:(done) (dr_roots _ _ _ _ D r Hr)). lia.
Qed.
Lemma edge_list_flow w v : v ∈ (into edge_list w).*2 ↔ flow v w.
Proof.
  unfold into. rewrite list_elem_of_fmap. split.
  - intros ([t d] & -> & [Ht He]%list_elem_of_filter). cbn in *. subst t.
    pose proof (edge_list_range _ He) as Hr. cbn in Hr. apply elem_of_app in He as [He|He].
    + apply list_elem_of_bind in He as (d' & He & Hd%elem_of_upto). apply list_elem_of_fmap in He as (x & [= -> ->] & Hx).
      destruct (dr_vertex _ _ _ _ D d') as [Hv Hn]; [lia|]. pose proof (row_range g G _ _ Hv Hx) as Hxr.
      assert (0 < get num x) by (eapply (dr_closed _ _ _ _ D); [apply Hv|lia|done]).
      destruct (dr_num _ _ _ _ D x Hxr) as [|[? Hxn]]; [lia|]. split; [lia|right]. rewrite Hxn. split; [lia|done].
    + apply list_elem_of_fmap in He as (r & [= -> ->] & Hroot). pose proof (go_roots _ G r Hroot) as Hrr.
      pose proof (dr_roots _ _ _ _ D r Hroot). destruct (dr_num _ _ _ _ D r Hrr) as [|[? Hrn]]; [lia|].
      split; [lia|left]. by rewrite Hrn.
  - intros [Hw Hc]. destruct (dr_vertex _ _ _ _ D w Hw) as [Hwv Hwn]. exists (w, v). split; [done|]. apply list_elem_of_filter. split; [done|].
    apply elem_of_app. destruct Hc as [[-> Hr]|[Hv Hin]]; [right|left].
    + apply list_elem_of_fmap. exists (get vert w). by rewrite Hwn.
    + apply list_elem_of_bind. exists v. split; [|apply elem_of_upto; lia]. apply list_elem_of_fmap. exists (get vert w). by rewrite Hwn.
Qed.
Lemma edge_list_len : len edge_list < 2 ^ 62 + 2 ^ 32.
Proof.
  unfold edge_list. rewrite len_app. assert (len ((λ r, (get num r, 0)) <$> roots g) <= Len g) as Hr.
  { unfold len at 1. rewrite length_fmap. pose proof (range_length (roots g) (Len g) (go_roots_nodup _ G) (go_roots _ G) (len_nonneg _)).
    pose proof (len_nonneg (ids g)). unfold Len in *. lia. }
  pose proof (dr_len _ _ _ _ D). pose proof (go_len _ G).
  assert (∀ l, (∀ d, d ∈ l → 0 < d < m) → len (l ≫= λ d, (λ w, (get num w, d)) <$> row g (get vert d)) <= len l * maxGraphEdges) as Hb.
  { induction l as [|d l IH]; intros Hin; [done|]. rewrite bind_cons, len_app, len_cons.
    assert (len ((λ w, (get num w, d)) <$> row g (get vert d)) <= maxGraphEdges).
    { unfold len at 1. rewrite length_fmap. apply (go_row_len _ G). apply (dr_vertex _ _ _ _ D). apply Hin. set_solver. }
    specialize (IH ltac:(set_solver)). unfold maxGraphEdges in *. lia. }
  specialize (Hb (upto 1 m) ltac:(intros d ?%elem_of_upto; lia)).
  assert (len (upto 1 m) = m - 1) as Hu by (unfold len at 1, upto; rewrite length_seqZ; lia). rewrite Hu in Hb.
  unfold maxGraphEdges, maxGraphObjects in *. nia.
Qed.
(** The rows of [predecessors] are the predecessors. *)
Lemma predecessors_spec : runs (predecessors g num vert) (λ r, LTFacts.csr m flow r.1 r.2).
Proof.
  pose proof (dr_len _ _ _ _ D). pose proof edge_list_len as Hlen. pose proof (dr_num_len _ _ _ _ D).
  assert (∀ r, r ∈ roots g → idx num r = Ok (get num r)) as Hroot by (intros r Hr%(go_roots _ G); apply idx_get; lia).
  eapply runs_mono; [|intros r Hr; exact Hr].
  pose proof (csr_build i64 m edge_list ltac:(lia) edge_list_range) as Hb.
  destruct Hb as (r & Hrun & H1 & H2 & H3 & H4 & H5).
  { intros z Hz. apply i64_small. lia. }
  exists r. split.
  - rewrite <-Hrun. unfold predecessors, edge_list. rewrite for_each_app.
    rewrite (over_edges_eq (λ start w _, dw ← idx num w; countEdge i64 start dw) (λ s e, countEdge i64 s e.1)).
    2: { intros s w d Hw Hd. by rewrite idx_get by lia. }
    case_run. rewrite for_each_fmap. rewrite (for_each_ext (roots g) _ (λ s x, countEdge i64 s (get num x))).
    2: { intros s r' Hr'. by rewrite Hroot. }
    cbn [fst]. do 4 case_run. rewrite for_each_app.
    rewrite (over_edges_eq (λ st w d, dw ← idx num w; fillEdge i64 st (dw, i32 d)) (fillEdge i64)).
    2: { intros s w d Hw Hd. rewrite idx_get by lia. cbn. pose proof (go_len _ G). unfold maxGraphObjects in *. by rewrite i32_small by lia. }
    case_run. rewrite for_each_fmap. rewrite (for_each_ext (roots g) _ (λ s x, fillEdge i64 s (get num x, 0))); [done|].
    intros s r' Hr'. by rewrite Hroot.
  - split; [done|intros w Hw; destruct (H5 w Hw) as (? & ? & _); split; [done|lia]|].
    intros w v Hw. destruct (H5 w Hw) as (_ & _ & ->). apply edge_list_flow.
Qed.
End Graph.
End DominatorFacts.
