(* ===== verification/HeapClasses.v ===== *)
(** * Retained sizes by class

    [dominatorChildren] and [aggregateClasses] of
    [src/internal/heap/dominators.go]: the walk over the dominator tree that
    credits a class with the retained size of an instance when no dominator of
    the instance is of the same class.  The theorem of the file: the credit of a
    class is the size of all objects that some instance of the class dominates,
    each counted once. *)

From S2P Require Import Prelude Arrays GoRuntime Float64 HeapGraph DomTheory HeapLT HeapCSR HeapDFS HeapDominators.

Module ClassFacts.
Export Dominators DominatorFacts.

(** ** The children of the dominator tree *)

(** Rows of children: the positions of a row hold the children of its node, and
    every node is at one position. *)
Record tree_rows (m : Z) (idom start children : list Z) : Prop := {
  tr_len : len start = m + 1;
  tr_bounds t : 0 <= t < m → 0 <= get start t <= get start (t + 1) ∧ get start (t + 1) <= len children;
  tr_child t k : 0 <= t < m → get start t <= k < get start (t + 1) →
    0 < get children k < m ∧ get idom (get children k) = t;
  tr_place d : 0 < d < m → ∃ k, get start (get idom d) <= k < get start (get idom d + 1) ∧ get children k = d;
  tr_inj k k' : 0 <= k < len children → 0 <= k' < len children → get children k = get children k' → k = k';
}.

Lemma dominatorChildren_spec m idom : len idom = m → 0 < m → m <= 2 ^ 31 → (∀ v, 0 < v < m → 0 <= get idom v < v) →
  runs (dominatorChildren idom) (λ r, tree_rows m idom r.1 r.2).
Proof.
  intros Hlen Hm Hmax Hidom. set (es := (λ d, (get idom d, d)) <$> upto 1 m).
  assert (len es = m - 1) as Hes by (unfold es, len, upto; rewrite length_fmap, length_seqZ; lia).
  destruct (csr_build i32 m es) as (r & Hrun & H1 & H2 & H3 & H4 & H5).
  - lia.
  - intros e (d & -> & Hd%elem_of_upto)%list_elem_of_fmap. cbn. pose proof (Hidom d ltac:(lia)). lia.
  - intros z Hz. apply i32_small. lia.
  - exists r. split.
    + rewrite <-Hrun. unfold dominatorChildren, es. rewrite Hlen. rewrite for_each_fmap.
      rewrite (for_each_ext (upto 1 m) _ (λ s d, countEdge i32 s (get idom d))).
      2: { intros s d Hd%elem_of_upto. by rewrite idx_get by lia. }
      cbn [fst]. do 4 case_run. rewrite for_each_fmap. rewrite (for_each_ext (upto 1 m) _ (λ s d, fillEdge i32 s (get idom d, d))); [done|].
      intros s d Hd%elem_of_upto. rewrite idx_get by lia. cbn. by rewrite i32_small by lia.
    + assert (∀ t, (into es t).*2 = filter (λ d, get idom d = t) (upto 1 m)) as Hinto.
      { intros t. unfold into, es. generalize (upto 1 m). intros l. induction l as [|d l IH]; [done|].
        cbn [fmap list_fmap]. rewrite !filter_cons. cbn [fst]. case_decide; cbn [fmap list_fmap]; by rewrite IH. }
      assert (∀ t k, 0 <= t < m → get r.1 t <= k < get r.1 (t + 1) → 0 < get r.2 k < m ∧ get idom (get r.2 k) = t) as Hc.
      { intros t k Ht Hk. destruct (H5 t Ht) as (Hb1 & Hb2 & Hrow). rewrite Hinto in Hrow.
        assert (get r.2 k ∈ sub r.2 (get r.1 t) (get r.1 (t + 1))) as Hin by (apply elem_of_sub_get; [lia..|eauto]).
        rewrite Hrow in Hin. apply list_elem_of_filter in Hin as [Hp Hd%elem_of_upto]. lia. }
      split; [done| |done| |].
      * intros t Ht. destruct (H5 t Ht) as (? & ? & _). split; [done|lia].
      * intros d Hd. pose proof (Hidom d Hd). destruct (H5 (get idom d)) as (Hb1 & Hb2 & Hrow); [lia|]. rewrite Hinto in Hrow.
        apply (elem_of_sub_get r.2); [lia..|]. rewrite Hrow. apply list_elem_of_filter. split; [done|]. apply elem_of_upto. lia.
      * intros k k' Hk Hk' He. rewrite H2 in Hk, Hk'.
        destruct (row_cover (get r.1) m k) as (t & Ht & Hkt); [lia|done|by rewrite H4|].
        destruct (row_cover (get r.1) m k') as (t' & Ht' & Hkt'); [lia|done|by rewrite H4|].
        assert (t = t') as <- by (destruct (Hc t k Ht Hkt), (Hc t' k' Ht' Hkt'); congruence).
        destruct (H5 t Ht) as (Hb1 & Hb2 & Hrow). rewrite Hinto in Hrow.
        assert (NoDup (sub r.2 (get r.1 t) (get r.1 (t + 1)))) as Hnd by (rewrite Hrow; apply NoDup_filter, NoDup_seqZ).
        rewrite NoDup_get in Hnd. rewrite len_sub in Hnd by lia.
        enough (k - get r.1 t = k' - get r.1 t) by lia. apply Hnd; [lia..|]. rewrite !get_sub by lia.
        replace (get r.1 t + (k - get r.1 t)) with k by lia. by replace (get r.1 t + (k' - get r.1 t)) with k' by lia.
Qed.

(** ** The walk *)

Section Walk.
Context (g : ObjectGraph) (G : graph_ok g) (m : Z) (vert retained idom start children : list Z).
Hypothesis (Hm : 0 < m) (Hmax : m <= 2 ^ 31 - 1) (Hvert : len vert = m) (Hret : len retained = m).
Hypothesis (Hrange : ∀ d, 0 < d < m → 0 <= get vert d < Len g).
Hypothesis (Hidom : ∀ v, 0 < v < m → 0 <= get idom v < v) (Rows : tree_rows m idom start children).
Local Abbreviation anc := (anc m (get idom)).
Local Abbreviation C := (len (classNames g)).
Definition cls (d : Z) : Z := get (class g) (get vert d).
Definition size (d : Z) : Z := get (shallow g) (get vert d).

Lemma cls_range d : 0 < d < m → 0 <= cls d < C.
Proof.
  intros Hd. pose proof (Hrange d Hd). pose proof (go_class _ G). apply (go_classes _ G), elem_of_get. exists (get vert d). split; [lia|done].
Qed.

(** An instance without a dominator of its class. *)
Definition topmost (x : Z) : Prop := ∀ a, anc a x → a ≠ x → a ≠ 0 → cls a ≠ cls x.
Definition of_class (c : Z) (T : list Z) : list Z := filter (λ d, cls d = c) T.
Definition entry_ok (T : list Z) (K : Z → list Z) (c : Z) (k : ClassRetained) : Prop :=
  cr_ClassName k = get (classNames g) c ∧ Instances k = i64 (len (of_class c T)) ∧
  ShallowBytes k = i64 (sum_over size (of_class c T)) ∧ RetainedBytes k = i64 (sum_over (get retained) (K c)) ∧ PercentOfHeap k = f0.

Fixpoint frames_path (s : list (Z * Z)) : Prop :=
  match s with
  | [] => True
  | (d, _) :: s => match s with [] => d = 0 | (p, _) :: _ => 0 < d < m ∧ get idom d = p end ∧ frames_path s
  end.
Definition on_frames (s : list (Z * Z)) (c : Z) : Z := len (filter (λ f : Z * Z, f.1 ≠ 0 ∧ cls f.1 = c) s).

(** [T] are the nodes entered, [K c] the ones credited to class [c]. *)
Record walk_inv (T : list Z) (K : Z → list Z) (classes : list ClassRetained) (onPath : list Z) (s : list (Z * Z)) : Prop := {
  wi_nodup : NoDup T;
  wi_range x : x ∈ T → 0 < x < m ∧ (get idom x = 0 ∨ get idom x ∈ T);
  wi_path : frames_path s;
  wi_frame d n : (d, n) ∈ s → 0 <= d < m ∧ (d = 0 ∨ d ∈ T) ∧ get start d <= n <= get start (d + 1) ∧
    (∀ k, get start d <= k < n → get children k ∈ T) ∧ (∀ k, n <= k < get start (d + 1) → get children k ∉ T);
  wi_done d : d = 0 ∨ d ∈ T → d ∉ s.*1 → ∀ k, get start d <= k < get start (d + 1) → get children k ∈ T;
  wi_onPath : len onPath = C ∧ ∀ c, 0 <= c < C → get onPath c = on_frames s c;
  wi_credit c : NoDup (K c) ∧ ∀ x, x ∈ K c ↔ x ∈ T ∧ cls x = c ∧ topmost x;
  wi_classes : len classes = C ∧ ∀ c, 0 <= c < C → entry_ok T K c (get classes c);
}.

(** The frames are the ancestors of the top frame. *)
Lemma frames_anc s d n : frames_path ((d, n) :: s) → ∀ x, x ∈ ((d, n) :: s).*1 ↔ anc x d.
Proof.
  revert d n. induction s as [|[p k] s IH]; intros d n.
  - intros [-> _] x. cbn. rewrite list_elem_of_singleton. split; [intros ->; constructor|]. inversion 1; [done|lia].
  - intros [[Hd Hp] Hs] x. change (((d, n) :: (p, k) :: s).*1) with (d :: ((p, k) :: s).*1). rewrite elem_of_cons, (IH p k Hs). split.
    + intros [->|Ha]; [constructor|]. apply anc_par; [done|]. by rewrite Hp.
    + intros Ha. inversion Ha as [|? ? Ha']; subst; [by left|by right].
Qed.
Lemma frames_nodup s : frames_path s → NoDup (s.*1) ∧ ∀ d n r, s = (d, n) :: r → ∀ x, x ∈ r.*1 → x < d.
Proof.
  induction s as [|[d n] s IH]; intros Hs; [split; [constructor|done]|].
  assert (∀ x, x ∈ s.*1 → x < d) as Hlt.
  { destruct s as [|[p k] s]; [set_solver|]. destruct Hs as [[Hd Hp] Hs]. intros x Hx%(frames_anc s p k Hs).
    apply (tree_le Hidom) in Hx. pose proof (Hidom d Hd). lia. }
  destruct Hs as [_ Hs]. destruct (IH Hs) as [Hn _]. split; [|intros ??? [= -> -> ->]; done].
  cbn. apply NoDup_cons. split; [|done]. intros Hx%Hlt. lia.
Qed.
Lemma on_frames_bound s c : frames_path s → (∀ d n, (d, n) ∈ s → 0 <= d < m) → on_frames s c <= m - 1.
Proof.
  intros Hs Hr. destruct (frames_nodup s Hs) as [Hn _]. unfold on_frames.
  assert (Nat.le (length (filter (λ f : Z * Z, f.1 ≠ 0 ∧ cls f.1 = c) s)) (length (upto 1 m))) as Hl.
  { rewrite <-(length_fmap fst). apply submseteq_length, NoDup_submseteq.
    - assert (sublist (fst <$> filter (λ f : Z * Z, f.1 ≠ 0 ∧ cls f.1 = c) s) (fst <$> s)) as Hsub.
      { clear. induction s as [|f s IH]; [done|]. rewrite filter_cons. case_decide; cbn; by constructor. }
      eapply sublist_NoDup; done.
    - intros x ([d n] & -> & [[Hd _] Hin]%list_elem_of_filter)%list_elem_of_fmap. cbn in *. apply elem_of_upto. specialize (Hr d n Hin). lia. }
  unfold upto in Hl. rewrite length_seqZ in Hl. unfold len. lia.
Qed.

Lemma on_frames_cons d n s c : on_frames ((d, n) :: s) c = (if decide (d ≠ 0 ∧ cls d = c) then 1 else 0) + on_frames s c.
Proof. unfold on_frames. rewrite filter_cons. cbn [fst]. case_decide; rewrite ?len_cons; lia. Qed.
Lemma on_frames_0 s c : on_frames s c = 0 ↔ ∀ d, d ∈ s.*1 → d ≠ 0 → cls d ≠ c.
Proof.
  unfold on_frames. split.
  - intros Hl d ([d' n] & -> & Hin)%list_elem_of_fmap Hd Hc. cbn in *.
    assert ((d', n) ∈ filter (λ f : Z * Z, f.1 ≠ 0 ∧ cls f.1 = c) s) as Hf by (by apply list_elem_of_filter).
    destruct (filter _ s); [set_solver|]. rewrite len_cons in Hl. pose proof (len_nonneg l). lia.
  - intros Hno. rewrite filter_none; [done|]. intros [d n] Hin [Hd Hc]. cbn in *. apply (Hno d); [|done..].
    apply list_elem_of_fmap. by exists (d, n).
Qed.

(** Leaving a node. *)
Lemma leave_inv T K classes onPath d n s onPath' : walk_inv T K classes onPath ((d, n) :: s) → n = get start (d + 1) →
  len onPath' = C → (∀ c, 0 <= c < C → get onPath' c = on_frames s c) → walk_inv T K classes onPath' s.
Proof.
  intros I Hn Hl Ho. destruct I as [I1 I2 I3 I4 I5 I6 I7 I8]. destruct (I4 d n) as (Hd & Hdt & Hb & Hin & _); [by left|]. split; try done.
  - apply I3.
  - intros x k Hx. apply I4. by right.
  - intros x Hx Hnx k Hk. destruct (decide (x = d)) as [->|Hne]; [apply Hin; lia|]. apply (I5 x); [done| |done]. cbn. rewrite elem_of_cons. tauto.
Qed.

(** Entering the next child. *)
Section Enter.
Variables (T : list Z) (K : Z → list Z) (classes : list ClassRetained) (onPath : list Z) (d n : Z) (s : list (Z * Z)).
Hypothesis (I : walk_inv T K classes onPath ((d, n) :: s)) (Hn : n < get start (d + 1)).
Let x : Z := get children n.
Let K' (c : Z) : list Z := if decide (c = cls x ∧ get onPath c = 0) then K c ++ [x] else K c.

Lemma enter_child : 0 < x < m ∧ get idom x = d ∧ (x ∉ T) ∧ 0 <= d < m ∧ get start d <= n.
Proof.
  destruct (wi_frame _ _ _ _ _ I d n) as (Hd & _ & Hb & _ & Hout); [by left|].
  destruct (tr_child _ _ _ _ Rows d n Hd) as [Hx Hp]; [lia|]. split; [done|]. split; [done|]. split; [apply Hout; lia|]. lia.
Qed.
Lemma enter_topmost : topmost x ↔ get onPath (cls x) = 0.
Proof.
  destruct enter_child as (Hx & Hp & _ & Hd & _). rewrite (proj2 (wi_onPath _ _ _ _ _ I) (cls x) (cls_range x Hx)).
  rewrite on_frames_0. unfold topmost. split.
  - intros Ht a Ha Ha0. apply (frames_anc s d n (wi_path _ _ _ _ _ I)) in Ha. pose proof (tree_le Hidom _ _ Ha). pose proof (Hidom x Hx).
    apply Ht; [|lia|done]. apply anc_par; [done|]. by rewrite Hp.
  - intros Hf a Ha Hne Ha0. apply Hf; [|done]. apply (frames_anc s d n (wi_path _ _ _ _ _ I)).
    inversion Ha as [|? ? Ha']; subst; done.
Qed.
Lemma enter_pos t k : 0 <= t < m → get start t <= k < get start (t + 1) → get children k = x → k = n.
Proof.
  destruct enter_child as (_ & _ & _ & Hd & Hsn). intros Ht Hk He. destruct (tr_bounds _ _ _ _ Rows t Ht), (tr_bounds _ _ _ _ Rows d Hd).
  apply (tr_inj _ _ _ _ Rows); [lia..|done].
Qed.
Lemma enter_frame y k : (y, k) ∈ (x, get start x) :: (d, n + 1) :: s →
  0 <= y < m ∧ (y = 0 ∨ y ∈ T ++ [x]) ∧ get start y <= k <= get start (y + 1) ∧
  (∀ j, get start y <= j < k → get children j ∈ T ++ [x]) ∧ (∀ j, k <= j < get start (y + 1) → get children j ∉ T ++ [x]).
Proof.
  destruct enter_child as (Hx & Hp & Hnew & Hd & Hsn). destruct (tr_bounds _ _ _ _ Rows x) as [Hbx1 Hbx2]; [lia|].
  destruct (wi_frame _ _ _ _ _ I d n) as (_ & Hdt & Hb & Hin & Hout); [by left|].
  setoid_rewrite elem_of_app. setoid_rewrite list_elem_of_singleton. intros [[= -> ->]|[[= -> ->]|Hy]%elem_of_cons]%elem_of_cons.
  - split_and!; [lia|lia|by right; right|lia|lia|intros; lia|]. intros j Hj Hj'.
    destruct (tr_child _ _ _ _ Rows x j ltac:(lia) ltac:(lia)) as [_ He]. destruct Hj' as [Hj'|Hj'].
    + destruct (wi_range _ _ _ _ _ I _ Hj') as [_ Hpar]. rewrite He in Hpar. destruct Hpar; [lia|done].
    + rewrite Hj', Hp in He. pose proof (Hidom x Hx). lia.
  - split_and!; [lia|lia|tauto|lia|lia| |].
    + intros j Hj. destruct (decide (j = n)) as [->|]; [by right|]. left. apply Hin. lia.
    + intros j Hj [Hj'|Hj']; [apply (Hout j); [lia|done]|]. pose proof (enter_pos d j Hd ltac:(lia) Hj'). lia.
  - destruct (wi_frame _ _ _ _ _ I y k) as (Y1 & Y2 & Y3 & Y4 & Y5); [by right|]. split_and!; [lia|lia|tauto|lia|lia| |].
    + intros j Hj. left. by apply Y4.
    + intros j Hj [Hj'|Hj']; [by apply (Y5 j)|]. pose proof (enter_pos y j Y1 ltac:(lia) Hj'). subst j.
      destruct (tr_child _ _ _ _ Rows y n Y1 ltac:(lia)) as [_ He]. fold x in He. rewrite Hp in He. subst y.
      destruct (frames_nodup _ (wi_path _ _ _ _ _ I)) as [_ Hlt]. specialize (Hlt d n s eq_refl d). assert (d < d); [|lia].
      apply Hlt, list_elem_of_fmap. by exists (d, k).
Qed.
Lemma enter_credit c : NoDup (K' c) ∧ ∀ y, y ∈ K' c ↔ y ∈ T ++ [x] ∧ cls y = c ∧ topmost y.
Proof.
  destruct enter_child as (_ & _ & Hnew & _). destruct (wi_credit _ _ _ _ _ I c) as [K1 K2]. unfold K'.
  destruct (decide (c = cls x ∧ get onPath c = 0)) as [[-> H0]|Hno].
  - pose proof (proj2 enter_topmost H0). split.
    + apply NoDup_app. split_and!; [done| |apply NoDup_singleton]. intros y Hy ->%list_elem_of_singleton. apply K2 in Hy as [? _]. done.
    + intros y. rewrite !elem_of_app, K2, !list_elem_of_singleton. split; [|tauto].
      intros [?| ->]; [tauto|]. split; [by right|done].
  - split; [done|]. intros y. rewrite K2, elem_of_app, list_elem_of_singleton. split; [tauto|].
    intros [[?| ->] [Hc Ht]]; [done|]. destruct Hno. split; [done|]. rewrite <-Hc. by apply enter_topmost.
Qed.
Lemma enter_classes c k' : 0 <= c < C →
  (c ≠ cls x → k' = get classes c) →
  (c = cls x → k' = addInstance (get classes c) (size x) (if get onPath c =? 0 then get retained x else 0)) →
  entry_ok (T ++ [x]) K' c k'.
Proof.
  intros Hc Ho Hx. destruct (wi_classes _ _ _ _ _ I) as [_ I8]. specialize (I8 c Hc). unfold entry_ok, of_class, K' in *.
  rewrite !filter_app, !len_app, sum_over_app, (filter_cons _ x []). destruct (decide (c = cls x)) as [->|Hne].
  - rewrite Hx by done. rewrite (decide_True (P := cls x = cls x)) by done. destruct I8 as (E1 & E2 & E3 & E4 & E5). unfold addInstance. cbn.
    rewrite E2, E3, E4. change (list_filter (λ d0, cls d0 = cls x) _ []) with (@nil Z). rewrite len_cons, len_nil.
    split_and!; [done| | | |done]; [apply i64_add|rewrite i64_add; f_equal; lia|].
    destruct (get onPath (cls x) =? 0) eqn:E; to_prop.
    + rewrite decide_True by done. rewrite sum_over_app. cbn. rewrite i64_add. f_equal. lia.
    + rewrite decide_False by tauto. rewrite i64_add. f_equal. lia.
  - rewrite Ho by done. rewrite (decide_False (P := cls x = c)) by done. rewrite decide_False by tauto. cbn. rewrite !Z.add_0_r. done.
Qed.
Lemma enter_inv classes' onPath' : len classes' = C → len onPath' = C →
  (∀ c, 0 <= c < C → c ≠ cls x → get classes' c = get classes c ∧ get onPath' c = get onPath c) →
  get onPath' (cls x) = get onPath (cls x) + 1 →
  get classes' (cls x) = addInstance (get classes (cls x)) (size x) (if get onPath (cls x) =? 0 then get retained x else 0) →
  walk_inv (T ++ [x]) K' classes' onPath' ((x, get start x) :: (d, n + 1) :: s).
Proof.
  intros Hcl Hol Hother Hox Hcx. destruct enter_child as (Hx & Hp & Hnew & Hd & Hsn).
  destruct (wi_frame _ _ _ _ _ I d n) as (_ & Hdt & _); [by left|]. split.
  - apply NoDup_app. split_and!; [apply I| |apply NoDup_singleton]. intros y Hy ->%list_elem_of_singleton. done.
  - intros y. rewrite !elem_of_app, !list_elem_of_singleton. intros [Hy| ->]; [destruct (wi_range _ _ _ _ _ I y Hy) as [? ?]; split; [done|tauto]|].
    split; [done|]. rewrite Hp. tauto.
  - split; [done|]. exact (wi_path _ _ _ _ _ I).
  - apply enter_frame.
  - intros y Hy Hny k Hk. cbn in Hny. rewrite !elem_of_cons in Hny. rewrite elem_of_app, list_elem_of_singleton in *.
    left. apply (wi_done _ _ _ _ _ I y); [tauto| |done]. cbn. rewrite elem_of_cons. tauto.
  - split; [done|]. intros c Hc. rewrite !on_frames_cons. destruct (wi_onPath _ _ _ _ _ I) as [_ I6]. specialize (I6 c Hc). rewrite on_frames_cons in I6.
    destruct (decide (c = cls x)) as [->|Hne].
    + rewrite Hox, I6. rewrite (decide_True (P := x ≠ 0 ∧ cls x = cls x)) by lia. lia.
    + destruct (Hother c Hc Hne) as [_ ->]. rewrite I6, (decide_False (P := x ≠ 0 ∧ cls x = c)) by lia. lia.
  - apply enter_credit.
  - split; [done|]. intros c Hc. apply enter_classes; [done|intros Hne; by apply Hother|by intros ->].
Qed.
End Enter.

Lemma aggLoop_spec fuel : ∀ T K classes onPath s, walk_inv T K classes onPath s →
  2 * (m - 1 - len T) + len s < Z.of_nat fuel →
  runs (aggLoop fuel g vert retained start children classes onPath s) (λ cs, ∃ T' K' onPath', walk_inv T' K' cs onPath' []).
Proof.
  induction fuel as [|fuel IH]; intros T K classes onPath s I Hf.
  { exfalso. assert (len T <= m - 1); [|pose proof (len_nonneg s); lia].
    assert (Nat.le (length T) (length (upto 1 m))) as Hl.
    { apply submseteq_length, NoDup_submseteq; [apply I|]. intros x Hx%(wi_range _ _ _ _ _ I). apply elem_of_upto. lia. }
    unfold upto, len in *. rewrite length_seqZ in Hl. lia. }
  cbn [aggLoop]. destruct s as [|[d n] s]; [apply runs_ok; eauto|].
  destruct (wi_frame _ _ _ _ _ I d n) as (Hd & Hdt & Hb & Hin & Hout); [by left|].
  destruct (tr_bounds _ _ _ _ Rows d Hd) as [Hb1 Hb2]. pose proof (tr_len _ _ _ _ Rows).
  destruct (wi_onPath _ _ _ _ _ I) as [Hol Ho]. destruct (wi_classes _ _ _ _ _ I) as [Hcl _].
  pose proof (go_class _ G). pose proof (go_shallow _ G).
  assert (∀ d' n', (d', n') ∈ (d, n) :: s → 0 <= d' < m) as Hfr by (intros d' n' Hdn; apply (wi_frame _ _ _ _ _ I) in Hdn; lia).
  assert (∀ c, 0 <= get onPath c → 0 <= c < C → get onPath c <= m - 1) as Hob.
  { intros c _ Hc. rewrite Ho by done. by apply on_frames_bound; [apply I|]. }
  apply runs_bind, runs_idx; [lia|]. apply runs_if; intros He; to_prop.
  - (* leave *)
    apply runs_bind. destruct (decide (d = 0)) as [->|Hne].
    + cbn. apply runs_ok. apply (IH T K); [|rewrite len_cons in Hf; lia]. eapply leave_inv; [done|done|done|].
      intros c Hc. rewrite Ho, on_frames_cons by done. rewrite decide_False by tauto. lia.
    + rewrite (proj2 (Z.eqb_neq _ _)) by done. cbn [negb]. pose proof (Hrange d ltac:(lia)). pose proof (cls_range d ltac:(lia)) as Hc.
      do 2 (apply runs_bind, runs_idx; [lia|]). fold (cls d). apply runs_bind, runs_idx; [lia|]. apply runs_set_idx; [lia|].
      assert (get onPath (cls d) = 1 + on_frames s (cls d)) as Hon by (rewrite Ho, on_frames_cons by done; by rewrite decide_True by done).
      pose proof (len_nonneg (filter (λ f : Z * Z, f.1 ≠ 0 ∧ cls f.1 = cls d) s)) as Hnn. fold (on_frames s (cls d)) in Hnn.
      pose proof (Hob (cls d) ltac:(lia) Hc). rewrite i32_small by lia.
      apply (IH T K); [|rewrite len_cons in Hf; lia]. eapply leave_inv; [done|done|by rewrite len_put|].
      intros c Hc'. destruct (decide (c = cls d)) as [->|Hnc]; [rewrite get_put_eq by lia; lia|].
      rewrite get_put_ne by lia. rewrite Ho, on_frames_cons by done. rewrite decide_False by (intros [_ ?]; congruence). lia.
  - (* enter *)
    assert (n < get start (d + 1)) as Hn by lia. destruct (enter_child T K classes onPath d n s I Hn) as (Hx & Hp & Hnew & _ & _).
    apply runs_bind, runs_idx; [lia|]. set (x := get children n) in *. pose proof (Hrange x Hx). pose proof (cls_range x Hx) as Hc.
    do 2 (apply runs_bind, runs_idx; [lia|]). fold (cls x). do 3 (apply runs_bind, runs_idx; [lia|]). fold (size x).
    set (o := get onPath (cls x)). assert (0 <= o) as Ho0 by (unfold o; rewrite Ho by done; apply len_nonneg).
    pose proof (Hob (cls x) Ho0 Hc) as Hom. fold o in Hom.
    assert ((if o =? 0 then idx retained x else Ok 0) = Ok (if o =? 0 then get retained x else 0)) as -> by (destruct (o =? 0); [apply idx_get; lia|done]).
    apply runs_bind, runs_ok, runs_bind, runs_set_idx; [lia|]. apply runs_bind, runs_set_idx; [lia|].
    apply runs_bind, runs_idx; [lia|]. rewrite i32_small by lia.
    eapply IH; [eapply (enter_inv T K classes onPath d n s I Hn); rewrite ?len_put; try done|].
    + intros c Hc' Hne. fold x in Hne. by rewrite !get_put_ne by lia.
    + fold x. rewrite get_put_eq by lia. done.
    + fold x. rewrite get_put_eq by lia. done.
    + rewrite len_snoc. rewrite !len_cons in *. lia.
Qed.

(** Every node is entered. *)
Lemma walk_complete T K classes onPath : walk_inv T K classes onPath [] → T ≡ₚ upto 1 m.
Proof.
  intros I. apply NoDup_Permutation; [apply I|apply NoDup_seqZ|]. intros x. rewrite elem_of_upto. split.
  - intros Hx%(wi_range _ _ _ _ _ I). lia.
  - intros Hx. assert (0 <= x) as H0 by lia. revert x H0 Hx. refine (Zlt_0_ind _ _). intros x IH _ Hx.
    destruct (tr_place _ _ _ _ Rows x) as (k & Hk & He); [lia|]. pose proof (Hidom x ltac:(lia)).
    rewrite <-He. apply (wi_done _ _ _ _ _ I (get idom x)); [|cbn; set_solver|done].
    destruct (decide (get idom x = 0)); [by left|right; apply IH; lia].
Qed.

(** The totals of each class. *)
Lemma aggregateClasses_totals : runs (aggregateClasses g vert retained start children) (λ cs, len cs = C ∧ ∀ c, 0 <= c < C → 
  let k := get cs c in cr_ClassName k = get (classNames g) c ∧ Instances k = i64 (len (of_class c (upto 1 m))) ∧
  ShallowBytes k = i64 (sum_over size (of_class c (upto 1 m))) ∧
  ∃ L, NoDup L ∧ (∀ x, x ∈ L ↔ 0 < x < m ∧ cls x = c ∧ topmost x) ∧ RetainedBytes k = i64 (sum_over (get retained) L)).
Proof.
  pose proof (tr_len _ _ _ _ Rows). unfold aggregateClasses. apply runs_bind, runs_idx; [lia|].
  assert (∀ c, 0 <= c < C → get (replicate (length (classNames g)) 0) c = 0) as Hrep.
  { intros c Hc. apply get_lookup, lookup_replicate_2. unfold len in Hc. lia. }
  eapply runs_mono; [apply (aggLoop_spec _ [] (λ _, []))|].
  - destruct (tr_bounds _ _ _ _ Rows 0) as [Hb1 Hb2]; [lia|]. split.
    + constructor.
    + by intros x Hx%not_elem_of_nil.
    + done.
    + intros d n [= -> ->]%list_elem_of_singleton. split_and!; [lia..|by left|lia|lia|intros; lia|]. intros k _ Hk. by apply not_elem_of_nil in Hk.
    + intros d [->|Hd%not_elem_of_nil] Hn; [|done]. destruct Hn. by left.
    + split; [unfold len; by rewrite length_replicate|]. intros c Hc. rewrite Hrep, on_frames_cons by done.
      rewrite decide_False by tauto. done.
    + intros c. split; [constructor|set_solver].
    + split; [unfold len; by rewrite length_fmap|]. intros c Hc. rewrite get_fmap by done. done.
  - unfold len. cbn. unfold len in Hvert. lia.
  - intros cs (T & K & onPath' & I). pose proof (walk_complete _ _ _ _ I) as HT. destruct (wi_classes _ _ _ _ _ I) as [Hl He].
    split; [done|]. intros c Hc. destruct (He c Hc) as (E1 & E2 & E3 & E4 & _). cbn. split_and!; [done| | |].
    + rewrite E2. unfold len, of_class. by rewrite HT.
    + rewrite E3. f_equal. apply sum_over_perm. unfold of_class. by rewrite HT.
    + exists (K c). destruct (wi_credit _ _ _ _ _ I c) as [K1 K2]. split_and!; [done| |done]. intros x. rewrite K2, HT, elem_of_upto. split; (intros (Hx & ?); split; [lia|done]).
Qed.

(** ** What a class retains *)

(** Above an instance of a class there is a topmost one. *)
Lemma topmost_above c y : 0 <= y < m →
  (∃ x, anc x y ∧ 0 < x ∧ cls x = c ∧ topmost x) ∨ (∀ a, anc a y → a ≠ 0 → cls a ≠ c).
Proof.
  intros Hy. assert (0 <= y) as H0 by lia. revert y H0 Hy. refine (Zlt_0_ind _ _). intros y IH _ Hy.
  destruct (decide (y = 0)) as [->|Hne]; [right; intros a Ha; inversion Ha; lia|].
  pose proof (Hidom y ltac:(lia)). destruct (IH (get idom y)) as [(x & Hx & Hx0 & Hc & Ht)|Hno]; [lia..| |].
  - left. exists x. split_and!; [by apply anc_par; [lia|]|done..].
  - assert (∀ a, anc a y → a ≠ y → a ≠ 0 → cls a ≠ c) as Habove.
    { intros a Ha Hay Ha0. inversion Ha as [|? ? Ha']; subst; [done|]. by apply Hno. }
    destruct (decide (cls y = c)) as [Hc|Hc].
    + left. exists y. split_and!; [constructor|lia|done|]. intros a Ha Hay Ha0. rewrite Hc. by apply Habove.
    + right. intros a Ha Ha0. destruct (decide (a = y)) as [->|]; [done|by apply Habove].
Qed.

Context (W : Z → Z).
Hypothesis (Hsums : ∀ d, 0 <= d < m → ∃ L, NoDup L ∧ (∀ e, e ∈ L ↔ 0 < e < m ∧ anc d e) ∧ get retained d = i64 (sum_over W L)).

(** The subtrees of nodes that are not below each other. *)
Lemma union_sum L : NoDup L → (∀ x, x ∈ L → 0 < x < m) → (∀ x y, x ∈ L → y ∈ L → anc x y → x = y) →
  ∃ U, NoDup U ∧ (∀ e, e ∈ U ↔ 0 < e < m ∧ ∃ x, x ∈ L ∧ anc x e) ∧ i64 (sum_over (get retained) L) = i64 (sum_over W U).
Proof.
  induction 1 as [|x L Hx HL IH]; intros Hr Hanti.
  - exists []. split_and!; [constructor| |done]. intros e. split; [set_solver|]. intros (_ & y & Hy & _). set_solver.
  - destruct IH as (U & NU & EU & SU); [intros; apply Hr; by right|intros; apply Hanti; [by right|by right|done]|].
    destruct (Hsums x) as (Lx & Nx & Ex & Sx); [specialize (Hr x ltac:(by left)); lia|].
    exists (Lx ++ U). split_and!.
    + apply NoDup_app. split_and!; [done| |done]. intros e He1 He2. apply Ex in He1 as [_ Ha]. apply EU in He2 as (_ & y & Hy & Hb).
      assert (x = y) as ->; [|done]. destruct (tree_linear x y e Ha Hb) as [Hxy|Hyx].
      * apply Hanti; [by left|by right|done].
      * symmetry. apply Hanti; [by right|by left|done].
    + intros e. rewrite elem_of_app, Ex, EU. setoid_rewrite elem_of_cons. split.
      * intros [[? ?]|(? & y & ? & ?)]; (split; [done|]); [exists x; tauto|exists y; tauto].
      * intros (He & y & [->|Hy] & Ha); [by left|right; eauto].
    + cbn. rewrite sum_over_app, Sx. rewrite i64_add, <-(i64_add_r _ (sum_over (get retained) L)), SU, i64_add_r. done.
Qed.

(** Instances, sizes, and the size of what the instances dominate. *)
Lemma aggregateClasses_spec : runs (aggregateClasses g vert retained start children) (λ cs, len cs = C ∧ ∀ c, 0 <= c < C →
  let k := get cs c in cr_ClassName k = get (classNames g) c ∧ Instances k = i64 (len (of_class c (upto 1 m))) ∧
  ShallowBytes k = i64 (sum_over size (of_class c (upto 1 m))) ∧
  ∃ U, NoDup U ∧ (∀ e, e ∈ U ↔ 0 < e < m ∧ ∃ x, 0 < x < m ∧ cls x = c ∧ anc x e) ∧ RetainedBytes k = i64 (sum_over W U)).
Proof.
  eapply runs_mono; [apply aggregateClasses_totals|]. cbv beta. intros cs (Hl & Hcs). split; [done|]. intros c Hc.
  destruct (Hcs c Hc) as (E1 & E2 & E3 & L & NL & EL & SL). cbv zeta in *. split_and!; [done..|].
  destruct (union_sum L NL) as (U & NU & EU & SU).
  - intros x Hx%EL. tauto.
  - intros x y (Hx & Hxc & Hxt)%EL (Hy & Hyc & Hyt)%EL Ha. destruct (decide (x = y)) as [|Hne]; [done|].
    destruct (Hyt x Ha Hne); [lia|congruence].
  - exists U. split_and!; [done| |congruence]. intros e. rewrite EU. split.
    + intros (He & x & Hx%EL & Ha). split; [done|]. exists x. tauto.
    + intros (He & x & Hx & Hxc & Ha). split; [done|]. destruct (topmost_above c x ltac:(lia)) as [(t & Ht & Ht0 & Htc & Htt)|Hno].
      * exists t. pose proof (tree_le Hidom _ _ Ht). split; [apply EL; split_and!; [lia..|done|done]|]. by eapply tree_trans.
      * destruct (Hno x); [constructor|lia|done].
Qed.
End Walk.
End ClassFacts.
