(* ===== verification/HeapRetained.v ===== *)
(** * The retained-size analysis

    The result of [ComputeRetained] in terms of the objects of the heap, and the
    ranking of [src/internal/heap/dominators.go]: [RankRetained], the bounded
    min-heap of [topRetained] with the operations of [container/heap], and
    [rankClasses].  The theorems: an object dominates another when every
    reference path from a GC root to the other goes through it, and the snapshot
    holds exactly the reachable objects, their immediate dominators, and the
    size of what each object dominates; and the ranking is the sorted list of
    the largest objects. *)

From S2P Require Import Prelude Arrays GoStrings GoRuntime Float64 HeapGraph DomTheory HeapLT HeapCSR HeapDFS HeapDominators HeapClasses.

Module RetainedFacts.
Export Dominators DominatorFacts ClassFacts.

(** ** Dominance between objects *)

(** A reference path from a GC root. *)
Inductive root_path (g : ObjectGraph) : list Z → Z → Prop :=
| rp_root r : r ∈ roots g → root_path g [r] r
| rp_edge l u v : root_path g l u → v ∈ row g u → root_path g (l ++ [v]) v.
Definition dominates (g : ObjectGraph) (i j : Z) : Prop := ∀ l, root_path g l j → i ∈ l.
(** [d] is the immediate dominator of [j]. *)
Definition immediate (g : ObjectGraph) (j d : Z) : Prop :=
  dominates g d j ∧ d ≠ j ∧ ∀ i, dominates g i j → i ≠ j → dominates g i d.

Section Objects.
Context (g : ObjectGraph) (G : graph_ok g) (num vert par : list Z) (D : dfs_result g num vert par).
Local Abbreviation m := (len vert).
Local Abbreviation flow := (flow g vert).

Lemma root_path_reachable l v : root_path g l v → reachable g v ∧ ∀ x, x ∈ l → reachable g x.
Proof.
  induction 1 as [r Hr|l u v Hl [IHu IH] Hv].
  - assert (reachable g r) by by apply reach_root. split; [done|]. by intros x ->%list_elem_of_singleton.
  - assert (reachable g v) by by eapply reach_edge. split; [done|]. intros x [Hx| ->%list_elem_of_singleton]%elem_of_app; auto.
Qed.
Lemma reachable_path v : reachable g v → ∃ l, root_path g l v.
Proof. induction 1 as [r Hr|u v Hu (l & Hl) Hv]; [exists [r]; by constructor|]. exists (l ++ [v]). by econstructor. Qed.
Lemma num_vert v : reachable g v → 0 < get num v < m ∧ get vert (get num v) = v.
Proof.
  intros Hr. pose proof (reachable_range g G v Hr) as Hv. pose proof (proj2 (numbered_reachable g G _ _ _ v D Hv) Hr).
  destruct (dr_num _ _ _ _ D v Hv) as [|[? ?]]; [lia|done].
Qed.
Lemma vert_reachable d : 0 < d < m → reachable g (get vert d) ∧ get num (get vert d) = d.
Proof.
  intros Hd. destruct (dr_vertex _ _ _ _ D d Hd) as [Hv Hn]. split; [|done]. apply (numbered_reachable g G _ _ _ _ D Hv). lia.
Qed.

(** Paths of objects are paths of numbers from the virtual root. *)
Lemma path_of_root_path l v : root_path g l v → path flow 0 (get num v) (0 :: (get num <$> l)).
Proof.
  induction 1 as [r Hr|l u v Hl IH Hv].
  - destruct (num_vert r) as [Hn Hvn]; [by apply reach_root|]. econstructor; [|constructor]. split; [lia|left]. by rewrite Hvn.
  - rewrite fmap_app. change (0 :: (get num <$> l) ++ (get num <$> [v])) with ((0 :: (get num <$> l)) ++ [get num v]).
    eapply path_snoc; [done|]. destruct (root_path_reachable l u Hl) as [Hu _]. destruct (num_vert u Hu) as [Hun Huv].
    destruct (num_vert v) as [Hvn Hvv]; [by eapply reach_edge|]. split; [lia|right]. by rewrite Huv, Hvv.
Qed.
Lemma root_path_of_path a d l : path flow a d l → 0 < d < m →
  (0 < a < m → ∀ k, root_path g k (get vert a) → ∃ l', l = a :: l' ∧ root_path g (k ++ (get vert <$> l')) (get vert d)) ∧
  (a = 0 → ∃ l', l = 0 :: l' ∧ root_path g (get vert <$> l') (get vert d)).
Proof.
  induction 1 as [a|a b d l He Hp IH]; intros Hd.
  - split; [intros _ k Hk; exists []; by rewrite app_nil_r|lia].
  - destruct IH as [IH _]; [done|]. destruct He as [Hb He]. split.
    + intros Ha k Hk. destruct He as [[-> _]|[_ Hin]]; [lia|]. destruct (IH Hb (k ++ [get vert b])) as (l' & -> & Hl'); [by econstructor|].
      exists (b :: l'). split; [done|]. by rewrite <-app_assoc in Hl'.
    + intros ->. destruct He as [[_ Hr]|[? _]]; [|lia]. destruct (IH Hb [get vert b]) as (l' & -> & Hl'); [by constructor|].
      exists (b :: l'). done.
Qed.
Lemma dominates_dom i j : reachable g i → reachable g j → dominates g i j ↔ dom flow (get num i) (get num j).
Proof.
  intros Hi Hj. destruct (num_vert i Hi) as [Hin Hiv]. destruct (num_vert j Hj) as [Hjn Hjv]. split.
  - intros Hd l Hl. destruct (proj2 (root_path_of_path _ _ _ Hl Hjn) eq_refl) as (l' & -> & Hp). rewrite Hjv in Hp.
    specialize (Hd _ Hp). apply list_elem_of_fmap in Hd as (x & Hx & Hxl). right.
    assert (0 < x < m) as Hxr.
    { assert (∀ a b l, path flow a b l → ∀ x, x ∈ l → x = a ∨ 0 < x < m) as Hrange.
      { clear. induction 1 as [u|u v w l He Hp IH]; intros x; [set_solver|]. intros [->|Hx]%elem_of_cons; [by left|right].
        destruct He as [Hv _]. destruct (IH x Hx) as [->|]; done. }
      inversion Hl as [|u y ? ? He' Hp']; [lia|]. subst. destruct He' as [Hy _]. destruct (Hrange _ _ _ Hp' x Hxl) as [->|]; done. }
    rewrite Hx. destruct (vert_reachable x Hxr) as [_ ->]. done.
  - intros Hd l Hl. specialize (Hd _ (path_of_root_path _ _ Hl)). apply elem_of_cons in Hd as [|Hd]; [lia|].
    apply list_elem_of_fmap in Hd as (x & Hx & Hxl). destruct (root_path_reachable l j Hl) as [_ Hr].
    destruct (num_vert x (Hr x Hxl)) as [_ Hxv]. by rewrite <-Hiv, Hx, Hxv.
Qed.
Lemma dominates_reachable i j : reachable g j → dominates g i j → reachable g i.
Proof. intros Hj Hd. destruct (reachable_path j Hj) as (l & Hl). apply (proj2 (root_path_reachable _ _ Hl)). by apply Hd. Qed.

Context (idom : list Z) (Hidom : ∀ v, 0 < v < m → is_idom flow v (get idom v)).

Lemma idom_range v : 0 < v < m → 0 <= get idom v < v.
Proof. intros Hv. apply (idom_before (dr_tree _ _ _ _ D)); [done|]. by apply Hidom. Qed.
Lemma dominates_anc i j : reachable g i → reachable g j → dominates g i j ↔ anc m (get idom) (get num i) (get num j).
Proof.
  intros Hi Hj. rewrite dominates_dom by done. apply (dom_iff_anc (dr_tree _ _ _ _ D)); [done|]. pose proof (num_vert j Hj). lia.
Qed.
(** The object the immediate dominator of a node stands for. *)
Lemma immediate_idom j : reachable g j → get idom (get num j) ≠ 0 → immediate g j (get vert (get idom (get num j))).
Proof.
  intros Hj Hne. destruct (num_vert j Hj) as [Hjn Hjv]. pose proof (idom_range _ Hjn) as Hp. destruct (Hidom _ Hjn) as (H1 & H2 & H3).
  destruct (vert_reachable (get idom (get num j))) as [Hr Hn]; [lia|]. split_and!.
  - apply dominates_dom; [done..|]. by rewrite Hn.
  - intros He. rewrite He in Hn. congruence.
  - intros i Hi Hij. pose proof (dominates_reachable i j Hj Hi) as Hir. apply dominates_dom in Hi; [|done..].
    apply dominates_dom; [done..|]. rewrite Hn. apply H3; [done|]. intros He. destruct (num_vert i Hir) as [_ Hiv]. congruence.
Qed.
Lemma no_immediate j i : reachable g j → get idom (get num j) = 0 → dominates g i j → i = j.
Proof.
  intros Hj H0 Hi. pose proof (dominates_reachable i j Hj Hi) as Hir. apply dominates_anc in Hi; [|done..].
  destruct (num_vert j Hj) as [Hjn Hjv], (num_vert i Hir) as [Hin Hiv].
  inversion Hi as [He|? ? Ha]; [congruence|]. rewrite H0 in Ha. apply anc_zero in Ha. lia.
Qed.

(** Lists of numbers as lists of objects. *)
Lemma objects_of_nodes L (P : Z → Prop) : NoDup L → (∀ e, e ∈ L ↔ 0 < e < m ∧ P e) →
  NoDup (get vert <$> L) ∧ (∀ j, j ∈ (get vert <$> L) ↔ reachable g j ∧ P (get num j)) ∧
  sum_over (get (shallow g)) (get vert <$> L) = sum_over (λ d, get (shallow g) (get vert d)) L.
Proof.
  intros HL Hin. split_and!.
  - apply NoDup_fmap_2_strong; [|done]. intros x y Hx%Hin Hy%Hin He. destruct (vert_reachable x) as [_ <-]; [tauto|].
    destruct (vert_reachable y) as [_ <-]; [tauto|]. by rewrite He.
  - intros j. rewrite list_elem_of_fmap. split.
    + intros (e & -> & [He HP]%Hin). destruct (vert_reachable e He) as [? ->]. done.
    + intros [Hj HP]. destruct (num_vert j Hj) as [? ?]. exists (get num j). split; [done|]. by apply Hin.
  - clear. induction L as [|x L IH]; cbn; [done|]. by rewrite IH.
Qed.
End Objects.

(** ** The snapshot *)

(** Nothing but [i] itself dominates [i]. *)
Definition undominated (g : ObjectGraph) (i : Z) : Prop := reachable g i → ∀ d, dominates g d i → d = i.
Definition total_size (g : ObjectGraph) (L : list Z) : Z := sum_over (get (shallow g)) L.
(** [L] lists the objects with property [P], each once. *)
Definition lists (L : list Z) (P : Z → Prop) : Prop := NoDup L ∧ ∀ j, j ∈ L ↔ P j.

(** The totals of class [c]. *)
Definition class_totals (g : ObjectGraph) (c : Z) (k : ClassRetained) : Prop :=
  cr_ClassName k = get (classNames g) c ∧
  (∃ L, lists L (λ j, reachable g j ∧ get (class g) j = c) ∧
     Instances k = i64 (len L) ∧ ShallowBytes k = i64 (total_size g L)) ∧
  ∃ U, lists U (λ j, reachable g j ∧ ∃ i, reachable g i ∧ get (class g) i = c ∧ dominates g i j) ∧
    RetainedBytes k = i64 (total_size g U).

Record snapshot_ok (g : ObjectGraph) (s : RetainedSnapshot) : Prop := {
  so_graph : Graph s = g;
  so_total : TotalShallowBytes s = i64 (sum_over id (shallow g));
  so_reachable i : 0 <= i < Len g → ∃ b, Reachable s i = Ok b ∧ (b = true ↔ reachable g i);
  so_retained i : 0 <= i < Len g → ∃ L, lists L (λ j, reachable g j ∧ dominates g i j) ∧ Retained s i = Ok (i64 (total_size g L));
  so_idom i : 0 <= i < Len g →
    (∃ d, reachable g i ∧ immediate g i d ∧ ImmediateDominator s i = Ok (d, true)) ∨
    (undominated g i ∧ ImmediateDominator s i = Ok (-1, false));
  so_bytes : ∃ L, lists L (reachable g) ∧ ReachableBytes s = i64 (total_size g L) ∧ ReachableObjects s = len L;
  so_classes : len (classes s) = len (classNames g) ∧ ∀ c, 0 <= c < len (classNames g) → class_totals g c (get (classes s) c);
  so_vertex : len (s_vertex s) = ReachableObjects s + 1 ∧ len (retained s) = len (s_vertex s) ∧
    ∀ d, 0 < d < len (s_vertex s) → reachable g (get (s_vertex s) d) ∧ get (s_dfnum s) (get (s_vertex s) d) = d;
  so_numbers : len (s_dfnum s) = Len g ∧ ∀ i, reachable g i → 0 < get (s_dfnum s) i < len (s_vertex s) ∧ get (s_vertex s) (get (s_dfnum s) i) = i;
  so_tree : tree_rows (len (s_vertex s)) (s_idom s) (childStart s) (children s) ∧ len (s_idom s) = len (s_vertex s) ∧
    ∀ d, 0 < d < len (s_vertex s) → 0 <= get (s_idom s) d < d;
}.

Section Main.
Context (g : ObjectGraph) (G : graph_ok g) (num vert par : list Z) (D : dfs_result g num vert par).
Local Abbreviation m := (len vert).
Context (idom ret : list Z) (Hidom : ∀ v, 0 < v < m → is_idom (flow g vert) v (get idom v)).
Context (Hil : len idom = m) (Hrl : len ret = m).
Local Abbreviation W := (λ d, get (shallow g) (get vert d)).
Context (Hsums : ∀ d, 0 <= d < m → ∃ L, NoDup L ∧ (∀ e, e ∈ L ↔ 0 < e < m ∧ anc m (get idom) d e) ∧ get ret d = i64 (sum_over W L)).

Lemma num_cases i : 0 <= i < Len g → (0 < get num i ∧ reachable g i) ∨ (get num i = -1 ∧ ¬ reachable g i).
Proof.
  intros Hi. pose proof (numbered_reachable g G _ _ _ i D Hi) as Hr. destruct (dr_num _ _ _ _ D i Hi) as [Hn|[Hn _]]; [right|left]; split; try done.
  - rewrite <-Hr. lia.
  - lia.
  - apply Hr. lia.
Qed.
Lemma retained_objects i : reachable g i →
  ∃ L, lists L (λ j, reachable g j ∧ dominates g i j) ∧ get ret (get num i) = i64 (total_size g L).
Proof.
  intros Hi. destruct (num_vert g G num vert par D i Hi) as [Hin _]. destruct (Hsums (get num i)) as (L & NL & EL & SL); [lia|].
  destruct (objects_of_nodes g G num vert par D L (λ e, anc m (get idom) (get num i) e) NL EL) as (N & E & S).
  exists (get vert <$> L). split; [split; [done|]|unfold total_size; by rewrite SL, S]. intros j. rewrite E. split; intros [Hj Ha]; (split; [done|]).
  - by apply (dominates_anc g G num vert par D idom Hidom).
  - by apply (dominates_anc g G num vert par D idom Hidom) in Ha.
Qed.
Lemma all_objects : ∃ L, lists L (reachable g) ∧ get ret 0 = i64 (total_size g L) ∧ m - 1 = len L.
Proof.
  pose proof (dr_len _ _ _ _ D). destruct (Hsums 0) as (L & NL & EL & SL); [lia|].
  assert (∀ e, e ∈ L ↔ 0 < e < m ∧ True) as EL'.
  { intros e. rewrite EL. split; [tauto|]. intros [He _]. split; [done|]. apply tree_root; [|lia].
    intros v Hv. by apply (idom_range g num vert par D idom Hidom). }
  destruct (objects_of_nodes g G num vert par D L (λ _, True) NL EL') as (N & E & S).
  exists (get vert <$> L). split_and!; [split; [done|]; intros j; rewrite E; tauto|unfold total_size; by rewrite SL, S|].
  assert (L ≡ₚ upto 1 m) as Hp.
  { apply NoDup_Permutation; [done|apply NoDup_seqZ|]. intros x. rewrite EL', elem_of_upto. lia. }
  unfold len at 2. rewrite length_fmap, Hp. unfold upto. rewrite length_seqZ. lia.
Qed.
Lemma class_objects c k :
  cr_ClassName k = get (classNames g) c ∧ Instances k = i64 (len (of_class g vert c (upto 1 m))) ∧
  ShallowBytes k = i64 (sum_over (size g vert) (of_class g vert c (upto 1 m))) ∧
  (∃ U, NoDup U ∧ (∀ e, e ∈ U ↔ 0 < e < m ∧ ∃ x, 0 < x < m ∧ cls g vert x = c ∧ anc m (get idom) x e) ∧ RetainedBytes k = i64 (sum_over W U)) →
  class_totals g c k.
Proof.
  intros (E1 & E2 & E3 & U & NU & EU & SU). split_and!; [done|..].
  - set (L := of_class g vert c (upto 1 m)) in *.
    destruct (objects_of_nodes g G num vert par D L (λ e, cls g vert e = c)) as (N & E & S).
    { apply NoDup_filter, NoDup_seqZ. }
    { intros e. unfold L, of_class. rewrite list_elem_of_filter, elem_of_upto. split; intros [? ?]; split; lia. }
    exists (get vert <$> L). split_and!; [split; [done|]|unfold len; by rewrite length_fmap|unfold total_size; by rewrite E3, S].
    intros j. rewrite E. split; (intros [Hj Hc]; split; [done|]); destruct (num_vert g G num vert par D j Hj) as [_ Hjv]; unfold cls in *; congruence.
  - destruct (objects_of_nodes g G num vert par D U (λ e, ∃ x, 0 < x < m ∧ cls g vert x = c ∧ anc m (get idom) x e) NU EU) as (N & E & S).
    exists (get vert <$> U). split; [split; [done|]|unfold total_size; by rewrite SU, S]. intros j. rewrite E. split; (intros [Hj Hx]; split; [done|]).
    + destruct Hx as (x & Hx & Hc & Ha). destruct (vert_reachable g G num vert par D x Hx) as [Hr Hn]. exists (get vert x).
      split_and!; [done..|]. apply (dominates_anc g G num vert par D idom Hidom); [done..|]. by rewrite Hn.
    + destruct Hx as (i & Hi & Hc & Hd). destruct (num_vert g G num vert par D i Hi) as [Hin Hiv]. exists (get num i).
      split_and!; [lia..|unfold cls; by rewrite Hiv|]. by apply (dominates_anc g G num vert par D idom Hidom) in Hd.
Qed.
End Main.

Lemma sum_fold l t : fold_left (λ t s, i64 (t + s)) l (i64 t) = i64 (t + sum_over id l).
Proof.
  revert t. induction l as [|x l IH]; intros t; cbn; [f_equal; lia|]. rewrite i64_add, IH. f_equal. unfold id. lia.
Qed.
Lemma initial_sizes g num vert par : graph_ok g → dfs_result g num vert par →
  runs (for_each (upto 1 (len vert)) (λ r d, v ← idx vert d; s ← idx (shallow g) v; set_idx r d s) (replicate (Z.to_nat (len vert)) 0))
    (λ r, len r = len vert ∧ get r 0 = 0 ∧ ∀ d, 0 < d < len vert → get r d = get (shallow g) (get vert d)).
Proof.
  intros G D. pose proof (dr_len _ _ _ _ D). pose proof (go_shallow _ G).
  eapply runs_mono; [apply (runs_for_upto (λ k r, len r = len vert ∧ get r 0 = 0 ∧ ∀ d, 0 < d < k → get r d = get (shallow g) (get vert d)))|].
  - lia.
  - split_and!; [apply len_replicate; lia|apply get_replicate; lia|intros; lia].
  - intros k r Hk (Hl & Hr0 & Hd). destruct (dr_vertex _ _ _ _ D k) as [Hv _]; [lia|].
    do 2 (apply runs_bind, runs_idx; [lia|]). apply runs_set_idx; [lia|]. rewrite len_put. split_and!; [done|by rewrite get_put_ne by lia|].
    intros d Hd'. destruct (decide (d = k)) as [->|]; [by rewrite get_put_eq by lia|]. rewrite get_put_ne by lia. apply Hd. lia.
  - done.
Qed.

Lemma ComputeRetained_spec g : graph_ok g → runs (ComputeRetained g) (snapshot_ok g).
Proof.
  intros G. unfold ComputeRetained. apply runs_bind. eapply runs_mono; [apply (dfsPreorder_spec g G)|].
  intros [[num vert] par] D. cbn [fst snd] in D. apply runs_bind. eapply runs_mono; [apply (predecessors_spec g G num vert par D)|].
  intros [ps preds] Hcsr. cbn [fst snd] in Hcsr. pose proof (dr_len _ _ _ _ D). pose proof (go_len _ G). unfold maxGraphObjects in *.
  apply runs_bind. eapply runs_mono; [apply (LTFacts.lengauerTarjan_spec (dr_tree _ _ _ _ D) par ps preds (dr_par_len _ _ _ _ D) ltac:(done) Hcsr); lia|].
  cbv beta. intros idom (Hil & _ & Hidom). assert (∀ v, 0 < v < len vert → 0 <= get idom v < v) as Hir by (intros; by apply (idom_range g num vert par D idom Hidom)).
  apply runs_bind. eapply runs_mono; [by apply (initial_sizes g num vert par)|]. cbv beta. intros r0 (Hr0 & Hz & Hsz).
  apply runs_bind. eapply runs_mono; [apply (retain_spec (len vert) idom (λ d, get (shallow g) (get vert d)) ltac:(lia) Hil Hir r0 Hr0)|].
  { intros d Hd. rewrite Hsz by done. symmetry. apply (go_sizes _ G), elem_of_get. exists (get vert d).
    destruct (dr_vertex _ _ _ _ D d Hd). rewrite (go_shallow _ G). done. }
  { done. }
  cbv beta. intros ret (Hrl & Hsums). apply runs_bind, runs_idx; [lia|]. apply runs_bind.
  eapply runs_mono; [apply (dominatorChildren_spec (len vert) idom Hil ltac:(lia) ltac:(lia) Hir)|].
  intros [start ch] Rows. cbn [fst snd] in Rows. apply runs_bind.
  eapply runs_mono; [apply (aggregateClasses_spec g G (len vert) vert ret idom start ch ltac:(lia) ltac:(lia) eq_refl Hrl
    (λ d Hd, proj1 (dr_vertex _ _ _ _ D d Hd)) Hir Rows _ Hsums)|].
  cbv beta. intros cs (Hcl & Hcs). apply runs_ok. pose proof (dr_num_len _ _ _ _ D) as Hnl.
  split; cbn -[i64]; try done.
  - apply (sum_fold _ 0).
  - intros i Hi. unfold Reachable. cbn. rewrite idx_get by lia. cbn. eexists. split; [done|]. rewrite Z.ltb_lt. by apply (numbered_reachable g G _ _ _ i D).
  - intros i Hi. unfold Retained. cbn. rewrite idx_get by lia. cbn -[i64]. destruct (num_cases g G num vert par D i Hi) as [[Hn Hr]|[Hn Hr]].
    + destruct (retained_objects g G num vert par D idom ret Hidom Hsums i Hr) as (L & HL & SL). exists L. split; [done|].
      rewrite (proj2 (Z.ltb_lt _ _)) by lia. pose proof (num_vert g G num vert par D i Hr). rewrite idx_get by lia. by rewrite SL.
    + exists []. split; [|by rewrite Hn]. split; [constructor|]. intros j. split; [by intros ?%not_elem_of_nil|]. intros [Hj Hd].
      by apply (dominates_reachable g i j) in Hd.
  - intros i Hi. unfold ImmediateDominator. cbn. rewrite idx_get by lia. cbn -[Z.leb]. destruct (num_cases g G num vert par D i Hi) as [[Hn Hr]|[Hn Hr]].
    + rewrite (proj2 (Z.leb_gt _ _)) by lia. pose proof (num_vert g G num vert par D i Hr) as [Hnr _]. pose proof (Hir _ Hnr). rewrite idx_get by lia. cbn.
      destruct (Z.eqb_spec (get idom (get num i)) 0) as [Hz0|Hz0]; [right|left].
      * split; [|done]. intros _ d. by apply (no_immediate g G num vert par D idom Hidom).
      * rewrite idx_get by lia. cbn. exists (get vert (get idom (get num i))). split_and!; [done| |done].
        by apply (immediate_idom g G num vert par D idom Hidom).
    + right. split; [by intros ?|]. by rewrite Hn.
  - destruct (all_objects g G num vert par D idom ret Hidom Hsums) as (L & ? & ? & ?). eauto.
  - split; [done|]. intros c Hc. by apply (class_objects g G num vert par D idom Hidom), Hcs.
  - split_and!; [lia|done|]. intros d Hd. by apply (vert_reachable g G num vert par D).
  - split; [done|]. intros i Hi. by apply (num_vert g G num vert par D).
Qed.
End RetainedFacts.
