(* ===== verification/GoHeap.v ===== *)
(** * [container/heap]

    The operations of Go's binary heap that the repository uses: [Push] and
    [Fix] with their helpers [up] and [down], over a slice and a comparison.
    Each keeps the elements and restores the heap order, under which the first
    element is a least one. *)

From S2P Require Import Prelude Arrays GoRuntime.

Module GoHeap.

Section Ops.
Variable less : Z → Z → outcome bool.

Definition Swap (l : list Z) (i j : Z) : outcome (list Z) :=
  a ← idx l i; b ← idx l j; l ← set_idx l i b; set_idx l j a.
Definition Less (l : list Z) (i j : Z) : outcome bool := a ← idx l i; b ← idx l j; less a b.

(** Indices go to the parent, at most once per element. *)
Fixpoint up (fuel : nat) (l : list Z) (j : Z) : outcome (list Z) :=
  match fuel with
  | O => out_of_fuel
  | S fuel =>
    let i := (j - 1) `quot` 2 in
    if i =? j then Ok l else
    b ← Less l j i;
    if negb b then Ok l else l ← Swap l i j; up fuel l i
  end.
(** Indices go to a child; the result tells whether anything moved. *)
Fixpoint down (fuel : nat) (l : list Z) (i0 i n : Z) : outcome (list Z * bool) :=
  match fuel with
  | O => out_of_fuel
  | S fuel =>
    let j1 := 2 * i + 1 in
    if (n <=? j1) || (j1 <? 0) then Ok (l, i0 <? i) else
    let j2 := j1 + 1 in
    b ← (if j2 <? n then Less l j2 j1 else Ok false);
    let j := if (b : bool) then j2 else j1 in
    c ← Less l j i;
    if negb c then Ok (l, i0 <? i) else l ← Swap l i j; down fuel l i0 j n
  end.
Definition Push (l : list Z) (x : Z) : outcome (list Z) :=
  let l := l ++ [x] in up (S (length l)) l (len l - 1).
Definition Fix (l : list Z) (i : Z) : outcome (list Z) :=
  '(l, moved) ← down (S (length l)) l i i (len l);
  if negb moved then up (S (length l)) l i else Ok l.
End Ops.
End GoHeap.

Module GoHeapFacts.
Export GoHeap.

Section Facts.
Context (less : Z → Z → outcome bool) (lb : Z → Z → bool) (P : Z → Prop).
Hypothesis (Hless : ∀ a b, P a → P b → less a b = Ok (lb a b)) (Hsw : strict_weak lb).
Implicit Types (l : list Z) (i j k : Z).

Definition par (k : Z) : Z := (k - 1) / 2.
Definition heap (l : list Z) : Prop := ∀ k, 0 < k < len l → lb (get l k) (get l (par k)) = false.
Definition all_ok (l : list Z) : Prop := ∀ x, x ∈ l → P x.

Lemma par_range k : 0 < k → 0 <= par k < k.
Proof. intros Hk. unfold par. split; [apply Z.div_pos; lia|]. apply Z.div_lt_upper_bound; lia. Qed.
Lemma par_child k i : 0 < k → par k = i → k = 2 * i + 1 ∨ k = 2 * i + 2.
Proof. intros Hk Hp. unfold par in Hp. pose proof (Z.div_mod (k - 1) 2 ltac:(lia)). pose proof (Z.mod_pos_bound (k - 1) 2 ltac:(lia)). lia. Qed.
Lemma par_of_child i : 0 <= i → par (2 * i + 1) = i ∧ par (2 * i + 2) = i.
Proof.
  intros Hi. unfold par. replace (2 * i + 1 - 1) with (i * 2) by lia. replace (2 * i + 2 - 1) with (1 + i * 2) by lia.
  rewrite Z.div_mul, Z.div_add by lia. change (1 / 2) with 0. lia.
Qed.
Lemma lb_asym a b : lb a b = true → lb b a = false.
Proof. apply Hsw. Qed.
Lemma lb_trans a b c : lb b a = false → lb c b = false → lb c a = false.
Proof. apply (sw_trans _ Hsw). Qed.

Lemma heap_root l k : heap l → 0 <= k < len l → lb (get l k) (get l 0) = false.
Proof.
  intros Hh Hk. assert (0 <= k) as H0 by lia. revert k H0 Hk. refine (Zlt_0_ind _ _). intros k IH _ Hk.
  destruct (decide (k = 0)) as [->|]; [destruct (lb (get l 0) (get l 0)) eqn:E; [by rewrite (lb_asym _ _ E) in E|done]|].
  pose proof (par_range k ltac:(lia)). apply (lb_trans _ (get l (par k))); [apply IH; lia|apply Hh; lia].
Qed.

Definition swapped (l : list Z) (i j : Z) : list Z := put (put l i (get l j)) j (get l i).
Lemma Swap_ok l i j : 0 <= i < len l → 0 <= j < len l → Swap l i j = Ok (swapped l i j).
Proof. intros. unfold Swap. rewrite !idx_get by done. cbn. rewrite set_idx_put by done. cbn. by rewrite set_idx_put by (rewrite len_put; done). Qed.
Lemma swapped_perm l i j : 0 <= i < len l → 0 <= j < len l → swapped l i j ≡ₚ l.
Proof. intros. unfold swapped, put. apply Permutation_insert_swap; by apply lookup_get. Qed.
Lemma len_swapped l i j : len (swapped l i j) = len l.
Proof. unfold swapped. by rewrite !len_put. Qed.
Lemma get_swapped l i j k : 0 <= i < len l → 0 <= j < len l → 0 <= k → i ≠ j →
  get (swapped l i j) k = if decide (k = j) then get l i else if decide (k = i) then get l j else get l k.
Proof. intros. unfold swapped. rewrite get_put by (rewrite ?len_put; lia). case_decide; [done|]. by rewrite get_put by lia. Qed.
Lemma Less_ok l i j : all_ok l → 0 <= i < len l → 0 <= j < len l → Less less l i j = Ok (lb (get l i) (get l j)).
Proof. intros Hl Hi Hj. unfold Less. rewrite !idx_get by done. cbn. apply Hless; apply Hl, elem_of_get; eauto. Qed.

(** *** Moving up *)

(** The order fails at most between [j] and its parent. *)
Definition up_inv (l : list Z) (j : Z) : Prop :=
  (∀ k, 0 < k < len l → k ≠ j → lb (get l k) (get l (par k)) = false) ∧
  (0 < j → ∀ k, 0 < k < len l → par k = j → lb (get l k) (get l (par j)) = false).
Lemma up_swap l j : 0 < j < len l → up_inv l j → lb (get l j) (get l (par j)) = true → up_inv (swapped l (par j) j) (par j).
Proof.
  intros Hj [H1 H2] Hlt. pose proof (par_range j ltac:(lia)) as Hp. set (i := par j) in *.
  assert (∀ k, 0 < k < len l → par k = i → k ≠ j → lb (get l k) (get l j) = false) as Hsib.
  { intros k Hk Hki Hkj. apply (lb_trans _ (get l i)); [by apply lb_asym|]. rewrite <-Hki. by apply H1. }
  split; rewrite len_swapped.
  - intros k Hk Hki. pose proof (par_range k ltac:(lia)). rewrite !get_swapped by lia.
    destruct (decide (k = j)) as [->|Hkj].
    + fold i. rewrite (decide_False (P := i = j)) by lia. rewrite decide_True by done. by apply lb_asym.
    + rewrite (decide_False (P := k = i)) by done. destruct (decide (par k = j)) as [He|Hne]; [apply H2; [lia|done..]|].
      destruct (decide (par k = i)) as [He|Hne']; [by apply Hsib|by apply H1].
  - intros Hi k Hk Hki. pose proof (par_range i ltac:(lia)). rewrite !get_swapped by lia.
    rewrite (decide_False (P := par i = j)), (decide_False (P := par i = i)) by lia.
    destruct (decide (k = j)) as [->|Hkj]; [apply H1; lia|]. pose proof (par_range k ltac:(lia)). rewrite decide_False by lia.
    apply (lb_trans _ (get l i)); [apply H1; lia|]. rewrite <-Hki. apply H1; [done|lia].
Qed.
Lemma up_spec fuel : ∀ l j, all_ok l → 0 <= j < len l → j < Z.of_nat fuel → up_inv l j →
  runs (up less fuel l j) (λ l', l' ≡ₚ l ∧ heap l').
Proof.
  induction fuel as [|fuel IH]; intros l j Hl Hj Hf [H1 H2]; [lia|]. cbn [up]. destruct (decide (j = 0)) as [->|Hne].
  - cbn. apply runs_ok. split; [done|]. intros k Hk. apply H1; lia.
  - rewrite Z.quot_div_nonneg by lia. fold (par j). pose proof (par_range j ltac:(lia)). rewrite (proj2 (Z.eqb_neq _ _)) by lia.
    rewrite Less_ok by (done || lia). apply runs_bind, runs_ok. destruct (lb (get l j) (get l (par j))) eqn:E; cbn [negb].
    + rewrite Swap_ok by lia. apply runs_bind, runs_ok. pose proof (swapped_perm l (par j) j ltac:(lia) ltac:(lia)) as Hp.
      eapply runs_mono; [apply IH|].
      * intros x Hx. rewrite Hp in Hx. by apply Hl.
      * rewrite len_swapped. lia.
      * lia.
      * apply up_swap; [lia|by split|done].
      * cbv beta. intros l' [Hl' Hh]. split; [by rewrite Hl'|done].
    + apply runs_ok. split; [done|]. intros k Hk. destruct (decide (k = j)) as [->|]; [done|by apply H1].
Qed.
Lemma Push_spec l x : all_ok (l ++ [x]) → heap l → runs (Push less l x) (λ l', l' ≡ₚ l ++ [x] ∧ heap l').
Proof.
  intros Hl Hh. unfold Push. pose proof (len_nonneg l). apply up_spec; rewrite ?len_snoc; [done|lia|rewrite length_app; unfold len; cbn; lia|]. split.
  - rewrite len_snoc. intros k Hk Hne. pose proof (par_range k ltac:(lia)). rewrite !get_app_l by lia. apply Hh. lia.
  - rewrite len_snoc. intros _ k Hk Hpk. pose proof (par_range k ltac:(lia)). lia.
Qed.

(** *** Moving down *)

(** The order fails at most between [i] and its children. *)
Definition down_inv (l : list Z) (i : Z) : Prop :=
  (∀ k, 0 < k < len l → par k ≠ i → lb (get l k) (get l (par k)) = false) ∧
  (0 < i → ∀ k, 0 < k < len l → par k = i → lb (get l k) (get l (par i)) = false).
Lemma down_swap l i j : 0 <= i → 0 < j < len l → par j = i → down_inv l i → lb (get l j) (get l i) = true →
  (∀ k, 0 < k < len l → par k = i → lb (get l k) (get l j) = false) → down_inv (swapped l i j) j.
Proof.
  intros Hi Hj Hp [H1 H2] Hlt Hmin. pose proof (par_range j ltac:(lia)). split; rewrite len_swapped.
  - intros k Hk Hpk. pose proof (par_range k ltac:(lia)). rewrite !get_swapped by lia. rewrite (decide_False (P := par k = j)) by done.
    destruct (decide (k = j)) as [->|Hkj]; [rewrite decide_True by done; by apply lb_asym|].
    destruct (decide (k = i)) as [->|Hki].
    + rewrite decide_False by lia. apply H2; [lia|done|done].
    + destruct (decide (par k = i)) as [He|Hne]; [by apply Hmin|by apply H1].
  - intros _ k Hk Hpk. pose proof (par_range k ltac:(lia)). rewrite !get_swapped by lia. rewrite Hp.
    rewrite (decide_False (P := k = j)), (decide_False (P := k = i)), (decide_False (P := i = j)), (decide_True (P := i = i)) by (done || lia).
    rewrite <-Hpk. apply H1; [done|lia].
Qed.
Lemma down_spec fuel : ∀ l i, all_ok l → 0 <= i < len l → len l - i < Z.of_nat fuel → down_inv l i →
  runs (down less fuel l 0 i (len l)) (λ r, r.1 ≡ₚ l ∧ heap r.1 ).
Proof.
  induction fuel as [|fuel IH]; intros l i Hl Hi Hf Hinv; [lia|]. cbn [down]. pose proof Hinv as [H1 H2].
  apply runs_if; intros Hb; to_prop.
  { apply runs_ok. split; [done|]. cbn. intros k Hk. apply H1; [done|]. intros Hp. apply par_child in Hp; [|lia].
    destruct Hb; to_prop; lia. }
  destruct (par_of_child i ltac:(lia)) as [Hp1 Hp2]. set (j1 := 2 * i + 1) in *.
  assert (∃ b, (if j1 + 1 <? len l then Less less l (j1 + 1) j1 else Ok false) = Ok b ∧
    let j := if b then j1 + 1 else j1 in 0 < j < len l ∧ par j = i ∧ ∀ k, 0 < k < len l → par k = i → lb (get l k) (get l j) = false) as (b & -> & Hj & Hpj & Hmin).
  { assert (∀ x, lb (get l x) (get l x) = false) as Hirr by (intros x; destruct (lb (get l x) (get l x)) eqn:E; [by rewrite (lb_asym _ _ E) in E|done]).
    destruct (Z.ltb_spec (j1 + 1) (len l)) as [Hlt|Hge].
    - rewrite Less_ok by (done || lia). eexists. split; [done|]. destruct (lb (get l (j1 + 1)) (get l j1)) eqn:E; cbn.
      + split_and!; [lia..|rewrite <-Hp2; f_equal; lia|]. intros k Hk Hpk. apply par_child in Hpk; [|lia]. fold j1 in Hpk.
        destruct Hpk as [->| ->]; [by apply lb_asym|]. replace (2 * i + 2) with (j1 + 1) by lia. done.
      + split_and!; [lia..|done|]. intros k Hk Hpk. apply par_child in Hpk; [|lia]. fold j1 in Hpk.
        destruct Hpk as [->| ->]; [done|]. by replace (2 * i + 2) with (j1 + 1) by lia.
    - exists false. split; [done|]. cbn. split_and!; [lia..|done|]. intros k Hk Hpk. apply par_child in Hpk; [|lia]. fold j1 in Hpk.
      destruct Hpk as [->| ->]; [done|lia]. }
  apply runs_bind, runs_ok. cbv zeta in *. set (j := if b then j1 + 1 else j1) in *. pose proof (par_range j ltac:(lia)).
  rewrite Less_ok by (done || lia). apply runs_bind, runs_ok. destruct (lb (get l j) (get l i)) eqn:E; cbn [negb].
  - rewrite Swap_ok by lia. apply runs_bind, runs_ok. pose proof (swapped_perm l i j ltac:(lia) ltac:(lia)) as Hp.
    rewrite <-(len_swapped l i j). eapply runs_mono; [apply IH|].
    + intros x Hx. rewrite Hp in Hx. by apply Hl.
    + rewrite len_swapped. lia.
    + rewrite len_swapped. lia.
    + apply down_swap; [lia..|done|done|done|done].
    + cbv beta. intros r [Hr Hh]. split; [by rewrite Hr|done].
  - apply runs_ok. split; [done|]. cbn. intros k Hk. destruct (decide (par k = i)) as [He|Hne]; [|by apply H1].
    rewrite He. apply (lb_trans _ (get l j)); [done|by apply Hmin].
Qed.
(** Replacing the first element. *)
Lemma Fix_spec l x : all_ok (put l 0 x) → 0 < len l → heap l → runs (Fix less (put l 0 x) 0) (λ l', l' ≡ₚ put l 0 x ∧ heap l').
Proof.
  intros Hl Hlen Hh. set (l1 := put l 0 x) in *. assert (len l1 = len l) as Hl1 by apply len_put.
  assert (down_inv l1 0) as Hinv.
  { split; [|lia]. intros k Hk Hp. pose proof (par_range k ltac:(lia)). unfold l1. rewrite !get_put_ne by lia. apply Hh. lia. }
  unfold Fix. apply runs_bind. eapply runs_mono; [apply (down_spec _ l1 0 Hl); [lia|unfold len; lia|done]|].
  intros [l2 moved] [Hp Hh2]. cbn [fst] in *. assert (len l2 = len l1) as Hl2 by (unfold len; by rewrite Hp).
  destruct moved; cbn [negb]; [by apply runs_ok|]. eapply runs_mono; [apply up_spec|].
  - intros y Hy. rewrite Hp in Hy. by apply Hl.
  - lia.
  - lia.
  - split; [|lia]. intros k Hk _. by apply Hh2.
  - cbv beta. intros l3 [Hl3 Hh3]. split; [by rewrite Hl3|done].
Qed.
End Facts.
End GoHeapFacts.
