(* ===== verification/HeapRank.v ===== *)
(** * Ranking by retained size

    [RankRetained] and its parts in [src/internal/heap/dominators.go]: the
    bounded min-heap of [topRetained] (on [container/heap], see [GoHeap]),
    [rankClasses] and [Dominators].  The theorem of the file: the reported
    objects are the first ones of all reachable objects in the order of their
    retained sizes, with ties by object id. *)

From S2P Require Import Prelude Arrays GoStrings GoRuntime Float64 HeapGraph DomTheory HeapLT HeapCSR HeapDFS HeapDominators HeapClasses HeapRetained GoHeap.

Module Rank.
Export Dominators.

Record RetainedSuspect := {
  rs_ID : Z; rs_ClassName : string; rs_ShallowBytes : Z; rs_RetainedBytes : Z; rs_PercentOfHeap : f64 }.
Record DominatorResult := {
  dr_TotalShallowBytes : Z; dr_ReachableObjects : Z; dr_ReachableBytes : Z;
  Suspects : list RetainedSuspect; Classes : list ClassRetained }.

Definition percentOf (s : RetainedSnapshot) (b : Z) : f64 :=
  if ReachableBytes s <=? 0 then f0 else fdiv (fmul (of_Z 100) (of_Z b)) (of_Z (ReachableBytes s)).

Definition suspect (s : RetainedSnapshot) (d : Z) : outcome RetainedSuspect :=
  obj ← idx (s_vertex s) d;
  id ← idx (ids (Graph s)) obj;
  name ← DisplayName (Graph s) obj;
  sh ← idx (shallow (Graph s)) obj;
  r ← idx (retained s) d;
  Ok {| rs_ID := id; rs_ClassName := name; rs_ShallowBytes := sh; rs_RetainedBytes := r; rs_PercentOfHeap := percentOf s r |}.

(** [retainedHeap.less] *)
Definition less (s : RetainedSnapshot) (a b : Z) : outcome bool :=
  ra ← idx (retained s) a; rb ← idx (retained s) b;
  if negb (ra =? rb) then Ok (ra <? rb) else
  va ← idx (s_vertex s) a; ia ← idx (ids (Graph s)) va;
  vb ← idx (s_vertex s) b; ib ← idx (ids (Graph s)) vb;
  Ok (ib <? ia).
(** The same as a comparison function for [sort.Slice], whose arguments are
    nodes of the snapshot. *)
Definition ranksBelow (s : RetainedSnapshot) (a b : Z) : bool :=
  let ra := get (retained s) a in let rb := get (retained s) b in
  if negb (ra =? rb) then ra <? rb else
  get (ids (Graph s)) (get (s_vertex s) b) <? get (ids (Graph s)) (get (s_vertex s) a).

(** One node of the selection: [items] is the heap of the current top set. *)
Definition topStep (s : RetainedSnapshot) (limit : Z) (items : list Z) (d : Z) : outcome (list Z) :=
  if len items <? limit then GoHeap.Push (less s) items d
  else if 0 <? limit then
    x ← idx items 0; b ← less s x d;
    if (b : bool) then items ← set_idx items 0 d; GoHeap.Fix (less s) items 0 else Ok items
  else Ok items.

Section Ranking.
Context `{GoRuntime}.

Definition topRetained (s : RetainedSnapshot) (limit : Z) : outcome (list Z) :=
  let n := len (s_vertex s) - 1 in
  let limit := if (limit <=? 0) || (n <? limit) then n else limit in
  items ← for_each (upto 1 (i32 n + 1)) (topStep s limit) [];
  Ok (sort_slice (λ a b, ranksBelow s b a) items).

Definition classLess (a b : ClassRetained) : bool :=
  if negb (RetainedBytes a =? RetainedBytes b) then RetainedBytes b <? RetainedBytes a
  else String.ltb (cr_ClassName a) (cr_ClassName b).
Definition withPercent (s : RetainedSnapshot) (c : ClassRetained) : ClassRetained :=
  {| cr_ClassName := cr_ClassName c; Instances := Instances c; ShallowBytes := ShallowBytes c;
     RetainedBytes := RetainedBytes c; PercentOfHeap := percentOf s (RetainedBytes c) |}.
Definition rankClasses (s : RetainedSnapshot) (limit : Z) : outcome (list ClassRetained) :=
  let out := withPercent s <$> List.filter (λ c, negb (Instances c =? 0)) (classes s) in
  let out := sort_slice classLess out in
  if (0 <? limit) && (limit <? len out) then slice out 0 limit else Ok out.

Definition RankRetained (s : RetainedSnapshot) (limit : Z) : outcome DominatorResult :=
  ds ← topRetained s limit;
  suspects ← map_each (suspect s) ds;
  cs ← rankClasses s limit;
  Ok {| dr_TotalShallowBytes := TotalShallowBytes s; dr_ReachableObjects := ReachableObjects s;
        dr_ReachableBytes := ReachableBytes s; Suspects := suspects; Classes := cs |}.

Definition Dominators (g : ObjectGraph) (topN : Z) : outcome DominatorResult :=
  s ← ComputeRetained g; RankRetained s topN.
End Ranking.
End Rank.

Module RankFacts.
Export Rank RetainedFacts.

Lemma StronglySorted_app_2 {A} (Q : A → A → Prop) l k :
  StronglySorted Q l → StronglySorted Q k → (∀ x y, x ∈ l → y ∈ k → Q x y) → StronglySorted Q (l ++ k).
Proof.
  induction 1 as [|x l Hl IH Hx]; intros Hk Hlk; [done|]. cbn. constructor.
  - apply IH; [done|]. intros y z Hy. apply Hlk. by right.
  - apply Forall_app. split; [done|]. apply Forall_forall. intros y. apply Hlk. by left.
Qed.

Section Snapshot.
Context {R : GoRuntime} {HR : RuntimeOk R} (g : ObjectGraph) (G : graph_ok g) (Hids : NoDup (ids g)) (s : RetainedSnapshot) (S : snapshot_ok g s).
Local Abbreviation m := (len (s_vertex s)).
Local Abbreviation rb := (ranksBelow s).
Definition node (d : Z) : Prop := 0 < d < m.

Lemma node_object d : node d → 0 <= get (s_vertex s) d < Len g ∧ reachable g (get (s_vertex s) d) ∧ get (s_dfnum s) (get (s_vertex s) d) = d.
Proof. intros Hd. destruct (so_vertex _ _ S) as (_ & _ & Hv). destruct (Hv d Hd) as [Hr Hn]. split; [by apply (reachable_range g G)|done]. Qed.
Lemma less_ok a b : node a → node b → less s a b = Ok (rb a b).
Proof.
  intros Ha Hb. destruct (so_vertex _ _ S) as (_ & Hrl & _). pose proof (so_graph _ _ S) as Hg. destruct (node_object a Ha) as [Hva _], (node_object b Hb) as [Hvb _].
  unfold less, ranksBelow, node, Len in *. rewrite !(idx_get (retained s)) by lia. cbn. destruct (_ =? _); cbn; [|done].
  rewrite Hg. rewrite !(idx_get (s_vertex s)) by lia. cbn. rewrite !idx_get by lia. done.
Qed.
Lemma ranksBelow_weak : strict_weak rb.
Proof.
  split; unfold ranksBelow; intros a b; [|intros c]; cbv zeta.
  - destruct (Z.eqb_spec (get (retained s) a) (get (retained s) b)) as [He|Hne], (Z.eqb_spec (get (retained s) b) (get (retained s) a)) as [He'|Hne']; cbn; try congruence; rewrite ?Z.ltb_lt, ?Z.ltb_ge; lia.
  - destruct (Z.eqb_spec (get (retained s) b) (get (retained s) a)), (Z.eqb_spec (get (retained s) c) (get (retained s) b)), (Z.eqb_spec (get (retained s) c) (get (retained s) a)); cbn; try congruence; rewrite ?Z.ltb_ge; lia.
Qed.
(** Different nodes have different ranks. *)
Lemma ranksBelow_total a b : node a → node b → a ≠ b → rb a b = false → rb b a = true.
Proof.
  intros Ha Hb Hne. destruct (node_object a Ha) as (Hva & _ & Hna), (node_object b Hb) as (Hvb & _ & Hnb).
  unfold ranksBelow. cbv zeta. destruct (Z.eqb_spec (get (retained s) a) (get (retained s) b)) as [He|Hn], (Z.eqb_spec (get (retained s) b) (get (retained s) a)) as [He'|Hn']; cbn; try congruence; rewrite ?Z.ltb_lt, ?Z.ltb_ge; [|lia].
  rewrite (so_graph _ _ S). intros Hle. assert (get (s_vertex s) a ≠ get (s_vertex s) b) as Hv by congruence.
  destruct (Z.lt_trichotomy (get (s_vertex s) a) (get (s_vertex s) b)) as [Hlt|[?|Hlt]]; [|done|].
  - apply (ids_strict g); (done || lia).
  - assert (get (ids g) (get (s_vertex s) b) < get (ids g) (get (s_vertex s) a)) by (apply (ids_strict g); (done || lia)). lia.
Qed.

(** ** The selection *)

(** After the nodes before [d]: a heap of the [min limit (d-1)] highest ones. *)
Definition top_inv (limit d : Z) (items : list Z) : Prop :=
  NoDup items ∧ (∀ x, x ∈ items → 0 < x < d) ∧ GoHeapFacts.heap rb items ∧ len items = Z.min limit (d - 1) ∧
  ∀ x y, x ∈ items → 0 < y < d → y ∉ items → rb y x = true.

Section Step.
Variables (limit d : Z) (items : list Z).
Hypothesis (Hd : node d) (Hinv : top_inv limit d items).

Lemma items_node x : x ∈ items → node x ∧ x ≠ d.
Proof. intros Hx. pose proof Hinv as (_ & Hr & _). specialize (Hr x Hx). unfold node in *. lia. Qed.
(** The heap is not full: all nodes so far are in it. *)
Lemma items_all : len items < limit → ∀ y, 0 < y < d → y ∈ items.
Proof.
  intros Hlt y Hy. pose proof Hinv as (Hnd & Hr & _ & Hl & _). assert (upto 1 d ≡ₚ items) as Hall.
  { symmetry. apply submseteq_length_Permutation; [apply NoDup_submseteq; [done|]; intros z Hz; apply elem_of_upto; specialize (Hr z Hz); lia|].
    unfold upto. rewrite length_seqZ. unfold len in *. lia. }
  rewrite <-Hall. apply elem_of_upto. lia.
Qed.
Lemma push_top l : len items < limit → l ≡ₚ items ++ [d] → GoHeapFacts.heap rb l → top_inv limit (d + 1) l.
Proof.
  intros Hlt Hp Hh. pose proof Hinv as (Hnd & Hr & _ & Hl & _).
  split_and!; [|intros x Hx; rewrite Hp in Hx|done|unfold len; rewrite Hp; fold (len (items ++ [d])); rewrite len_snoc; lia|].
  - rewrite Hp. apply NoDup_app. split_and!; [done| |apply NoDup_singleton]. intros x Hx ->%list_elem_of_singleton. by destruct (items_node d Hx).
  - apply elem_of_app in Hx as [Hx| ->%list_elem_of_singleton]; [specialize (Hr x Hx); lia|unfold node in *; lia].
  - intros x y _ Hy Hny. exfalso. apply Hny. rewrite Hp. apply elem_of_app. destruct (decide (y = d)) as [->|]; [right; by left|left].
    apply items_all; [done|lia].
Qed.

Context (Hfull : 0 < len items).
Local Abbreviation least := (get items 0).
Lemma least_in : least ∈ items.
Proof. apply elem_of_get. exists 0. split; [lia|done]. Qed.
Lemma least_min x : x ∈ items → x ≠ least → rb least x = true.
Proof.
  intros Hx Hne. apply ranksBelow_total; [by apply items_node|apply items_node, least_in|done|].
  apply elem_of_get in Hx as (k & Hk & <-). apply (GoHeapFacts.heap_root rb ranksBelow_weak); [apply Hinv|done].
Qed.
Lemma put_items x : x ∈ put items 0 d ↔ x = d ∨ (x ∈ items ∧ x ≠ least).
Proof.
  pose proof Hinv as (Hnd & _). rewrite elem_of_get, len_put. split.
  - intros (k & Hk & <-). destruct (decide (k = 0)) as [->|]; [left; by rewrite get_put_eq by lia|right]. rewrite get_put_ne by lia.
    split; [apply elem_of_get; eauto|]. intros He. rewrite NoDup_get in Hnd. specialize (Hnd k 0 Hk ltac:(lia) He). lia.
  - intros [->|[Hx Hne]]; [exists 0; rewrite get_put_eq by lia; split; [lia|done]|].
    apply elem_of_get in Hx as (k & Hk & <-). exists k. assert (k ≠ 0) by (intros ->; done). by rewrite get_put_ne by lia.
Qed.
(** The least item makes place for [d]. *)
Lemma replace_top l : limit <= len items → rb least d = true → l ≡ₚ put items 0 d → GoHeapFacts.heap rb l → top_inv limit (d + 1) l.
Proof.
  intros Hge E Hp Hh. pose proof Hinv as (Hnd & Hr & _ & Hl & Htop).
  split_and!; [|intros x Hx; rewrite Hp in Hx|done|unfold len; rewrite Hp; fold (len (put items 0 d)); rewrite len_put; unfold node in *; lia|].
  - rewrite Hp. apply NoDup_get. intros i j. rewrite len_put. intros Hi Hj. rewrite NoDup_get in Hnd.
    assert (∀ k, 0 <= k < len items → d ≠ get items k) as Hdk by (intros k Hk He; destruct (items_node (get items k)); [apply elem_of_get; eauto|congruence]).
    destruct (decide (i = 0)) as [->|], (decide (j = 0)) as [->|]; [done|..]; rewrite ?get_put_eq, ?get_put_ne by lia.
    + intros He. by destruct (Hdk j Hj).
    + intros He. by destruct (Hdk i Hi).
    + by apply Hnd.
  - apply put_items in Hx as [->|[Hx _]]; [unfold node in *; lia|specialize (Hr x Hx); lia].
  - intros x y Hx Hy Hny. rewrite Hp in Hx, Hny. rewrite put_items in Hny. apply put_items in Hx.
    assert (rb y least = true ∨ y = least) as Hy0.
    { destruct (decide (y = least)) as [|Hne]; [by right|left]. apply Htop; [apply least_in|destruct (decide (y = d)); [tauto|lia]|tauto]. }
    assert (rb least x = true) as H0x by (destruct Hx as [->|[Hx Hne]]; [done|by apply least_min]).
    destruct Hy0 as [Hy0| ->]; [|done]. destruct (rb y x) eqn:Ey; [done|].
    pose proof (GoHeapFacts.lb_trans rb ranksBelow_weak x y least Ey (sw_asymm _ ranksBelow_weak _ _ Hy0)). congruence.
Qed.
Lemma keep_top : limit <= len items → rb least d = false → top_inv limit (d + 1) items.
Proof.
  intros Hge E. pose proof Hinv as (Hnd & Hr & Hh & Hl & Htop).
  split_and!; [done| |done|unfold node in *; lia|]; [intros x Hx; specialize (Hr x Hx); lia|].
  intros x y Hx Hy Hny. destruct (decide (y = d)) as [->|]; [|apply Htop; [done|lia|done]].
  assert (rb d least = true) as Hdl by (apply ranksBelow_total; [apply items_node, least_in|done|apply items_node, least_in|done]).
  destruct (decide (x = least)) as [->|Hne]; [done|]. destruct (rb d x) eqn:Ed; [done|exfalso].
  pose proof (least_min x Hx Hne). pose proof (GoHeapFacts.lb_trans rb ranksBelow_weak x d least Ed E). congruence.
Qed.
End Step.

Lemma topStep_spec limit d items : 0 <= limit → node d → top_inv limit d items → runs (topStep s limit items d) (top_inv limit (d + 1)).
Proof.
  intros Hlim Hd Hinv. pose proof Hinv as (Hnd & Hr & Hh & Hl & _). unfold topStep. apply runs_if; intros Hb; to_prop.
  - eapply runs_mono; [apply (GoHeapFacts.Push_spec (less s) rb node less_ok ranksBelow_weak items d); [|done]|].
    + intros x [Hx| ->%list_elem_of_singleton]%elem_of_app; [by apply (items_node limit d items Hd Hinv)|done].
    + cbv beta. intros l [Hp Hh']. by apply (push_top limit d items Hd Hinv).
  - apply runs_if; intros Hb'; to_prop.
    + assert (0 < len items) as Hpos by (unfold node in *; lia). apply runs_bind, runs_idx; [lia|].
      rewrite less_ok by (done || by apply (items_node limit d items Hd Hinv), least_in). apply runs_bind, runs_ok.
      destruct (rb (get items 0) d) eqn:E; [|by apply runs_ok, keep_top].
      apply runs_bind, runs_set_idx; [lia|].
      eapply runs_mono; [apply (GoHeapFacts.Fix_spec (less s) rb node less_ok ranksBelow_weak items d); [|lia|done]|].
      * intros x Hx%(put_items limit d items Hinv Hpos). destruct Hx as [->|[Hx _]]; [done|by apply (items_node limit d items Hd Hinv)].
      * cbv beta. intros l [Hp Hh']. by apply (replace_top limit d items Hd Hinv Hpos).
    + assert (limit = 0) as -> by lia. apply runs_ok.
      assert (items = []) as -> by (destruct items; [done|rewrite len_cons in Hl; pose proof (len_nonneg items); unfold node in *; lia]).
      split_and!; [constructor|intros x Hx%not_elem_of_nil; done|done|unfold node in *; cbn; lia|]. intros x y Hx%not_elem_of_nil. done.
Qed.

(** The effective limit. *)
Definition top_size (limit : Z) : Z := if (limit <=? 0) || (m - 1 <? limit) then m - 1 else limit.
Lemma topRetained_spec limit : runs (topRetained s limit) (λ out,
  len out = top_size limit ∧ NoDup out ∧ (∀ x, x ∈ out → node x) ∧ StronglySorted (λ a b, rb b a = true) out ∧
  ∀ x y, x ∈ out → node y → y ∉ out → rb y x = true).
Proof.
  unfold topRetained. fold (top_size limit). destruct (so_vertex _ _ S) as (Hm & _ & _).
  destruct (so_bytes _ _ S) as (L & [NL EL] & _ & HL). pose proof (len_nonneg L). pose proof (go_len _ G).
  assert (len L <= Len g) as HLg.
  { pose proof (range_length L (Len g) NL ltac:(intros x Hx%EL; by apply (reachable_range g G)) (len_nonneg _)). unfold len in *. unfold Len, len in *. lia. }
  unfold maxGraphObjects in *. rewrite i32_small by lia. replace (m - 1 + 1) with m by lia.
  assert (0 <= top_size limit <= m - 1) as Ht by (unfold top_size; destruct (_ || _) eqn:E; to_prop; lia).
  apply runs_bind. eapply runs_mono; [apply (runs_for_upto (top_inv (top_size limit))); [lia|..]|].
  - split_and!; [apply NoDup_nil_2|intros x Hx%not_elem_of_nil; done|intros k Hk; unfold len in Hk; cbn in Hk; lia|rewrite len_nil; lia|]. intros x y Hx%not_elem_of_nil. done.
  - intros d items Hd. apply topStep_spec; [lia|unfold node; lia].
  - cbv beta. intros items (Hnd & Hr & _ & Hl & Htop). apply runs_ok. pose proof (sort_perm (λ a b, rb b a) items) as Hp.
    assert (strict_weak (λ a b, rb b a)) as Hw.
    { split; [intros a b; apply (sw_asymm _ ranksBelow_weak)|]. intros a b c H1 H2. by apply (sw_trans _ ranksBelow_weak c b a). }
    split_and!; [unfold len; rewrite Hp; fold (len items); lia|by rewrite Hp| | |].
    + intros x Hx. rewrite Hp in Hx. by apply Hr.
    + pose proof (sort_strongly_sorted (λ a b, rb b a) items Hw) as Hs. assert (NoDup (sort_slice (λ a b, rb b a) items)) as Hn by (by rewrite Hp).
      assert (∀ x, x ∈ sort_slice (λ a b, rb b a) items → node x) as Hnode by (intros x Hx; rewrite Hp in Hx; by apply Hr).
      clear Hp. induction Hs as [|x l _ IH Hx]; [constructor|]. apply NoDup_cons in Hn as [Hxl Hn]. constructor; [apply IH; [done|intros y Hy; apply Hnode; by right]|].
      rewrite Forall_forall in *. intros y Hy. apply ranksBelow_total; [apply Hnode; by left|apply Hnode; by right|by intros ->|by apply Hx].
    + intros x y Hx Hy Hny. rewrite Hp in Hx, Hny. by apply Htop.
Qed.

(** ** The report *)

Definition size_of (i : Z) : Z := get (retained s) (get (s_dfnum s) i).
(** [i] is reported before [j]. *)
Definition outranks (i j : Z) : Prop :=
  size_of j < size_of i ∨ (size_of i = size_of j ∧ get (ids g) i < get (ids g) j).

Lemma ranks_outranks a b : node a → node b → rb b a = true → outranks (get (s_vertex s) a) (get (s_vertex s) b).
Proof.
  intros Ha Hb. destruct (node_object a Ha) as (_ & _ & Hna), (node_object b Hb) as (_ & _ & Hnb).
  unfold outranks, size_of, ranksBelow. rewrite Hna, Hnb, (so_graph _ _ S).
  destruct (Z.eqb_spec (get (retained s) b) (get (retained s) a)); cbn; rewrite Z.ltb_lt; lia.
Qed.
Definition suspect_of (o : Z) (r : RetainedSuspect) : Prop :=
  rs_ID r = get (ids g) o ∧ DisplayName g o = Ok (rs_ClassName r) ∧ rs_ShallowBytes r = get (shallow g) o ∧
  rs_RetainedBytes r = size_of o ∧ rs_PercentOfHeap r = percentOf s (size_of o).
Lemma suspect_spec d : node d → ∃ r, suspect s d = Ok r ∧ suspect_of (get (s_vertex s) d) r.
Proof.
  intros Hd. destruct (node_object d Hd) as (Hv & _ & Hn). destruct (so_vertex _ _ S) as (_ & Hrl & _). pose proof (go_shallow _ G).
  destruct (display_ok g _ G Hv) as (name & Hname). unfold suspect, node, Len in *. rewrite (so_graph _ _ S).
  rewrite !(idx_get (s_vertex s)) by lia. cbn. rewrite !idx_get by lia. cbn. rewrite Hname. cbn.
  eexists. split; [done|]. unfold suspect_of, size_of. cbn. by rewrite Hn.
Qed.
Lemma suspects_spec ds : (∀ d, d ∈ ds → node d) → runs (map_each (suspect s) ds) (λ rs, Forall2 suspect_of (get (s_vertex s) <$> ds) rs).
Proof.
  induction ds as [|d ds IH]; intros Hds; cbn; [by apply runs_ok|]. destruct (suspect_spec d) as (r & -> & Hr); [apply Hds; by left|].
  cbn. apply runs_bind. eapply runs_mono; [apply IH; intros x Hx; apply Hds; by right|]. intros rs Hrs. apply runs_ok. by constructor.
Qed.

(** Classes with instances, largest first, ties by name. *)
Definition ranked_classes (limit : Z) (out : list ClassRetained) : Prop :=
  ∃ all, all ≡ₚ (withPercent s <$> filter (λ c, Instances c ≠ 0) (classes s)) ∧
    StronglySorted (λ a b, RetainedBytes b < RetainedBytes a ∨
      (RetainedBytes a = RetainedBytes b ∧ String.ltb (cr_ClassName b) (cr_ClassName a) = false)) all ∧
    out = if (0 <? limit) && (limit <? len all) then take (Z.to_nat limit) all else all.
Lemma classLess_weak : strict_weak classLess.
Proof.
  destruct strict_weak_string as [Ha Ht]. split; unfold classLess.
  - intros a b. destruct (Z.eqb_spec (RetainedBytes a) (RetainedBytes b)), (Z.eqb_spec (RetainedBytes b) (RetainedBytes a)); cbn; try congruence; [apply Ha|].
    rewrite Z.ltb_lt, Z.ltb_ge. lia.
  - intros a b c. destruct (Z.eqb_spec (RetainedBytes b) (RetainedBytes a)), (Z.eqb_spec (RetainedBytes c) (RetainedBytes b)), (Z.eqb_spec (RetainedBytes c) (RetainedBytes a));
      cbn; try congruence; [apply Ht|..]; rewrite ?Z.ltb_ge; intros; lia.
Qed.
Lemma filter_bool {A} (f : A → bool) (P : A → Prop) `{∀ x, Decision (P x)} l : (∀ x, f x = true ↔ P x) → List.filter f l = filter P l.
Proof.
  intros Hf. induction l as [|x l IH]; [done|]. rewrite filter_cons. cbn. rewrite IH. specialize (Hf x).
  destruct (f x); case_decide; naive_solver.
Qed.
Lemma rankClasses_spec limit : runs (rankClasses s limit) (ranked_classes limit).
Proof.
  unfold rankClasses. set (cs := withPercent s <$> _). set (all := sort_slice classLess cs).
  assert (∀ out, out = (if (0 <? limit) && (limit <? len all) then take (Z.to_nat limit) all else all) → ranked_classes limit out) as Hall.
  { intros out ->. exists all. split_and!; [|..|done].
    - unfold all. rewrite sort_perm. unfold cs. rewrite (filter_bool _ (λ c, Instances c ≠ 0)); [done|].
      intros c. rewrite negb_true_iff, Z.eqb_neq. done.
    - pose proof (sort_strongly_sorted classLess cs classLess_weak) as Hs. fold all in Hs. clearbody all. clear -Hs. induction Hs as [|x l _ IH Hx]; [constructor|].
      constructor; [done|]. eapply Forall_impl; [exact Hx|]. cbn. intros y. unfold classLess.
      destruct (Z.eqb_spec (RetainedBytes y) (RetainedBytes x)); cbn; [by right|]. rewrite Z.ltb_ge. lia. }
  apply runs_if; intros Hb.
  - rewrite slice_ok by (to_prop; lia). apply runs_ok, Hall. rewrite Hb. unfold sub. by rewrite Z.sub_0_r.
  - apply runs_ok, Hall. by rewrite Hb.
Qed.

(** The report lists the largest objects, in order. *)
Definition report_ok (limit : Z) (res : DominatorResult) : Prop :=
  (∃ objs, Forall2 suspect_of objs (Suspects res) ∧ NoDup objs ∧ (∀ o, o ∈ objs → reachable g o) ∧
    len objs = (if (limit <=? 0) || (ReachableObjects s <? limit) then ReachableObjects s else limit) ∧
    StronglySorted outranks objs ∧ ∀ i j, i ∈ objs → reachable g j → j ∉ objs → outranks i j) ∧
  ranked_classes limit (Classes res) ∧
  dr_TotalShallowBytes res = TotalShallowBytes s ∧ dr_ReachableObjects res = ReachableObjects s ∧ dr_ReachableBytes res = ReachableBytes s.

Lemma RankRetained_spec limit : runs (RankRetained s limit) (report_ok limit).
Proof.
  unfold RankRetained. apply runs_bind. eapply runs_mono; [apply topRetained_spec|]. cbv beta. intros ds (Hl & Hnd & Hn & Hs & Htop).
  apply runs_bind. eapply runs_mono; [by apply suspects_spec|]. intros rs Hrs. apply runs_bind.
  eapply runs_mono; [apply rankClasses_spec|]. intros cs Hcs. apply runs_ok. split; [|done]. exists (get (s_vertex s) <$> ds). cbn.
  assert (∀ x y, node x → node y → get (s_vertex s) x = get (s_vertex s) y → x = y) as Hinj.
  { intros x y Hx Hy He. destruct (node_object x Hx) as (_ & _ & <-), (node_object y Hy) as (_ & _ & <-). by rewrite He. }
  split_and!.
  - done.
  - apply NoDup_fmap_2_strong; [|done]. intros x y Hx Hy. apply Hinj; auto.
  - intros o (d & -> & Hd)%list_elem_of_fmap. by apply node_object, Hn.
  - unfold len. rewrite length_fmap. fold (len ds). rewrite Hl. unfold top_size. destruct (so_vertex _ _ S) as (Hm & _). by replace (m - 1) with (ReachableObjects s) by lia.
  - clear Hrs Htop Hnd Hl. induction Hs as [|x l _ IH Hx]; [constructor|]. cbn. constructor; [apply IH; intros y Hy; apply Hn; by right|].
    rewrite Forall_forall in *. intros o (d & -> & Hd)%list_elem_of_fmap. apply ranks_outranks; [apply Hn; by left|apply Hn; by right|by apply Hx].
  - intros i j (d & -> & Hd)%list_elem_of_fmap Hj Hnj. pose proof (reachable_range g G j Hj) as Hjr.
    assert (∃ e, node e ∧ get (s_vertex s) e = j) as (e & He & Hej).
    { destruct (so_bytes _ _ S) as (L & [NL EL] & _ & HL). destruct (so_vertex _ _ S) as (Hm & _ & Hv).
      assert ((get (s_vertex s) <$> upto 1 m) ≡ₚ L) as Hp.
      { apply submseteq_length_Permutation.
        - apply NoDup_submseteq; [apply NoDup_fmap_2_strong; [|apply NoDup_seqZ]; intros x y Hx%elem_of_upto Hy%elem_of_upto; apply Hinj; unfold node; lia|].
          intros o (d' & -> & Hd'%elem_of_upto)%list_elem_of_fmap. apply EL, node_object. unfold node. lia.
        - rewrite length_fmap. unfold upto. rewrite length_seqZ. unfold len in *. lia. }
      apply EL in Hj. rewrite <-Hp in Hj. apply list_elem_of_fmap in Hj as (e & -> & He%elem_of_upto). exists e. unfold node. split; [lia|done]. }
    rewrite <-Hej. apply ranks_outranks; [by apply Hn|done|]. apply Htop; [done..|]. intros Hed. apply Hnj, list_elem_of_fmap. eauto.
Qed.
End Snapshot.
End RankFacts.
