(* ===== verification/HprofFormat.v ===== *)
(** * The HPROF format: reading primitives

    The part of [src/internal/heap/hprof.go] and [src/internal/heap/roots.go]
    that the histogram parser and the graph parser share: the record tags, the
    big-endian reader [hprofReader], the file header, the sizes of the basic
    types and the layouts of the root records.  Every reader is characterised
    by the bytes it accepts: it succeeds exactly on the encoding of the value it
    returns. *)

From S2P Require Import Prelude Arrays GoStrings GoIO HeapGraph.

Module Hprof.
Export Graph.

(** ** Tags and limits *)

Definition hprofTagString : Z := 0x01.
Definition hprofTagLoadClass : Z := 0x02.
Definition hprofTagHeapDump : Z := 0x0C.
Definition hprofTagHeapDumpSegment : Z := 0x1C.

Definition hprofRootJNIGlobal : Z := 0x01.
Definition hprofRootJNILocal : Z := 0x02.
Definition hprofRootJavaFrame : Z := 0x03.
Definition hprofRootNativeStack : Z := 0x04.
Definition hprofRootStickyClass : Z := 0x05.
Definition hprofRootThreadBlock : Z := 0x06.
Definition hprofRootMonitorUsed : Z := 0x07.
Definition hprofRootThreadObject : Z := 0x08.
Definition hprofClassDump : Z := 0x20.
Definition hprofInstanceDump : Z := 0x21.
Definition hprofObjectArrayDump : Z := 0x22.
Definition hprofPrimArrayDump : Z := 0x23.
Definition hprofRootInterned : Z := 0x89.
Definition hprofRootFinalizing : Z := 0x8A.
Definition hprofRootDebugger : Z := 0x8B.
Definition hprofRootRefCleanup : Z := 0x8C.
Definition hprofRootVMInternal : Z := 0x8D.
Definition hprofRootJNIMonitor : Z := 0x8E.
Definition hprofHeapDumpInfo : Z := 0xFE.
Definition hprofRootUnknown : Z := 0xFF.

Definition hprofTypeObject : Z := 2.
Definition hprofTypeBoolean : Z := 4.
Definition hprofTypeChar : Z := 5.
Definition hprofTypeFloat : Z := 6.
Definition hprofTypeDouble : Z := 7.
Definition hprofTypeByte : Z := 8.
Definition hprofTypeShort : Z := 9.
Definition hprofTypeInt : Z := 10.
Definition hprofTypeLong : Z := 11.

Definition hprofArrayHeaderBytes : Z := 16.
Definition maxHPROFStringBytes : Z := 64 * 2 ^ 20.
Definition maxHPROFHeaderName : Z := 32.
Definition maxInstanceFieldBytes : Z := 16 * 2 ^ 20.

(** [switch v { case c1, c2, ...: ... }] *)
Definition one_of (v : Z) (cs : list Z) : bool := bool_decide (v ∈ cs).

(** ** The reader *)

Record hprofReader := { h_r : reader; h_idSize : Z }.
Definition with_r (h : hprofReader) (r : reader) : hprofReader := {| h_r := r; h_idSize := h_idSize h |}.

Definition u1 (h : hprofReader) : outcome (Z * hprofReader) :=
  '(c, r) ← ReadByte (h_r h); Ok (b2z c, with_r h r).
Definition u2 (h : hprofReader) : outcome (Z * hprofReader) :=
  '(buf, r) ← io_ReadFull (h_r h) 2; v ← be_u16 buf; Ok (v, with_r h r).
Definition u4 (h : hprofReader) : outcome (Z * hprofReader) :=
  '(buf, r) ← io_ReadFull (h_r h) 4; v ← be_u32 buf; Ok (v, with_r h r).
Definition u8 (h : hprofReader) : outcome (Z * hprofReader) :=
  '(buf, r) ← io_ReadFull (h_r h) 8; v ← be_u64 buf; Ok (v, with_r h r).
(** The 8-byte buffer is cut to [idSize] bytes before the read.  After a read of
    fewer than the decoded bytes the code would see older bytes of the buffer;
    in the model that is a panic. *)
Definition id (h : hprofReader) : outcome (Z * hprofReader) :=
  _ ← slice (replicate 8 x00) 0 (h_idSize h);
  '(buf, r) ← io_ReadFull (h_r h) (h_idSize h);
  v ← (if h_idSize h =? 4 then be_u32 buf else be_u64 buf);
  Ok (v, with_r h r).
Definition skip (h : hprofReader) (n : Z) : outcome hprofReader :=
  r ← CopyN (h_r h) n; Ok (with_r h r).

(** ** The file header *)

Definition errNotHPROF : goerror := Errorf "hprof: not a JAVA PROFILE dump".

(** Each round appends a byte to a name of at most [maxHPROFHeaderName]. *)
Fixpoint headerName (fuel : nat) (h : hprofReader) (name : list byte) : outcome (list byte * hprofReader) :=
  match fuel with
  | O => out_of_fuel
  | S fuel =>
    '(c, r) ← wrap_err "hprof: read header name: %w" (ReadByte (h_r h));
    let h := with_r h r in
    if b2z c =? 0 then Ok (name, h)
    else if len name =? maxHPROFHeaderName then Err errNotHPROF
    else headerName fuel h (name ++ [c])
  end.

Definition readHPROFHeader (hr : hprofReader) : outcome hprofReader :=
  '(name, hr) ← headerName (Z.to_nat maxHPROFHeaderName + 1) hr [];
  if negb (HasPrefix (string_of_bytes name) "JAVA PROFILE") then Err errNotHPROF else
  '(idSize, hr) ← wrap_err "hprof: read id size: %w" (u4 hr);
  if negb (idSize =? 4) && negb (idSize =? 8) then Err (Errorf ("hprof: unsupported identifier size " +:+ itoa idSize)) else
  let hr := {| h_r := h_r hr; h_idSize := idSize |} in
  '(_, hr) ← wrap_err "hprof: read timestamp: %w" (u8 hr);
  Ok hr.

(** ** Layouts *)

Definition hprofTypeSize (typ idSize : Z) : Z :=
  if typ =? hprofTypeObject then idSize
  else if one_of typ [hprofTypeBoolean; hprofTypeByte] then 1
  else if one_of typ [hprofTypeChar; hprofTypeShort] then 2
  else if one_of typ [hprofTypeFloat; hprofTypeInt] then 4
  else if one_of typ [hprofTypeDouble; hprofTypeLong] then 8
  else 0.

Definition primArrayName (elemType : Z) : string :=
  if elemType =? hprofTypeBoolean then "[Z"
  else if elemType =? hprofTypeChar then "[C"
  else if elemType =? hprofTypeFloat then "[F"
  else if elemType =? hprofTypeDouble then "[D"
  else if elemType =? hprofTypeByte then "[B"
  else if elemType =? hprofTypeShort then "[S"
  else if elemType =? hprofTypeInt then "[I"
  else if elemType =? hprofTypeLong then "[J"
  else "[?".

Definition rootLayouts : gmap Z (RootKind * Z * Z) := list_to_map [
  (hprofRootUnknown, (RootUnknown, 0, 0));
  (hprofRootStickyClass, (RootStickyClass, 0, 0));
  (hprofRootMonitorUsed, (RootMonitorUsed, 0, 0));
  (hprofRootInterned, (RootInternedString, 0, 0));
  (hprofRootFinalizing, (RootFinalizing, 0, 0));
  (hprofRootDebugger, (RootDebugger, 0, 0));
  (hprofRootRefCleanup, (RootReferenceCleanup, 0, 0));
  (hprofRootVMInternal, (RootVMInternal, 0, 0));
  (hprofRootJNIGlobal, (RootJNIGlobal, 1, 0));
  (hprofRootNativeStack, (RootNativeStack, 0, 1));
  (hprofRootThreadBlock, (RootThreadBlock, 0, 1));
  (hprofRootJNILocal, (RootJNILocal, 0, 2));
  (hprofRootJavaFrame, (RootJavaFrame, 0, 2));
  (hprofRootThreadObject, (RootThreadObject, 0, 2));
  (hprofRootJNIMonitor, (RootJNIMonitor, 0, 2))].

Definition rootRecordLayout (idSize tag : Z) : option (RootKind * Z) :=
  match rootLayouts !! tag with
  | None => None
  | Some (k, extraIDs, u4s) => Some (k, idSize * (1 + extraIDs) + 4 * u4s)
  end.

Definition hprofRootSkipBytes (idSize tag : Z) : option Z :=
  if one_of tag [hprofRootUnknown; hprofRootStickyClass; hprofRootMonitorUsed; hprofRootInterned; hprofRootFinalizing;
                 hprofRootDebugger; hprofRootRefCleanup; hprofRootVMInternal] then Some idSize
  else if one_of tag [hprofRootJNIGlobal] then Some (idSize + idSize)
  else if one_of tag [hprofRootNativeStack; hprofRootThreadBlock] then Some (idSize + 4)
  else if one_of tag [hprofRootJNILocal; hprofRootJavaFrame; hprofRootThreadObject; hprofRootJNIMonitor] then Some (idSize + 8)
  else if one_of tag [hprofHeapDumpInfo] then Some (4 + idSize)
  else None.

(** The constant pool of a class dump: [count] entries. *)
Fixpoint skipPoolEntries (count : nat) (sub : hprofReader) : outcome hprofReader :=
  match count with
  | O => Ok sub
  | S count =>
    '(_, sub) ← u2 sub;
    '(typ, sub) ← u1 sub;
    sub ← skip sub (hprofTypeSize typ (h_idSize sub));
    skipPoolEntries count sub
  end.
Definition skipClassPool (sub : hprofReader) : outcome hprofReader :=
  '(count, sub) ← u2 sub; skipPoolEntries (Z.to_nat count) sub.
End Hprof.

(** ** What the readers accept *)

Module HprofFacts.
Export Hprof.

Definition id_ok (h : hprofReader) : Prop := h_idSize h = 4 ∨ h_idSize h = 8.
Definition hpush (bs : list byte) (h : hprofReader) : hprofReader := with_r h (push bs (h_r h)).
Definition left_ (h : hprofReader) : Z := len (r_bytes (h_r h)).

Lemma hpush_app a b h : hpush (a ++ b) h = hpush a (hpush b h).
Proof. unfold hpush, with_r. cbn. by rewrite push_app. Qed.
Lemma hpush_nil h : hpush [] h = h.
Proof. unfold hpush. rewrite push_nil. by destruct h. Qed.
Lemma left_hpush bs h : left_ (hpush bs h) = len bs + left_ h.
Proof. apply len_push. Qed.
Lemma left_nonneg h : 0 <= left_ h.
Proof. apply len_nonneg. Qed.
Lemma hpush_idSize bs h : h_idSize (hpush bs h) = h_idSize h.
Proof. done. Qed.

(** *** Numbers *)

Definition read_uint (n : nat) (h : hprofReader) : outcome (Z * hprofReader) :=
  '(buf, r) ← io_ReadFull (h_r h) (Z.of_nat n); w ← be_uint n buf; Ok (w, with_r h r).

Lemma read_uint_push (n : nat) v h : 0 <= v < 256 ^ Z.of_nat n → read_uint n (hpush (be_bytes n v) h) = Ok (v, h).
Proof.
  intros Hv. unfold read_uint. cbn [h_r hpush with_r]. rewrite io_ReadFull_push by apply len_be_bytes. cbn. rewrite be_uint_be_bytes by done.
  cbn. by destruct h.
Qed.
Lemma read_uint_inv (n : nat) h v h' : read_uint n h = Ok (v, h') → 0 <= v < 256 ^ Z.of_nat n ∧ h = hpush (be_bytes n v) h'.
Proof.
  unfold read_uint. destruct (io_ReadFull (h_r h) (Z.of_nat n)) as [[buf r]|e|] eqn:E; cbn; [|done..].
  apply io_ReadFull_inv in E as [Hl Hr]; [|lia]. destruct (be_uint n buf) as [w|e|] eqn:Ew; cbn; [|done..].
  apply be_uint_all in Ew as (_ & -> & Hv); [|unfold len in Hl; lia]. intros [= <- <-]. split; [done|].
  unfold hpush, with_r. cbn. rewrite <-Hr. by destruct h.
Qed.
Lemma read_uint_wp (n : nat) h : wp (read_uint n h) (λ _, True).
Proof.
  apply wp_bind. eapply wp_mono; [apply wp_io_ReadFull; lia|]. intros [buf r] [Hb _]. cbn in Hb. apply wp_bind.
  by apply wp_be_uint; [lia|].
Qed.

(** What [reads m n v] says: on the bytes [enc v] followed by anything [m]
    returns [v], and it returns a value only then. *)
Record reads (m : hprofReader → outcome (Z * hprofReader)) (good : hprofReader → Prop) (n : hprofReader → nat) : Prop := {
  reads_push v h : good h → 0 <= v < 256 ^ Z.of_nat (n h) → m (hpush (be_bytes (n h) v) h) = Ok (v, h);
  reads_inv h v h' : good h → m h = Ok (v, h') → h_idSize h' = h_idSize h ∧ 0 <= v < 256 ^ Z.of_nat (n h) ∧ h = hpush (be_bytes (n h) v) h';
  reads_safe h : good h → m h ≠ Panic }.

Lemma u1_reads : reads u1 (λ _, True) (λ _, 1%nat).
Proof.
  split.
  - intros v h _ Hv. unfold u1. change (be_bytes 1 v) with [z2b v]. cbn [h_r hpush with_r]. rewrite ReadByte_push. cbn.
    rewrite z2b_spec, Z.mod_small by lia. by destruct h.
  - intros h v h' _. unfold u1. destruct (ReadByte (h_r h)) as [[c r]|e|] eqn:E; cbn; [|done..].
    apply ReadByte_inv in E. intros [= <- <-]. split; [done|]. pose proof (b2z_range c). split; [lia|].
    change (be_bytes 1 (b2z c)) with [z2b (b2z c)]. rewrite z2b_b2z. unfold hpush, with_r. cbn. rewrite <-E. by destruct h.
  - intros h _. unfold u1, ReadByte. by destruct (r_bytes (h_r h)).
Qed.
Lemma uint_reads (n : nat) : reads (read_uint n) (λ _, True) (λ _, n).
Proof.
  split.
  - intros v h _. apply read_uint_push.
  - intros h v h' _ [Hv ->]%read_uint_inv. done.
  - intros h _. eapply wp_no_panic, read_uint_wp.
Qed.
Lemma u2_reads : reads u2 (λ _, True) (λ _, 2%nat).
Proof. apply (uint_reads 2). Qed.
Lemma u4_reads : reads u4 (λ _, True) (λ _, 4%nat).
Proof. apply (uint_reads 4). Qed.
Lemma u8_reads : reads u8 (λ _, True) (λ _, 8%nat).
Proof. apply (uint_reads 8). Qed.
Lemma id_eq h : id_ok h → id h = read_uint (Z.to_nat (h_idSize h)) h.
Proof. intros [Hi|Hi]; unfold id; rewrite Hi; unfold read_uint; done. Qed.
Lemma id_reads : reads id id_ok (λ h, Z.to_nat (h_idSize h)).
Proof.
  split.
  - intros v h Hi Hv. rewrite id_eq by done. by apply read_uint_push.
  - intros h v h' Hi. rewrite id_eq by done. intros Hr. pose proof (read_uint_inv _ _ _ _ Hr) as [Hv Hh]. rewrite Hh at 1. done.
  - intros h Hi. rewrite id_eq by done. eapply wp_no_panic, read_uint_wp.
Qed.

Lemma skip_push bs h n : len bs = n → skip (hpush bs h) n = Ok h.
Proof. intros Hl. unfold skip. cbn [h_r hpush with_r]. rewrite CopyN_push by done. cbn. by destruct h. Qed.
Lemma skip_inv h n h' : 0 <= n → skip h n = Ok h' → h_idSize h' = h_idSize h ∧ ∃ bs, len bs = n ∧ h = hpush bs h'.
Proof.
  intros Hn. unfold skip. destruct (CopyN (h_r h) n) as [r|e|] eqn:E; cbn; [|done..]. intros [= <-].
  apply CopyN_inv in E as (bs & Hl & Hr); [|done]. split; [done|]. exists bs. split; [done|]. unfold hpush, with_r. cbn. rewrite <-Hr. by destruct h.
Qed.
Lemma skip_safe h n : skip h n ≠ Panic.
Proof. unfold skip. pose proof (CopyN_no_panic (h_r h) n). by destruct (CopyN _ _). Qed.
End HprofFacts.
