(* ===== verification/HprofGraph.v ===== *)
(** * The HPROF object-graph parser

    [ParseObjectGraph] of [src/internal/heap/graph.go] and [readRoot] of
    [src/internal/heap/roots.go]: the records of a dump are read one after the
    other into a [graphState]; an instance whose class dump has not been seen is
    kept with its field bytes until the end of the stream. *)

From Stdlib Require Import Ascii.
From S2P Require Import Prelude Arrays GoStrings GoRuntime GoIO HeapGraph HprofFormat.

Module GraphParser.
Export Hprof.

Record classLayout := { superID : Z; fieldTypes : list Z; instSize : Z }.
Record pendingInstance := { parseIdx : Z; pi_classID : Z; pi_fields : list byte }.
(** The field [scratch] only lends its backing array to the reference list of
    the record that is read, which [addObject] copies; it has no counterpart. *)
Record graphState := {
  gs_idSize : Z;
  strings : gmap Z string; classNameID : gmap Z Z; layouts : gmap Z classLayout;
  pending : list pendingInstance; b : graphBuilder; classClass : Z }.

Definition set_strings (st : graphState) (m : gmap Z string) : graphState :=
  {| gs_idSize := gs_idSize st; strings := m; classNameID := classNameID st; layouts := layouts st;
     pending := pending st; b := b st; classClass := classClass st |}.
Definition set_classNameID (st : graphState) (m : gmap Z Z) : graphState :=
  {| gs_idSize := gs_idSize st; strings := strings st; classNameID := m; layouts := layouts st;
     pending := pending st; b := b st; classClass := classClass st |}.
Definition set_layouts (st : graphState) (m : gmap Z classLayout) : graphState :=
  {| gs_idSize := gs_idSize st; strings := strings st; classNameID := classNameID st; layouts := m;
     pending := pending st; b := b st; classClass := classClass st |}.
Definition set_b (st : graphState) (b' : graphBuilder) : graphState :=
  {| gs_idSize := gs_idSize st; strings := strings st; classNameID := classNameID st; layouts := layouts st;
     pending := pending st; b := b'; classClass := classClass st |}.
Definition add_pending (st : graphState) (p : pendingInstance) : graphState :=
  {| gs_idSize := gs_idSize st; strings := strings st; classNameID := classNameID st; layouts := layouts st;
     pending := pending st ++ [p]; b := b st; classClass := classClass st |}.

(** ** Strings and classes *)

Definition readString (st : graphState) (hr : hprofReader) (length : Z) : outcome (graphState * hprofReader) :=
  '(i, hr) ← wrap_err "hprof: string id: %w" (id hr);
  let n := length - h_idSize hr in
  if (n <? 0) || (maxHPROFStringBytes <? n) then Err (Errorf ("hprof: bad string length " +:+ itoa n)) else
  '(body, r) ← wrap_err "hprof: string body: %w" (io_ReadFull (h_r hr) n);
  Ok (set_strings st (<[i := string_of_bytes body]> (strings st)), with_r hr r).

Definition readLoadClass (st : graphState) (hr : hprofReader) : outcome (graphState * hprofReader) :=
  '(_, hr) ← u4 hr;
  '(classObjID, hr) ← id hr;
  '(_, hr) ← u4 hr;
  '(nameID, hr) ← id hr;
  Ok (set_classNameID st (<[classObjID := nameID]> (classNameID st)), hr).

(** ** Sub-records of a heap dump *)

Definition readRoot (st : graphState) (sub : hprofReader) (k : RootKind) (totalBytes : Z) : outcome (graphState * hprofReader) :=
  '(objID, sub) ← id sub;
  let rest := totalBytes - h_idSize sub in
  '(serial, rest, sub) ← (if hasThreadSerial k then '(s, sub) ← u4 sub; Ok (s, rest - 4, sub) else Ok (0, rest, sub));
  let threads := if bool_decide (k = RootThreadObject) && negb (objID =? 0)
                 then <[serial := objID]> (threadBySerial (b st)) else threadBySerial (b st) in
  let roots := if negb (objID =? 0) then b_roots (b st) ++ [{| root_id := objID; kind := k; threadSerial := serial |}]
               else b_roots (b st) in
  sub ← skip sub rest;
  Ok (set_b st (with_roots (b st) roots threads), sub).

Fixpoint readIDs (n : nat) (sub : hprofReader) : outcome (list Z * hprofReader) :=
  match n with
  | O => Ok ([], sub)
  | S n => '(x, sub) ← id sub; '(xs, sub) ← readIDs n sub; Ok (x :: xs, sub)
  end.

Fixpoint staticRefs (count : nat) (sub : hprofReader) (refs : list Z) : outcome (list Z * hprofReader) :=
  match count with
  | O => Ok (refs, sub)
  | S count =>
    '(_, sub) ← id sub;
    '(typ, sub) ← u1 sub;
    if negb (typ =? hprofTypeObject) then
      sub ← skip sub (hprofTypeSize typ (h_idSize sub)); staticRefs count sub refs
    else
      '(ref, sub) ← id sub; staticRefs count sub (refs ++ [ref])
  end.
Definition readStaticRefs (sub : hprofReader) (refs : list Z) : outcome (list Z * hprofReader) :=
  '(count, sub) ← u2 sub; staticRefs (Z.to_nat count) sub refs.

Fixpoint instanceFieldTypes (count : nat) (sub : hprofReader) (types : list Z) : outcome (list Z * hprofReader) :=
  match count with
  | O => Ok (types, sub)
  | S count => '(_, sub) ← id sub; '(typ, sub) ← u1 sub; instanceFieldTypes count sub (types ++ [typ])
  end.
Definition readInstanceFieldTypes (sub : hprofReader) : outcome (list Z * hprofReader) :=
  '(count, sub) ← u2 sub; instanceFieldTypes (Z.to_nat count) sub [].

Definition readClassDump (st : graphState) (sub : hprofReader) : outcome (graphState * hprofReader) :=
  '(classObjID, sub) ← id sub;
  '(_, sub) ← u4 sub;
  '(hdr, sub) ← readIDs 6 sub;
  '(size, sub) ← u4 sub;
  sub ← skipClassPool sub;
  super ← idx hdr 0; loader ← idx hdr 1;
  '(refs, sub) ← readStaticRefs sub [super; loader];
  '(types, sub) ← readInstanceFieldTypes sub;
  let st := set_layouts st (<[classObjID := {| superID := super; fieldTypes := types; instSize := size |}]> (layouts st)) in
  let '(b1, _) := classFor (b st) {| classID := classObjID; primType := 0 |} "" in
  '(b2, _) ← addObject b1 classObjID (classClass st) 0 refs;
  Ok (set_b st b2, sub).

Definition readID (bs : list byte) (idSize : Z) : outcome Z :=
  if idSize =? 4 then x ← slice bs 0 4; be_u32 x else x ← slice bs 0 8; be_u64 x.

(** The fields of one class: [inl] when the field bytes end early, [inr] with
    the next offset otherwise. *)
Fixpoint fieldWalk (idSize : Z) (fields : list byte) (types : list Z) (offset : Z) (out : list Z) : outcome (list Z + Z * list Z) :=
  match types with
  | [] => Ok (inr (offset, out))
  | typ :: types =>
    let size := hprofTypeSize typ idSize in
    if len fields <? offset + size then Ok (inl out) else
    if typ =? hprofTypeObject then
      bs ← slice fields offset (offset + size);
      i ← readID bs idSize;
      fieldWalk idSize fields types (offset + size) (out ++ [i])
    else fieldWalk idSize fields types (offset + size) out
  end.
(** The superclass chain; [depth] is at most one more than the number of
    layouts, so two rounds more than that are enough. *)
Fixpoint superWalk (fuel : nat) (st : graphState) (fields : list byte) (depth c offset : Z) (out : list Z) : outcome (list Z * bool) :=
  match fuel with
  | O => out_of_fuel
  | S fuel =>
    if c =? 0 then Ok (out, true) else
    if Z.of_nat (size (layouts st)) <? depth then Ok (out, true) else
    match layouts st !! c with
    | None => Ok (out, false)
    | Some layout =>
      r ← fieldWalk (gs_idSize st) fields (fieldTypes layout) offset out;
      match r with
      | inl out => Ok (out, true)
      | inr (offset, out) => superWalk fuel st fields (depth + 1) (superID layout) offset out
      end
    end
  end.
Definition instanceRefs (st : graphState) (classID : Z) (fields : list byte) : outcome (list Z * bool) :=
  superWalk (size (layouts st) + 3) st fields 0 classID 0 [classID].

Definition instance_length_error (objID nbytes : Z) : goerror :=
  Errorf ("hprof: instance 0x" +:+ hex objID +:+ " field data length " +:+ itoa nbytes +:+
          " exceeds the remaining heap-dump segment or the " +:+ itoa maxInstanceFieldBytes +:+ " byte limit").

(** [segLeft ()] is what the segment still holds: the bytes of [sub], and the
    [miss] bytes that the stream does not have. *)
Definition readInstanceDump (miss : Z) (st : graphState) (sub : hprofReader) : outcome (graphState * hprofReader) :=
  '(objID, sub) ← id sub;
  '(_, sub) ← u4 sub;
  '(clsID, sub) ← id sub;
  '(nbytes, sub) ← u4 sub;
  if (maxInstanceFieldBytes <? nbytes) || (len (r_bytes (h_r sub)) + miss <? nbytes)
  then Err (instance_length_error objID nbytes) else
  '(fields, r) ← io_ReadFull (h_r sub) nbytes;
  let sub := with_r sub r in
  let '(b1, cls) := classFor (b st) {| classID := clsID; primType := 0 |} "" in
  let st := set_b st b1 in
  direct ← match layouts st !! clsID with
           | Some layout => '(refs, complete) ← instanceRefs st clsID fields;
                            Ok (if (complete : bool) then Some (layout, refs) else None)
           | None => Ok None
           end;
  match direct with
  | Some (layout, refs) =>
    '(b2, _) ← addObject b1 objID cls (instSize layout) refs; Ok (set_b st b2, sub)
  | None =>
    '(b2, p) ← addObject b1 objID cls nbytes [];
    Ok (add_pending (set_b st b2) {| parseIdx := p; pi_classID := clsID; pi_fields := fields |}, sub)
  end.

(** Every round reads an id, so the bytes of the stream bound the rounds. *)
Fixpoint arrayElems (fuel : nat) (i numElems : Z) (sub : hprofReader) (refs : list Z) : outcome (list Z * hprofReader) :=
  match fuel with
  | O => out_of_fuel
  | S fuel =>
    if i <? numElems then '(ref, sub) ← id sub; arrayElems fuel (i + 1) numElems sub (refs ++ [ref])
    else Ok (refs, sub)
  end.
Definition readObjectArray (st : graphState) (sub : hprofReader) : outcome (graphState * hprofReader) :=
  '(objID, sub) ← id sub;
  '(_, sub) ← u4 sub;
  '(numElems, sub) ← u4 sub;
  '(arrayClassID, sub) ← id sub;
  '(refs, sub) ← arrayElems (S (length (r_bytes (h_r sub)))) 0 numElems sub [];
  let '(b1, cls) := classFor (b st) {| classID := arrayClassID; primType := 0 |} "" in
  let shallow := i64 (hprofArrayHeaderBytes + i64 (numElems * h_idSize sub)) in
  '(b2, _) ← addObject b1 objID cls shallow refs;
  Ok (set_b st b2, sub).

Definition readPrimArray (st : graphState) (sub : hprofReader) : outcome (graphState * hprofReader) :=
  '(objID, sub) ← id sub;
  '(_, sub) ← u4 sub;
  '(numElems, sub) ← u4 sub;
  '(elemType, sub) ← u1 sub;
  let elemSize := hprofTypeSize elemType (h_idSize sub) in
  let '(b1, cls) := classFor (b st) {| classID := 0; primType := elemType |} (primArrayName elemType) in
  '(b2, _) ← addObject b1 objID cls (i64 (hprofArrayHeaderBytes + i64 (numElems * elemSize))) [];
  sub ← skip sub (i64 (numElems * elemSize));
  Ok (set_b st b2, sub).

Definition readHeapSub (miss : Z) (st : graphState) (sub : hprofReader) (tag : Z) : outcome (graphState * hprofReader) :=
  match rootRecordLayout (h_idSize sub) tag with
  | Some (k, n) => readRoot st sub k n
  | None =>
    if tag =? hprofClassDump then readClassDump st sub
    else if tag =? hprofInstanceDump then readInstanceDump miss st sub
    else if tag =? hprofObjectArrayDump then readObjectArray st sub
    else if tag =? hprofPrimArrayDump then readPrimArray st sub
    else if tag =? hprofHeapDumpInfo then sub ← skip sub (4 + h_idSize sub); Ok (st, sub)
    else Err (Errorf ("hprof: unknown heap-dump sub-record tag 0x" +:+ hex2 tag))
  end.

(** Every round reads the tag of a sub-record. *)
Fixpoint heapDumpLoop (fuel : nat) (miss : Z) (st : graphState) (sub : hprofReader) : outcome graphState :=
  match fuel with
  | O => out_of_fuel
  | S fuel =>
    match u1 sub with
    | Panic => Panic
    | Err e =>
      if errors_is_EOF e then
        if negb (miss =? 0) then Err (Wrapf "hprof: truncated heap dump: %w" io_ErrUnexpectedEOF) else Ok st
      else Err (Wrapf "hprof: heap-dump sub-tag: %w" e)
    | Ok (tag, sub) =>
      '(st, sub) ← readHeapSub miss st sub tag;
      match err (b st) with
      | Some e => Err e
      | None => heapDumpLoop fuel miss st sub
      end
    end
  end.
Definition readHeapDump (st : graphState) (hr : hprofReader) (length : Z) : outcome (graphState * hprofReader) :=
  let sub := {| h_r := limited (h_r hr) length; h_idSize := h_idSize hr |} in
  st ← heapDumpLoop (S (List.length (r_bytes (h_r sub)))) (missing (h_r hr) length) st sub;
  Ok (st, with_r hr (after (h_r hr) length)).

(** ** Records *)

Definition readRecord (st : graphState) (hr : hprofReader) (tag length : Z) : outcome (graphState * hprofReader) :=
  if tag =? hprofTagString then readString st hr length
  else if tag =? hprofTagLoadClass then readLoadClass st hr
  else if one_of tag [hprofTagHeapDump; hprofTagHeapDumpSegment] then readHeapDump st hr length
  else hr ← skip hr length; Ok (st, hr).

Definition className (st : graphState) (k : classKey) : string :=
  match classNameID st !! classID k with
  | None => "unknown-0x" +:+ hex (classID k)
  | Some nameID =>
    match strings st !! nameID with
    | Some s => if bool_decide (s = "") then "unknown-0x" +:+ hex (classID k)
                else str_map (λ c, if bool_decide (c = "/"%char) then "."%char else c) s
    | None => "unknown-0x" +:+ hex (classID k)
    end
  end.

Definition with_shallow (b : graphBuilder) (ss : list Z) : graphBuilder := with_objects b (b_ids b) (b_class b) ss.
Definition finalizeStep (st : graphState) (inst : pendingInstance) : outcome graphState :=
  match layouts st !! pi_classID inst with
  | None => Ok st
  | Some layout =>
    ss ← set_idx (b_shallow (b st)) (parseIdx inst) (instSize layout);
    let st := set_b st (with_shallow (b st) ss) in
    '(refs, _) ← instanceRefs st (pi_classID inst) (pi_fields inst);
    b' ← appendRefs (b st) (parseIdx inst) refs;
    Ok (set_b st b')
  end.
Definition with_unresolved (g : ObjectGraph) (n : Z) : ObjectGraph :=
  {| IDSize := IDSize g; Unresolved := n; ids := ids g; class := class g; shallow := shallow g;
     outStart := outStart g; out := out g; roots := roots g; gcRoots := gcRoots g; predCache := predCache g;
     classNames := classNames g; classObjOf := classObjOf g |}.

Section Parse.
Context `{GoRuntime}.

Definition finalize (st : graphState) : outcome ObjectGraph :=
  st ← for_each (pending st) finalizeStep st;
  g ← build (b st) (className st);
  Ok (fold_left (λ g inst, match layouts st !! pi_classID inst with
                           | Some _ => g
                           | None => with_unresolved g (i64 (Unresolved g + 1))
                           end) (pending st) g).

(** Every round reads the tag of a record. *)
Fixpoint recordLoop (fuel : nat) (st : graphState) (hr : hprofReader) : outcome graphState :=
  match fuel with
  | O => out_of_fuel
  | S fuel =>
    match u1 hr with
    | Panic => Panic
    | Err e => if errors_is_EOF e then Ok st else Err (Wrapf "hprof: read record tag: %w" e)
    | Ok (tag, hr) =>
      '(_, hr) ← wrap_err "hprof: read record time: %w" (u4 hr);
      '(length, hr) ← wrap_err "hprof: read record length: %w" (u4 hr);
      '(st, hr) ← readRecord st hr tag length;
      match err (b st) with
      | Some e => Err e
      | None => recordLoop fuel st hr
      end
    end
  end.

Definition initState (idSize : Z) : graphState :=
  let '(b0, c) := classFor (newGraphBuilder idSize) {| classID := 0; primType := 0 |} javaLangClass in
  {| gs_idSize := idSize; strings := ∅; classNameID := ∅; layouts := ∅; pending := []; b := b0; classClass := c |}.

Definition ParseObjectGraph (r : reader) : outcome ObjectGraph :=
  hr ← readHPROFHeader {| h_r := r; h_idSize := 0 |};
  st ← recordLoop (S (length (r_bytes (h_r hr)))) (initState (h_idSize hr)) hr;
  finalize st.
End Parse.
End GraphParser.
