(* ===== verification/HprofSafe.v ===== *)
(** * The graph parser on arbitrary bytes

    The invariant of the parser's state, and that every reader keeps it: the
    parser of [HprofGraph] never panics and terminates on every stream, and the
    graph it returns is well formed. *)

From S2P Require Import Prelude Arrays GoStrings GoRuntime GoIO HeapGraph HprofFormat HprofGraph.

Module GraphParserFacts.
Export GraphParser HprofFacts GraphFacts.

(** ** Progress of the readers *)

Definition consumes (h h' : hprofReader) : Prop := h_idSize h' = h_idSize h ∧ left_ h' <= left_ h.
#[export] Instance consumes_preorder : PreOrder consumes.
Proof. split; [by split|]. intros x y z [? ?] [? ?]. split; [congruence|lia]. Qed.

Lemma wp_reads m good n h : reads m good n → good h →
  wp (m h) (λ x, 0 <= x.1 < 256 ^ Z.of_nat (n h) ∧ h_idSize x.2 = h_idSize h ∧ left_ x.2 = left_ h - Z.of_nat (n h)).
Proof.
  intros Hm Hg. destruct (m h) as [[v h']|e|] eqn:E; [|done|by apply (reads_safe _ _ _ Hm) in E].
  apply (reads_inv _ _ _ Hm) in E as (Hi & Hv & Hh); [|done]. cbn. split_and!; [lia..|done|]. apply (f_equal left_) in Hh. rewrite left_hpush, len_be_bytes in Hh. lia.
Qed.
Lemma wp_u1 h : wp (u1 h) (λ x, 0 <= x.1 < 256 ∧ h_idSize x.2 = h_idSize h ∧ left_ x.2 = left_ h - 1).
Proof. by apply (wp_reads _ _ _ h u1_reads). Qed.
Lemma wp_u2 h : wp (u2 h) (λ x, 0 <= x.1 < 65536 ∧ h_idSize x.2 = h_idSize h ∧ left_ x.2 = left_ h - 2).
Proof. by apply (wp_reads _ _ _ h u2_reads). Qed.
Lemma wp_u4 h : wp (u4 h) (λ x, 0 <= x.1 < 2 ^ 32 ∧ h_idSize x.2 = h_idSize h ∧ left_ x.2 = left_ h - 4).
Proof. by apply (wp_reads _ _ _ h u4_reads). Qed.
Lemma wp_u8 h : wp (u8 h) (λ x, 0 <= x.1 < 2 ^ 64 ∧ h_idSize x.2 = h_idSize h ∧ left_ x.2 = left_ h - 8).
Proof. by apply (wp_reads _ _ _ h u8_reads). Qed.
Lemma wp_id h : id_ok h → wp (id h) (λ x, 0 <= x.1 < 2 ^ 64 ∧ h_idSize x.2 = h_idSize h ∧ left_ x.2 = left_ h - h_idSize h).
Proof.
  intros Hi. eapply wp_mono; [apply (wp_reads _ _ _ h id_reads Hi)|]. cbv beta. intros x (Hx & H1 & H2).
  destruct Hi as [Hi|Hi]; rewrite Hi in *; (split; [|split; [done|lia]]).
  - change (256 ^ Z.of_nat (Z.to_nat 4)) with (2 ^ 32) in Hx. lia.
  - change (256 ^ Z.of_nat (Z.to_nat 8)) with (2 ^ 64) in Hx. lia.
Qed.
Lemma wp_skip h n : wp (skip h n) (consumes h).
Proof.
  unfold skip, CopyN. destruct (n <=? 0) eqn:E; [by destruct h|]. destruct (n <=? len _) eqn:E'; [|done]. to_prop. cbn.
  split; [done|]. unfold left_. cbn. rewrite len_sub by lia. lia.
Qed.
Lemma wp_read h n : 0 <= n → wp (io_ReadFull (h_r h) n) (λ x, len x.1 = n ∧ consumes h (with_r h x.2)).
Proof.
  intros Hn. eapply wp_mono; [by apply wp_io_ReadFull|]. intros [bs r] [Hb Hr]. cbn in *. split; [done|]. split; [done|]. unfold left_. cbn. lia.
Qed.

Lemma typeSize_nonneg t i : 0 <= i → 0 <= hprofTypeSize t i.
Proof. intros. unfold hprofTypeSize. repeat case_match; lia. Qed.
Lemma id_ok_eq h h' : h_idSize h' = h_idSize h → id_ok h → id_ok h'.
Proof. unfold id_ok. by intros ->. Qed.

(** Chains of [consumes] from the steps of a reader. *)
Ltac consume := unfold consumes, id_ok in *; cbn [fst snd] in *; intuition (congruence || lia).
(** The next call of a reader, by its rule. *)
Tactic Notation "read" uconstr(L) "as" simple_intropattern(p) simple_intropattern(q) :=
  apply wp_bind; eapply wp_mono; [apply L; try consume|cbv beta; intros p q; cbn [fst snd] in *].
Tactic Notation "last" uconstr(L) "as" simple_intropattern(p) simple_intropattern(q) :=
  eapply wp_mono; [apply L; try consume|cbv beta; intros p q; cbn [fst snd] in *].
#[local] Hint Resolve len_nonneg left_nonneg : core.

Lemma wp_readIDs n h : id_ok h → wp (readIDs n h) (λ x, length x.1 = n ∧ consumes h x.2).
Proof.
  revert h. induction n as [|n IH]; intros h Hi; cbn [readIDs]; [by split|].
  read wp_id as [x h1] (Hx & H1 & H2).
  read IH as [xs h2] (Hl & Hc). cbn. split; [lia|]. consume.
Qed.
Lemma wp_skipPoolEntries n h : wp (skipPoolEntries n h) (consumes h).
Proof.
  revert h. induction n as [|n IH]; intros h; cbn [skipPoolEntries]; [done|].
  read wp_u2 as [x h1] (_ & H1 & H2).
  read wp_u1 as [t h2] (_ & H3 & H4).
  read wp_skip as h3 H5. last IH as h4 H6. consume.
Qed.
Lemma wp_skipClassPool h : wp (skipClassPool h) (consumes h).
Proof.
  unfold skipClassPool. read wp_u2 as [x h1] (_ & H1 & H2).
  last wp_skipPoolEntries as h2 H3. consume.
Qed.
Lemma wp_staticRefs n h refs : id_ok h → wp (staticRefs n h refs) (λ x, consumes h x.2).
Proof.
  revert h refs. induction n as [|n IH]; intros h refs Hi; cbn [staticRefs]; [done|].
  read wp_id as [x h1] (_ & H1 & H2).
  read wp_u1 as [t h2] (_ & H3 & H4).
  apply wp_if; intros _; apply wp_bind.
  - last wp_skip as h3 H5. last IH as h4 H6. consume.
  - last wp_id as [r h3] (_ & H5 & H6).
    last IH as h4 H7. consume.
Qed.
Lemma wp_readStaticRefs h refs : id_ok h → wp (readStaticRefs h refs) (λ x, consumes h x.2).
Proof.
  intros Hi. unfold readStaticRefs. read wp_u2 as [x h1] (_ & H1 & H2).
  last wp_staticRefs as h2 H3. consume.
Qed.
Lemma wp_instanceFieldTypes n h ts : id_ok h → wp (instanceFieldTypes n h ts) (λ x, consumes h x.2).
Proof.
  revert h ts. induction n as [|n IH]; intros h ts Hi; cbn [instanceFieldTypes]; [done|].
  read wp_id as [x h1] (_ & H1 & H2).
  read wp_u1 as [t h2] (_ & H3 & H4).
  last IH as h3 H5. consume.
Qed.
Lemma wp_readInstanceFieldTypes h : id_ok h → wp (readInstanceFieldTypes h) (λ x, consumes h x.2).
Proof.
  intros Hi. unfold readInstanceFieldTypes. read wp_u2 as [x h1] (_ & H1 & H2).
  last wp_instanceFieldTypes as h2 H3. consume.
Qed.
Lemma wp_arrayElems fuel i n h refs : id_ok h → left_ h < Z.of_nat fuel → wp (arrayElems fuel i n h refs) (λ x, consumes h x.2).
Proof.
  revert i h refs. induction fuel as [|fuel IH]; intros i h refs Hi Hf; cbn [arrayElems]; [pose proof (left_nonneg h); lia|].
  apply wp_if; intros _; [|done].
  read wp_id as [x h1] (_ & H1 & H2).
  last IH as h2 H3. consume.
Qed.

(** ** The state between two records *)

Record state_ok (st : graphState) : Prop := {
  sk_id : gs_idSize st = 4 ∨ gs_idSize st = 8;
  sk_b : builder_ok (b st);
  sk_err : err (b st) = None;
  sk_keys : len (classKeys (b st)) <= len (b_ids (b st)) + 1;
  sk_class : 0 <= classClass st < len (classKeys (b st));
  sk_layouts c l : layouts st !! c = Some l → 0 <= instSize l < 2 ^ 32;
  sk_pending p : p ∈ pending st → 0 <= parseIdx p < len (b_ids (b st)) ∧ refs_of (b st) (parseIdx p) = [];
  sk_distinct : NoDup (parseIdx <$> pending st) }.

(** What a reader leaves: a recorded size-limit error, or the invariant. *)
Definition settled (st : graphState) : Prop := err (b st) = None → state_ok st.

Lemma objects_lookup bd p : 0 <= p < len (b_ids bd) → objects bd !! Z.to_nat p = Some (object_at bd p).
Proof.
  intros Hp. unfold objects. rewrite list_lookup_fmap. unfold upto. rewrite lookup_seqZ_lt by lia. cbn. by replace (0 + Z.of_nat (Z.to_nat p)) with p by lia.
Qed.
Lemma refs_of_objects bd bd' os p : objects bd' = objects bd ++ os → 0 <= p < len (b_ids bd) → refs_of bd' p = refs_of bd p.
Proof.
  intros Ho Hp. pose proof (objects_lookup bd p Hp) as H1. assert (len (b_ids bd') = len (b_ids bd) + len os) as Hl.
  { rewrite <-!len_objects, Ho. apply len_app. }
  pose proof (len_nonneg os). assert (0 <= p < len (b_ids bd')) as Hp' by lia.
  pose proof (objects_lookup bd' p Hp') as H2. rewrite Ho in H2. rewrite (lookup_app_l_Some _ _ _ _ H1) in H2.
  injection H2. unfold object_at. congruence.
Qed.

(** One more object, of a class that is looked up first. *)
Lemma add_step st k name b1 c id cls sh refs : state_ok st → classFor (b st) k name = (b1, c) →
  cls = c ∨ cls = classClass st → i64 sh = sh →
  runs (addObject b1 id cls sh refs) (λ r, err r.1 = None →
    state_ok (set_b st r.1) ∧ r.2 = len (b_ids (b st)) ∧ b_ids r.1 = b_ids (b st) ++ [id] ∧ refs_of r.1 r.2 = nonzero refs).
Proof.
  intros S Hc Hcls Hsh. pose proof (sk_keys _ S) as Hk. pose proof (bo_len _ (sk_b _ S)) as Hmax.
  destruct (classFor_spec _ _ _ _ _ (sk_b _ S) ltac:(lia) Hc) as (B1 & Hc1 & _ & Ho & Hlen & Hids & He & Hr & Hraw).
  pose proof (sk_class _ S) as Hcc.
  eapply runs_mono; [apply (addObject_spec b1 id cls sh refs B1)|]; [destruct Hcls as [-> | ->]; lia|done|].
  intros [b2 p] (B2 & _ & _ & Hkeys & _ & [(He2 & Hp & Hids2 & Ho2)|Hne]) Herr; cbn [fst snd] in *; [|done].
  assert (refs_of b2 p = nonzero refs) as Hnew.
  { subst p. pose proof (len_nonneg (b_ids b1)). assert (0 <= len (b_ids b1) < len (b_ids b2)) as Hr2 by (rewrite Hids2, len_snoc; lia).
    pose proof (objects_lookup b2 _ Hr2) as Hl. rewrite Ho2 in Hl. rewrite <-len_objects in Hl at 1. unfold len at 1 in Hl. rewrite Nat2Z.id in Hl.
    rewrite list_lookup_middle in Hl by done. injection Hl. unfold object_at. congruence. }
  split_and!; [|congruence..|done]. destruct S as [S1 S2 S3 S4 S5 S6 S7 S8]. split; cbn; try done.
  - rewrite Hkeys, Hids2, len_snoc, Hids. lia.
  - rewrite Hkeys. lia.
  - intros q Hq. destruct (S7 q Hq) as [Hq1 Hq2]. rewrite Hids2, len_snoc, Hids. split; [lia|].
    rewrite (refs_of_objects b1 b2 _ _ Ho2) by (rewrite Hids; lia).
    rewrite (refs_of_objects (b st) b1 [] _) by (rewrite ?app_nil_r; done). done.
Qed.

(** ** The readers keep the invariant *)

Definition keeps (st : graphState) (h : hprofReader) (x : graphState * hprofReader) : Prop :=
  consumes h x.2 ∧ settled x.1 ∧ gs_idSize x.1 = gs_idSize st.

(** The references of an instance depend on the layouts only. *)
Lemma superWalk_ext st st' : layouts st' = layouts st → gs_idSize st' = gs_idSize st → ∀ fuel fields depth c offset out,
  superWalk fuel st' fields depth c offset out = superWalk fuel st fields depth c offset out.
Proof.
  intros Hl Hi. induction fuel as [|fuel IH]; intros; [done|]. cbn [superWalk]. rewrite Hl, Hi. destruct (_ =? 0); [done|]. destruct (_ <? _); [done|].
  destruct (layouts st !! c); [|done]. destruct (fieldWalk _ _ _ _ _) as [[|[]]| |]; cbn; auto.
Qed.
Lemma instanceRefs_ext st st' c fields : layouts st' = layouts st → gs_idSize st' = gs_idSize st → instanceRefs st' c fields = instanceRefs st c fields.
Proof. intros Hl Hi. unfold instanceRefs. rewrite Hl. by apply superWalk_ext. Qed.

Section Readers.
Context (st : graphState) (S : state_ok st).

Lemma id_ok_of h : h_idSize h = gs_idSize st → id_ok h.
Proof. unfold id_ok. intros ->. apply S. Qed.
Lemma settled_strings m : settled (set_strings st m).
Proof. intros _. destruct S. by split. Qed.
Lemma settled_names m : settled (set_classNameID st m).
Proof. intros _. destruct S. by split. Qed.
Lemma state_ok_layouts c l : 0 <= instSize l < 2 ^ 32 → state_ok (set_layouts st (<[c := l]> (layouts st))).
Proof.
  intros Hl. destruct S as [S1 S2 S3 S4 S5 S6 S7 S8]. split; try done. cbn. intros c' l'. rewrite lookup_insert_Some. intros [[_ <-]|[_ ?]]; eauto.
Qed.
Lemma settled_roots rs ts : settled (set_b st (with_roots (b st) rs ts)).
Proof. intros _. destruct S as [S1 [] S3 S4 S5 S6 S7 S8]. split; try done. Qed.

Lemma wp_readString h n : h_idSize h = gs_idSize st → wp (readString st h n) (keeps st h).
Proof.
  intros Hi. pose proof (id_ok_of h Hi) as Hid. unfold readString. apply wp_bind, wp_wrap_err. last wp_id as [i h1] (_ & H1 & H2).
  apply wp_if; intros Hn; [done|]. to_prop. apply wp_bind, wp_wrap_err. last (wp_read h1 (n - h_idSize h1)) as [bs r] (_ & H3).
  apply wp_ok. split_and!; [consume|apply settled_strings|done].
Qed.
Lemma wp_readLoadClass h : h_idSize h = gs_idSize st → wp (readLoadClass st h) (keeps st h).
Proof.
  intros Hi. pose proof (id_ok_of h Hi) as Hid. unfold readLoadClass. read wp_u4 as [? h1] (_ & H1 & H2). read wp_id as [? h2] (_ & H3 & H4).
  read wp_u4 as [? h3] (_ & H5 & H6). read wp_id as [? h4] (_ & H7 & H8). apply wp_ok. split_and!; [consume|apply settled_names|done].
Qed.
Lemma wp_readRoot h k n : h_idSize h = gs_idSize st → wp (readRoot st h k n) (keeps st h).
Proof.
  intros Hi. pose proof (id_ok_of h Hi) as Hid. unfold readRoot. read wp_id as [o h1] (_ & H1 & H2). apply wp_bind.
  assert (wp (if hasThreadSerial k then '(s, sub) ← u4 h1; Ok (s, n - h_idSize h1 - 4, sub) else Ok (0, n - h_idSize h1, h1)) (λ x, consumes h1 x.2)) as Hs.
  { apply wp_if; intros _; [|done]. read wp_u4 as [s h2] (_ & H3 & H4). apply wp_ok. consume. }
  eapply wp_mono; [exact Hs|]. intros [[s rest] h2] H3. cbn [fst snd] in *. read wp_skip as h3 H4. apply wp_ok.
  split_and!; [consume|apply settled_roots|done].
Qed.
Lemma i64_u32 n : 0 <= n < 2 ^ 32 → i64 n = n.
Proof. intros. apply i64_small. lia. Qed.

Lemma wp_readClassDump h : h_idSize h = gs_idSize st → wp (readClassDump st h) (keeps st h).
Proof.
  intros Hi. pose proof (id_ok_of h Hi) as Hid. unfold readClassDump. read wp_id as [c h1] (_ & H1 & H2). read wp_u4 as [? h2] (_ & H3 & H4).
  read wp_readIDs as [hdr h3] (Hl & H5). read wp_u4 as [sz h4] (Hsz & H6 & H7). apply wp_bind. last wp_skipClassPool as h5 H8.
  destruct hdr as [|super [|loader hdr]]; [done..|]. change (idx (super :: loader :: hdr) 0) with (@Ok Z super). change (idx (super :: loader :: hdr) 1) with (@Ok Z loader). rewrite !bind_ok. read wp_readStaticRefs as [refs h6] H9. read wp_readInstanceFieldTypes as [ts h7] H10.
  set (st1 := set_layouts _ _). assert (state_ok st1) as S1 by by apply state_ok_layouts.
  destruct (classFor (b st1) _ "") as [b1 cls] eqn:Hc. apply wp_bind, runs_wp.
  eapply runs_mono; [apply (add_step st1 _ _ _ _ c (classClass st1) 0 refs S1 Hc); by auto|]. intros [b2 p] Hadd. cbn [fst snd] in *.
  apply wp_ok. split_and!; [consume| |done]. intros He. by apply Hadd.
Qed.

Lemma wp_readID bs n : n = 4 ∨ n = 8 → len bs = n → wp (readID bs n) (λ i, i = be bs).
Proof.
  intros Hn Hl. unfold readID. destruct Hn as [-> | ->]; cbn [Z.eqb Pos.eqb]; apply wp_bind; rewrite slice_all by done; cbn;
    (apply wp_be_uint; [lia|]); intros z _ ->; rewrite take_ge; [done|unfold len in Hl; lia|done|unfold len in Hl; lia].
Qed.
Lemma fieldWalk_runs fields types offset out : 0 <= offset →
  runs (fieldWalk (gs_idSize st) fields types offset out) (λ r, match r with inl _ => True | inr (o, _) => offset <= o end).
Proof.
  revert offset out. induction types as [|t types IH]; intros offset out Ho; cbn [fieldWalk]; [by apply runs_ok|].
  pose proof (sk_id _ S) as Hi. pose proof (typeSize_nonneg t (gs_idSize st)) as Hs. specialize (Hs ltac:(lia)).
  apply runs_if; intros Hlt; to_prop; [by apply runs_ok|].
  assert (∀ out', runs (fieldWalk (gs_idSize st) fields types (offset + hprofTypeSize t (gs_idSize st)) out')
    (λ r, match r with inl _ => True | inr (o, _) => offset <= o end)) as Hnext.
  { intros out'. eapply runs_mono; [apply IH; lia|]. intros [|[o ?]]; [done|lia]. }
  apply runs_if; intros Ht; to_prop; [|done]. apply runs_bind, runs_slice; [lia..|].
  assert (hprofTypeSize t (gs_idSize st) = gs_idSize st) as Hsz by by (rewrite Ht; unfold hprofTypeSize; rewrite Z.eqb_refl).
  apply runs_bind. destruct (readID _ _) as [i|e|] eqn:E; [by apply runs_ok| |]; exfalso;
    (assert (len (sub fields offset (offset + hprofTypeSize t (gs_idSize st))) = gs_idSize st) as Hl by (rewrite len_sub by lia; lia));
    pose proof (wp_readID _ _ Hi Hl) as Hw; rewrite E in Hw; [|done].
  revert E. unfold readID. destruct Hi as [Hi|Hi]; rewrite Hi in *; cbn [Z.eqb Pos.eqb]; rewrite slice_all by done; cbn; unfold be_uint;
    destruct (Nat.ltb _ _); done.
Qed.
Lemma superWalk_runs fuel fields depth c offset out : 0 <= offset → Z.of_nat (size (layouts st)) + 2 < depth + Z.of_nat fuel → (0 < fuel)%nat →
  runs (superWalk fuel st fields depth c offset out) (λ _, True).
Proof.
  revert depth c offset out. induction fuel as [|fuel IH]; intros depth c offset out Ho Hf H0; [lia|]. cbn [superWalk].
  apply runs_if; intros _; [by apply runs_ok|]. apply runs_if; intros Hd; to_prop; [by apply runs_ok|].
  destruct (layouts st !! c) as [l|]; [|by apply runs_ok]. apply runs_bind. eapply runs_mono; [by apply fieldWalk_runs|].
  intros [o|[o ?]] Hle; [by apply runs_ok|]. apply IH; lia.
Qed.
Lemma instanceRefs_runs c fields : runs (instanceRefs st c fields) (λ _, True).
Proof. apply superWalk_runs; lia. Qed.

Lemma wp_readInstanceDump miss h : h_idSize h = gs_idSize st → wp (readInstanceDump miss st h) (keeps st h).
Proof.
  intros Hi. pose proof (id_ok_of h Hi) as Hid. unfold readInstanceDump. read wp_id as [o h1] (_ & H1 & H2). read wp_u4 as [? h2] (_ & H3 & H4).
  read wp_id as [c h3] (_ & H5 & H6). read wp_u4 as [n h4] (Hn & H7 & H8). apply wp_if; intros Hlim; [done|].
  read (wp_read h4 n) as [fields r] (Hfl & H9). destruct (classFor (b st) _ "") as [b1 cls] eqn:Hc.
  pose proof (i64_u32 n Hn) as Hn64. pose proof (len_nonneg (b_ids (b st))).
  change (layouts (set_b st b1)) with (layouts st). apply wp_bind, runs_wp.
  assert (runs (match layouts st !! c with
                | Some layout => '(refs, complete) ← instanceRefs (set_b st b1) c fields; Ok (if (complete : bool) then Some (layout, refs) else None)
                | None => Ok None end) (λ d, ∀ l refs, d = Some (l, refs) → layouts st !! c = Some l)) as Hd.
  { destruct (layouts st !! c) as [l|]; [|by apply runs_ok]. apply runs_bind.
    rewrite (instanceRefs_ext st) by done. eapply runs_mono; [apply instanceRefs_runs|]. intros [refs complete] _. apply runs_ok. destruct complete; naive_solver. }
  eapply runs_mono; [exact Hd|]. intros [[l refs]|] Hl; apply wp_bind, runs_wp.
  - pose proof (i64_u32 _ (sk_layouts _ S c l (Hl _ _ eq_refl))) as Hsz.
    eapply runs_mono; [apply (add_step st _ _ _ _ o cls (instSize l) refs S Hc); by auto|]. intros [b2 p] Hadd. apply wp_ok.
    split_and!; [consume| |done]. intros He. by apply Hadd.
  - eapply runs_mono; [apply (add_step st _ _ _ _ o cls n [] S Hc); by auto|]. intros [b2 p] Hadd. apply wp_ok.
    split_and!; [consume| |done]. intros He. destruct (Hadd He) as (S2 & Hp & Hids & Hrefs). cbn [fst snd] in *. subst p.
    destruct S2 as [S1' S2' S3' S4' S5' S6' S7' S8']. split; cbn in *; try done.
    + intros q [Hq| ->%list_elem_of_singleton]%elem_of_app; [by apply S7'|]. cbn. rewrite Hids, len_snoc. split; [lia|done].
    + rewrite fmap_app. apply NoDup_app. split_and!; [done| |apply NoDup_singleton].
      intros x (q & -> & Hq)%list_elem_of_fmap Hx%list_elem_of_singleton. cbn in Hx. destruct (sk_pending _ S q Hq) as [? _]. lia.
Qed.
Lemma wp_readObjectArray h : h_idSize h = gs_idSize st → wp (readObjectArray st h) (keeps st h).
Proof.
  intros Hi. pose proof (id_ok_of h Hi) as Hid. unfold readObjectArray. read wp_id as [o h1] (_ & H1 & H2). read wp_u4 as [? h2] (_ & H3 & H4).
  read wp_u4 as [n h3] (Hn & H5 & H6). read wp_id as [c h4] (_ & H7 & H8). apply wp_bind.
  eapply wp_mono; [apply wp_arrayElems; [consume|unfold left_, len; lia]|]. intros [refs h5] H9. cbn [fst snd] in *.
  destruct (classFor (b st) _ "") as [b1 cls] eqn:Hc. apply wp_bind, runs_wp.
  eapply runs_mono; [apply (add_step st _ _ _ _ o cls _ refs S Hc); [by auto|apply i64_small, i64_range]|].
  intros [b2 p] Hadd. apply wp_ok. split_and!; [consume| |done]. intros He. by apply Hadd.
Qed.
Lemma wp_readPrimArray h : h_idSize h = gs_idSize st → wp (readPrimArray st h) (keeps st h).
Proof.
  intros Hi. pose proof (id_ok_of h Hi) as Hid. unfold readPrimArray. read wp_id as [o h1] (_ & H1 & H2). read wp_u4 as [? h2] (_ & H3 & H4).
  read wp_u4 as [n h3] (Hn & H5 & H6). read wp_u1 as [t h4] (_ & H7 & H8). destruct (classFor (b st) _ (primArrayName t)) as [b1 cls] eqn:Hc. apply wp_bind, runs_wp.
  eapply runs_mono; [apply (add_step st _ _ _ _ o cls _ [] S Hc); [by auto|apply i64_small, i64_range]|].
  intros [b2 p] Hadd. read wp_skip as h5 H9. apply wp_ok. split_and!; [consume| |done]. intros He. by apply Hadd.
Qed.
Lemma wp_readHeapSub miss h tag : h_idSize h = gs_idSize st → wp (readHeapSub miss st h tag) (keeps st h).
Proof.
  intros Hi. unfold readHeapSub. destruct (rootRecordLayout _ _) as [[k n]|]; [by apply wp_readRoot|].
  apply wp_if; intros _; [by apply wp_readClassDump|]. apply wp_if; intros _; [by apply wp_readInstanceDump|].
  apply wp_if; intros _; [by apply wp_readObjectArray|]. apply wp_if; intros _; [by apply wp_readPrimArray|].
  apply wp_if; intros _; [|done]. read wp_skip as h1 H1. apply wp_ok. split_and!; [done|by intros _|done].
Qed.
End Readers.

Lemma wp_heapDumpLoop fuel miss st h : state_ok st → h_idSize h = gs_idSize st → left_ h < Z.of_nat fuel →
  wp (heapDumpLoop fuel miss st h) (λ st', state_ok st' ∧ gs_idSize st' = gs_idSize st).
Proof.
  revert st h. induction fuel as [|fuel IH]; intros st h S Hi Hf; [pose proof (left_nonneg h); lia|]. cbn [heapDumpLoop].
  pose proof (wp_u1 h) as Hu. destruct (u1 h) as [[tag h1]|e|]; [|repeat case_match; done|done].
  destruct Hu as (_ & H1 & H2). cbn [fst snd] in *. apply wp_bind. eapply wp_mono; [apply (wp_readHeapSub st S miss h1 tag); congruence|].
  intros [st1 h2] ([H3 H4] & Hs & Hi1). cbn [fst snd] in *. destruct (err (b st1)) eqn:E; [done|].
  eapply wp_mono; [apply IH; [by apply Hs|congruence|lia]|]. intros st2 [S2 Hi2]. split; [done|congruence].
Qed.
Lemma wp_readHeapDump st h n : 0 <= n → state_ok st → h_idSize h = gs_idSize st → wp (readHeapDump st h n) (keeps st h).
Proof.
  intros Hn S Hi. unfold readHeapDump. apply wp_bind. eapply wp_mono; [apply wp_heapDumpLoop; [done|done|]; unfold left_, len; cbn; lia|].
  intros st1 [S1 Hi1]. apply wp_ok. split_and!; [|by intros _|done]. split; [done|]. unfold left_, len. cbn. rewrite length_drop. lia.
Qed.
Lemma wp_readRecord st h tag n : 0 <= n → state_ok st → h_idSize h = gs_idSize st → wp (readRecord st h tag n) (keeps st h).
Proof.
  intros Hn S Hi. unfold readRecord. apply wp_if; intros _; [by apply wp_readString|]. apply wp_if; intros _; [by apply wp_readLoadClass|].
  apply wp_if; intros _; [by apply wp_readHeapDump|]. read wp_skip as h1 H1. apply wp_ok. split_and!; [done|by intros _|done].
Qed.
Lemma wp_recordLoop fuel st h : state_ok st → h_idSize h = gs_idSize st → left_ h < Z.of_nat fuel → wp (recordLoop fuel st h) state_ok.
Proof.
  revert st h. induction fuel as [|fuel IH]; intros st h S Hi Hf; [pose proof (left_nonneg h); lia|]. cbn [recordLoop].
  pose proof (wp_u1 h) as Hu. destruct (u1 h) as [[tag h1]|e|]; [|repeat case_match; done|done].
  destruct Hu as (_ & H1 & H2). cbn [fst snd] in *. apply wp_bind, wp_wrap_err. last wp_u4 as [? h2] (_ & H3 & H4).
  apply wp_bind, wp_wrap_err. last wp_u4 as [n h3] (Hn & H5 & H6). apply wp_bind.
  eapply wp_mono; [apply (wp_readRecord st h3 tag n); [lia|done|congruence]|].
  intros [st1 h4] ([H7 H8] & Hs & Hi1). cbn [fst snd] in *. destruct (err (b st1)) eqn:E; [done|]. apply IH; [by apply Hs|congruence|lia].
Qed.

(** *** The header and the first state *)

Lemma wp_headerName fuel h name : len name <= 32 → 32 < len name + Z.of_nat fuel → wp (headerName fuel h name) (λ x, consumes h x.2).
Proof.
  revert h name. induction fuel as [|fuel IH]; intros h name Hn Hf; [lia|]. cbn [headerName]. apply wp_bind, wp_wrap_err.
  unfold ReadByte. destruct (r_bytes (h_r h)) as [|c l] eqn:E; [done|]. apply wp_ok. assert (consumes h (with_r h (Reader l (r_final (h_r h))))) as Hc.
  { split; [done|]. unfold left_. cbn. rewrite E, len_cons. lia. }
  apply wp_if; intros _; [by apply wp_ok|]. unfold maxHPROFHeaderName. apply wp_if; intros Hl; [done|]. to_prop.
  eapply wp_mono; [apply IH; rewrite len_snoc; lia|]. intros x Hx. by etrans.
Qed.
Lemma wp_readHPROFHeader h : wp (readHPROFHeader h) (λ h', (h_idSize h' = 4 ∨ h_idSize h' = 8) ∧ left_ h' <= left_ h).
Proof.
  unfold readHPROFHeader. apply wp_bind. eapply wp_mono; [by apply wp_headerName|]. intros [name h1] [H1 H2]. cbn [fst snd] in *. apply wp_if; intros _; [done|]. apply wp_bind, wp_wrap_err.
  last wp_u4 as [sz h2] (_ & H3 & H4). apply wp_if; intros Hsz; [done|]. apply wp_bind, wp_wrap_err.
  last wp_u8 as [? h3] (_ & H5 & H6). apply wp_ok. unfold left_ in *. cbn in *. rewrite H5. split; [to_prop; destruct Hsz; to_prop; auto|lia].
Qed.
Lemma initState_ok n : n = 4 ∨ n = 8 → state_ok (initState n).
Proof.
  intros Hn. unfold initState. assert (builder_ok (newGraphBuilder n)) as B.
  { split; cbn; try done; try (intros ? []%not_elem_of_nil).
    - intros p. unfold len. cbn. lia.
    - intros k i. rewrite lookup_empty, lookup_nil. naive_solver. }
  destruct (classFor _ _ _) as [b0 c] eqn:Hc. destruct (classFor_spec _ _ _ _ _ B ltac:(done) Hc) as (B1 & Hc1 & _ & _ & Hlen & Hids & He & _).
  split; cbn; try done.
  - rewrite Hids. unfold len in *. cbn in *. lia.
  - intros p []%not_elem_of_nil.
  - constructor.
Qed.

(** ** Instances that preceded their class *)

(** The object of a pending instance, once the layouts are known. *)
Definition resolved_as (st : graphState) (inst : pendingInstance) (o : object) : Prop :=
  match layouts st !! pi_classID inst with
  | None => o = object_at (b st) (parseIdx inst)
  | Some l => ∃ refs c, instanceRefs st (pi_classID inst) (pi_fields inst) = Ok (refs, c) ∧
      o = {| o_id := get (b_ids (b st)) (parseIdx inst); o_class := get (b_class (b st)) (parseIdx inst);
             o_shallow := instSize l; o_refs := nonzero refs |}
  end.
(** The fields that [finalize] leaves as they are. *)
Definition same_tables (st st' : graphState) : Prop :=
  (layouts st', gs_idSize st', strings st', classNameID st', pending st', classClass st') = (layouts st, gs_idSize st, strings st, classNameID st, pending st, classClass st) ∧
  (b_ids (b st'), b_class (b st'), b_roots (b st'), threadBySerial (b st'), classIdx (b st'), classKeys (b st'), b_classNames (b st'), idSize (b st')) =
  (b_ids (b st), b_class (b st), b_roots (b st), threadBySerial (b st), classIdx (b st), classKeys (b st), b_classNames (b st), idSize (b st)).
Record finalized (st : graphState) (d : list pendingInstance) (s : graphState) : Prop := {
  fi_b : builder_ok (b s);
  fi_same : same_tables st s;
  fi_other q : 0 <= q < len (b_ids (b st)) → q ∉ parseIdx <$> d → object_at (b s) q = object_at (b st) q;
  fi_done p : err (b s) = None → p ∈ d → resolved_as st p (object_at (b s) (parseIdx p)) }.

Lemma builder_ok_shallow bd p v : builder_ok bd → i64 v = v → builder_ok (with_shallow bd (put (b_shallow bd) p v)).
Proof.
  intros [B1 B2 B3 BS B4 B5 B6 B7 B8 B9 B10 B11] Hv. split; cbn; rewrite ?len_put; try done.
  intros s (i & Hi & <-)%elem_of_get. rewrite len_put in Hi. destruct (decide (i = p)) as [->|].
  - by rewrite get_put_eq.
  - destruct (decide (0 <= p)); [rewrite get_put_ne by lia; apply BS, elem_of_get; eauto|].
    unfold put, get. destruct (decide (Z.to_nat p = Z.to_nat i)) as [->|Hne].
    + rewrite list_lookup_total_insert_eq; [done|unfold len in *; lia].
    + rewrite list_lookup_total_insert_ne by done. apply BS, elem_of_get. eauto.
Qed.

Section Finalize.
Context (st : graphState) (S : state_ok st).

Lemma finalizeStep_spec d p r s : pending st = d ++ p :: r → finalized st d s → runs (finalizeStep s p) (finalized st (d ++ [p])).
Proof.
  intros Heq [FB [T1 T2] Fo Fd]. injection T1 as L1 L2 L3 L4 L5 L6. injection T2 as M1 M2 M3 M4 M5 M6 M7 M8.
  destruct (sk_pending _ S p) as [Hp Hnil]; [rewrite Heq; set_solver|].
  pose proof (sk_distinct _ S) as Hnd. rewrite Heq, fmap_app in Hnd. apply NoDup_app in Hnd as (_ & Hnd1 & Hnd2).
  assert (parseIdx p ∉ parseIdx <$> d) as Hpd by (intros Hin; apply (Hnd1 _ Hin); by left).
  assert (∀ q, q ∈ d → parseIdx q ≠ parseIdx p) as Hne by (intros q Hq He; apply Hpd; rewrite <-He; by apply list_elem_of_fmap_2).
  unfold finalizeStep. rewrite L1. destruct (layouts st !! pi_classID p) as [l|] eqn:El.
  2: { apply runs_ok. split; [done|split; congruence| |].
       - intros q Hq Hqd. apply Fo; [done|]. intros Hin. apply Hqd. rewrite fmap_app. by apply elem_of_app; left.
       - intros q He [Hq| ->%list_elem_of_singleton]%elem_of_app; [by apply Fd|]. unfold resolved_as. rewrite El. by apply Fo. }
  pose proof (i64_u32 _ (sk_layouts _ S _ _ El)) as Hsz.
  apply runs_bind, runs_set_idx; [rewrite (bo_shallow _ FB), M1; done|]. cbv zeta.
  set (s1 := set_b s _). assert (builder_ok (b s1)) as B1 by by apply builder_ok_shallow.
  apply runs_bind. rewrite (instanceRefs_ext st s1) by done. destruct (instanceRefs_runs st S (pi_classID p) (pi_fields p)) as ([refs c] & Hrefs & _).
  rewrite Hrefs. apply runs_ok. apply runs_bind. pose proof (Fo _ Hp Hpd) as Hobj.
  assert (∀ q, 0 <= q < len (b_ids (b st)) → q ≠ parseIdx p → object_at (b s1) q = object_at (b s) q) as Hs1.
  { intros q Hq Hqp. unfold object_at, refs_of. cbn. by rewrite get_put_ne by lia. }
  assert (refs_of (b s1) (parseIdx p) = []) as Hr1 by (rewrite <-Hnil; injection Hobj; intros <-; done).
  eapply runs_mono; [apply (appendRefs_spec (b s1) (parseIdx p) refs B1); [cbn; by rewrite M1|done]|].
  intros b' [B' Hb']. apply runs_ok. split; [done|..].
  - destruct Hb' as [(_ & S1 & S2 & S3 & S4 & S5 & S6 & S7 & S8 & S9 & _)|(_ & ->)]; (split; cbn in *; congruence).
  - intros q Hq Hqd. assert (q ≠ parseIdx p ∧ q ∉ parseIdx <$> d) as [Hqp Hqd'] by (rewrite fmap_app, elem_of_app in Hqd; set_solver).
    rewrite <-Fo, <-Hs1 by done. destruct Hb' as [(_ & S1 & S2 & S3 & _ & _ & _ & _ & _ & _ & _ & S11)|(_ & ->)]; [|done].
    cbn. unfold object_at. rewrite S1, S2, S3, S11; [done|cbn; by rewrite M1|done].
  - intros q He Hq. cbn in He. destruct Hb' as [(Hee & S1 & S2 & S3 & _ & _ & _ & _ & _ & _ & S10 & S11)|(Hne' & ->)]; [|done].
    apply elem_of_app in Hq as [Hq| ->%list_elem_of_singleton].
    + assert (0 <= parseIdx q < len (b_ids (b st))) as Hqr by (apply (sk_pending _ S q); rewrite Heq; set_solver).
      assert (object_at b' (parseIdx q) = object_at (b s) (parseIdx q)) as Ho.
      { rewrite <-Hs1 by auto. unfold object_at. rewrite S1, S2, S3, S11; [done|cbn; by rewrite M1|auto]. }
      cbn. rewrite Ho. apply Fd; [|done]. by rewrite Hee in He.
    + unfold resolved_as. rewrite El. exists refs, c. split; [done|]. cbn. unfold object_at. rewrite S1, S2, S3, S10. cbn.
      rewrite M1, M2, get_put_eq; [done|]. rewrite (bo_shallow _ FB), M1. done.
Qed.
Lemma finalizeLoop_spec : runs (for_each (pending st) finalizeStep st) (finalized st (pending st)).
Proof.
  apply runs_for_each.
  - split; [apply S|done|done|]. intros p _ []%not_elem_of_nil.
  - intros d p r s Heq. by apply (finalizeStep_spec d p r).
Qed.
End Finalize.

(** ** The whole parser *)

Section Whole.
Context {R : GoRuntime} {HR : RuntimeOk R}.

Definition unresolved (st : graphState) : list pendingInstance := filter (λ p, layouts st !! pi_classID p = None) (pending st).

Lemma with_unresolved_ok g n : graph_ok g → graph_ok (with_unresolved g n).
Proof. intros []. by split. Qed.
Lemma count_unresolved (m : gmap Z classLayout) l g :
  fold_left (λ g inst, match m !! pi_classID inst with Some _ => g | None => with_unresolved g (i64 (Unresolved g + 1)) end) l g =
  if decide (filter (λ p, m !! pi_classID p = None) l = []) then g
  else with_unresolved g (i64 (Unresolved g + len (filter (λ p, m !! pi_classID p = None) l))).
Proof.
  revert g. induction l as [|p l IH]; intros g; [done|]. cbn [fold_left]. rewrite filter_cons. destruct (m !! pi_classID p) eqn:E.
  - rewrite IH. by rewrite (decide_False (P := Some c = None)).
  - rewrite IH. rewrite (decide_True (P := @None classLayout = None)) by done. rewrite (decide_False (P := _ :: _ = [])) by done.
    rewrite len_cons. destruct (decide (filter _ l = [])) as [Hn|Hn]; [by rewrite Hn|]. cbn [Unresolved with_unresolved].
    unfold with_unresolved. cbn. rewrite i64_add. do 2 f_equal. lia.
Qed.
Lemma finalize_spec st : state_ok st → runs (finalize st) (λ g, ∃ s g0, for_each (pending st) finalizeStep st = Ok s ∧ finalized st (pending st) s ∧
  build (b s) (className st) = Ok g0 ∧ g = with_unresolved g0 (i64 (len (unresolved st))) ∧ graph_ok g).
Proof.
  intros S. unfold finalize. destruct (finalizeLoop_spec st S) as (s & Hloop & F). rewrite Hloop. apply runs_bind, runs_ok.
  destruct (fi_same _ _ _ F) as [T1 _]. injection T1 as L1 L2 L3 L4 L5 L6.
  destruct (build_spec (b s) (fi_b _ _ _ F) (className s)) as (g0 & Hg0 & G0 & _ & _ & _ & _ & Hu & _). apply runs_bind.
  rewrite Hg0. apply runs_ok, runs_ok. exists s, g0. split_and!; [done..|rewrite <-Hg0; f_equal; unfold className; by rewrite L3, L4| |].
  - rewrite count_unresolved, L1, L5, Hu, Z.add_0_l. fold (unresolved st). case_decide as Hn; [|done]. rewrite Hn.
    destruct g0. cbn in Hu. by rewrite Hu.
  - rewrite count_unresolved. case_decide; [done|]. by apply with_unresolved_ok.
Qed.
Lemma wp_ParseObjectGraph r : wp (ParseObjectGraph r) (λ g, graph_ok g).
Proof.
  unfold ParseObjectGraph. apply wp_bind. eapply wp_mono; [apply wp_readHPROFHeader|]. intros h [Hi _]. apply wp_bind.
  eapply wp_mono; [apply wp_recordLoop; [by apply initState_ok| |unfold left_, len; lia]|].
  - unfold initState. by destruct (classFor _ _ _).
  - intros st S. apply runs_wp. eapply runs_mono; [by apply finalize_spec|]. cbv beta. by intros g (s & g0 & _ & _ & _ & _ & G).
Qed.
End Whole.
End GraphParserFacts.
