(* ===== verification/HprofDump.v ===== *)
(** * HPROF dumps as data, and their encoding

    A dump is a list of records; [encode] writes it the way HotSpot does.  On
    an encoded dump the readers of [HprofGraph] perform, record by record, the
    updates of [graph_sub] and [graph_record], which do not mention bytes. *)

From S2P Require Import Prelude Arrays GoStrings GoRuntime GoIO HeapGraph HprofFormat HprofGraph HprofSafe.

Module Dump.
Export GraphParserFacts.

(** ** Records *)

Record pool_entry := { pe_index : Z; pe_type : Z; pe_value : list byte }.
Record static_field := { sf_name : Z; sf_type : Z; sf_value : list byte }.
Record field := { f_name : Z; f_type : Z }.
Record class_dump := {
  cd_id : Z; cd_serial : Z; cd_super : Z; cd_loader : Z;
  (* signers, protection domain and two reserved ids *)
  cd_other : list Z;
  cd_size : Z; cd_pool : list pool_entry; cd_statics : list static_field; cd_fields : list field }.

Inductive subrec :=
| Root (tag o : Z) (rest : list byte)
| ClassDump (c : class_dump)
| InstanceDump (o serial c : Z) (fields : list byte)
| ObjectArray (o serial c : Z) (elems : list Z)
| PrimArray (o serial t n : Z) (data : list byte)
| Info (body : list byte).

Inductive drecord :=
| RString (time i : Z) (body : list byte)
| RLoadClass (time length serial c stack name : Z)
| RHeapDump (tag time : Z) (subs : list subrec)
| ROther (tag time : Z) (body : list byte).

(** ** Encoding, for identifiers of [n] bytes *)

Section Encode.
Context (n : Z).

Definition enc_id (v : Z) : list byte := be_bytes (Z.to_nat n) v.
Definition enc_pool (e : pool_entry) : list byte := be_bytes 2 (pe_index e) ++ be_bytes 1 (pe_type e) ++ pe_value e.
Definition enc_static (f : static_field) : list byte := enc_id (sf_name f) ++ be_bytes 1 (sf_type f) ++ sf_value f.
Definition enc_field (f : field) : list byte := enc_id (f_name f) ++ be_bytes 1 (f_type f).
Definition enc_class (c : class_dump) : list byte :=
  enc_id (cd_id c) ++ be_bytes 4 (cd_serial c) ++ concat (enc_id <$> (cd_super c :: cd_loader c :: cd_other c)) ++ be_bytes 4 (cd_size c) ++
  (be_bytes 2 (len (cd_pool c)) ++ concat (enc_pool <$> cd_pool c)) ++
  (be_bytes 2 (len (cd_statics c)) ++ concat (enc_static <$> cd_statics c)) ++
  (be_bytes 2 (len (cd_fields c)) ++ concat (enc_field <$> cd_fields c)).

Definition sub_tag (s : subrec) : Z :=
  match s with
  | Root tag _ _ => tag
  | ClassDump _ => hprofClassDump
  | InstanceDump _ _ _ _ => hprofInstanceDump
  | ObjectArray _ _ _ _ => hprofObjectArrayDump
  | PrimArray _ _ _ _ _ => hprofPrimArrayDump
  | Info _ => hprofHeapDumpInfo
  end.
Definition sub_body (s : subrec) : list byte :=
  match s with
  | Root _ o rest => enc_id o ++ rest
  | ClassDump c => enc_class c
  | InstanceDump o serial c fields => enc_id o ++ be_bytes 4 serial ++ enc_id c ++ be_bytes 4 (len fields) ++ fields
  | ObjectArray o serial c elems => enc_id o ++ be_bytes 4 serial ++ be_bytes 4 (len elems) ++ enc_id c ++ concat (enc_id <$> elems)
  | PrimArray o serial t k data => enc_id o ++ be_bytes 4 serial ++ be_bytes 4 k ++ be_bytes 1 t ++ data
  | Info body => body
  end.
Definition enc_sub (s : subrec) : list byte := be_bytes 1 (sub_tag s) ++ sub_body s.

Definition enc_record (r : drecord) : list byte :=
  match r with
  | RString time i body => be_bytes 1 hprofTagString ++ be_bytes 4 time ++ be_bytes 4 (n + len body) ++ enc_id i ++ body
  | RLoadClass time length serial c stack name =>
    be_bytes 1 hprofTagLoadClass ++ be_bytes 4 time ++ be_bytes 4 length ++ be_bytes 4 serial ++ enc_id c ++ be_bytes 4 stack ++ enc_id name
  | RHeapDump tag time subs =>
    be_bytes 1 tag ++ be_bytes 4 time ++ be_bytes 4 (len (concat (enc_sub <$> subs))) ++ concat (enc_sub <$> subs)
  | ROther tag time body => be_bytes 1 tag ++ be_bytes 4 time ++ be_bytes 4 (len body) ++ body
  end.
Definition encode (version : list byte) (stamp : Z) (d : list drecord) : list byte :=
  bytes_of_string "JAVA PROFILE" ++ version ++ [x00] ++ be_bytes 4 n ++ be_bytes 8 stamp ++ concat (enc_record <$> d).

(** *** Well-formed records: every number fits its field *)

Definition fits (w : Z) (v : Z) : Prop := 0 <= v < 256 ^ w.
Record ok_pool (e : pool_entry) : Prop := {
  op_index : fits 2 (pe_index e); op_type : fits 1 (pe_type e); op_value : len (pe_value e) = hprofTypeSize (pe_type e) n }.
Record ok_static (f : static_field) : Prop := {
  os_name : fits n (sf_name f); os_type : fits 1 (sf_type f); os_value : len (sf_value f) = hprofTypeSize (sf_type f) n }.
Record ok_field (f : field) : Prop := { of_name : fits n (f_name f); of_type : fits 1 (f_type f) }.
Record ok_class (c : class_dump) : Prop := {
  oc_id : fits n (cd_id c); oc_serial : fits 4 (cd_serial c); oc_super : fits n (cd_super c); oc_loader : fits n (cd_loader c);
  oc_other : len (cd_other c) = 4 ∧ Forall (fits n) (cd_other c); oc_size : fits 4 (cd_size c);
  oc_pool : fits 2 (len (cd_pool c)) ∧ Forall ok_pool (cd_pool c);
  oc_statics : fits 2 (len (cd_statics c)) ∧ Forall ok_static (cd_statics c);
  oc_fields : fits 2 (len (cd_fields c)) ∧ Forall ok_field (cd_fields c) }.

Definition ok_sub (s : subrec) : Prop :=
  match s with
  | Root tag o rest => fits n o ∧ (∃ k, rootRecordLayout n tag = Some (k, n + len rest))
  | ClassDump c => ok_class c
  | InstanceDump o serial c fields => fits n o ∧ fits 4 serial ∧ fits n c ∧ len fields <= maxInstanceFieldBytes
  | ObjectArray o serial c elems => fits n o ∧ fits 4 serial ∧ fits n c ∧ fits 4 (len elems) ∧ Forall (fits n) elems
  | PrimArray o serial t k data => fits n o ∧ fits 4 serial ∧ fits 1 t ∧ fits 4 k ∧ len data = k * hprofTypeSize t n
  | Info body => len body = 4 + n
  end.
Definition ok_record (r : drecord) : Prop :=
  match r with
  | RString time i body => fits 4 time ∧ fits n i ∧ len body <= maxHPROFStringBytes
  | RLoadClass time length serial c stack name => fits 4 time ∧ fits 4 length ∧ fits 4 serial ∧ fits n c ∧ fits 4 stack ∧ fits n name
  | RHeapDump tag time subs =>
    (tag = hprofTagHeapDump ∨ tag = hprofTagHeapDumpSegment) ∧ fits 4 time ∧ fits 4 (len (concat (enc_sub <$> subs))) ∧ Forall ok_sub subs
  | ROther tag time body =>
    fits 1 tag ∧ (tag ∉ [hprofTagString; hprofTagLoadClass; hprofTagHeapDump; hprofTagHeapDumpSegment]) ∧ fits 4 time ∧ fits 4 (len body)
  end.
End Encode.

(** ** What the readers do with a record *)

Definition static_ref (f : static_field) : option Z := if sf_type f =? hprofTypeObject then Some (be (sf_value f)) else None.
Definition layout_of (c : class_dump) : classLayout :=
  {| superID := cd_super c; fieldTypes := f_type <$> cd_fields c; instSize := cd_size c |}.
Definition root_serial (k : RootKind) (rest : list byte) : Z := if hasThreadSerial k then be (take 4 rest) else 0.

Definition graph_root (st : graphState) (k : RootKind) (o serial : Z) : graphState :=
  set_b st (with_roots (b st)
    (if negb (o =? 0) then b_roots (b st) ++ [{| root_id := o; kind := k; threadSerial := serial |}] else b_roots (b st))
    (if bool_decide (k = RootThreadObject) && negb (o =? 0) then <[serial := o]> (threadBySerial (b st)) else threadBySerial (b st))).

(** A new object of the class with key [k]. *)
Definition graph_add (st : graphState) (k : classKey) (name : string) (o sh : Z) (refs : list Z) : outcome (graphState * Z) :=
  let '(b1, cls) := classFor (b st) k name in
  '(b2, p) ← addObject b1 o cls sh refs; Ok (set_b st b2, p).
Definition graph_class (st : graphState) (c : class_dump) : outcome graphState :=
  let st := set_layouts st (<[cd_id c := layout_of c]> (layouts st)) in
  let '(b1, _) := classFor (b st) {| classID := cd_id c; primType := 0 |} "" in
  '(b2, _) ← addObject b1 (cd_id c) (classClass st) 0 (cd_super c :: cd_loader c :: omap static_ref (cd_statics c));
  Ok (set_b st b2).
Definition graph_instance (st : graphState) (o c : Z) (fields : list byte) : outcome graphState :=
  direct ← match layouts st !! c with
           | Some l => '(refs, complete) ← instanceRefs st c fields; Ok (if (complete : bool) then Some (l, refs) else None)
           | None => Ok None
           end;
  match direct with
  | Some (l, refs) => '(st, _) ← graph_add st {| classID := c; primType := 0 |} "" o (instSize l) refs; Ok st
  | None =>
    '(st, p) ← graph_add st {| classID := c; primType := 0 |} "" o (len fields) [];
    Ok (add_pending st {| parseIdx := p; pi_classID := c; pi_fields := fields |})
  end.
Definition array_size (count size : Z) : Z := hprofArrayHeaderBytes + count * size.
Definition graph_sub (n : Z) (st : graphState) (s : subrec) : outcome graphState :=
  match s with
  | Root tag o rest =>
    match rootRecordLayout n tag with Some (k, _) => Ok (graph_root st k o (root_serial k rest)) | None => Ok st end
  | ClassDump c => graph_class st c
  | InstanceDump o _ c fields => graph_instance st o c fields
  | ObjectArray o _ c elems =>
    '(st, _) ← graph_add st {| classID := c; primType := 0 |} "" o (array_size (len elems) n) elems; Ok st
  | PrimArray o _ t k _ =>
    '(st, _) ← graph_add st {| classID := 0; primType := t |} (primArrayName t) o (array_size k (hprofTypeSize t n)) []; Ok st
  | Info _ => Ok st
  end.
(** A record followed by the test of the builder's error. *)
Definition checked (m : outcome graphState) : outcome graphState :=
  st ← m; match err (b st) with Some e => Err e | None => Ok st end.
Definition graph_record (n : Z) (st : graphState) (r : drecord) : outcome graphState :=
  match r with
  | RString _ i body => Ok (set_strings st (<[i := string_of_bytes body]> (strings st)))
  | RLoadClass _ _ _ c _ name => Ok (set_classNameID st (<[c := name]> (classNameID st)))
  | RHeapDump _ _ subs => for_each subs (λ st s, checked (graph_sub n st s)) st
  | ROther _ _ _ => Ok st
  end.
Definition graph_dump (n : Z) (d : list drecord) : outcome graphState :=
  for_each d (λ st r, checked (graph_record n st r)) (initState n).

(** ** Reading encoded records *)

Section Forward.
Context (n : Z) (Hn : n = 4 ∨ n = 8).
Implicit Types (h : hprofReader).

Lemma u1_enc v h : fits 1 v → u1 (hpush (be_bytes 1 v) h) = Ok (v, h).
Proof. intros Hv. by apply (reads_push _ _ _ u1_reads v h). Qed.
Lemma u2_enc v h : fits 2 v → u2 (hpush (be_bytes 2 v) h) = Ok (v, h).
Proof. intros Hv. by apply (reads_push _ _ _ u2_reads v h). Qed.
Lemma u4_enc v h : fits 4 v → u4 (hpush (be_bytes 4 v) h) = Ok (v, h).
Proof. intros Hv. by apply (reads_push _ _ _ u4_reads v h). Qed.
Lemma u8_enc v h : fits 8 v → u8 (hpush (be_bytes 8 v) h) = Ok (v, h).
Proof. intros Hv. by apply (reads_push _ _ _ u8_reads v h). Qed.
Lemma id_enc v h : h_idSize h = n → fits n v → id (hpush (enc_id n v) h) = Ok (v, h).
Proof.
  intros Hi Hv. unfold enc_id. rewrite <-Hi. apply (reads_push _ _ _ id_reads v h); [by unfold id_ok; rewrite Hi|].
  rewrite Hi, Z2Nat.id by lia. done.
Qed.

(** Read the first encoded field of the reader. *)
Ltac enc1 :=
  rewrite ?hpush_app;
  lazymatch goal with
  | |- context [u1 (hpush (be_bytes 1 ?v) ?h)] => rewrite (u1_enc v h) by done
  | |- context [u2 (hpush (be_bytes 2 ?v) ?h)] => rewrite (u2_enc v h) by done
  | |- context [u4 (hpush (be_bytes 4 ?v) ?h)] => rewrite (u4_enc v h) by done
  | |- context [u8 (hpush (be_bytes 8 ?v) ?h)] => rewrite (u8_enc v h) by done
  | |- context [id (hpush (enc_id n ?v) ?h)] => rewrite (id_enc v h) by done
  end; cbn [mbind outcome_bind wrap_err].

Lemma readIDs_enc l h : h_idSize h = n → Forall (fits n) l → readIDs (length l) (hpush (concat (enc_id n <$> l)) h) = Ok (l, h).
Proof.
  intros Hi Hl. induction Hl as [|x l Hx Hl IH]; cbn [length readIDs fmap list_fmap concat]; [by rewrite hpush_nil|].
  enc1. by rewrite IH.
Qed.
Lemma skipPoolEntries_enc l h : h_idSize h = n → Forall (ok_pool n) l → skipPoolEntries (length l) (hpush (concat (enc_pool <$> l)) h) = Ok h.
Proof.
  intros Hi Hl. induction Hl as [|e l [] Hl IH]; cbn [length skipPoolEntries fmap list_fmap concat]; [by rewrite hpush_nil|].
  unfold enc_pool at 1. do 2 enc1. rewrite skip_push; [|by cbn; rewrite Hi]. cbn. by rewrite IH.
Qed.
Lemma skipClassPool_enc l h : h_idSize h = n → fits 2 (len l) → Forall (ok_pool n) l →
  skipClassPool (hpush (be_bytes 2 (len l)) (hpush (concat (enc_pool <$> l)) h)) = Ok h.
Proof. intros Hi Hf Hl. unfold skipClassPool. enc1. unfold len. rewrite Nat2Z.id. by apply skipPoolEntries_enc. Qed.
Lemma staticRefs_enc l h refs : h_idSize h = n → Forall (ok_static n) l →
  staticRefs (length l) (hpush (concat (enc_static n <$> l)) h) refs = Ok (refs ++ omap static_ref l, h).
Proof.
  intros Hi Hl. revert refs. induction Hl as [|f l [H1 H2 H3] Hl IH]; intros refs; cbn [length staticRefs fmap list_fmap concat omap list_omap].
  { by rewrite hpush_nil, app_nil_r. }
  unfold enc_static at 1. do 2 enc1. unfold static_ref at 1. destruct (Z.eqb_spec (sf_type f) hprofTypeObject) as [Ht|Ht]; cbn [negb].
  - assert (sf_value f = enc_id n (be (sf_value f))) as Hv.
    { unfold hprofTypeSize in H3. rewrite Ht, Z.eqb_refl in H3. unfold enc_id. rewrite <-H3. unfold len. rewrite Nat2Z.id. by rewrite be_bytes_be. }
    rewrite Hv at 1. rewrite id_enc; [|done|].
    + cbn. rewrite IH. by rewrite <-app_assoc.
    + unfold fits. pose proof (be_bound (sf_value f)). unfold hprofTypeSize in H3. rewrite Ht, Z.eqb_refl in H3. congruence.
  - rewrite skip_push; [|by cbn; rewrite Hi]. cbn. apply IH.
Qed.
Lemma readStaticRefs_enc l h refs : h_idSize h = n → fits 2 (len l) → Forall (ok_static n) l →
  readStaticRefs (hpush (be_bytes 2 (len l)) (hpush (concat (enc_static n <$> l)) h)) refs = Ok (refs ++ omap static_ref l, h).
Proof. intros Hi Hf Hl. unfold readStaticRefs. enc1. unfold len. rewrite Nat2Z.id. by apply staticRefs_enc. Qed.
Lemma instanceFieldTypes_enc l h ts : h_idSize h = n → Forall (ok_field n) l →
  instanceFieldTypes (length l) (hpush (concat (enc_field n <$> l)) h) ts = Ok (ts ++ (f_type <$> l), h).
Proof.
  intros Hi Hl. revert ts. induction Hl as [|f l [] Hl IH]; intros ts; cbn [length instanceFieldTypes fmap list_fmap concat].
  { by rewrite hpush_nil, app_nil_r. }
  unfold enc_field at 1. do 2 enc1. rewrite IH. by rewrite <-app_assoc.
Qed.
Lemma readInstanceFieldTypes_enc l h : h_idSize h = n → fits 2 (len l) → Forall (ok_field n) l →
  readInstanceFieldTypes (hpush (be_bytes 2 (len l)) (hpush (concat (enc_field n <$> l)) h)) = Ok (f_type <$> l, h).
Proof. intros Hi Hf Hl. unfold readInstanceFieldTypes. enc1. unfold len. rewrite Nat2Z.id. by apply instanceFieldTypes_enc. Qed.
Lemma arrayElems_enc l h fuel i refs : h_idSize h = n → Forall (fits n) l → Nat.lt (length l) fuel →
  arrayElems fuel i (i + len l) (hpush (concat (enc_id n <$> l)) h) refs = Ok (refs ++ l, h).
Proof.
  intros Hi Hl. revert fuel i refs. induction Hl as [|x l Hx Hl IH]; intros fuel i refs Hf; (destruct fuel as [|fuel]; [lia|]); cbn [arrayElems fmap list_fmap concat].
  - rewrite len_nil, Z.add_0_r, Z.ltb_irrefl. by rewrite hpush_nil, app_nil_r.
  - rewrite len_cons. pose proof (len_nonneg l). rewrite (proj2 (Z.ltb_lt _ _)) by lia. enc1.
    replace (i + (len l + 1)) with (i + 1 + len l) by lia. rewrite IH by (cbn in Hf; lia). by rewrite <-app_assoc.
Qed.

(** *** Sub-records *)

Lemma fits_mono w v : fits w v → w = 4 → 0 <= v < 2 ^ 32.
Proof. by intros Hv ->. Qed.
Lemma array_small count size : 0 <= count < 2 ^ 32 → 0 <= size <= 8 → i64 (hprofArrayHeaderBytes + i64 (count * size)) = array_size count size ∧ i64 (count * size) = count * size.
Proof. intros Hc Hs. assert (0 <= count * size <= 2 ^ 35) by nia. unfold array_size, hprofArrayHeaderBytes. rewrite !i64_small by (rewrite ?i64_small by lia; lia). done. Qed.
Lemma typeSize_small t : 0 <= hprofTypeSize t n <= 8.
Proof. unfold hprofTypeSize. repeat case_match; lia. Qed.

Lemma root_layout tag k m : rootRecordLayout n tag = Some (k, m) → fits 1 tag ∧ (hasThreadSerial k = true → n + 4 <= m).
Proof.
  unfold rootRecordLayout. destruct (rootLayouts !! tag) as [[[k' e] u]|] eqn:E; [|done]. intros [= <- <-].
  apply elem_of_list_to_map_2 in E. unfold fits.
  repeat (apply elem_of_cons in E as [E|E]; [injection E as -> -> -> ->; cbn; unfold hprofRootUnknown; split; [done|lia || done]|]).
  by apply not_elem_of_nil in E.
Qed.
Lemma readRoot_enc st tag k o rest h : h_idSize h = n → fits n o → rootRecordLayout n tag = Some (k, n + len rest) →
  readRoot st (hpush (enc_id n o ++ rest) h) k (n + len rest) = Ok (graph_root st k o (root_serial k rest), h).
Proof.
  intros Hi Ho Hk. apply root_layout in Hk as [_ Hs]. unfold readRoot, graph_root, root_serial. enc1. cbn [h_idSize hpush with_r]. rewrite Hi.
  destruct (hasThreadSerial k).
  - assert (rest = be_bytes 4 (be (take 4 rest)) ++ drop 4 rest) as Hr.
    { rewrite <-(take_drop 4 rest) at 1. f_equal. specialize (Hs eq_refl). unfold len in Hs.
      assert (length (take 4 rest) = 4%nat) as Hl by (rewrite length_take; lia). rewrite <-Hl at 2. by rewrite be_bytes_be. }
    assert (fits 4 (be (take 4 rest))) as Hf.
    { unfold fits. pose proof (be_bound (take 4 rest)) as Hb. specialize (Hs eq_refl). unfold len in *. rewrite length_take in Hb.
      by replace (Z.of_nat (4 `min` length rest)) with 4 in Hb by lia. }
    rewrite Hr at 1. enc1. rewrite skip_push; [done|]. specialize (Hs eq_refl). unfold len in *. rewrite length_drop. lia.
  - cbn. rewrite skip_push by lia. done.
Qed.
Lemma readClassDump_enc st c h : h_idSize h = n → ok_class n c →
  readClassDump st (hpush (enc_class n c) h) = (st ← graph_class st c; Ok (st, h)).
Proof.
  intros Hi [H1 H2 H3 H4 [H5 H6] H7 [H8 H9] [H10 H11] [H12 H13]]. unfold readClassDump, enc_class. do 2 enc1.
  change 6%nat with (length [cd_super c; cd_loader c; 0; 0; 0; 0]).
  replace (length [cd_super c; cd_loader c; 0; 0; 0; 0]) with (length (cd_super c :: cd_loader c :: cd_other c)) by (cbn; unfold len in H5; lia).
  rewrite readIDs_enc; [|done|by do 2 (constructor; [done|])]. cbn [mbind outcome_bind]. enc1.
  rewrite skipClassPool_enc by done. cbn [mbind outcome_bind].
  change (idx (cd_super c :: cd_loader c :: cd_other c) 0) with (@Ok Z (cd_super c)). change (idx (cd_super c :: cd_loader c :: cd_other c) 1) with (@Ok Z (cd_loader c)).
  cbn [mbind outcome_bind]. rewrite readStaticRefs_enc by done. cbn [mbind outcome_bind].
  rewrite readInstanceFieldTypes_enc by done. cbn [mbind outcome_bind]. unfold graph_class.
  change {| superID := cd_super c; fieldTypes := f_type <$> cd_fields c; instSize := cd_size c |} with (layout_of c).
  destruct (classFor _ _ _) as [b1 cls]. cbn [app]. by destruct (addObject b1 _ _ _ _) as [[]| |].
Qed.
Lemma readInstanceDump_enc st miss o serial c fields h : h_idSize h = n → 0 <= miss → ok_sub n (InstanceDump o serial c fields) →
  readInstanceDump miss st (hpush (sub_body n (InstanceDump o serial c fields)) h) = (st ← graph_instance st o c fields; Ok (st, h)).
Proof.
  intros Hi Hm (H1 & H2 & H3 & H4). unfold readInstanceDump, sub_body. assert (fits 4 (len fields)) as H5.
  { unfold fits. pose proof (len_nonneg fields). unfold maxInstanceFieldBytes in H4. change (256 ^ 4) with (2 ^ 32). lia. }
  do 4 enc1. change (len (r_bytes (h_r (hpush fields h)))) with (left_ (hpush fields h)). rewrite left_hpush. pose proof (left_nonneg h).
  replace ((maxInstanceFieldBytes <? len fields) || (len fields + left_ h + miss <? len fields)) with false
    by (symmetry; apply orb_false_iff; rewrite !Z.ltb_ge; lia).
  cbn [h_r hpush with_r]. rewrite io_ReadFull_push by done. cbn [mbind outcome_bind]. unfold graph_instance, graph_add.
  destruct (classFor (b st) _ "") as [b1 cls] eqn:Hc. change (layouts (set_b st b1)) with (layouts st).
  replace (with_r (hpush fields h) (h_r h)) with h by by destruct h. rewrite (instanceRefs_ext st (set_b st b1)) by done.
  destruct (layouts st !! c) as [l|]; cbn [mbind outcome_bind].
  - destruct (instanceRefs st c fields) as [[refs [|]]| |]; cbn [mbind outcome_bind]; try done; by destruct (addObject b1 _ _ _ _) as [[]| |].
  - by destruct (addObject b1 _ _ _ _) as [[]| |].
Qed.
Lemma readObjectArray_enc st o serial c elems h : h_idSize h = n → ok_sub n (ObjectArray o serial c elems) →
  readObjectArray st (hpush (sub_body n (ObjectArray o serial c elems)) h) = (st ← graph_sub n st (ObjectArray o serial c elems); Ok (st, h)).
Proof.
  intros Hi (H1 & H2 & H3 & H4 & H5). unfold readObjectArray, sub_body, graph_sub, graph_add. do 4 enc1.
  rewrite <-(Z.add_0_l (len elems)) at 1. rewrite arrayElems_enc; [|done|done|].
  2: { cbn. rewrite length_app. enough (Nat.le (length elems) (length (concat (enc_id n <$> elems)))) by lia.
       clear -Hn. induction elems as [|x l IH]; [done|]. cbn [fmap list_fmap concat length]. rewrite length_app. unfold enc_id at 1. rewrite length_be_bytes. lia. }
  cbn [mbind outcome_bind]. destruct (classFor _ _ _) as [b1 cls]. rewrite Hi.
  destruct (array_small (len elems) n) as [-> _]; [by apply (fits_mono 4)|lia|]. by destruct (addObject b1 _ _ _ _) as [[]| |].
Qed.
Lemma readPrimArray_enc st o serial t k data h : h_idSize h = n → ok_sub n (PrimArray o serial t k data) →
  readPrimArray st (hpush (sub_body n (PrimArray o serial t k data)) h) = (st ← graph_sub n st (PrimArray o serial t k data); Ok (st, h)).
Proof.
  intros Hi (H1 & H2 & H3 & H4 & H5). unfold readPrimArray, sub_body, graph_sub, graph_add. do 4 enc1. cbn [h_idSize hpush with_r]. rewrite Hi.
  destruct (array_small k (hprofTypeSize t n)) as [-> ->]; [by apply (fits_mono 4)|apply typeSize_small|].
  destruct (classFor _ _ _) as [b1 cls]. destruct (addObject b1 _ _ _ _) as [[]| |]; cbn; try done. by rewrite skip_push.
Qed.
Lemma readHeapSub_enc st miss s h : h_idSize h = n → 0 <= miss → ok_sub n s →
  readHeapSub miss st (hpush (sub_body n s) h) (sub_tag s) = (st ← graph_sub n st s; Ok (st, h)).
Proof.
  intros Hi Hm Hs. unfold readHeapSub. cbn [h_idSize hpush with_r]. rewrite Hi. destruct s as [tag o rest|c|o serial c fields|o serial c elems|o serial t k data|body].
  - destruct Hs as (Ho & k & Hk). cbn [sub_tag sub_body graph_sub]. rewrite Hk. cbn. by apply (readRoot_enc st tag).
  - by apply readClassDump_enc.
  - by apply (readInstanceDump_enc st miss o serial).
  - by apply readObjectArray_enc.
  - by apply readPrimArray_enc.
  - cbn in *. rewrite skip_push by congruence. done.
Qed.

(** *** Segments, records and the file *)

Lemma checked_sub fuel st s h : h_idSize h = n → ok_sub n s → fits 1 (sub_tag s) →
  heapDumpLoop (S fuel) 0 st (hpush (enc_sub n s) h) = (st ← checked (graph_sub n st s); heapDumpLoop fuel 0 st h).
Proof.
  intros Hi Hs Ht. unfold enc_sub. cbn [heapDumpLoop]. rewrite hpush_app, u1_enc by done. rewrite readHeapSub_enc by done.
  unfold checked. destruct (graph_sub n st s) as [st'| |]; cbn; try done. by destruct (err (b st')).
Qed.
Lemma sub_tag_fits s : ok_sub n s → fits 1 (sub_tag s).
Proof. destruct s; cbn; try done. intros (_ & k & Hk). by apply root_layout in Hk as [? _]. Qed.
Lemma heapDumpLoop_enc subs fuel st h : h_r h = Reader [] io_EOF → h_idSize h = n → Forall (ok_sub n) subs → Nat.lt (length subs) fuel →
  heapDumpLoop fuel 0 st (hpush (concat (enc_sub n <$> subs)) h) = for_each subs (λ st s, checked (graph_sub n st s)) st.
Proof.
  intros He Hi Hs. revert fuel st. induction Hs as [|s subs Hs Hl IH]; intros fuel st Hf; (destruct fuel as [|fuel]; [lia|]).
  - cbn [concat fmap list_fmap for_each]. rewrite hpush_nil. cbn [heapDumpLoop]. unfold u1. by rewrite He.
  - cbn [concat fmap list_fmap for_each length] in *. rewrite hpush_app, checked_sub; [|done|done|by apply sub_tag_fits].
    destruct (checked _) as [st'| |]; cbn; try done. apply IH. lia.
Qed.
Lemma limited_push bs r : limited (push bs r) (len bs) = Reader bs io_EOF ∧ missing (push bs r) (len bs) = 0 ∧ after (push bs r) (len bs) = r.
Proof.
  pose proof (len_nonneg bs). pose proof (len_nonneg (r_bytes r)). unfold limited, missing, after. cbn. rewrite len_app. branch. split_and!.
  - by rewrite sub_head.
  - lia.
  - unfold len. rewrite Nat2Z.id, drop_app_length. by destruct r.
Qed.
Lemma length_subs subs : Nat.le (length subs) (length (concat (enc_sub n <$> subs))).
Proof. induction subs as [|s l IH]; [done|]. cbn [fmap list_fmap concat length]. rewrite length_app. unfold enc_sub at 1. rewrite length_app, length_be_bytes. lia. Qed.
Lemma readHeapDump_enc st subs h : h_idSize h = n → Forall (ok_sub n) subs →
  readHeapDump st (hpush (concat (enc_sub n <$> subs)) h) (len (concat (enc_sub n <$> subs))) =
  (st ← for_each subs (λ st s, checked (graph_sub n st s)) st; Ok (st, h)).
Proof.
  intros Hi Hs. unfold readHeapDump. cbn [h_r hpush with_r h_idSize]. destruct (limited_push (concat (enc_sub n <$> subs)) (h_r h)) as (-> & -> & ->).
  set (h0 := {| h_r := Reader [] io_EOF; h_idSize := h_idSize h |}).
  replace {| h_r := Reader (concat (enc_sub n <$> subs)) io_EOF; h_idSize := h_idSize h |} with (hpush (concat (enc_sub n <$> subs)) h0)
    by (unfold hpush, push, h0; cbn; by rewrite app_nil_r).
  rewrite heapDumpLoop_enc; [|done..|cbn; rewrite ?app_nil_r; pose proof (length_subs subs); lia].
  unfold with_r. cbn. destruct h. done.
Qed.

(** The body of a record, after its tag, time and length. *)
Definition record_tag (r : drecord) : Z :=
  match r with RString _ _ _ => hprofTagString | RLoadClass _ _ _ _ _ _ => hprofTagLoadClass | RHeapDump tag _ _ | ROther tag _ _ => tag end.
Definition record_time (r : drecord) : Z :=
  match r with RString t _ _ | RLoadClass t _ _ _ _ _ | RHeapDump _ t _ | ROther _ t _ => t end.
Definition record_body (r : drecord) : list byte :=
  match r with
  | RString _ i body => enc_id n i ++ body
  | RLoadClass _ _ serial c stack name => be_bytes 4 serial ++ enc_id n c ++ be_bytes 4 stack ++ enc_id n name
  | RHeapDump _ _ subs => concat (enc_sub n <$> subs)
  | ROther _ _ body => body
  end.
Definition record_length (r : drecord) : Z :=
  match r with
  | RString _ _ body => n + len body | RLoadClass _ length _ _ _ _ => length
  | RHeapDump _ _ subs => len (concat (enc_sub n <$> subs)) | ROther _ _ body => len body
  end.
Lemma enc_record_eq r : enc_record n r = be_bytes 1 (record_tag r) ++ be_bytes 4 (record_time r) ++ be_bytes 4 (record_length r) ++ record_body r.
Proof. by destruct r. Qed.
Lemma record_fits r : ok_record n r → fits 1 (record_tag r) ∧ fits 4 (record_time r) ∧ fits 4 (record_length r).
Proof.
  destruct r as [time i body|time length serial c stack name|tag time subs|tag time body]; cbn; intros Hr; destruct_and?; split_and?; try done.
  - unfold fits, maxHPROFStringBytes in *. pose proof (len_nonneg body). change (256 ^ 4) with (2 ^ 32). destruct Hn as [-> | ->]; lia.
  - by destruct H as [-> | ->].
Qed.
Lemma readRecord_enc st r h : h_idSize h = n → ok_record n r →
  readRecord st (hpush (record_body r) h) (record_tag r) (record_length r) = (st ← graph_record n st r; Ok (st, h)).
Proof.
  intros Hi Hr. unfold readRecord. destruct r as [time i body|time length serial c stack name|tag time subs|tag time body]; cbn [record_tag record_body record_length].
  - destruct Hr as (_ & H1 & H2). unfold readString. cbn [Z.eqb Pos.eqb hprofTagString]. enc1. cbn [h_idSize hpush with_r]. rewrite Hi.
    replace (n + len body - n) with (len body) by lia. pose proof (len_nonneg body).
    replace ((len body <? 0) || (maxHPROFStringBytes <? len body)) with false by (symmetry; apply orb_false_iff; rewrite !Z.ltb_ge; lia).
    cbn [h_r hpush with_r]. rewrite io_ReadFull_push by done. cbn. by destruct h.
  - destruct Hr as (_ & _ & H1 & H2 & H3 & H4). unfold readLoadClass. cbn [Z.eqb Pos.eqb hprofTagString hprofTagLoadClass]. by do 4 enc1.
  - destruct Hr as (Ht & _ & _ & Hs). cbn [graph_record]. rewrite <-(readHeapDump_enc st subs h) by done. by destruct Ht as [-> | ->].
  - destruct Hr as (_ & Ht & _ & _). rewrite !not_elem_of_cons in Ht. destruct Ht as (T1 & T2 & T3 & T4 & _).
    rewrite (proj2 (Z.eqb_neq _ _) T1), (proj2 (Z.eqb_neq _ _) T2). unfold one_of. rewrite bool_decide_false by set_solver. rewrite skip_push by done. done.
Qed.
Lemma recordLoop_enc d fuel st h e : h_r h = Reader [] e → errors_is_EOF e = true → h_idSize h = n → Forall (ok_record n) d → Nat.lt (length d) fuel →
  recordLoop fuel st (hpush (concat (enc_record n <$> d)) h) = for_each d (λ st r, checked (graph_record n st r)) st.
Proof.
  intros He Heof Hi Hd. revert fuel st. induction Hd as [|r d Hr Hd IH]; intros fuel st Hf; (destruct fuel as [|fuel]; [lia|]).
  - cbn [concat fmap list_fmap for_each]. rewrite hpush_nil. cbn [recordLoop]. unfold u1. rewrite He. cbn. by rewrite Heof.
  - cbn [concat fmap list_fmap for_each length recordLoop] in *. destruct (record_fits r Hr) as (F1 & F2 & F3). rewrite enc_record_eq. do 3 enc1.
    rewrite readRecord_enc by done. unfold checked at 1. destruct (graph_record n st r) as [st'| |]; cbn; try done.
    destruct (err (b st')); cbn; [done|]. apply IH. lia.
Qed.

Lemma headerName_enc name h acc fuel : Forall (λ c, b2z c ≠ 0) name → len acc + len name <= 32 → Nat.lt (length name) fuel →
  headerName fuel (hpush (name ++ [x00]) h) acc = Ok (acc ++ name, h).
Proof.
  intros Hnz. revert acc fuel. induction Hnz as [|c name Hc Hnz IH]; intros acc fuel Hl Hf; (destruct fuel as [|fuel]; [lia|]); cbn [headerName app].
  - cbn [h_r hpush with_r]. rewrite ReadByte_push. cbn. rewrite app_nil_r. by destruct h.
  - change (c :: name ++ [x00]) with ([c] ++ (name ++ [x00])). rewrite hpush_app. cbn [h_r hpush with_r]. rewrite ReadByte_push. cbn [wrap_err mbind outcome_bind].
    rewrite (proj2 (Z.eqb_neq _ _) Hc). rewrite len_cons in Hl. pose proof (len_nonneg name). unfold maxHPROFHeaderName.
    rewrite (proj2 (Z.eqb_neq (len acc) 32)) by lia. cbn [length] in Hf.
    change (headerName fuel (hpush (name ++ [x00]) h) (acc ++ [c]) = Ok (acc ++ c :: name, h)).
    rewrite IH by (rewrite ?len_snoc; lia). by rewrite <-app_assoc.
Qed.
Lemma header_prefix version : HasPrefix (string_of_bytes (bytes_of_string "JAVA PROFILE" ++ version)) "JAVA PROFILE" = true.
Proof.
  assert (∀ l k, string_of_bytes (l ++ k) = string_of_bytes l +:+ string_of_bytes k) as Happ.
  { intros l k. induction l as [|c l IH]; [done|]. change (String (Ascii.ascii_of_byte c) (string_of_bytes (l ++ k)) = String (Ascii.ascii_of_byte c) (string_of_bytes l +:+ string_of_bytes k)). by rewrite IH. }
  rewrite Happ, string_of_bytes_of_string. by apply HasPrefix_app.
Qed.
Definition ok_version (version : list byte) : Prop := Forall (λ c, b2z c ≠ 0) version ∧ len version <= 20.
Lemma readHPROFHeader_enc version stamp bs e : ok_version version → fits 8 stamp →
  readHPROFHeader {| h_r := Reader (bytes_of_string "JAVA PROFILE" ++ version ++ [x00] ++ be_bytes 4 n ++ be_bytes 8 stamp ++ bs) e; h_idSize := 0 |} =
  Ok {| h_r := Reader bs e; h_idSize := n |}.
Proof.
  intros [Hv Hl] Hs. unfold readHPROFHeader. set (h := {| h_r := Reader bs e; h_idSize := 0 |}).
  replace (Build_hprofReader _ 0) with (hpush ((bytes_of_string "JAVA PROFILE" ++ version) ++ [x00]) (hpush (be_bytes 4 n) (hpush (be_bytes 8 stamp) h)))
    by (unfold hpush, push, h; cbn; by rewrite <-!app_assoc).
  assert (fits 4 n) as Hn4 by (destruct Hn as [-> | ->]; done).
  assert (fits 8 stamp) as Hs8 by done.
  rewrite headerName_enc.
  - cbn [mbind outcome_bind app]. rewrite header_prefix. cbn [negb]. enc1.
    replace (negb (n =? 4) && negb (n =? 8)) with false by (destruct Hn as [-> | ->]; done).
    change {| h_r := h_r (hpush (be_bytes 8 stamp) h); h_idSize := n |} with (hpush (be_bytes 8 stamp) {| h_r := Reader bs e; h_idSize := n |}).
    by enc1.
  - apply Forall_app. split; [|done]. repeat (constructor; [done|]). constructor.
  - rewrite len_nil, len_app. change (len (bytes_of_string "JAVA PROFILE")) with 12. lia.
  - rewrite length_app. unfold len in Hl. change (length (bytes_of_string "JAVA PROFILE")) with 12%nat. change (Z.to_nat maxHPROFHeaderName) with 32%nat. lia.
Qed.

(** On an encoded dump the parser performs its records. *)
Lemma parse_encoded `{GoRuntime} version stamp d e : ok_version version → fits 8 stamp → Forall (ok_record n) d → errors_is_EOF e = true →
  ParseObjectGraph (Reader (encode n version stamp d) e) = (st ← graph_dump n d; finalize st).
Proof.
  intros Hv Hs Hd Heof. unfold ParseObjectGraph, encode. rewrite readHPROFHeader_enc by done. cbn [mbind outcome_bind h_r h_idSize r_bytes].
  set (h := {| h_r := Reader [] e; h_idSize := n |}).
  replace {| h_r := Reader (concat (enc_record n <$> d)) e; h_idSize := n |} with (hpush (concat (enc_record n <$> d)) h)
    by (unfold hpush, push, h; cbn; by rewrite app_nil_r).
  rewrite (recordLoop_enc d _ _ h e); [done|done|done|done|done|]. clear. induction d as [|r d IH]; cbn [fmap list_fmap concat length]; [lia|].
  rewrite length_app, enc_record_eq, length_app, length_be_bytes. lia.
Qed.
End Forward.
End Dump.
