(* ===== verification/HprofExact.v ===== *)
(** * The graph of a well-formed dump

    What a dump describes: its objects with their classes, sizes and references,
    and its roots.  On the encoding of a well-formed dump the graph parser
    returns the graph of exactly these objects, wherever the class dumps stand
    in the stream. *)

From S2P Require Import Prelude Arrays GoStrings GoRuntime GoIO HeapGraph HeapDFS HprofFormat HprofGraph HprofSafe HprofDump.

Module Exact.
Export Dump.

(** ** The class hierarchy *)

(** The classes on the way from a class to the top of the hierarchy. *)
Inductive chain (F : gmap Z classLayout) : Z → list Z → Prop :=
| chain_top : chain F 0 []
| chain_class c l cs : c ≠ 0 → F !! c = Some l → chain F (superID l) cs → chain F c (c :: cs).

(** The field types of an instance, the own ones first. *)
Fixpoint super_types (fuel : nat) (F : gmap Z classLayout) (c : Z) : list Z :=
  match fuel with
  | O => []
  | S fuel =>
    if c =? 0 then [] else
    match F !! c with None => [] | Some l => fieldTypes l ++ super_types fuel F (superID l) end
  end.
Definition types_of (F : gmap Z classLayout) (c : Z) : list Z := super_types (size F) F c.

(** The ids in the object fields of the bytes, as far as the bytes go. *)
Fixpoint field_ids (n : Z) (types : list Z) (fields : list byte) : list Z :=
  match types with
  | [] => []
  | t :: types =>
    let k := hprofTypeSize t n in
    if len fields <? k then [] else
    (if t =? hprofTypeObject then [be (take (Z.to_nat k) fields)] else []) ++ field_ids n types (drop (Z.to_nat k) fields)
  end.
(** Whether the bytes end before the fields do. *)
Fixpoint fields_end (n : Z) (types : list Z) (fields : list byte) : bool :=
  match types with
  | [] => false
  | t :: types => let k := hprofTypeSize t n in (len fields <? k) || fields_end n types (drop (Z.to_nat k) fields)
  end.
Definition types_size (n : Z) (types : list Z) : Z := sum_over (λ t, hprofTypeSize t n) types.

Lemma chain_unique F c cs cs' : chain F c cs → chain F c cs' → cs = cs'.
Proof.
  intros Hc. revert cs'. induction Hc as [|c l cs Hc Hl Hch IH]; intros cs' H'; inversion H' as [|c' l' k' ? Hl' Hch']; subst; [done..|].
  rewrite Hl in Hl'. injection Hl' as <-. by rewrite (IH k').
Qed.
Lemma chain_suffix F c cs x pre post : chain F c cs → cs = pre ++ x :: post → chain F x (x :: post).
Proof.
  intros Hc. revert pre. induction Hc as [|c l cs Hc Hl Hch IH]; intros pre Heq; [by destruct pre|].
  destruct pre as [|y pre]; injection Heq as -> ->; [by econstructor|]. by eapply IH.
Qed.
Lemma chain_NoDup F c cs : chain F c cs → NoDup cs.
Proof.
  intros Hc. pose proof Hc as Hc'. induction Hc as [|c l cs Hc Hl Hch IH]; [constructor|]. constructor; [|by apply IH].
  intros (pre & post & ->)%list_elem_of_split. assert (chain F c (c :: post)) as Hs by (apply (chain_suffix F c (c :: pre ++ c :: post) c (c :: pre) post Hc'); done).
  pose proof (chain_unique _ _ _ _ Hc' Hs) as Heq. apply (f_equal length) in Heq. cbn in Heq. rewrite length_app in Heq. cbn in Heq. lia.
Qed.
Lemma chain_elem F c cs x : chain F c cs → x ∈ cs → is_Some (F !! x).
Proof. induction 1 as [|c l cs Hc Hl Hch IH]; [by intros ?%not_elem_of_nil|]. intros [->|Hx]%elem_of_cons; [by eexists|auto]. Qed.
(** Distinct classes of a table are at most as many as its entries. *)
Lemma keys_bound (m : gmap Z classLayout) l : NoDup l → (∀ x, x ∈ l → is_Some (m !! x)) → Nat.le (length l) (size m).
Proof.
  intros Hnd Hin. rewrite <-size_dom, <-(size_list_to_set (C := gset Z) l) by done. apply subseteq_size.
  intros x Hx%elem_of_list_to_set. apply elem_of_dom. auto.
Qed.
Lemma types_of_chain F c cs : chain F c cs → types_of F c = concat ((λ x, default [] (fieldTypes <$> (F !! x))) <$> cs).
Proof.
  intros Hc. unfold types_of. assert (Nat.le (length cs) (size F)) as Hl by (eapply keys_bound; [by eapply chain_NoDup|intros; by eapply chain_elem]).
  revert Hl. generalize (size F) as fuel. induction Hc as [|c l cs Hc Hl Hch IH]; intros fuel Hf; (destruct fuel as [|fuel]; cbn [length] in *; [done || lia|]); cbn [super_types]; [done|].
  rewrite (proj2 (Z.eqb_neq _ _) Hc), Hl. cbn. rewrite Hl. cbn. by rewrite IH by lia.
Qed.

(** ** The walk over the fields of an instance *)

Section Walk.
Context (n : Z) (Hn : n = 4 ∨ n = 8).

Lemma readID_ok bs : len bs = n → readID bs n = Ok (be bs).
Proof.
  intros Hl. unfold readID. destruct Hn as [-> | ->]; cbn [Z.eqb Pos.eqb]; rewrite slice_all by done; cbn; unfold be_uint;
    (rewrite (proj2 (Nat.ltb_ge _ _)) by (unfold len in Hl; lia)); by rewrite take_ge by (unfold len in Hl; lia).
Qed.
Lemma fieldWalk_ok types fields rest out off : len rest = len fields - off → 0 <= off → rest = drop (Z.to_nat off) fields →
  fieldWalk n fields types off out =
  Ok (if fields_end n types rest then inl (out ++ field_ids n types rest) else inr (off + types_size n types, out ++ field_ids n types rest)).
Proof.
  revert rest out off. induction types as [|t types IH]; intros rest out off Hl Ho Hr; cbn [fieldWalk fields_end field_ids].
  { unfold types_size. cbn. by rewrite app_nil_r, Z.add_0_r. }
  pose proof (typeSize_small n Hn t) as Ht. set (k := hprofTypeSize t n) in *. replace (len fields <? off + k) with (len rest <? k)
    by (destruct (Z.ltb_spec (len rest) k), (Z.ltb_spec (len fields) (off + k)); done || lia).
  destruct (Z.ltb_spec (len rest) k) as [|Hk]; cbn [orb]; [by rewrite app_nil_r|].
  assert (∀ out', fieldWalk n fields types (off + k) out' = Ok (if fields_end n types (drop (Z.to_nat k) rest)
    then inl (out' ++ field_ids n types (drop (Z.to_nat k) rest)) else inr (off + k + types_size n types, out' ++ field_ids n types (drop (Z.to_nat k) rest)))) as Hnext.
  { intros out'. apply IH; [|lia|].
    - unfold len in *. rewrite length_drop. lia.
    - rewrite Hr, drop_drop. f_equal. lia. }
  assert (types_size n (t :: types) = k + types_size n types) as -> by done. rewrite Z.add_assoc.
  destruct (t =? hprofTypeObject) eqn:Et; [|apply Hnext]. rewrite slice_ok by (pose proof (len_nonneg rest); lia). cbn [mbind outcome_bind].
  assert (k = n) as Hkn by (unfold k, hprofTypeSize; by rewrite Et).
  assert (sub fields off (off + k) = take (Z.to_nat k) rest) as -> by (unfold sub; rewrite Hr; f_equal; lia).
  rewrite readID_ok by (unfold len in *; rewrite length_take; lia). cbn [mbind outcome_bind]. rewrite Hnext. by rewrite <-!app_assoc.
Qed.
Lemma fields_end_app types types' fields : fields_end n (types ++ types') fields =
  fields_end n types fields || fields_end n types' (drop (Z.to_nat (types_size n types)) fields).
Proof.
  revert fields. induction types as [|t types IH]; intros fields; cbn [app fields_end]; [done|]. rewrite IH, drop_drop, orb_assoc. do 2 f_equal. f_equal.
  unfold types_size. cbn. pose proof (typeSize_small n Hn t). enough (0 <= sum_over (λ t, hprofTypeSize t n) types) by lia.
  clear IH. induction types as [|t' l IH]; cbn; [done|]. pose proof (typeSize_small n Hn t'). lia.
Qed.
Lemma types_size_nonneg types : 0 <= types_size n types.
Proof. unfold types_size. induction types as [|t' l IH]; cbn; [done|]. pose proof (typeSize_small n Hn t'). lia. Qed.
Lemma field_ids_app types types' fields : field_ids n (types ++ types') fields =
  field_ids n types fields ++ (if fields_end n types fields then [] else field_ids n types' (drop (Z.to_nat (types_size n types)) fields)).
Proof.
  revert fields. induction types as [|t types IH]; intros fields; cbn [app fields_end field_ids]; [done|].
  destruct (len fields <? hprofTypeSize t n); cbn [orb]; [done|]. rewrite IH, <-app_assoc. do 2 f_equal. rewrite drop_drop. destruct (fields_end _ _ _); [done|]. do 2 f_equal.
  pose proof (typeSize_small n Hn t). pose proof (types_size_nonneg types). unfold types_size in *. cbn. lia.
Qed.

(** The walk over a part [m] of the hierarchy that is known so far: it yields
    the references, or it meets a class that is missing. *)
Lemma superWalk_chain (st : graphState) F fields : gs_idSize st = n → layouts st ⊆ F → ∀ cs c fuel pre off out,
  chain F c cs → NoDup (pre ++ cs) → (∀ x, x ∈ pre → is_Some (layouts st !! x)) → 0 <= off <= len fields → Nat.lt (size (layouts st)) (length pre + fuel) →
  let ts := concat ((λ x, default [] (fieldTypes <$> (F !! x))) <$> cs) in
  superWalk fuel st fields (len pre) c off out = Ok (out ++ field_ids n ts (drop (Z.to_nat off) fields), true) ∨
  ∃ out', superWalk fuel st fields (len pre) c off out = Ok (out', false) ∧ ∃ x, x ∈ cs ∧ layouts st !! x = None.
Proof.
  intros Hi Hsub cs. induction cs as [|x cs IH]; intros c fuel pre off out Hc Hnd Hpre Ho Hf.
  - inversion Hc; subst. cbn. destruct fuel as [|fuel].
    + assert (Nat.le (length pre) (size (layouts st))) by (apply keys_bound; [by rewrite app_nil_r in Hnd|done]). lia.
    + cbn [superWalk Z.eqb]. left. by rewrite app_nil_r.
  - inversion Hc as [|c' l cs' Hc0 Hl Hch]; subst c' cs' x. assert (Nat.le (length pre) (size (layouts st))) as Hle.
    { apply keys_bound; [|done]. by apply NoDup_app in Hnd as [? _]. }
    destruct fuel as [|fuel]; [lia|]. cbn [superWalk]. rewrite (proj2 (Z.eqb_neq _ _) Hc0). rewrite (proj2 (Z.ltb_ge _ (len pre))) by (unfold len; lia).
    destruct (layouts st !! c) as [l'|] eqn:E; [|right; eexists; split; [done|]; exists c; set_solver].
    assert (l' = l) as -> by (pose proof (lookup_weaken _ _ _ _ E Hsub); congruence).
    rewrite Hi, (fieldWalk_ok _ _ (drop (Z.to_nat off) fields)); [|unfold len in *; rewrite length_drop; lia|lia|done]. cbn [mbind outcome_bind].
    cbv zeta. cbn [fmap list_fmap concat]. rewrite Hl. cbn [fmap option_fmap option_map default]. change (Datatypes.id (fieldTypes l)) with (fieldTypes l).
    set (ts := concat _) in *. rewrite field_ids_app. destruct (fields_end n (fieldTypes l) (drop (Z.to_nat off) fields)) eqn:Ee.
    + left. by rewrite app_nil_r.
    + assert (off + types_size n (fieldTypes l) <= len fields) as Hoff.
      { clear -Ee Hn Ho. assert (types_size n (fieldTypes l) <= len (drop (Z.to_nat off) fields)) as Hle; [|unfold len in *; rewrite length_drop in Hle; lia].
        revert Ee. generalize (drop (Z.to_nat off) fields) as r. unfold types_size. induction (fieldTypes l) as [|t ts IH]; intros r; cbn; [intros _; apply len_nonneg|].
        intros [H1 H2]%orb_false_iff. to_prop. specialize (IH _ H2). pose proof (typeSize_small n Hn t). unfold len in *. rewrite length_drop in IH. lia. }
      pose proof (types_size_nonneg (fieldTypes l)).
      destruct (IH (superID l) fuel (pre ++ [c]) (off + types_size n (fieldTypes l)) (out ++ field_ids n (fieldTypes l) (drop (Z.to_nat off) fields))) as [Hw|(out' & Hw & x & Hx & Hxn)].
      * done.
      * by rewrite <-app_assoc.
      * intros y [Hy| ->%list_elem_of_singleton]%elem_of_app; [auto|]. by eexists.
      * lia.
      * rewrite length_app. cbn. lia.
      * left. rewrite len_snoc in Hw. rewrite Hw. rewrite <-app_assoc, drop_drop.
        by replace (Z.to_nat off + Z.to_nat (types_size n (fieldTypes l)))%nat with (Z.to_nat (off + types_size n (fieldTypes l))) by lia.
      * right. exists out'. rewrite len_snoc in Hw. split; [done|]. exists x. split; [by right|done].
Qed.
Lemma instanceRefs_chain (st : graphState) F c cs fields : gs_idSize st = n → layouts st ⊆ F → chain F c cs →
  instanceRefs st c fields = Ok (c :: field_ids n (types_of F c) fields, true) ∨
  ∃ out', instanceRefs st c fields = Ok (out', false) ∧ ∃ x, x ∈ cs ∧ layouts st !! x = None.
Proof.
  intros Hi Hsub Hc. unfold instanceRefs. rewrite (types_of_chain F c cs Hc). pose proof (len_nonneg fields).
  destruct (superWalk_chain st F fields Hi Hsub cs c (size (layouts st) + 3) [] 0 [c] Hc) as [Hw|Hw]; [by eapply chain_NoDup|by intros ? ?%not_elem_of_nil|lia|cbn; lia| |].
  - left. by rewrite drop_0 in Hw.
  - by right.
Qed.
End Walk.

(** ** What a dump describes *)

Definition subs_of (d : list drecord) : list subrec :=
  concat ((λ r, match r with RHeapDump _ _ subs => subs | _ => [] end) <$> d).
Definition add_layout (m : gmap Z classLayout) (s : subrec) : gmap Z classLayout :=
  match s with ClassDump c => <[cd_id c := layout_of c]> m | _ => m end.
Definition layouts_of (subs : list subrec) : gmap Z classLayout := fold_left add_layout subs ∅.

Definition obj_id (s : subrec) : option Z :=
  match s with
  | ClassDump c => Some (cd_id c)
  | InstanceDump o _ _ _ | ObjectArray o _ _ _ | PrimArray o _ _ _ _ => Some o
  | Root _ _ _ | Info _ => None
  end.
Definition objs (subs : list subrec) : list subrec := filter (λ s, is_Some (obj_id s)) subs.

(** The class of an object; class objects are instances of [java.lang.Class],
    whose key is the zero key. *)
Definition obj_key (s : subrec) : classKey :=
  match s with
  | InstanceDump _ _ c _ | ObjectArray _ _ c _ => {| classID := c; primType := 0 |}
  | PrimArray _ _ t _ _ => {| classID := 0; primType := t |}
  | _ => {| classID := 0; primType := 0 |}
  end.
Definition obj_size (n : Z) (F : gmap Z classLayout) (s : subrec) : Z :=
  match s with
  | InstanceDump _ _ c fields => match F !! c with Some l => instSize l | None => len fields end
  | ObjectArray _ _ _ elems => array_size (len elems) n
  | PrimArray _ _ t k _ => array_size k (hprofTypeSize t n)
  | _ => 0
  end.
Definition obj_refs (n : Z) (F : gmap Z classLayout) (s : subrec) : list Z :=
  match s with
  | ClassDump c => cd_super c :: cd_loader c :: omap static_ref (cd_statics c)
  | InstanceDump _ _ c fields => match F !! c with Some _ => c :: field_ids n (types_of F c) fields | None => [] end
  | ObjectArray _ _ _ elems => elems
  | _ => []
  end.

Definition raw_root (n : Z) (s : subrec) : option rawRoot :=
  match s with
  | Root tag o rest =>
    '(k, _) ← rootRecordLayout n tag;
    if o =? 0 then None else Some {| root_id := o; kind := k; threadSerial := root_serial k rest |}
  | _ => None
  end.
Definition add_thread (m : gmap Z Z) (r : rawRoot) : gmap Z Z :=
  if bool_decide (kind r = RootThreadObject) then <[threadSerial r := root_id r]> m else m.
Definition roots_of (n : Z) (subs : list subrec) : list rawRoot := omap (raw_root n) subs.
Definition threads_of (n : Z) (subs : list subrec) : gmap Z Z := fold_left add_thread (roots_of n subs) ∅.

(** The names of the class table. *)
Definition preset (k : classKey) : string :=
  if primType k =? 0 then (if classID k =? 0 then javaLangClass else "") else primArrayName (primType k).
Definition preset_ok (bd : graphBuilder) : Prop :=
  classKeys bd !! 0%nat = Some {| classID := 0; primType := 0 |} ∧
  ∀ j k, classKeys bd !! j = Some k → b_classNames bd !! j = Some (preset k).

(** ** One more object *)

Lemma runs_and {A} (m : outcome A) P Q : runs m P → runs m Q → runs m (λ a, P a ∧ Q a).
Proof. intros (a & -> & HP) (a' & [= <-] & HQ). by exists a. Qed.

Lemma addObject_room bd o cls sh refs : builder_ok bd → len (b_ids bd) < maxGraphObjects → len (rawEdges bd) + len refs <= maxGraphEdges →
  runs (addObject bd o cls sh refs) (λ r, err r.1 = err bd ∧ len (rawEdges r.1) <= len (rawEdges bd) + len refs ∧ b_classNames r.1 = b_classNames bd).
Proof.
  intros B Hlen Hraw. unfold addObject. rewrite (proj2 (Z.leb_gt _ _)) by lia. cbv zeta. apply runs_bind. unfold appendRefs.
  pose proof (len_nonneg refs). pose proof (len_nonneg (b_ids bd)). cbn [rawEdges with_edges with_objects edgeOff edgeCnt b_ids].
  apply runs_if; intros Hc; [apply runs_ok, runs_ok; cbn; split_and!; [done|lia|done]|].
  rewrite (proj2 (Z.ltb_ge _ _)) by lia. pose proof (bo_off _ B). pose proof (bo_cnt _ B).
  apply runs_bind, runs_set_idx; [rewrite len_snoc; lia|]. apply runs_bind, runs_idx; [rewrite len_put, len_snoc; lia|].
  apply runs_bind, runs_set_idx; [rewrite len_snoc; lia|]. apply runs_ok, runs_ok. cbn. split_and!; [done| |done]. rewrite len_app.
  assert (len (List.filter (λ r, negb (r =? 0)) refs) <= len refs); [|lia]. unfold len. pose proof (List.filter_length_le (λ r, negb (r =? 0)) refs). lia.
Qed.
Lemma classFor_more bd k name bd' c : preset_ok bd → name = preset k ∨ k = {| classID := 0; primType := 0 |} → builder_ok bd → classFor bd k name = (bd', c) →
  classKeys bd `prefix_of` classKeys bd' ∧ preset_ok bd' ∧ threadBySerial bd' = threadBySerial bd.
Proof.
  intros [P0 P] Hname B. unfold classFor. destruct (classIdx bd !! k) as [j|] eqn:E; intros [= <- <-]; [done|]. cbn. split_and!; [by apply prefix_app_r| |done].
  split; [by apply lookup_app_l_Some|]. intros j k'. cbn. intros [Hj|[Hj Hk]]%lookup_app_Some; [by apply lookup_app_l_Some, P|].
  apply list_lookup_singleton_Some in Hk as [Hk ->]. pose proof (bo_names _ B) as Hl. unfold len in Hl.
  rewrite lookup_app_r by lia. replace (j - length (b_classNames bd))%nat with 0%nat by lia. cbn. f_equal. destruct Hname as [->|Hk0]; [done|].
  subst k'. assert (classIdx bd !! {| classID := 0; primType := 0 |} = Some 0) by (apply (bo_index _ B); split; [lia|done]). congruence.
Qed.

(** The builder [bd'] is [bd] with one more object of class [k]. *)
Record one_more (bd bd' : graphBuilder) (o : Z) (k : classKey) (sh : Z) (refs : list Z) : Prop := {
  om_object : ∃ cls, objects bd' = objects bd ++ [{| o_id := o; o_class := cls; o_shallow := sh; o_refs := nonzero refs |}] ∧
    0 <= cls ∧ classKeys bd' !! Z.to_nat cls = Some k;
  om_keys : classKeys bd `prefix_of` classKeys bd';
  om_preset : preset_ok bd';
  om_roots : b_roots bd' = b_roots bd ∧ threadBySerial bd' = threadBySerial bd;
  om_edges : len (rawEdges bd') <= len (rawEdges bd) + len refs;
  om_ids : b_ids bd' = b_ids bd ++ [o] }.

Lemma add_more st k name b1 c o cls sh refs key : state_ok st → preset_ok (b st) → classFor (b st) k name = (b1, c) →
  name = preset k ∨ k = {| classID := 0; primType := 0 |} → i64 sh = sh →
  cls = c ∧ key = k ∨ cls = classClass st ∧ classClass st = 0 ∧ key = {| classID := 0; primType := 0 |} →
  len (b_ids (b st)) < maxGraphObjects → len (rawEdges (b st)) + len refs <= maxGraphEdges →
  runs (addObject b1 o cls sh refs) (λ r, (state_ok (set_b st r.1) ∧ err r.1 = None ∧ r.2 = len (b_ids (b st)) ∧ k ∈ classKeys r.1) ∧ one_more (b st) r.1 o key sh refs).
Proof.
  intros S P Hc Hname Hsh Hcls Hroom Hedges. pose proof (bo_len _ (sk_b _ S)) as Hmax. pose proof (sk_keys _ S) as Hkeys.
  destruct (classFor_spec _ _ _ _ _ (sk_b _ S) ltac:(lia) Hc) as (B1 & Hc1 & Hck & Ho & Hlen & Hids & He & Hr & Hraw).
  destruct (classFor_more _ _ _ _ _ P Hname (sk_b _ S) Hc) as (Hpre & P1 & Ht). pose proof (sk_class _ S) as Hcc.
  assert (0 <= cls < len (classKeys b1) ∧ classKeys b1 !! Z.to_nat cls = Some key) as [Hcr Hclk].
  { destruct Hcls as [[-> ->]|(-> & H0 & ->)]; [done|]. split; [lia|]. rewrite H0. apply P1. }
  pose proof (add_step st k name b1 c o cls sh refs S Hc ltac:(naive_solver) Hsh) as A1.
  pose proof (addObject_spec b1 o cls sh refs B1 Hcr Hsh) as A2.
  pose proof (addObject_room b1 o cls sh refs B1 ltac:(by rewrite Hids) ltac:(by rewrite Hraw)) as A3.
  eapply runs_mono; [apply runs_and; [exact A1|apply runs_and; [exact A2|exact A3]]|].
  intros [b2 p] (H1 & (B2 & R2 & T2 & K2 & _ & H2) & E3 & W3 & N3). cbn [fst snd] in *.
  rewrite He, (sk_err _ S) in E3. destruct (H1 E3) as (S2 & Hp & Hids2 & _). destruct H2 as [(_ & _ & _ & Ho2)|]; [|done].
  split; [split_and!; [done..|]; rewrite K2; by eapply list_elem_of_lookup_2|]. split; [|by rewrite K2| |split; congruence|by rewrite <-Hraw|done].
  - exists cls. rewrite Ho2, Ho, K2. split_and!; [done|lia|done].
  - destruct P1 as [P0 P1]. split; [by rewrite K2|]. intros j k'. rewrite K2, N3. apply P1.
Qed.

(** ** The state after a part of the dump *)

Section Sim.
Context (n : Z) (Hn : n = 4 ∨ n = 8) (F : gmap Z classLayout).

Definition edges_in (subs : list subrec) : Z := sum_over (λ s, len (obj_refs n F s)) (objs subs).
Definition pend_refs (q : pendingInstance) : list Z := obj_refs n F (InstanceDump 0 0 (pi_classID q) (pi_fields q)).

(** Instances of a class that the dump does not define. *)
Definition orphan (s : subrec) : bool :=
  match s with InstanceDump _ _ c _ => bool_decide (F !! c = None) | _ => false end.
Definition orphans (subs : list subrec) : Z := len (List.filter orphan subs).
Definition pend_orphans (qs : list pendingInstance) : Z := len (filter (λ q, F !! pi_classID q = None) qs).

(** Object [p] of the builder is the one [s] describes; an instance whose class
    was not known when it was read is held back. *)
Record described (st : graphState) (p : Z) (s : subrec) : Prop := {
  de_id : Some (o_id (object_at (b st) p)) = obj_id s;
  de_key : 0 <= o_class (object_at (b st) p) ∧ classKeys (b st) !! Z.to_nat (o_class (object_at (b st) p)) = Some (obj_key s);
  de_rest :
    (o_shallow (object_at (b st) p) = obj_size n F s ∧ o_refs (object_at (b st) p) = nonzero (obj_refs n F s) ∧ p ∉ parseIdx <$> pending st) ∨
    ∃ o serial c fields, s = InstanceDump o serial c fields ∧ {| parseIdx := p; pi_classID := c; pi_fields := fields |} ∈ pending st ∧
      o_shallow (object_at (b st) p) = len fields ∧ o_refs (object_at (b st) p) = [] }.

Record sim (done_ : list subrec) (st : graphState) : Prop := {
  sm_ok : state_ok st;
  sm_n : gs_idSize st = n;
  sm_class : classClass st = 0;
  sm_preset : preset_ok (b st);
  sm_layouts : layouts st = layouts_of done_;
  sm_classes c : ClassDump c ∈ done_ → {| classID := cd_id c; primType := 0 |} ∈ classKeys (b st);
  sm_ids : b_ids (b st) = omap obj_id done_;
  sm_obj p s : objs done_ !! p = Some s → described st (Z.of_nat p) s;
  sm_pending q : q ∈ pending st → ∃ o serial, objs done_ !! Z.to_nat (parseIdx q) = Some (InstanceDump o serial (pi_classID q) (pi_fields q));
  sm_edges : len (rawEdges (b st)) + sum_over (λ q, len (pend_refs q)) (pending st) <= edges_in done_;
  sm_orphans : pend_orphans (pending st) = orphans done_;
  sm_roots : b_roots (b st) = roots_of n done_;
  sm_threads : threadBySerial (b st) = threads_of n done_ }.

Lemma objs_snoc done_ s : objs (done_ ++ [s]) = objs done_ ++ (if decide (is_Some (obj_id s)) then [s] else []).
Proof. unfold objs. rewrite filter_app, filter_cons, filter_nil. by destruct (decide _). Qed.
Lemma len_objs subs : len (omap obj_id subs) = len (objs subs).
Proof.
  unfold len. f_equal. induction subs as [|s l IH]; [done|]. unfold objs in *. rewrite filter_cons. cbn [omap list_omap].
  destruct (obj_id s) as [i|]; [rewrite decide_True by (by eexists)|rewrite decide_False by apply is_Some_None]; cbn; by rewrite IH.
Qed.
Lemma edges_snoc done_ s : is_Some (obj_id s) → edges_in (done_ ++ [s]) = edges_in done_ + len (obj_refs n F s).
Proof. intros Hs. unfold edges_in. rewrite objs_snoc, decide_True by done. rewrite sum_over_app. cbn. lia. Qed.
Lemma sim_len done_ st : sim done_ st → len (b_ids (b st)) = len (objs done_).
Proof. intros M. by rewrite (sm_ids _ _ M), len_objs. Qed.

(** The old objects are described as before. *)
Lemma described_more st st' o k sh refs p s : one_more (b st) (b st') o k sh refs → 0 <= p < len (b_ids (b st)) →
  (∃ ps, pending st' = pending st ++ ps ∧ ∀ q, q ∈ ps → parseIdx q = len (b_ids (b st))) → described st p s → described st' p s.
Proof.
  intros M Hp (ps & Hps & Hpi) [D1 D2 D3]. destruct (om_object _ _ _ _ _ _ M) as (cls & Ho & _).
  assert (object_at (b st') p = object_at (b st) p) as Hobj.
  { pose proof (objects_lookup _ _ Hp) as H1. assert (0 <= p < len (b_ids (b st'))) as Hp' by (rewrite (om_ids _ _ _ _ _ _ M), len_snoc; lia).
    pose proof (objects_lookup _ _ Hp') as H2. rewrite Ho, (lookup_app_l_Some _ _ _ _ H1) in H2. by apply (inj Some) in H2. }
  split; rewrite Hobj; [done| |].
  - destruct D2 as [D2 D2']. split; [done|]. by eapply prefix_lookup_Some; [|apply (om_keys _ _ _ _ _ _ M)].
  - destruct D3 as [(D3 & D4 & D5)|(o' & serial & c & fields & -> & Hin & D4)]; [left|right].
    + split_and!; [done..|]. rewrite Hps, fmap_app, not_elem_of_app. split; [done|]. intros (q & Hq & Hqi)%list_elem_of_fmap. apply Hpi in Hqi. lia.
    + exists o', serial, c, fields. split_and!; [done| |apply D4..]. rewrite Hps. by apply elem_of_app; left.
Qed.

(** The state after one more object record. *)
Lemma sim_more done_ s st st' o sh refs ps : sim done_ st → obj_id s = Some o → one_more (b st) (b st') o (obj_key s) sh refs →
  state_ok st' → gs_idSize st' = n → classClass st' = 0 → layouts st' = add_layout (layouts st) s → raw_root n s = None →
  (∀ c, s = ClassDump c → {| classID := cd_id c; primType := 0 |} ∈ classKeys (b st')) →
  pending st' = pending st ++ ps →
  (ps = [] ∧ sh = obj_size n F s ∧ refs = obj_refs n F s ∧ orphan s = false ∨
   ∃ serial c fields, s = InstanceDump o serial c fields ∧ ps = [{| parseIdx := len (b_ids (b st)); pi_classID := c; pi_fields := fields |}] ∧ sh = len fields ∧ refs = []) →
  sim (done_ ++ [s]) st'.
Proof.
  intros M Hs OM S' Hi Hcc Hl Hroot Hck0 Hps Hcase. assert (is_Some (obj_id s)) as Hso by (rewrite Hs; by eexists).
  pose proof (sim_len _ _ M) as Hlen. pose proof (om_ids _ _ _ _ _ _ OM) as Hids. destruct (om_object _ _ _ _ _ _ OM) as (cls & Ho & Hcls & Hck).
  assert (object_at (b st') (len (b_ids (b st))) = {| o_id := o; o_class := cls; o_shallow := sh; o_refs := nonzero refs |}) as Hnew.
  { pose proof (len_nonneg (b_ids (b st))). assert (0 <= len (b_ids (b st)) < len (b_ids (b st'))) as Hr by (rewrite Hids, len_snoc; lia).
    pose proof (objects_lookup _ _ Hr) as H2. rewrite Ho in H2. rewrite <-len_objects in H2 at 1. unfold len at 1 in H2. rewrite Nat2Z.id, list_lookup_middle in H2 by done. by apply (inj Some) in H2. }
  split; try done.
  - apply (om_preset _ _ _ _ _ _ OM).
  - rewrite Hl, (sm_layouts _ _ M). unfold layouts_of. by rewrite fold_left_app.
  - intros c [Hc|Hc%list_elem_of_singleton]%elem_of_app; [|by apply Hck0].
    apply (sm_classes _ _ M), list_elem_of_lookup in Hc as (j & Hj). eapply list_elem_of_lookup_2, prefix_lookup_Some; [done|apply (om_keys _ _ _ _ _ _ OM)].
  - rewrite Hids, (sm_ids _ _ M), omap_app. cbn. by rewrite Hs.
  - intros p s'. rewrite objs_snoc, decide_True by done. intros [Hp|[Hp Hs']]%lookup_app_Some.
    + pose proof (lookup_lt_Some _ _ _ Hp). apply (described_more st st' _ _ _ _ _ _ OM); [unfold len in *; lia| |by apply (sm_obj _ _ M)].
      exists ps. split; [done|]. destruct Hcase as [[-> _]|(serial & c & fields & _ & -> & _)]; [by intros q ?%not_elem_of_nil|by intros q ->%list_elem_of_singleton].
    + apply list_lookup_singleton_Some in Hs' as [Hp0 <-]. replace (Z.of_nat p) with (len (b_ids (b st))) by (unfold len in *; lia).
      split; rewrite Hnew; cbn; [done|done|]. destruct Hcase as [(-> & -> & -> & _)|(serial & c & fields & -> & -> & -> & ->)]; [left|right].
      * split_and!; [done..|]. rewrite Hps, app_nil_r. intros (q & Hq & Hqi)%list_elem_of_fmap. destruct (sk_pending _ (sm_ok _ _ M) q Hqi). lia.
      * exists o, serial, c, fields. split_and!; [done| |done|done]. rewrite Hps. apply elem_of_app. right. by apply list_elem_of_singleton.
  - intros q. rewrite Hps, objs_snoc, decide_True by done. intros [Hq|Hq]%elem_of_app.
    + destruct (sm_pending _ _ M q Hq) as (o' & serial & Ho'). exists o', serial. by apply lookup_app_l_Some.
    + destruct Hcase as [[-> _]|(serial & c & fields & -> & -> & _)]; [by apply not_elem_of_nil in Hq|]. apply list_elem_of_singleton in Hq as ->. cbn.
      exists o, serial. rewrite Hlen. unfold len. rewrite Nat2Z.id. by apply list_lookup_middle.
  - rewrite edges_snoc, Hps, sum_over_app by done. pose proof (sm_edges _ _ M). pose proof (om_edges _ _ _ _ _ _ OM) as He.
    destruct Hcase as [(-> & _ & -> & _)|(serial & c & fields & -> & -> & _ & ->)]; cbn [sum_over]; [lia|].
    rewrite len_nil in He. unfold pend_refs at 2. cbn [obj_refs pi_classID pi_fields]. lia.
  - pose proof (sm_orphans _ _ M) as Hor. unfold pend_orphans, orphans in *. rewrite Hps, filter_app, List.filter_app, !len_app, Hor.
    destruct Hcase as [(-> & _ & _ & Hno)|(serial & c & fields & -> & -> & _)]; cbn [List.filter]; [by rewrite Hno|].
    rewrite filter_cons, filter_nil. cbn [pi_classID orphan]. by destruct (decide (F !! c = None)) as [Hd|Hd]; [rewrite bool_decide_true by done|rewrite bool_decide_false by done].
  - destruct (om_roots _ _ _ _ _ _ OM) as [-> _]. rewrite (sm_roots _ _ M). unfold roots_of. rewrite omap_app. cbn. by rewrite Hroot, app_nil_r.
  - destruct (om_roots _ _ _ _ _ _ OM) as [_ ->]. rewrite (sm_threads _ _ M). unfold threads_of, roots_of. rewrite omap_app. cbn. by rewrite Hroot, app_nil_r.
Qed.
End Sim.

(** ** Well-formed dumps *)

Record wf_subs (n : Z) (subs : list subrec) : Prop := {
  wf_ok : Forall (ok_sub n) subs;
  wf_ids : NoDup (omap obj_id subs);
  wf_chains o serial c fields : InstanceDump o serial c fields ∈ subs → is_Some (layouts_of subs !! c) → ∃ cs, chain (layouts_of subs) c cs;
  wf_objects : len (objs subs) <= maxGraphObjects;
  wf_edges : edges_in n (layouts_of subs) subs <= maxGraphEdges }.

Lemma layouts_snoc subs s : layouts_of (subs ++ [s]) = add_layout (layouts_of subs) s.
Proof. unfold layouts_of. by rewrite fold_left_app. Qed.
Lemma layouts_dom subs c l : layouts_of subs !! c = Some l → c ∈ omap obj_id subs ∧ ∃ cd, ClassDump cd ∈ subs ∧ cd_id cd = c ∧ l = layout_of cd.
Proof.
  induction subs as [|s subs IH] using rev_ind; [done|]. rewrite layouts_snoc, omap_app. setoid_rewrite elem_of_app.
  assert (layouts_of subs !! c = Some l → (c ∈ omap obj_id subs ∨ c ∈ omap obj_id [s]) ∧ ∃ cd, (ClassDump cd ∈ subs ∨ ClassDump cd ∈ [s]) ∧ cd_id cd = c ∧ l = layout_of cd) as Hold.
  { intros (H1 & cd & H2 & H3)%IH. split; [by left|]. exists cd. split; [by left|done]. }
  destruct s as [| cd | | | |]; cbn [add_layout]; try exact Hold. destruct (decide (cd_id cd = c)) as [<-|Hne].
  - rewrite lookup_insert_eq. intros [= <-]. split; [right; by left|]. exists cd. split; [right; by left|done].
  - rewrite lookup_insert_ne by done. exact Hold.
Qed.
Lemma layouts_mono subs rest : NoDup (omap obj_id (subs ++ rest)) → layouts_of subs ⊆ layouts_of (subs ++ rest).
Proof.
  induction rest as [|s rest IH] using rev_ind; [by rewrite app_nil_r|]. rewrite app_assoc, layouts_snoc, omap_app. intros (H1 & H2 & _)%NoDup_app.
  etrans; [by apply IH|]. destruct s as [| cd | | | |]; try done. apply insert_subseteq. destruct (layouts_of (subs ++ rest) !! cd_id cd) as [l|] eqn:E; [|done].
  apply layouts_dom in E as [E _]. exfalso. apply (H2 _ E). by left.
Qed.

Section Steps.
Context (n : Z) (Hn : n = 4 ∨ n = 8) (subs : list subrec) (W : wf_subs n subs).
Local Abbreviation F := (layouts_of subs).

Lemma obj_size_small s : ok_sub n s → i64 (obj_size n F s) = obj_size n F s.
Proof.
  intros Hs. apply i64_small. destruct s as [|c|o serial c fields|o serial c elems|o serial t k data|]; cbn in *; try lia.
  - destruct (F !! c) as [l|] eqn:E.
    + apply layouts_dom in E as (_ & cd & Hcd & _ & ->). pose proof (wf_ok _ _ W) as Hok. rewrite Forall_forall in Hok. destruct (Hok _ Hcd).
      unfold fits in *. cbn. change (256 ^ 4) with (2 ^ 32) in *. lia.
    + destruct Hs as (_ & _ & _ & Hs). unfold maxInstanceFieldBytes in Hs. pose proof (len_nonneg fields). lia.
  - destruct Hs as (_ & _ & _ & Hs & _). unfold fits in Hs. change (256 ^ 4) with (2 ^ 32) in Hs. unfold array_size, hprofArrayHeaderBytes. nia.
  - destruct Hs as (_ & _ & _ & Hs & _). unfold fits in Hs. change (256 ^ 4) with (2 ^ 32) in Hs. pose proof (typeSize_small n Hn t).
    unfold array_size, hprofArrayHeaderBytes. nia.
Qed.

Context (done_ : list subrec) (s : subrec) (rest : list subrec) (Heq : subs = done_ ++ s :: rest) (st : graphState) (M : sim n F done_ st).

Lemma s_in : s ∈ subs.
Proof. rewrite Heq. apply elem_of_app. right. by left. Qed.
Lemma s_ok : ok_sub n s.
Proof. pose proof (wf_ok _ _ W) as H. rewrite Forall_forall in H. apply H, s_in. Qed.
Lemma room (refs : list Z) : is_Some (obj_id s) → len refs <= len (obj_refs n F s) →
  len (b_ids (b st)) < maxGraphObjects ∧ len (rawEdges (b st)) + len refs <= maxGraphEdges.
Proof.
  intros Hs Hrefs. pose proof (wf_objects _ _ W) as H1. pose proof (wf_edges _ _ W) as H2. pose proof (sm_edges _ _ _ _ M) as H3. rewrite (sim_len _ _ _ _ M).
  assert (objs subs = objs done_ ++ s :: objs rest) as Ho by (rewrite Heq; unfold objs; by rewrite filter_app, filter_cons, decide_True).
  unfold edges_in in *. rewrite Ho in H1, H2. rewrite len_app, len_cons in H1. rewrite sum_over_app in H2. cbn [sum_over] in H2.
  pose proof (len_nonneg (objs rest)). assert (0 <= sum_over (λ s, len (obj_refs n F s)) (objs rest)) by (apply sum_over_nonneg; intros; apply len_nonneg).
  assert (0 <= sum_over (λ q, len (pend_refs n F q)) (pending st)) by (apply sum_over_nonneg; intros; apply len_nonneg). lia.
Qed.

(** An object record whose class is looked up and that is complete. *)
Lemma sim_graph_add o sh refs name ps : obj_id s = Some o → raw_root n s = None → add_layout (layouts st) s = layouts st → (if s is ClassDump _ then False else True) →
  name = preset (obj_key s) ∨ obj_key s = {| classID := 0; primType := 0 |} → i64 sh = sh →
  (ps = [] ∧ sh = obj_size n F s ∧ refs = obj_refs n F s ∧ orphan F s = false ∨
   ∃ serial c fields, s = InstanceDump o serial c fields ∧ ps = [{| parseIdx := len (b_ids (b st)); pi_classID := c; pi_fields := fields |}] ∧ sh = len fields ∧ refs = []) →
  runs (graph_add st (obj_key s) name o sh refs) (λ r, r.2 = len (b_ids (b st)) ∧ pending r.1 = pending st ∧
    ∀ st', b st' = b r.1 → layouts st' = layouts r.1 → gs_idSize st' = gs_idSize r.1 → classClass st' = classClass r.1 → pending st' = pending st ++ ps →
      err (b st') = None ∧ sim n F (done_ ++ [s]) st').
Proof.
  intros Hs Hroot Hlay Hnocd Hname Hsh Hcase. unfold graph_add. destruct (classFor _ _ _) as [b1 c] eqn:Hc.
  destruct (room refs) as [R1 R2]; [by rewrite Hs|destruct Hcase as [(_ & _ & -> & _)|(? & ? & ? & _ & _ & _ & ->)]; [done|apply len_nonneg]|].
  apply runs_bind. eapply runs_mono; [apply (add_more st (obj_key s) name b1 c o c sh refs (obj_key s) (sm_ok _ _ _ _ M) (sm_preset _ _ _ _ M) Hc Hname Hsh); [by left|done..]|].
  intros [b2 p] ((S2 & E2 & Hp & _) & OM). cbn [fst snd] in *. apply runs_ok. split_and!; [done..|]. cbn [fst snd].
  intros st' Hb Hl Hi Hcc Hps. rewrite Hb. split; [done|]. cbn in *.
  assert (state_ok st') as S'.
  { destruct S2 as [S1' S2' S3' S4' S5' S6' S7' S8']. split; rewrite ?Hb, ?Hi, ?Hcc, ?Hl, ?Hps; try done.
    - intros q [Hq|Hq]%elem_of_app; [by apply S7'|]. destruct Hcase as [[-> _]|(serial & cl & fields & -> & -> & -> & ->)]; [by apply not_elem_of_nil in Hq|].
      apply list_elem_of_singleton in Hq as ->. cbn. rewrite (om_ids _ _ _ _ _ _ OM), len_snoc. pose proof (len_nonneg (b_ids (b st))). split; [lia|].
      destruct (om_object _ _ _ _ _ _ OM) as (cls & Ho & _). assert (0 <= len (b_ids (b st)) < len (b_ids b2)) as Hr by (rewrite (om_ids _ _ _ _ _ _ OM), len_snoc; lia).
      pose proof (objects_lookup _ _ Hr) as H2. rewrite Ho in H2. rewrite <-len_objects in H2 at 1. unfold len at 1 in H2. rewrite Nat2Z.id, list_lookup_middle in H2 by done. by injection H2.
    - rewrite fmap_app. apply NoDup_app. split_and!; [apply (sk_distinct _ (sm_ok _ _ _ _ M))| |destruct Hcase as [[-> _]|(? & ? & ? & _ & -> & _)]; [constructor|apply NoDup_singleton]].
      intros x (q & -> & Hq)%list_elem_of_fmap Hx. destruct Hcase as [[-> _]|(serial & cl & fields & -> & -> & _)]; [by apply not_elem_of_nil in Hx|].
      apply list_elem_of_singleton in Hx. cbn in Hx. destruct (sk_pending _ (sm_ok _ _ _ _ M) q Hq). lia. }
  apply (sim_more n F done_ s st st' o sh refs ps M Hs); try done; [by rewrite Hb|by rewrite Hi; apply M|by rewrite Hcc; apply M|by rewrite Hl, Hlay|].
  intros cd Hcd. exfalso. revert Hnocd. by rewrite Hcd.
Qed.

Lemma checked_runs m (Q : graphState → Prop) : runs m (λ st', err (b st') = None ∧ Q st') → runs (checked m) Q.
Proof. intros (st' & -> & He & HQ). unfold checked. cbn. rewrite He. by apply runs_ok. Qed.
Lemma layouts_sub : layouts st ⊆ F.
Proof. rewrite (sm_layouts _ _ _ _ M), Heq. apply layouts_mono. pose proof (wf_ids _ _ W) as H. by rewrite Heq in H. Qed.

Lemma sim_skip : (if s is ClassDump _ then False else True) → obj_id s = None → orphan F s = false → raw_root n s = None → add_layout (layouts st) s = layouts st → sim n F (done_ ++ [s]) st.
Proof.
  intros Hno Ho Hor Hr Hl. assert (orphans F (done_ ++ [s]) = orphans F done_) as Hors by (unfold orphans; rewrite List.filter_app; cbn; by rewrite Hor, app_nil_r).
  assert (objs (done_ ++ [s]) = objs done_) as Hobjs by (rewrite objs_snoc, decide_False, app_nil_r; [done|by rewrite Ho; apply is_Some_None]).
  assert (omap obj_id (done_ ++ [s]) = omap obj_id done_) as Hids by (rewrite omap_app; cbn; by rewrite Ho, app_nil_r).
  assert (roots_of n (done_ ++ [s]) = roots_of n done_) as Hroots by (unfold roots_of; rewrite omap_app; cbn; by rewrite Hr, app_nil_r).
  destruct M. split; unfold edges_in, threads_of; rewrite ?Hobjs, ?Hids, ?Hroots, ?Hors; try done; [by rewrite layouts_snoc, <-sm_layouts0|].
  intros c [Hc|Hc%list_elem_of_singleton]%elem_of_app; [auto|]. by rewrite <-Hc in Hno.
Qed.
Lemma sim_root tag o bytes_ : s = Root tag o bytes_ → runs (checked (graph_sub n st s)) (sim n F (done_ ++ [s])).
Proof.
  intros Hs. pose proof s_ok as Hok. rewrite Hs in Hok. destruct Hok as (_ & k & Hk). apply checked_runs. rewrite Hs at 1. cbn [graph_sub]. rewrite Hk. apply runs_ok.
  pose proof (sk_err _ (sm_ok _ _ _ _ M)) as He. split; [done|]. unfold graph_root.
  match goal with |- sim _ _ _ (set_b _ (with_roots _ ?r ?t)) => set (rs := r); set (ts := t) end.
  assert (raw_root n s = if o =? 0 then None else Some {| root_id := o; kind := k; threadSerial := root_serial k bytes_ |}) as Hraw by (rewrite Hs; cbn; by rewrite Hk).
  assert (rs = roots_of n (done_ ++ [s])) as Hrs.
  { unfold rs, roots_of. rewrite (sm_roots _ _ _ _ M), omap_app. cbn. rewrite Hraw. destruct (o =? 0); cbn; [by rewrite app_nil_r|done]. }
  assert (ts = threads_of n (done_ ++ [s])) as Hts.
  { unfold ts, threads_of, roots_of. rewrite (sm_threads _ _ _ _ M), omap_app. cbn. rewrite Hraw. destruct (o =? 0); cbn; [by rewrite andb_false_r, app_nil_r|].
    rewrite andb_true_r, fold_left_app. done. }
  assert (objs (done_ ++ [s]) = objs done_) as Hobjs by (rewrite objs_snoc, decide_False, app_nil_r; [done|by rewrite Hs; apply is_Some_None]).
  assert (omap obj_id (done_ ++ [s]) = omap obj_id done_) as Hids by (rewrite omap_app, Hs; cbn; by rewrite app_nil_r).
  destruct M as [M1 M2 M3 M4 M5 MC M6 M7 M8 M9 M10 M11 M12]. split; unfold edges_in; rewrite ?Hobjs, ?Hids; try done.
  - by apply settled_roots.
  - rewrite layouts_snoc, <-M5. by rewrite Hs.
  - intros c [Hc|Hc%list_elem_of_singleton]%elem_of_app; [by apply MC|]. by rewrite <-Hc in Hs.
  - intros p s' Hp. destruct (M7 p s' Hp). by split.
  - unfold orphans. rewrite List.filter_app, Hs. cbn. by rewrite app_nil_r.
Qed.
Lemma sim_class cd : s = ClassDump cd → runs (checked (graph_sub n st s)) (sim n F (done_ ++ [s])).
Proof.
  intros Hs. pose proof s_ok as Hok. rewrite Hs in Hok. pose proof (sm_ok _ _ _ _ M) as S. apply checked_runs. rewrite Hs at 1. cbn [graph_sub]. unfold graph_class.
  set (st1 := set_layouts _ _). assert (state_ok st1) as S1 by (apply state_ok_layouts; [done|]; destruct Hok; by apply (fits_mono 4)).
  destruct (classFor _ _ _) as [b1 c] eqn:Hc. set (refs := _ :: _).
  assert (refs = obj_refs n F s) as Hrefs by by rewrite Hs.
  destruct (room refs) as [R1 R2]; [by rewrite Hs|by rewrite Hrefs|].
  assert ("" = preset {| classID := cd_id cd; primType := 0 |} ∨ {| classID := cd_id cd; primType := 0 |} = {| classID := 0; primType := 0 |}) as Hname.
  { unfold preset. cbn. destruct (Z.eqb_spec (cd_id cd) 0) as [->|]; auto. }
  apply runs_bind. eapply runs_mono; [apply (add_more st1 _ _ _ _ (cd_id cd) (classClass st1) 0 refs (obj_key s) S1 (sm_preset _ _ _ _ M) Hc Hname); [done| |done..]|].
  { right. rewrite Hs. split_and!; [done|apply M|done]. }
  intros [b2 p] ((S2 & E2 & _ & Hck) & OM). cbn [fst snd] in *. apply runs_ok. split; [done|].
  apply (sim_more n F done_ s st (set_b st1 b2) (cd_id cd) 0 refs [] M); try done; try apply M; try (by rewrite Hs).
  - intros cd' Hcd'. rewrite Hs in Hcd'. by injection Hcd' as <-.
  - by rewrite app_nil_r.
  - left. rewrite Hrefs, Hs. by split_and!.
Qed.
Lemma instance_name c : "" = preset {| classID := c; primType := 0 |} ∨ {| classID := c; primType := 0 |} = {| classID := 0; primType := 0 |}.
Proof. unfold preset. cbn. destruct (Z.eqb_spec c 0) as [->|]; auto. Qed.
Lemma sim_array o serial c elems : s = ObjectArray o serial c elems → runs (checked (graph_sub n st s)) (sim n F (done_ ++ [s])).
Proof.
  intros Hs. pose proof (obj_size_small s s_ok) as Hsz. apply checked_runs. rewrite Hs at 1. cbn [graph_sub]. apply runs_bind.
  assert (obj_key s = {| classID := c; primType := 0 |} ∧ obj_size n F s = array_size (len elems) n ∧ obj_refs n F s = elems) as (Hk & Hsize & Hr) by by rewrite Hs.
  rewrite <-Hk, <-Hsize, <-Hr at 1. eapply runs_mono; [apply (sim_graph_add o _ _ "" []); [by rewrite Hs|by rewrite Hs|by rewrite Hs|by rewrite Hs|rewrite Hk; apply instance_name|done|left; by rewrite Hs]|].
  cbv beta. intros [st1 p] (_ & Hp & Hsim). apply runs_ok. apply Hsim; [done..|]. by rewrite app_nil_r.
Qed.
Lemma sim_prim o serial t k data : s = PrimArray o serial t k data → runs (checked (graph_sub n st s)) (sim n F (done_ ++ [s])).
Proof.
  intros Hs. pose proof (obj_size_small s s_ok) as Hsz. apply checked_runs. rewrite Hs at 1. cbn [graph_sub]. apply runs_bind.
  assert (obj_key s = {| classID := 0; primType := t |} ∧ obj_size n F s = array_size k (hprofTypeSize t n) ∧ obj_refs n F s = []) as (Hk & Hsize & Hr) by by rewrite Hs.
  rewrite <-Hk, <-Hsize, <-Hr at 1. eapply runs_mono; [apply (sim_graph_add o _ _ (primArrayName t) []); [by rewrite Hs|by rewrite Hs|by rewrite Hs|by rewrite Hs| |done|left; by rewrite Hs]|].
  { rewrite Hk. unfold preset. cbn. destruct (Z.eqb_spec t 0) as [->|]; auto. }
  cbv beta. intros [st1 p] (_ & Hp & Hsim). apply runs_ok. apply Hsim; [done..|]. by rewrite app_nil_r.
Qed.
Lemma sim_instance o serial c fields : s = InstanceDump o serial c fields → runs (checked (graph_sub n st s)) (sim n F (done_ ++ [s])).
Proof.
  intros Hs. pose proof (obj_size_small s s_ok) as Hsz. pose proof s_ok as Hok. rewrite Hs in Hok. destruct Hok as (_ & _ & _ & Hlen).
  apply checked_runs. rewrite Hs at 1. cbn [graph_sub]. unfold graph_instance.
  assert (obj_key s = {| classID := c; primType := 0 |}) as Hk by by rewrite Hs.
  assert (∀ d, d = None ∨ (∃ l, F !! c = Some l ∧ d = Some (l, obj_refs n F s)) →
    runs (match d with
          | Some (l, refs) => '(st, _) ← graph_add st (obj_key s) "" o (instSize l) refs; Ok st
          | None => '(st, p) ← graph_add st (obj_key s) "" o (len fields) []; Ok (add_pending st {| parseIdx := p; pi_classID := c; pi_fields := fields |})
          end) (λ st', err (b st') = None ∧ sim n F (done_ ++ [s]) st')) as Hd.
  { intros d [->|(l & Hl & ->)]; apply runs_bind.
    - eapply runs_mono; [apply (sim_graph_add o (len fields) [] "" [{| parseIdx := len (b_ids (b st)); pi_classID := c; pi_fields := fields |}])|];
        [by rewrite Hs|by rewrite Hs|by rewrite Hs|by rewrite Hs|rewrite Hk; apply instance_name| |right; by exists serial, c, fields|].
      { unfold maxInstanceFieldBytes in Hlen. pose proof (len_nonneg fields). apply i64_small. lia. }
      cbv beta. intros [st1 p] (Hp & Hpend & Hsim). cbn [fst snd] in *. subst p. apply runs_ok. apply Hsim; try done. cbn. by rewrite Hpend.
    - eapply runs_mono; [apply (sim_graph_add o (instSize l) (obj_refs n F s) "" []); [by rewrite Hs|by rewrite Hs|by rewrite Hs|by rewrite Hs|rewrite Hk; apply instance_name| |left]|].
      + revert Hsz. rewrite Hs. cbn. by rewrite Hl.
      + rewrite Hs. cbn. by rewrite Hl, bool_decide_false.
      + cbv beta. intros [st1 p] (_ & Hp & Hsim). apply runs_ok. apply Hsim; [done..|]. by rewrite app_nil_r. }
  rewrite <-Hk. apply runs_bind. destruct (layouts st !! c) as [l|] eqn:El; [|apply runs_ok; apply (Hd None); by left].
  pose proof (lookup_weaken _ _ _ _ El layouts_sub) as HFl. destruct (wf_chains _ _ W o serial c fields) as (cs & Hcs); [rewrite <-Hs; apply s_in|by eexists|].
  apply runs_bind. destruct (instanceRefs_chain n Hn st F c cs fields (sm_n _ _ _ _ M) layouts_sub Hcs) as [->|(out' & -> & _)]; apply runs_ok, runs_ok.
  - apply (Hd (Some (l, _))). right. exists l. split; [done|]. rewrite Hs. cbn. by rewrite HFl.
  - apply (Hd None). by left.
Qed.
Lemma sim_sub : runs (checked (graph_sub n st s)) (sim n F (done_ ++ [s])).
Proof.
  enough (∀ s', s = s' → runs (checked (graph_sub n st s)) (sim n F (done_ ++ [s]))) as H by by apply (H s).
  intros s' Hs. destruct s' as [tag o bytes_|cd|o serial c fields|o serial c elems|o serial t k data|body].
  - by eapply sim_root.
  - by eapply sim_class.
  - by eapply sim_instance.
  - by eapply sim_array.
  - by eapply sim_prim.
  - apply checked_runs. rewrite Hs at 1. apply runs_ok. split; [apply (sk_err _ (sm_ok _ _ _ _ M))|]. apply sim_skip; by rewrite Hs.
Qed.
End Steps.
End Exact.
