(* ===== verification/HprofParse.v ===== *)
(** * The graph parser: theorems

    [depicts n d g] says that the graph [g] is the one the dump [d] describes.
    The parser returns such a graph for the encoding of every well-formed dump,
    and for no input does it panic or return a malformed graph. *)

From Stdlib Require Import Ascii.
From S2P Require Import Prelude Arrays GoStrings GoRuntime GoIO HeapGraph HeapDFS HprofFormat HprofGraph HprofSafe HprofDump HprofExact.

Module ParseFacts.
Export Exact.

(** ** All records of a dump *)

Definition strings_of (d : list drecord) : gmap Z string :=
  fold_left (λ m r, match r with RString _ i body => <[i := string_of_bytes body]> m | _ => m end) d ∅.
Definition names_of (d : list drecord) : gmap Z Z :=
  fold_left (λ m r, match r with RLoadClass _ _ _ c _ name => <[c := name]> m | _ => m end) d ∅.

Record wf_dump (n : Z) (d : list drecord) : Prop := {
  wd_n : n = 4 ∨ n = 8;
  wd_records : Forall (ok_record n) d;
  wd_subs : wf_subs n (subs_of d) }.

Definition same_names (st st' : graphState) : Prop := strings st' = strings st ∧ classNameID st' = classNameID st.
Lemma graph_add_names st k name o sh refs : wp (graph_add st k name o sh refs) (λ r, same_names st r.1) ∨ graph_add st k name o sh refs = Panic.
Proof. unfold graph_add. destruct (classFor _ _ _). destruct (addObject _ _ _ _ _) as [[]| |]; cbn; auto. left. done. Qed.
Lemma graph_sub_names n st s st' : checked (graph_sub n st s) = Ok st' → same_names st st'.
Proof.
  unfold checked. destruct (graph_sub n st s) as [st1| |] eqn:E; cbn; try done. destruct (err (b st1)); [done|]. intros [= <-].
  assert (∀ k name o sh refs (f : graphState → Z → graphState), (∀ st1 p, same_names st1 (f st1 p)) → ('(st1, p) ← graph_add st k name o sh refs; Ok (f st1 p)) = Ok st1 → same_names st st1) as Hadd.
  { intros k name o sh refs f Hf. destruct (graph_add_names st k name o sh refs) as [Hw| ->]; [|done]. destruct (graph_add _ _ _ _ _ _) as [[st2 p]| |]; cbn; try done.
    intros [= <-]. destruct (Hf st2 p) as [F1 F2]. destruct Hw as [H1 H2]. cbn in *. split; congruence. }
  destruct s as [tag o rest|c|o serial c fields|o serial c elems|o serial t k data|body]; cbn in E.
  - destruct (rootRecordLayout _ _) as [[]|]; by injection E as <-.
  - unfold graph_class in E. destruct (classFor _ _ _). destruct (addObject _ _ _ _ _) as [[]| |]; cbn in E; by simplify_eq.
  - unfold graph_instance in E. match type of E with (?m ≫= _) = _ => destruct m as [[[l refs]|]| |] end; cbn in E; try done.
    + by apply (Hadd _ _ _ _ _ (λ s _, s)) in E.
    + by apply (Hadd _ _ _ _ _ (λ s p, add_pending s {| parseIdx := p; pi_classID := c; pi_fields := fields |})) in E.
  - by apply (Hadd _ _ _ _ _ (λ s _, s)) in E.
  - by apply (Hadd _ _ _ _ _ (λ s _, s)) in E.
  - by injection E as <-.
Qed.

Section Dumps.
Context (n : Z) (d : list drecord) (W : wf_dump n d).
Local Abbreviation subs := (subs_of d).
Local Abbreviation F := (layouts_of (subs_of d)).

Definition simr (done_ : list drecord) (st : graphState) : Prop :=
  sim n F (subs_of done_) st ∧ strings st = strings_of done_ ∧ classNameID st = names_of done_.

Lemma subs_app d1 d2 : subs_of (d1 ++ d2) = subs_of d1 ++ subs_of d2.
Proof. unfold subs_of. by rewrite fmap_app, concat_app. Qed.
Lemma init_sim : simr [] (initState n).
Proof.
  split; [|by unfold initState; destruct (classFor _ _ _)]. split; try done.
  - apply initState_ok, W.
  - cbn. split; [done|]. intros [|j] k; [by intros [= <-]|done].
  - intros c []%not_elem_of_nil.
  - intros q []%not_elem_of_nil.
Qed.
Lemma sim_segment done_ segs rest st : subs = done_ ++ segs ++ rest → sim n F done_ st →
  runs (for_each segs (λ st s, checked (graph_sub n st s)) st) (λ st', sim n F (done_ ++ segs) st' ∧ same_names st st').
Proof.
  intros Heq M. eapply runs_mono; [apply (runs_for_each (λ k st', sim n F (done_ ++ k) st' ∧ same_names st st'))|done].
  - by rewrite app_nil_r.
  - intros k s r st1 Hk [M1 N1]. destruct (sim_sub n (wd_n _ _ W) subs (wd_subs _ _ W) (done_ ++ k) s (r ++ rest)) with (st := st1) as (st2 & Hst2 & M2); [|done|].
    { rewrite Heq, Hk. by rewrite <-!app_assoc. }
    exists st2. split; [done|]. rewrite app_assoc. split; [done|]. destruct N1 as [N1 N2]. apply graph_sub_names in Hst2 as [N3 N4]. split; congruence.
Qed.
Lemma sim_record done_ r rest st : d = done_ ++ r :: rest → simr done_ st → runs (checked (graph_record n st r)) (simr (done_ ++ [r])).
Proof.
  intros Heq (M & Hs & Hc). unfold simr. rewrite subs_app. unfold strings_of, names_of. rewrite !fold_left_app. fold (strings_of done_) (names_of done_).
  pose proof (sk_err _ (sm_ok _ _ _ _ M)) as He. apply checked_runs.
  destruct r as [time i body|time length serial c stack name|tag time segs|tag time body]; cbn [graph_record subs_of fmap list_fmap concat fold_left]; rewrite ?app_nil_r.
  - apply runs_ok. cbn. rewrite Hs. split; [done|]. split; [|done]. destruct M. split; try done; [by apply settled_strings|]. intros p s Hp. by destruct (sm_obj0 p s Hp).
  - apply runs_ok. cbn. rewrite Hc. split; [done|]. split; [|done]. destruct M. split; try done; [by apply settled_names|]. intros p s Hp. by destruct (sm_obj0 p s Hp).
  - eapply runs_mono; [apply (sim_segment (subs_of done_) segs (subs_of rest)); [|done]|].
    + by rewrite Heq, subs_app.
    + intros st1 (M1 & N1 & N2). split; [apply (sk_err _ (sm_ok _ _ _ _ M1))|]. by rewrite N1, N2.
  - apply runs_ok. done.
Qed.
Lemma dump_sim : runs (graph_dump n d) (simr d).
Proof.
  unfold graph_dump. apply (runs_for_each simr); [apply init_sim|]. intros done_ r rest st Heq M. by apply (sim_record done_ r rest).
Qed.

(** ** The end of the stream *)

Section Final.
Context (st : graphState) (M : sim n F subs st).

Lemma appendRefs_room bd p refs : builder_ok bd → 0 <= p < len (b_ids bd) → len (rawEdges bd) + len refs <= maxGraphEdges →
  runs (appendRefs bd p refs) (λ b', err b' = err bd ∧ len (rawEdges b') <= len (rawEdges bd) + len refs).
Proof.
  intros B Hp Hraw. unfold appendRefs. pose proof (len_nonneg refs). pose proof (bo_off _ B). pose proof (bo_cnt _ B).
  apply runs_if; intros Hc; [apply runs_ok; cbn; split; [done|lia]|]. rewrite (proj2 (Z.ltb_ge _ _)) by lia.
  apply runs_bind, runs_set_idx; [lia|]. apply runs_bind, runs_idx; [rewrite len_put; lia|]. apply runs_bind, runs_set_idx; [lia|]. apply runs_ok. cbn. split; [done|].
  rewrite len_app. assert (len (List.filter (λ r, negb (r =? 0)) refs) <= len refs); [|lia]. unfold len. pose proof (List.filter_length_le (λ r, negb (r =? 0)) refs). lia.
Qed.
(** A pending instance of a defined class has the references of its fields. *)
Lemma pending_refs q : q ∈ pending st → is_Some (F !! pi_classID q) → instanceRefs st (pi_classID q) (pi_fields q) = Ok (pend_refs n F q, true).
Proof.
  intros Hq Hc. destruct (sm_pending _ _ _ _ M q Hq) as (o & serial & Ho). apply list_elem_of_lookup_2, list_elem_of_filter in Ho as [_ Ho].
  destruct (wf_chains _ _ (wd_subs _ _ W) _ _ _ _ Ho Hc) as (cs & Hcs). pose proof (sm_layouts _ _ _ _ M) as Hl.
  destruct (instanceRefs_chain n (wd_n _ _ W) st F _ cs (pi_fields q) (sm_n _ _ _ _ M) ltac:(by rewrite Hl) Hcs) as [->|(_ & _ & x & Hx & Hn)].
  - unfold pend_refs. cbn. destruct Hc as (l & ->). done.
  - rewrite Hl in Hn. destruct (chain_elem _ _ _ _ Hcs Hx). congruence.
Qed.
Lemma sum_app_le k p r : pending st = k ++ p :: r → len (rawEdges (b st)) + sum_over (λ q, len (pend_refs n F q)) k + len (pend_refs n F p) <= maxGraphEdges.
Proof.
  intros Heq. pose proof (sm_edges _ _ _ _ M) as H1. pose proof (wf_edges _ _ (wd_subs _ _ W)) as H2. rewrite Heq, sum_over_app in H1. cbn [sum_over] in H1.
  assert (0 <= sum_over (λ q, len (pend_refs n F q)) r) by (apply sum_over_nonneg; intros; apply len_nonneg). lia.
Qed.
Definition within (k : list pendingInstance) (s : graphState) : Prop :=
  err (b s) = None ∧ len (rawEdges (b s)) <= len (rawEdges (b st)) + sum_over (λ q, len (pend_refs n F q)) k.
Lemma finalizeStep_room k p r s : pending st = k ++ p :: r → finalized st k s → within k s → runs (finalizeStep s p) (within (k ++ [p])).
Proof.
  intros Heq Fi [He Hraw]. pose proof (sm_ok _ _ _ _ M) as S. destruct (fi_same _ _ _ Fi) as [T1 T2]. injection T1 as L1 L2 L3 L4 L5 L6. injection T2 as M1 M2 M3 M4 M5 M6 M7 M8.
  destruct (sk_pending _ S p) as [Hp _]; [rewrite Heq; set_solver|]. pose proof (sum_app_le k p r Heq) as Hsum.
  unfold within. rewrite sum_over_app. cbn [sum_over]. pose proof (len_nonneg (pend_refs n F p)).
  unfold finalizeStep. rewrite L1. destruct (layouts st !! pi_classID p) as [l|] eqn:El; [|apply runs_ok; split; [done|lia]].
  apply runs_bind, runs_set_idx; [rewrite (bo_shallow _ (fi_b _ _ _ Fi)), M1; done|]. cbv zeta. apply runs_bind.
  rewrite (instanceRefs_ext st) by done. rewrite pending_refs; [|rewrite Heq; set_solver|rewrite <-(sm_layouts _ _ _ _ M), El; by eexists]. apply runs_ok. apply runs_bind.
  eapply runs_mono; [apply appendRefs_room|].
  - apply builder_ok_shallow; [apply Fi|]. apply i64_u32, (sk_layouts _ S _ _ El).
  - cbn. by rewrite M1.
  - change (len (rawEdges (b s)) + len (pend_refs n F p) <= maxGraphEdges). lia.
  - intros b' [E1 E2]. apply runs_ok. cbn [b set_b rawEdges err with_shallow with_objects] in *. split; [congruence|lia].
Qed.
Lemma finalize_loop : runs (for_each (pending st) finalizeStep st) (λ s, finalized st (pending st) s ∧ err (b s) = None).
Proof.
  eapply runs_mono; [apply (runs_for_each (λ k s, finalized st k s ∧ within k s))|].
  - split; [split; [apply M|done|done|by intros p _ []%not_elem_of_nil]|]. split; [apply M|]. cbn. lia.
  - intros k p r s Heq [Fi Wi]. apply runs_and; [by apply (finalizeStep_spec st (sm_ok _ _ _ _ M) k p r)|by apply (finalizeStep_room k p r)].
  - intros s [Fi [He _]]. done.
Qed.

(** After the loop every object is as described. *)
Lemma final_object s p sub : finalized st (pending st) s → err (b s) = None → objs subs !! p = Some sub → let o := object_at (b s) (Z.of_nat p) in
  Some (o_id o) = obj_id sub ∧ 0 <= o_class o ∧ classKeys (b s) !! Z.to_nat (o_class o) = Some (obj_key sub) ∧
  o_shallow o = obj_size n F sub ∧ o_refs o = nonzero (obj_refs n F sub).
Proof.
  intros Fi He Hp. destruct (fi_same _ _ _ Fi) as [T1 T2]. injection T2 as M1 M2 M3 M4 M5 M6 M7 M8. cbv zeta.
  destruct (sm_obj _ _ _ _ M p sub Hp) as [D1 [D2 D2'] D3]. pose proof (lookup_lt_Some _ _ _ Hp) as Hlt.
  assert (0 <= Z.of_nat p < len (b_ids (b st))) as Hr by (rewrite (sim_len _ _ _ _ M); unfold len; lia). rewrite M6.
  destruct D3 as [(D3 & D4 & D5)|(o & serial & c & fields & -> & Hin & D4 & D5)].
  - rewrite (fi_other _ _ _ Fi) by done. done.
  - pose proof (fi_done _ _ _ Fi _ He Hin) as Hres. unfold resolved_as in Hres. cbn [pi_classID pi_fields parseIdx] in Hres. rewrite (sm_layouts _ _ _ _ M) in Hres.
    cbn [obj_size obj_refs]. destruct (F !! c) as [l|] eqn:El.
    + destruct Hres as (refs & cc & Hrefs & Ho). pose proof (pending_refs _ Hin) as Hpr. cbn [pi_classID pi_fields] in Hpr. rewrite Hpr in Hrefs by by eexists.
      injection Hrefs as <- <-. rewrite Ho. cbn. unfold pend_refs. cbn. rewrite El. done.
    + rewrite Hres. done.
Qed.
End Final.
End Dumps.

(** ** What the dump says about its graph *)

(** The name a class has through LOAD_CLASS and STRING records. *)
Definition class_label (names : gmap Z Z) (strs : gmap Z string) (c : Z) : string :=
  let unknown := "unknown-0x" +:+ hex c in
  match names !! c with
  | None => unknown
  | Some i => match strs !! i with
              | Some s => if bool_decide (s = "") then unknown else str_map (λ x, if bool_decide (x = "/"%char) then "."%char else x) s
              | None => unknown
              end
  end.
Definition class_name (d : list drecord) (k : classKey) : string :=
  if bool_decide (preset k = "") then class_label (names_of d) (strings_of d) (classID k) else preset k.

(** [g] is the graph of the dump [d]: the objects are those of the object
    records, with their class names and sizes, and an object refers to the
    objects of the dump that its record names, in order. *)
Record depicts (n : Z) (d : list drecord) (g : ObjectGraph) : Prop := {
  dp_ok : graph_ok g;
  dp_ids : NoDup (ids g);
  dp_len : Len g = len (objs (subs_of d));
  dp_id id : (∃ i, Index g id = (i, true)) ↔ id ∈ omap obj_id (subs_of d);
  dp_object s o : s ∈ subs_of d → obj_id s = Some o → ∃ i out, Index g o = (i, true) ∧ ID g i = Ok o ∧
    ClassName g i = Ok (class_name d (obj_key s)) ∧ ShallowSize g i = Ok (obj_size n (layouts_of (subs_of d)) s) ∧
    Out g i = Ok out ∧ get (ids g) <$> out = filter (λ r, r ∈ omap obj_id (subs_of d)) (nonzero (obj_refs n (layouts_of (subs_of d)) s));
  dp_class c i : ClassDump c ∈ subs_of d → cd_id c ≠ 0 → Index g (cd_id c) = (i, true) →
    DisplayName g i = Ok ("class " +:+ class_name d {| classID := cd_id c; primType := 0 |});
  dp_roots : get (ids g) <$> Roots g = first_seen (filter (λ r, r ∈ omap obj_id (subs_of d)) (root_id <$> roots_of n (subs_of d)));
  dp_records : GCRoots g = sort_stable (λ a b, Object a <? Object b) (omap (root_record g (threads_of n (subs_of d))) (roots_of n (subs_of d)));
  dp_unresolved : Unresolved g = i64 (orphans (layouts_of (subs_of d)) (subs_of d)) }.

Lemma Out_row g i : graph_ok g → 0 <= i < Len g → Out g i = Ok (row g i).
Proof.
  intros G Hi. unfold Out. pose proof (go_start _ G). destruct (go_rows _ G i Hi) as [H1 H2]. rewrite !idx_get by lia. cbn. by rewrite slice_ok.
Qed.

Section Whole.
Context {R : GoRuntime} {HR : RuntimeOk R} (n : Z) (d : list drecord) (W : wf_dump n d).
Local Abbreviation subs := (subs_of d).
Local Abbreviation F := (layouts_of (subs_of d)).

Section Built.
Context (st s : graphState) (g : ObjectGraph) (M : simr n d d st) (Fi : finalized st (pending st) s) (He : err (b s) = None).
Context (G : graph_ok g) (Re : represents g (b s)).
Context (Hobj : ∀ obj nm, classObjOf g !! obj = Some nm ↔ ∃ jk, jk ∈ zip (upto 0 (len (classKeys (b s)))) (classKeys (b s)) ∧ class_object g obj nm jk).
Context (Hnames : classNames g = table_name (b s) (className st) <$> zip (upto 0 (len (classKeys (b s)))) (classKeys (b s))).

Lemma built_ids : b_ids (b s) = omap obj_id subs.
Proof. destruct (fi_same _ _ _ Fi) as [_ T2]. injection T2 as M1 _. rewrite M1. apply M. Qed.
Lemma built_present id : present (objects (b s)) id ↔ id ∈ omap obj_id subs.
Proof. unfold present. by rewrite b_ids_objects, built_ids. Qed.
Lemma built_name j k : classKeys (b s) !! j = Some k → get (classNames g) (Z.of_nat j) = class_name d k ∧ Z.of_nat j < len (classNames g).
Proof.
  intros Hj. destruct M as (M1 & Hs & Hc). destruct (fi_same _ _ _ Fi) as [_ T2]. injection T2 as T1 T3 T4 T5 T6 T7 T8 T9.
  pose proof Hj as Hj'. rewrite T7 in Hj'. apply (sm_preset _ _ _ _ M1) in Hj'. rewrite <-T8 in Hj'. pose proof (lookup_lt_Some _ _ _ Hj) as Hlt.
  assert (zip (upto 0 (len (classKeys (b s)))) (classKeys (b s)) !! j = Some (Z.of_nat j, k)) as Hz.
  { apply lookup_zip_Some. split; [|done]. unfold upto. apply lookup_seqZ. unfold len. lia. }
  split.
  - apply get_lookup. rewrite Nat2Z.id, Hnames, list_lookup_fmap, Hz. cbn. f_equal. unfold table_name. cbn [fst snd].
    rewrite (get_lookup (b_classNames (b s)) (Z.of_nat j) (preset k)) by by rewrite Nat2Z.id. unfold class_name, className, class_label. by rewrite Hs, Hc.
  - rewrite Hnames. unfold len at 1. rewrite length_fmap. apply lookup_lt_Some in Hz. lia.
Qed.
Lemma built_object sub o : sub ∈ subs → obj_id sub = Some o → ∃ i out, Index g o = (i, true) ∧ ID g i = Ok o ∧
  ClassName g i = Ok (class_name d (obj_key sub)) ∧ ShallowSize g i = Ok (obj_size n F sub) ∧
  Out g i = Ok out ∧ get (ids g) <$> out = filter (λ r, r ∈ omap obj_id subs) (nonzero (obj_refs n F sub)).
Proof.
  intros Hsub Ho. assert (sub ∈ objs subs) as (p & Hp)%list_elem_of_lookup by (apply list_elem_of_filter; split; [by rewrite Ho; eexists|done]).
  destruct M as (M1 & _). destruct (final_object n d W st M1 s p sub Fi He Hp) as (F1 & F2 & F3 & F4 & F5).
  pose proof (lookup_lt_Some _ _ _ Hp) as Hlt. assert (0 <= Z.of_nat p < len (b_ids (b s))) as Hr by (rewrite built_ids, len_objs; unfold len; lia).
  assert (NoDup (b_ids (b s))) as Hnd by (rewrite built_ids; apply W).
  destruct (re_object _ _ Re (object_at (b s) (Z.of_nat p)) Hnd) as (i & Hix & Hi & E1 & E2 & E3 & E4).
  { eapply list_elem_of_lookup_2. by apply objects_lookup. }
  rewrite Ho in F1. injection F1 as F1. exists i, (row g i). rewrite <-F1 at 1. split; [done|].
  pose proof (go_class _ G). pose proof (go_shallow _ G). unfold ID, ClassName, ShallowSize. rewrite !idx_get by (unfold Len in *; lia). cbn.
  destruct (built_name _ _ F3) as [N1 N2]. rewrite Z2Nat.id in N1, N2 by done. split_and!.
  - rewrite E1. f_equal. exact F1.
  - rewrite E2, idx_get by lia. by rewrite N1.
  - by rewrite E3, F4.
  - by apply Out_row.
  - rewrite E4, F5. apply list_filter_iff. intros x. apply built_present.
Qed.
Lemma built_class c i : ClassDump c ∈ subs → cd_id c ≠ 0 → Index g (cd_id c) = (i, true) →
  DisplayName g i = Ok ("class " +:+ class_name d {| classID := cd_id c; primType := 0 |}).
Proof.
  intros Hc Hc0 Hi. destruct M as (M1 & _). destruct (fi_same _ _ _ Fi) as [_ T2]. injection T2 as T1 T3 T4 T5 T6 T7 T8 T9.
  pose proof (sm_classes _ _ _ _ M1 c Hc) as (j & Hj)%list_elem_of_lookup. rewrite <-T7 in Hj. destruct (built_name _ _ Hj) as [N1 N2].
  destruct (built_object (ClassDump c) (cd_id c) Hc eq_refl) as (i' & out & Hi' & _ & Hcn & _). assert (i' = i) as -> by congruence.
  unfold DisplayName. assert (classObjOf g !! i = Some (class_name d {| classID := cd_id c; primType := 0 |})) as ->; [|done].
  apply Hobj. exists (Z.of_nat j, {| classID := cd_id c; primType := 0 |}). split.
  - eapply (list_elem_of_lookup_2 _ j). apply lookup_zip_Some. split; [|done]. unfold upto. apply lookup_seqZ. apply lookup_lt_Some in Hj. unfold len. lia.
  - split_and!; [done|done|done|by rewrite Hcn|done].
Qed.
End Built.

Lemma parse_dump version stamp : ok_version version → fits 8 stamp → runs (ParseObjectGraph (Reader (encode n version stamp d) io_EOF)) (depicts n d).
Proof.
  intros Hv Hs. rewrite (parse_encoded n (wd_n _ _ W) version stamp d io_EOF) by (done || apply W). apply runs_bind. eapply runs_mono; [by apply dump_sim|].
  intros st M. destruct M as (M1 & M2). pose proof (conj M1 M2) as M. pose proof (sm_ok _ _ _ _ M1) as S.
  destruct (finalize_spec st S) as (g & Hg & s & g0 & Hloop & Fi & Hb & -> & G). exists (with_unresolved g0 (i64 (len (unresolved st)))). split; [done|].
  destruct (finalize_loop n d W st M1) as (s' & Hloop' & _ & He). assert (s' = s) as -> by congruence.
  destruct (build_spec (b s) (fi_b _ _ _ Fi) (className st)) as (g0' & Hb' & _ & Re & Hobj & Hnm & _). assert (g0' = g0) as -> by congruence.
  set (g := with_unresolved g0 _) in *. assert (represents g (b s)) as Re' by (destruct Re; by split).
  pose proof (built_ids st s M Fi) as Hids. pose proof (built_present st s M Fi) as Hpr.
  split; [done|apply (re_distinct _ _ Re'); rewrite Hids; apply W| | | | | | |].
  - rewrite (re_len _ _ Re'), len_objects, Hids. apply len_objs.
  - intros id. rewrite <-Hpr, <-(re_index _ _ Re'). split; [|by intros (i & ? & _); exists i].
    intros (i & Hi). destruct (decide (present (objects (b s)) id)) as [Hp|Hp]; [by apply (re_index _ _ Re')|]. rewrite (re_absent _ _ Re' id Hp) in Hi. done.
  - intros sub o Hsub Ho. by apply (built_object st s g M Fi He G Re' Hnm).
  - intros c i Hc Hc0 Hi. by apply (built_class st s g M Fi He G Re' Hobj Hnm).
  - destruct (fi_same _ _ _ Fi) as [_ T2]. injection T2 as T1 T3 T4 T5 T6 T7 T8 T9.
    unfold Roots. rewrite (re_roots _ _ Re'), T4, (sm_roots _ _ _ _ M1). f_equal. by apply list_filter_iff.
  - destruct (fi_same _ _ _ Fi) as [_ T2]. injection T2 as T1 T3 T4 T5 T6 T7 T8 T9.
    unfold GCRoots. by rewrite (re_gcRoots _ _ Re'), T4, T5, (sm_roots _ _ _ _ M1), (sm_threads _ _ _ _ M1).
  - cbn. f_equal. unfold unresolved. rewrite (sm_layouts _ _ _ _ M1). apply (sm_orphans _ _ _ _ M1).
Qed.
End Whole.
End ParseFacts.
