(* ===== verification/HprofAccept.v ===== *)
(** * The streams the graph parser accepts

    The parser succeeds only on the encoding of a dump: whatever bytes it
    reads, they are the encoding of records, and its result is the result of
    performing these records. *)

From S2P Require Import Prelude Arrays GoStrings GoRuntime GoIO HeapGraph HprofFormat HprofGraph HprofSafe HprofDump.

Module Accept.
Export Dump.

Lemma bind_inv {A B} (m : outcome A) (f : A → outcome B) y : (m ≫= f) = Ok y → ∃ a, m = Ok a ∧ f a = Ok y.
Proof. destruct m; cbn; [eauto|done..]. Qed.
Lemma wrap_inv {A} msg (m : outcome A) a : wrap_err msg m = Ok a → m = Ok a.
Proof. by destruct m. Qed.

Section Inverse.
Context (n : Z) (Hn : n = 4 ∨ n = 8).
Implicit Types (h : hprofReader).

Lemma u1_inv h v h' : u1 h = Ok (v, h') → h_idSize h' = h_idSize h ∧ fits 1 v ∧ h = hpush (be_bytes 1 v) h'.
Proof. apply (reads_inv _ _ _ u1_reads); done. Qed.
Lemma u2_inv h v h' : u2 h = Ok (v, h') → h_idSize h' = h_idSize h ∧ fits 2 v ∧ h = hpush (be_bytes 2 v) h'.
Proof. apply (reads_inv _ _ _ u2_reads); done. Qed.
Lemma u4_inv h v h' : u4 h = Ok (v, h') → h_idSize h' = h_idSize h ∧ fits 4 v ∧ h = hpush (be_bytes 4 v) h'.
Proof. apply (reads_inv _ _ _ u4_reads); done. Qed.
Lemma u8_inv h v h' : u8 h = Ok (v, h') → h_idSize h' = h_idSize h ∧ fits 8 v ∧ h = hpush (be_bytes 8 v) h'.
Proof. apply (reads_inv _ _ _ u8_reads); done. Qed.
Lemma id_inv h v h' : h_idSize h = n → id h = Ok (v, h') → h_idSize h' = h_idSize h ∧ fits n v ∧ h = hpush (enc_id n v) h'.
Proof.
  intros Hi Hr. destruct (reads_inv _ _ _ id_reads h v h') as (H1 & H2 & H3); [by unfold id_ok; rewrite Hi|done|]. rewrite Hi in *.
  rewrite Z2Nat.id in H2 by lia. done.
Qed.

(** Invert the next read: [h] becomes the encoding of the value before [h']. *)
Tactic Notation "inv" hyp(H) "by" uconstr(L) "as" ident(v) ident(h') :=
  let a := fresh in let E := fresh "E" in let Ei := fresh "Hi" in let Ef := fresh "Hf" in let Eh := fresh "Hh" in
  apply bind_inv in H as ([v h'] & E & H); try apply wrap_inv in E; apply L in E as (Ei & Ef & Eh); [|congruence..].

Lemma readIDs_inv k h l h' : h_idSize h = n → readIDs k h = Ok (l, h') →
  length l = k ∧ Forall (fits n) l ∧ h_idSize h' = h_idSize h ∧ h = hpush (concat (enc_id n <$> l)) h'.
Proof.
  revert h l. induction k as [|k IH]; intros h l Hi Hr; cbn [readIDs] in Hr.
  { injection Hr as <- <-. split_and!; [done|constructor|done|]. by rewrite hpush_nil. }
  inv Hr by id_inv as x h1. apply bind_inv in Hr as ([xs h2] & E & Hr). injection Hr as <- <-.
  apply IH in E as (E1 & E2 & E3 & E4); [|congruence]. split_and!; [cbn; lia|by constructor|congruence|]. cbn [fmap list_fmap concat]. rewrite hpush_app. congruence.
Qed.
Lemma skipPoolEntries_inv k h h' : h_idSize h = n → skipPoolEntries k h = Ok h' →
  ∃ l, length l = k ∧ Forall (ok_pool n) l ∧ h_idSize h' = h_idSize h ∧ h = hpush (concat (enc_pool <$> l)) h'.
Proof.
  revert h. induction k as [|k IH]; intros h Hi Hr; cbn [skipPoolEntries] in Hr.
  { injection Hr as <-. exists []. split_and!; [done|constructor|done|]. by rewrite hpush_nil. }
  inv Hr by u2_inv as i h1. inv Hr by u1_inv as t h2. apply bind_inv in Hr as (h3 & E & Hr).
  apply skip_inv in E as (E1 & bs & E2 & E3); [|apply typeSize_nonneg; lia]. apply IH in Hr as (l & L1 & L2 & L3 & L4); [|congruence].
  exists ({| pe_index := i; pe_type := t; pe_value := bs |} :: l). split_and!; [cbn; lia| |congruence|].
  - constructor; [|done]. split; cbn; [done|done|]. replace n with (h_idSize h2) by congruence. done.
  - cbn [fmap list_fmap concat]. unfold enc_pool at 1. cbn [pe_index pe_type pe_value]. rewrite !hpush_app. congruence.
Qed.
Lemma skipClassPool_inv h h' : h_idSize h = n → skipClassPool h = Ok h' →
  ∃ l, fits 2 (len l) ∧ Forall (ok_pool n) l ∧ h_idSize h' = h_idSize h ∧ h = hpush (be_bytes 2 (len l) ++ concat (enc_pool <$> l)) h'.
Proof.
  intros Hi Hr. unfold skipClassPool in Hr. inv Hr by u2_inv as k h1. apply skipPoolEntries_inv in Hr as (l & L1 & L2 & L3 & L4); [|congruence].
  exists l. assert (len l = k) as Hk by (unfold len, fits in *; lia). rewrite Hk. split_and!; [done..|congruence|]. rewrite hpush_app. congruence.
Qed.
Lemma staticRefs_inv k h refs refs' h' : h_idSize h = n → staticRefs k h refs = Ok (refs', h') →
  ∃ l, length l = k ∧ Forall (ok_static n) l ∧ refs' = refs ++ omap static_ref l ∧ h_idSize h' = h_idSize h ∧ h = hpush (concat (enc_static n <$> l)) h'.
Proof.
  revert h refs. induction k as [|k IH]; intros h refs Hi Hr; cbn [staticRefs] in Hr.
  { injection Hr as <- <-. exists []. split_and!; [done|constructor|by rewrite app_nil_r|done|]. by rewrite hpush_nil. }
  inv Hr by id_inv as i h1. inv Hr by u1_inv as t h2. destruct (Z.eqb_spec t hprofTypeObject) as [Ht|Ht]; cbn [negb] in Hr.
  - inv Hr by id_inv as r h3. apply IH in Hr as (l & L1 & L2 & L3 & L4 & L5); [|congruence].
    exists ({| sf_name := i; sf_type := t; sf_value := enc_id n r |} :: l).
    assert (be (enc_id n r) = r) as Hbe by (unfold enc_id; apply be_be_bytes; rewrite Z2Nat.id by lia; done).
    split_and!; [cbn; lia| | |congruence|].
    + constructor; [|done]. split; cbn; [done|done|]. unfold hprofTypeSize. rewrite Ht, Z.eqb_refl. unfold enc_id. rewrite len_be_bytes. lia.
    + cbn [omap list_omap]. unfold static_ref at 1. cbn [sf_type sf_value]. rewrite Ht, Z.eqb_refl, Hbe. by rewrite L3, <-app_assoc.
    + cbn [fmap list_fmap concat]. unfold enc_static at 1. cbn [sf_name sf_type sf_value]. rewrite !hpush_app. congruence.
  - apply bind_inv in Hr as (h3 & E & Hr). apply skip_inv in E as (E1 & bs & E2 & E3); [|apply typeSize_nonneg; lia].
    apply IH in Hr as (l & L1 & L2 & L3 & L4 & L5); [|congruence]. exists ({| sf_name := i; sf_type := t; sf_value := bs |} :: l).
    split_and!; [cbn; lia| | |congruence|].
    + constructor; [|done]. split; cbn; [done|done|]. replace n with (h_idSize h2) by congruence. done.
    + cbn [omap list_omap]. unfold static_ref at 1. cbn [sf_type sf_value]. by rewrite (proj2 (Z.eqb_neq _ _) Ht).
    + cbn [fmap list_fmap concat]. unfold enc_static at 1. cbn [sf_name sf_type sf_value]. rewrite !hpush_app. congruence.
Qed.
Lemma instanceFieldTypes_inv k h ts ts' h' : h_idSize h = n → instanceFieldTypes k h ts = Ok (ts', h') →
  ∃ l, length l = k ∧ Forall (ok_field n) l ∧ h_idSize h' = h_idSize h ∧ h = hpush (concat (enc_field n <$> l)) h'.
Proof.
  revert h ts. induction k as [|k IH]; intros h ts Hi Hr; cbn [instanceFieldTypes] in Hr.
  { injection Hr as <- <-. exists []. split_and!; [done|constructor|done|]. by rewrite hpush_nil. }
  inv Hr by id_inv as i h1. inv Hr by u1_inv as t h2. apply IH in Hr as (l & L1 & L2 & L3 & L4); [|congruence].
  exists ({| f_name := i; f_type := t |} :: l). split_and!; [cbn; lia|by constructor|congruence|].
  cbn [fmap list_fmap concat]. unfold enc_field at 1. cbn [f_name f_type]. rewrite !hpush_app. congruence.
Qed.
Lemma arrayElems_inv fuel i k h refs refs' h' : h_idSize h = n → i <= k → arrayElems fuel i k h refs = Ok (refs', h') →
  ∃ l, len l = k - i ∧ Forall (fits n) l ∧ h_idSize h' = h_idSize h ∧ h = hpush (concat (enc_id n <$> l)) h'.
Proof.
  revert i h refs. induction fuel as [|fuel IH]; intros i h refs Hi Hik Hr; cbn [arrayElems] in Hr; [done|].
  destruct (Z.ltb_spec i k) as [Hlt|Hge].
  - inv Hr by id_inv as x h1. apply IH in Hr as (l & L1 & L2 & L3 & L4); [|congruence|lia]. exists (x :: l). rewrite len_cons.
    split_and!; [lia|by constructor|congruence|]. cbn [fmap list_fmap concat]. rewrite hpush_app. congruence.
  - injection Hr as <- <-. exists []. rewrite len_nil. split_and!; [lia|constructor|done|]. by rewrite hpush_nil.
Qed.

(** *** Sub-records *)

Definition is_sub (tag : Z) (h h' : hprofReader) : Prop :=
  h_idSize h' = h_idSize h ∧ ∃ s, sub_tag s = tag ∧ ok_sub n s ∧ h = hpush (sub_body n s) h'.

Lemma readRoot_inv st tag k m h st' h' : h_idSize h = n → rootRecordLayout n tag = Some (k, m) → readRoot st h k m = Ok (st', h') → is_sub tag h h'.
Proof.
  intros Hi Hk Hr. pose proof (root_layout n tag k m Hk) as [_ Hs]. unfold readRoot in Hr. inv Hr by id_inv as o h1.
  assert (0 <= m - n) as Hm.
  { revert Hk. unfold rootRecordLayout. destruct (rootLayouts !! tag) as [[[k' e] u]|] eqn:E'; [|done]. intros [= <- <-]. apply elem_of_list_to_map_2 in E'.
    repeat (apply elem_of_cons in E' as [E'|E']; [injection E' as -> -> -> ->; lia|]). by apply not_elem_of_nil in E'. }
  apply bind_inv in Hr as ([[s rest] h2] & E & Hr). apply bind_inv in Hr as (h3 & E' & Hr). injection Hr as <- <-.
  destruct (hasThreadSerial k).
  - inv E by u4_inv as s' h2'. injection E as <- <- <-. apply skip_inv in E' as (E1 & bs & E2 & E3); [|specialize (Hs eq_refl); lia].
    split; [congruence|]. exists (Root tag o (be_bytes 4 s' ++ bs)). split_and!; [done| |cbn [sub_body]; rewrite !hpush_app; congruence].
    split; [done|]. exists k. rewrite Hk. do 2 f_equal. rewrite len_app, len_be_bytes, E2. replace (h_idSize h1) with n by congruence. lia.
  - injection E as <- <- <-. apply skip_inv in E' as (E1 & bs & E2 & E3); [|replace (h_idSize h1) with n by congruence; lia].
    split; [congruence|]. exists (Root tag o bs). split_and!; [done| |cbn [sub_body]; rewrite !hpush_app; congruence].
    split; [done|]. exists k. rewrite Hk. do 2 f_equal. rewrite E2. replace (h_idSize h1) with n by congruence. lia.
Qed.
Lemma readClassDump_inv st h st' h' : h_idSize h = n → readClassDump st h = Ok (st', h') → is_sub hprofClassDump h h'.
Proof.
  intros Hi Hr. unfold readClassDump in Hr. inv Hr by id_inv as c h1. inv Hr by u4_inv as serial h2.
  apply bind_inv in Hr as ([hdr h3] & E & Hr). apply readIDs_inv in E as (D1 & D2 & D3 & D4); [|congruence]. inv Hr by u4_inv as sz h4.
  apply bind_inv in Hr as (h5 & E & Hr). apply skipClassPool_inv in E as (pool & P1 & P2 & P3 & P4); [|congruence].
  destruct hdr as [|super [|loader other]]; [done..|]. change (idx (super :: loader :: other) 0) with (@Ok Z super) in Hr.
  change (idx (super :: loader :: other) 1) with (@Ok Z loader) in Hr. cbn [mbind outcome_bind] in Hr.
  apply bind_inv in Hr as ([refs h6] & E & Hr). unfold readStaticRefs in E. inv E by u2_inv as ks h7. apply staticRefs_inv in E as (statics & S1 & S2 & _ & S4 & S5); [|congruence].
  apply bind_inv in Hr as ([types h8] & E & Hr). unfold readInstanceFieldTypes in E. inv E by u2_inv as kf h9. apply instanceFieldTypes_inv in E as (fields & F1 & F2 & F3 & F4); [|congruence].
  destruct (classFor _ _ _) as [b1 cls]. apply bind_inv in Hr as ([b2 p] & _ & Hr). injection Hr as <- <-.
  split; [congruence|]. rewrite !Forall_cons in D2. destruct D2 as (D2 & D5 & D6).
  assert (len statics = ks) as Hks by (unfold len, fits in *; lia). assert (len fields = kf) as Hkf by (unfold len, fits in *; lia).
  exists (ClassDump {| cd_id := c; cd_serial := serial; cd_super := super; cd_loader := loader; cd_other := other; cd_size := sz; cd_pool := pool; cd_statics := statics; cd_fields := fields |}).
  split_and!; [done| |].
  - split; cbn; try done; rewrite ?Hks, ?Hkf; try done. split; [unfold len; cbn in D1; lia|done].
  - cbn [sub_body]. unfold enc_class. cbn [cd_id cd_serial cd_super cd_loader cd_other cd_size cd_pool cd_statics cd_fields].
    rewrite Hks, Hkf, !hpush_app. rewrite !hpush_app in P4. congruence.
Qed.
Lemma readInstanceDump_inv st miss h st' h' : h_idSize h = n → readInstanceDump miss st h = Ok (st', h') → is_sub hprofInstanceDump h h'.
Proof.
  intros Hi Hr. unfold readInstanceDump in Hr. inv Hr by id_inv as o h1. inv Hr by u4_inv as serial h2. inv Hr by id_inv as c h3. inv Hr by u4_inv as k h4.
  destruct ((maxInstanceFieldBytes <? k) || _) eqn:Ek; [done|]. apply orb_false_iff in Ek as [Ek _]. to_prop. apply bind_inv in Hr as ([fields r] & E & Hr).
  apply io_ReadFull_inv in E as [E1 E2]; [|unfold fits in *; lia]. destruct (classFor _ _ _) as [b1 cls]. apply bind_inv in Hr as (d & _ & Hr).
  assert (h' = with_r h4 r) as ->.
  { destruct d as [[l refs]|]; apply bind_inv in Hr as ([b2 p] & _ & Hr); by injection Hr. }
  split; [cbn; congruence|]. exists (InstanceDump o serial c fields). split_and!; [done|cbn; rewrite E1; done|]. cbn [sub_body]. rewrite E1, !hpush_app.
  assert (h4 = hpush fields (with_r h4 r)) as H4 by (unfold hpush, with_r; cbn; rewrite <-E2; by destruct h4). congruence.
Qed.
Lemma readObjectArray_inv st h st' h' : h_idSize h = n → readObjectArray st h = Ok (st', h') → is_sub hprofObjectArrayDump h h'.
Proof.
  intros Hi Hr. unfold readObjectArray in Hr. inv Hr by id_inv as o h1. inv Hr by u4_inv as serial h2. inv Hr by u4_inv as k h3. inv Hr by id_inv as c h4.
  apply bind_inv in Hr as ([refs h5] & E & Hr). apply arrayElems_inv in E as (l & L1 & L2 & L3 & L4); [|congruence|unfold fits in *; lia].
  destruct (classFor _ _ _) as [b1 cls]. apply bind_inv in Hr as ([b2 p] & _ & Hr). injection Hr as <- <-. rewrite Z.sub_0_r in L1.
  split; [congruence|]. exists (ObjectArray o serial c l). split_and!; [done|cbn; rewrite L1; done|]. cbn [sub_body]. rewrite L1, !hpush_app. congruence.
Qed.
Lemma readPrimArray_inv st h st' h' : h_idSize h = n → readPrimArray st h = Ok (st', h') → is_sub hprofPrimArrayDump h h'.
Proof.
  intros Hi Hr. unfold readPrimArray in Hr. inv Hr by id_inv as o h1. inv Hr by u4_inv as serial h2. inv Hr by u4_inv as k h3. inv Hr by u1_inv as t h4.
  destruct (classFor _ _ _) as [b1 cls]. apply bind_inv in Hr as ([b2 p] & _ & Hr). apply bind_inv in Hr as (h5 & E & Hr). injection Hr as <- <-.
  replace (h_idSize h4) with n in E by congruence. destruct (array_small k (hprofTypeSize t n)) as [_ Hsz]; [by apply (fits_mono 4)|by apply typeSize_small|].
  rewrite Hsz in E. apply skip_inv in E as (E1 & bs & E2 & E3); [|pose proof (typeSize_small n Hn t); unfold fits in *; nia].
  split; [congruence|]. exists (PrimArray o serial t k bs). split_and!; [done|cbn; by rewrite E2|]. cbn [sub_body]. rewrite !hpush_app. congruence.
Qed.
Lemma readHeapSub_inv st miss h tag st' h' : h_idSize h = n → readHeapSub miss st h tag = Ok (st', h') → is_sub tag h h'.
Proof.
  intros Hi Hr. unfold readHeapSub in Hr. rewrite Hi in Hr. destruct (rootRecordLayout n tag) as [[k m]|] eqn:Ek; [by eapply readRoot_inv|].
  destruct (Z.eqb_spec tag hprofClassDump) as [->|]; [by eapply readClassDump_inv|]. destruct (Z.eqb_spec tag hprofInstanceDump) as [->|]; [by eapply readInstanceDump_inv|].
  destruct (Z.eqb_spec tag hprofObjectArrayDump) as [->|]; [by eapply readObjectArray_inv|]. destruct (Z.eqb_spec tag hprofPrimArrayDump) as [->|]; [by eapply readPrimArray_inv|].
  destruct (Z.eqb_spec tag hprofHeapDumpInfo) as [->|]; [|done]. apply bind_inv in Hr as (h1 & E & Hr). injection Hr as <- <-.
  apply skip_inv in E as (E1 & bs & E2 & E3); [|lia]. split; [done|]. exists (Info bs). done.
Qed.

(** *** Segments and records *)

Lemma heapDumpLoop_inv fuel st h st' : h_idSize h = n → heapDumpLoop fuel 0 st h = Ok st' →
  ∃ subs, Forall (ok_sub n) subs ∧ r_bytes (h_r h) = concat (enc_sub n <$> subs).
Proof.
  revert st h. induction fuel as [|fuel IH]; intros st h Hi Hr; cbn [heapDumpLoop] in Hr; [done|]. destruct (u1 h) as [[tag h1]|e|] eqn:Eu; [| |done].
  - apply u1_inv in Eu as (U1 & U2 & U3). apply bind_inv in Hr as ([st1 h2] & E & Hr). pose proof E as (S1 & s & S2 & S3 & S4)%readHeapSub_inv; [|congruence].
    destruct (err (b st1)); [done|]. apply IH in Hr as (subs & L1 & L2); [|congruence]. exists (s :: subs). split; [by constructor|].
    cbn [fmap list_fmap concat]. unfold enc_sub at 1. rewrite S2, <-L2, U3, S4. cbn [h_r hpush push with_r r_bytes]. by rewrite <-?app_assoc.
  - exists []. split; [constructor|]. revert Eu. unfold u1, ReadByte. by destruct (r_bytes (h_r h)).
Qed.
(** A truncated segment is refused. *)
Lemma heapDumpLoop_missing fuel miss st h st' : heapDumpLoop fuel miss st h = Ok st' → miss = 0.
Proof.
  revert st h. induction fuel as [|fuel IH]; intros st h Hr; cbn [heapDumpLoop] in Hr; [done|]. destruct (u1 h) as [[tag h1]|e|]; [| |done].
  - apply bind_inv in Hr as ([st1 h2] & _ & Hr). destruct (err (b st1)); [done|]. by eapply IH.
  - destruct (errors_is_EOF e); [|done]. destruct (Z.eqb_spec miss 0); done.
Qed.
Lemma readRecord_inv st h tag time length st' h' : h_idSize h = n → fits 1 tag → fits 4 time → fits 4 length → readRecord st h tag length = Ok (st', h') →
  h_idSize h' = h_idSize h ∧ ∃ r, record_tag r = tag ∧ record_time r = time ∧ record_length n r = length ∧ ok_record n r ∧ h = hpush (record_body n r) h'.
Proof.
  intros Hi Ht Htm Hl Hr. unfold readRecord in Hr.
  destruct (Z.eqb_spec tag hprofTagString) as [->|N1].
  { unfold readString in Hr. inv Hr by id_inv as i h1. replace (h_idSize h1) with n in Hr by congruence. destruct ((length - n <? 0) || _) eqn:El; [done|]. to_prop.
    apply bind_inv in Hr as ([body r] & E & Hr). apply wrap_inv, io_ReadFull_inv in E as [E1 E2]; [|lia]. injection Hr as <- <-. split; [cbn; congruence|].
    exists (RString time i body). cbn [record_tag record_time record_length record_body ok_record]. split_and!; [done|done|lia|done|done|lia|]. rewrite hpush_app.
    assert (h1 = hpush body (with_r h1 r)) as H1 by (unfold hpush, with_r; cbn; rewrite <-E2; by destruct h1). congruence. }
  destruct (Z.eqb_spec tag hprofTagLoadClass) as [->|N2].
  { unfold readLoadClass in Hr. inv Hr by u4_inv as serial h1. inv Hr by id_inv as c h2. inv Hr by u4_inv as stack h3. inv Hr by id_inv as name h4. injection Hr as <- <-.
    split; [congruence|]. exists (RLoadClass time length serial c stack name). split_and!; [done..|]. cbn [record_body]. rewrite !hpush_app. congruence. }
  destruct (one_of tag _) eqn:Eo; unfold one_of in Eo; to_prop.
  { unfold readHeapDump in Hr. apply bind_inv in Hr as (st1 & E & Hr). injection Hr as <- <-. pose proof E as Em%heapDumpLoop_missing. rewrite Em in E.
    apply heapDumpLoop_inv in E as (subs & L1 & L2); [|done]. unfold missing, limited in *. cbn [h_r] in L2.
    rewrite (proj2 (Z.leb_le _ _)) in L2 by lia. cbn [r_bytes] in L2. assert (0 <= length) as H0 by (unfold fits in *; lia).
    assert (len (concat (enc_sub n <$> subs)) = length) as Hlen by (rewrite <-L2, len_sub by lia; lia).
    split; [done|]. exists (RHeapDump tag time subs). cbn [record_tag record_time record_length record_body ok_record]. rewrite Hlen. split_and!; [done..| |done|done|done|].
    - rewrite !elem_of_cons in Eo. destruct Eo as [->|[->|[]%not_elem_of_nil]]; auto.
    - rewrite <-L2. unfold hpush, push, with_r, after. cbn. destruct h as [[bytes e] i]. cbn in *. do 2 f_equal. unfold sub. rewrite Z.sub_0_r, drop_0. by rewrite take_drop. }
  apply bind_inv in Hr as (h1 & E & Hr). injection Hr as <- <-. apply skip_inv in E as (E1 & bs & E2 & E3); [|unfold fits in *; lia].
  split; [done|]. exists (ROther tag time bs). cbn. rewrite E2. split_and!; [done..| |done|done|done]. rewrite !not_elem_of_cons in *. destruct Eo as (? & ? & _). split_and!; [done..|apply not_elem_of_nil].
Qed.
Lemma recordLoop_inv fuel st h st' : h_idSize h = n → recordLoop fuel st h = Ok st' →
  ∃ d, Forall (ok_record n) d ∧ r_bytes (h_r h) = concat (enc_record n <$> d) ∧ errors_is_EOF (r_final (h_r h)) = true.
Proof.
  revert st h. induction fuel as [|fuel IH]; intros st h Hi Hr; cbn [recordLoop] in Hr; [done|]. destruct (u1 h) as [[tag h1]|e|] eqn:Eu; [| |done].
  - apply u1_inv in Eu as (U1 & U2 & U3). inv Hr by u4_inv as time h2. inv Hr by u4_inv as length h3. apply bind_inv in Hr as ([st1 h4] & E & Hr).
    apply (readRecord_inv st h3 tag time length) in E as (R1 & r & R2 & R3 & R4 & R5 & R6); [|congruence|done..].
    destruct (err (b st1)); [done|]. apply IH in Hr as (d & D1 & D2 & D3); [|congruence]. exists (r :: d). split_and!; [by constructor| |].
    + cbn [fmap list_fmap concat]. rewrite enc_record_eq, R2, R3, R4, <-D2, U3, Hh, Hh0, R6. cbn [h_r hpush push with_r r_bytes]. by rewrite <-?app_assoc.
    + rewrite U3, Hh, Hh0, R6. done.
  - exists []. destruct (errors_is_EOF e) eqn:Ee; [|done]. revert Eu. unfold u1, ReadByte. destruct (r_bytes (h_r h)); [|done]. intros [= <-]. split_and!; [constructor|done..].
Qed.
End Inverse.

(** *** The header *)

Lemma headerName_inv fuel h acc name h' : len acc <= 32 → headerName fuel h acc = Ok (name, h') →
  h_idSize h' = h_idSize h ∧ ∃ nm, name = acc ++ nm ∧ Forall (λ c, b2z c ≠ 0) nm ∧ len name <= 32 ∧ h = hpush (nm ++ [x00]) h'.
Proof.
  revert h acc. induction fuel as [|fuel IH]; intros h acc Ha Hr; cbn [headerName] in Hr; [done|].
  apply bind_inv in Hr as ([c r] & E & Hr). apply wrap_inv, ReadByte_inv in E. assert (h = hpush [c] (with_r h r)) as Hh by (unfold hpush, with_r; cbn; rewrite <-E; by destruct h).
  destruct (Z.eqb_spec (b2z c) 0) as [Hc|Hc].
  - injection Hr as <- <-. split; [done|]. exists []. rewrite app_nil_r. split_and!; [done|constructor|done|]. rewrite Hh at 1. assert (c = x00) as -> by (apply b2z_inj; by rewrite Hc). done.
  - unfold maxHPROFHeaderName in Hr. destruct (Z.eqb_spec (len acc) 32) as [|Hl]; [done|]. apply IH in Hr as (I1 & nm & -> & N1 & N2 & N3); [|rewrite len_snoc; lia].
    split; [done|]. exists (c :: nm). rewrite <-app_assoc in *. split_and!; [done|by constructor|done|]. change (c :: nm) with ([c] ++ nm). rewrite <-app_assoc, hpush_app. congruence.
Qed.
Lemma HasPrefix_inv p s : HasPrefix s p = true → ∃ t, s = p +:+ t.
Proof.
  unfold HasPrefix. revert s. induction p as [|c p IH]; intros s Hp; [by exists s|]. destruct s as [|c' s]; cbn in Hp; [done|].
  destruct (Ascii.ascii_dec c c') as [->|]; [|done]. apply IH in Hp as (t & ->). by exists t.
Qed.
Lemma prefix_bytes p l : HasPrefix (string_of_bytes l) p = true → ∃ k, l = bytes_of_string p ++ k.
Proof.
  intros (t & Ht)%HasPrefix_inv. exists (bytes_of_string t). rewrite <-(bytes_of_string_of_bytes l), Ht. clear. induction p as [|c p IH]; [done|].
  change (Ascii.byte_of_ascii c :: bytes_of_string (p +:+ t) = Ascii.byte_of_ascii c :: (bytes_of_string p ++ bytes_of_string t)). by rewrite IH.
Qed.
Lemma readHPROFHeader_inv h h' : readHPROFHeader h = Ok h' → ∃ version stamp, (h_idSize h' = 4 ∨ h_idSize h' = 8) ∧ ok_version version ∧ fits 8 stamp ∧
  h_r h = push (bytes_of_string "JAVA PROFILE" ++ version ++ [x00] ++ be_bytes 4 (h_idSize h') ++ be_bytes 8 stamp) (h_r h').
Proof.
  intros Hr. unfold readHPROFHeader in Hr. apply bind_inv in Hr as ([name h1] & E & Hr). apply headerName_inv in E as (N1 & nm & N2 & N3 & N4 & N5); [|by rewrite len_nil].
  cbn in N2. subst nm. destruct (HasPrefix _ _) eqn:Ep; [|done]. cbn [negb] in Hr. apply prefix_bytes in Ep as (version & ->).
  apply bind_inv in Hr as ([sz h2] & E & Hr). apply wrap_inv, u4_inv in E as (S1 & S2 & S3). destruct (negb (sz =? 4) && negb (sz =? 8)) eqn:Esz; [done|].
  apply bind_inv in Hr as ([stamp h3] & E & Hr). apply wrap_inv, u8_inv in E as (T1 & T2 & T3). injection Hr as <-. cbn in T1. exists version, stamp. split_and!.
  - rewrite T1. apply andb_false_iff in Esz as [Esz|Esz]; apply negb_false_iff in Esz; to_prop; auto.
  - split; [by apply Forall_app in N3 as [_ ?]|]. rewrite len_app in N4. change (len (bytes_of_string "JAVA PROFILE")) with 12 in N4. lia.
  - done.
  - rewrite N5, S3. apply (f_equal h_r) in T3. cbn [h_r hpush with_r] in *. rewrite T3, T1. rewrite !push_app. done.
Qed.

(** ** The accepted streams *)

Lemma parse_accepts `{GoRuntime} r g : ParseObjectGraph r = Ok g → ∃ n version stamp d, (n = 4 ∨ n = 8) ∧ ok_version version ∧ fits 8 stamp ∧ Forall (ok_record n) d ∧
  r_bytes r = encode n version stamp d ∧ errors_is_EOF (r_final r) = true ∧ (st ← graph_dump n d; finalize st) = Ok g.
Proof.
  intros Hg. pose proof Hg as Hp. unfold ParseObjectGraph in Hp. apply bind_inv in Hp as (h & E & Hp). apply readHPROFHeader_inv in E as (version & stamp & Hn & Hv & Hs & Hr).
  apply bind_inv in Hp as (st & E & _). apply (recordLoop_inv (h_idSize h) Hn) in E as (d & D1 & D2 & D3); [|done]. cbn [h_r] in Hr.
  exists (h_idSize h), version, stamp, d. assert (r_bytes r = encode (h_idSize h) version stamp d ∧ errors_is_EOF (r_final r) = true) as [Hb He].
  { rewrite Hr. cbn [r_bytes push r_final]. split; [|done]. unfold encode. rewrite D2. by rewrite <-!app_assoc. }
  split_and!; try done. rewrite <-Hg. destruct r as [bytes e]. cbn [r_bytes r_final] in Hb, He. subst bytes. by rewrite (parse_encoded (h_idSize h) Hn).
Qed.
End Accept.
