(* ===== verification/HprofHistogram.v ===== *)
(** * The HPROF class histogram

    [ParseHPROF] of [src/internal/heap/hprof.go] with the types of
    [src/internal/heap/histogram.go]: the second reader of the dump format,
    which counts instances per class and skips everything else. *)

From Stdlib Require Import Ascii.
From S2P Require Import Prelude Arrays GoStrings GoRuntime GoIO HeapGraph HprofFormat.

Module Histogram.
Export Hprof.

Record ClassEntry := { Rank : Z; Instances : Z; Bytes : Z; ce_ClassName : string; Module_ : string }.
Record Histogram := { Entries : list ClassEntry; Total : ClassEntry; Skipped : list string }.

Record hprofState := {
  h_strings : gmap Z string; h_classNameID : gmap Z Z; classInstSize : gmap Z Z;
  instCount : gmap Z Z; arrayCount : gmap Z Z; arrayBytes : gmap Z Z; primCount : gmap Z Z; primBytes : gmap Z Z }.
Definition newHPROFState : hprofState :=
  {| h_strings := ∅; h_classNameID := ∅; classInstSize := ∅; instCount := ∅; arrayCount := ∅; arrayBytes := ∅; primCount := ∅; primBytes := ∅ |}.

(** [m[k] += v] on a map of [int64]. *)
Definition bump (m : gmap Z Z) (k v : Z) : gmap Z Z := <[k := i64 (default 0 (m !! k) + v)]> m.

Definition put_string (st : hprofState) (i : Z) (s : string) : hprofState :=
  {| h_strings := <[i := s]> (h_strings st); h_classNameID := h_classNameID st; classInstSize := classInstSize st; instCount := instCount st;
     arrayCount := arrayCount st; arrayBytes := arrayBytes st; primCount := primCount st; primBytes := primBytes st |}.
Definition put_class (st : hprofState) (c name : Z) : hprofState :=
  {| h_strings := h_strings st; h_classNameID := <[c := name]> (h_classNameID st); classInstSize := classInstSize st; instCount := instCount st;
     arrayCount := arrayCount st; arrayBytes := arrayBytes st; primCount := primCount st; primBytes := primBytes st |}.
Definition put_size (st : hprofState) (c size : Z) : hprofState :=
  {| h_strings := h_strings st; h_classNameID := h_classNameID st; classInstSize := <[c := size]> (classInstSize st); instCount := instCount st;
     arrayCount := arrayCount st; arrayBytes := arrayBytes st; primCount := primCount st; primBytes := primBytes st |}.
Definition count_instance (st : hprofState) (c : Z) : hprofState :=
  {| h_strings := h_strings st; h_classNameID := h_classNameID st; classInstSize := classInstSize st; instCount := bump (instCount st) c 1;
     arrayCount := arrayCount st; arrayBytes := arrayBytes st; primCount := primCount st; primBytes := primBytes st |}.
Definition count_array (st : hprofState) (c bytes : Z) : hprofState :=
  {| h_strings := h_strings st; h_classNameID := h_classNameID st; classInstSize := classInstSize st; instCount := instCount st;
     arrayCount := bump (arrayCount st) c 1; arrayBytes := bump (arrayBytes st) c bytes; primCount := primCount st; primBytes := primBytes st |}.
Definition count_prim (st : hprofState) (t bytes : Z) : hprofState :=
  {| h_strings := h_strings st; h_classNameID := h_classNameID st; classInstSize := classInstSize st; instCount := instCount st;
     arrayCount := arrayCount st; arrayBytes := arrayBytes st; primCount := bump (primCount st) t 1; primBytes := bump (primBytes st) t bytes |}.

Definition readStringRecord (st : hprofState) (hr : hprofReader) (length : Z) : outcome (hprofState * hprofReader) :=
  '(i, hr) ← wrap_err "hprof: string id: %w" (id hr);
  let n := length - h_idSize hr in
  if n <? 0 then Err (Errorf ("hprof: negative string length " +:+ itoa n)) else
  if maxHPROFStringBytes <? n
  then Err (Errorf ("hprof: string record too large (" +:+ itoa n +:+ " bytes, max " +:+ itoa maxHPROFStringBytes +:+ ")")) else
  '(body, r) ← wrap_err "hprof: string body: %w" (io_ReadFull (h_r hr) n);
  Ok (put_string st i (string_of_bytes body), with_r hr r).

Definition readLoadClassRecord (st : hprofState) (hr : hprofReader) : outcome (hprofState * hprofReader) :=
  '(_, hr) ← u4 hr;
  '(classObjID, hr) ← id hr;
  '(_, hr) ← u4 hr;
  '(nameID, hr) ← id hr;
  Ok (put_class st classObjID nameID, hr).

Fixpoint skipIDs (n : nat) (sub : hprofReader) : outcome hprofReader :=
  match n with O => Ok sub | S n => '(_, sub) ← id sub; skipIDs n sub end.

Fixpoint skipStatics (count : nat) (sub : hprofReader) : outcome hprofReader :=
  match count with
  | O => Ok sub
  | S count =>
    '(_, sub) ← id sub;
    '(typ, sub) ← u1 sub;
    sub ← skip sub (hprofTypeSize typ (h_idSize sub));
    skipStatics count sub
  end.
Definition skipStaticFields (sub : hprofReader) : outcome hprofReader :=
  '(count, sub) ← u2 sub; skipStatics (Z.to_nat count) sub.

Fixpoint skipFields (count : nat) (sub : hprofReader) : outcome hprofReader :=
  match count with
  | O => Ok sub
  | S count => '(_, sub) ← id sub; '(_, sub) ← u1 sub; skipFields count sub
  end.
Definition skipInstanceFields (sub : hprofReader) : outcome hprofReader :=
  '(count, sub) ← u2 sub; skipFields (Z.to_nat count) sub.

Definition readClassDump (st : hprofState) (sub : hprofReader) : outcome (hprofState * hprofReader) :=
  '(classObjID, sub) ← id sub;
  '(_, sub) ← u4 sub;
  sub ← skipIDs 6 sub;
  '(instSize, sub) ← u4 sub;
  let st := put_size st classObjID instSize in
  sub ← skipClassPool sub;
  sub ← skipStaticFields sub;
  sub ← skipInstanceFields sub;
  Ok (st, sub).

Definition readInstanceDump (st : hprofState) (sub : hprofReader) : outcome (hprofState * hprofReader) :=
  '(_, sub) ← id sub;
  '(_, sub) ← u4 sub;
  '(clsID, sub) ← id sub;
  '(nbytes, sub) ← u4 sub;
  let st := count_instance st clsID in
  sub ← skip sub nbytes;
  Ok (st, sub).

Definition readObjectArrayDump (st : hprofState) (sub : hprofReader) : outcome (hprofState * hprofReader) :=
  '(_, sub) ← id sub;
  '(_, sub) ← u4 sub;
  '(numElems, sub) ← u4 sub;
  '(arrayClassID, sub) ← id sub;
  let st := count_array st arrayClassID (i64 (hprofArrayHeaderBytes + i64 (numElems * h_idSize sub))) in
  sub ← skip sub (i64 (numElems * h_idSize sub));
  Ok (st, sub).

Definition readPrimArrayDump (st : hprofState) (sub : hprofReader) : outcome (hprofState * hprofReader) :=
  '(_, sub) ← id sub;
  '(_, sub) ← u4 sub;
  '(numElems, sub) ← u4 sub;
  '(elemType, sub) ← u1 sub;
  let elemSize := hprofTypeSize elemType (h_idSize sub) in
  let st := count_prim st elemType (i64 (hprofArrayHeaderBytes + i64 (numElems * elemSize))) in
  sub ← skip sub (i64 (numElems * elemSize));
  Ok (st, sub).

Definition readHeapSubRecord (st : hprofState) (sub : hprofReader) (tag : Z) : outcome (hprofState * hprofReader) :=
  match hprofRootSkipBytes (h_idSize sub) tag with
  | Some fixed => sub ← skip sub fixed; Ok (st, sub)
  | None =>
    if tag =? hprofClassDump then readClassDump st sub
    else if tag =? hprofInstanceDump then readInstanceDump st sub
    else if tag =? hprofObjectArrayDump then readObjectArrayDump st sub
    else if tag =? hprofPrimArrayDump then readPrimArrayDump st sub
    else Err (Errorf ("hprof: unknown heap-dump sub-record tag 0x" +:+ hex2 tag))
  end.

(** Every round reads the tag of a sub-record. *)
Fixpoint heapDumpLoop (fuel : nat) (miss length : Z) (st : hprofState) (sub : hprofReader) : outcome hprofState :=
  match fuel with
  | O => out_of_fuel
  | S fuel =>
    match u1 sub with
    | Panic => Panic
    | Err e =>
      if errors_is_EOF e then
        if negb (miss =? 0)
        then Err (Wrapf ("hprof: truncated heap dump (" +:+ itoa miss +:+ " of " +:+ itoa length +:+ " bytes missing): %w") io_ErrUnexpectedEOF)
        else Ok st
      else Err (Wrapf "hprof: heap-dump sub-tag: %w" e)
    | Ok (tag, sub) => '(st, sub) ← readHeapSubRecord st sub tag; heapDumpLoop fuel miss length st sub
    end
  end.
Definition readHeapDump (st : hprofState) (hr : hprofReader) (length : Z) : outcome (hprofState * hprofReader) :=
  let sub := {| h_r := limited (h_r hr) length; h_idSize := h_idSize hr |} in
  st ← heapDumpLoop (S (List.length (r_bytes (h_r sub)))) (missing (h_r hr) length) length st sub;
  Ok (st, with_r hr (after (h_r hr) length)).

Definition readHPROFRecord (st : hprofState) (hr : hprofReader) (tag length : Z) : outcome (hprofState * hprofReader) :=
  if tag =? hprofTagString then readStringRecord st hr length
  else if tag =? hprofTagLoadClass then readLoadClassRecord st hr
  else if one_of tag [hprofTagHeapDump; hprofTagHeapDumpSegment] then readHeapDump st hr length
  else hr ← skip hr length; Ok (st, hr).

Definition className (st : hprofState) (classObjID : Z) : string :=
  match h_classNameID st !! classObjID with
  | None => "unknown-0x" +:+ hex classObjID
  | Some nameID =>
    let name := default "" (h_strings st !! nameID) in
    if bool_decide (name = "") then "unknown-0x" +:+ hex classObjID
    else str_map (λ c, if bool_decide (c = "/"%char) then "."%char else c) name
  end.

Section Build.
Context `{GoRuntime}.

Definition entryLess (a b : ClassEntry) : bool :=
  if negb (Bytes a =? Bytes b) then Bytes b <? Bytes a else String.ltb (ce_ClassName a) (ce_ClassName b).
Definition entry (count bytes : Z) (name : string) : ClassEntry :=
  {| Rank := 0; Instances := count; Bytes := bytes; ce_ClassName := name; Module_ := "" |}.
Definition unranked (st : hprofState) : list ClassEntry :=
  ((λ '(c, count), entry count (i64 (count * default 0 (classInstSize st !! c))) (className st c)) <$> map_entries (instCount st)) ++
  ((λ '(c, count), entry count (default 0 (arrayBytes st !! c)) (className st c)) <$> map_entries (arrayCount st)) ++
  ((λ '(t, count), entry count (default 0 (primBytes st !! t)) (primArrayName t)) <$> map_entries (primCount st)).
Definition with_rank (i : Z) (e : ClassEntry) : ClassEntry :=
  {| Rank := i + 1; Instances := Instances e; Bytes := Bytes e; ce_ClassName := ce_ClassName e; Module_ := Module_ e |}.
Definition addTotal (total e : ClassEntry) : ClassEntry :=
  {| Rank := Rank total; Instances := i64 (Instances total + Instances e); Bytes := i64 (Bytes total + Bytes e);
     ce_ClassName := ce_ClassName total; Module_ := Module_ total |}.
Definition buildHistogram (st : hprofState) : Histogram :=
  let entries := sort_slice entryLess (unranked st) in
  {| Entries := imap (λ i e, with_rank (Z.of_nat i) e) entries; Total := fold_left addTotal entries (entry 0 0 "Total"); Skipped := [] |}.

(** Every round reads the tag of a record. *)
Fixpoint recordLoop (fuel : nat) (st : hprofState) (hr : hprofReader) : outcome hprofState :=
  match fuel with
  | O => out_of_fuel
  | S fuel =>
    match u1 hr with
    | Panic => Panic
    | Err e => if errors_is_EOF e then Ok st else Err (Wrapf "hprof: read record tag: %w" e)
    | Ok (tag, hr) =>
      '(_, hr) ← wrap_err "hprof: read record time: %w" (u4 hr);
      '(length, hr) ← wrap_err "hprof: read record length: %w" (u4 hr);
      '(st, hr) ← readHPROFRecord st hr tag length;
      recordLoop fuel st hr
    end
  end.

Definition ParseHPROF (r : reader) : outcome Histogram :=
  hr ← readHPROFHeader {| h_r := r; h_idSize := 0 |};
  st ← recordLoop (S (length (r_bytes (h_r hr)))) newHPROFState hr;
  Ok (buildHistogram st).
End Build.
End Histogram.
