(* ===== verification/HprofAgree.v ===== *)
(** * The histogram and the graph of one dump

    What the histogram of an encoded dump contains, and that the two parsers of
    the HPROF format agree: the root records have the same layouts, both accept
    the same dumps, and instance counts and total sizes are the same. *)

From S2P Require Import Prelude Arrays GoStrings GoRuntime GoIO HeapGraph HeapDFS HprofFormat HprofGraph HprofSafe HprofDump HprofExact HprofParse HprofHistogram.

Module Agree.
Export ParseFacts.
Import Histogram.

(** ** Root records *)

Lemma one_of_false v cs : v ∉ cs → one_of v cs = false.
Proof. intros. unfold one_of. by apply bool_decide_false. Qed.
(** Evaluate the tests and the table at a given tag. *)
Ltac root_tag :=
  unfold hprofRootSkipBytes, rootRecordLayout;
  repeat match goal with
  | |- context [one_of ?v ?cs] => let b := eval vm_compute in (one_of v cs) in replace (one_of v cs) with b by (vm_compute; reflexivity); cbv iota
  | |- context [rootLayouts !! ?v] => let o := eval vm_compute in (rootLayouts !! v) in replace (rootLayouts !! v) with o by (vm_compute; reflexivity); cbn
  end; f_equal; lia.
Definition root_tags : list Z :=
  [hprofRootUnknown; hprofRootStickyClass; hprofRootMonitorUsed; hprofRootInterned; hprofRootFinalizing; hprofRootDebugger; hprofRootRefCleanup;
   hprofRootVMInternal; hprofRootJNIGlobal; hprofRootNativeStack; hprofRootThreadBlock; hprofRootJNILocal; hprofRootJavaFrame; hprofRootThreadObject; hprofRootJNIMonitor].
Lemma root_layouts_agree idSize tag :
  hprofRootSkipBytes idSize tag = if tag =? hprofHeapDumpInfo then Some (4 + idSize) else snd <$> rootRecordLayout idSize tag.
Proof.
  destruct (decide (tag ∈ root_tags)) as [Ht|Ht].
  - unfold root_tags in Ht. repeat (apply elem_of_cons in Ht as [->|Ht]; [root_tag|]). by apply not_elem_of_nil in Ht.
  - assert (rootLayouts !! tag = None) as Hn by (by apply not_elem_of_list_to_map).
    unfold rootRecordLayout. rewrite Hn. unfold hprofRootSkipBytes, root_tags in *. rewrite !not_elem_of_cons in Ht.
    rewrite !(one_of_false tag) by (rewrite !not_elem_of_cons; split_and!; try tauto; apply not_elem_of_nil).
    unfold one_of. destruct (Z.eqb_spec tag hprofHeapDumpInfo) as [->|Hne]; [by rewrite bool_decide_true by by left|].
    rewrite bool_decide_false; [done|]. intros [?|[]%not_elem_of_nil]%elem_of_cons. done.
Qed.

(** ** Reading encoded records *)

Definition hist_sub (n : Z) (st : hprofState) (s : subrec) : hprofState :=
  match s with
  | Root _ _ _ | Info _ => st
  | ClassDump c => put_size st (cd_id c) (cd_size c)
  | InstanceDump _ _ c _ => count_instance st c
  | ObjectArray _ _ c elems => count_array st c (array_size (len elems) n)
  | PrimArray _ _ t k _ => count_prim st t (array_size k (hprofTypeSize t n))
  end.
Definition hist_record (n : Z) (st : hprofState) (r : drecord) : hprofState :=
  match r with
  | RString _ i body => put_string st i (string_of_bytes body)
  | RLoadClass _ _ _ c _ name => put_class st c name
  | RHeapDump _ _ subs => fold_left (hist_sub n) subs st
  | ROther _ _ _ => st
  end.
Definition hist_dump (n : Z) (d : list drecord) : hprofState := fold_left (hist_record n) d newHPROFState.

Section Forward.
Context (n : Z) (Hn : n = 4 ∨ n = 8).
Implicit Types (h : hprofReader).

Ltac enc1 :=
  rewrite ?hpush_app;
  lazymatch goal with
  | |- context [u1 (hpush (be_bytes 1 ?v) ?h)] => rewrite (u1_enc v h) by done
  | |- context [u2 (hpush (be_bytes 2 ?v) ?h)] => rewrite (u2_enc v h) by done
  | |- context [u4 (hpush (be_bytes 4 ?v) ?h)] => rewrite (u4_enc v h) by done
  | |- context [id (hpush (enc_id n ?v) ?h)] => rewrite (id_enc n Hn v h) by done
  end; cbn [mbind outcome_bind wrap_err].

Lemma skipIDs_enc l h : h_idSize h = n → Forall (fits n) l → skipIDs (length l) (hpush (concat (enc_id n <$> l)) h) = Ok h.
Proof.
  intros Hi Hl. induction Hl as [|x l Hx Hl IH]; cbn [length skipIDs fmap list_fmap concat]; [by rewrite hpush_nil|]. enc1. by rewrite IH.
Qed.
Lemma skipStatics_enc l h : h_idSize h = n → Forall (ok_static n) l → skipStatics (length l) (hpush (concat (enc_static n <$> l)) h) = Ok h.
Proof.
  intros Hi Hl. induction Hl as [|f l [] Hl IH]; cbn [length skipStatics fmap list_fmap concat]; [by rewrite hpush_nil|].
  unfold enc_static at 1. do 2 enc1. rewrite skip_push; [|by cbn; rewrite Hi]. cbn. by rewrite IH.
Qed.
Lemma skipFields_enc l h : h_idSize h = n → Forall (ok_field n) l → skipFields (length l) (hpush (concat (enc_field n <$> l)) h) = Ok h.
Proof.
  intros Hi Hl. induction Hl as [|f l [] Hl IH]; cbn [length skipFields fmap list_fmap concat]; [by rewrite hpush_nil|].
  unfold enc_field at 1. do 2 enc1. by rewrite IH.
Qed.
Lemma readClassDump_hist st c h : h_idSize h = n → ok_class n c → readClassDump st (hpush (enc_class n c) h) = Ok (put_size st (cd_id c) (cd_size c), h).
Proof.
  intros Hi [H1 H2 H3 H4 [H5 H6] H7 [H8 H9] [H10 H11] [H12 H13]]. unfold readClassDump, enc_class. do 2 enc1.
  change 6%nat with (length [cd_super c; cd_loader c; 0; 0; 0; 0]).
  replace (length [cd_super c; cd_loader c; 0; 0; 0; 0]) with (length (cd_super c :: cd_loader c :: cd_other c)) by (cbn; unfold len in H5; lia).
  rewrite skipIDs_enc; [|done|by do 2 (constructor; [done|])]. cbn [mbind outcome_bind]. enc1. rewrite (skipClassPool_enc n) by done. cbn [mbind outcome_bind].
  unfold skipStaticFields, skipInstanceFields. enc1. unfold len at 1. rewrite Nat2Z.id, skipStatics_enc by done. cbn [mbind outcome_bind].
  enc1. unfold len at 1. by rewrite Nat2Z.id, skipFields_enc by done.
Qed.
Lemma readHeapSubRecord_enc st s h : h_idSize h = n → ok_sub n s → readHeapSubRecord st (hpush (sub_body n s) h) (sub_tag s) = Ok (hist_sub n st s, h).
Proof.
  intros Hi Hs. unfold readHeapSubRecord. rewrite root_layouts_agree. cbn [h_idSize hpush with_r]. rewrite Hi.
  destruct s as [tag o rest|c|o serial c fields|o serial c elems|o serial t k data|body]; cbn [sub_tag sub_body hist_sub] in *.
  - destruct Hs as (Ho & k & Hk). assert (tag ≠ hprofHeapDumpInfo) as Ht by (intros ->; by vm_compute in Hk).
    rewrite (proj2 (Z.eqb_neq _ _) Ht), Hk. cbn [fmap option_fmap option_map snd]. rewrite skip_push; [done|]. unfold enc_id. rewrite len_app, len_be_bytes. lia.
  - by apply readClassDump_hist.
  - destruct Hs as (H1 & H2 & H3 & H4). change (readInstanceDump st (hpush (sub_body n (InstanceDump o serial c fields)) h) = Ok (count_instance st c, h)). unfold readInstanceDump, sub_body. assert (fits 4 (len fields)) as H5.
    { unfold fits. pose proof (len_nonneg fields). unfold maxInstanceFieldBytes in H4. change (256 ^ 4) with (2 ^ 32). lia. }
    do 4 enc1. by rewrite skip_push.
  - destruct Hs as (H1 & H2 & H3 & H4 & H5). change (readObjectArrayDump st (hpush (sub_body n (ObjectArray o serial c elems)) h) = Ok (count_array st c (array_size (len elems) n), h)).
    unfold readObjectArrayDump, sub_body. do 4 enc1. cbn [h_idSize hpush with_r]. rewrite Hi.
    destruct (array_small (len elems) n) as [-> ->]; [by apply (fits_mono 4)|lia|]. rewrite skip_push; [done|].
    clear -Hn. unfold len. induction elems as [|x l IH]; [done|]. cbn [fmap list_fmap concat length]. rewrite length_app. unfold enc_id at 1. rewrite length_be_bytes. lia.
  - destruct Hs as (H1 & H2 & H3 & H4 & H5). change (readPrimArrayDump st (hpush (sub_body n (PrimArray o serial t k data)) h) = Ok (count_prim st t (array_size k (hprofTypeSize t n)), h)).
    unfold readPrimArrayDump, sub_body. do 4 enc1. cbn [h_idSize hpush with_r]. rewrite Hi.
    destruct (array_small k (hprofTypeSize t n)) as [-> ->]; [by apply (fits_mono 4)|by apply typeSize_small|]. by rewrite skip_push.
  - cbn. rewrite skip_push; done.
Qed.
Lemma heapDumpLoop_hist subs fuel k st h : h_r h = Reader [] io_EOF → h_idSize h = n → Forall (ok_sub n) subs → Nat.lt (length subs) fuel →
  heapDumpLoop fuel 0 k st (hpush (concat (enc_sub n <$> subs)) h) = Ok (fold_left (hist_sub n) subs st).
Proof.
  intros He Hi Hs. revert fuel st. induction Hs as [|s subs Hs Hl IH]; intros fuel st Hf; (destruct fuel as [|fuel]; [lia|]); cbn [heapDumpLoop].
  - cbn [concat fmap list_fmap fold_left]. rewrite hpush_nil. unfold u1. by rewrite He.
  - cbn [concat fmap list_fmap fold_left length] in *. unfold enc_sub at 1. rewrite !hpush_app, u1_enc by by eapply sub_tag_fits.
    rewrite readHeapSubRecord_enc by done. cbn. apply IH. lia.
Qed.
Lemma readHPROFRecord_enc st r h : h_idSize h = n → ok_record n r →
  readHPROFRecord st (hpush (record_body n r) h) (record_tag r) (record_length n r) = Ok (hist_record n st r, h).
Proof.
  intros Hi Hr. unfold readHPROFRecord. destruct r as [time i body|time length serial c stack name|tag time subs|tag time body]; cbn [record_tag record_body record_length].
  - destruct Hr as (_ & H1 & H2). unfold readStringRecord. cbn [Z.eqb Pos.eqb hprofTagString]. enc1. cbn [h_idSize hpush with_r]. rewrite Hi.
    replace (n + len body - n) with (len body) by lia. pose proof (len_nonneg body). rewrite !(proj2 (Z.ltb_ge _ _)) by lia.
    cbn [h_r hpush with_r]. rewrite io_ReadFull_push by done. cbn. by destruct h.
  - destruct Hr as (_ & _ & H1 & H2 & H3 & H4). unfold readLoadClassRecord. cbn [Z.eqb Pos.eqb hprofTagString hprofTagLoadClass]. by do 4 enc1.
  - destruct Hr as (Ht & _ & _ & Hs). cbn [hist_record].
    assert (readHeapDump st (hpush (concat (enc_sub n <$> subs)) h) (len (concat (enc_sub n <$> subs))) = Ok (fold_left (hist_sub n) subs st, h)) as Hd; [|by destruct Ht as [-> | ->]].
    unfold readHeapDump. cbn [h_r hpush with_r h_idSize]. destruct (limited_push (concat (enc_sub n <$> subs)) (h_r h)) as (-> & -> & ->).
    set (h0 := {| h_r := Reader [] io_EOF; h_idSize := h_idSize h |}).
    replace {| h_r := Reader (concat (enc_sub n <$> subs)) io_EOF; h_idSize := h_idSize h |} with (hpush (concat (enc_sub n <$> subs)) h0)
      by (unfold hpush, push, h0; cbn; by rewrite app_nil_r).
    rewrite heapDumpLoop_hist; [|done..|cbn; rewrite ?app_nil_r; pose proof (length_subs n subs); lia]. cbn. by destruct h.
  - destruct Hr as (_ & Ht & _ & _). rewrite !not_elem_of_cons in Ht. destruct Ht as (T1 & T2 & T3 & T4 & _).
    rewrite (proj2 (Z.eqb_neq _ _) T1), (proj2 (Z.eqb_neq _ _) T2). rewrite one_of_false by set_solver. by rewrite skip_push.
Qed.
Lemma recordLoop_hist d fuel st h e : h_r h = Reader [] e → errors_is_EOF e = true → h_idSize h = n → Forall (ok_record n) d → Nat.lt (length d) fuel →
  recordLoop fuel st (hpush (concat (enc_record n <$> d)) h) = Ok (fold_left (hist_record n) d st).
Proof.
  intros He Heof Hi Hd. revert fuel st. induction Hd as [|r d Hr Hd IH]; intros fuel st Hf; (destruct fuel as [|fuel]; [lia|]); cbn [recordLoop].
  - cbn [concat fmap list_fmap fold_left]. rewrite hpush_nil. unfold u1. rewrite He. cbn. by rewrite Heof.
  - cbn [concat fmap list_fmap fold_left length] in *. destruct (record_fits n Hn r Hr) as (F1 & F2 & F3). rewrite enc_record_eq. do 3 enc1.
    rewrite readHPROFRecord_enc by done. cbn. apply IH. lia.
Qed.
(** The histogram of an encoded dump. *)
Lemma histogram_encoded `{GoRuntime} version stamp d e : ok_version version → fits 8 stamp → Forall (ok_record n) d → errors_is_EOF e = true →
  ParseHPROF (Reader (encode n version stamp d) e) = Ok (buildHistogram (hist_dump n d)).
Proof.
  intros Hv Hs Hd Heof. unfold ParseHPROF, encode. rewrite (readHPROFHeader_enc n Hn) by done. cbn [mbind outcome_bind h_r h_idSize r_bytes].
  set (h := {| h_r := Reader [] e; h_idSize := n |}).
  replace {| h_r := Reader (concat (enc_record n <$> d)) e; h_idSize := n |} with (hpush (concat (enc_record n <$> d)) h)
    by (unfold hpush, push, h; cbn; by rewrite app_nil_r).
  rewrite (recordLoop_hist d _ _ h e); [done|done|done|done|done|]. clear. induction d as [|r d IH]; cbn [fmap list_fmap concat length]; [lia|].
  rewrite length_app, enc_record_eq, length_app, length_be_bytes. lia.
Qed.
End Forward.

(** ** Tallies *)

Definition tally (l : list (Z * Z)) : gmap Z Z := fold_left (λ m kv, bump m kv.1 kv.2) l ∅.
Definition of_key (k : Z) (l : list (Z * Z)) : list (Z * Z) := filter (λ kv, kv.1 = k) l.
Definition wsum (f : Z → Z) (l : list (Z * Z)) : Z := sum_over (λ kv, kv.2 * f kv.1) l.

Lemma tally_snoc l kv : tally (l ++ [kv]) = bump (tally l) kv.1 kv.2.
Proof. unfold tally. by rewrite fold_left_app. Qed.
Lemma of_key_snoc k l kv : of_key k (l ++ [kv]) = of_key k l ++ (if decide (kv.1 = k) then [kv] else []).
Proof. unfold of_key. rewrite filter_app, filter_cons, filter_nil. by destruct (decide _). Qed.
Lemma tally_lookup l k : tally l !! k = if decide (of_key k l = []) then None else Some (i64 (sum_over snd (of_key k l))).
Proof.
  induction l as [|[k' v] l IH] using rev_ind; [done|]. rewrite tally_snoc, of_key_snoc. cbn [fst snd]. unfold bump. destruct (decide (k' = k)) as [->|Hne].
  - rewrite lookup_insert_eq, IH, (decide_False (P := of_key k l ++ [(k, v)] = [])) by (by intros [_ ?]%app_nil). rewrite sum_over_app. cbn. rewrite Z.add_0_r. case_decide as Hd; cbn.
    + by rewrite Hd.
    + by rewrite i64_add.
  - by rewrite lookup_insert_ne, app_nil_r by done.
Qed.
Lemma i64_mod a b : i64 a = i64 b ↔ (a - b) `mod` 2 ^ 64 = 0.
Proof.
  unfold i64. split.
  - intros He. assert ((a + 2 ^ 63) `mod` 2 ^ 64 = (b + 2 ^ 63) `mod` 2 ^ 64) as Hm by lia. replace (a - b) with ((a + 2 ^ 63) - (b + 2 ^ 63)) by lia.
    rewrite Zminus_mod, Hm, Z.sub_diag. done.
  - intros He. assert ((a + 2 ^ 63) `mod` 2 ^ 64 = (b + 2 ^ 63) `mod` 2 ^ 64); [|lia]. replace (a + 2 ^ 63) with ((b + 2 ^ 63) + (a - b)) by lia.
    rewrite Zplus_mod, He, Z.add_0_r, Zmod_mod. done.
Qed.
Lemma i64_diff z : (i64 z - z) `mod` 2 ^ 64 = 0.
Proof. apply i64_mod. apply i64_small, i64_range. Qed.
Lemma i64_mul_l a c x : i64 (i64 a * c + x) = i64 (a * c + x).
Proof. apply i64_mod. replace (i64 a * c + x - (a * c + x)) with ((i64 a - a) * c) by lia. rewrite Zmult_mod, i64_diff. done. Qed.
Lemma wsum_bump f m k v : i64 (wsum f (map_to_list (bump m k v))) = i64 (wsum f (map_to_list m) + v * f k).
Proof.
  unfold bump, wsum. destruct (m !! k) as [x|] eqn:E; cbn.
  - rewrite <-(insert_delete_eq m k (i64 (x + v))). assert (m = <[k := x]> (delete k m)) as Hm by by rewrite insert_delete_id.
    rewrite (sum_over_perm _ _ _ (map_to_list_insert (delete k m) k (i64 (x + v)) (lookup_delete_eq _ _))). rewrite Hm at 2.
    rewrite (sum_over_perm _ _ _ (map_to_list_insert (delete k m) k x (lookup_delete_eq _ _))). cbn [sum_over fst snd]. rewrite i64_mul_l. f_equal. lia.
  - rewrite (sum_over_perm _ _ _ (map_to_list_insert m k (i64 (0 + v)) E)). cbn [sum_over fst snd]. rewrite i64_mul_l. f_equal. lia.
Qed.
Lemma wsum_tally f l : i64 (wsum f (map_to_list (tally l))) = i64 (wsum f l).
Proof.
  induction l as [|[k v] l IH] using rev_ind; [done|]. rewrite tally_snoc, wsum_bump. cbn [fst snd]. unfold wsum at 2. rewrite sum_over_app. cbn. rewrite Z.add_0_r.
  fold (wsum f l). rewrite <-i64_add, IH, i64_add. done.
Qed.
(** A tally lists every key once. *)
Lemma tally_rows l : map_to_list (tally l) ≡ₚ (λ k, (k, i64 (sum_over snd (of_key k l)))) <$> remove_dups l.*1.
Proof.
  apply NoDup_Permutation.
  - apply NoDup_map_to_list.
  - apply NoDup_fmap; [by intros ?? [= -> _]|apply NoDup_remove_dups].
  - intros [k v]. rewrite elem_of_map_to_list, tally_lookup, list_elem_of_fmap. setoid_rewrite elem_of_remove_dups.
    assert (of_key k l = [] ↔ k ∉ l.*1) as Hk.
    { unfold of_key. split.
      - intros Hf ([k' v'] & -> & Hin)%list_elem_of_fmap. assert ((k', v') ∈ filter (λ kv, kv.1 = k') l) as Hx by by apply list_elem_of_filter. cbn in Hf. rewrite Hf in Hx. by apply not_elem_of_nil in Hx.
      - intros Hn. apply filter_none. intros [k' v'] Hin He. apply Hn, list_elem_of_fmap. exists (k', v'). done. }
    case_decide as Hd; split.
    + done.
    + intros (k' & [= -> ->] & Hin). by apply Hk in Hd.
    + intros [= <-]. exists k. split; [done|]. destruct (decide (k ∈ l.*1)) as [|Hn]; [done|]. by apply Hk in Hn.
    + by intros (k' & [= -> ->] & Hin).
Qed.

(** *** The maps of the parser are tallies of the records *)

Definition inst_event (s : subrec) : option (Z * Z) := match s with InstanceDump _ _ c _ => Some (c, 1) | _ => None end.
Definition arr_event (n : Z) (s : subrec) : option (Z * Z) := match s with ObjectArray _ _ c elems => Some (c, array_size (len elems) n) | _ => None end.
Definition prim_event (n : Z) (s : subrec) : option (Z * Z) := match s with PrimArray _ _ t k _ => Some (t, array_size k (hprofTypeSize t n)) | _ => None end.
Definition ones (l : list (Z * Z)) : list (Z * Z) := (λ kv, (kv.1, 1)) <$> l.

Record tallied (n : Z) (subs : list subrec) (st : hprofState) : Prop := {
  ty_sizes : classInstSize st = instSize <$> layouts_of subs;
  ty_inst : instCount st = tally (omap inst_event subs);
  ty_arr : arrayCount st = tally (ones (omap (arr_event n) subs)) ∧ arrayBytes st = tally (omap (arr_event n) subs);
  ty_prim : primCount st = tally (ones (omap (prim_event n) subs)) ∧ primBytes st = tally (omap (prim_event n) subs) }.

Lemma tallied_sub n subs st s : tallied n subs st → tallied n (subs ++ [s]) (hist_sub n st s).
Proof.
  intros [T1 T2 [T3 T4] [T5 T6]].
  destruct s; cbn [hist_sub]; (split; [rewrite layouts_snoc; cbn [add_layout]|rewrite omap_app|rewrite omap_app; unfold ones|rewrite omap_app; unfold ones]);
    cbn [omap list_omap inst_event arr_event prim_event option_bind mbind]; rewrite ?fmap_app, ?app_nil_r; cbn [fmap list_fmap]; rewrite ?tally_snoc; try done; cbn.
  - rewrite T1. by rewrite fmap_insert.
  - by rewrite T2.
  - unfold ones in T3. by rewrite T3, T4.
  - unfold ones in T5. by rewrite T5, T6.
Qed.
Lemma tallied_subs n subs st rest : tallied n subs st → tallied n (subs ++ rest) (fold_left (hist_sub n) rest st).
Proof.
  revert subs st. induction rest as [|s rest IH]; intros subs st T; [by rewrite app_nil_r|]. cbn [fold_left]. replace (subs ++ s :: rest) with ((subs ++ [s]) ++ rest) by by rewrite <-app_assoc.
  by apply IH, tallied_sub.
Qed.
Lemma tallied_dump n d : tallied n (subs_of d) (hist_dump n d) ∧ h_strings (hist_dump n d) = strings_of d ∧ h_classNameID (hist_dump n d) = names_of d.
Proof.
  assert (∀ subs st, h_strings (fold_left (hist_sub n) subs st) = h_strings st ∧ h_classNameID (fold_left (hist_sub n) subs st) = h_classNameID st) as Hnames.
  { induction subs as [|s subs IH]; intros st; [done|]. cbn [fold_left]. destruct (IH (hist_sub n st s)) as [-> ->]. by destruct s. }
  unfold hist_dump, strings_of, names_of. induction d as [|r d IH] using rev_ind; [done|]. rewrite !fold_left_app, subs_app. cbn [fold_left].
  set (st := fold_left (hist_record n) d newHPROFState) in *. destruct IH as (T & Hs & Hc). destruct r as [time i body|time length serial c stack name|tag time subs|tag time body]; cbn [hist_record].
  - cbn. rewrite app_nil_r, Hs. split_and!; [|done|done]. destruct T. by split.
  - cbn. rewrite app_nil_r, Hc. split_and!; [|done|done]. destruct T. by split.
  - cbn [subs_of fmap list_fmap concat]. rewrite app_nil_r. destruct (Hnames subs st) as [-> ->]. split_and!; [|done|done]. by apply tallied_subs.
  - cbn. by rewrite app_nil_r.
Qed.

(** ** The histogram of a dump *)

Definition strip (e : ClassEntry) : ClassEntry := entry (Instances e) (Bytes e) (ce_ClassName e).
Definition size_in (F : gmap Z classLayout) (c : Z) : Z := default 0 (instSize <$> (F !! c)).

(** One row per class with instances, per class of object arrays and per element type. *)
Definition hist_rows (n : Z) (d : list drecord) : list ClassEntry :=
  let subs := subs_of d in let F := layouts_of subs in
  let I := omap inst_event subs in let A := omap (arr_event n) subs in let P := omap (prim_event n) subs in
  ((λ c, entry (i64 (len (of_key c I))) (i64 (i64 (len (of_key c I)) * size_in F c)) (class_label (names_of d) (strings_of d) c)) <$> remove_dups I.*1) ++
  ((λ c, entry (i64 (len (of_key c A))) (i64 (sum_over snd (of_key c A))) (class_label (names_of d) (strings_of d) c)) <$> remove_dups A.*1) ++
  ((λ t, entry (i64 (len (of_key t P))) (i64 (sum_over snd (of_key t P))) (primArrayName t)) <$> remove_dups P.*1).

(** The size of an object for the histogram: an instance of an undefined class
    counts nothing. *)
Definition hist_size (n : Z) (F : gmap Z classLayout) (s : subrec) : Z :=
  match s with InstanceDump _ _ c _ => size_in F c | _ => obj_size n F s end.
Definition is_class_dump (s : subrec) : bool := match s with ClassDump _ => true | _ => false end.

Record tallies (n : Z) (d : list drecord) (h : Histogram) : Prop := {
  ta_rows : strip <$> Entries h ≡ₚ hist_rows n d;
  ta_ranks i e : Entries h !! i = Some e → Rank e = Z.of_nat i + 1;
  ta_sorted : StronglySorted (λ a b, Bytes b < Bytes a ∨ Bytes a = Bytes b ∧ String.ltb (ce_ClassName b) (ce_ClassName a) = false) (Entries h);
  ta_instances : Instances (Total h) = i64 (len (List.filter (λ s, negb (is_class_dump s)) (objs (subs_of d))));
  ta_bytes : Bytes (Total h) = i64 (sum_over (hist_size n (layouts_of (subs_of d))) (objs (subs_of d))) }.

Lemma ones_keys l : (ones l).*1 = l.*1.
Proof. unfold ones. rewrite <-list_fmap_compose. by apply list_fmap_ext. Qed.
Lemma of_key_ones k l : sum_over snd (of_key k (ones l)) = len (of_key k l).
Proof. induction l as [|[k' v] l IH]; [done|]. unfold ones, of_key in *. cbn [fmap list_fmap fst snd]. rewrite !filter_cons. cbn [fst]. case_decide; [|done]. cbn [sum_over snd]. rewrite IH, len_cons. lia. Qed.
Lemma of_key_unit k subs : sum_over snd (of_key k (omap inst_event subs)) = len (of_key k (omap inst_event subs)).
Proof.
  assert (ones (omap inst_event subs) = omap inst_event subs) as Ho.
  { induction subs as [|s subs IH]; [done|]. destruct s; cbn; try exact IH. by f_equal. }
  by rewrite <-of_key_ones, Ho.
Qed.

Section Rows.
Context {R : GoRuntime} {HR : RuntimeOk R} (n : Z) (d : list drecord).
Local Abbreviation subs := (subs_of d).
Local Abbreviation F := (layouts_of (subs_of d)).
Local Abbreviation st := (hist_dump n d).

Lemma hist_className c : className st c = class_label (names_of d) (strings_of d) c.
Proof.
  destruct (tallied_dump n d) as (_ & Hs & Hc). unfold className, class_label. rewrite Hs, Hc. destruct (names_of d !! c) as [i|]; [|done]. cbn. by destruct (strings_of d !! i).
Qed.
Lemma lookup_tally_in l k : k ∈ l.*1 → default 0 (tally l !! k) = i64 (sum_over snd (of_key k l)).
Proof.
  intros Hk. rewrite tally_lookup, decide_False; [done|]. apply list_elem_of_fmap in Hk as ([k' v] & -> & Hin). intros Hf.
  assert ((k', v) ∈ of_key k' l) as Hx by (apply list_elem_of_filter; by split). cbn in Hf. rewrite Hf in Hx. by apply not_elem_of_nil in Hx.
Qed.
Lemma array_rows (name : Z → string) l :
  (λ '(c, count), entry count (default 0 (tally l !! c)) (name c)) <$> map_entries (tally (ones l)) ≡ₚ
  (λ c, entry (i64 (len (of_key c l))) (i64 (sum_over snd (of_key c l))) (name c)) <$> remove_dups l.*1.
Proof.
  rewrite entries_perm, tally_rows, ones_keys, <-list_fmap_compose. apply reflexive_eq, list_fmap_ext. intros i c Hc.
  apply list_elem_of_lookup_2 in Hc. rewrite elem_of_remove_dups in Hc. cbn beta iota delta [compose]. rewrite of_key_ones, lookup_tally_in by done. done.
Qed.
Lemma unranked_rows : unranked st ≡ₚ hist_rows n d.
Proof.
  destruct (tallied_dump n d) as ([T1 T2 [T3 T4] [T5 T6]] & _). unfold unranked, hist_rows. rewrite T3, T4, T5, T6. f_equiv; [|f_equiv].
  - rewrite T1, T2, entries_perm, tally_rows, <-list_fmap_compose. apply reflexive_eq, list_fmap_ext. intros i c _. cbn. rewrite of_key_unit, lookup_fmap.
    by rewrite hist_className.
  - etrans; [|apply array_rows]. apply reflexive_eq, list_fmap_ext. intros i [c k] _. by rewrite hist_className.
  - apply (array_rows primArrayName).
Qed.

Definition same64 (a b : Z) : Prop := i64 a = i64 b.
Lemma same64_add a a' x x' : same64 a a' → same64 x x' → same64 (a + x) (a' + x').
Proof. unfold same64. intros Ha Hx. by rewrite <-(i64_add_mod a), Ha, Hx, i64_add_mod. Qed.
Lemma sum_i64 {A} (f : A → Z) l : same64 (sum_over (λ x, i64 (f x)) l) (sum_over f l).
Proof. induction l as [|x l IH]; [done|]. cbn. apply same64_add; [|done]. apply i64_small, i64_range. Qed.

Lemma addTotal_fold l t : i64 (Instances t) = Instances t → i64 (Bytes t) = Bytes t →
  Instances (fold_left addTotal l t) = i64 (Instances t + sum_over Instances l) ∧ Bytes (fold_left addTotal l t) = i64 (Bytes t + sum_over Bytes l).
Proof.
  revert t. induction l as [|e l IH]; intros t H1 H2; cbn [fold_left sum_over]; [by rewrite !Z.add_0_r|]. destruct (IH (addTotal t e)) as [-> ->]; cbn.
  - apply i64_small, i64_range.
  - apply i64_small, i64_range.
  - rewrite !i64_add. split; f_equal; lia.
Qed.
Lemma total_sums : Instances (Total (buildHistogram st)) = i64 (sum_over Instances (hist_rows n d)) ∧ Bytes (Total (buildHistogram st)) = i64 (sum_over Bytes (hist_rows n d)).
Proof.
  cbn. destruct (addTotal_fold (sort_slice entryLess (unranked st)) (entry 0 0 "Total") eq_refl eq_refl) as [-> ->]. cbn.
  assert (sort_slice entryLess (unranked st) ≡ₚ hist_rows n d) as Hp by by rewrite sort_perm, unranked_rows. by rewrite !(sum_over_perm _ _ _ Hp).
Qed.
(** Sums over the keys of a list are sums over the list. *)
Lemma keys_sum (f : Z → Z) l : same64 (sum_over (λ k, i64 (sum_over snd (of_key k l)) * f k) (remove_dups l.*1)) (wsum f l).
Proof.
  unfold same64. rewrite <-(wsum_tally f l). f_equal. unfold wsum. rewrite (sum_over_perm _ _ _ (tally_rows l)), sum_fmap. done.
Qed.
Lemma keys_sum1 l : same64 (sum_over (λ k, i64 (sum_over snd (of_key k l))) (remove_dups l.*1)) (sum_over snd l).
Proof.
  pose proof (keys_sum (λ _, 1) l) as H. unfold wsum in H. rewrite (sum_over_ext _ (λ k, i64 (sum_over snd (of_key k l)))) in H by (intros; lia).
  rewrite (sum_over_ext _ snd l) in H by (intros; lia). done.
Qed.
Lemma keys_count l : same64 (sum_over (λ k, i64 (len (of_key k l))) (remove_dups l.*1)) (len l).
Proof.
  pose proof (keys_sum1 (ones l)) as H. rewrite ones_keys in H. rewrite (sum_over_ext _ (λ k, i64 (len (of_key k l)))) in H by (intros; by rewrite of_key_ones).
  replace (sum_over snd (ones l)) with (len l) in H; [done|]. clear. induction l as [|x l IH]; [done|]. rewrite len_cons. cbn. fold (ones l). lia.
Qed.
Lemma objs_cons s l : objs (s :: l) = if obj_id s is Some _ then s :: objs l else objs l.
Proof. unfold objs. rewrite filter_cons. case_decide as Hd; destruct (obj_id s); (done || by destruct Hd). Qed.
Lemma rows_instances : same64 (sum_over Instances (hist_rows n d)) (len (List.filter (λ s, negb (is_class_dump s)) (objs subs))).
Proof.
  unfold hist_rows. rewrite !sum_over_app, !sum_fmap. cbn [Instances entry].
  replace (len (List.filter (λ s, negb (is_class_dump s)) (objs subs))) with (len (omap inst_event subs) + (len (omap (arr_event n) subs) + len (omap (prim_event n) subs))).
  - repeat apply same64_add; apply keys_count.
  - clear. induction (subs_of d) as [|s l IH]; [done|]. rewrite objs_cons.
    destruct s; cbn [obj_id inst_event arr_event prim_event omap list_omap List.filter is_class_dump negb]; rewrite ?len_cons; lia.
Qed.
Lemma rows_bytes : same64 (sum_over Bytes (hist_rows n d)) (sum_over (hist_size n F) (objs subs)).
Proof.
  unfold hist_rows. rewrite !sum_over_app, !sum_fmap. cbn [Bytes entry]. set (I := omap inst_event subs).
  replace (sum_over (hist_size n F) (objs subs)) with (wsum (size_in F) I + (sum_over snd (omap (arr_event n) subs) + sum_over snd (omap (prim_event n) subs))).
  - apply same64_add; [|apply same64_add; apply keys_sum1]. etrans; [apply sum_i64|]. rewrite (sum_over_ext _ (λ c, i64 (sum_over snd (of_key c I)) * size_in F c)); [apply keys_sum|].
    intros c _. unfold I. by rewrite of_key_unit.
  - unfold I. generalize (layouts_of subs). clear. intros F. induction (subs_of d) as [|s l IH]; [done|]. unfold wsum in *. rewrite objs_cons.
    destruct s; cbn [obj_id inst_event arr_event prim_event omap list_omap sum_over hist_size obj_size fst snd]; lia.
Qed.
Lemma entryLess_lex x y : entryLess x y = (Bytes y <? Bytes x) || (negb (Bytes x <? Bytes y) && String.ltb (ce_ClassName x) (ce_ClassName y)).
Proof. unfold entryLess. destruct (Z.eqb_spec (Bytes x) (Bytes y)), (Z.ltb_spec (Bytes y) (Bytes x)), (Z.ltb_spec (Bytes x) (Bytes y)); cbn; (done || lia). Qed.
Lemma entryLess_weak : strict_weak entryLess.
Proof.
  assert (strict_weak (λ x y, Bytes y <? Bytes x)) as H1 by (split; intros *; rewrite ?Z.ltb_lt, ?Z.ltb_ge; lia).
  pose proof (strict_weak_lex _ _ H1 (strict_weak_key ce_ClassName _ strict_weak_string)) as [Ha Ht].
  split; intros *; rewrite !entryLess_lex; [apply Ha|apply Ht].
Qed.
Lemma imap_rank (f : nat → ClassEntry → ClassEntry) l : (∀ i e, e ∈ l → strip (f i e) = e) → strip <$> imap f l = l.
Proof.
  revert f. induction l as [|e l IH]; intros f Hf; [done|]. cbn. f_equal; [apply Hf; by left|]. apply IH. intros i e' He. apply Hf. by right.
Qed.
Lemma imap_sorted (P : ClassEntry → ClassEntry → Prop) (f : nat → ClassEntry → ClassEntry) l :
  (∀ i j x y, P x y → P (f i x) (f j y)) → StronglySorted P l → StronglySorted P (imap f l).
Proof.
  intros Hf Hs. revert f Hf. induction Hs as [|x l Hs IH Hx]; intros f Hf; [constructor|]. cbn. constructor; [apply IH; intros; by apply Hf|].
  apply Forall_lookup. intros i y. rewrite list_lookup_imap. intros (e & He & ->)%fmap_Some. apply Hf. by apply (Forall_lookup_1 _ _ _ _ Hx He).
Qed.
Lemma unranked_strip e : e ∈ unranked st → strip e = e.
Proof.
  unfold unranked. rewrite !elem_of_app, !list_elem_of_fmap. intros [([c k] & -> & _)|[([c k] & -> & _)|([c k] & -> & _)]]; done.
Qed.
Lemma hist_tallies : tallies n d (buildHistogram st).
Proof.
  destruct total_sums as [E1 E2]. split; [| | |rewrite E1; apply rows_instances|rewrite E2; apply rows_bytes]; cbn [buildHistogram Entries].
  - rewrite <-unranked_rows, imap_rank; [apply sort_perm|]. intros i e He. rewrite elem_of_sort in He. apply (unranked_strip e He).
  - intros i e. rewrite list_lookup_imap. intros (e' & He & ->)%fmap_Some. done.
  - apply imap_sorted; [done|]. generalize (sort_strongly_sorted entryLess (unranked st) entryLess_weak). apply StronglySorted_impl.
    intros x y. unfold entryLess. destruct (Z.eqb_spec (Bytes y) (Bytes x)) as [E|E]; cbn; [by auto|]. rewrite Z.ltb_ge. lia.
Qed.
End Rows.

(** ** The histogram against the object graph *)

Definition shallow_total (g : ObjectGraph) : Z := sum_over (get (shallow g)) (upto 0 (Len g)).
(** The field bytes of the instances whose class the dump does not define. *)
Definition orphan_bytes (F : gmap Z classLayout) (subs : list subrec) : Z :=
  sum_over (λ s, match s with InstanceDump _ _ _ fields => len fields | _ => 0 end) (List.filter (orphan F) subs).
Definition class_dumps (subs : list subrec) : Z := len (List.filter is_class_dump subs).

Section Compare.
Context (n : Z) (d : list drecord) (W : wf_dump n d) (g : ObjectGraph) (D : depicts n d g).
Local Abbreviation subs := (subs_of d).
Local Abbreviation F := (layouts_of (subs_of d)).
Definition place (s : subrec) : Z := (Index g (default 0 (obj_id s))).1.

Lemma elem_of_objs s l : s ∈ objs l ↔ s ∈ l ∧ is_Some (obj_id s).
Proof. unfold objs. rewrite list_elem_of_filter. tauto. Qed.
Lemma objs_ids l : omap obj_id (objs l) = omap obj_id l.
Proof. induction l as [|s l IH]; [done|]. rewrite objs_cons. destruct (obj_id s) eqn:E; cbn; rewrite E; cbn; by rewrite IH. Qed.
Lemma place_spec s : s ∈ objs subs → 0 <= place s < Len g ∧ get (ids g) (place s) = default 0 (obj_id s) ∧ get (shallow g) (place s) = obj_size n F s.
Proof.
  intros [Hs [o Ho]]%elem_of_objs. destruct (dp_object _ _ _ D s o Hs Ho) as (i & out & Hi & Hid & _ & Hsh & _). unfold place. rewrite Ho. cbn. rewrite Hi. cbn.
  unfold ID in Hid. apply idx_inv in Hid as [Hr Hid]. unfold ShallowSize in Hsh. apply idx_inv in Hsh as [_ Hsh]. done.
Qed.
Lemma place_perm : place <$> objs subs ≡ₚ upto 0 (Len g).
Proof.
  assert (NoDup (place <$> objs subs)) as Hn.
  { assert (get (ids g) <$> (place <$> objs subs) = omap obj_id subs) as Hm.
    - rewrite <-list_fmap_compose, <-(objs_ids subs). pose proof (λ s Hs, proj1 (proj2 (place_spec s Hs))) as Hp. revert Hp.
      assert (∀ s, s ∈ objs subs → is_Some (obj_id s)) as Ho by (intros s Hs; apply elem_of_objs in Hs; exact (proj2 Hs)). revert Ho.
      generalize (objs subs). clear W D. intros l Ho Hp. induction l as [|s l IH]; [done|]. destruct (Ho s) as [o E]; [by left|]. cbn. rewrite E. f_equal.
      + cbn. rewrite (Hp s) by left. by rewrite E.
      + apply IH; intros s' Hs'; [apply Ho|apply Hp]; by right.
    - apply (NoDup_fmap_1 (get (ids g))). rewrite Hm. apply (wf_ids _ _ (wd_subs _ _ W)). }
  apply submseteq_length_Permutation.
  - apply NoDup_submseteq; [done|]. intros i (s & -> & Hs)%list_elem_of_fmap. destruct (place_spec s Hs) as [Hr _]. apply elem_of_seqZ. lia.
  - rewrite length_fmap. unfold upto. rewrite length_seqZ. pose proof (dp_len _ _ _ D). unfold len in *. lia.
Qed.
Lemma shallow_total_objs : shallow_total g = sum_over (obj_size n F) (objs subs).
Proof.
  unfold shallow_total. rewrite <-(sum_over_perm _ _ _ place_perm), sum_fmap. apply sum_over_ext. intros s Hs. by apply place_spec.
Qed.
Lemma sizes_differ l : sum_over (hist_size n F) (objs l) = sum_over (obj_size n F) (objs l) - orphan_bytes F l.
Proof.
  unfold orphan_bytes. induction l as [|s l IH]; [done|]. rewrite objs_cons. destruct s; cbn [obj_id List.filter orphan sum_over hist_size obj_size]; try lia.
  unfold size_in. destruct (F !! _); cbn [bool_decide decide]; [rewrite bool_decide_false by done|rewrite bool_decide_true by done; cbn [sum_over]]; cbn; lia.
Qed.
Lemma count_classes l : len (List.filter (λ s, negb (is_class_dump s)) (objs l)) = len (objs l) - class_dumps (objs l).
Proof.
  unfold class_dumps. induction (objs l) as [|s l' IH]; [done|]. cbn [List.filter]. destruct (is_class_dump s); cbn [negb]; rewrite !len_cons; lia.
Qed.
Lemma totals_agree h : tallies n d h → Bytes (Total h) = i64 (shallow_total g - orphan_bytes F subs) ∧ Instances (Total h) = Len g - class_dumps (objs subs).
Proof.
  intros T. split.
  - by rewrite (ta_bytes _ _ _ T), shallow_total_objs, sizes_differ.
  - rewrite (ta_instances _ _ _ T), count_classes, (dp_len _ _ _ D). apply i64_small. pose proof (wf_objects _ _ (wd_subs _ _ W)) as Hm. pose proof (count_classes subs).
    pose proof (len_nonneg (List.filter (λ s, negb (is_class_dump s)) (objs subs))). pose proof (len_nonneg (List.filter is_class_dump (objs subs))). unfold class_dumps in *. unfold maxGraphObjects in Hm. lia.
Qed.
End Compare.
End Agree.
