(* ===== verification/HeapPaths.v ===== *)
(** * Paths to the GC roots

    [src/internal/heap/paths.go]: the reverse object graph, the search for
    reference paths from the roots to a set of targets, and the objects of a
    class. *)

From S2P Require Import Prelude Arrays GoStrings GoRuntime HeapGraph HeapCSR HeapDFS HeapDominators HeapRetained.

Module Paths.
Export Graph CSR.

Record PathStep := { st_ID : Z; st_ClassName : string }.
Record RootPath := { Roots_ : list GCRoot; Steps : list PathStep }.

Definition with_cache (g : ObjectGraph) (c : option (list Z * list Z)) : ObjectGraph :=
  {| IDSize := IDSize g; Unresolved := Unresolved g; ids := ids g; class := class g; shallow := shallow g;
     outStart := outStart g; out := out g; roots := roots g; gcRoots := gcRoots g; predCache := c;
     classNames := classNames g; classObjOf := classObjOf g |}.

(** The rows are kept in the graph after the first call. *)
Definition predecessors (g : ObjectGraph) : outcome (ObjectGraph * (list Z * list Z)) :=
  match predCache g with
  | Some c => Ok (g, c)
  | None =>
    let n := Len g in
    start ← for_each (out g) (countEdge i64) (replicate (Z.to_nat (n + 1)) 0);
    start ← for_each (upto 1 (n + 1)) (sumStep i64) start;
    fill ← slice start 0 n;
    st ← for_each (upto 0 n) (λ st v, row ← Out g (i32 v); for_each row (λ st w, fillEdge i64 st (w, i32 v)) st)
      (replicate (length (out g)) 0, fill);
    Ok (with_cache g (Some (start, st.1)), (start, st.1))
  end.

Definition unvisited : Z := -2.
Definition target : Z := -1.

(** [next[u] = v; queue = append(queue, u)] for an object seen first. *)
Definition enqueue (v : Z) (st : list Z * list Z) (u : Z) : outcome (list Z * list Z) :=
  let '(next, queue) := st in
  nu ← idx next u;
  if nu =? unvisited then next ← set_idx next u v; Ok (next, queue ++ [u]) else Ok (next, queue).

(** The chain of [next] ends at a target; the visited objects bound it. *)
Fixpoint pathSteps (fuel : nat) (g : ObjectGraph) (next : list Z) (v : Z) (steps : list PathStep) : outcome (list PathStep) :=
  match fuel with
  | O => out_of_fuel
  | S fuel =>
    if 0 <=? v then
      i ← idx (ids g) v; name ← DisplayName g v; v' ← idx next v;
      pathSteps fuel g next v' (steps ++ [{| st_ID := i; st_ClassName := name |}])
    else Ok steps
  end.
Definition pathFrom (g : ObjectGraph) (v : Z) (next : list Z) (rs : list GCRoot) : outcome RootPath :=
  steps ← pathSteps (S (length (ids g))) g next v [];
  Ok {| Roots_ := rs; Steps := steps |}.

(** Every round takes one object off the queue, which holds an object at most once. *)
Fixpoint pathLoop (fuel : nat) (g : ObjectGraph) (maxPaths : Z) (predStart preds : list Z)
    (next queue : list Z) (head : Z) (paths : list RootPath) : outcome (list RootPath) :=
  match fuel with
  | O => out_of_fuel
  | S fuel =>
    if (head <? len queue) && (len paths <? maxPaths) then
      v ← idx queue head;
      rs ← RootsOf g v;
      if 0 <? len rs then
        p ← pathFrom g v next rs;
        pathLoop fuel g maxPaths predStart preds next queue (head + 1) (paths ++ [p])
      else
        lo ← idx predStart v; hi ← idx predStart (v + 1); us ← slice preds lo hi;
        '(next, queue) ← for_each us (enqueue v) (next, queue);
        pathLoop fuel g maxPaths predStart preds next queue (head + 1) paths
    else Ok paths
  end.

Definition PathsToGCRoots (g : ObjectGraph) (targets : list Z) (maxPaths : Z) : outcome (ObjectGraph * list RootPath) :=
  if (maxPaths <=? 0) || (len targets =? 0) then Ok (g, []) else
  '(g, (predStart, preds)) ← predecessors g;
  '(next, queue) ← for_each targets (enqueue target) (replicate (length (ids g)) unvisited, []);
  paths ← pathLoop (S (length (ids g))) g maxPaths predStart preds next queue 0 [];
  Ok (g, paths).

Definition InstancesOf (g : ObjectGraph) (className : string) : outcome (list Z) :=
  let matches := (λ name, bool_decide (name = className)) <$> classNames g in
  if negb (existsb id matches) then Ok [] else
  for_each (zip (upto 0 (len (class g))) (class g)) (λ out '(i, c),
    m ← idx matches c; Ok (if (m : bool) then out ++ [i32 i] else out)) [].

(** The distinct kinds in the order of their first occurrence. *)
Definition kindStep (st : list RootKind * list string) (r : GCRoot) : list RootKind * list string :=
  let '(seen, kinds) := st in
  if bool_decide (Kind r ∈ seen) then st else (Kind r :: seen, kinds ++ [kind_string (Kind r)]).
Definition RootPath_String (p : RootPath) : string :=
  "[" +:+ Join (fold_left kindStep (Roots_ p) ([], [])).2 ", " +:+ "] " +:+
  Join ((λ st, st_ClassName st +:+ " (0x" +:+ hex (st_ID st) +:+ ")") <$> Steps p) " → ".
End Paths.

Module PathFacts.
Export RetainedFacts Paths.

(** ** The reverse graph *)

Lemma sub_join {A} (l : list A) a b : 0 <= a <= b → sub l 0 a ++ sub l a b = sub l 0 b.
Proof. intros. unfold sub. rewrite !Z.sub_0_r. cbn. rewrite take_take_drop. f_equal. lia. Qed.

Lemma with_cache_same g : with_cache g (predCache g) = g.
Proof. by destruct g. Qed.

Section Reverse.
Context (g : ObjectGraph) (G : graph_ok g).
Local Abbreviation n := (Len g).

(** The edges, target first, in the order of the loops. *)
Definition reversed : list (Z * Z) := upto 0 n ≫= λ v, (λ w, (w, v)) <$> row g v.

Lemma rows_prefix k : 0 <= k <= n → upto 0 k ≫= row g = sub (out g) 0 (get (outStart g) k).
Proof.
  intros Hk. pose proof (go_first _ G) as H0. remember (Z.to_nat k) as m eqn:Em. revert k Hk Em. induction m as [|m IH]; intros k Hk Em.
  { assert (k = 0) as -> by lia. rewrite H0. done. }
  destruct (go_rows _ G (k - 1)) as [H1 H2]; [lia|]. replace k with (k - 1 + 1) in * by lia. rewrite upto_snoc by lia. rewrite bind_app, IH by lia. cbn. rewrite app_nil_r.
  replace (k - 1 + 1 - 1 + 1) with (k - 1 + 1) in * by lia. set (a := get (outStart g) (k - 1)) in *. unfold row.
  replace (k - 1 + 1 - 1) with (k - 1) in * by lia. fold a. apply sub_join. lia.
Qed.
Lemma rows_out : upto 0 n ≫= row g = out g.
Proof.
  rewrite rows_prefix by (unfold Len; pose proof (len_nonneg (ids g)); lia). rewrite (go_last _ G). unfold sub, len. rewrite Z.sub_0_r, Nat2Z.id. cbn. by rewrite firstn_all.
Qed.
Lemma reversed_targets : reversed.*1 = out g.
Proof.
  unfold reversed. rewrite <-rows_out. induction (upto 0 n) as [|v l IH]; [done|]. rewrite !bind_cons, fmap_app, IH. f_equal.
  rewrite <-list_fmap_compose. apply list_fmap_id.
Qed.
Lemma reversed_in v w : (w, v) ∈ reversed ↔ 0 <= v < n ∧ w ∈ row g v.
Proof.
  unfold reversed. rewrite list_elem_of_bind. setoid_rewrite elem_of_upto. split.
  - intros (v' & (w' & [= <- <-] & Hw)%list_elem_of_fmap & Hv). done.
  - intros [Hv Hw]. exists v. split; [|done]. apply list_elem_of_fmap. eauto.
Qed.
Lemma reversed_range e : e ∈ reversed → 0 <= e.1 < n.
Proof. destruct e as [w v]. intros [Hv Hw]%reversed_in. by apply (row_range g G v). Qed.
Lemma reversed_len : len reversed < 2 ^ 62.
Proof.
  pose proof (go_len _ G) as Hn. pose proof (len_nonneg (ids g)). unfold reversed.
  assert (∀ l, (∀ v, v ∈ l → 0 <= v < n) → len (l ≫= λ v, (λ w, (w, v)) <$> row g v) <= len l * maxGraphEdges) as Hb.
  { induction l as [|v l IH]; intros Hin; [done|]. rewrite bind_cons, len_app, len_cons. pose proof (go_row_len _ G v (Hin v ltac:(by left))) as Hl.
    unfold len at 1. rewrite length_fmap. fold (len (row g v)). specialize (IH ltac:(intros u Hu; apply Hin; by right)). unfold maxGraphEdges in *. lia. }
  specialize (Hb (upto 0 n) ltac:(intros v ?%elem_of_upto; lia)). rewrite len_upto in Hb by done. unfold Len, maxGraphEdges, maxGraphObjects in *. nia.
Qed.

Lemma with_cache_ok c : (∀ s p, c = Some (s, p) → reverse_rows g s p) → graph_ok (with_cache g c).
Proof. intros Hc. destruct G. by split. Qed.

(** The cached rows are the reverse graph. *)
Lemma reverse_spec : runs (predecessors g) (λ r, ∃ c, r.1 = with_cache g c ∧ graph_ok r.1 ∧ reverse_rows g r.2.1 r.2.2).
Proof.
  unfold predecessors. destruct (predCache g) as [[s p]|] eqn:E.
  { apply runs_ok. cbn. exists (Some (s, p)). split_and!; [by rewrite <-E, with_cache_same|done|by apply (go_cache _ G)]. }
  pose proof (len_nonneg (ids g)) as Hn. fold (Len g) in Hn. pose proof (go_len _ G) as Hm.
  destruct (csr_build i64 n reversed Hn reversed_range) as ([s p] & Hrun & H1 & H2 & H3 & H4 & H5).
  { intros z Hz. pose proof reversed_len. apply i64_small. lia. }
  cbn [fst snd] in *. assert (reverse_rows g s p) as Hrev.
  { split; [done|]. intros t Ht. destruct (H5 t Ht) as (? & ? & Hr). rewrite H2. split_and!; [lia..|]. intros v. rewrite Hr, list_elem_of_fmap. split.
    - intros ([w v'] & -> & [Hw He]%list_elem_of_filter). cbn in Hw. subst w. by apply reversed_in.
    - intros Hv. exists (t, v). split; [done|]. apply list_elem_of_filter. split; [done|]. by apply reversed_in. }
  exists (with_cache g (Some (s, p)), (s, p)). split; [|exists (Some (s, p)); split_and!; [done|by apply with_cache_ok; intros ? ? [= <- <-]|done]].
  replace (for_each (out g) (countEdge i64) _) with (for_each reversed (λ s e, countEdge i64 s e.1) (replicate (Z.to_nat (n + 1)) 0)).
  2: { rewrite <-reversed_targets. by rewrite for_each_fmap. }
  destruct (for_each reversed (λ s e, countEdge i64 s e.1) _) as [s1| |]; [|done..]. cbn [mbind outcome_bind] in *.
  destruct (for_each _ (sumStep i64) s1) as [s2| |]; [|done..]. cbn [mbind outcome_bind] in *.
  destruct (idx s2 n) as [total| |] eqn:Et; [|done..]. cbn [mbind outcome_bind] in *. destruct (slice s2 0 n) as [fill| |]; [|done..]. cbn [mbind outcome_bind] in *.
  assert (total = len (out g)) as ->.
  { destruct (for_each reversed (fillEdge i64) _); [|done..]. cbn in Hrun. injection Hrun as -> _. apply idx_inv in Et as [_ <-]. rewrite H4.
    rewrite <-reversed_targets. unfold len. by rewrite length_fmap. }
  unfold len in Hrun at 1. rewrite Nat2Z.id in Hrun. unfold reversed in Hrun. rewrite for_each_bind in Hrun.
  rewrite (for_each_ext (upto 0 n) _ (λ st v, row ← Out g (i32 v); for_each row (λ st w, fillEdge i64 st (w, i32 v)) st)) in Hrun.
  - destruct (for_each (upto 0 n) _ _); [|done..]. cbn in *. by injection Hrun as -> ->.
  - intros st v Hv%elem_of_upto. unfold maxGraphObjects in Hm. rewrite i32_small, (out_row g v G), for_each_fmap by lia. done.
Qed.
End Reverse.

(** ** Paths without an interior root *)

Definition rooted (g : ObjectGraph) (v : Z) : Prop := v ∈ roots g.
#[export] Instance rooted_dec g v : Decision (rooted g v).
Proof. unfold rooted. apply _. Defined.

(** A path to a target on which no object after the first is rooted. *)
Inductive free_path (g : ObjectGraph) (T : list Z) : Z → list Z → Prop :=
| fp_target t : t ∈ T → free_path g T t [t]
| fp_edge u v l : free_path g T v l → ¬ rooted g v → edge g u v → free_path g T u (u :: l).

(** The chain of [next] from [v]. *)
Inductive follows (next : list Z) : Z → list Z → Prop :=
| fo_end v : get next v = target → follows next v [v]
| fo_step v l : 0 <= get next v → follows next (get next v) l → follows next v (v :: l).

Definition step_of (g : ObjectGraph) (v : Z) (st : PathStep) : Prop := ID g v = Ok (st_ID st) ∧ DisplayName g v = Ok (st_ClassName st).
(** A shortest such path from [v], with its objects and its root records. *)
Definition path_ok (g : ObjectGraph) (T : list Z) (v : Z) (p : RootPath) : Prop :=
  Roots_ p = filter (λ r, Object r = v) (gcRoots g) ∧
  ∃ l, free_path g T v l ∧ (∀ l', free_path g T v l' → len l <= len l') ∧ Forall2 (step_of g) l (Steps p).
(** The paths reported for the targets [T]. *)
Definition paths_ok (g : ObjectGraph) (T : list Z) (maxPaths : Z) (ps : list RootPath) : Prop :=
  ∃ vs, NoDup vs ∧ (∀ v, v ∈ vs → rooted g v) ∧ Forall2 (path_ok g T) vs ps ∧
    StronglySorted (λ p q, len (Steps p) <= len (Steps q)) ps ∧ len ps <= maxPaths ∧
    ∀ v l, rooted g v → free_path g T v l → v ∈ vs ∨ (len ps = maxPaths ∧ ∀ p, p ∈ ps → len (Steps p) <= len l).

Section Search.
Context (g : ObjectGraph) (G : graph_ok g) (T : list Z) (HT : ∀ t, t ∈ T → 0 <= t < Len g).
Local Abbreviation n := (Len g).

(** The search after the objects [done] were taken off the queue and the
    predecessors of [closed] were added: [dep] is the distance to a target, at
    most [k] for the objects taken off and [k] or [k + 1] for the others. *)
Record search (done closed next queue : list Z) (dep : Z → Z) (k : Z) : Prop := {
  se_len : len next = n;
  se_queue v : v ∈ queue ↔ 0 <= v < n ∧ get next v ≠ unvisited;
  se_nodup : NoDup queue;
  se_split : ∃ todo, queue = done ++ todo ∧ (∀ x, x ∈ todo → k <= dep x);
  se_sorted : StronglySorted (λ x y, dep x <= dep y) queue;
  se_done x : x ∈ done → dep x <= k;
  se_all x : x ∈ queue → 0 <= dep x <= k + 1;
  se_targets t : t ∈ T → t ∈ queue ∧ dep t = 0;
  se_target v : v ∈ queue → get next v = target → v ∈ T ∧ dep v = 0;
  se_next v : v ∈ queue → get next v ≠ target → 0 <= get next v ∧ get next v ∈ done ∧ ¬ rooted g (get next v) ∧ edge g v (get next v) ∧
    dep v = dep (get next v) + 1;
  se_closed u v : u ∈ closed → ¬ rooted g u → edge g v u → v ∈ queue ∧ dep v <= dep u + 1 }.

Lemma search_chain done closed next queue dep k v : search done closed next queue dep k → v ∈ queue →
  ∃ l, free_path g T v l ∧ follows next v l ∧ len l = dep v + 1 ∧ NoDup l ∧ ∀ x, x ∈ l → x ∈ queue ∧ dep x <= dep v.
Proof.
  intros S Hv. pose proof (se_all _ _ _ _ _ _ S v Hv) as Hd. remember (Z.to_nat (dep v)) as m eqn:Em. revert v Hv Hd Em.
  induction m as [m IH] using lt_wf_ind. intros v Hv Hd ->. destruct (decide (get next v = target)) as [He|He].
  - destruct (se_target _ _ _ _ _ _ S v Hv He) as [Ht H0]. exists [v]. split_and!; [by constructor|by constructor|rewrite H0; done|apply NoDup_singleton|].
    intros x ->%list_elem_of_singleton. done.
  - destruct (se_next _ _ _ _ _ _ S v Hv He) as (H0 & Hu & Hnr & Hed & Hdep). destruct (se_split _ _ _ _ _ _ S) as (todo & Hq & _).
    assert (get next v ∈ queue) as Huq by (rewrite Hq; apply elem_of_app; by left). pose proof (se_all _ _ _ _ _ _ S _ Huq).
    destruct (IH (Z.to_nat (dep (get next v))) ltac:(lia) (get next v) Huq ltac:(lia) eq_refl) as (l & H1 & H2 & H3 & H4 & H5).
    exists (v :: l). split_and!; [by econstructor|by constructor|rewrite len_cons; lia| |].
    + constructor; [|done]. intros Hin. destruct (H5 v Hin). lia.
    + intros x [->|Hx]%elem_of_cons; [split; [done|lia]|]. destruct (H5 x Hx). split; [done|lia].
Qed.
Lemma search_reach done next queue dep k v l : search done done next queue dep k → free_path g T v l →
  (v ∈ queue ∧ dep v + 1 <= len l) ∨ (∃ x, x ∈ queue ∧ (x ∉ done) ∧ dep x + 1 < len l).
Proof.
  intros S. induction 1 as [t Ht|u v l Hp IH Hnr He].
  - left. destruct (se_targets _ _ _ _ _ _ S t Ht) as [? ->]. done.
  - rewrite len_cons. destruct IH as [[Hv Hd]|(x & Hx & Hxd & Hd)]; [|right; exists x; split_and!; [done..|lia]].
    destruct (decide (v ∈ done)) as [Hvd|Hvd].
    + left. destruct (se_closed _ _ _ _ _ _ S v u Hvd Hnr He). split; [done|lia].
    + right. exists v. split_and!; [done..|lia].
Qed.
Lemma search_level done closed next queue dep k x : search done closed next queue dep k → x ∈ queue → x ∉ done → k <= dep x.
Proof. intros S Hx Hxd. destruct (se_split _ _ _ _ _ _ S) as (todo & -> & Hk). apply elem_of_app in Hx as [|Hx]; [done|by apply Hk]. Qed.
Lemma search_minimal done next queue dep k v l : search done done next queue dep k → v ∈ queue → free_path g T v l → dep v + 1 <= len l.
Proof.
  intros S Hv Hp. destruct (search_reach _ _ _ _ _ v l S Hp) as [[_ ?]|(x & Hx & Hxd & ?)]; [done|]. pose proof (search_level _ _ _ _ _ _ x S Hx Hxd).
  pose proof (se_all _ _ _ _ _ _ S v Hv). lia.
Qed.

(** *** One object is added *)

Definition at_depth (dep : Z → Z) (u d : Z) : Z → Z := λ x, if decide (x = u) then d else dep x.
Lemma at_depth_eq dep u d : at_depth dep u d u = d.
Proof. unfold at_depth. by rewrite decide_True. Qed.
Lemma at_depth_ne dep u d x : x ≠ u → at_depth dep u d x = dep x.
Proof. intros. unfold at_depth. by rewrite decide_False. Qed.
Lemma sorted_snoc_dep (dep : Z → Z) l u d : StronglySorted (λ x y, dep x <= dep y) l → u ∉ l → (∀ x, x ∈ l → dep x <= d) →
  StronglySorted (λ x y, at_depth dep u d x <= at_depth dep u d y) (l ++ [u]).
Proof.
  induction 1 as [|x l Hs IH Hx]; intros Hu Hd; cbn; [repeat constructor|]. rewrite not_elem_of_cons in Hu. destruct Hu as [Hxu Hu]. constructor.
  - apply IH; [done|]. intros y Hy. apply Hd. by right.
  - apply Forall_app. split; [|constructor; [|constructor]; rewrite at_depth_eq, at_depth_ne by done; apply Hd; by left].
    eapply Forall_impl; [rewrite <-Forall_forall in *|]; [apply Forall_and; split; [exact Hx|apply Forall_forall; intros y Hy; exact Hy]|].
    intros y [Hy Hin]. rewrite !at_depth_ne; [done|intros ->; done|done].
Qed.

Lemma enqueue_spec done closed next queue dep k v u : search done closed next queue dep k → v ∈ done → ¬ rooted g v → dep v = k → edge g u v → 
  runs (enqueue v (next, queue) u) (λ r, ∃ dep', search done closed r.1 r.2 dep' k ∧ (∀ x, x ∈ queue → x ∈ r.2 ∧ dep' x = dep x) ∧ u ∈ r.2 ∧ dep' u <= k + 1).
Proof.
  intros S Hv Hnr Hk He. pose proof (proj1 He) as Hu. pose proof (se_len _ _ _ _ _ _ S) as Hl. unfold enqueue. apply runs_bind, runs_idx; [lia|].
  destruct (Z.eqb_spec (get next u) unvisited) as [Hn|Hn].
  2: { apply runs_ok. exists dep. cbn. assert (u ∈ queue) by (apply (se_queue _ _ _ _ _ _ S); done). split_and!; [done..|]. by apply (se_all _ _ _ _ _ _ S). }
  assert (u ∉ queue) as Huq by (intros [_ ?]%(se_queue _ _ _ _ _ _ S); done). destruct (se_split _ _ _ _ _ _ S) as (todo & Hq & Hlev).
  assert (∀ x, x ∈ done → x ∈ queue) as Hdq by (intros x Hx; rewrite Hq; apply elem_of_app; by left).
  assert (∀ x, x ∈ queue → at_depth dep u (k + 1) x = dep x) as Hold by (intros x Hx; apply at_depth_ne; by intros ->).
  assert (0 <= v) as Hv0 by (apply Hdq, (se_queue _ _ _ _ _ _ S) in Hv; lia).
  apply runs_bind, runs_set_idx; [lia|]. apply runs_ok. exists (at_depth dep u (k + 1)). cbn [fst snd]. split_and!.
  - split.
    + by rewrite len_put.
    + intros x. rewrite elem_of_app, list_elem_of_singleton, (se_queue _ _ _ _ _ _ S). destruct (decide (x = u)) as [->|Hx].
      * rewrite get_put_eq by lia. unfold unvisited. split; [intros _; split; [done|lia]|by right].
      * split; [intros [[Hr ?]|?]; [|done]; rewrite get_put_ne by lia; done|]. intros [Hr Hg]. left. by rewrite get_put_ne in Hg by lia.
    + apply NoDup_app. split_and!; [apply S| |apply NoDup_singleton]. intros x Hx ->%list_elem_of_singleton. done.
    + exists (todo ++ [u]). split; [by rewrite Hq, <-app_assoc|]. intros x [Hx|Hx]%elem_of_app.
      * rewrite Hold by (rewrite Hq; apply elem_of_app; by right). by apply Hlev.
      * apply list_elem_of_singleton in Hx as ->. rewrite at_depth_eq. lia.
    + apply sorted_snoc_dep; [apply S|done|]. intros x Hx. by apply (se_all _ _ _ _ _ _ S).
    + intros x Hx. rewrite Hold by auto. by apply (se_done _ _ _ _ _ _ S).
    + intros x [Hx|Hx]%elem_of_app; [rewrite Hold by done; by apply (se_all _ _ _ _ _ _ S)|]. apply list_elem_of_singleton in Hx as ->. rewrite at_depth_eq.
      pose proof (se_all _ _ _ _ _ _ S v (Hdq v Hv)). lia.
    + intros t [Hin H0]%(se_targets _ _ _ _ _ _ S). split; [apply elem_of_app; by left|]. by rewrite Hold.
    + intros x [Hx|Hx]%elem_of_app Hg.
      * rewrite Hold by done. apply (se_target _ _ _ _ _ _ S); [done|]. rewrite get_put_ne in Hg; [done|lia|apply (se_queue _ _ _ _ _ _ S) in Hx; lia|by intros ->].
      * apply list_elem_of_singleton in Hx as ->. rewrite get_put_eq in Hg by lia. unfold target in Hg. lia.
    + intros x [Hx|Hx]%elem_of_app Hg.
      * rewrite get_put_ne in * by (lia || (apply (se_queue _ _ _ _ _ _ S) in Hx; lia) || by intros ->).
        destruct (se_next _ _ _ _ _ _ S x Hx Hg) as (H1 & H2 & H3 & H4 & H5). split_and!; try done. rewrite !Hold; auto.
      * apply list_elem_of_singleton in Hx as ->. rewrite get_put_eq by lia. rewrite at_depth_eq, Hold, Hk by auto. done.
    + intros x y Hx Hxr Hxy. destruct (se_closed _ _ _ _ _ _ S x y Hx Hxr Hxy) as [Hy Hd]. split; [apply elem_of_app; by left|].
      rewrite (Hold y) by done. unfold at_depth. case_decide; [subst x|done].
      pose proof (se_all _ _ _ _ _ _ S y Hy). lia.
  - intros x Hx. split; [apply elem_of_app; by left|auto].
  - apply elem_of_app. right. by left.
  - rewrite at_depth_eq. lia.
Qed.

(** *** One object is taken off the queue *)

Lemma take_spec done next queue dep k v todo : search done done next queue dep k → queue = done ++ v :: todo →
  search (done ++ [v]) done next queue dep (dep v).
Proof.
  intros S Hq. destruct (se_split _ _ _ _ _ _ S) as (todo' & Hq' & Hk). assert (todo' = v :: todo) as -> by (rewrite Hq in Hq'; by apply app_inv_head in Hq').
  pose proof (Hk v ltac:(by left)) as Hkv. destruct S. split; try done.
  - exists todo. split; [by rewrite <-app_assoc|]. intros x Hx. rewrite Hq in se_sorted0. apply StronglySorted_app in se_sorted0 as (_ & _ & Hs).
    apply StronglySorted_inv in Hs as [_ Hs]. rewrite Forall_forall in Hs. by apply Hs.
  - intros x [Hx|Hx]%elem_of_app; [apply se_done0 in Hx; lia|]. by apply list_elem_of_singleton in Hx as ->.
  - intros x Hx. apply se_all0 in Hx. lia.
  - intros x Hx Hg. destruct (se_next0 x Hx Hg) as (H1 & H2 & H3). split_and!; try apply H3; [done|]. apply elem_of_app. by left.
Qed.
Lemma close_spec done next queue dep k v : search (done ++ [v]) done next queue dep k →
  (¬ rooted g v → ∀ u, edge g u v → u ∈ queue ∧ dep u <= dep v + 1) → search (done ++ [v]) (done ++ [v]) next queue dep k.
Proof.
  intros [] Hc. split; try done. intros x y [Hx|Hx]%elem_of_app Hr He; [by apply se_closed0|]. apply list_elem_of_singleton in Hx as ->. by apply Hc.
Qed.
Lemma expand_spec done next queue dep v us : search (done ++ [v]) done next queue dep (dep v) → ¬ rooted g v → (∀ u, u ∈ us ↔ edge g u v) →
  runs (for_each us (enqueue v) (next, queue)) (λ r, ∃ dep', search (done ++ [v]) (done ++ [v]) r.1 r.2 dep' (dep v) ∧
    (∀ x, x ∈ queue → x ∈ r.2 ∧ dep' x = dep x)).
Proof.
  intros S Hr Hus. assert (v ∈ done ++ [v]) as Hvd by (apply elem_of_app; right; by left).
  assert (v ∈ queue) as Hvq by (destruct (se_split _ _ _ _ _ _ S) as (todo & -> & _); apply elem_of_app; by left).
  eapply runs_mono; [apply (runs_for_each (λ d r, ∃ dep', search (done ++ [v]) done r.1 r.2 dep' (dep v) ∧ (∀ x, x ∈ queue → x ∈ r.2 ∧ dep' x = dep x) ∧
    ∀ u, u ∈ d → u ∈ r.2 ∧ dep' u <= dep v + 1))|].
  - exists dep. split_and!; [done|done|]. by intros u ?%not_elem_of_nil.
  - intros d u r [next' queue'] Hd (dep' & S' & Hold & Hdone). cbn [fst snd] in *. destruct (Hold v Hvq) as [_ Hdv].
    eapply runs_mono; [apply (enqueue_spec _ _ _ _ _ _ v u S' Hvd Hr Hdv)|].
    { apply Hus. rewrite Hd. apply elem_of_app. right. by left. }
    intros r' (dep'' & S'' & Hold' & Hu & Hdu). exists dep''. split_and!; [done|..].
    + intros x Hx. destruct (Hold x Hx) as [Hx' <-]. by apply Hold'.
    + intros x [Hx|Hx]%elem_of_app; [destruct (Hdone x Hx) as [Hx' ?]; destruct (Hold' x Hx') as [? ->]; done|]. by apply list_elem_of_singleton in Hx as ->.
  - intros r (dep' & S' & Hold & Hdone). exists dep'. split; [|done]. apply close_spec; [done|]. intros _ u Hu. destruct (Hold v Hvq) as [_ ->]. apply Hdone. by apply Hus.
Qed.

(** *** The targets *)

Lemma targets_spec : runs (for_each T (enqueue target) (replicate (length (ids g)) unvisited, [])) (λ r, search [] [] r.1 r.2 (λ _, 0) 0).
Proof.
  eapply runs_mono; [apply (runs_for_each (λ d r, len r.1 = n ∧ NoDup r.2 ∧ (∀ v, v ∈ r.2 ↔ v ∈ d) ∧ ∀ v, 0 <= v < n → get r.1 v = if decide (v ∈ d) then target else unvisited))|].
  - cbn. split_and!; [unfold Len, len; by rewrite length_replicate|constructor|done|]. intros v Hv.
    assert (length (ids g) = Z.to_nat n) as -> by (unfold Len, len; lia). by apply get_replicate.
  - intros d t r [next queue] Hd (H1 & H2 & H3 & H4). cbn [fst snd] in *. assert (0 <= t < n) as Ht by (apply HT; rewrite Hd; set_solver).
    unfold enqueue. apply runs_bind, runs_idx; [lia|]. rewrite H4 by done. destruct (decide (t ∈ d)) as [Hin|Hin]; cbn [target unvisited Z.eqb Pos.eqb].
    + apply runs_ok. cbn [fst snd]. split_and!; [done..|intros v; rewrite H3; set_solver|]. intros v Hv. rewrite H4 by done. repeat case_decide; set_solver.
    + apply runs_bind, runs_set_idx; [lia|]. apply runs_ok. cbn [fst snd]. rewrite len_put. split_and!; [done| | |].
      * apply NoDup_app. split_and!; [done| |apply NoDup_singleton]. intros x Hx%H3 ->%list_elem_of_singleton. done.
      * intros v. rewrite !elem_of_app, H3. done.
      * intros v Hv. destruct (decide (v = t)) as [->|Hne]; [rewrite get_put_eq, decide_True by (lia || set_solver); done|].
        rewrite get_put_ne, H4 by lia. repeat case_decide; set_solver.
  - intros [next queue] (H1 & H2 & H3 & H4). cbn [fst snd] in *.
    assert (∀ v, v ∈ queue → 0 <= v < n ∧ v ∈ T ∧ get next v = target) as Hq.
    { intros v Hv%H3. pose proof (HT v Hv). split_and!; [lia..|done|]. rewrite H4, decide_True by auto. done. }
    split; cbn; try done.
    + intros v. rewrite H3. split; [intros Hv; split; [by apply HT|]; rewrite H4, decide_True by auto; done|]. intros [Hv Hn]. rewrite H4 in Hn by done. by case_decide.
    + exists queue. split; [done|]. intros; lia.
    + clear. induction queue as [|x l IH]; constructor; [exact IH|]. by apply Forall_forall.
    + intros t Ht. by rewrite H3.
    + intros v Hv _. by destruct (Hq v Hv) as (_ & ? & _).
    + intros v Hv Hg. by destruct (Hq v Hv) as (_ & _ & ?).
    + by intros u v ?%not_elem_of_nil.
Qed.

(** *** The reported paths *)

Lemma pathSteps_spec next v l : follows next v l → len next = n → ∀ fuel acc, (∀ x, x ∈ l → 0 <= x < n) → (length l < fuel)%nat →
  runs (pathSteps fuel g next v acc) (λ steps, ∃ new, steps = acc ++ new ∧ Forall2 (step_of g) l new).
Proof.
  intros Hf Hl. induction Hf as [v Hv|v l Hv Hf IH]; intros fuel acc Hr Hfu; (destruct fuel as [|fuel]; [lia|]);
    (pose proof (Hr v ltac:(by left)) as Hvr; destruct (display_ok g v G Hvr) as (name & Hname)); cbn [pathSteps]; rewrite (proj2 (Z.leb_le 0 v)) by lia;
    (apply runs_bind, runs_idx; [done|]; rewrite Hname; apply runs_bind, runs_ok, runs_bind, runs_idx; [lia|]).
  - cbn [length] in Hfu. destruct fuel as [|fuel]; [lia|]. cbn [pathSteps]. rewrite Hv. cbn. apply runs_ok. eexists. split; [done|].
    constructor; [|constructor]. split; [|done]. unfold ID. by rewrite idx_get.
  - cbn [length] in Hfu. eapply runs_mono; [apply IH; [intros x Hx; apply Hr; by right|lia]|]. intros steps (new & -> & Hn).
    eexists. split; [by rewrite <-app_assoc|]. constructor; [|done]. split; [|done]. unfold ID. by rewrite idx_get.
Qed.
Lemma pathFrom_spec done next queue dep k v rs : search done done next queue dep k → v ∈ queue → rs = filter (λ r, Object r = v) (gcRoots g) →
  runs (pathFrom g v next rs) (λ p, path_ok g T v p ∧ len (Steps p) = dep v + 1).
Proof.
  intros S Hv ->. destruct (search_chain _ _ _ _ _ _ v S Hv) as (l & H1 & H2 & H3 & H4 & H5). unfold pathFrom. apply runs_bind.
  assert (∀ x, x ∈ l → 0 <= x < n) as Hr by (intros x Hx; apply H5 in Hx as [Hx _]; exact (proj1 (proj1 (se_queue _ _ _ _ _ _ S x) Hx))).
  eapply runs_mono; [apply (pathSteps_spec next v l H2 (se_len _ _ _ _ _ _ S)); [done|]|].
  - pose proof (range_length l n H4 Hr (len_nonneg _)). unfold Len, len in *. lia.
  - intros steps (new & -> & Hn). apply runs_ok. cbn. split; [|apply Forall2_length in Hn; unfold len in *; lia]. split; [done|]. exists l. split_and!; [done| |done].
    intros l' Hl'. rewrite H3. by eapply search_minimal.
Qed.

Lemma rooted_records v : rooted g v ↔ 0 < len (filter (λ r, Object r = v) (gcRoots g)).
Proof.
  unfold rooted. rewrite (go_root_records _ G). split.
  - intros (r & -> & Hr)%list_elem_of_fmap. assert (r ∈ filter (λ r', Object r' = Object r) (gcRoots g)) as Hin by by apply list_elem_of_filter.
    destruct (filter _ _) as [|r' l']; [by apply not_elem_of_nil in Hin|]. rewrite len_cons. pose proof (len_nonneg l'). lia.
  - intros Hl. destruct (filter _ _) as [|r l] eqn:E; [done|]. assert (r ∈ filter (λ r', Object r' = v) (gcRoots g)) as [<- Hr]%list_elem_of_filter by (rewrite E; by left).
    apply list_elem_of_fmap. by exists r.
Qed.

Lemma sorted_image {A B} (R : A → A → Prop) (R' : B → B → Prop) (P : A → B → Prop) l k : (∀ x y x' y', P x x' → P y y' → R x y → R' x' y') →
  Forall2 P l k → StronglySorted R l → StronglySorted R' k.
Proof.
  intros HR. induction 1 as [|x x' l k Hx Hl IH]; intros Hs; [constructor|]. apply StronglySorted_inv in Hs as [Hs Hf]. constructor; [auto|].
  clear IH Hs. induction Hl as [|y y' l k Hy Hl IH]; [constructor|]. inversion Hf; subst. constructor; [by eapply HR|auto].
Qed.
Lemma sorted_filter {A} (R : A → A → Prop) (P : A → Prop) `{∀ x, Decision (P x)} l : StronglySorted R l → StronglySorted R (filter P l).
Proof.
  induction 1 as [|x l Hs IH Hx]; [constructor|]. rewrite filter_cons. case_decide; [|done]. constructor; [done|].
  rewrite Forall_forall in *. intros y [_ Hy]%list_elem_of_filter. auto.
Qed.

Definition reported (done : list Z) (dep : Z → Z) (paths : list RootPath) : Prop :=
  Forall2 (λ v p, path_ok g T v p ∧ len (Steps p) = dep v + 1) (filter (rooted g) done) paths.

Lemma finish_spec done next queue dep k paths maxPaths : search done done next queue dep k → reported done dep paths →
  len paths <= maxPaths → (queue = done ∨ len paths = maxPaths) → paths_ok g T maxPaths paths.
Proof.
  intros S Hp Hm Hend. destruct (se_split _ _ _ _ _ _ S) as (todo & Hq & Hlev). exists (filter (rooted g) done).
  pose proof (se_nodup _ _ _ _ _ _ S) as Hnd. pose proof (se_sorted _ _ _ _ _ _ S) as Hs. rewrite Hq in Hnd, Hs. split_and!.
  - apply NoDup_filter. by apply NoDup_app in Hnd as [? _].
  - by intros v [? _]%list_elem_of_filter.
  - eapply Forall2_impl; [exact Hp|]. by intros v p [? _].
  - apply StronglySorted_app in Hs as (_ & Hs & _). eapply sorted_image; [|exact Hp|apply sorted_filter, Hs]. cbn. intros x y x' y' [_ ->] [_ ->] ?. lia.
  - done.
  - intros v l Hv Hl. destruct (decide (v ∈ done)) as [Hd|Hd]; [left; by apply list_elem_of_filter|right].
    assert (∃ x, x ∈ queue ∧ (x ∉ done) ∧ dep x + 1 <= len l) as (x & Hx & Hxd & Hxl).
    { destruct (search_reach _ _ _ _ _ v l S Hl) as [[? ?]|(x & ? & ? & ?)]; [by eauto|]. exists x. split_and!; [done..|lia]. }
    split; [destruct Hend as [->|]; done|]. intros p Hpin. apply list_elem_of_lookup in Hpin as (i & Hi). destruct (Forall2_lookup_r _ _ _ _ _ Hp Hi) as (w & Hw & _ & ->).
    apply list_elem_of_lookup_2, list_elem_of_filter in Hw as [_ Hw]. pose proof (se_done _ _ _ _ _ _ S w Hw). pose proof (search_level _ _ _ _ _ _ x S Hx Hxd). lia.
Qed.
Lemma reported_same done dep dep' paths : (∀ x, x ∈ done → dep' x = dep x) → reported done dep paths → reported done dep' paths.
Proof.
  unfold reported. intros Hd Hp. apply Forall2_same_length_lookup_2; [by apply Forall2_length in Hp|]. intros i v p Hv Hi.
  destruct (Forall2_lookup_lr _ _ _ _ _ _ Hp Hv Hi) as [? ->]. split; [done|]. rewrite Hd; [done|]. by apply list_elem_of_lookup_2, list_elem_of_filter in Hv as [_ ?].
Qed.

Lemma pathLoop_spec start preds maxPaths : reverse_rows g start preds → ∀ fuel done next queue dep k paths,
  search done done next queue dep k → reported done dep paths → len paths <= maxPaths → n - len done < Z.of_nat fuel →
  runs (pathLoop fuel g maxPaths start preds next queue (len done) paths) (paths_ok g T maxPaths).
Proof.
  intros [Hsl Hrows]. induction fuel as [|fuel IH]; intros done next queue dep k paths S Hp Hm Hf.
  all: destruct (se_split _ _ _ _ _ _ S) as (todo & Hq & Hlev).
  all: assert (len queue <= n) as Hqn by (pose proof (range_length queue n (se_nodup _ _ _ _ _ _ S) (λ x Hx, proj1 (proj1 (se_queue _ _ _ _ _ _ S x) Hx)) (len_nonneg _)); pose proof (len_nonneg (ids g)); unfold Len, len in *; lia).
  all: assert (len queue = len done + len todo) as Hql by (rewrite Hq; apply len_app). all: pose proof (len_nonneg todo). { lia. }
  cbn [pathLoop]. destruct (Z.ltb_spec (len done) (len queue)) as [Hlt|Hge].
  2: { apply runs_ok. eapply finish_spec; [exact S|done..|left]. destruct todo as [|x todo]; [by rewrite app_nil_r in Hq|]. rewrite len_cons in *. pose proof (len_nonneg todo). lia. }
  destruct (Z.ltb_spec (len paths) maxPaths) as [Hlm|Hgm]; cbn [andb]; [|apply runs_ok; eapply finish_spec; [exact S|done..|right; lia]].
  destruct todo as [|v todo]; [unfold len in Hql at 3; cbn in Hql; lia|]. assert (v ∈ queue) as Hv by (rewrite Hq; set_solver).
  pose proof (take_spec _ _ _ _ _ v todo S Hq) as S1. assert (0 <= v < n) as Hvr by exact (proj1 (proj1 (se_queue _ _ _ _ _ _ S v) Hv)).
  assert (len (done ++ [v]) = len done + 1) as Hl1 by apply len_snoc.
  assert (idx queue (len done) = Ok v) as Hidx.
  { rewrite idx_get by (pose proof (len_nonneg done); lia). f_equal. apply get_lookup. rewrite Hq. unfold len. rewrite Nat2Z.id. by apply list_lookup_middle. }
  rewrite Hidx. apply runs_bind, runs_ok, runs_bind. eapply runs_mono; [apply (RootsOf_spec g v G)|]. intros rs Hrs. rewrite <-Hl1.
  assert (filter (rooted g) (done ++ [v]) = filter (rooted g) done ++ if decide (rooted g v) then [v] else []) as Hfil.
  { rewrite filter_app. f_equal. }
  pose proof (rooted_records v) as Hrr. rewrite <-Hrs in Hrr. apply runs_if; intros Hb; to_prop.
  - apply runs_bind. eapply runs_mono; [eapply pathFrom_spec; [exact S|done|done]|]. intros p Hpo. assert (rooted g v) as Hrv by tauto.
    eapply IH; [by apply close_spec| |rewrite len_snoc; lia|lia]. unfold reported. rewrite Hfil, decide_True by done. apply Forall2_app; [done|]. by constructor.
  - assert (¬ rooted g v) as Hrv by (rewrite Hrr; lia). destruct (Hrows v Hvr) as (H1 & H2 & H3). do 2 (apply runs_bind, runs_idx; [lia|]). apply runs_bind, runs_slice; [lia..|].
    apply runs_bind. eapply runs_mono; [apply (expand_spec done next queue dep v _ S1 Hrv)|].
    { intros u. rewrite H3. done. }
    intros [next' queue'] (dep' & S' & Hold). cbn [fst snd] in *. eapply IH; [exact S'| |done|lia].
    unfold reported. rewrite Hfil, decide_False, app_nil_r by done. eapply reported_same; [|done]. intros x Hx. apply Hold. rewrite Hq. apply elem_of_app. by left.
Qed.
End Search.

Lemma free_path_cache g c T v l : free_path (with_cache g c) T v l ↔ free_path g T v l.
Proof. split; (induction 1 as [t Ht|u v l Hp IH Hr He]; [by constructor|by econstructor]). Qed.
Lemma paths_ok_cache g c T m ps : paths_ok (with_cache g c) T m ps → paths_ok g T m ps.
Proof.
  intros (vs & H1 & H2 & H3 & H4 & H5 & H6). exists vs. split_and!; try done.
  - eapply Forall2_impl; [exact H3|]. intros v p (Hr & l & Hl & Hmin & Hs). split; [done|]. exists l. split_and!; [by apply free_path_cache in Hl| |done].
    intros l' Hl'. apply Hmin. by apply free_path_cache.
  - intros v l Hv Hl. apply H6; [done|]. by apply free_path_cache.
Qed.
Lemma PathsToGCRoots_spec g T maxPaths : graph_ok g → (∀ t, t ∈ T → 0 <= t < Len g) → 0 < maxPaths →
  runs (PathsToGCRoots g T maxPaths) (λ r, ∃ c, r.1 = with_cache g c ∧ graph_ok r.1 ∧ paths_ok g T maxPaths r.2).
Proof.
  intros G HT Hm. unfold PathsToGCRoots. apply runs_if; intros Hb.
  { assert (T = []) as -> by (destruct T as [|t l]; [done|]; rewrite len_cons in *; pose proof (len_nonneg l); to_prop; lia).
    apply runs_ok. exists (predCache g). cbn [fst snd]. rewrite with_cache_same. split; [done|]. split; [exact G|]. exists [].
    do 4 (split; [by constructor || by intros ? ?%not_elem_of_nil|]). split; [unfold len; cbn; lia|].
    intros v l _ Hl. exfalso. induction Hl as [t Ht|]; [by apply not_elem_of_nil in Ht|done]. }
  apply runs_bind. eapply runs_mono; [apply (reverse_spec g G)|]. intros [g' [start preds]] (c & Hg & G' & Hrev). cbn [fst snd] in *. subst g'.
  apply runs_bind. eapply runs_mono; [apply (targets_spec (with_cache g c) G' T HT)|]. intros [next queue] S. cbn [fst snd] in S.
  apply runs_bind. eapply runs_mono; [apply (pathLoop_spec (with_cache g c) G' T HT start preds maxPaths Hrev _ [] next queue (λ _, 0) 0 [] S)|].
  - constructor.
  - unfold len; cbn; lia.
  - unfold Len, len. cbn. lia.
  - intros ps Hps. apply runs_ok. exists c. split_and!; [done..|]. by eapply paths_ok_cache.
Qed.

(** ** Against all paths from the roots *)

Section RootPaths.
Context (g : ObjectGraph) (G : graph_ok g) (T : list Z).

Lemma free_head v l : free_path g T v l → ∃ l', l = v :: l'.
Proof. destruct 1; eauto. Qed.
Lemma free_root_path v l : free_path g T v l → ∀ pre, root_path g (pre ++ [v]) v → ∃ t, t ∈ T ∧ root_path g (pre ++ l) t.
Proof.
  induction 1 as [t Ht|u v l Hp IH Hr He]; intros pre Hpre; [by eauto|]. destruct (IH (pre ++ [u])) as (t & Ht & Hpath).
  - econstructor; [exact Hpre|apply He].
  - exists t. split; [done|]. by rewrite <-app_assoc in Hpath.
Qed.
Lemma root_path_free l u : root_path g l u → ∀ k, free_path g T u k → ∃ r l', rooted g r ∧ free_path g T r l' ∧ len l' + 1 <= len l + len k.
Proof.
  induction 1 as [r Hr|l u v Hl IH Hv]; intros k Hk.
  - exists r, k. split_and!; [done..|]. unfold len. cbn. lia.
  - destruct (decide (rooted g v)) as [Hr|Hr].
    + exists v, k. split_and!; [done..|]. rewrite len_snoc. pose proof (len_nonneg l). lia.
    + destruct (root_path_reachable g l u Hl) as [Hu _]. pose proof (reachable_range g G u Hu).
      destruct (IH (u :: k)) as (r & l' & ? & ? & Hlen); [by econstructor|]. exists r, l'. rewrite len_snoc. rewrite len_cons in Hlen. split_and!; [done..|lia].
Qed.

Lemma paths_ok_root_path m ps p : paths_ok g T m ps → p ∈ ps → ∃ l t, t ∈ T ∧ root_path g l t ∧ Forall2 (step_of g) l (Steps p).
Proof.
  intros (vs & _ & Hr & Hp & _) [i Hi]%list_elem_of_lookup. destruct (Forall2_lookup_r _ _ _ _ _ Hp Hi) as (v & Hv & _ & l & Hl & _ & Hs).
  apply list_elem_of_lookup_2, Hr in Hv. destruct (free_root_path v l Hl []) as (t & Ht & Hpath); [by constructor|]. exists l, t. done.
Qed.
Lemma paths_ok_first m ps l t : 0 < m → paths_ok g T m ps → t ∈ T → root_path g l t → ∃ p ps', ps = p :: ps' ∧ len (Steps p) <= len l.
Proof.
  intros Hm (vs & _ & _ & Hp & Hs & _ & Hc) Ht Hl. destruct (root_path_free l t Hl [t]) as (r & l' & Hr & Hf & Hlen); [by constructor|].
  assert (len l' <= len l) as Hle by (unfold len in *; cbn in *; lia).
  assert (∃ q, q ∈ ps ∧ len (Steps q) <= len l') as (q & Hq & Hql).
  { destruct (Hc r l' Hr Hf) as [[i Hi]%list_elem_of_lookup|[Hfull Hall]].
    - destruct (Forall2_lookup_l _ _ _ _ _ Hp Hi) as (q & Hq & _ & k & _ & Hmin & Hk). exists q. split; [by eapply list_elem_of_lookup_2|].
      apply Forall2_length in Hk. specialize (Hmin l' Hf). unfold len in *. lia.
    - destruct ps as [|q ps]; [unfold len in Hfull; cbn in Hfull; lia|]. exists q. split; [by left|]. apply Hall. by left. }
  destruct ps as [|p ps]; [by apply not_elem_of_nil in Hq|]. exists p, ps. split; [done|]. apply StronglySorted_inv in Hs as [_ Hs]. rewrite Forall_forall in Hs.
  apply elem_of_cons in Hq as [->|Hq]; [lia|]. specialize (Hs q Hq). lia.
Qed.
End RootPaths.

(** ** The objects of a class *)

Lemma InstancesOf_spec g name : graph_ok g →
  runs (InstancesOf g name) (λ l, l = filter (λ i, get (classNames g) (get (class g) i) = name) (upto 0 (Len g))).
Proof.
  intros G. unfold InstancesOf. pose proof (go_class _ G) as Hcl. pose proof (go_len _ G) as Hn. unfold maxGraphObjects in Hn.
  assert (∀ i, 0 <= i < Len g → 0 <= get (class g) i < len (classNames g)) as Hc.
  { intros i Hi. apply (go_classes _ G), elem_of_get. exists i. split; [lia|done]. }
  set (matches := _ <$> classNames g). assert (len matches = len (classNames g)) as Hml by (unfold matches, len; by rewrite length_fmap).
  assert (∀ c, 0 <= c < len (classNames g) → get matches c = bool_decide (get (classNames g) c = name)) as Hm.
  { intros c Hcr. unfold matches. by rewrite get_fmap. }
  apply runs_if; intros Hb.
  - apply runs_ok. symmetry. apply filter_none. intros i Hi%elem_of_upto He. apply negb_true_iff in Hb. specialize (Hc i Hi).
    assert (existsb id matches = true) as Ht; [|congruence]. apply existsb_exists. exists true. split; [|done]. apply list_elem_of_In, elem_of_get. exists (get (class g) i).
    split; [lia|]. rewrite Hm by done. by apply bool_decide_eq_true.
  - assert (zip (upto 0 (len (class g))) (class g) = (λ i, (i, get (class g) i)) <$> upto 0 (Len g)) as ->.
    { rewrite Hcl. apply list_eq. intros i. rewrite list_lookup_fmap. destruct (decide (Z.of_nat i < Len g)) as [Hi|Hi].
      - assert (upto 0 (Len g) !! i = Some (Z.of_nat i)) as Hu by (apply lookup_seqZ; lia). rewrite Hu. apply lookup_zip_Some. split; [done|].
        rewrite <-(Nat2Z.id i) at 1. apply lookup_get. lia.
      - rewrite !(lookup_ge_None_2 (upto 0 (Len g))) by (unfold upto; rewrite length_seqZ; lia). apply lookup_ge_None_2. rewrite length_zip. unfold upto. rewrite length_seqZ. lia. }
    rewrite for_each_fmap. eapply runs_mono; [apply (runs_for_each (λ d l, l = filter (λ i, get (classNames g) (get (class g) i) = name) d)); [done|]|done].
    intros d i r l Hd ->. assert (0 <= i < Len g) as Hi by (apply elem_of_upto; rewrite Hd; set_solver). specialize (Hc i Hi).
    apply runs_bind, runs_idx; [lia|]. apply runs_ok. rewrite Hm by done. rewrite filter_app, filter_cons, filter_nil, i32_small by lia.
    case_decide as He; [by rewrite bool_decide_true by done|by rewrite bool_decide_false, app_nil_r by done].
Qed.
End PathFacts.
