(* ===== verification/HeapLeaks.v ===== *)
(** * Leak suspects

    [src/internal/heap/leaks.go]: the top-level subtrees of the dominator tree
    that retain at least a share of the heap, the classes whose top-level
    instances do so together, and for each of them the object where the memory
    accumulates and a path to it from a GC root.  The queries for paths fill a
    cache of the graph that the snapshot points to, so the graph is passed from
    query to query. *)

From Stdlib Require Import Ascii.
From S2P Require Import Prelude Arrays GoStrings GoRuntime Float64 HeapGraph HeapDFS HeapDominators HeapClasses HeapRetained GoHeap HeapRank HeapPaths.

Module Leaks.
Export Rank Paths.

Definition DefaultLeakThresholdPercent : f64 := of_Z 10.
Definition defaultMaxLeakSuspects : Z := 10.
Definition accumulationRatio : f64 := lit 8 10.
Definition LeakSuspectObject : string := "object".
Definition LeakSuspectClass : string := "class".

Record LeakOptions := { ThresholdPercent : f64; MaxSuspects : Z }.
Record AccumulationPoint := {
  ap_ID : Z; ap_ClassName : string; ap_RetainedBytes : Z; ap_PercentOfHeap : f64; DirectChildren : Z; Depth : Z }.
Record LeakSuspect := {
  ls_Kind : string; ls_ClassName : string; ls_ID : Z; ls_Instances : Z; ls_RetainedBytes : Z; ls_PercentOfHeap : f64;
  Accumulation : option AccumulationPoint; PathToRoot : option RootPath; Description : string }.
Record LeakReport := {
  lr_TotalShallowBytes : Z; lr_ReachableObjects : Z; lr_ReachableBytes : Z; lr_ThresholdPercent : f64; lr_Suspects : list LeakSuspect }.

(** ** Text *)

(** The loop divides by 1024 while it can, at most six times for an [int64]. *)
Fixpoint unitLoop (fuel : nat) (m div exp : Z) : outcome (Z * Z) :=
  match fuel with
  | O => out_of_fuel
  | S fuel => if 1024 <=? m then unitLoop fuel (Z.quot m 1024) (i64 (div * 1024)) (exp + 1) else Ok (div, exp)
  end.
Definition formatBytes (n : Z) : outcome string :=
  if n <? 1024 then Ok (itoa n +:+ " B") else
  '(div, exp) ← unitLoop 7 (Z.quot n 1024) 1024 0;
  c ← idx ["K"; "M"; "G"; "T"; "P"; "E"]%char exp;
  Ok (fmt_f 1 (fdiv (of_Z n) (of_Z div)) +:+ " " +:+ String c "iB").

Definition with_description (ls : LeakSuspect) (d : string) : LeakSuspect :=
  {| ls_Kind := ls_Kind ls; ls_ClassName := ls_ClassName ls; ls_ID := ls_ID ls; ls_Instances := ls_Instances ls; ls_RetainedBytes := ls_RetainedBytes ls;
     ls_PercentOfHeap := ls_PercentOfHeap ls; Accumulation := Accumulation ls; PathToRoot := PathToRoot ls; Description := d |}.

Definition describeObjectSuspect (ls : LeakSuspect) : outcome string :=
  size ← formatBytes (ls_RetainedBytes ls);
  let head := ls_ClassName ls +:+ " (0x" +:+ hex (ls_ID ls) +:+ ") retains " +:+ size +:+ " (" +:+ fmt_f 1 (ls_PercentOfHeap ls) +:+ "% of the reachable heap)." in
  acc ← match Accumulation ls with
        | None => Ok ""
        | Some acc =>
          if 0 <? Depth acc then
            size ← formatBytes (ap_RetainedBytes acc);
            Ok (" Memory accumulates in " +:+ ap_ClassName acc +:+ " (0x" +:+ hex (ap_ID acc) +:+ "), which retains " +:+ size +:+
                (if 0 <? DirectChildren acc then " across " +:+ itoa (DirectChildren acc) +:+ " directly dominated objects" else "") +:+ ".")
          else if 1 <? DirectChildren acc then Ok (" It directly dominates " +:+ itoa (DirectChildren acc) +:+ " objects.")
          else Ok ""
        end;
  let path := match PathToRoot ls with Some p => " Shortest path from a GC root: " +:+ RootPath_String p +:+ "." | None => "" end in
  Ok (head +:+ acc +:+ path).

(** ** Suspects *)

(** The largest child, the first of equals; -1 if there is none. *)
Definition bestStep (s : RetainedSnapshot) (best c : Z) : outcome Z :=
  if best =? -1 then Ok c else
  rc ← idx (retained s) c; rb ← idx (retained s) best; Ok (if rb <? rc then c else best).
Definition childrenOf (s : RetainedSnapshot) (d : Z) : outcome (list Z) :=
  lo ← idx (childStart s) d; hi ← idx (childStart s) (d + 1); slice (children s) lo hi.

(** A child has a larger number than its parent, so the numbers bound the depth. *)
Fixpoint descend (fuel : nat) (s : RetainedSnapshot) (d depth : Z) : outcome (Z * Z) :=
  match fuel with
  | O => out_of_fuel
  | S fuel =>
    cs ← childrenOf s d;
    best ← for_each cs (bestStep s) (-1);
    if best =? -1 then Ok (d, depth) else
    rb ← idx (retained s) best; rd ← idx (retained s) d;
    if flt (of_Z rb) (fmul accumulationRatio (of_Z rd)) then Ok (d, depth) else descend fuel s best (depth + 1)
  end.
Definition accumulationPoint (s : RetainedSnapshot) (g : ObjectGraph) (d : Z) : outcome (AccumulationPoint * Z) :=
  '(d, depth) ← descend (length (s_vertex s)) s d 0;
  obj ← idx (s_vertex s) d;
  id ← idx (ids g) obj;
  name ← DisplayName g obj;
  r ← idx (retained s) d;
  hi ← idx (childStart s) (d + 1); lo ← idx (childStart s) d;
  Ok ({| ap_ID := id; ap_ClassName := name; ap_RetainedBytes := r; ap_PercentOfHeap := percentOf s r; DirectChildren := i32 (hi - lo); Depth := depth |}, d).

Definition shortestPath (s : RetainedSnapshot) (g : ObjectGraph) (d : Z) : outcome (ObjectGraph * option RootPath) :=
  v ← idx (s_vertex s) d;
  '(g, paths) ← PathsToGCRoots g [v] 1;
  Ok (g, head paths).

Definition objectSuspect (s : RetainedSnapshot) (g : ObjectGraph) (d : Z) : outcome (ObjectGraph * LeakSuspect) :=
  obj ← idx (s_vertex s) d;
  '(acc, accD) ← accumulationPoint s g d;
  name ← DisplayName g obj;
  id ← idx (ids g) obj;
  r ← idx (retained s) d;
  '(g, path) ← shortestPath s g accD;
  let ls := {| ls_Kind := LeakSuspectObject; ls_ClassName := name; ls_ID := id; ls_Instances := 1; ls_RetainedBytes := r; ls_PercentOfHeap := percentOf s r;
               Accumulation := Some acc; PathToRoot := path; Description := "" |} in
  text ← describeObjectSuspect ls;
  Ok (g, with_description ls text).

Record classGroup := { grp_count : Z; grp_retained : Z; largest : Z }.
Definition groupAdd (s : RetainedSnapshot) (grp : classGroup) (d : Z) : outcome classGroup :=
  rd ← idx (retained s) d; rl ← idx (retained s) (largest grp);
  Ok {| grp_count := i64 (grp_count grp + 1); grp_retained := i64 (grp_retained grp + rd); largest := if rl <? rd then d else largest grp |}.

Definition classSuspect (s : RetainedSnapshot) (g : ObjectGraph) (grp : classGroup) : outcome (ObjectGraph * LeakSuspect) :=
  obj ← idx (s_vertex s) (largest grp);
  name ← ClassName g obj;
  '(g, path) ← shortestPath s g (largest grp);
  let ls := {| ls_Kind := LeakSuspectClass; ls_ClassName := name; ls_ID := 0; ls_Instances := grp_count grp; ls_RetainedBytes := grp_retained grp;
               ls_PercentOfHeap := percentOf s (grp_retained grp); Accumulation := None; PathToRoot := path; Description := "" |} in
  size ← formatBytes (ls_RetainedBytes ls);
  let text := itoa (ls_Instances ls) +:+ " instances of " +:+ ls_ClassName ls +:+ " together retain " +:+ size +:+ " (" +:+ fmt_f 1 (ls_PercentOfHeap ls) +:+
    "% of the reachable heap); none is dominated by another object, so each is held directly by GC roots or shared referrers." in
  let text := match PathToRoot ls with Some p => text +:+ " Largest instance path: " +:+ RootPath_String p +:+ "." | None => text end in
  Ok (g, with_description ls text).

(** One top-level subtree. *)
Definition leakStep (s : RetainedSnapshot) (threshold : Z) (st : ObjectGraph * list LeakSuspect * gmap Z classGroup) (d : Z)
    : outcome (ObjectGraph * list LeakSuspect * gmap Z classGroup) :=
  let '(g, suspects, groups) := st in
  r ← idx (retained s) d;
  if threshold <=? r then '(g, ls) ← objectSuspect s g d; Ok (g, suspects ++ [ls], groups)
  else
    v ← idx (s_vertex s) d;
    match classObjOf g !! v with
    | Some _ => Ok (g, suspects, groups)
    | None =>
      c ← idx (class g) v;
      grp ← groupAdd s (default {| grp_count := 0; grp_retained := 0; largest := d |} (groups !! c)) d;
      Ok (g, suspects, <[c := grp]> groups)
    end.
Definition groupStep (s : RetainedSnapshot) (threshold : Z) (st : ObjectGraph * list LeakSuspect) (grp : classGroup) : outcome (ObjectGraph * list LeakSuspect) :=
  let '(g, suspects) := st in
  if (1 <? grp_count grp) && (threshold <=? grp_retained grp) then '(g, ls) ← classSuspect s g grp; Ok (g, suspects ++ [ls])
  else Ok (g, suspects).
Definition suspectLess (x y : LeakSuspect) : bool :=
  if negb (ls_RetainedBytes x =? ls_RetainedBytes y) then ls_RetainedBytes y <? ls_RetainedBytes x else
  if negb (bool_decide (ls_ClassName x = ls_ClassName y)) then String.ltb (ls_ClassName x) (ls_ClassName y) else ls_ID x <? ls_ID y.

Section Report.
Context `{GoRuntime} (other : f64 → Z).

Definition leakThreshold (s : RetainedSnapshot) (opts : LeakOptions) : Z :=
  let threshold := to_int64 other (fdiv (fmul (of_Z (ReachableBytes s)) (ThresholdPercent opts)) (of_Z 100)) in
  if threshold <? 1 then 1 else threshold.
Definition with_defaults (opts : LeakOptions) : LeakOptions :=
  {| ThresholdPercent := if fle (ThresholdPercent opts) f0 then DefaultLeakThresholdPercent else ThresholdPercent opts;
     MaxSuspects := if MaxSuspects opts <=? 0 then defaultMaxLeakSuspects else MaxSuspects opts |}.

Definition LeakSuspects (s : RetainedSnapshot) (opts : LeakOptions) : outcome (ObjectGraph * LeakReport) :=
  let opts := with_defaults opts in
  let rep suspects := {| lr_TotalShallowBytes := TotalShallowBytes s; lr_ReachableObjects := ReachableObjects s; lr_ReachableBytes := ReachableBytes s;
                         lr_ThresholdPercent := ThresholdPercent opts; lr_Suspects := suspects |} in
  if ReachableBytes s <=? 0 then Ok (Graph s, rep []) else
  let threshold := leakThreshold s opts in
  tops ← childrenOf s 0;
  '(g, suspects, groups) ← for_each tops (leakStep s threshold) (Graph s, [], ∅);
  '(g, suspects) ← for_each (map_entries groups).*2 (groupStep s threshold) (g, suspects);
  let suspects := sort_slice suspectLess suspects in
  suspects ← (if MaxSuspects opts <? len suspects then slice suspects 0 (MaxSuspects opts) else Ok suspects);
  Ok (g, rep suspects).
End Report.
End Leaks.

Module LeakFacts.
Export RankFacts PathFacts Leaks.

(** ** Sizes as text *)

(** The text has the unit with one to four digits before the point. *)
Lemma formatBytes_spec n : n < 2 ^ 63 → runs (formatBytes n) (λ text,
  (n < 1024 ∧ text = itoa n +:+ " B") ∨
  ∃ e c, 1024 ^ (e + 1) <= n < 1024 ^ (e + 2) ∧ ["K"; "M"; "G"; "T"; "P"; "E"]%char !! Z.to_nat e = Some c ∧
    text = fmt_f 1 (fdiv (of_Z n) (of_Z (1024 ^ (e + 1)))) +:+ " " +:+ String c "iB").
Proof.
  intros Hn. unfold formatBytes. destruct (Z.ltb_spec n 1024) as [Hs|Hs]; [apply runs_ok; by left|]. apply runs_bind.
  eapply runs_mono with (P := λ r, ∃ e, r = (1024 ^ (e + 1), e) ∧ 0 <= e < 6 ∧ 1024 ^ (e + 1) <= n < 1024 ^ (e + 2)).
  2: { intros r (e & -> & He & Hr). assert (∃ c, ["K"; "M"; "G"; "T"; "P"; "E"]%char !! Z.to_nat e = Some c) as [c Hc] by (apply lookup_lt_is_Some; cbn; lia).
       rewrite (idx_ok _ _ c) by (done || lia). apply runs_bind, runs_ok, runs_ok. right. eauto. }
  enough (∀ fuel e, 0 <= e → Z.of_nat fuel + e = 7 → 1024 ^ (e + 1) <= n →
    runs (unitLoop fuel (n / 1024 ^ (e + 1)) (1024 ^ (e + 1)) e) (λ r, ∃ e, r = (1024 ^ (e + 1), e) ∧ 0 <= e < 6 ∧ 1024 ^ (e + 1) <= n < 1024 ^ (e + 2))) as H.
  { specialize (H 7%nat 0 ltac:(lia) ltac:(lia)). rewrite Z.quot_div_nonneg by lia. apply H. lia. }
  assert (∀ e, 0 <= e → 1024 ^ (e + 1) <= n → e < 6) as Hlim.
  { intros e He Hp. destruct (Z.lt_ge_cases e 6); [done|]. pose proof (Z.pow_le_mono_r 1024 7 (e + 1) ltac:(lia) ltac:(lia)). lia. }
  induction fuel as [|fuel IH]; intros e He Hf Hp; pose proof (Hlim e He Hp); [lia|]. cbn [unitLoop].
  assert (1024 ^ (e + 2) = 1024 ^ (e + 1) * 1024) as Hpow by (replace (e + 2) with (Z.succ (e + 1)) by lia; rewrite Z.pow_succ_r by lia; lia).
  pose proof (Z.pow_pos_nonneg 1024 (e + 1) ltac:(lia) ltac:(lia)) as Hpos. destruct (Z.leb_spec 1024 (n / 1024 ^ (e + 1))) as [Hge|Hlt].
  - assert (1024 ^ (e + 2) <= n) as Hn2 by (pose proof (Z.mul_div_le n (1024 ^ (e + 1)) Hpos); nia).
    rewrite Z.quot_div_nonneg by (try apply Z.div_pos; lia). rewrite Z.div_div, i64_small by lia. rewrite <-Hpow. replace (e + 2) with (e + 1 + 1) by lia.
    apply IH; [lia..|]. by replace (e + 1 + 1) with (e + 2) by lia.
  - apply runs_ok. exists e. split_and!; [done|lia..|]. rewrite Hpow. apply Z.nle_gt. intros Hc. apply (Z.div_le_lower_bound n (1024 ^ (e + 1)) 1024) in Hc; lia.
Qed.

(** ** Specification, over the objects of the graph *)

Section Spec.
Context (g : ObjectGraph) (s : RetainedSnapshot).

(** The retained size of a reachable object. *)
Definition kept (i : Z) : Z := get (retained s) (get (s_dfnum s) i).
Definition toplevel (i : Z) : Prop := reachable g i ∧ ∀ d, dominates g d i → d = i.
(** [j] is immediately dominated by [i], and no such object keeps more. *)
Definition below (i j : Z) : Prop := reachable g j ∧ immediate g j i.
Definition largest_child (i j : Z) : Prop := below i j ∧ ∀ k, below i k → kept k <= kept j.
Definition dominant (i j : Z) : bool := negb (flt (of_Z (kept j)) (fmul accumulationRatio (of_Z (kept i)))).
(** The memory of [i] accumulates at [k], [n] levels down. *)
Inductive accumulates : Z → Z → Z → Prop :=
| acc_stop i : (∀ j, largest_child i j → dominant i j = false) → accumulates i i 0
| acc_step i j k n : largest_child i j → dominant i j = true → accumulates j k n → accumulates i k (n + 1).
Definition point_of (j : Z) (acc : AccumulationPoint) : Prop :=
  ID g j = Ok (ap_ID acc) ∧ DisplayName g j = Ok (ap_ClassName acc) ∧ ap_RetainedBytes acc = kept j ∧ ap_PercentOfHeap acc = percentOf s (kept j) ∧
  ∃ L, lists L (below j) ∧ DirectChildren acc = len L.
(** A shortest path from a root, with the reasons why its first object is one. *)
Definition shortest_path (j : Z) (p : RootPath) : Prop :=
  ∃ r l, root_path g (r :: l) j ∧ Forall2 (step_of g) (r :: l) (Steps p) ∧ Roots_ p = filter (λ x, Object x = r) (gcRoots g) ∧
    ∀ l', root_path g l' j → len (r :: l) <= len l'.

Definition object_suspect (i : Z) (ls : LeakSuspect) : Prop :=
  ls_Kind ls = LeakSuspectObject ∧ ID g i = Ok (ls_ID ls) ∧ DisplayName g i = Ok (ls_ClassName ls) ∧ ls_Instances ls = 1 ∧
  ls_RetainedBytes ls = kept i ∧ ls_PercentOfHeap ls = percentOf s (kept i) ∧
  ∃ j acc p, Accumulation ls = Some acc ∧ PathToRoot ls = Some p ∧ accumulates i j (Depth acc) ∧ point_of j acc ∧ shortest_path j p.
(** The instances of class [c] that are counted together. *)
Definition member (threshold c i : Z) : Prop := toplevel i ∧ kept i < threshold ∧ classObjOf g !! i = None ∧ get (class g) i = c.
Definition class_suspect (threshold c : Z) (ls : LeakSuspect) : Prop :=
  ls_Kind ls = LeakSuspectClass ∧ ls_ClassName ls = get (classNames g) c ∧ ls_ID ls = 0 ∧
  ∃ L j p, lists L (member threshold c) ∧ ls_Instances ls = len L ∧ ls_RetainedBytes ls = i64 (sum_over kept L) ∧
    j ∈ L ∧ (∀ k, k ∈ L → kept k <= kept j) ∧ PathToRoot ls = Some p ∧ shortest_path j p.
Definition suspects_ok (threshold maxSuspects : Z) (out : list LeakSuspect) : Prop :=
  ∃ objs os cls cs sorted,
    lists objs (λ i, toplevel i ∧ threshold <= kept i) ∧ Forall2 object_suspect objs os ∧
    lists cls (λ c, ∃ L, lists L (member threshold c) ∧ 1 < len L ∧ threshold <= i64 (sum_over kept L)) ∧ Forall2 (class_suspect threshold) cls cs ∧
    sorted ≡ₚ os ++ cs ∧ StronglySorted (λ x y, suspectLess y x = false) sorted ∧ out = take (Z.to_nat maxSuspects) sorted.
End Spec.

Lemma root_path_prefix g l v x : root_path g l v → x ∈ l → x = v ∨ ∃ l', root_path g l' x ∧ (length l' < length l)%nat.
Proof.
  induction 1 as [r Hr|l u v Hl IH Hv]; [left; by apply list_elem_of_singleton|]. rewrite length_app. cbn. intros [Hx|Hx]%elem_of_app; [right|left; by apply list_elem_of_singleton].
  destruct (IH Hx) as [->|(l' & ? & ?)]; [exists l|exists l']; split; done || lia.
Qed.
Lemma dominates_antisym g a b : reachable g a → dominates g a b → dominates g b a → a = b.
Proof.
  intros (l & Hl)%reachable_path Hab Hba. remember (length l) as k eqn:Ek. revert l Hl Ek. induction k as [k IH] using lt_wf_ind. intros l Hl ->.
  destruct (root_path_prefix g l a b Hl (Hba l Hl)) as [|(l1 & H1 & L1)]; [done|]. destruct (root_path_prefix g l1 b a H1 (Hab l1 H1)) as [|(l2 & H2 & L2)]; [done|].
  apply (IH (length l2) ltac:(lia) l2 H2 eq_refl).
Qed.

Section Snapshot.
Context (g : ObjectGraph) (G : graph_ok g) (s : RetainedSnapshot) (S : snapshot_ok g s).
Local Abbreviation m := (len (s_vertex s)).
Local Abbreviation obj := (get (s_vertex s)).
Local Abbreviation num := (get (s_dfnum s)).
Local Abbreviation idom := (get (s_idom s)).
Local Abbreviation kept := (kept s).

Lemma node_facts d : 0 < d < m → reachable g (obj d) ∧ 0 <= obj d < Len g ∧ num (obj d) = d ∧ kept (obj d) = get (retained s) d ∧ i64 (get (retained s) d) = get (retained s) d.
Proof.
  intros Hd. destruct (so_vertex _ _ S) as (_ & Hl & Hv). destruct (Hv d Hd) as [Hr Hn]. pose proof (reachable_range g G _ Hr) as Hi. unfold LeakFacts.kept. rewrite Hn.
  split_and!; [done|lia..|done|done|]. destruct (so_retained _ _ S _ Hi) as (L & _ & HL). unfold Retained in HL.
  destruct (so_numbers _ _ S) as [Hnl _]. rewrite idx_get in HL by lia. cbn [mbind outcome_bind] in HL. rewrite Hn, (proj2 (Z.ltb_lt _ _)), idx_get in HL by lia.
  injection HL as ->. apply i64_small, i64_range.
Qed.
Lemma object_node i : reachable g i → 0 < num i < m ∧ obj (num i) = i.
Proof. destruct (so_numbers _ _ S) as [_ Hn]. apply Hn. Qed.
Lemma dom_case d : 0 < d < m → (idom d ≠ 0 ∧ immediate g (obj d) (obj (idom d))) ∨ (idom d = 0 ∧ toplevel g (obj d)).
Proof.
  intros Hd. destruct (node_facts d Hd) as (Hr & Hi & Hn & _). destruct (so_tree _ _ S) as (_ & Hil & Hir). pose proof (Hir d Hd) as Hp.
  destruct (so_numbers _ _ S) as [Hnl _]. pose proof (so_idom _ _ S (obj d) Hi) as Hc. unfold ImmediateDominator in Hc.
  rewrite idx_get in Hc by lia. cbn [mbind outcome_bind] in Hc. rewrite Hn, (proj2 (Z.leb_gt _ _)), idx_get in Hc by lia. cbn [mbind outcome_bind] in Hc.
  destruct (Z.eqb_spec (idom d) 0) as [H0|H0].
  - right. split; [done|]. destruct Hc as [(j & _ & _ & Hj)|[Hu _]]; [done|]. split; [done|]. by apply Hu.
  - left. split; [done|]. rewrite idx_get in Hc by lia. cbn [mbind outcome_bind] in Hc. destruct Hc as [(j & _ & Him & Hj)|[_ Hj]]; [|done]. by injection Hj as <-.
Qed.
Lemma immediate_unique j a b : reachable g j → immediate g j a → immediate g j b → a = b.
Proof.
  intros Hj (A1 & A2 & A3) (B1 & B2 & B3). pose proof (A3 b B1 B2) as Hba. pose proof (B3 a A1 A2) as Hab.
  apply (dominates_antisym g); [|done..]. by apply (dominates_reachable g a j).
Qed.
Lemma below_idom d c : 0 < d < m → 0 < c < m → below g (obj d) (obj c) ↔ idom c = d.
Proof.
  intros Hd Hc. destruct (node_facts c Hc) as (Hr & _). destruct (node_facts d Hd) as (_ & _ & Hn & _). destruct (dom_case c Hc) as [[H0 Him]|[H0 [_ Ht]]].
  - destruct (so_tree _ _ S) as (_ & _ & Hir). pose proof (Hir c Hc). destruct (node_facts (idom c)) as (_ & _ & Hn' & _); [lia|]. split.
    + intros [_ Him']. rewrite <-Hn, <-Hn'. f_equal. by apply (immediate_unique (obj c)).
    + intros <-. done.
  - split; [|lia]. intros [_ (H1 & H2 & _)]. by apply Ht in H1.
Qed.
Lemma toplevel_idom c : 0 < c < m → toplevel g (obj c) ↔ idom c = 0.
Proof.
  intros Hc. destruct (dom_case c Hc) as [[H0 (H1 & H2 & _)]|[H0 Ht]]; [|done]. split; [|done]. intros [_ Ht]. by apply Ht in H1.
Qed.
Lemma childrenOf_spec d : 0 <= d < m → runs (childrenOf s d) (λ cs, NoDup cs ∧ (∀ c, c ∈ cs ↔ 0 < c < m ∧ idom c = d) ∧
  len cs = get (childStart s) (d + 1) - get (childStart s) d).
Proof.
  intros Hd. destruct (so_tree _ _ S) as ([T1 T2 T3 T4 T5] & _ & _). destruct (T2 d Hd) as [H1 H2]. unfold childrenOf. do 2 (apply runs_bind, runs_idx; [lia|]).
  apply runs_slice; [lia..|]. rewrite len_sub by lia. split_and!; [| |lia].
  - apply NoDup_get. rewrite len_sub by lia. intros i j Hi Hj. rewrite !get_sub by lia. intros He. apply T5 in He; lia.
  - intros c. rewrite elem_of_get, len_sub by lia. split.
    + intros (i & Hi & <-). rewrite get_sub by lia. apply T3; lia.
    + intros [Hc He]. destruct (T4 c Hc) as (k & Hk & <-). rewrite He in Hk. exists (k - get (childStart s) d). split; [lia|]. rewrite get_sub by lia. f_equal. lia.
Qed.
(** Nodes as objects. *)
Lemma children_objects d cs : 0 < d < m → NoDup cs → (∀ c, c ∈ cs ↔ 0 < c < m ∧ idom c = d) → lists (obj <$> cs) (below g (obj d)).
Proof.
  intros Hd Hn Hcs. split.
  - apply NoDup_fmap_2_strong; [|done]. intros x y Hx%Hcs Hy%Hcs He. destruct (node_facts x) as (_ & _ & <- & _); [tauto|]. destruct (node_facts y) as (_ & _ & <- & _); [tauto|]. by rewrite He.
  - intros j. rewrite list_elem_of_fmap. split.
    + intros (c & -> & [Hc He]%Hcs). by apply below_idom.
    + intros Hb. pose proof Hb as [Hr _]. destruct (object_node j Hr) as [Hj Hjo]. exists (num j). split; [done|]. apply Hcs. split; [done|]. apply below_idom; [done..|]. by rewrite Hjo.
Qed.

(** *** The accumulation point *)

Lemma retained_len : len (retained s) = m.
Proof. by destruct (so_vertex _ _ S) as (_ & ? & _). Qed.
Lemma best_spec cs : (∀ c, c ∈ cs → 0 < c < m) → runs (for_each cs (bestStep s) (-1)) (λ best,
  (cs = [] ∧ best = -1) ∨ (best ∈ cs ∧ ∀ c, c ∈ cs → get (retained s) c <= get (retained s) best)).
Proof.
  intros Hcs. pose proof retained_len. eapply runs_mono; [apply (runs_for_each (λ d best, (d = [] ∧ best = -1) ∨ (best ∈ d ∧ ∀ c, c ∈ d → get (retained s) c <= get (retained s) best)))|done].
  - by left.
  - intros d c r best Hd Hinv. assert (0 < c < m) as Hc by (apply Hcs; rewrite Hd; set_solver). unfold bestStep. apply runs_if; intros Hb; to_prop.
    + destruct Hinv as [[-> _]|[Hin _]].
      * apply runs_ok. right. split; [by left|]. intros x Hx. by apply list_elem_of_singleton in Hx as ->.
      * assert (0 < best < m) by (apply Hcs; rewrite Hd; set_solver). lia.
    + destruct Hinv as [[_ ?]|[Hin Hmax]]; [done|]. assert (0 < best < m) by (apply Hcs; rewrite Hd; set_solver).
      do 2 (apply runs_bind, runs_idx; [lia|]). apply runs_ok. right. destruct (Z.ltb_spec (get (retained s) best) (get (retained s) c)).
      * split; [set_solver|]. intros x [Hx| ->%list_elem_of_singleton]%elem_of_app; [|done]. specialize (Hmax x Hx). lia.
      * split; [set_solver|]. intros x [Hx| ->%list_elem_of_singleton]%elem_of_app; [by apply Hmax|lia].
Qed.
Lemma descend_spec : ∀ fuel d depth, 0 < d < m → m - d <= Z.of_nat fuel →
  runs (descend fuel s d depth) (λ r, 0 < r.1 < m ∧ depth <= r.2 ∧ accumulates g s (obj d) (obj r.1) (r.2 - depth)).
Proof.
  pose proof retained_len. induction fuel as [|fuel IH]; intros d depth Hd Hf; [lia|]. cbn [descend].
  apply runs_bind. eapply runs_mono; [apply childrenOf_spec; lia|]. intros cs (Hn & Hcs & _). pose proof (children_objects d cs Hd Hn Hcs) as [_ Hbelow].
  apply runs_bind. eapply runs_mono; [apply best_spec; intros c Hc%Hcs; tauto|]. cbv beta. intros best Hbest.
  destruct (node_facts d Hd) as (_ & _ & _ & Hkd & _). assert (∀ best', best' ∈ cs → (∀ c, c ∈ cs → get (retained s) c <= get (retained s) best') → largest_child g s (obj d) (obj best')) as Hlc.
  { intros b Hb Hmax. split; [apply Hbelow, list_elem_of_fmap; eauto|]. intros k (c & -> & Hc)%Hbelow%list_elem_of_fmap.
    destruct (node_facts c) as (_ & _ & _ & -> & _); [apply Hcs in Hc; tauto|]. destruct (node_facts b) as (_ & _ & _ & -> & _); [apply Hcs in Hb; tauto|]. auto. }
  apply runs_if; intros Hb; to_prop.
  { apply runs_ok. cbn. rewrite Z.sub_diag. split_and!; [lia..|]. apply acc_stop. intros j [Hj _]. apply Hbelow, list_elem_of_fmap in Hj as (c & _ & Hc).
    destruct Hbest as [[-> _]|[Hin _]]; [by apply not_elem_of_nil in Hc|]. apply Hcs in Hin. lia. }
  destruct Hbest as [[_ ?]|[Hin Hmax]]; [done|]. pose proof (proj1 (Hcs best) Hin) as [Hbr Hbi]. specialize (Hlc best Hin Hmax).
  destruct (node_facts best Hbr) as (_ & _ & _ & Hkb & _). do 2 (apply runs_bind, runs_idx; [lia|]).
  assert (dominant s (obj d) (obj best) = negb (flt (of_Z (get (retained s) best)) (fmul accumulationRatio (of_Z (get (retained s) d))))) as Hdom by (unfold dominant; by rewrite Hkb, Hkd).
  apply runs_if; intros Hfl; rewrite Hfl in Hdom.
  - apply runs_ok. cbn. rewrite Z.sub_diag. split_and!; [lia..|]. apply acc_stop. intros j [Hj Hjm]. unfold dominant in *.
    destruct Hlc as [Hb1 Hb2]. assert (kept j = kept (obj best)) as Hk by (pose proof (Hjm _ Hb1); pose proof (Hb2 _ Hj); lia). by rewrite Hk.
  - destruct (so_tree _ _ S) as (_ & _ & Hir). pose proof (Hir best Hbr). eapply runs_mono; [apply IH; lia|]. intros [k dep] (Hk & Hdep & Hacc). cbn [fst snd] in *.
    split_and!; [lia..|]. replace (dep - depth) with (dep - (depth + 1) + 1) by lia. eapply acc_step; [exact Hlc|done|done].
Qed.

(** The graph a path query leaves. *)
Definition current (g' : ObjectGraph) : Prop := ∃ c, g' = with_cache g c ∧ graph_ok g'.

Lemma accumulationPoint_spec g' d : current g' → 0 < d < m → runs (accumulationPoint s g' d) (λ r, 0 < r.2 < m ∧ accumulates g s (obj d) (obj r.2) (Depth r.1) ∧ point_of g s (obj r.2) r.1 ∧
  ap_RetainedBytes r.1 < 2 ^ 63).
Proof.
  intros (c & -> & _) Hd. unfold accumulationPoint. apply runs_bind. eapply runs_mono; [apply descend_spec; [done|unfold len; lia]|].
  intros [d' depth] (Hd' & _ & Hacc). cbn [fst snd] in *. rewrite Z.sub_0_r in Hacc. destruct (node_facts d' Hd') as (Hr & Hi & Hn & Hk & Hw).
  destruct (display_ok g (obj d') G Hi) as (name & Hname). pose proof retained_len. destruct (so_tree _ _ S) as ([T1 T2 _ _ _] & _ & _).
  apply runs_bind, runs_idx; [lia|]. apply runs_bind, runs_idx; [exact Hi|]. apply runs_bind. change (DisplayName (with_cache g c) (obj d')) with (DisplayName g (obj d')). rewrite Hname. apply runs_ok.
  apply runs_bind, runs_idx; [lia|]. do 2 (apply runs_bind, runs_idx; [lia|]). apply runs_ok. cbn -[i32 Z.pow]. split_and!; [lia..|done| |].
  - split_and!; [unfold ID; by rewrite idx_get|done|by rewrite Hk|by rewrite Hk|]. destruct (childrenOf_spec d' ltac:(lia)) as (cs & _ & Hcn & Hcs & Hlen).
    exists (obj <$> cs). split; [by apply children_objects|]. unfold len at 1. rewrite length_fmap. fold (len cs). rewrite Hlen. apply i32_small.
    rewrite <-Hlen. pose proof (range_length cs m Hcn ltac:(intros x Hx%Hcs; lia) ltac:(lia)). pose proof (go_len _ G). destruct (so_bytes _ _ S) as (L & [HL HLr] & _ & HLl).
    destruct (so_vertex _ _ S) as (Hm & _). pose proof (range_length L (Len g) HL ltac:(intros x Hx%HLr; by apply (reachable_range g G)) (len_nonneg _)).
    unfold maxGraphObjects, len in *. lia.
  - rewrite <-Hw. pose proof (i64_range (get (retained s) d')). lia.
Qed.

(** *** Paths and suspects *)

Lemma shortestPath_spec g' d : current g' → 0 < d < m → runs (shortestPath s g' d) (λ r, current r.1 ∧ ∃ p, r.2 = Some p ∧ shortest_path g (obj d) p).
Proof.
  intros (c & -> & G') Hd. destruct (node_facts d Hd) as (Hr & Hi & _). unfold shortestPath. apply runs_bind, runs_idx; [lia|]. apply runs_bind.
  eapply runs_mono; [apply (PathsToGCRoots_spec (with_cache g c) [obj d] 1 G'); [by intros t ->%list_elem_of_singleton|lia]|].
  intros [g'' ps] (c' & Hg & G'' & Hps%paths_ok_cache). cbn [fst snd] in *. subst g''. apply runs_ok. cbn [fst snd].
  split; [exists c'; by split|]. destruct (reachable_path g _ Hr) as (l0 & Hl0).
  assert (∀ l', root_path g l' (obj d) → ∃ p ps', ps = p :: ps' ∧ len (Steps p) <= len l') as Hfirst.
  { intros l' Hl'. eapply (paths_ok_first g G [obj d] 1); [lia|done|by left|done]. }
  destruct (Hfirst l0 Hl0) as (p & ps' & -> & _). exists p. split; [done|]. destruct Hps as (vs & _ & Hroot & Hp & _). inversion Hp as [|v ? vs' ? (Hrs & l & Hl & _ & Hs)]; subst.
  destruct (free_head g _ v l Hl) as [l1 ->]. destruct (free_root_path g [obj d] v (v :: l1) Hl []) as (t & ->%list_elem_of_singleton & Hpath); [constructor; apply Hroot; by left|].
  exists v, l1. split_and!; [done..|]. intros l' Hl'. destruct (Hfirst l' Hl') as (? & ? & [= <- <-] & Hlen). apply Forall2_length in Hs. unfold len in *. lia.
Qed.

Lemma describe_ok ls : ls_RetainedBytes ls < 2 ^ 63 → (∀ acc, Accumulation ls = Some acc → ap_RetainedBytes acc < 2 ^ 63) → ∃ text, describeObjectSuspect ls = Ok text.
Proof.
  intros Hr Ha. unfold describeObjectSuspect. destruct (formatBytes_spec _ Hr) as (t1 & -> & _). cbn [mbind outcome_bind]. destruct (Accumulation ls) as [acc|]; [|cbn; eauto].
  destruct (formatBytes_spec _ (Ha acc eq_refl)) as (t2 & E & _). destruct (0 <? Depth acc); [rewrite E; cbn; eauto|]. destruct (1 <? _); cbn; eauto.
Qed.
Lemma objectSuspect_spec g' d : current g' → 0 < d < m → runs (objectSuspect s g' d) (λ r, current r.1 ∧ object_suspect g s (obj d) r.2).
Proof.
  intros Hc Hd. destruct (node_facts d Hd) as (Hr & Hi & Hn & Hk & Hw). unfold objectSuspect. pose proof retained_len. apply runs_bind, runs_idx; [lia|].
  apply runs_bind. eapply runs_mono; [by apply accumulationPoint_spec|]. intros [acc accD] (Had & Hacc & Hpt & Hab). cbn [fst snd] in *.
  destruct (display_ok g (obj d) G Hi) as (name & Hname). destruct Hc as (c & -> & G').
  apply runs_bind. change (DisplayName (with_cache g c) (obj d)) with (DisplayName g (obj d)). rewrite Hname. apply runs_ok.
  apply runs_bind, runs_idx; [exact Hi|]. apply runs_bind, runs_idx; [lia|]. apply runs_bind. eapply runs_mono; [apply (shortestPath_spec (with_cache g c) accD); [exists c; by split|done]|].
  intros [g'' path] (Hc' & p & Hp & Hshort). cbn [fst snd] in *. subst path. apply runs_bind. edestruct describe_ok as (text & Htext); [| |rewrite Htext; apply runs_ok, runs_ok].
  - cbn -[Z.pow]. rewrite <-Hw. pose proof (i64_range (get (retained s) d)). lia.
  - cbn. by intros ? [= <-].
  - cbn. split; [done|]. split_and!; cbn; [done|unfold ID; by rewrite idx_get|done|done|by rewrite Hk|by rewrite Hk|]. exists (obj accD), acc, p. done.
Qed.

(** A group describes the nodes [M], in the order in which they were added. *)
Definition group_ok (M : list Z) (grp : classGroup) : Prop :=
  grp_count grp = i64 (len M) ∧ grp_retained grp = i64 (sum_over (get (retained s)) M) ∧ largest grp ∈ M ∧
  ∀ e, e ∈ M → get (retained s) e <= get (retained s) (largest grp).
Lemma groupAdd_spec M grp d : (∀ e, e ∈ M → 0 < e < m) → 0 < d < m →
  (M = [] ∧ grp = {| grp_count := 0; grp_retained := 0; largest := d |}) ∨ group_ok M grp →
  runs (groupAdd s grp d) (group_ok (M ++ [d])).
Proof.
  intros HM Hd Hg. pose proof retained_len. unfold groupAdd. assert (0 < largest grp < m) as Hl by (destruct Hg as [[_ ->]|(_ & _ & ? & _)]; [done|auto]).
  do 2 (apply runs_bind, runs_idx; [lia|]). apply runs_ok. split_and!; cbn -[i64].
  - rewrite len_snoc. destruct Hg as [[-> ->]|(-> & _)]; [done|]. by rewrite i64_add.
  - rewrite sum_over_app. cbn -[i64]. rewrite Z.add_0_r. destruct Hg as [[-> ->]|(_ & -> & _)]; [done|]. by rewrite i64_add.
  - destruct (Z.ltb_spec (get (retained s) (largest grp)) (get (retained s) d)); [set_solver|]. destruct Hg as [[-> ->]|(_ & _ & ? & _)]; set_solver.
  - intros e He. destruct Hg as [[-> ->]|(_ & _ & _ & Hmax)]; cbn -[i64] in *.
    + apply list_elem_of_singleton in He as ->. rewrite Z.ltb_irrefl. done.
    + apply elem_of_app in He as [He| ->%list_elem_of_singleton]; destruct (Z.ltb_spec (get (retained s) (largest grp)) (get (retained s) d)); try lia; specialize (Hmax _ He); lia.
Qed.

Section Threshold.
Context (thr : Z).
(** The nodes of [d] that are counted for class [c]. *)
Definition grouped (c : Z) (d : list Z) : list Z :=
  filter (λ e, get (retained s) e < thr ∧ classObjOf g !! obj e = None ∧ get (class g) (obj e) = c) d.
Definition leak_inv (d : list Z) (st : ObjectGraph * list LeakSuspect * gmap Z classGroup) : Prop :=
  current st.1.1 ∧ Forall2 (λ e ls, object_suspect g s (obj e) ls) (filter (λ e, thr <= get (retained s) e) d) st.1.2 ∧
  ∀ c, match st.2 !! c with None => grouped c d = [] | Some grp => group_ok (grouped c d) grp end.

Lemma grouped_snoc c d e : grouped c (d ++ [e]) = grouped c d ++ grouped c [e].
Proof. apply filter_app. Qed.
Lemma grouped_none c e : ¬ (get (retained s) e < thr ∧ classObjOf g !! obj e = None ∧ get (class g) (obj e) = c) → grouped c [e] = [].
Proof. intros. unfold grouped. by rewrite filter_cons, decide_False by done. Qed.

Lemma leakStep_spec d e st : (∀ x, x ∈ d → 0 < x < m) → 0 < e < m → leak_inv d st → runs (leakStep s thr st e) (leak_inv (d ++ [e])).
Proof.
  intros Hd He. destruct st as [[g' suspects] groups]. intros (Hcur & Hos & Hgr). cbn [fst snd] in *. pose proof retained_len. destruct (node_facts e He) as (_ & Hi & _).
  unfold leakStep. apply runs_bind, runs_idx; [lia|]. apply runs_if; intros Hb; to_prop.
  - apply runs_bind. eapply runs_mono; [by apply objectSuspect_spec|]. intros [g'' ls] [Hc Hls]. apply runs_ok. cbn [fst snd] in *. split_and!; [done|..].
    + cbn. rewrite filter_app, filter_cons, decide_True by lia. apply Forall2_app; [done|]. by constructor.
    + intros c. cbn. rewrite grouped_snoc, grouped_none, app_nil_r by lia. apply Hgr.
  - assert (filter (λ e, thr <= get (retained s) e) (d ++ [e]) = filter (λ e, thr <= get (retained s) e) d) as Hf.
    { rewrite filter_app, filter_cons, decide_False, filter_nil, app_nil_r by lia. done. }
    destruct Hcur as (c0 & -> & G'). apply runs_bind, runs_idx; [lia|]. change (classObjOf (with_cache g c0)) with (classObjOf g).
    destruct (classObjOf g !! obj e) as [n|] eqn:Eo.
    + apply runs_ok. split_and!; [exists c0; by split|cbn; by rewrite Hf|]. intros c. cbn. rewrite grouped_snoc, grouped_none, app_nil_r; [apply Hgr|]. intros (_ & ? & _). congruence.
    + apply runs_bind. change (class (with_cache g c0)) with (class g). pose proof (go_class _ G). apply runs_idx; [lia|]. set (c := get (class g) (obj e)).
      apply runs_bind. eapply runs_mono; [apply (groupAdd_spec (grouped c d)); [intros x [_ Hx]%list_elem_of_filter; auto|done|]|].
      { specialize (Hgr c). destruct (groups !! c) as [grp|]; cbn; auto. }
      intros grp Hgrp. apply runs_ok. split_and!; [exists c0; by split|cbn; by rewrite Hf|]. intros c'. cbn. rewrite grouped_snoc. destruct (decide (c' = c)) as [->|Hne].
      * rewrite lookup_insert_eq. unfold grouped at 2. by rewrite filter_cons, decide_True, filter_nil by (split_and!; done || lia).
      * rewrite lookup_insert_ne, grouped_none, app_nil_r by (done || naive_solver). apply Hgr.
Qed.

Section Tops.
Context (tops : list Z) (Hnd : NoDup tops) (Htops : ∀ e, e ∈ tops ↔ 0 < e < m ∧ idom e = 0).

Lemma top_objects (P : Z → Prop) `{∀ e, Decision (P e)} (Q : Z → Prop) : (∀ e, 0 < e < m → P e ↔ Q (obj e)) →
  lists (obj <$> filter P tops) (λ i, toplevel g i ∧ Q i).
Proof.
  intros HPQ. split.
  - apply NoDup_fmap_2_strong; [|by apply NoDup_filter]. intros x y [_ Hx%Htops]%list_elem_of_filter [_ Hy%Htops]%list_elem_of_filter He.
    destruct (node_facts x) as (_ & _ & <- & _); [tauto|]. destruct (node_facts y) as (_ & _ & <- & _); [tauto|]. by rewrite He.
  - intros i. rewrite list_elem_of_fmap. split.
    + intros (e & -> & [HP [He H0]%Htops]%list_elem_of_filter). split; [by apply toplevel_idom|by apply HPQ].
    + intros [Ht HQ]. pose proof Ht as [Hr _]. destruct (object_node i Hr) as [Hi Ho]. exists (num i). split; [done|]. apply list_elem_of_filter.
      split; [apply HPQ; by rewrite ?Ho|]. apply Htops. split; [done|]. apply toplevel_idom; [done|]. by rewrite Ho.
Qed.
Lemma big_objects : lists (obj <$> filter (λ e, thr <= get (retained s) e) tops) (λ i, toplevel g i ∧ thr <= kept i).
Proof. apply top_objects. intros e He. destruct (node_facts e He) as (_ & _ & _ & -> & _). done. Qed.
Lemma grouped_objects c : lists (obj <$> grouped c tops) (member g s thr c).
Proof. unfold grouped, member. apply top_objects. intros e He. destruct (node_facts e He) as (_ & _ & _ & -> & _). done. Qed.
Lemma grouped_sum c : sum_over kept (obj <$> grouped c tops) = sum_over (get (retained s)) (grouped c tops).
Proof.
  rewrite sum_fmap. apply sum_over_ext. intros e [_ [He _]%Htops]%list_elem_of_filter. by destruct (node_facts e He) as (_ & _ & _ & -> & _).
Qed.
Lemma grouped_count c : i64 (len (grouped c tops)) = len (grouped c tops).
Proof.
  apply i64_small. destruct (grouped_objects c) as [Hn Hin]. pose proof (range_length _ (Len g) Hn) as Hl. rewrite length_fmap in Hl. pose proof (go_len _ G).
  assert (∀ x, x ∈ obj <$> grouped c tops → 0 <= x < Len g) as Hr by (intros x [[Hx _] _]%Hin; by apply (reachable_range g G)).
  specialize (Hl Hr (len_nonneg _)). unfold len, maxGraphObjects in *. lia.
Qed.

Lemma classSuspect_spec g' c grp : current g' → group_ok (grouped c tops) grp → runs (classSuspect s g' grp) (λ r, current r.1 ∧ class_suspect g s thr c r.2).
Proof.
  intros (c0 & -> & G') (H1 & H2 & H3 & H4). pose proof H3 as [(_ & _ & Hcls) [Hl _]%Htops]%list_elem_of_filter. destruct (node_facts (largest grp) Hl) as (Hr & Hi & Hn & Hk & Hw).
  unfold classSuspect. apply runs_bind, runs_idx; [lia|]. apply runs_bind. change (ClassName (with_cache g c0)) with (ClassName g). unfold ClassName. pose proof (go_class _ G).
  apply runs_bind, runs_idx; [lia|]. apply runs_idx; [apply (go_classes _ G), elem_of_get; exists (obj (largest grp)); split; [lia|done]|]. rewrite Hcls.
  apply runs_bind. eapply runs_mono; [apply (shortestPath_spec (with_cache g c0) (largest grp)); [exists c0; by split|done]|].
  intros [g'' path] (Hc' & p & Hp & Hshort). cbn [fst snd] in *. subst path. apply runs_bind. cbn [ls_RetainedBytes]. destruct (formatBytes_spec (grp_retained grp)) as (text & -> & _).
  { rewrite H2. pose proof (i64_range (sum_over (get (retained s)) (grouped c tops))). lia. }
  apply runs_ok, runs_ok. cbn [fst snd]. split; [done|]. split_and!; [done..|]. exists (obj <$> grouped c tops), (obj (largest grp)), p. cbn.
  split_and!; [apply grouped_objects..|rewrite H1, grouped_count; unfold len; by rewrite length_fmap|by rewrite H2, grouped_sum|apply list_elem_of_fmap; eauto| |done|done].
  intros k (e & -> & He)%list_elem_of_fmap. rewrite Hk. pose proof He as [_ [Her _]%Htops]%list_elem_of_filter. destruct (node_facts e Her) as (_ & _ & _ & -> & _). auto.
Qed.

Definition reportable (e : Z * classGroup) : Prop := 1 < grp_count e.2 ∧ thr <= grp_retained e.2.
#[local] Instance reportable_dec e : Decision (reportable e).
Proof. unfold reportable. apply _. Defined.
Lemma groups_spec entries g' os : current g' → (∀ c grp, (c, grp) ∈ entries → group_ok (grouped c tops) grp) →
  runs (for_each entries.*2 (groupStep s thr) (g', os)) (λ r, current r.1 ∧ ∃ cs, r.2 = os ++ cs ∧ Forall2 (λ e ls, class_suspect g s thr e.1 ls) (filter reportable entries) cs).
Proof.
  intros Hcur Hen. rewrite for_each_fmap. apply (runs_for_each (λ d r, current r.1 ∧ ∃ cs, r.2 = os ++ cs ∧ Forall2 (λ e ls, class_suspect g s thr e.1 ls) (filter reportable d) cs)).
  - split; [done|]. exists []. by rewrite app_nil_r.
  - intros d [c grp] r [g1 suspects] Hd (Hc1 & cs & Hs & Hf). cbn [fst snd] in *. subst suspects. unfold groupStep. rewrite filter_app.
    assert (filter reportable [(c, grp)] = if decide (reportable (c, grp)) then [(c, grp)] else []) as -> by done.
    apply runs_if; intros Hb; to_prop.
    + rewrite decide_True by (split; cbn; lia). apply runs_bind. eapply runs_mono; [apply (classSuspect_spec g1 c grp Hc1), Hen; rewrite Hd; set_solver|].
      intros [g2 ls] [Hc2 Hls]. apply runs_ok. cbn [fst snd] in *. split; [done|]. exists (cs ++ [ls]). split; [by rewrite <-app_assoc|]. apply Forall2_app; [done|]. by constructor.
    + rewrite decide_False, app_nil_r by (intros [? ?]; cbn in *; lia). apply runs_ok. cbn. split; [done|]. by exists cs.
Qed.
Lemma lists_unique L L' P : lists L P → lists L' P → L ≡ₚ L'.
Proof. intros [H1 H2] [H3 H4]. apply NoDup_Permutation; [done..|]. intros x. by rewrite H2, H4. Qed.
Lemma reported_classes (entries : list (Z * classGroup)) (groups : gmap Z classGroup) : NoDup entries.*1 → (∀ c grp, (c, grp) ∈ entries ↔ groups !! c = Some grp) →
  (∀ c, match groups !! c with None => grouped c tops = [] | Some grp => group_ok (grouped c tops) grp end) →
  lists (filter reportable entries).*1 (λ c, ∃ L, lists L (member g s thr c) ∧ 1 < len L ∧ thr <= i64 (sum_over kept L)).
Proof.
  intros Hn Hen Hgr. assert (∀ c grp, groups !! c = Some grp → reportable (c, grp) ↔ ∃ L, lists L (member g s thr c) ∧ 1 < len L ∧ thr <= i64 (sum_over kept L)) as Hrep.
  { intros c grp Hg. specialize (Hgr c). rewrite Hg in Hgr. destruct Hgr as (H1 & H2 & _). unfold reportable. cbn. rewrite H1, H2, grouped_count. split.
    - intros [? ?]. exists (obj <$> grouped c tops). rewrite grouped_sum. unfold len in *. rewrite length_fmap. split_and!; [apply grouped_objects..|done|done].
    - intros (L & HL & Hl & Hs). pose proof (lists_unique _ _ _ HL (grouped_objects c)) as Hp. rewrite (sum_over_perm _ _ _ Hp), grouped_sum in Hs.
      unfold len in Hl. rewrite Hp, length_fmap in Hl. done. }
  split.
  - eapply sublist_NoDup; [exact Hn|]. apply fmap_sublist, sublist_filter.
  - intros c. rewrite list_elem_of_fmap. split.
    + intros ([c' grp] & -> & [Hr Hin%Hen]%list_elem_of_filter). by apply (Hrep c' grp).
    + intros HL. destruct (groups !! c) as [grp|] eqn:E.
      * exists (c, grp). split; [done|]. apply list_elem_of_filter. split; [by apply Hrep|by apply Hen].
      * specialize (Hgr c). rewrite E in Hgr. destruct HL as (L & HL & Hl & _). pose proof (lists_unique _ _ _ HL (grouped_objects c)) as Hp. rewrite Hgr in Hp. cbn in Hp.
        apply Permutation_nil_r in Hp. subst L. unfold len in Hl. cbn in Hl. lia.
Qed.
End Tops.
End Threshold.
End Snapshot.

Lemma suspectLess_weak : strict_weak suspectLess.
Proof.
  pose proof (strict_weak_lex (λ x y, ls_RetainedBytes y <? ls_RetainedBytes x) _ ltac:(split; intros *; rewrite ?Z.ltb_lt, ?Z.ltb_ge; lia)
    (strict_weak_lex _ _ (strict_weak_key ls_ClassName _ strict_weak_string) (strict_weak_key ls_ID _ strict_weak_Z))) as [Ha Ht].
  assert (∀ x y, suspectLess x y = (ls_RetainedBytes y <? ls_RetainedBytes x) || (negb (ls_RetainedBytes x <? ls_RetainedBytes y) &&
    (String.ltb (ls_ClassName x) (ls_ClassName y) || (negb (String.ltb (ls_ClassName y) (ls_ClassName x)) && (ls_ID x <? ls_ID y))))) as HE.
  { intros x y. unfold suspectLess. destruct (Z.eqb_spec (ls_RetainedBytes x) (ls_RetainedBytes y)) as [->|Hne]; cbn [negb].
    - rewrite Z.ltb_irrefl. cbn. case_bool_decide as Hn; cbn.
      + rewrite Hn, string_ltb_irrefl. done.
      + destruct (String.ltb (ls_ClassName x) (ls_ClassName y)) eqn:E; [done|]. cbn. destruct (String.ltb (ls_ClassName y) (ls_ClassName x)) eqn:E'; [done|]. exfalso. apply Hn. by apply ltb_antisym.
    - destruct (Z.ltb_spec (ls_RetainedBytes y) (ls_RetainedBytes x)); [done|]. rewrite (proj2 (Z.ltb_lt _ _)) by lia. done. }
  split; intros *; rewrite !HE; [apply Ha|apply Ht].
Qed.

Lemma LeakSuspects_spec {R : GoRuntime} {HR : RuntimeOk R} other g s opts : graph_ok g → snapshot_ok g s →
  runs (LeakSuspects other s opts) (λ r, (∃ c, r.1 = with_cache g c) ∧ graph_ok r.1 ∧
    lr_TotalShallowBytes r.2 = TotalShallowBytes s ∧ lr_ReachableObjects r.2 = ReachableObjects s ∧ lr_ReachableBytes r.2 = ReachableBytes s ∧
    lr_ThresholdPercent r.2 = ThresholdPercent (with_defaults opts) ∧
    (ReachableBytes s <= 0 → lr_Suspects r.2 = []) ∧
    (0 < ReachableBytes s → suspects_ok g s (leakThreshold other s (with_defaults opts)) (MaxSuspects (with_defaults opts)) (lr_Suspects r.2))).
Proof.
  intros G S. unfold LeakSuspects. pose proof (so_graph _ _ S) as Hg. apply runs_if; intros Hb; to_prop.
  { apply runs_ok. cbn. rewrite Hg. split; [exists (predCache g); by rewrite with_cache_same|]. split_and!; [done..|lia]. }
  destruct (so_vertex _ _ S) as (Hm & _). destruct (so_bytes _ _ S) as (L & _ & _ & HL). pose proof (len_nonneg L).
  set (thr := leakThreshold other s (with_defaults opts)). apply runs_bind. eapply runs_mono; [apply (childrenOf_spec g s S 0); lia|].
  intros tops (Hn & Ht & _). apply runs_bind. rewrite Hg.
  eapply runs_mono; [apply (runs_for_each (leak_inv g s thr) tops); [|intros d e r st Hd Hinv; eapply leakStep_spec; try done]|].
  { split_and!; [exists (predCache g); by rewrite with_cache_same|constructor|done]. }
  { intros x Hx. apply Ht. rewrite Hd. set_solver. }
  { apply Ht. rewrite Hd. set_solver. }
  intros [[g1 os] groups] (Hc1 & Hos & Hgr). cbn [fst snd] in *. apply runs_bind. 
  eapply runs_mono; [apply (groups_spec g G s S thr tops Hn Ht (map_entries groups) g1 os Hc1)|].
  { intros c grp Hin%elem_of_entries. specialize (Hgr c). by rewrite Hin in Hgr. }
  intros [g2 suspects] ((c2 & Hg2 & G2) & cs & Hs2 & Hcs). cbn [fst snd] in *. subst g2 suspects. set (sorted := sort_slice suspectLess (os ++ cs)).
  assert (0 < MaxSuspects (with_defaults opts)) as Hmax by (cbn; destruct (Z.leb_spec (MaxSuspects opts) 0); [done|lia]).
  eapply runs_bind, runs_mono with (P := λ r, r = take (Z.to_nat (MaxSuspects (with_defaults opts))) sorted).
  { apply runs_if; intros Hlen; to_prop; [apply runs_slice; [lia..|]; unfold sub; by rewrite Z.sub_0_r|]. apply runs_ok. rewrite take_ge; [done|]. unfold len in Hlen. lia. }
  intros out ->. apply runs_ok. cbn -[leakThreshold with_defaults]. split_and!; [by exists c2|done..|lia|]. intros _.
  exists ((get (s_vertex s)) <$> filter (λ e, thr <= get (retained s) e) tops), os, (filter (reportable thr) (map_entries groups)).*1, cs, sorted. split_and!.
  - apply (big_objects g G s S thr tops Hn Ht).
  - by apply Forall2_fmap_l.
  - apply (reported_classes g G s S thr tops Hn Ht _ groups); [apply entries_NoDup|intros; apply elem_of_entries|done].
  - by apply Forall2_fmap_l.
  - apply sort_perm.
  - apply sort_strongly_sorted, suspectLess_weak.
  - done.
Qed.
End LeakFacts.
