(* ===== verification/HeapCompare.v ===== *)
(** * Comparing heap snapshots

    [src/internal/heap/analysis.go] and the part of
    [src/internal/heap/histogram.go] that uses it: the changes between two
    snapshots by record, and the rankings of the largest records and of the
    largest growth.  A value of the interfaces [Record] and [Snapshot] is the
    record of the results of its methods, all of them pure. *)

From S2P Require Import Prelude GoStrings GoRuntime HprofHistogram.

Module Compare.
Export Histogram.

(** ** The interfaces *)

Definition RuntimeJVM : string := "jvm".
Record HRecord := { Identity : string; DisplayName : string; LiveCount : Z; ShallowBytes : Z }.
Record Snapshot := { Runtime : string; Source : string; Records : list HRecord; TotalShallowBytes : Z }.

Record Delta := {
  d_Identity : string; d_DisplayName : string; d_Runtime : string;
  BeforeCount : Z; AfterCount : Z; DeltaCount : Z; BeforeBytes : Z; AfterBytes : Z; DeltaBytes : Z }.
Record AnalysisSuspect := {
  as_Identity : string; as_Name : string; as_Runtime : string; as_Reason : string; as_Count : Z; as_Bytes : Z; as_DeltaCount : Z; as_DeltaBytes : Z }.

(** ** The analyzer *)

(** [p := byID[id]; p.before = r; byID[id] = p] and the same for [after] *)
Definition setBefore (byID : gmap string (option HRecord * option HRecord)) (r : HRecord) : gmap string (option HRecord * option HRecord) :=
  let p := default (None, None) (byID !! Identity r) in <[Identity r := (Some r, p.2)]> byID.
Definition setAfter (byID : gmap string (option HRecord * option HRecord)) (r : HRecord) : gmap string (option HRecord * option HRecord) :=
  let p := default (None, None) (byID !! Identity r) in <[Identity r := (p.1, Some r)]> byID.
Definition delta (runtime : string) (id : string) (p : option HRecord * option HRecord) : Delta :=
  let bc := default 0 (LiveCount <$> p.1) in let bb := default 0 (ShallowBytes <$> p.1) in
  let ac := default 0 (LiveCount <$> p.2) in let ab := default 0 (ShallowBytes <$> p.2) in
  {| d_Identity := id; d_Runtime := runtime;
     d_DisplayName := match p.2 with Some r => DisplayName r | None => default "" (DisplayName <$> p.1) end;
     BeforeCount := bc; AfterCount := ac; DeltaCount := i64 (ac - bc); BeforeBytes := bb; AfterBytes := ab; DeltaBytes := i64 (ab - bb) |}.
Definition deltaLess (x y : Delta) : bool :=
  if negb (DeltaBytes x =? DeltaBytes y) then DeltaBytes y <? DeltaBytes x else
  if negb (AfterBytes x =? AfterBytes y) then AfterBytes y <? AfterBytes x else
  String.ltb (d_Identity x) (d_Identity y).
Definition recordLess (x y : HRecord) : bool :=
  if negb (ShallowBytes x =? ShallowBytes y) then ShallowBytes y <? ShallowBytes x else String.ltb (Identity x) (Identity y).
Definition largest (runtime : string) (r : HRecord) : AnalysisSuspect :=
  {| as_Identity := Identity r; as_Name := DisplayName r; as_Runtime := runtime; as_Reason := "largest live shallow size in heap snapshot";
     as_Count := LiveCount r; as_Bytes := ShallowBytes r; as_DeltaCount := 0; as_DeltaBytes := 0 |}.
Definition growth (d : Delta) : AnalysisSuspect :=
  {| as_Identity := d_Identity d; as_Name := d_DisplayName d; as_Runtime := d_Runtime d;
     as_Reason := "largest positive shallow-size growth between heap snapshots";
     as_Count := AfterCount d; as_Bytes := AfterBytes d; as_DeltaCount := DeltaCount d; as_DeltaBytes := DeltaBytes d |}.

(** The loop of [RankGrowth], which stops when the list is full. *)
Fixpoint growthLoop (limit : Z) (deltas : list Delta) (suspects : list AnalysisSuspect) : list AnalysisSuspect :=
  match deltas with
  | [] => suspects
  | d :: deltas =>
    if DeltaBytes d <=? 0 then growthLoop limit deltas suspects
    else if len (suspects ++ [growth d]) =? limit then suspects ++ [growth d] else growthLoop limit deltas (suspects ++ [growth d])
  end.

Section Analyzer.
Context `{GoRuntime}.

(** A nil snapshot is [None]. *)
Definition Compare (before after : option Snapshot) : outcome (list Delta) :=
  match before, after with
  | Some before, Some after =>
    let byID := fold_left setBefore (Records before) ∅ in
    let byID := fold_left setAfter (Records after) byID in
    Ok (sort_slice deltaLess ((λ '(id, p), delta (Runtime after) id p) <$> map_entries byID))
  | _, _ => Err (Errorf "compare heap snapshots: nil snapshot")
  end.
Definition RankLargest (snapshot : option Snapshot) (limit : Z) : outcome (list AnalysisSuspect) :=
  match snapshot with
  | None => Ok []
  | Some s =>
    if limit <=? 0 then Ok [] else
    let records := sort_slice recordLess (Records s) in
    records ← ((if limit <? len records then slice records 0 limit else Ok records) : outcome (list HRecord));
    Ok (List.map (largest (Runtime s)) records)
  end.
Definition RankGrowth (before after : option Snapshot) (limit : Z) : outcome (list AnalysisSuspect) :=
  if limit <=? 0 then Ok [] else
  deltas ← Compare before after;
  Ok (growthLoop limit deltas []).
End Analyzer.

(** ** Histograms as snapshots *)

Definition entryIdentity (e : ClassEntry) : string :=
  if bool_decide (Module_ e = "") then ce_ClassName e else Module_ e +:+ ":" +:+ ce_ClassName e.
Definition entryRecord (e : ClassEntry) : HRecord :=
  {| Identity := entryIdentity e; DisplayName := ce_ClassName e; LiveCount := Instances e; ShallowBytes := Bytes e |}.
Definition histogramSnapshot (h : Histogram) : Snapshot :=
  {| Runtime := RuntimeJVM; Source := "jcmd GC.class_histogram"; Records := entryRecord <$> Entries h; TotalShallowBytes := Bytes (Total h) |}.

Record HistogramDelta := {
  hd_ClassName : string; hd_BeforeCount : Z; hd_AfterCount : Z; hd_DeltaCount : Z; hd_BeforeBytes : Z; hd_AfterBytes : Z; hd_DeltaBytes : Z;
  BeforeRank : Z; AfterRank : Z; BeforeModule : string; AfterModule : string }.
Record Suspect := { s_ClassName : string; s_Reason : string; s_Instances : Z; s_Bytes : Z; s_DeltaCount : Z; s_DeltaBytes : Z }.

Definition histogramEntriesByID (h : Histogram) : gmap string ClassEntry :=
  fold_left (λ m e, <[entryIdentity e := e]> m) (Entries h) ∅.
Definition histogramDelta (before after : gmap string ClassEntry) (gd : Delta) : HistogramDelta :=
  {| hd_ClassName := d_DisplayName gd; hd_BeforeCount := BeforeCount gd; hd_AfterCount := AfterCount gd; hd_DeltaCount := DeltaCount gd;
     hd_BeforeBytes := BeforeBytes gd; hd_AfterBytes := AfterBytes gd; hd_DeltaBytes := DeltaBytes gd;
     BeforeRank := default 0 (Rank <$> (before !! d_Identity gd)); AfterRank := default 0 (Rank <$> (after !! d_Identity gd));
     BeforeModule := default "" (Module_ <$> (before !! d_Identity gd)); AfterModule := default "" (Module_ <$> (after !! d_Identity gd)) |}.

Section Histograms.
Context `{GoRuntime}.

Definition CompareHistograms (before after : Histogram) : outcome (list HistogramDelta) :=
  match Compare (Some (histogramSnapshot before)) (Some (histogramSnapshot after)) with
  | Ok generic => Ok (histogramDelta (histogramEntriesByID before) (histogramEntriesByID after) <$> generic)
  | Err _ => Ok []
  | Panic => Panic
  end.
Definition largestSuspect (s : AnalysisSuspect) : Suspect :=
  {| s_ClassName := as_Name s; s_Reason := "largest live shallow size in class histogram"; s_Instances := as_Count s; s_Bytes := as_Bytes s;
     s_DeltaCount := 0; s_DeltaBytes := 0 |}.
Definition RankHistogramSuspects (h : Histogram) (limit : Z) : outcome (list Suspect) :=
  generic ← RankLargest (Some (histogramSnapshot h)) limit;
  Ok (List.map largestSuspect generic).
Definition growthSuspect (s : AnalysisSuspect) : Suspect :=
  {| s_ClassName := as_Name s; s_Reason := "largest positive shallow-size growth between histograms"; s_Instances := as_Count s;
     s_Bytes := as_Bytes s; s_DeltaCount := as_DeltaCount s; s_DeltaBytes := as_DeltaBytes s |}.
Definition RankGrowthSuspects (before after : Histogram) (limit : Z) : outcome (list Suspect) :=
  match RankGrowth (Some (histogramSnapshot before)) (Some (histogramSnapshot after)) limit with
  | Ok generic => Ok (List.map growthSuspect generic)
  | Err _ => Ok []
  | Panic => Panic
  end.
End Histograms.
End Compare.

Module CompareFacts.
Export Compare.

(** The record of an identity: the last one of the list. *)
Definition last_by (id : string) (l : list HRecord) : option HRecord := last (filter (λ r, Identity r = id) l).
Lemma last_by_snoc id l r : last_by id (l ++ [r]) = if decide (Identity r = id) then Some r else last_by id l.
Proof. unfold last_by. rewrite filter_app, filter_cons, filter_nil. case_decide; [by rewrite last_snoc|by rewrite app_nil_r]. Qed.
Lemma last_by_some id l : is_Some (last_by id l) ↔ id ∈ Identity <$> l.
Proof.
  induction l as [|r l IH] using rev_ind; [split; [by intros [? ?]|by intros ?%not_elem_of_nil]|]. rewrite last_by_snoc, fmap_app, elem_of_app. cbn. rewrite list_elem_of_singleton.
  case_decide as Hd; [split; [by right|by eexists]|]. rewrite IH. naive_solver.
Qed.

Lemma setBefore_lookup l m id : fold_left setBefore l m !! id =
  match last_by id l with None => m !! id | Some r => Some (Some r, (default (None, None) (m !! id)).2) end.
Proof.
  induction l as [|r l IH] using rev_ind; [done|]. rewrite fold_left_app, last_by_snoc. cbn [fold_left]. unfold setBefore at 1. case_decide as Hd.
  - subst id. rewrite lookup_insert_eq, IH. by destruct (last_by _ l).
  - by rewrite lookup_insert_ne.
Qed.
Lemma setAfter_lookup l m id : fold_left setAfter l m !! id =
  match last_by id l with None => m !! id | Some r => Some ((default (None, None) (m !! id)).1, Some r) end.
Proof.
  induction l as [|r l IH] using rev_ind; [done|]. rewrite fold_left_app, last_by_snoc. cbn [fold_left]. unfold setAfter at 1. case_decide as Hd.
  - subst id. rewrite lookup_insert_eq, IH. by destruct (last_by _ l).
  - by rewrite lookup_insert_ne.
Qed.

(** The change of an identity, and the changes between two snapshots. *)
Definition change (before after : Snapshot) (id : string) : Delta :=
  delta (Runtime after) id (last_by id (Records before), last_by id (Records after)).
Record changes (before after : Snapshot) (ds : list Delta) : Prop := {
  ch_nodup : NoDup (d_Identity <$> ds);
  ch_in d : d ∈ ds ↔ ∃ id, (id ∈ Identity <$> Records before ∨ id ∈ Identity <$> Records after) ∧ d = change before after id;
  ch_sorted : StronglySorted (λ x y, deltaLess y x = false) ds }.

Lemma deltaLess_lex x y : deltaLess x y = (DeltaBytes y <? DeltaBytes x) || (negb (DeltaBytes x <? DeltaBytes y) &&
  ((AfterBytes y <? AfterBytes x) || (negb (AfterBytes x <? AfterBytes y) && String.ltb (d_Identity x) (d_Identity y)))).
Proof.
  unfold deltaLess. destruct (Z.eqb_spec (DeltaBytes x) (DeltaBytes y)), (Z.ltb_spec (DeltaBytes y) (DeltaBytes x)), (Z.ltb_spec (DeltaBytes x) (DeltaBytes y)); cbn; try lia; try done.
  destruct (Z.eqb_spec (AfterBytes x) (AfterBytes y)), (Z.ltb_spec (AfterBytes y) (AfterBytes x)), (Z.ltb_spec (AfterBytes x) (AfterBytes y)); cbn; try lia; done.
Qed.
Lemma descending_weak {A} (key : A → Z) : strict_weak (λ x y, key y <? key x).
Proof. split; intros *; rewrite ?Z.ltb_lt, ?Z.ltb_ge; lia. Qed.
Lemma deltaLess_weak : strict_weak deltaLess.
Proof.
  pose proof (strict_weak_lex _ _ (descending_weak DeltaBytes) (strict_weak_lex _ _ (descending_weak AfterBytes) (strict_weak_key d_Identity _ strict_weak_string))) as [Ha Ht].
  split; intros *; rewrite !deltaLess_lex; [apply Ha|apply Ht].
Qed.
Lemma deltaLess_equal x y : deltaLess x y = false → deltaLess y x = false → d_Identity x = d_Identity y.
Proof.
  rewrite !deltaLess_lex. destruct (Z.ltb_spec (DeltaBytes y) (DeltaBytes x)), (Z.ltb_spec (DeltaBytes x) (DeltaBytes y)); cbn; try done.
  destruct (Z.ltb_spec (AfterBytes y) (AfterBytes x)), (Z.ltb_spec (AfterBytes x) (AfterBytes y)); cbn; try done. apply ltb_antisym.
Qed.

Section Compared.
Context (before after : Snapshot).
Local Abbreviation byID := (fold_left setAfter (Records after) (fold_left setBefore (Records before) ∅)).
Local Abbreviation rows R := ((λ '(id, p), delta (Runtime after) id p) <$> @map_entries R string (option HRecord * option HRecord) _ _ byID).

Lemma byID_lookup id : byID !! id =
  if decide (id ∈ Identity <$> Records before ∨ id ∈ Identity <$> Records after) then Some (last_by id (Records before), last_by id (Records after)) else None.
Proof.
  rewrite setAfter_lookup, setBefore_lookup, lookup_empty. pose proof (last_by_some id (Records before)) as Hb. pose proof (last_by_some id (Records after)) as Ha.
  destruct (last_by id (Records before)), (last_by id (Records after)); case_decide as Hd; try done; exfalso; naive_solver.
Qed.
Lemma rows_in R `{!RuntimeOk R} d : d ∈ rows R ↔ ∃ id, (id ∈ Identity <$> Records before ∨ id ∈ Identity <$> Records after) ∧ d = change before after id.
Proof.
  rewrite list_elem_of_fmap. split.
  - intros ([id p] & -> & Hin%elem_of_entries). rewrite byID_lookup in Hin. case_decide; [|done]. injection Hin as <-. by exists id.
  - intros (id & Hid & ->). exists (id, (last_by id (Records before), last_by id (Records after))). split; [done|]. apply elem_of_entries. by rewrite byID_lookup, decide_True.
Qed.
Lemma rows_nodup R `{!RuntimeOk R} : NoDup (d_Identity <$> rows R).
Proof.
  rewrite <-list_fmap_compose. pose proof (entries_NoDup byID) as Hn. unfold map_keys in Hn. eapply eq_ind_r with (P := NoDup); [exact Hn|].
  apply list_fmap_ext. by intros i [id p] _.
Qed.
Lemma compare_changes R `{!RuntimeOk R} : ∃ ds, Compare (Some before) (Some after) = Ok ds ∧ changes before after ds.
Proof.
  eexists. split; [done|]. split.
  - assert (d_Identity <$> sort_slice deltaLess (rows R) ≡ₚ d_Identity <$> rows R) as -> by by rewrite sort_perm. apply (rows_nodup R).
  - intros d. rewrite elem_of_sort. apply rows_in, _.
  - apply sort_strongly_sorted, deltaLess_weak.
Qed.
Lemma compare_stable R1 R2 `{!RuntimeOk R1, !RuntimeOk R2} : Compare (H := R1) (Some before) (Some after) = Compare (H := R2) (Some before) (Some after).
Proof.
  unfold Compare. f_equal. apply sort_slice_eq; [apply deltaLess_weak| |].
  - by rewrite (@entries_perm R1), (@entries_perm R2).
  - intros x y Hx Hy Hxy Hyx. apply (rows_in R1) in Hx as (i & _ & ->), Hy as (j & _ & ->). pose proof (deltaLess_equal _ _ Hxy Hyx) as He. cbn in He. by subst j.
Qed.
End Compared.

(** ** Rankings *)

Lemma growthLoop_spec limit ds acc : len acc < limit →
  growthLoop limit ds acc = acc ++ List.map growth (take (Z.to_nat (limit - len acc)) (filter (λ d, 0 < DeltaBytes d) ds)).
Proof.
  revert acc. induction ds as [|d ds IH]; intros acc Hl; cbn [growthLoop]; [by rewrite filter_nil, take_nil, app_nil_r|]. rewrite filter_cons.
  destruct (Z.leb_spec (DeltaBytes d) 0); [rewrite decide_False by lia; by apply IH|]. rewrite decide_True by lia. rewrite len_app. change (len [growth d]) with 1.
  replace (Z.to_nat (limit - len acc)) with (S (Z.to_nat (limit - len acc - 1))) by lia. cbn [take List.map].
  destruct (Z.eqb_spec (len acc + 1) limit) as [He|He].
  - replace (limit - len acc - 1) with 0 by lia. done.
  - rewrite IH by (rewrite len_app; change (len [growth d]) with 1; lia). rewrite len_app, <-app_assoc. change (len [growth d]) with 1.
    replace (limit - (len acc + 1)) with (limit - len acc - 1) by lia. done.
Qed.
End CompareFacts.
