(* ===== verification/HeapText.v ===== *)
(** * The text of a class histogram

    [ParseHistogram] of [src/internal/heap/histogram.go], which reads the output
    of [jcmd GC.class_histogram], and the round trip with printed histograms. *)

From Stdlib Require Import Ascii.
From S2P Require Import Prelude Arrays GoStrings GoPath GoText GoRuntime HprofHistogram.

Module Text.
Export Histogram.

Definition newline : char := "010".

Definition splitClassAndModule `{Unicode} (s : string) : string * string :=
  let s := TrimSpace s in
  let i := LastIndex s " (" in
  if (0 <? i) && HasSuffix s ")" then (TrimSpace (str_take i s), TrimSuffix (str_drop (i + 2) s) ")") else (s, "").

Definition zero_entry : ClassEntry := {| Rank := 0; Instances := 0; Bytes := 0; ce_ClassName := ""; Module_ := "" |}.
Definition add_skipped (h : Histogram) (raw : string) : Histogram := {| Entries := Entries h; Total := Total h; Skipped := Skipped h ++ [raw] |}.
Definition add_entry (h : Histogram) (e : ClassEntry) : Histogram := {| Entries := Entries h ++ [e]; Total := Total h; Skipped := Skipped h |}.
Definition set_total (h : Histogram) (e : ClassEntry) : Histogram := {| Entries := Entries h; Total := e; Skipped := Skipped h |}.

Section Parse.
Context `{Unicode} `{UnicodeFields} `{Printable}.

Definition parse_int (msg s : string) : outcome Z :=
  match ParseInt s with Some z => Ok z | None => Err (Wrapf msg (num_error "ParseInt" s)) end.

(** One line. *)
Definition histogramLine (h : Histogram) (raw : string) : outcome Histogram :=
  let line := TrimSpace raw in
  if bool_decide (line = "") || HasPrefix line "num " || HasPrefix line "-" then Ok h else
  let fields := Fields line in
  match fields with
  | [f0; f1; f2] =>
    if bool_decide (f0 = "Total") then
      instances ← parse_int "parse histogram total instances: %w" f1;
      bytes ← parse_int "parse histogram total bytes: %w" f2;
      Ok (set_total h {| Rank := 0; Instances := instances; Bytes := bytes; ce_ClassName := "Total"; Module_ := "" |})
    else Ok (add_skipped h raw)
  | f0 :: f1 :: f2 :: f3 :: rest =>
    match Atoi (TrimSuffix f0 ":") with
    | None => Ok (add_skipped h raw)
    | Some rank =>
      instances ← parse_int ("parse histogram instances on rank " +:+ itoa rank +:+ ": %w") f1;
      bytes ← parse_int ("parse histogram bytes on rank " +:+ itoa rank +:+ ": %w") f2;
      let '(name, module) := splitClassAndModule (Join (f3 :: rest) " ") in
      Ok (add_entry h {| Rank := rank; Instances := instances; Bytes := bytes; ce_ClassName := name; Module_ := module |})
    end
  | _ => Ok (add_skipped h raw)
  end.
Definition ParseHistogram (out : string) : outcome Histogram :=
  for_each (Split out newline) histogramLine {| Entries := []; Total := zero_entry; Skipped := [] |}.
End Parse.
End Text.

Module TextFacts.
Export Text.

(** ** Printed histograms *)

(** The lines of the report; the numbers are the widths of the padding. *)
Inductive line :=
| Blank (n : nat)
| Header (n m : nat) (rest : string)
| Rule (n : nat) (rest : string)
| Row (p0 p1 p2 p3 : nat) (e : ClassEntry)
| Sum (p0 p1 p2 : nat) (instances bytes : Z).

Definition name_text (e : ClassEntry) : string :=
  if bool_decide (Module_ e = "") then ce_ClassName e else ce_ClassName e +:+ " (" +:+ Module_ e +:+ ")".
Definition line_text (l : line) : string :=
  match l with
  | Blank n => spaces n
  | Header n m rest => spaces n +:+ "num " +:+ spaces m +:+ rest
  | Rule n rest => spaces n +:+ "-" +:+ rest
  | Row p0 p1 p2 p3 e => spaces p0 +:+ (itoa (Rank e) +:+ ":") +:+ spaces (S p1) +:+ itoa (Instances e) +:+ spaces (S p2) +:+ itoa (Bytes e) +:+ spaces (S p3) +:+ name_text e
  | Sum p0 p1 p2 i b => spaces p0 +:+ "Total" +:+ spaces (S p1) +:+ itoa i +:+ spaces (S p2) +:+ itoa b
  end.
Definition in_range (z : Z) : Prop := 0 <= z < 2 ^ 63.
Definition row_ok (e : ClassEntry) : Prop :=
  in_range (Rank e) ∧ in_range (Instances e) ∧ in_range (Bytes e) ∧ word (ce_ClassName e) ∧ str_forall word_char (Module_ e) = true.
Definition line_ok (l : line) : Prop :=
  match l with
  | Blank _ => True
  | Header _ _ rest | Rule _ rest => tight rest ∧ no_newline rest
  | Row _ _ _ _ e => row_ok e
  | Sum _ _ _ i b => in_range i ∧ in_range b
  end.
Definition print_histogram (l : line) (ls : list line) : string := Join (line_text <$> (l :: ls)) (String newline "").

Definition read_line (h : Histogram) (l : line) : Histogram :=
  match l with
  | Row _ _ _ _ e => add_entry h e
  | Sum _ _ _ i b => set_total h {| Rank := 0; Instances := i; Bytes := b; ce_ClassName := "Total"; Module_ := "" |}
  | _ => h
  end.

Section Proofs.
Context `{Unicode} `{UnicodeFields} `{Printable}.

Lemma parse_itoa msg z : in_range z → parse_int msg (itoa z) = Ok z.
Proof. intros Hz. unfold parse_int. by rewrite ParseInt_itoa. Qed.

(** The name and the module are found again. *)
Lemma LastIndex_none s sub : str_forall word_char s = true → LastIndex s (String " " sub) = -1.
Proof.
  induction s as [|c s IH]; cbn [LastIndex]; [done|]. intros [[Hc _]%word_char_cases Hs]%andb_prop. rewrite IH by done. cbn [Z.leb Z.compare HasPrefix String.prefix].
  unfold HasPrefix. cbn [String.prefix]. destruct (ascii_dec " " c) as [<-|]; [by vm_compute in Hc|done].
Qed.
Lemma split_name e : row_ok e → splitClassAndModule (name_text e) = (ce_ClassName e, Module_ e).
Proof.
  intros (_ & _ & _ & Hn & Hm). unfold splitClassAndModule, name_text. case_bool_decide as He.
  - rewrite trim_tight_0 by by apply word_tight. rewrite LastIndex_none by apply Hn. cbn. by rewrite He.
  - assert (word (Module_ e)) as Hw by by split. assert (tight (ce_ClassName e +:+ " (" +:+ Module_ e +:+ ")")) as Ht.
    { apply (tight_app _ " ("); [by apply word_tight|]. apply word_tight, word_app; [done|]. by split. }
    rewrite (trim_tight_0 _ Ht). assert (LastIndex (" (" +:+ Module_ e +:+ ")") " (" = 0) as Hl.
    { rewrite !str_app_cons, str_app_nil. cbn [LastIndex]. pose proof (LastIndex_none (String "(" (Module_ e +:+ ")")) "(") as Hx. cbn [LastIndex] in Hx. rewrite Hx.
      - unfold HasPrefix. cbn. by destruct (Module_ e +:+ ")").
      - cbn [str_forall]. rewrite str_forall_app, Hm. done. }
    rewrite LastIndex_app by lia. rewrite Hl, Z.add_0_r. assert (0 < strlen (ce_ClassName e)) as Hp by (destruct Hn as [? _]; destruct (ce_ClassName e); [done|unfold strlen; cbn; lia]).
    rewrite (proj2 (Z.ltb_lt _ _)) by done. replace (ce_ClassName e +:+ " (" +:+ Module_ e +:+ ")") with ((ce_ClassName e +:+ " (" +:+ Module_ e) +:+ ")") at 1 by by rewrite !str_app_assoc.
    rewrite HasSuffix_app. cbn [andb]. rewrite str_take_app_exact, trim_tight_0 by by apply word_tight. f_equal.
    replace (ce_ClassName e +:+ " (" +:+ Module_ e +:+ ")") with ((ce_ClassName e +:+ " (") +:+ (Module_ e +:+ ")")) by by rewrite !str_app_assoc.
    replace (strlen (ce_ClassName e) + 2) with (strlen (ce_ClassName e +:+ " (")) by (rewrite strlen_app; done). rewrite str_drop_app. apply TrimSuffix_app.
Qed.
Lemma name_fields e : row_ok e → tight (name_text e) ∧ is_ascii (name_text e) = true ∧ no_newline (name_text e) ∧
  ∃ f rest, fields_go (name_text e) "" = f :: rest ∧ Join (f :: rest) " " = name_text e.
Proof.
  intros (_ & _ & _ & Hn & Hm). unfold name_text. case_bool_decide as He.
  - split_and!; [by apply word_tight|apply word_ascii, Hn|apply word_no_newline, Hn|]. exists (ce_ClassName e), []. by rewrite fields_go_last.
  - assert (word ("(" +:+ Module_ e +:+ ")")) as Hw.
    { apply (word_app "("); [done|]. apply word_app; [by split|done]. }
    replace (ce_ClassName e +:+ " (" +:+ Module_ e +:+ ")") with (ce_ClassName e +:+ spaces 1 +:+ "(" +:+ Module_ e +:+ ")") by done. split_and!.
    + apply tight_app; by apply word_tight.
    + unfold is_ascii. rewrite !str_forall_app. fold (is_ascii (ce_ClassName e)). rewrite (word_ascii _ (proj2 Hn)). pose proof (word_ascii _ Hm) as Ha. unfold is_ascii in Ha. by rewrite Ha.
    + apply free_of_app; [apply word_no_newline, Hn|]. apply (free_of_app _ (spaces 1)); [done|]. apply word_no_newline, Hw.
    + exists (ce_ClassName e), ["(" +:+ Module_ e +:+ ")"]. split; [|done]. rewrite fields_go_cons by done. by rewrite fields_go_last.
Qed.
Lemma digit_prefix z s c p : 0 <= z → is_digit c = false → HasPrefix (itoa z +:+ s) (String c p) = false.
Proof.
  intros Hz Hc. destruct (itoa_digits z Hz) as (Hne & Hd & _). destruct (itoa z) as [|x r]; [done|]. rewrite str_app_cons. unfold HasPrefix. cbn [String.prefix].
  destruct (ascii_dec c x) as [<-|]; [|done]. apply andb_prop in Hd as [Hd _]. congruence.
Qed.
Lemma tight_nonempty s : tight s → bool_decide (s = "") = false.
Proof. intros (c & a & _ & _ & _ & _ & -> & _). by apply bool_decide_false. Qed.

(** The text of a row after the padding. *)
Definition row_text (p1 p2 p3 : nat) (e : ClassEntry) : string :=
  (itoa (Rank e) +:+ ":") +:+ spaces (S p1) +:+ itoa (Instances e) +:+ spaces (S p2) +:+ itoa (Bytes e) +:+ spaces (S p3) +:+ name_text e.
Lemma row_words e : row_ok e → word (itoa (Rank e) +:+ ":") ∧ word (itoa (Instances e)) ∧ word (itoa (Bytes e)).
Proof. intros ([? _] & [? _] & [? _] & _). split_and!; [apply word_app; [by apply itoa_word|done]|by apply itoa_word..]. Qed.
Lemma row_facts p1 p2 p3 e : row_ok e → tight (row_text p1 p2 p3 e) ∧ no_newline (row_text p1 p2 p3 e) ∧
  ∃ f rest, Fields (row_text p1 p2 p3 e) = (itoa (Rank e) +:+ ":") :: itoa (Instances e) :: itoa (Bytes e) :: f :: rest ∧ Join (f :: rest) " " = name_text e.
Proof.
  intros Hr. destruct (row_words e Hr) as (W1 & W2 & W3). destruct (name_fields e Hr) as (T & A & N & f & rest & Hf & Hj). unfold row_text. split_and!.
  - apply tight_app; [by apply word_tight|]. apply tight_app; [by apply word_tight|]. apply tight_app; [by apply word_tight|done].
  - repeat (apply free_of_app; [first [apply word_no_newline; (apply W1 || apply W2 || apply W3) | apply spaces_no_newline]|]). done.
  - exists f, rest. split; [|done]. unfold Fields.
    assert (is_ascii ((itoa (Rank e) +:+ ":") +:+ spaces (S p1) +:+ itoa (Instances e) +:+ spaces (S p2) +:+ itoa (Bytes e) +:+ spaces (S p3) +:+ name_text e) = true) as ->.
    { pose proof (word_ascii _ (proj2 W1)) as A1. pose proof (word_ascii _ (proj2 W2)) as A2. pose proof (word_ascii _ (proj2 W3)) as A3.
      pose proof (spaces_ascii (S p1)) as S1. pose proof (spaces_ascii (S p2)) as S2. pose proof (spaces_ascii (S p3)) as S3. unfold is_ascii in *.
      rewrite !str_forall_app in *. by rewrite A1, A2, A3, S1, S2, S3, A. }
    by rewrite !fields_go_cons, Hf by done.
Qed.
Lemma parse_line h l : line_ok l → histogramLine h (line_text l) = Ok (read_line h l).
Proof.
  destruct l as [n|n m rest|n rest|p0 p1 p2 p3 e|p0 p1 p2 i b]; intros Hl; unfold histogramLine; cbn [line_text read_line].
  - by rewrite trim_blank.
  - destruct Hl as [Ht _]. assert (tight ("num " +:+ spaces m +:+ rest)) as Ht' by (apply (tight_app "num" (spaces (S m))); [by apply word_tight|done]).
    pose proof (trim_tight n _ 0 Ht') as Hs. cbn [spaces] in Hs. rewrite str_app_nil_r in Hs. rewrite Hs, (HasPrefix_app "num " "num " _), orb_true_r by done. done.
  - destruct Hl as [Ht _]. assert (tight ("-" +:+ rest)) as Ht' by (apply (tight_app "-" ""); [by apply word_tight|done]).
    pose proof (trim_tight n _ 0 Ht') as Hs. cbn [spaces] in Hs. rewrite str_app_nil_r in Hs. rewrite Hs, (HasPrefix_app "-" "-" rest), orb_true_r by done. done.
  - cbn in Hl. destruct (row_facts p1 p2 p3 e Hl) as (Ht & _ & f & rest & Hf & Hj). pose proof (trim_tight p0 _ 0 Ht) as Hs. cbn [spaces] in Hs. rewrite str_app_nil_r in Hs.
    fold (row_text p1 p2 p3 e). rewrite Hs, Hf, (tight_nonempty _ Ht). pose proof Hl as ([R0 R1] & R2 & R3 & _). unfold row_text. rewrite !str_app_assoc.
    rewrite !digit_prefix by done. cbn [orb]. unfold Atoi. rewrite TrimSuffix_app, ParseInt_itoa by done. rewrite !parse_itoa by done. cbn [mbind outcome_bind]. rewrite Hj, split_name by done.
    by destruct e.
  - destruct Hl as [Hi Hb]. assert (word (itoa i)) as W1 by (apply itoa_word, Hi). assert (word (itoa b)) as W2 by (apply itoa_word, Hb).
    set (text := "Total" +:+ spaces (S p1) +:+ itoa i +:+ spaces (S p2) +:+ itoa b). assert (tight text) as Ht.
    { apply tight_app; [by apply word_tight|]. apply tight_app; by apply word_tight. }
    pose proof (trim_tight p0 _ 0 Ht) as Hs. cbn [spaces] in Hs. rewrite str_app_nil_r in Hs. rewrite Hs, (tight_nonempty _ Ht).
    assert (Fields text = ["Total"; itoa i; itoa b]) as ->.
    { unfold Fields. assert (is_ascii text = true) as ->.
      { pose proof (word_ascii _ (proj2 W1)) as A1. pose proof (word_ascii _ (proj2 W2)) as A2. pose proof (spaces_ascii (S p1)) as S1. pose proof (spaces_ascii (S p2)) as S2.
        unfold text, is_ascii in *. rewrite !str_forall_app. by rewrite A1, A2, S1, S2. }
      unfold text. by rewrite !fields_go_cons, fields_go_last by done. }
    cbn [orb]. rewrite !parse_itoa by done. done.
Qed.
Lemma line_no_newline l : line_ok l → no_newline (line_text l).
Proof.
  destruct l as [n|n m rest|n rest|p0 p1 p2 p3 e|p0 p1 p2 i b]; intros Hl; cbn [line_text].
  - apply spaces_no_newline.
  - apply free_of_app; [apply spaces_no_newline|]. apply (free_of_app _ "num "); [done|]. by apply free_of_app; [apply spaces_no_newline|apply Hl].
  - apply free_of_app; [apply spaces_no_newline|]. by apply (free_of_app _ "-"); [|apply Hl].
  - apply free_of_app; [apply spaces_no_newline|]. by destruct (row_facts p1 p2 p3 e Hl) as (_ & ? & _).
  - destruct Hl as [[Hi _] [Hb _]]. repeat (apply free_of_app; [first [apply spaces_no_newline | done | apply word_no_newline, itoa_word, Hi]|]). apply word_no_newline, itoa_word, Hb.
Qed.
Lemma parse_printed l ls : Forall line_ok (l :: ls) →
  ParseHistogram (print_histogram l ls) = Ok (fold_left read_line (l :: ls) {| Entries := []; Total := zero_entry; Skipped := [] |}).
Proof.
  intros Hok. unfold ParseHistogram, print_histogram. cbn [fmap list_fmap]. rewrite Split_Join.
  - change (line_text l :: (line_text <$> ls)) with (line_text <$> (l :: ls)). generalize {| Entries := []; Total := zero_entry; Skipped := [] |}.
    induction Hok as [|x k Hx Hk IH]; intros h; [done|]. cbn [fmap list_fmap for_each fold_left]. rewrite parse_line by done. apply IH.
  - apply line_no_newline. by inversion Hok.
  - inversion Hok; subst. apply Forall_fmap. eapply Forall_impl; [done|]. apply line_no_newline.
Qed.
End Proofs.
End TextFacts.
