(* ===== verification/HeapTheorems.v ===== *)
(** * The heap analysis, end to end

    The properties of the heap-dump parsers and of the retained-size analysis
    ([src/internal/heap]), stated over the bytes of a dump, with a small dump on
    which they are evaluated. *)

From S2P Require Import Prelude Arrays GoStrings GoRuntime GoIO HeapGraph HeapDFS HeapDominators HeapRetained HeapRank.
From S2P Require Import HeapPaths HeapLeaks HeapCompare HeapText GoText GoPath Float64.
From S2P Require Import HprofFormat HprofGraph HprofSafe HprofDump HprofExact HprofParse HprofAccept HprofHistogram HprofAgree.

Export RankFacts ParseFacts Accept Agree LeakFacts.
Import Histogram.
Export CompareFacts TextFacts.

(** ** A dump

    Class 100 [Node] with a reference and an int, whose first instance precedes
    it; class 200 [Leaf] below [Node]; an array of both; an array of ints; an
    instance of a class without a definition; a frame root and a static field. *)

Definition demo_class (o super : Z) (size : Z) (statics : list static_field) (fields : list field) : class_dump :=
  {| cd_id := o; cd_serial := 0; cd_super := super; cd_loader := 0; cd_other := [0; 0; 0; 0]; cd_size := size; cd_pool := []; cd_statics := statics; cd_fields := fields |}.
Definition demo_subs : list subrec := [
  Root hprofRootJavaFrame 10 (be_bytes 4 1 ++ be_bytes 4 0);
  InstanceDump 10 0 100 (be_bytes 4 20 ++ be_bytes 4 7);
  ClassDump (demo_class 100 0 16 [{| sf_name := 1; sf_type := 2; sf_value := be_bytes 4 30 |}] [{| f_name := 1; f_type := 2 |}; {| f_name := 2; f_type := 10 |}]);
  ClassDump (demo_class 200 100 24 [] [{| f_name := 2; f_type := 2 |}]);
  InstanceDump 20 0 200 (be_bytes 4 40 ++ be_bytes 4 30 ++ be_bytes 4 9);
  ObjectArray 30 0 100 [10; 20];
  PrimArray 40 0 10 3 (be_bytes 4 1 ++ be_bytes 4 2 ++ be_bytes 4 3);
  InstanceDump 50 0 999 (be_bytes 4 10 ++ be_bytes 4 0);
  Root hprofRootStickyClass 100 []].
Definition demo_dump : list drecord := [
  RString 0 1 (bytes_of_string "Node"); RString 0 2 (bytes_of_string "Leaf");
  RLoadClass 0 16 1 100 0 1; RLoadClass 0 16 2 200 0 2;
  RHeapDump hprofTagHeapDumpSegment 0 demo_subs; ROther 44 0 []].
Definition demo_bytes : list byte := encode 4 (bytes_of_string " 1.0.2") 0 demo_dump.
Definition demo_reader : reader := Reader demo_bytes io_EOF.

(** Well-formedness of a concrete dump, by its structure. *)
Ltac dump_ok :=
  repeat lazymatch goal with
  | |- Forall _ [] => constructor
  | |- Forall _ (_ :: _) => apply Forall_cons; split
  | |- Forall _ _ => progress cbn [demo_class cd_other cd_pool cd_statics cd_fields]
  | |- fits _ _ => unfold fits
  | |- ok_class _ _ => split | |- ok_pool _ _ => split | |- ok_static _ _ => split | |- ok_field _ _ => split
  | |- ok_sub _ _ => cbn [ok_sub] | |- ok_record _ _ => cbn [ok_record]
  | |- _ ∧ _ => split
  | |- _ <= _ < _ => split
  | |- ∃ _, _ => eexists
  | |- _ ∉ [] => apply not_elem_of_nil
  | |- _ ∉ _ => apply not_elem_of_cons
  | |- _ ∨ _ => right
  | |- _ => by vm_compute
  end.
Lemma demo_version : ok_version (bytes_of_string " 1.0.2").
Proof. split; [|by vm_compute]. repeat (constructor; [by vm_compute|]). constructor. Qed.
Lemma demo_ok_subs : Forall (ok_sub 4) demo_subs.
Proof. unfold demo_subs. dump_ok. Qed.
Lemma demo_wf : wf_dump 4 demo_dump.
Proof.
  split; [by left| |split].
  - unfold demo_dump. dump_ok. apply demo_ok_subs.
  - apply demo_ok_subs.
  - apply (bool_decide_unpack _). by vm_compute.
  - intros o serial c fields Hin [l Hl]. assert (c = 100 ∨ c = 200) as [->| ->].
    { apply layouts_dom in Hl as (_ & cd & Hcd & <- & _). repeat (apply elem_of_cons in Hcd as [Hcd|Hcd]; [try discriminate; injection Hcd as ->; by auto|]). by apply not_elem_of_nil in Hcd. }
    + exists [100]. clear. eapply chain_class; [done|by vm_compute|]. constructor.
    + exists [200; 100]. clear. eapply chain_class; [done|by vm_compute|]. eapply chain_class; [done|by vm_compute|]. constructor.
  - by vm_compute.
  - by vm_compute.
Qed.
Definition no_graph : ObjectGraph :=
  {| IDSize := 0; Unresolved := 0; ids := []; class := []; shallow := []; outStart := []; out := []; roots := []; gcRoots := []; predCache := None;
     classNames := []; classObjOf := ∅ |}.
Definition demo_graph : ObjectGraph :=
  match ParseObjectGraph (H := go_runtime) demo_reader with Ok g => g | _ => no_graph end.
Lemma demo_parses : ParseObjectGraph (H := go_runtime) demo_reader = Ok demo_graph.
Proof. unfold demo_graph. destruct (ParseObjectGraph demo_reader) eqn:E; [done|..]; by vm_compute in E. Qed.

(** ** Properties *)

Section Properties.
Context {R : GoRuntime} {HR : RuntimeOk R}.

(** C2: parsing the encoding of a well-formed dump returns the graph the dump
    depicts: one node per object, with the class name, the shallow size and the
    references the dump gives it (an instance that precedes its class included),
    the rooted objects in the order of their first root record, and the root
    records with their threads. *)
Theorem graph_parse_exact n d version stamp :
  wf_dump n d → ok_version version → fits 8 stamp →
  runs (ParseObjectGraph (Reader (encode n version stamp d) io_EOF)) (depicts n d).
Proof. intros. by apply parse_dump. Qed.

(** C3: whatever the bytes, parsing them does not panic, and a graph it returns
    is well formed: identifiers sorted, rows inside the edge array, edges, roots
    and classes in range. *)
Theorem graph_parse_safe (r : reader) :
  ParseObjectGraph r ≠ Panic ∧ ∀ g, ParseObjectGraph r = Ok g → graph_ok g.
Proof. pose proof (wp_ParseObjectGraph r) as H. destruct (ParseObjectGraph r); [split; [done|by intros ? [= <-]]|done..]. Qed.

(** C4: the object-graph parser accepts only encodings of dumps whose records
    are well formed, read to their last byte, and what it accepts the histogram
    parser accepts too. *)
Theorem graph_accepts_encodings (r : reader) g :
  ParseObjectGraph r = Ok g →
  ∃ n version stamp d, (n = 4 ∨ n = 8) ∧ ok_version version ∧ Forall (ok_record n) d ∧ r_bytes r = encode n version stamp d ∧
    runs (ParseHPROF r) (tallies n d).
Proof.
  intros (n & version & stamp & d & Hn & Hv & Hs & Hd & Hb & He & _)%parse_accepts. exists n, version, stamp, d. split_and!; try done.
  destruct r as [bytes e]. cbn [r_bytes r_final] in Hb, He. subst bytes. exists (buildHistogram (hist_dump n d)). split; [|apply hist_tallies].
  by apply histogram_encoded.
Qed.

(** C1: for every graph the parser returns, the retained sizes are exact: an
    object is reachable if a path from a root leads to it, its retained size is
    the total size of the objects that every root path visits it for, its
    immediate dominator is the closest of its dominators, and the class totals
    count no object twice. *)
Theorem retained_exact (r : reader) g : ParseObjectGraph r = Ok g → runs (ComputeRetained g) (snapshot_ok g).
Proof. intros Hg. apply ComputeRetained_spec. pose proof (wp_ParseObjectGraph r) as H. by rewrite Hg in H. Qed.

(** C8: the report on a parsed dump lists the largest reachable objects by
    retained size, ties by identifier, as many as were asked for, and the
    classes in order with their totals. *)
Theorem dominators_exact n d version stamp limit :
  wf_dump n d → ok_version version → fits 8 stamp →
  runs (g ← ParseObjectGraph (Reader (encode n version stamp d) io_EOF); res ← Dominators g limit; Ok (g, res))
    (λ '(g, res), depicts n d g ∧ ∃ s, snapshot_ok g s ∧ report_ok g s limit res).
Proof.
  intros W Hv Hs. apply runs_bind. eapply runs_mono; [by apply parse_dump|]. intros g D. apply runs_bind. unfold Dominators. apply runs_bind.
  eapply runs_mono; [apply ComputeRetained_spec, (dp_ok _ _ _ D)|]. intros s S.
  eapply runs_mono; [apply (RankRetained_spec g (dp_ok _ _ _ D) (dp_ids _ _ _ D) s S)|]. intros res Hr. apply runs_ok. eauto.
Qed.

(** C9: the histogram of an encoded dump has one row per class with instances,
    per class of object arrays and per type of primitive arrays, with the exact
    counts and sizes (modulo the width of int64), sorted by size and ranked. *)
Theorem histogram_exact n d version stamp :
  n = 4 ∨ n = 8 → Forall (ok_record n) d → ok_version version → fits 8 stamp →
  runs (ParseHPROF (Reader (encode n version stamp d) io_EOF)) (tallies n d).
Proof. intros. exists (buildHistogram (hist_dump n d)). split; [by apply histogram_encoded|apply hist_tallies]. Qed.

(** C10: on a well-formed dump the two parsers agree: the histogram counts the
    nodes of the graph except the class objects, and its bytes are the shallow
    sizes of the graph except the field bytes of instances whose class the dump
    does not define, which the histogram counts as empty. *)
Theorem parsers_agree n d version stamp :
  wf_dump n d → ok_version version → fits 8 stamp →
  ∃ g h, ParseObjectGraph (Reader (encode n version stamp d) io_EOF) = Ok g ∧ ParseHPROF (Reader (encode n version stamp d) io_EOF) = Ok h ∧
    Instances (Total h) = Len g - class_dumps (objs (subs_of d)) ∧
    Bytes (Total h) = i64 (shallow_total g - orphan_bytes (layouts_of (subs_of d)) (subs_of d)).
Proof.
  intros W Hv Hs. destruct (parse_dump n d W version stamp Hv Hs) as (g & Hg & D).
  destruct (totals_agree n d W g D (buildHistogram (hist_dump n d)) (hist_tallies n d)) as [T1 T2].
  exists g, (buildHistogram (hist_dump n d)). split_and!; try done. apply histogram_encoded; [apply W|done..| |done]. apply W.
Qed.

(** The two parsers agree on the size of every root record: the byte counts
    that the histogram skips are those that the layouts of the graph parser
    read. *)
Theorem root_sizes_agree idSize tag :
  hprofRootSkipBytes idSize tag = if tag =? hprofHeapDumpInfo then Some (4 + idSize) else snd <$> rootRecordLayout idSize tag.
Proof. apply root_layouts_agree. Qed.

(** C12: the paths reported for a set of targets are paths from distinct rooted
    objects to a target, in order of length, each a shortest one among those that
    do not pass through another rooted object; if fewer than the limit are
    reported, every rooted object with such a path is among them.  The first is
    a shortest path from any root to any target, and there is one if a target is
    reachable. *)
Theorem paths_exact (r : reader) g targets maxPaths : ParseObjectGraph r = Ok g → (∀ t, t ∈ targets → 0 <= t < Len g) → 0 < maxPaths →
  runs (PathsToGCRoots g targets maxPaths) (λ '(g', ps), paths_ok g targets maxPaths ps ∧
    (∀ p, p ∈ ps → ∃ l t, t ∈ targets ∧ root_path g l t ∧ Forall2 (step_of g) l (Steps p)) ∧
    (∀ l t, t ∈ targets → root_path g l t → ∃ p ps', ps = p :: ps' ∧ len (Steps p) <= len l)).
Proof.
  intros Hg Ht Hm. assert (graph_ok g) as G by (pose proof (wp_ParseObjectGraph r) as Hw; by rewrite Hg in Hw).
  eapply runs_mono; [by apply PathsToGCRoots_spec|]. intros [g' ps] (c & _ & _ & Hps). cbn [snd] in Hps. split_and!; [done|..].
  - intros p. by apply (paths_ok_root_path g targets maxPaths).
  - intros l t Htt Hl. by apply (paths_ok_first g G targets maxPaths ps l t).
Qed.


(** Comparing two snapshots gives one change per identity of either, with the
    counts and sizes of its last record in each and differences modulo the
    width of int64, sorted by growth; the result does not depend on map iteration
    or on how equal elements are sorted; the growth ranking is the prefix of the
    positive changes. *)
Theorem compare_exact (R' : GoRuntime) (HR' : RuntimeOk R') before after limit : 0 < limit →
  ∃ ds, Compare (H := R) (Some before) (Some after) = Ok ds ∧ changes before after ds ∧ Compare (H := R') (Some before) (Some after) = Ok ds ∧
    RankGrowth (H := R) (Some before) (Some after) limit = Ok (List.map growth (take (Z.to_nat limit) (filter (λ d, 0 < DeltaBytes d) ds))).
Proof.
  intros Hl. destruct (compare_changes before after R) as (ds & Hds & Hc). exists ds. split_and!; [done|done|by rewrite <-Hds; apply (compare_stable before after R' R)|].
  unfold RankGrowth. rewrite (proj2 (Z.leb_gt _ _)), Hds by lia. cbn [mbind outcome_bind]. rewrite growthLoop_spec by (unfold len; cbn; lia). by rewrite Z.sub_0_r.
Qed.

(** The text of a class histogram is read back: the rows with their numbers,
    class names and modules, in order, and the last line of totals, whatever the
    padding, the headers and the blank lines. *)
Theorem histogram_text_roundtrip (U : Unicode) (UF : UnicodeFields) (P : Printable) l ls : Forall line_ok (l :: ls) →
  ParseHistogram (print_histogram l ls) = Ok (fold_left read_line (l :: ls) {| Entries := []; Total := zero_entry; Skipped := [] |}).
Proof. apply parse_printed. Qed.
End Properties.

(** ** Two divergences *)

(** The dump of a rooted array 10 that refers to the rooted array 20 and to 40;
    20 refers to 30, and 40 to 30 over 50. *)
Definition detour_dump : list drecord := [
  RHeapDump hprofTagHeapDumpSegment 0 [
    Root hprofRootStickyClass 10 []; Root hprofRootStickyClass 20 [];
    ObjectArray 10 0 0 [20; 40]; ObjectArray 20 0 0 [30]; ObjectArray 30 0 0 []; ObjectArray 40 0 0 [50]; ObjectArray 50 0 0 [30]]].
Definition detour_reader : reader := Reader (encode 4 [] 0 detour_dump) io_EOF.

(** A reported path need not be a shortest path from its root: the search
    does not continue through a rooted object, so the path reported for the root
    10 has four objects although 10, 20, 30 is a path from it. *)
Theorem paths_need_not_be_shortest : ∃ g g' p1 p2,
  ParseObjectGraph (H := go_runtime) detour_reader = Ok g ∧ PathsToGCRoots g [2] 2 = Ok (g', [p1; p2]) ∧
  st_ID <$> Steps p2 = [10; 40; 50; 30] ∧ root_path g [0; 1; 2] 2 ∧ get (ids g) <$> [0; 1; 2] = [10; 20; 30].
Proof.
  destruct (ParseObjectGraph (H := go_runtime) detour_reader) as [g| |] eqn:E; [|by vm_compute in E..].
  vm_compute in E. injection E as <-. eexists _, _, _, _. split; [done|]. split; [by vm_compute|]. split; [done|]. split; [|done].
  apply (rp_edge _ [0; 1] 1); [apply (rp_edge _ [0] 0); [apply rp_root|]|]; by apply (bool_decide_unpack _); vm_compute.
Qed.

(** Two classes with the same name, as two class loaders define them, with [n]
    instances of the first. *)
Definition twins_dump (n : nat) : list drecord := [
  RString 0 1 (bytes_of_string "A"); RLoadClass 0 16 1 100 0 1; RLoadClass 0 16 2 200 0 1;
  RHeapDump hprofTagHeapDumpSegment 0 (
    ClassDump (demo_class 100 0 16 [] []) :: ClassDump (demo_class 200 0 8 [] []) :: InstanceDump 20 0 200 [] ::
    ((λ i, InstanceDump (Z.of_nat i) 0 100 []) <$> seq 1000 n))].

(** Two rows with the same class name are one identity to the comparison,
    which keeps the last, smaller one: between dumps in which the instances of
    one class grow from one to five and nothing else changes, no growth is
    reported. *)
Theorem compare_hides_growth : ∃ h1 h5,
  ParseHPROF (H := go_runtime) (Reader (encode 4 [] 0 (twins_dump 1)) io_EOF) = Ok h1 ∧
  ParseHPROF (H := go_runtime) (Reader (encode 4 [] 0 (twins_dump 5)) io_EOF) = Ok h5 ∧
  Bytes (Total h1) = 24 ∧ Bytes (Total h5) = 88 ∧ RankGrowthSuspects (H := go_runtime) h1 h5 10 = Ok [].
Proof. eexists _, _. split; [by vm_compute|]. split; [by vm_compute|]. by vm_compute. Qed.

(** ** Witnesses *)

Lemma graph_parse_exact_witness :
  wf_dump 4 demo_dump ∧ runs (ParseObjectGraph (H := go_runtime) (Reader (encode 4 (bytes_of_string " 1.0.2") 0 demo_dump) io_EOF)) (depicts 4 demo_dump).
Proof. split; [apply demo_wf|]. apply (@graph_parse_exact go_runtime go_runtime_ok); [apply demo_wf|apply demo_version|by vm_compute]. Defined.
Lemma graph_parse_safe_witness : ParseObjectGraph (H := go_runtime) demo_reader ≠ Panic ∧ graph_ok demo_graph.
Proof. destruct (@graph_parse_safe go_runtime go_runtime_ok demo_reader) as [H1 H2]. split; [exact H1|]. apply H2, demo_parses. Defined.
Lemma graph_accepts_encodings_witness :
  ParseObjectGraph (H := go_runtime) demo_reader = Ok demo_graph ∧
  ∃ n version stamp d, (n = 4 ∨ n = 8) ∧ ok_version version ∧ Forall (ok_record n) d ∧ r_bytes demo_reader = encode n version stamp d ∧
    runs (ParseHPROF (H := go_runtime) demo_reader) (tallies n d).
Proof. split; [apply demo_parses|]. apply (@graph_accepts_encodings go_runtime go_runtime_ok demo_reader demo_graph). apply demo_parses. Defined.
Lemma retained_exact_witness : runs (ComputeRetained demo_graph) (snapshot_ok demo_graph).
Proof. apply (@retained_exact go_runtime go_runtime_ok demo_reader). apply demo_parses. Defined.
Lemma dominators_exact_witness :
  runs (g ← ParseObjectGraph (H := go_runtime) (Reader (encode 4 (bytes_of_string " 1.0.2") 0 demo_dump) io_EOF); res ← Dominators (H := go_runtime) g 3; Ok (g, res))
    (λ '(g, res), depicts 4 demo_dump g ∧ ∃ s, snapshot_ok g s ∧ report_ok g s 3 res).
Proof. apply (@dominators_exact go_runtime go_runtime_ok); [apply demo_wf|apply demo_version|by vm_compute]. Defined.
Lemma histogram_exact_witness :
  Forall (ok_record 4) demo_dump ∧ runs (ParseHPROF (H := go_runtime) (Reader (encode 4 (bytes_of_string " 1.0.2") 0 demo_dump) io_EOF)) (tallies 4 demo_dump).
Proof.
  split; [apply demo_wf|]. apply (@histogram_exact go_runtime go_runtime_ok); [by left|apply demo_wf|apply demo_version|by vm_compute].
Defined.
Lemma parsers_agree_witness :
  ∃ g h, ParseObjectGraph (H := go_runtime) (Reader (encode 4 (bytes_of_string " 1.0.2") 0 demo_dump) io_EOF) = Ok g ∧
    ParseHPROF (H := go_runtime) (Reader (encode 4 (bytes_of_string " 1.0.2") 0 demo_dump) io_EOF) = Ok h ∧
    Instances (Total h) = Len g - 2 ∧ Bytes (Total h) = i64 (shallow_total g - 8).
Proof. apply (@parsers_agree go_runtime go_runtime_ok 4 demo_dump); [apply demo_wf|apply demo_version|by vm_compute]. Defined.

Lemma paths_exact_witness :
  runs (PathsToGCRoots demo_graph [0; 3] 2) (λ '(g', ps), paths_ok demo_graph [0; 3] 2 ps ∧
    (∀ p, p ∈ ps → ∃ l t, t ∈ [0; 3] ∧ root_path demo_graph l t ∧ Forall2 (step_of demo_graph) l (Steps p)) ∧
    (∀ l t, t ∈ [0; 3] → root_path demo_graph l t → ∃ p ps', ps = p :: ps' ∧ len (Steps p) <= len l)).
Proof.
  apply (@paths_exact go_runtime go_runtime_ok demo_reader); [apply demo_parses| |lia]. intros t Ht.
  repeat (apply elem_of_cons in Ht as [->|Ht]; [by vm_compute|]). by apply not_elem_of_nil in Ht.
Defined.
Definition demo_options : LeakOptions := {| ThresholdPercent := of_Z 50; MaxSuspects := 3 |}.
Definition demo_snapshot (n : Z) : Snapshot :=
  {| Runtime := RuntimeJVM; Source := "test"; Records := [{| Identity := "A"; Compare.DisplayName := "A"; LiveCount := n; Compare.ShallowBytes := 8 * n |}]; Compare.TotalShallowBytes := 8 * n |}.
Lemma compare_exact_witness :
  ∃ ds, Compare (H := go_runtime) (Some (demo_snapshot 1)) (Some (demo_snapshot 3)) = Ok ds ∧ changes (demo_snapshot 1) (demo_snapshot 3) ds ∧
    Compare (H := go_runtime_rev) (Some (demo_snapshot 1)) (Some (demo_snapshot 3)) = Ok ds ∧
    RankGrowth (H := go_runtime) (Some (demo_snapshot 1)) (Some (demo_snapshot 3)) 5 = Ok (List.map growth (take (Z.to_nat 5) (filter (λ d, 0 < DeltaBytes d) ds))).
Proof. apply (@compare_exact go_runtime go_runtime_ok go_runtime_rev go_runtime_rev_ok). lia. Defined.
Definition demo_lines : list line := [
  Row 3 9 7 2 {| Rank := 1; Instances := 26; Bytes := 4096; ce_ClassName := "[B"; Module_ := "java.base@17" |};
  Row 3 9 7 2 {| Rank := 2; Instances := 3; Bytes := 120; ce_ClassName := "com.example.Cache"; Module_ := "" |}; Sum 0 4 6 29 4216].
Lemma histogram_text_roundtrip_witness :
  ParseHistogram (H := ascii_only) (H0 := λ s, [s]) (H1 := ascii_printable) (print_histogram (Header 1 4 "#instances         #bytes  class name (module)") demo_lines) =
  Ok (fold_left read_line (Header 1 4 "#instances         #bytes  class name (module)" :: demo_lines) {| Entries := []; Total := zero_entry; Skipped := [] |}).
Proof.
  apply (@histogram_text_roundtrip ascii_only (λ s, [s]) ascii_printable). constructor.
  - split; [|done]. eexists _, _, _, _. split; [|split].
    3: { split; [done|by vm_compute]. }
    all: done.
  - repeat (constructor; [repeat split; (done || (intros ?; discriminate))|]). constructor.
Defined.
