(* ===== verification/NetPacket.v ===== *)
(** * Packet capture: the pcap reader and the packet decoder

    Models [src/internal/netcap/pcap.go] (module [Pcap]) and
    [src/internal/netcap/packet.go] (module [Packet]).  Every slice expression
    and index of the source is a [slice]/[idx] of the prelude, so an
    out-of-range access would be a [Panic]; the theorems show that no input
    reaches one, that a decoded payload is a window of the captured bytes, and
    that well-formed captures and frames are read back exactly. *)

From S2P Require Import Prelude GoStrings GoIO.

Module Pcap.

Definition pcapHeaderLen : Z := 24.
Definition DefaultSnapLen : Z := 262144.

Definition LinkTypeNull : Z := 0.
Definition LinkTypeEthernet : Z := 1.
Definition LinkTypeRaw : Z := 101.
Definition LinkTypeLoop : Z := 108.
Definition LinkTypeLinuxSLL : Z := 113.

(** [binary.ByteOrder], with the two instances the reader can select. *)
Inductive ByteOrder := LittleEndian | BigEndian.
Definition order_uint (o : ByteOrder) (n : nat) (l : list byte) : outcome Z :=
  match o with LittleEndian => le_uint n l | BigEndian => be_uint n l end.

Record PCAPReader := {
  r : reader;
  order : ByteOrder;
  LinkType : Z;
  SnapLen : Z;
  Nanosecond : bool }.

Record PCAPPacket := {
  TimestampSec : Z;
  TimestampFrac : Z;
  CapturedLen : Z;
  OriginalLen : Z;
  Data : list byte }.

Definition magic_le : list byte := ["212"; "195"; "178"; "161"]%byte.
Definition magic_be : list byte := ["161"; "178"; "195"; "212"]%byte.
Definition magic_le_ns : list byte := ["077"; "060"; "178"; "161"]%byte.
Definition magic_be_ns : list byte := ["161"; "178"; "060"; "077"]%byte.

Definition pcapByteOrder (magic : list byte) : outcome (ByteOrder * bool) :=
  if decide (magic = magic_le) then Ok (LittleEndian, false)
  else if decide (magic = magic_be) then Ok (BigEndian, false)
  else if decide (magic = magic_le_ns) then Ok (LittleEndian, true)
  else if decide (magic = magic_be_ns) then Ok (BigEndian, true)
  else Err (Errorf ("unsupported pcap magic 0x" +:+ hex_bytes magic)).

Definition NewPCAPReader (rd : reader) : outcome PCAPReader :=
  '(hdr, rd) ← wrap_err "read pcap header: %w" (io_ReadFull rd pcapHeaderLen);
  h4 ← slice hdr 0 4;
  '(order, nanos) ← pcapByteOrder h4;
  h46 ← slice hdr 4 6;
  major ← order_uint order 2 h46;
  if negb (major =? 2) then
    h68 ← slice hdr 6 8;
    minor ← order_uint order 2 h68;
    Err (Errorf ("unsupported pcap version " +:+ pretty major +:+ "." +:+ pretty minor))
  else
    h1620 ← slice hdr 16 20;
    snap ← order_uint order 4 h1620;
    h2024 ← slice hdr 20 24;
    link ← order_uint order 4 h2024;
    Ok {| r := rd; order := order; SnapLen := snap; LinkType := link; Nanosecond := nanos |}.

Definition with_r (p : PCAPReader) (rd : reader) : PCAPReader :=
  {| r := rd; order := order p; LinkType := LinkType p; SnapLen := SnapLen p; Nanosecond := Nanosecond p |}.

Definition Next (p : PCAPReader) : outcome (PCAPPacket * PCAPReader) :=
  match io_ReadFull (r p) 16 with
  | Err e => if decide (e = io_EOF) then Err io_EOF else Err (Wrapf "read packet header: %w" e)
  | Panic => Panic
  | Ok (hdr, rd) =>
    h812 ← slice hdr 8 12;
    inclLen ← order_uint (order p) 4 h812;
    h1216 ← slice hdr 12 16;
    origLen ← order_uint (order p) 4 h1216;
    if (0 <? SnapLen p) && (SnapLen p <? inclLen) then
      Err (Errorf ("packet length " +:+ pretty inclLen +:+ " exceeds snaplen " +:+ pretty (SnapLen p)))
    else if DefaultSnapLen <? inclLen then
      Err (Errorf ("packet length " +:+ pretty inclLen +:+ " exceeds max supported length " +:+ pretty DefaultSnapLen))
    else
      '(data, rd) ← wrap_err "read packet data: %w" (io_ReadFull rd inclLen);
      h04 ← slice hdr 0 4;
      sec ← order_uint (order p) 4 h04;
      h48 ← slice hdr 4 8;
      frac ← order_uint (order p) 4 h48;
      Ok ({| TimestampSec := sec; TimestampFrac := frac; CapturedLen := inclLen;
             OriginalLen := origLen; Data := data |}, with_r p rd)
  end.

End Pcap.

Module Packet.

Definition etherTypeIPv4 : Z := 0x0800.
Definition etherTypeIPv6 : Z := 0x86dd.
Definition loopFamilyIPv4 : Z := 2.
Definition ipProtoTCP : Z := 6.
Definition ipProtoUDP : Z := 17.
Definition ipv6HeaderLen : Z := 40.
Definition ipProtoIPv6Frag : Z := 44.
Definition maxIPv6ExtHeaders : nat := 8.
Definition ipv6ExtHopByHop : Z := 0.
Definition ipv6ExtRouting : Z := 43.
Definition ipv6ExtDestOpts : Z := 60.

Definition loopFamiliesIPv6 : list Z := [30; 28; 10].

(** [netip.Addr] as built by [AddrFrom4] and [AddrFrom16]. *)
Inductive Addr := AddrFrom4 (b : list byte) | AddrFrom16 (b : list byte).
#[export] Instance Addr_eq_dec : EqDecision Addr.
Proof. solve_decision. Defined.

Record FlowPacket := {
  NetworkProto : string;
  TransportProto : string;
  SrcAddr : Addr;
  DstAddr : Addr;
  SrcPort : Z;
  DstPort : Z;
  TCPSeq : Z;
  TCPAck : Z;
  TCPFlags : Z;
  Payload : list byte }.

(** The composite literal [FlowPacket{NetworkProto, SrcAddr, DstAddr}]: the
    transport fields are zero until a transport decoder sets them. *)
Definition newFlow (np : string) (src dst : Addr) : FlowPacket :=
  {| NetworkProto := np; TransportProto := ""; SrcAddr := src; DstAddr := dst;
     SrcPort := 0; DstPort := 0; TCPSeq := 0; TCPAck := 0; TCPFlags := 0; Payload := [] |}.

Definition decodeTCPFlow (out : FlowPacket) (data : list byte) : outcome FlowPacket :=
  if len data <? 20 then Err (Errorf "tcp segment too short") else
  d12 ← idx data 12;
  let headerLen := Z.shiftr (b2z d12) 4 * 4 in
  if (headerLen <? 20) || (len data <? headerLen) then Err (Errorf "invalid tcp header length") else
  s02 ← slice data 0 2; sport ← be_u16 s02;
  s24 ← slice data 2 4; dport ← be_u16 s24;
  s48 ← slice data 4 8; seq ← be_u32 s48;
  s812 ← slice data 8 12; ack ← be_u32 s812;
  flags ← idx data 13;
  payload ← slice_from data headerLen;
  Ok {| NetworkProto := NetworkProto out; TransportProto := "tcp";
        SrcAddr := SrcAddr out; DstAddr := DstAddr out;
        SrcPort := sport; DstPort := dport; TCPSeq := seq; TCPAck := ack;
        TCPFlags := b2z flags; Payload := payload |}.

Definition decodeUDPFlow (out : FlowPacket) (data : list byte) : outcome FlowPacket :=
  if len data <? 8 then Err (Errorf "udp datagram too short") else
  s46 ← slice data 4 6; udpLen ← be_u16 s46;
  if (udpLen <? 8) || (len data <? udpLen) then Err (Errorf "invalid udp length") else
  s02 ← slice data 0 2; sport ← be_u16 s02;
  s24 ← slice data 2 4; dport ← be_u16 s24;
  payload ← slice data 8 udpLen;
  Ok {| NetworkProto := NetworkProto out; TransportProto := "udp";
        SrcAddr := SrcAddr out; DstAddr := DstAddr out;
        SrcPort := sport; DstPort := dport; TCPSeq := TCPSeq out; TCPAck := TCPAck out;
        TCPFlags := TCPFlags out; Payload := payload |}.

Definition decodeIPv4Flow (data : list byte) : outcome FlowPacket :=
  if len data <? 20 then Err (Errorf "ipv4 packet too short") else
  d0 ← idx data 0;
  let version := Z.shiftr (b2z d0) 4 in
  if negb (version =? 4) then Err (Errorf ("unsupported ip version " +:+ pretty version)) else
  let ihl := Z.land (b2z d0) 0x0f * 4 in
  if (ihl <? 20) || (len data <? ihl) then Err (Errorf "invalid ipv4 header length") else
  s24 ← slice data 2 4; totalLen ← be_u16 s24;
  if (totalLen <? ihl) || (len data <? totalLen) then Err (Errorf "invalid ipv4 total length") else
  s68 ← slice data 6 8; frag ← be_u16 s68;
  if negb (Z.land frag 0x3fff =? 0) then Err (Errorf "fragmented ipv4 packet unsupported") else
  src ← slice data 12 16;
  dst ← slice data 16 20;
  body ← slice data ihl totalLen;
  let out := newFlow "ipv4" (AddrFrom4 src) (AddrFrom4 dst) in
  d9 ← idx data 9;
  if b2z d9 =? ipProtoTCP then decodeTCPFlow out body
  else if b2z d9 =? ipProtoUDP then decodeUDPFlow out body
  else Err (Errorf ("unsupported ip protocol " +:+ pretty (b2z d9))).

(** The extension-header loop [for hops := 0; hops < maxIPv6ExtHeaders; hops++];
    [hops] counts the remaining iterations. *)
Fixpoint ipv6Loop (hops : nat) (out : FlowPacket) (data : list byte) (end_ offset nextHeader : Z)
  : outcome FlowPacket :=
  match hops with
  | O => Err (Errorf "too many ipv6 extension headers")
  | S hops =>
    if nextHeader =? ipProtoTCP then
      body ← slice data offset end_; decodeTCPFlow out body
    else if nextHeader =? ipProtoUDP then
      body ← slice data offset end_; decodeUDPFlow out body
    else if (nextHeader =? ipv6ExtHopByHop) || (nextHeader =? ipv6ExtRouting)
            || (nextHeader =? ipv6ExtDestOpts) then
      if end_ <? offset + 2 then Err (Errorf "truncated ipv6 extension header") else
      next ← idx data offset;
      el ← idx data (offset + 1);
      let offset' := offset + (b2z el + 1) * 8 in
      if end_ <? offset' then Err (Errorf "invalid ipv6 extension header length")
      else ipv6Loop hops out data end_ offset' (b2z next)
    else if nextHeader =? ipProtoIPv6Frag then Err (Errorf "fragmented ipv6 packet unsupported")
    else Err (Errorf ("unsupported ipv6 next header " +:+ pretty nextHeader))
  end.

Definition decodeIPv6Flow (data : list byte) : outcome FlowPacket :=
  if len data <? ipv6HeaderLen then Err (Errorf "ipv6 packet too short") else
  d0 ← idx data 0;
  let version := Z.shiftr (b2z d0) 4 in
  if negb (version =? 6) then Err (Errorf ("unsupported ip version " +:+ pretty version)) else
  s46 ← slice data 4 6; plen ← be_u16 s46;
  let end0 := ipv6HeaderLen + plen in
  let end_ := if (end0 <=? ipv6HeaderLen) || (len data <? end0) then len data else end0 in
  src ← slice data 8 24;
  dst ← slice data 24 40;
  let out := newFlow "ipv6" (AddrFrom16 src) (AddrFrom16 dst) in
  nh ← idx data 6;
  ipv6Loop maxIPv6ExtHeaders out data end_ ipv6HeaderLen (b2z nh).

Definition decodeRawIPFlow (data : list byte) : outcome FlowPacket :=
  if len data <? 1 then Err (Errorf "empty ip packet") else
  d0 ← idx data 0;
  let v := Z.shiftr (b2z d0) 4 in
  if v =? 4 then decodeIPv4Flow data
  else if v =? 6 then decodeIPv6Flow data
  else Err (Errorf ("unsupported ip version " +:+ pretty v)).

Definition isIPv6LoopFamily (family : Z) : bool :=
  existsb (λ f, family =? f) loopFamiliesIPv6.

Definition decodeLoopbackFlow (data : list byte) : outcome FlowPacket :=
  if len data <? 4 then Err (Errorf "loopback packet too short") else
  s04 ← slice data 0 4;
  familyBE ← be_uint 4 s04;
  familyLE ← le_uint 4 s04;
  if (familyBE =? loopFamilyIPv4) || (familyLE =? loopFamilyIPv4) then
    d ← slice_from data 4; decodeIPv4Flow d
  else if isIPv6LoopFamily familyBE || isIPv6LoopFamily familyLE then
    d ← slice_from data 4; decodeIPv6Flow d
  else Err (Errorf "unsupported loopback family").

Definition decodeLinuxSLLFlow (data : list byte) : outcome FlowPacket :=
  if len data <? 16 then Err (Errorf "linux sll packet too short") else
  s ← slice data 14 16;
  proto ← be_u16 s;
  if proto =? etherTypeIPv4 then d ← slice_from data 16; decodeIPv4Flow d
  else if proto =? etherTypeIPv6 then d ← slice_from data 16; decodeIPv6Flow d
  else Err (Errorf "unsupported linux sll protocol").

Definition DecodeFlowPacket (linkType : Z) (data : list byte) : outcome FlowPacket :=
  if linkType =? Pcap.LinkTypeEthernet then
    if len data <? 14 then Err (Errorf "ethernet packet too short") else
    s ← slice data 12 14;
    et ← be_u16 s;
    if et =? etherTypeIPv4 then d ← slice_from data 14; decodeIPv4Flow d
    else if et =? etherTypeIPv6 then d ← slice_from data 14; decodeIPv6Flow d
    else Err (Errorf "unsupported ethernet ethertype")
  else if linkType =? Pcap.LinkTypeRaw then decodeRawIPFlow data
  else if (linkType =? Pcap.LinkTypeNull) || (linkType =? Pcap.LinkTypeLoop) then decodeLoopbackFlow data
  else if linkType =? Pcap.LinkTypeLinuxSLL then decodeLinuxSLLFlow data
  else Err (Errorf ("unsupported link type " +:+ pretty linkType)).

End Packet.

(** ** What a decoded packet is *)

Module PacketFacts.
Import Packet.

(** [p] is a contiguous window of [data]. *)
Definition window (data p : list byte) : Prop :=
  ∃ off, 0 <= off ∧ off + len p <= len data ∧ p = sub data off (off + len p).

Lemma window_sub data lo hi : 0 <= lo <= hi → hi <= len data → window data (sub data lo hi).
Proof. intros. exists lo. rewrite len_sub by lia. replace (lo + (hi - lo)) with hi by lia. split_and!; [lia..|done]. Qed.
Lemma window_trans data m p : window data m → window m p → window data p.
Proof.
  intros (o & ? & ? & Hm) (o' & ? & Hl & Hp). exists (o + o'). split_and!; [lia..|].
  rewrite Hp at 1. rewrite Hm at 1. rewrite sub_sub by glia. f_equal; lia.
Qed.

Record flow_ok (data : list byte) (fp : FlowPacket) : Prop := {
  ok_net : NetworkProto fp = "ipv4" ∨ NetworkProto fp = "ipv6";
  ok_transport : TransportProto fp = "tcp" ∨ TransportProto fp = "udp";
  ok_sport : 0 <= SrcPort fp < 2 ^ 16;
  ok_dport : 0 <= DstPort fp < 2 ^ 16;
  ok_seq : 0 <= TCPSeq fp < 2 ^ 32;
  ok_ack : 0 <= TCPAck fp < 2 ^ 32;
  ok_flags : 0 <= TCPFlags fp < 2 ^ 8;
  ok_payload : window data (Payload fp) }.

Lemma flow_ok_window data d fp : window data d → flow_ok d fp → flow_ok data fp.
Proof. intros Hw []. constructor; eauto using window_trans. Qed.

(** What the transport decoders need of the partially filled packet. *)
Definition net_ok (out : FlowPacket) : Prop :=
  (NetworkProto out = "ipv4" ∨ NetworkProto out = "ipv6") ∧
  TCPSeq out = 0 ∧ TCPAck out = 0 ∧ TCPFlags out = 0.

Lemma newFlow_ok np a b : np = "ipv4" ∨ np = "ipv6" → net_ok (newFlow np a b).
Proof. by repeat split. Qed.

Lemma shiftr4_range b : 0 <= Z.shiftr (b2z b) 4 < 16.
Proof.
  pose proof (b2z_range b). rewrite Z.shiftr_div_pow2 by lia. change (2 ^ 4) with 16.
  split; [apply Z.div_pos|apply Z.div_lt_upper_bound]; lia.
Qed.

Lemma wp_decodeTCPFlow out data :
  net_ok out → wp (decodeTCPFlow out data) (flow_ok data).
Proof.
  intros (? & ? & ? & ?). unfold decodeTCPFlow. wp_go.
  len_facts. constructor; simpl; auto; try lia. apply window_sub; lia.
Qed.

Lemma wp_decodeUDPFlow out data :
  net_ok out → wp (decodeUDPFlow out data) (flow_ok data).
Proof.
  intros (? & ? & ? & ?). unfold decodeUDPFlow. wp_go.
  len_facts. constructor; simpl; auto; try lia. apply window_sub; lia.
Qed.

Lemma wp_flow_window m data d : window data d → wp m (flow_ok d) → wp m (flow_ok data).
Proof. intros. eapply wp_mono; eauto using flow_ok_window. Qed.

#[local] Hint Resolve wp_decodeTCPFlow wp_decodeUDPFlow newFlow_ok : spectra.

Lemma wp_decodeIPv4Flow data : wp (decodeIPv4Flow data) (flow_ok data).
Proof.
  unfold decodeIPv4Flow. wp_go;
    (eapply wp_flow_window; [|eauto with spectra]; apply window_sub; glia).
Qed.

Lemma wp_ipv6Loop hops out data end_ offset nh :
  net_ok out → 0 <= offset <= end_ → end_ <= len data →
  wp (ipv6Loop hops out data end_ offset nh) (flow_ok data).
Proof.
  intros Hout. revert offset nh. induction hops as [|hops IH]; intros offset nh ??; [done|].
  cbn [ipv6Loop]. wp_go.
  1,2: eapply wp_flow_window; [|eauto with spectra]; apply window_sub; glia.
  apply IH; glia.
Qed.

Lemma wp_decodeIPv6Flow data : wp (decodeIPv6Flow data) (flow_ok data).
Proof.
  unfold decodeIPv6Flow, ipv6HeaderLen. wp_go.
  apply wp_ipv6Loop; [auto with spectra|..]; case_match; to_prop; len_facts; lia.
Qed.

#[local] Hint Resolve wp_decodeIPv4Flow wp_decodeIPv6Flow : spectra.

Lemma wp_from {data} {f : list byte → outcome FlowPacket} lo :
  (∀ d, wp (f d) (flow_ok d)) → 0 <= lo <= len data →
  wp (slice_from data lo ≫= f) (flow_ok data).
Proof.
  intros Hf ?. apply wp_bind, wp_slice_from; [lia|]. intros _.
  eapply wp_flow_window; [|apply Hf]; apply window_sub; lia.
Qed.

Lemma wp_DecodeFlowPacket linkType data : wp (DecodeFlowPacket linkType data) (flow_ok data).
Proof.
  unfold DecodeFlowPacket, decodeRawIPFlow, decodeLoopbackFlow, decodeLinuxSLLFlow.
  repeat first [apply wp_from; [auto with spectra|glia] | wp_step; to_prop].
Qed.
End PacketFacts.

(** ** Wire encodings *)

Module Wire.
Import Packet.

Definition udp_datagram (sport dport cksum : Z) (p : list byte) : list byte :=
  be_bytes 2 sport ++ be_bytes 2 dport ++ be_bytes 2 (8 + len p) ++ be_bytes 2 cksum ++ p.

(** [rest] is the six bytes of window, checksum and urgent pointer. *)
Definition tcp_segment (sport dport seq ack flags : Z) (rest opts p : list byte) : list byte :=
  be_bytes 2 sport ++ be_bytes 2 dport ++ be_bytes 4 seq ++ be_bytes 4 ack ++
  [z2b ((5 + len opts `div` 4) * 16 + 0)] ++ [z2b flags] ++ rest ++ opts ++ p.

(** An IPv4 packet; [df] is the don't-fragment flag. *)
Definition ipv4_packet (tos : byte) (ident : Z) (df : bool) (ttl : byte) (proto cksum : Z)
    (src dst opts body : list byte) : list byte :=
  [z2b (4 * 16 + (5 + len opts `div` 4))] ++ [tos] ++ be_bytes 2 (20 + len opts + len body) ++
  be_bytes 2 ident ++ be_bytes 2 (if df then 0x4000 else 0) ++ [ttl] ++ [z2b proto] ++
  be_bytes 2 cksum ++ src ++ dst ++ opts ++ body.

(** An option-style IPv6 extension header: its type and its option bytes. *)
Definition ext : Type := Z * list byte.
Definition ext_ok (e : ext) : Prop :=
  (e.1 = ipv6ExtHopByHop ∨ e.1 = ipv6ExtRouting ∨ e.1 = ipv6ExtDestOpts) ∧
  ∃ k, 0 <= k < 256 ∧ len e.2 = 6 + 8 * k.
Fixpoint ipv6_exts (exts : list ext) (nh : Z) : list byte :=
  match exts with
  | [] => []
  | e :: rest =>
    [z2b (match rest with [] => nh | e' :: _ => e'.1 end)] ++
    [z2b ((len e.2 - 6) `div` 8)] ++ e.2 ++ ipv6_exts rest nh
  end.
Definition first_header (exts : list ext) (nh : Z) : Z :=
  match exts with [] => nh | e :: _ => e.1 end.
Definition ipv6_packet (tc : byte) (label : list byte) (hop : byte) (exts : list ext) (nh : Z)
    (src dst body : list byte) : list byte :=
  [z2b (6 * 16 + 0)] ++ [tc] ++ label ++ be_bytes 2 (len (ipv6_exts exts nh) + len body) ++
  [z2b (first_header exts nh)] ++ [hop] ++ src ++ dst ++ ipv6_exts exts nh ++ body.

Definition udp_flow (out : FlowPacket) (sport dport : Z) (p : list byte) : FlowPacket :=
  {| NetworkProto := NetworkProto out; TransportProto := "udp";
     SrcAddr := SrcAddr out; DstAddr := DstAddr out;
     SrcPort := sport; DstPort := dport; TCPSeq := TCPSeq out; TCPAck := TCPAck out;
     TCPFlags := TCPFlags out; Payload := p |}.
Definition tcp_flow (out : FlowPacket) (sport dport seq ack flags : Z) (p : list byte) : FlowPacket :=
  {| NetworkProto := NetworkProto out; TransportProto := "tcp";
     SrcAddr := SrcAddr out; DstAddr := DstAddr out;
     SrcPort := sport; DstPort := dport; TCPSeq := seq; TCPAck := ack;
     TCPFlags := flags; Payload := p |}.

Lemma decode_udp_datagram out sport dport cksum p pad :
  0 <= sport < 2 ^ 16 → 0 <= dport < 2 ^ 16 → 8 + len p < 2 ^ 16 →
  decodeUDPFlow out (udp_datagram sport dport cksum p ++ pad) = Ok (udp_flow out sport dport p).
Proof.
  intros. unfold decodeUDPFlow, udp_datagram. rewrite <-!app_assoc. len_facts.
  branch. read_fields. branch. by read_fields.
Qed.

Lemma decode_tcp_segment out sport dport seq ack flags rest opts p k :
  0 <= sport < 2 ^ 16 → 0 <= dport < 2 ^ 16 → 0 <= seq < 2 ^ 32 → 0 <= ack < 2 ^ 32 →
  0 <= flags < 2 ^ 8 → len rest = 6 → len opts = 4 * k → 0 <= k <= 10 →
  decodeTCPFlow out (tcp_segment sport dport seq ack flags rest opts p) =
  Ok (tcp_flow out sport dport seq ack flags p).
Proof.
  intros ????? Hr Ho ?. unfold decodeTCPFlow, tcp_segment.
  replace (len opts `div` 4) with k by (rewrite Ho, Z.mul_comm, Z.div_mul; lia).
  len_facts. branch. read_fields. destruct (nibbles (5 + k) 0) as (-> & -> & _); [lia..|].
  branch. read_fields. rewrite z2b_spec, Z.mod_small by lia.
  unfold slice_from. rewrite slice_ok by len_lia. rewrite bind_ok.
  unfold tcp_flow. repeat f_equal.
  repeat (rewrite sub_skip by len_lia; autorewrite with len).
  rewrite <-(sub_all p) at 3. f_equal; lia.
Qed.

Lemma decode_ipv4_packet tos ident df ttl proto cksum src dst opts body pad k :
  len src = 4 → len dst = 4 → len opts = 4 * k → 0 <= k <= 10 →
  20 + len opts + len body < 2 ^ 16 → 0 <= proto < 256 →
  decodeIPv4Flow (ipv4_packet tos ident df ttl proto cksum src dst opts body ++ pad) =
  let out := newFlow "ipv4" (AddrFrom4 src) (AddrFrom4 dst) in
  if proto =? ipProtoTCP then decodeTCPFlow out body
  else if proto =? ipProtoUDP then decodeUDPFlow out body
  else Err (Errorf ("unsupported ip protocol " +:+ pretty proto)).
Proof.
  intros Hs Hd Ho ???. unfold decodeIPv4Flow, ipv4_packet. rewrite <-!app_assoc.
  replace (len opts `div` 4) with k by (rewrite Ho, Z.mul_comm, Z.div_mul; lia).
  len_facts. branch. read_fields. destruct (nibbles 4 (5 + k)) as (-> & -> & ->); [lia..|].
  branch. branch. read_fields. branch. destruct df; read_fields; branch; read_fields;
    rewrite z2b_spec, (Z.mod_small proto) by lia; reflexivity.
Qed.

Definition transport (out : FlowPacket) (nh : Z) (body : list byte) : outcome FlowPacket :=
  if nh =? ipProtoTCP then decodeTCPFlow out body else decodeUDPFlow out body.

Lemma first_header_range exts nh :
  Forall ext_ok exts → nh = ipProtoTCP ∨ nh = ipProtoUDP → 0 <= first_header exts nh < 256.
Proof.
  unfold ipProtoTCP, ipProtoUDP. intros Hx ?. destruct Hx as [|e exts [He _] _]; simpl; [lia|].
  unfold ipv6ExtHopByHop, ipv6ExtRouting, ipv6ExtDestOpts in He. lia.
Qed.

Lemma ipv6Loop_exts out nh body pad exts hops pre :
  Forall ext_ok exts → nh = ipProtoTCP ∨ nh = ipProtoUDP →
  ipv6Loop hops out (pre ++ ipv6_exts exts nh ++ body ++ pad)
    (len pre + len (ipv6_exts exts nh) + len body) (len pre) (first_header exts nh) =
  if (length exts <? hops)%nat then transport out nh body
  else Err (Errorf "too many ipv6 extension headers").
Proof.
  intros Hx Hnh. revert hops pre.
  induction Hx as [|e exts [He (k & Hk & Hl)] Hx IH]; intros [|hops] pre; [done| |done|].
  - simpl. rewrite len_nil, Z.add_0_r.
    assert (slice (pre ++ body ++ pad) (len pre) (len pre + len body) = Ok body) as ->.
    { rewrite slice_skip by lia. apply slice_head'; lia. }
    unfold transport. by destruct Hnh as [-> | ->].
  - cbn [ipv6Loop first_header]. unfold ipv6ExtHopByHop, ipv6ExtRouting, ipv6ExtDestOpts in He.
    assert ((e.1 =? ipProtoTCP) = false ∧ (e.1 =? ipProtoUDP) = false ∧
      (e.1 =? ipv6ExtHopByHop) || (e.1 =? ipv6ExtRouting) || (e.1 =? ipv6ExtDestOpts) = true)
      as (-> & -> & ->) by (destruct He as [-> | [-> | ->]]; done).
    cbn [ipv6_exts]. fold (first_header exts nh).
    pose proof (first_header_range exts nh Hx Hnh).
    set (rest := ipv6_exts exts nh) in *. rewrite <-!app_assoc. len_facts.
    branch. read_fields. rewrite !z2b_spec, !Z.mod_small.
    2: lia. 2: rewrite Hl; replace (6 + 8 * k - 6) with (k * 8) by lia; rewrite Z.div_mul; lia.
    rewrite Hl. replace (6 + 8 * k - 6) with (k * 8) by lia. rewrite Z.div_mul by lia.
    branch.
    specialize (IH hops (pre ++ [z2b (first_header exts nh)] ++ [z2b k] ++ e.2)).
    rewrite <-!app_assoc in IH.
    replace (len pre + (k + 1) * 8) with (len (pre ++ [z2b (first_header exts nh)] ++ [z2b k] ++ e.2)) by len_lia.
    change (length (e :: exts) <? S hops)%nat with (length exts <? hops)%nat.
    rewrite <-IH. f_equal. len_lia.
Qed.

Lemma decode_ipv6_packet tc label hop exts nh src dst body pad :
  len label = 2 → len src = 16 → len dst = 16 → Forall ext_ok exts →
  nh = ipProtoTCP ∨ nh = ipProtoUDP →
  0 < len (ipv6_exts exts nh) + len body < 2 ^ 16 →
  decodeIPv6Flow (ipv6_packet tc label hop exts nh src dst body ++ pad) =
  if (length exts <? maxIPv6ExtHeaders)%nat
  then transport (newFlow "ipv6" (AddrFrom16 src) (AddrFrom16 dst)) nh body
  else Err (Errorf "too many ipv6 extension headers").
Proof.
  intros Hlb Hs Hd Hx Hnh ?. unfold decodeIPv6Flow, ipv6_packet, ipv6HeaderLen.
  pose proof (first_header_range exts nh Hx Hnh).
  rewrite <-!app_assoc. len_facts. branch. read_fields.
  destruct (nibbles 6 0) as (-> & -> & _); [lia..|]. branch. read_fields.
  rewrite z2b_spec, Z.mod_small by lia.
  branch.
  set (hdr := [z2b (6 * 16 + 0)] ++ [tc] ++ label ++
      be_bytes 2 (len (ipv6_exts exts nh) + len body) ++
      [z2b (first_header exts nh)] ++ [hop] ++ src ++ dst).
  assert (len hdr = 40) as Hh by (subst hdr; len_lia).
  pose proof (ipv6Loop_exts (newFlow "ipv6" (AddrFrom16 src) (AddrFrom16 dst)) nh body pad exts
    maxIPv6ExtHeaders hdr Hx Hnh) as HL.
  rewrite Hh, <-Z.add_assoc in HL. subst hdr. rewrite <-!app_assoc in HL. exact HL.
Qed.

(** Frames assembled from a link, a network and a transport layer. *)
Inductive seg :=
| TCP (sport dport seq ack flags : Z) (rest opts p : list byte)
| UDP (sport dport cksum : Z) (p : list byte).
Inductive net :=
| V4 (tos : byte) (ident : Z) (df : bool) (ttl : byte) (cksum : Z) (src dst opts : list byte)
| V6 (tc : byte) (label : list byte) (hop : byte) (exts : list ext) (src dst : list byte).
Inductive link :=
| Ethernet (macs : list byte)
| Raw
| Loopback (loop big_endian : bool) (v6family : Z)
| LinuxSLL (hdr : list byte).

Definition seg_proto (t : seg) : Z := match t with TCP _ _ _ _ _ _ _ _ => ipProtoTCP | _ => ipProtoUDP end.
Definition seg_bytes (t : seg) : list byte :=
  match t with
  | TCP sp dp s a f r o p => tcp_segment sp dp s a f r o p
  | UDP sp dp c p => udp_datagram sp dp c p
  end.
Definition seg_ok (t : seg) : Prop :=
  match t with
  | TCP sp dp s a f r o p =>
    0 <= sp < 2 ^ 16 ∧ 0 <= dp < 2 ^ 16 ∧ 0 <= s < 2 ^ 32 ∧ 0 <= a < 2 ^ 32 ∧ 0 <= f < 2 ^ 8 ∧
    len r = 6 ∧ ∃ k, len o = 4 * k ∧ 0 <= k <= 10
  | UDP sp dp c p => 0 <= sp < 2 ^ 16 ∧ 0 <= dp < 2 ^ 16 ∧ 8 + len p < 2 ^ 16
  end.
Definition seg_flow (out : FlowPacket) (t : seg) : FlowPacket :=
  match t with
  | TCP sp dp s a f _ _ p => tcp_flow out sp dp s a f p
  | UDP sp dp _ p => udp_flow out sp dp p
  end.

Definition net_bytes (n : net) (proto : Z) (body : list byte) : list byte :=
  match n with
  | V4 tos id df ttl ck src dst o => ipv4_packet tos id df ttl proto ck src dst o body
  | V6 tc lb hop exts src dst => ipv6_packet tc lb hop exts proto src dst body
  end.
Definition net_ok (n : net) (proto : Z) (body : list byte) : Prop :=
  match n with
  | V4 _ _ _ _ _ src dst o =>
    len src = 4 ∧ len dst = 4 ∧ 20 + len o + len body < 2 ^ 16 ∧ ∃ k, len o = 4 * k ∧ 0 <= k <= 10
  | V6 _ lb _ exts src dst =>
    len lb = 2 ∧ len src = 16 ∧ len dst = 16 ∧ Forall ext_ok exts ∧
    len (ipv6_exts exts proto) + len body < 2 ^ 16
  end.
(** IPv6 packets with at most seven extension headers are supported. *)
Definition net_supported (n : net) : bool :=
  match n with V4 _ _ _ _ _ _ _ _ => true | V6 _ _ _ exts _ _ => (length exts <? 8)%nat end.
Definition net_out (n : net) : FlowPacket :=
  match n with
  | V4 _ _ _ _ _ src dst _ => newFlow "ipv4" (AddrFrom4 src) (AddrFrom4 dst)
  | V6 _ _ _ _ src dst => newFlow "ipv6" (AddrFrom16 src) (AddrFrom16 dst)
  end.
Definition is_v6 (n : net) : bool := match n with V6 _ _ _ _ _ _ => true | _ => false end.

Definition link_type (l : link) : Z :=
  match l with
  | Ethernet _ => Pcap.LinkTypeEthernet
  | Raw => Pcap.LinkTypeRaw
  | Loopback loop _ _ => if loop then Pcap.LinkTypeLoop else Pcap.LinkTypeNull
  | LinuxSLL _ => Pcap.LinkTypeLinuxSLL
  end.
Definition link_bytes (l : link) (v6 : bool) (packet : list byte) : list byte :=
  let et := if v6 then etherTypeIPv6 else etherTypeIPv4 in
  match l with
  | Ethernet macs => macs ++ be_bytes 2 et ++ packet
  | Raw => packet
  | Loopback _ big fam =>
    (if big then be_bytes else le_bytes) 4%nat (if v6 then fam else loopFamilyIPv4) ++ packet
  | LinuxSLL hdr => hdr ++ be_bytes 2 et ++ packet
  end.
Definition link_ok (l : link) : Prop :=
  match l with
  | Ethernet macs => len macs = 12
  | Raw => True
  | Loopback _ _ fam => In fam loopFamiliesIPv6
  | LinuxSLL hdr => len hdr = 14
  end.

Lemma net_bytes_pos n proto body : 0 < len (net_bytes n proto body).
Proof. destruct n; simpl; unfold ipv4_packet, ipv6_packet; len_lia. Qed.

Lemma decode_seg out t : seg_ok t →
  transport out (seg_proto t) (seg_bytes t) = Ok (seg_flow out t).
Proof.
  destruct t; simpl.
  - intros (?&?&?&?&?&?&k&?&?). by apply (decode_tcp_segment out) with k.
  - intros (?&?&?). rewrite <-(app_nil_r (udp_datagram _ _ _ _)). by apply decode_udp_datagram.
Qed.

(** Dispatch on the IP version after the link header. *)
Definition decodeIP (v6 : bool) : list byte → outcome FlowPacket :=
  if v6 then decodeIPv6Flow else decodeIPv4Flow.

Lemma decode_net n proto body pad :
  proto = ipProtoTCP ∨ proto = ipProtoUDP → 0 < len body → net_ok n proto body →
  decodeIP (is_v6 n) (net_bytes n proto body ++ pad) =
  if net_supported n then transport (net_out n) proto body
  else Err (Errorf "too many ipv6 extension headers").
Proof.
  intros Hp Hb. destruct n; cbn [net_ok net_bytes decodeIP is_v6 net_supported net_out].
  - intros (?&?&?&k&?&?). rewrite decode_ipv4_packet with (k := k); try done;
      by destruct Hp as [-> | ->].
  - intros (?&?&?&?&?). apply decode_ipv6_packet; try done. len_facts. lia.
Qed.

Lemma slice_from_skip {A} (a b : list A) n : len a = n → slice_from (a ++ b) n = Ok b.
Proof.
  intros <-. unfold slice_from. rewrite slice_skip by lia. apply slice_all'; rewrite ?len_app; lia.
Qed.

Lemma decode_raw n proto body pad :
  net_ok n proto body →
  decodeRawIPFlow (net_bytes n proto body ++ pad) = decodeIP (is_v6 n) (net_bytes n proto body ++ pad).
Proof.
  intros Hn. unfold decodeRawIPFlow. pose proof (net_bytes_pos n proto body). branch.
  destruct n; simpl is_v6; cbn [net_bytes net_ok] in *.
  - destruct Hn as (?&?&?&k&Ho&?). read_fields.
    replace (len opts `div` 4) with k by (rewrite Ho, Z.mul_comm, Z.div_mul; lia).
    by destruct (nibbles 4 (5 + k)) as (-> & -> & _); [lia..|].
  - read_fields.
    by destruct (nibbles 6 0) as (-> & -> & _); [lia..|].
Qed.

Lemma decode_loopback big fam (v6 : bool) packet :
  In fam loopFamiliesIPv6 →
  decodeLoopbackFlow ((if big : bool then be_bytes else le_bytes) 4%nat (if v6 then fam else loopFamilyIPv4) ++ packet)
  = decodeIP v6 packet.
Proof.
  intros Hf. unfold decodeLoopbackFlow. simpl in Hf.
  set (hdr := (if big then be_bytes else le_bytes) 4%nat _).
  assert (len hdr = 4) as Hh by (subst hdr; by destruct big; rewrite ?len_be_bytes, ?len_le_bytes).
  branch. rewrite slice_head, bind_ok, slice_from_skip by done.
  destruct Hf as [<- | [<- | [<- | []]]]; subst hdr; by destruct big, v6.
Qed.

Lemma decode_link l n proto body pad :
  link_ok l → net_ok n proto body →
  DecodeFlowPacket (link_type l) (link_bytes l (is_v6 n) (net_bytes n proto body ++ pad)) =
  decodeIP (is_v6 n) (net_bytes n proto body ++ pad).
Proof.
  intros Hl Hn. unfold DecodeFlowPacket. set (packet := net_bytes n proto body ++ pad).
  destruct l as [macs| |loop big fam|hdr]; cbn [link_type link_bytes link_ok] in *.
  - rewrite (Z.eqb_refl Pcap.LinkTypeEthernet). branch. destruct (is_v6 n); 
      unfold etherTypeIPv4, etherTypeIPv6; read_fields; repeat branch;
      rewrite app_assoc; by rewrite slice_from_skip by len_lia.
  - simpl. by apply decode_raw.
  - destruct loop; simpl; by apply decode_loopback.
  - unfold Pcap.LinkTypeLinuxSLL, Pcap.LinkTypeEthernet, Pcap.LinkTypeRaw, Pcap.LinkTypeNull, Pcap.LinkTypeLoop.
    do 4 branch. unfold decodeLinuxSLLFlow. branch. destruct (is_v6 n); 
      unfold etherTypeIPv4, etherTypeIPv6; read_fields; repeat branch;
      rewrite app_assoc; by rewrite slice_from_skip by len_lia.
Qed.

Lemma seg_bytes_pos t : 0 < len (seg_bytes t).
Proof. destruct t; simpl; unfold tcp_segment, udp_datagram; len_lia. Qed.

Lemma decode_frame l n t pad :
  link_ok l → seg_ok t → net_ok n (seg_proto t) (seg_bytes t) →
  DecodeFlowPacket (link_type l)
    (link_bytes l (is_v6 n) (net_bytes n (seg_proto t) (seg_bytes t) ++ pad)) =
  if net_supported n then Ok (seg_flow (net_out n) t)
  else Err (Errorf "too many ipv6 extension headers").
Proof.
  intros. rewrite decode_link, decode_net; try done.
  - by rewrite decode_seg.
  - destruct t; auto.
  - apply seg_bytes_pos.
Qed.
End Wire.

(** ** Capture files *)

Module PcapWire.
Import Pcap.

Definition order_bytes (o : ByteOrder) (n : nat) (z : Z) : list byte :=
  match o with LittleEndian => le_bytes n z | BigEndian => be_bytes n z end.
Definition magic (o : ByteOrder) (nanos : bool) : list byte :=
  match o, nanos with
  | LittleEndian, false => magic_le | BigEndian, false => magic_be
  | LittleEndian, true => magic_le_ns | BigEndian, true => magic_be_ns
  end.

Definition file_header (o : ByteOrder) (nanos : bool) (major minor : Z) (zone : list byte) (snap link : Z) : list byte :=
  magic o nanos ++ order_bytes o 2 major ++ order_bytes o 2 minor ++ zone ++
  order_bytes o 4 snap ++ order_bytes o 4 link.
Definition packet_record (o : ByteOrder) (p : PCAPPacket) : list byte :=
  (order_bytes o 4 (TimestampSec p) ++ order_bytes o 4 (TimestampFrac p) ++
   order_bytes o 4 (CapturedLen p) ++ order_bytes o 4 (OriginalLen p)) ++ Data p.

(** A packet a reader with snap length [snap] accepts. *)
Record packet_ok (snap : Z) (p : PCAPPacket) : Prop := {
  pk_sec : 0 <= TimestampSec p < 2 ^ 32;
  pk_frac : 0 <= TimestampFrac p < 2 ^ 32;
  pk_orig : 0 <= OriginalLen p < 2 ^ 32;
  pk_len : CapturedLen p = len (Data p);
  pk_max : len (Data p) <= DefaultSnapLen;
  pk_snap : snap = 0 ∨ len (Data p) <= snap }.

Lemma len_order_bytes o n z : len (order_bytes o n z) = Z.of_nat n.
Proof. destruct o; simpl; by rewrite ?len_le_bytes, ?len_be_bytes. Qed.
Lemma order_uint_bytes o n z : 0 <= z < 256 ^ Z.of_nat n → order_uint o n (order_bytes o n z) = Ok z.
Proof. destruct o; [apply le_uint_le_bytes|apply be_uint_be_bytes]. Qed.
Lemma len_magic o nanos : len (magic o nanos) = 4.
Proof. by destruct o, nanos. Qed.
#[local] Hint Rewrite len_order_bytes len_magic : len.

Ltac read_order :=
  lazymatch goal with
  | |- (order_uint _ _ _ ≫= _) = _ => rewrite order_uint_bytes by lia
  | |- _ => read_field
  end.

(** The reader state after the file header. *)
Definition open (o : ByteOrder) (nanos : bool) (snap link : Z) (body : list byte) : PCAPReader :=
  {| r := Reader body io_EOF; order := o; LinkType := link; SnapLen := snap; Nanosecond := nanos |}.

Lemma NewPCAPReader_header o nanos major minor zone snap link body :
  len zone = 8 → 0 <= major < 2 ^ 16 → 0 <= minor < 2 ^ 16 → 0 <= snap < 2 ^ 32 → 0 <= link < 2 ^ 32 →
  NewPCAPReader (Reader (file_header o nanos major minor zone snap link ++ body) io_EOF) =
  if major =? 2 then Ok (open o nanos snap link body)
  else Err (Errorf ("unsupported pcap version " +:+ pretty major +:+ "." +:+ pretty minor)).
Proof.
  intros. unfold NewPCAPReader. rewrite io_ReadFull_app by (unfold file_header, pcapHeaderLen; len_lia).
  simpl wrap_err. rewrite bind_ok. unfold file_header. read_fields.
  assert (pcapByteOrder (magic o nanos) = Ok (o, nanos)) as -> by (by destruct o, nanos).
  rewrite bind_ok. repeat read_order. destruct (major =? 2); simpl negb; cbv iota; by repeat read_order.
Qed.

Lemma Next_record o nanos snap link p rest :
  packet_ok snap p → 0 <= snap →
  Next (open o nanos snap link (packet_record o p ++ rest)) = Ok (p, open o nanos snap link rest).
Proof.
  intros [] ?. unfold Next, DefaultSnapLen in *. assert (0 <= CapturedLen p < 2 ^ 32) by glia. cbn [Pcap.r Pcap.order Pcap.SnapLen open].
  unfold packet_record at 1. rewrite <-app_assoc. rewrite io_ReadFull_app by len_lia.
  cbv beta iota. repeat read_order. rewrite (proj2 (andb_false_iff _ _)).
  2: { rewrite !Z.ltb_ge. lia. }
  branch. rewrite io_ReadFull_app by done. simpl wrap_err. repeat read_order.
  destruct p; simpl in *. by rewrite pk_len0.
Qed.

Lemma Next_eof o nanos snap link : Next (open o nanos snap link []) = Err io_EOF.
Proof. done. Qed.

(** A record cut short is reported as an error that is not [io.EOF] itself;
    it still satisfies [errors.Is(err, io.EOF)] when the cut is exactly after
    the sixteen header bytes. *)
Lemma Next_truncated o nanos snap link p pre :
  packet_ok snap p → 0 <= snap → pre ≠ [] → pre `prefix_of` packet_record o p → pre ≠ packet_record o p →
  ∃ e, Next (open o nanos snap link pre) = Err e ∧ e ≠ io_EOF ∧ errors_is_EOF e = (len pre =? 16).
Proof.
  intros [] ? Hne Hpre Hcut. unfold Next, DefaultSnapLen in *.
  assert (0 <= CapturedLen p < 2 ^ 32) by glia. cbn [Pcap.r Pcap.order Pcap.SnapLen open].
  destruct Hpre as [k Hk]. pose proof (len_nonneg k).
  assert (0 < len pre) by (destruct pre; [done|len_lia]).
  assert (len pre < len (packet_record o p)).
  { rewrite Hk. destruct k; [by rewrite app_nil_r in Hk|]. len_lia. }
  destruct (Z.ltb_spec (len pre) 16).
  - rewrite io_ReadFull_short by done. rewrite (proj2 (Z.eqb_neq (len pre) 0)) by lia. simpl.
    eexists. split_and!; [done..|]. simpl. symmetry. apply Z.eqb_neq. lia.
  - unfold packet_record in *. revert Hk.
    set (hdr := order_bytes o 4 (TimestampSec p) ++ order_bytes o 4 (TimestampFrac p) ++
      order_bytes o 4 (CapturedLen p) ++ order_bytes o 4 (OriginalLen p)). intros Hk.
    assert (len hdr = 16) by (subst hdr; len_lia).
    assert (∃ d, pre = hdr ++ d) as [d ->].
    { exists (sub pre 16 (len pre)). rewrite <-(sub_head hdr (Data p) 16), Hk by done.
      unfold sub. rewrite drop_0, take_app_le by (unfold len in *; lia).
      rewrite take_ge with (n := Z.to_nat (len pre - 16)) by (unfold len; rewrite length_drop; lia).
      by rewrite take_drop. }
    rewrite io_ReadFull_app by done. subst hdr. cbv beta iota.
    exists (Wrapf "read packet data: %w" (if len d =? 0 then io_EOF else io_ErrUnexpectedEOF)).
    split_and!; [|done|simpl; rewrite len_app].
    + repeat read_order. rewrite (proj2 (andb_false_iff _ _)) by (rewrite !Z.ltb_ge; lia).
      branch. by rewrite io_ReadFull_short by (autorewrite with len in *; lia).
    + autorewrite with len in *. destruct (Z.eqb_spec (len d) 0); simpl; symmetry;
        [apply Z.eqb_eq|apply Z.eqb_neq]; lia.
Qed.

(** Reading packets until [Next] fails, as the loop of [SummarizePCAP] does:
    an error that wraps [io.EOF] ends the capture. *)
Fixpoint drain (fuel : nat) (p : PCAPReader) : outcome (list PCAPPacket) :=
  match fuel with
  | O => out_of_fuel
  | S fuel =>
    match Next p with
    | Ok (pk, p') => pks ← drain fuel p'; Ok (pk :: pks)
    | Err e => if errors_is_EOF e then Ok [] else Err e
    | Panic => Panic
    end
  end.

Fixpoint capture (o : ByteOrder) (pks : list PCAPPacket) : list byte :=
  match pks with [] => [] | p :: pks => packet_record o p ++ capture o pks end.

Lemma drain_capture o nanos snap link pks tail fuel :
  Forall (packet_ok snap) pks → 0 <= snap →
  drain (length pks + fuel) (open o nanos snap link (capture o pks ++ tail)) =
  (pks' ← drain fuel (open o nanos snap link tail); Ok (pks ++ pks')).
Proof.
  intros Hp ?. induction Hp as [|p pks Hp Hps IH]; cbn [capture drain length Nat.add].
  - by destruct (drain _ _).
  - rewrite <-app_assoc, Next_record by done. rewrite IH.
    by destruct (drain fuel _).
Qed.
End PcapWire.

(** ** Properties *)

Import Packet PacketFacts Wire PcapWire.

(** Decoding the bytes of a frame of any link type never panics (no index
    or slice expression goes out of range), and a packet it returns is well
    formed: its protocol names are the supported ones, ports, sequence numbers
    and flags fit their machine width, and the payload is a contiguous window
    of the captured bytes. *)
Theorem decode_flow_safe linkType data :
  DecodeFlowPacket linkType data ≠ Panic ∧
  (∀ fp, DecodeFlowPacket linkType data = Ok fp → flow_ok data fp).
Proof.
  pose proof (wp_DecodeFlowPacket linkType data) as H.
  split; [by eapply wp_no_panic|]. intros fp. by apply wp_elim.
Qed.

(** C28: Round trip: a TCP or UDP segment in an IPv4 packet (with options) or
    an IPv6 packet (with extension headers), followed by any padding, in a
    frame of any supported link type, is decoded to exactly the addresses,
    ports, TCP fields and payload it was built from; an IPv6 packet with more
    than seven extension headers is rejected. *)
Theorem decode_frame_roundtrip l n t pad
  (Hl : link_ok l) (Ht : seg_ok t) (Hn : net_ok n (seg_proto t) (seg_bytes t)) :
  DecodeFlowPacket (link_type l)
    (link_bytes l (is_v6 n) (net_bytes n (seg_proto t) (seg_bytes t) ++ pad)) =
  if net_supported n then Ok (seg_flow (net_out n) t)
  else Err (Errorf "too many ipv6 extension headers").
Proof. by apply decode_frame. Qed.

Lemma decode_frame_roundtrip_witness :
  let l := Ethernet (replicate 12 x00) in
  let n := V6 x00 [x00; x00] x40 [(60, replicate 6 x00)] (replicate 16 x01) (replicate 16 x02) in
  let t := UDP 5353 53 0 [x61; x62] in
  DecodeFlowPacket (link_type l)
    (link_bytes l (is_v6 n) (net_bytes n (seg_proto t) (seg_bytes t) ++ [x00])) =
  Ok (seg_flow (net_out n) t).
Proof.
  intros l n t. apply (decode_frame_roundtrip l n t [x00]).
  - reflexivity.
  - vm_compute. intuition congruence.
  - split_and!; try reflexivity. apply List.Forall_cons; [|apply List.Forall_nil].
    split; [right; right; reflexivity|]. exists 0. split; [lia|reflexivity].
Defined.

(** A capture file in either byte order and either timestamp resolution is
    read back packet for packet and then ends cleanly; a file of another major
    version is rejected. *)
Theorem pcap_roundtrip o nanos major minor zone snap link pks
  (Hz : len zone = 8) (Hmaj : 0 <= major < 2 ^ 16) (Hmin : 0 <= minor < 2 ^ 16)
  (Hs : 0 <= snap < 2 ^ 32) (Hl : 0 <= link < 2 ^ 32) (Hp : Forall (packet_ok snap) pks) :
  (Pcap.NewPCAPReader (Reader (file_header o nanos major minor zone snap link ++ capture o pks) io_EOF)
     ≫= drain (S (length pks))) =
  if major =? 2 then Ok pks
  else Err (Errorf ("unsupported pcap version " +:+ pretty major +:+ "." +:+ pretty minor)).
Proof.
  rewrite NewPCAPReader_header by done. destruct (major =? 2); [|done].
  rewrite bind_ok. rewrite <-(app_nil_r (capture o pks)).
  replace (S (length pks)) with (length pks + 1)%nat by lia.
  rewrite drain_capture by (done || lia). simpl. by rewrite app_nil_r.
Qed.

Definition witness_packet : Pcap.PCAPPacket :=
  {| Pcap.TimestampSec := 7; Pcap.TimestampFrac := 9; Pcap.CapturedLen := 2;
     Pcap.OriginalLen := 60; Pcap.Data := [x01; x02] |}.

Lemma pcap_roundtrip_witness :
  (Pcap.NewPCAPReader (Reader (file_header Pcap.BigEndian true 2 4 (replicate 8 x00) 65535 1
     ++ capture Pcap.BigEndian [witness_packet]) io_EOF) ≫= drain 2) = Ok [witness_packet].
Proof.
  apply (pcap_roundtrip Pcap.BigEndian true 2 4 (replicate 8 x00) 65535 1 [witness_packet]);
    try lia; [reflexivity|]. repeat constructor; vm_compute; intuition congruence.
Defined.

(** A capture cut inside a packet record is reported as an error, with one
    exception: when the cut is exactly after the record's sixteen header bytes
    the error wraps [io.EOF], so the capture is taken as complete and the
    packet is lost silently. *)
Theorem pcap_truncation o nanos snap link pks p pre
  (Hs : 0 <= snap) (Hp : Forall (packet_ok snap) (pks ++ [p])) (Hne : pre ≠ [])
  (Hpre : pre `prefix_of` packet_record o p) (Hcut : pre ≠ packet_record o p) :
  if len pre =? 16
  then drain (S (length pks)) (open o nanos snap link (capture o pks ++ pre)) = Ok pks
  else ∃ e, drain (S (length pks)) (open o nanos snap link (capture o pks ++ pre)) = Err e.
Proof.
  apply Forall_app in Hp as [Hps Hp]. inversion_clear Hp.
  destruct (Next_truncated o nanos snap link p pre) as (e & HN & _ & He); try done.
  replace (S (length pks)) with (length pks + 1)%nat by lia.
  rewrite drain_capture by done. simpl. rewrite HN, He. destruct (len pre =? 16); simpl.
  - by rewrite app_nil_r.
  - by eexists.
Qed.

Lemma pcap_truncation_witness :
  drain 1 (open Pcap.LittleEndian false 0 1 (take 16 (packet_record Pcap.LittleEndian witness_packet))) = Ok [].
Proof.
  apply (pcap_truncation Pcap.LittleEndian false 0 1 [] witness_packet
    (take 16 (packet_record Pcap.LittleEndian witness_packet))).
  - lia.
  - repeat constructor; vm_compute; intuition congruence.
  - discriminate.
  - apply (prefix_take _ 16).
  - discriminate.
Defined.
