(* ===== verification/NetProto.v ===== *)
(** * Protocol parsers: DNS, TLS ClientHello and HTTP/1 headers

    Models [src/internal/netproto/dns.go], [tls.go] and [http.go].  Loops carry
    fuel bounded by the length of the input; running out of it would be a
    [Panic], which the safety theorems exclude for every input. *)

From S2P Require Import Prelude GoStrings GoScan.
From Stdlib Require Import Ascii.

Module DNS.

Definition dnsHeaderLen : Z := 12.

Record DNSQuestion := { Name : string; Type_ : string; Class_ : string }.
Record DNSMessage := {
  ID : Z; Response : bool; OpCode : Z; RCode : Z; Truncated : bool;
  Questions : list DNSQuestion; Answers : Z }.

Definition dnsType (t : Z) : string :=
  if t =? 1 then "A" else if t =? 2 then "NS" else if t =? 5 then "CNAME"
  else if t =? 15 then "MX" else if t =? 16 then "TXT" else if t =? 28 then "AAAA"
  else if t =? 33 then "SRV" else if t =? 65 then "HTTPS"
  else "TYPE" +:+ itoa t.
Definition dnsClass (c : Z) : string := if c =? 1 then "IN" else "CLASS" +:+ itoa c.

(** The [for] loop of [parseDNSName] over the labels of a name; [rec] is the
    recursive call for a compression pointer. *)
Fixpoint nameLoop (rec : Z → outcome (string * Z)) (fuel : nat) (packet : list byte)
    (labels : list string) (next : Z) : outcome (string * Z) :=
  match fuel with
  | O => out_of_fuel
  | S fuel =>
    if len packet <=? next then Err (Errorf "dns name exceeds buffer") else
    lb ← idx packet next;
    let l := b2z lb in
    let next := next + 1 in
    if l =? 0 then
      Ok (if decide (labels = []) then "." else Join labels ".", next)
    else if Z.land l 0xc0 =? 0xc0 then
      if len packet <=? next then Err (Errorf "dns compression pointer exceeds buffer") else
      lo ← idx packet next;
      let ptr := Z.lor (Z.shiftl (Z.land l 0x3f) 8) (b2z lo) in
      '(name, _) ← rec ptr;
      Ok (Join (labels ++ [name]) ".", next + 1)
    else if negb (Z.land l 0xc0 =? 0) then Err (Errorf "unsupported dns label type")
    else
      rest ← slice_from packet next;
      if (l =? 0) || (len rest <? l) then Err (Errorf "dns label exceeds buffer") else
      lab ← slice packet next (next + l);
      nameLoop rec fuel packet (labels ++ [string_of_bytes lab]) (next + l)
  end.

(** [parseDNSName(packet, pos, depth)]; [dl] is [9 - depth], the recursion
    depth still allowed. *)
Fixpoint parseDNSName (dl : nat) (packet : list byte) (pos : Z) : outcome (string * Z) :=
  match dl with
  | O => Err (Errorf "dns name compression loop")
  | S dl => nameLoop (parseDNSName dl packet) (S (length packet)) packet [] pos
  end.

(** The question loop of [ParseDNSMessage]; [n] questions remain. *)
Fixpoint parseQuestions (n : nat) (packet : list byte) (pos : Z) (acc : list DNSQuestion)
  : outcome (list DNSQuestion) :=
  match n with
  | O => Ok acc
  | S n =>
    '(name, next) ← parseDNSName 9 packet pos;
    let pos := next in
    rest ← slice_from packet pos;
    if len rest <? 4 then Err (Errorf "dns question exceeds buffer") else
    s1 ← slice packet pos (pos + 2); qType ← be_u16 s1;
    s2 ← slice packet (pos + 2) (pos + 4); qClass ← be_u16 s2;
    parseQuestions n packet (pos + 4)
      (acc ++ [{| Name := name; Type_ := dnsType qType; Class_ := dnsClass qClass |}])
  end.

Definition ParseDNSMessage (packet : list byte) : outcome DNSMessage :=
  if len packet <? dnsHeaderLen then Err (Errorf "dns message too short") else
  s24 ← slice packet 2 4; flags ← be_u16 s24;
  s46 ← slice packet 4 6; qdCount ← be_u16 s46;
  s68 ← slice packet 6 8; anCount ← be_u16 s68;
  s02 ← slice packet 0 2; id ← be_u16 s02;
  qs ← parseQuestions (Z.to_nat qdCount) packet dnsHeaderLen [];
  Ok {| ID := id;
        Response := negb (Z.land flags 0x8000 =? 0);
        OpCode := Z.land (Z.shiftr flags 11) 0x0f;
        RCode := Z.land flags 0x0f;
        Truncated := negb (Z.land flags 0x0200 =? 0);
        Questions := qs; Answers := anCount |}.

End DNS.

Module TLS.

Definition tlsRecordHandshake : Z := 22.
Definition tlsHandshakeClient : Z := 1.
Definition tlsExtServerName : Z := 0.
Definition tlsExtALPN : Z := 16.
Definition tlsExtSupportedVers : Z := 43.
Definition tlsExtEncryptedHello : Z := 0xfe0d.

Record TLSClientHello := {
  SNI : string; ALPN : list string; LegacyVersion : string;
  SupportedVersions : list string; ECHPresent : bool }.

Definition set_SNI (h : TLSClientHello) (s : string) : TLSClientHello :=
  {| SNI := s; ALPN := ALPN h; LegacyVersion := LegacyVersion h;
     SupportedVersions := SupportedVersions h; ECHPresent := ECHPresent h |}.
Definition set_ALPN (h : TLSClientHello) (l : list string) : TLSClientHello :=
  {| SNI := SNI h; ALPN := l; LegacyVersion := LegacyVersion h;
     SupportedVersions := SupportedVersions h; ECHPresent := ECHPresent h |}.
Definition set_Versions (h : TLSClientHello) (l : list string) : TLSClientHello :=
  {| SNI := SNI h; ALPN := ALPN h; LegacyVersion := LegacyVersion h;
     SupportedVersions := l; ECHPresent := ECHPresent h |}.
Definition set_ECH (h : TLSClientHello) : TLSClientHello :=
  {| SNI := SNI h; ALPN := ALPN h; LegacyVersion := LegacyVersion h;
     SupportedVersions := SupportedVersions h; ECHPresent := true |}.

Definition tlsVersion (major minor : byte) : string :=
  let M := b2z major in let m := b2z minor in
  if (M =? 3) && (m =? 0) then "SSL 3.0"
  else if (M =? 3) && (1 <=? m) && (m <=? 4) then "TLS 1." +:+ itoa (m - 1)
  else "0x" +:+ hex2 M +:+ hex2 m.

(** [readUint8], [readUint16] and [skip] advance [*pos]; their boolean result
    is the option. *)
Definition readUint8 (data : list byte) (pos : Z) : outcome (option (Z * Z)) :=
  if len data <=? pos then Ok None else
  v ← idx data pos; Ok (Some (b2z v, pos + 1)).
Definition readUint16 (data : list byte) (pos : Z) : outcome (option (Z * Z)) :=
  rest ← slice_from data pos;
  if len rest <? 2 then Ok None else
  s ← slice data pos (pos + 2); v ← be_u16 s; Ok (Some (v, pos + 2)).
Definition skip (data : list byte) (pos n : Z) : outcome (option Z) :=
  if n <? 0 then Ok None else
  rest ← slice_from data pos;
  if len rest <? n then Ok None else Ok (Some (pos + n)).

Fixpoint serverNameLoop (fuel : nat) (data : list byte) (listLen pos : Z) : outcome string :=
  match fuel with
  | O => out_of_fuel
  | S fuel =>
    if 2 + listLen <? pos + 3 then Ok "" else
    nameType ← idx data pos;
    s ← slice data (pos + 1) (pos + 3); nameLen ← be_u16 s;
    let pos := pos + 3 in
    rest ← slice_from data pos;
    if len rest <? nameLen then Ok ""
    else if b2z nameType =? 0 then
      nm ← slice data pos (pos + nameLen); Ok (string_of_bytes nm)
    else serverNameLoop fuel data listLen (pos + nameLen)
  end.
Definition parseServerName (data : list byte) : outcome string :=
  if len data <? 2 then Ok "" else
  s ← slice data 0 2; listLen ← be_u16 s;
  rest ← slice_from data 2;
  if len rest <? listLen then Ok ""
  else serverNameLoop (S (length data)) data listLen 2.

Fixpoint alpnLoop (fuel : nat) (data : list byte) (listLen pos : Z) (protocols : list string)
  : outcome (list string) :=
  match fuel with
  | O => out_of_fuel
  | S fuel =>
    if 2 + listLen <=? pos then Ok protocols else
    n ← idx data pos;
    let nameLen := b2z n in
    let pos := pos + 1 in
    if nameLen =? 0 then Ok protocols else
    rest ← slice_from data pos;
    if len rest <? nameLen then Ok protocols else
    nm ← slice data pos (pos + nameLen);
    alpnLoop fuel data listLen (pos + nameLen) (protocols ++ [string_of_bytes nm])
  end.
Definition parseALPN (data : list byte) : outcome (list string) :=
  if len data <? 2 then Ok [] else
  s ← slice data 0 2; listLen ← be_u16 s;
  rest ← slice_from data 2;
  if len rest <? listLen then Ok []
  else alpnLoop (S (length data)) data listLen 2 [].

Fixpoint versionsLoop (fuel : nat) (data : list byte) (listLen pos : Z) (versions : list string)
  : outcome (list string) :=
  match fuel with
  | O => out_of_fuel
  | S fuel =>
    if 1 + listLen <=? pos then Ok versions else
    a ← idx data pos;
    b ← idx data (pos + 1);
    versionsLoop fuel data listLen (pos + 2) (versions ++ [tlsVersion a b])
  end.
Definition parseSupportedVersions (data : list byte) : outcome (list string) :=
  if len data <? 1 then Ok [] else
  l0 ← idx data 0;
  let listLen := b2z l0 in
  rest ← slice_from data 1;
  if negb (listLen `mod` 2 =? 0) || (len rest <? listLen) then Ok []
  else versionsLoop (S (length data)) data listLen 1 [].

Fixpoint parseTLSExtensions (fuel : nat) (exts : list byte) (pos : Z) (hello : TLSClientHello)
  : outcome TLSClientHello :=
  match fuel with
  | O => out_of_fuel
  | S fuel =>
    if len exts <? pos + 4 then Ok hello else
    s1 ← slice exts pos (pos + 2); extType ← be_u16 s1;
    s2 ← slice exts (pos + 2) (pos + 4); extLen ← be_u16 s2;
    let pos := pos + 4 in
    rest ← slice_from exts pos;
    if len rest <? extLen then Ok hello else
    data ← slice exts pos (pos + extLen);
    hello ←
      (if extType =? tlsExtServerName then
         sni ← parseServerName data;
         Ok (if decide (sni = "") then hello else set_SNI hello sni)
       else if extType =? tlsExtALPN then
         p ← parseALPN data; Ok (set_ALPN hello p)
       else if extType =? tlsExtSupportedVers then
         v ← parseSupportedVersions data; Ok (set_Versions hello v)
       else if extType =? tlsExtEncryptedHello then Ok (set_ECH hello)
       else Ok hello);
    parseTLSExtensions fuel exts (pos + extLen) hello
  end.

Definition parseClientHello (hello : list byte) : outcome TLSClientHello :=
  if len hello <? 34 then Err (Errorf "client hello too short") else
  v0 ← idx hello 0; v1 ← idx hello 1;
  let out := {| SNI := ""; ALPN := []; LegacyVersion := tlsVersion v0 v1;
                SupportedVersions := []; ECHPresent := false |} in
  let e1 := Err (Errorf "client hello session id exceeds buffer") in
  let e2 := Err (Errorf "client hello cipher suites exceed buffer") in
  let e3 := Err (Errorf "client hello compression methods exceed buffer") in
  let e4 := Err (Errorf "client hello extensions exceed buffer") in
  r1 ← readUint8 hello 34;
  match r1 with None => e1 | Some (sessionLen, pos) =>
  k1 ← skip hello pos sessionLen;
  match k1 with None => e1 | Some pos =>
  r2 ← readUint16 hello pos;
  match r2 with None => e2 | Some (cipherLen, pos) =>
  if negb (cipherLen `mod` 2 =? 0) then e2 else
  k2 ← skip hello pos cipherLen;
  match k2 with None => e2 | Some pos =>
  r3 ← readUint8 hello pos;
  match r3 with None => e3 | Some (compressionLen, pos) =>
  k3 ← skip hello pos compressionLen;
  match k3 with None => e3 | Some pos =>
  if pos =? len hello then Ok out else
  r4 ← readUint16 hello pos;
  match r4 with None => e4 | Some (extensionsLen, pos) =>
  rest ← slice_from hello pos;
  if len rest <? extensionsLen then e4 else
  exts ← slice hello pos (pos + extensionsLen);
  parseTLSExtensions (S (length exts)) exts 0 out
  end end end end end end end.

Definition ParseTLSClientHello (record : list byte) : outcome TLSClientHello :=
  if len record <? 5 then Err (Errorf "tls record too short") else
  r0 ← idx record 0;
  if negb (b2z r0 =? tlsRecordHandshake) then Err (Errorf "tls record is not a handshake") else
  s ← slice record 3 5; recordLen ← be_u16 s;
  rest ← slice_from record 5;
  if (recordLen <=? 0) || (len rest <? recordLen) then Err (Errorf "tls record length exceeds buffer") else
  body ← slice record 5 (5 + recordLen);
  if len body <? 4 then Err (Errorf "tls handshake is not a client hello") else
  b0 ← idx body 0;
  if negb (b2z b0 =? tlsHandshakeClient) then Err (Errorf "tls handshake is not a client hello") else
  b1 ← idx body 1; b2 ← idx body 2; b3 ← idx body 3;
  let helloLen := Z.lor (Z.lor (Z.shiftl (b2z b1) 16) (Z.shiftl (b2z b2) 8)) (b2z b3) in
  brest ← slice_from body 4;
  if (helloLen <=? 0) || (len brest <? helloLen) then Err (Errorf "client hello length exceeds record") else
  hello ← slice body 4 (4 + helloLen);
  parseClientHello hello.

End TLS.

Module HTTP.

Definition redactedHeaderValue : string := "[redacted]".
Definition sensitiveHTTPHeaders : list string :=
  ["authorization"; "cookie"; "proxy-authorization"; "set-cookie"; "x-api-key"].

Record HTTPHeader := { HName : string; Value : string; Redacted : bool }.
Record HTTPMessage := {
  IsRequest : bool; Method : string; Target : string; StatusCode : Z; Reason : string;
  Version : string; Headers : list HTTPHeader; WebSocket : bool; HTruncated : bool }.

(** [bufio.Scanner] with [ScanLines] and a 256 KiB buffer. *)
Definition maxTokenSize : Z := 256 * 1024.
Definition Scan (s : string) : scan_result := ScanLines maxTokenSize s.

Definition crlf2 : string := String "013" (String "010" (String "013" (String "010" ""))).
Definition lf2 : string := String "010" (String "010" "").

Definition splitHTTPHeaderBlock (data : string) : string * bool :=
  let i := Index data crlf2 in
  if 0 <=? i then (str_take (i + 2) data, false) else
  let i := Index data lf2 in
  if 0 <=? i then (str_take (i + 1) data, false) else (data, true).

Definition parseHTTPStartLine (line : string) : outcome HTTPMessage :=
  let parts := SplitN line " " 3 in
  if HasPrefix line "HTTP/" then
    match parts with
    | v :: codeText :: more =>
      match Atoi codeText with
      | None => Err (Wrapf "malformed http status code: %w" (Errorf "strconv.Atoi"))
      | Some code =>
        Ok {| IsRequest := false; Method := ""; Target := ""; StatusCode := code;
              Reason := match more with [reason] => reason | _ => "" end;
              Version := v; Headers := []; WebSocket := false; HTruncated := false |}
      end
    | _ => Err (Errorf "malformed http response line")
    end
  else
    match parts with
    | [m; t; v] =>
      if HasPrefix v "HTTP/" then
        Ok {| IsRequest := true; Method := m; Target := t; StatusCode := 0; Reason := "";
              Version := v; Headers := []; WebSocket := false; HTruncated := false |}
      else Err (Errorf "malformed http request line")
    | _ => Err (Errorf "malformed http request line")
    end.

Section HTTP.
Context `{Unicode}.

Definition parseHTTPHeader (line : string) : option HTTPHeader :=
  match Cut line ":"%char with
  | None => None
  | Some (name, value) =>
    let name := TrimSpace name in
    let value := TrimSpace value in
    let header :=
      if bool_decide (ToLower name ∈ sensitiveHTTPHeaders)
      then {| HName := name; Value := redactedHeaderValue; Redacted := true |}
      else {| HName := name; Value := value; Redacted := false |} in
    if decide (HName header = "") then None else Some header
  end.

(** The loop of [isWebSocketUpgrade] over the headers: the two flags. *)
Definition upgradeStep (flags : bool * bool) (h : HTTPHeader) : bool * bool :=
  let '(conn, upg) := flags in
  let name := ToLower (HName h) in
  let value := ToLower (Value h) in
  if decide (name = "connection") then
    (conn || existsb (λ part, bool_decide (TrimSpace part = "upgrade")) (Split value ","%char), upg)
  else if decide (name = "upgrade") then (conn, bool_decide (TrimSpace value = "websocket"))
  else flags.
Definition isWebSocketUpgrade (msg : HTTPMessage) : bool :=
  let '(conn, upg) := fold_left upgradeStep (Headers msg) (false, false) in
  if IsRequest msg then conn && upg else (StatusCode msg =? 101) && conn && upg.

(** The header loop: stops at an empty line, at the end, or at a scan error. *)
Fixpoint scanHeaders (fuel : nat) (s : string) (acc : list HTTPHeader) : outcome (list HTTPHeader) :=
  match fuel with
  | O => out_of_fuel
  | S fuel =>
    match Scan s with
    | ScanEnd => Ok acc
    | ScanTooLong => Err (Wrapf "scan http headers: %w" (Errorf "bufio.Scanner: token too long"))
    | ScanLine line rest =>
      if decide (line = "") then Ok acc
      else scanHeaders fuel rest
             (match parseHTTPHeader line with Some h => acc ++ [h] | None => acc end)
    end
  end.

Definition ParseHTTP1Headers (data : list byte) : outcome HTTPMessage :=
  let '(headerBlock, truncated) := splitHTTPHeaderBlock (string_of_bytes data) in
  match Scan headerBlock with
  | ScanEnd | ScanTooLong => Err (Errorf "http header block is empty")
  | ScanLine line rest =>
    msg ← parseHTTPStartLine line;
    headers ← scanHeaders (S (String.length rest)) rest [];
    let msg :=
      {| IsRequest := IsRequest msg; Method := Method msg; Target := Target msg;
         StatusCode := StatusCode msg; Reason := Reason msg; Version := Version msg;
         Headers := headers; WebSocket := false; HTruncated := truncated |} in
    Ok {| IsRequest := IsRequest msg; Method := Method msg; Target := Target msg;
          StatusCode := StatusCode msg; Reason := Reason msg; Version := Version msg;
          Headers := headers; WebSocket := isWebSocketUpgrade msg; HTruncated := truncated |}
  end.

End HTTP.
End HTTP.

(** ** DNS *)

Module DNSFacts.
Import DNS.

Lemma ptr_nonneg l lo : 0 <= Z.lor (Z.shiftl (Z.land (b2z l) 0x3f) 8) (b2z lo).
Proof.
  pose proof (b2z_range l). pose proof (b2z_range lo).
  apply Z.lor_nonneg. split; [|lia]. apply Z.shiftl_nonneg, Z.land_nonneg. lia.
Qed.

Lemma wp_nameLoop rec fuel packet labels next :
  (∀ p, 0 <= p → wp (rec p) (λ _, True)) →
  0 <= next → Z.max 0 (len packet - next) < Z.of_nat fuel →
  wp (nameLoop rec fuel packet labels next) (λ r, next < r.2 <= len packet).
Proof.
  intros Hrec. revert labels next. induction fuel as [|fuel IH]; intros labels next ??; [lia|].
  cbn [nameLoop]. wp_go; simpl; [glia| |].
  - eapply wp_mono; [apply Hrec, ptr_nonneg|]. intros [name k] _. wp_go. simpl. glia.
  - eapply wp_mono; [apply IH; glia|]. simpl. intros. glia.
Qed.

Lemma wp_parseDNSName dl packet pos :
  0 <= pos → wp (parseDNSName dl packet pos) (λ r, pos < r.2 <= len packet).
Proof.
  revert pos. induction dl as [|dl IH]; intros pos ?; [done|]. cbn [parseDNSName].
  apply wp_nameLoop; [|lia|unfold len; lia].
  intros p Hp. eapply wp_mono; [by apply IH|done].
Qed.

Lemma wp_parseQuestions n packet pos acc :
  0 <= pos → wp (parseQuestions n packet pos acc) (λ qs, length qs = length acc + n)%nat.
Proof.
  revert pos acc. induction n as [|n IH]; intros pos acc ?; cbn [parseQuestions].
  { simpl. lia. }
  apply wp_bind. eapply wp_mono; [by apply wp_parseDNSName|]. intros [name next] Hn; simpl in Hn.
  wp_go. eapply wp_mono; [apply IH; glia|]. simpl. intros a ->. rewrite length_app. simpl. lia.
Qed.

Lemma wp_ParseDNSMessage packet :
  wp (ParseDNSMessage packet) (λ m, be_u16 (sub packet 4 6) = Ok (len (Questions m))).
Proof.
  unfold ParseDNSMessage, dnsHeaderLen. wp_go.
  eapply wp_mono; [apply wp_parseQuestions; lia|].
  intros qs Hq. wp_go. simpl in *. unfold len at 1. rewrite Hq, Z2Nat.id by lia. simpl.
  unfold be_uint. rewrite (proj2 (Nat.ltb_ge _ _)) by (unfold len in *; lia).
  by f_equal.
Qed.

(** *** The encoding of names (RFC 1035, section 4.1.4)

    [name_at packet k pos labels bare next]: the encoding at [pos] denotes the
    sequence [labels] through [k] compression pointers, and its first part ends
    at [next]; [bare] says that the last pointer is to a root octet, without a
    label between. *)
Inductive name_at (packet : list byte) : nat → Z → list (list byte) → bool → Z → Prop :=
| na_root pos : idx packet pos = Ok x00 → name_at packet 0 pos [] false (pos + 1)
| na_label k pos l lab rest bare next :
    idx packet pos = Ok l → 1 <= b2z l <= 63 →
    slice packet (pos + 1) (pos + 1 + b2z l) = Ok lab →
    name_at packet k (pos + 1 + b2z l) rest bare next →
    name_at packet k pos (lab :: rest) bare next
| na_pointer k pos hi lo rest bare next :
    idx packet pos = Ok hi → 192 <= b2z hi → idx packet (pos + 1) = Ok lo →
    name_at packet k ((b2z hi - 192) * 256 + b2z lo) rest bare next →
    name_at packet (S k) pos rest (bool_decide (rest = []) || bare) (pos + 2).

(** The dotted name, and what the parser makes of it: after labels, a pointer to
    the root is printed as one more label ["."]. *)
Definition dotted (labels : list string) : string := if decide (labels = []) then "." else Join labels ".".
Definition printed (labels : list string) (bare : bool) : string :=
  if bare && negb (bool_decide (labels = [])) then dotted labels +:+ ".." else dotted labels.

Lemma Join_snoc parts x sep : parts ≠ [] → Join (parts ++ [x]) sep = Join parts sep +:+ sep +:+ x.
Proof.
  induction parts as [|p parts IH]; [done|]. intros _. destruct parts as [|q parts]; [done|]. rewrite <-app_comm_cons, !Join_cons, IH by (by destruct parts).
  by rewrite !str_app_assoc.
Qed.
(** Joining the name behind a pointer to the labels before it. *)
Lemma printed_pointer acc rest bare :
  Join (acc ++ [printed rest bare]) "." = printed (acc ++ rest) (bool_decide (rest = []) || bare).
Proof.
  unfold printed, dotted. destruct rest as [|r rest].
  - rewrite app_nil_r, andb_false_r. cbn [orb bool_decide]. rewrite bool_decide_true by done. cbn [orb andb].
    destruct acc as [|a acc]; [done|]. rewrite (decide_True (P := [] = [])), bool_decide_false, decide_False by done. cbn [negb].
    by rewrite Join_snoc.
  - rewrite (bool_decide_false (r :: rest = [])), (bool_decide_false (acc ++ r :: rest = [])) by (done || by destruct acc).
    rewrite !decide_False by (done || by destruct acc). cbn [orb negb]. rewrite andb_true_r, <-(Join_snoc_Join acc (r :: rest)) by done.
    destruct bare; [|done]. destruct acc as [|a acc]; [done|]. rewrite !Join_snoc by done. by rewrite !str_app_assoc.
Qed.

Lemma label_bits l : 1 <= b2z l <= 63 → (b2z l =? 0) = false ∧ Z.land (b2z l) 0xc0 = 0.
Proof. destruct l; vm_compute; intuition congruence. Qed.
Lemma pointer_bits hi : 192 <= b2z hi →
  (b2z hi =? 0) = false ∧ Z.land (b2z hi) 0xc0 = 0xc0 ∧ Z.land (b2z hi) 0x3f = b2z hi - 192.
Proof. destruct hi; vm_compute; intuition congruence. Qed.

Lemma idx_bounds {A} (l : list A) i a : idx l i = Ok a → 0 <= i < len l.
Proof.
  unfold idx, len. destruct (Z.leb_spec 0 i); [|done].
  destruct (l !! Z.to_nat i) eqn:E; [|done]. apply lookup_lt_Some in E. lia.
Qed.
Lemma slice_bounds {A} (l : list A) lo hi s : slice l lo hi = Ok s → 0 <= lo <= hi ∧ hi <= len l.
Proof. unfold slice. case_match; [|done]. intros _. to_prop. lia. Qed.

Lemma name_at_bounds packet k pos labels bare next : name_at packet k pos labels bare next → 0 <= pos < len packet.
Proof. destruct 1; eauto using idx_bounds. Qed.

Definition loop_error : goerror := Errorf "dns name compression loop".
Lemma nameLoop_complete packet k pos labels bare next :
  name_at packet k pos labels bare next → ∀ d acc fuel, len packet - pos < Z.of_nat fuel →
  nameLoop (parseDNSName d packet) fuel packet acc pos =
  if (k <=? d)%nat then Ok (printed (acc ++ map string_of_bytes labels) bare, next) else Err loop_error.
Proof.
  induction 1 as [pos H0|k pos l lab rest bare next Hl Hr Hs Hn IH|k pos hi lo rest bare next Hh Hr Hl Hn IH];
    intros d acc [|fuel] Hf; try (apply idx_bounds in H0 || apply idx_bounds in Hl || apply idx_bounds in Hh; lia).
  - cbn [nameLoop]. pose proof (idx_bounds _ _ _ H0). branch. rewrite H0, bind_ok. simpl.
    by rewrite app_nil_r.
  - cbn [nameLoop]. pose proof (idx_bounds _ _ _ Hl). pose proof (slice_bounds _ _ _ _ Hs).
    branch. rewrite Hl, bind_ok. destruct (label_bits l Hr) as [-> ->].
    change (0 =? 0xc0) with false. change (negb (0 =? 0)) with false. cbv iota.
    rewrite slice_from_ok, bind_ok by lia. rewrite len_sub by lia. branch.
    rewrite Hs, bind_ok, IH by lia. cbn [map]. by rewrite <-app_assoc.
  - cbn [nameLoop]. pose proof (idx_bounds _ _ _ Hh). pose proof (idx_bounds _ _ _ Hl).
    branch. rewrite Hh, bind_ok. destruct (pointer_bits hi Hr) as (-> & -> & ->).
    rewrite Z.eqb_refl. branch. rewrite Hl, bind_ok, lor_shiftl_add by (pose proof (b2z_range lo); lia).
    change (2 ^ 8) with 256. destruct d as [|d]; [done|].
    cbn [parseDNSName]. rewrite IH by (apply name_at_bounds in Hn; unfold len in *; lia). cbn [Nat.leb app]. destruct (k <=? d)%nat; [|done].
    rewrite bind_ok, printed_pointer. replace (pos + 1 + 1) with (pos + 2) by lia. do 3 f_equal. f_equal. by destruct rest.
Qed.
Lemma parseDNSName_complete packet d k pos labels bare next :
  name_at packet k pos labels bare next →
  parseDNSName (S d) packet pos = if (k <=? d)%nat then Ok (printed (map string_of_bytes labels) bare, next) else Err loop_error.
Proof.
  intros Hn. cbn [parseDNSName]. apply (nameLoop_complete _ _ _ _ _ _ Hn d []). apply name_at_bounds in Hn. unfold len in *. lia.
Qed.

(** What the parser accepts is an encoding. *)
Lemma byte_cases l : b2z l = 0 ∨ 1 <= b2z l <= 63 ∨ 192 <= b2z l ∨ (b2z l =? 0) = false ∧ (Z.land (b2z l) 0xc0 =? 0xc0) = false ∧ (Z.land (b2z l) 0xc0 =? 0) = false.
Proof. destruct l; vm_compute; intuition congruence. Qed.
Lemma nameLoop_sound packet d fuel acc pos s next :
  (∀ p r, parseDNSName d packet p = Ok r → ∃ k labels bare next, name_at packet k p labels bare next) →
  nameLoop (parseDNSName d packet) fuel packet acc pos = Ok (s, next) → 0 <= pos →
  ∃ k labels bare next, name_at packet k pos labels bare next.
Proof.
  intros Hrec. revert acc pos. induction fuel as [|fuel IH]; intros acc pos Hok Hpos; [done|]. cbn [nameLoop] in Hok.
  destruct (Z.leb_spec (len packet) pos) as [|Hlt]; [done|]. destruct (idx packet pos) as [l| |] eqn:El; [|done..]. rewrite bind_ok in Hok. cbv zeta in Hok.
  destruct (byte_cases l) as [H0|[H1|[H2|(Hz & H3 & H4)]]].
  - exists 0%nat, [], false, (pos + 1). constructor. rewrite El. f_equal. apply b2z_inj. by rewrite H0.
  - destruct (label_bits l H1) as [E1 E2]. rewrite E1, E2 in Hok. change (0 =? 0xc0) with false in Hok. change (negb (0 =? 0)) with false in Hok. cbv iota in Hok.
    rewrite slice_from_ok, bind_ok in Hok by lia. destruct (len (sub _ _ _) <? b2z l); [done|].
    destruct (slice packet (pos + 1) (pos + 1 + b2z l)) as [lab| |] eqn:Es; [|done..]. rewrite bind_ok in Hok.
    destruct (IH _ _ Hok ltac:(lia)) as (k & labels & bare & n & Hn). exists k, (lab :: labels), bare, n. by eapply na_label.
  - destruct (pointer_bits l H2) as (E1 & E2 & E3). rewrite E1, E2, E3, Z.eqb_refl in Hok. destruct (len packet <=? pos + 1); [done|].
    destruct (idx packet (pos + 1)) as [lo| |] eqn:Elo; [|done..]. rewrite bind_ok, lor_shiftl_add in Hok by (pose proof (b2z_range lo); lia).
    destruct (parseDNSName d packet _) as [r| |] eqn:Er; [|done..]. destruct (Hrec _ _ Er) as (k & labels & bare & n & Hn). eexists _, _, _, _. by eapply na_pointer.
  - rewrite Hz, H3, H4 in Hok. done.
Qed.
Lemma parseDNSName_sound packet d pos r :
  0 <= pos → parseDNSName d packet pos = Ok r → ∃ k labels bare next, name_at packet k pos labels bare next.
Proof.
  revert pos r. induction d as [|d IH]; intros pos [s next] Hpos Hok; [done|]. cbn [parseDNSName] in Hok. eapply nameLoop_sound; [|exact Hok|done].
  intros p r Hr. destruct (decide (0 <= p)); [by eapply IH|]. exfalso. revert Hr. destruct d; cbn [parseDNSName nameLoop]; [done|].
  destruct (Z.leb_spec (len packet) p); [unfold len in *; lia|]. unfold idx. by destruct (Z.leb_spec 0 p); [lia|].
Qed.
End DNSFacts.

(** ** TLS *)

Module TLSFacts.
Import TLS.

Lemma wp_readUint8 data pos Q :
  0 <= pos → (∀ v, 0 <= v < 256 → pos < len data → Q (Some (v, pos + 1))) → Q None → wp (readUint8 data pos) Q.
Proof. intros ? HS HN. unfold readUint8. wp_go; [done|]. apply HS; glia. Qed.
Lemma wp_readUint16 data pos Q :
  0 <= pos <= len data → (∀ v, 0 <= v < 65536 → pos + 2 <= len data → Q (Some (v, pos + 2))) → Q None →
  wp (readUint16 data pos) Q.
Proof. intros ? HS HN. unfold readUint16. wp_go; [done|]. apply HS; glia. Qed.
Lemma wp_skip_tls data pos n Q :
  0 <= pos <= len data → (0 <= n → pos + n <= len data → Q (Some (pos + n))) → Q None → wp (skip data pos n) Q.
Proof. intros ? HS HN. unfold skip. wp_go; [done..|]. apply HS; glia. Qed.

Lemma wp_serverNameLoop fuel data listLen pos :
  0 <= pos → 2 + listLen <= len data → Z.max 0 (len data - pos) < Z.of_nat fuel →
  wp (serverNameLoop fuel data listLen pos) (λ _, True).
Proof.
  revert pos. induction fuel as [|fuel IH]; intros pos ???; [lia|]. cbn [serverNameLoop].
  wp_go; try done. apply IH; glia.
Qed.
Lemma wp_parseServerName data : wp (parseServerName data) (λ _, True).
Proof. unfold parseServerName. wp_go; try done. apply wp_serverNameLoop; unfold len in *; glia. Qed.

Lemma wp_alpnLoop fuel data listLen pos acc :
  0 <= pos → 2 + listLen <= len data → Z.max 0 (len data - pos) < Z.of_nat fuel →
  wp (alpnLoop fuel data listLen pos acc) (λ _, True).
Proof.
  revert pos acc. induction fuel as [|fuel IH]; intros pos acc ???; [lia|]. cbn [alpnLoop].
  wp_go; try done. apply IH; glia.
Qed.
Lemma wp_parseALPN data : wp (parseALPN data) (λ _, True).
Proof. unfold parseALPN. wp_go; try done. apply wp_alpnLoop; unfold len in *; glia. Qed.

Lemma wp_versionsLoop fuel data listLen pos acc k :
  0 <= pos → 1 + listLen <= len data → listLen + 1 - pos = 2 * k → Z.max 0 (len data - pos) < Z.of_nat fuel →
  wp (versionsLoop fuel data listLen pos acc) (λ _, True).
Proof.
  revert pos acc k. induction fuel as [|fuel IH]; intros pos acc k ????; [lia|]. cbn [versionsLoop].
  wp_go; try done. apply IH with (k - 1); glia.
Qed.
Lemma wp_parseSupportedVersions data : wp (parseSupportedVersions data) (λ _, True).
Proof.
  unfold parseSupportedVersions. wp_go; try done.
  apply wp_versionsLoop with (b2z a `div` 2); unfold len in *; try glia.
  pose proof (Z.div_mod (b2z a) 2). lia.
Qed.

Lemma wp_parseTLSExtensions fuel exts pos hello :
  0 <= pos → Z.max 0 (len exts - pos) < Z.of_nat fuel →
  wp (parseTLSExtensions fuel exts pos hello) (λ h, LegacyVersion h = LegacyVersion hello).
Proof.
  revert pos hello. induction fuel as [|fuel IH]; intros pos hello ??; [lia|]. cbn [parseTLSExtensions].
  wp_go; try done.
  1: eapply wp_mono; [apply wp_parseServerName|]; intros ? _; wp_go.
  2: eapply wp_mono; [apply wp_parseALPN|]; intros ? _; wp_go.
  3: eapply wp_mono; [apply wp_parseSupportedVersions|]; intros ? _; wp_go.
  all: eapply wp_mono; [apply IH; glia|]; simpl; try done.
  intros ? ->. by case_decide.
Qed.

Lemma wp_parseClientHello hello :
  wp (parseClientHello hello) (λ h, ∃ a b, LegacyVersion h = tlsVersion a b).
Proof.
  unfold parseClientHello. wp_go.
  repeat first
    [ apply wp_readUint8; [glia|intros ???; cbv beta iota|exact I]
    | apply wp_readUint16; [glia|intros ???; cbv beta iota|exact I]
    | apply wp_skip_tls; [glia|intros ??; cbv beta iota|exact I] | wp_step; to_prop ].
  - simpl. eauto.
  - eapply wp_mono; [apply wp_parseTLSExtensions; unfold len; lia|]. simpl. eauto.
Qed.

Lemma wp_ParseTLSClientHello record :
  wp (ParseTLSClientHello record) (λ h, ∃ a b, LegacyVersion h = tlsVersion a b).
Proof. unfold ParseTLSClientHello. wp_go. apply wp_parseClientHello. Qed.

(** *** The encoding of a ClientHello (RFC 8446, section 4.1.2) *)

Inductive ext :=
| ExtSNI (host : list byte)
| ExtALPN (names : list (list byte))
| ExtVersions (vs : list (byte * byte))
| ExtECH (data : list byte)
| ExtOther (ty : Z) (data : list byte).

Fixpoint alpn_names (names : list (list byte)) : list byte :=
  match names with [] => [] | n :: names => [z2b (len n)] ++ n ++ alpn_names names end.
Fixpoint version_pairs (vs : list (byte * byte)) : list byte :=
  match vs with [] => [] | v :: vs => [v.1] ++ [v.2] ++ version_pairs vs end.
Definition ext_type (e : ext) : Z :=
  match e with
  | ExtSNI _ => tlsExtServerName | ExtALPN _ => tlsExtALPN | ExtVersions _ => tlsExtSupportedVers
  | ExtECH _ => tlsExtEncryptedHello | ExtOther ty _ => ty
  end.
Definition ext_data (e : ext) : list byte :=
  match e with
  | ExtSNI h => be_bytes 2 (3 + len h) ++ [x00] ++ be_bytes 2 (len h) ++ h
  | ExtALPN names => be_bytes 2 (len (alpn_names names)) ++ alpn_names names
  | ExtVersions vs => [z2b (len (version_pairs vs))] ++ version_pairs vs
  | ExtECH d | ExtOther _ d => d
  end.
Definition ext_ok (e : ext) : Prop :=
  0 <= ext_type e < 2 ^ 16 ∧ len (ext_data e) < 2 ^ 16 ∧
  match e with
  | ExtSNI h => 0 < len h
  | ExtALPN names => Forall (λ n, 0 < len n < 256) names
  | ExtVersions vs => len vs < 128
  | ExtECH _ => True
  | ExtOther ty _ => ty ∉ [tlsExtServerName; tlsExtALPN; tlsExtSupportedVers; tlsExtEncryptedHello]
  end.
Definition apply_ext (h : TLSClientHello) (e : ext) : TLSClientHello :=
  match e with
  | ExtSNI host => set_SNI h (string_of_bytes host)
  | ExtALPN names => set_ALPN h (map string_of_bytes names)
  | ExtVersions vs => set_Versions h (map (λ v, tlsVersion v.1 v.2) vs)
  | ExtECH _ => set_ECH h
  | ExtOther _ _ => h
  end.
Fixpoint exts_bytes (es : list ext) : list byte :=
  match es with
  | [] => []
  | e :: es => be_bytes 2 (ext_type e) ++ be_bytes 2 (len (ext_data e)) ++ ext_data e ++ exts_bytes es
  end.
Definition hello_bytes (v0 v1 : byte) (random session ciphers comp : list byte) (es : list ext) : list byte :=
  [v0] ++ [v1] ++ random ++ [z2b (len session)] ++ session ++ be_bytes 2 (len ciphers) ++ ciphers ++
  [z2b (len comp)] ++ comp ++ be_bytes 2 (len (exts_bytes es)) ++ exts_bytes es.
Definition record_bytes (rv : list byte) (hello : list byte) : list byte :=
  [z2b tlsRecordHandshake] ++ rv ++ be_bytes 2 (4 + len hello) ++
  [z2b tlsHandshakeClient] ++ [z2b (len hello `div` 65536)] ++ [z2b (len hello `div` 256)] ++
  [z2b (len hello)] ++ hello.

Lemma parseServerName_enc h : 0 < len h → 3 + len h < 2 ^ 16 →
  parseServerName (ext_data (ExtSNI h)) = Ok (string_of_bytes h).
Proof.
  intros. unfold parseServerName. cbn [ext_data]. len_facts. branch. read_fields.
  rewrite slice_from_ok, bind_ok by len_lia. rewrite len_sub by len_lia. branch.
  cbn [serverNameLoop]. branch. read_fields.
  rewrite slice_from_ok, bind_ok by len_lia. rewrite len_sub by len_lia. branch.
  simpl (b2z x00 =? 0). cbv iota. by read_fields.
Qed.

Lemma alpnLoop_enc pre names listLen fuel acc :
  Forall (λ n, 0 < len n < 256) names → 2 + listLen = len pre + len (alpn_names names) →
  len (alpn_names names) < Z.of_nat fuel →
  alpnLoop fuel (pre ++ alpn_names names) listLen (len pre) acc = Ok (acc ++ map string_of_bytes names).
Proof.
  intros Hn. revert pre fuel acc.
  induction Hn as [|n names Hn Hns IH]; intros pre [|fuel] acc Hl Hf; cbn [alpn_names] in *; try glia.
  - cbn [alpnLoop]. autorewrite with len in Hl. branch. simpl. by rewrite app_nil_r.
  - cbn [alpnLoop]. autorewrite with len in *. len_facts. branch. read_fields.
    rewrite z2b_spec, Z.mod_small by lia. branch.
    rewrite slice_from_ok, bind_ok by len_lia. rewrite len_sub by len_lia. branch.
    read_fields.
    replace (len pre + 1 + len n) with (len (pre ++ [z2b (len n)] ++ n)) by len_lia.
    replace (pre ++ [z2b (len n)] ++ n ++ alpn_names names)
      with ((pre ++ [z2b (len n)] ++ n) ++ alpn_names names) by (by rewrite <-!app_assoc).
    rewrite IH by (autorewrite with len; lia). by rewrite <-app_assoc.
Qed.

Lemma versionsLoop_enc pre vs listLen fuel acc :
  1 + listLen = len pre + len (version_pairs vs) → len (version_pairs vs) < Z.of_nat fuel →
  versionsLoop fuel (pre ++ version_pairs vs) listLen (len pre) acc =
  Ok (acc ++ map (λ v, tlsVersion v.1 v.2) vs).
Proof.
  revert pre fuel acc.
  induction vs as [|v vs IH]; intros pre [|fuel] acc Hl Hf; cbn [version_pairs] in *; try glia.
  - cbn [versionsLoop]. autorewrite with len in Hl. branch. simpl. by rewrite app_nil_r.
  - cbn [versionsLoop]. autorewrite with len in *. len_facts. branch. read_fields.
    replace (len pre + 2) with (len (pre ++ [v.1] ++ [v.2])) by len_lia.
    replace (pre ++ [v.1] ++ [v.2] ++ version_pairs vs)
      with ((pre ++ [v.1] ++ [v.2]) ++ version_pairs vs) by (by rewrite <-!app_assoc).
    rewrite IH by (autorewrite with len; lia). by rewrite <-app_assoc.
Qed.

Lemma len_version_pairs vs : len (version_pairs vs) = 2 * len vs.
Proof. induction vs; cbn [version_pairs]; autorewrite with len; lia. Qed.

Lemma parseALPN_enc names : Forall (λ n, 0 < len n < 256) names → len (alpn_names names) < 2 ^ 16 →
  parseALPN (ext_data (ExtALPN names)) = Ok (map string_of_bytes names).
Proof.
  intros Hn ?. unfold parseALPN. cbn [ext_data]. len_facts. branch. read_fields.
  rewrite slice_from_ok, bind_ok by len_lia. rewrite len_sub by len_lia. branch.
  change 2 with (len (be_bytes 2 (len (alpn_names names)))).
  by rewrite alpnLoop_enc by (done || unfold len; rewrite ?length_app, ?length_be_bytes; lia).
Qed.

Lemma parseSupportedVersions_enc vs : len vs < 128 →
  parseSupportedVersions (ext_data (ExtVersions vs)) = Ok (map (λ v, tlsVersion v.1 v.2) vs).
Proof.
  intros. unfold parseSupportedVersions. cbn [ext_data]. rewrite len_version_pairs. len_facts.
  branch. read_fields. rewrite z2b_spec, (Z.mod_small (2 * len vs)) by lia.
  rewrite slice_from_ok, bind_ok by len_lia. rewrite len_sub by len_lia.
  rewrite (Z.mul_comm 2), Z.mod_mul by lia. autorewrite with len. rewrite len_version_pairs. branch.
  change 1 with (len [z2b (len vs * 2)]).
  rewrite versionsLoop_enc; [done|..]; rewrite len_version_pairs; [len_lia|].
  rewrite length_app. simpl. pose proof (len_version_pairs vs) as Hv. unfold len in *. lia.
Qed.

Lemma parseTLSExtensions_enc pre es fuel hello :
  Forall ext_ok es → len (exts_bytes es) < Z.of_nat fuel →
  parseTLSExtensions fuel (pre ++ exts_bytes es) (len pre) hello = Ok (fold_left apply_ext es hello).
Proof.
  intros He. revert pre fuel hello.
  induction He as [|e es (Ht & Hd & Hk) Hes IH]; intros pre [|fuel] hello Hf; cbn [exts_bytes] in *; try glia.
  - cbn [parseTLSExtensions]. by branch.
  - cbn [parseTLSExtensions]. autorewrite with len in *. len_facts. branch. read_fields.
    rewrite slice_from_ok, bind_ok by len_lia. rewrite len_sub by len_lia. branch. read_fields.
    match goal with |- (?m ≫= _) = _ => assert (m = Ok (apply_ext hello e)) as -> end.
    { destruct e as [h|names|vs|d|ty d]; cbn [ext_type ext_ok apply_ext] in *.
      - rewrite parseServerName_enc by (cbn [ext_data] in Hd; revert Hd; autorewrite with len; lia).
        simpl. rewrite decide_False; [done|]. intros E%(f_equal bytes_of_string).
        rewrite bytes_of_string_of_bytes in E. by rewrite E in Hk.
      - rewrite parseALPN_enc; [done..|]. cbn [ext_data] in Hd. revert Hd. autorewrite with len. lia.
      - by rewrite parseSupportedVersions_enc.
      - done.
      - rewrite !not_elem_of_cons in Hk. destruct Hk as (?&?&?&?&_). by rewrite !(proj2 (Z.eqb_neq ty _)). }
    rewrite bind_ok.
    set (hd := be_bytes 2 (ext_type e) ++ be_bytes 2 (len (ext_data e)) ++ ext_data e).
    replace (len pre + 4 + len (ext_data e)) with (len (pre ++ hd)) by (subst hd; len_lia).
    replace (pre ++ _) with ((pre ++ hd) ++ exts_bytes es) by (subst hd; by rewrite <-!app_assoc).
    by rewrite IH by lia.
Qed.

Record hello_ok (random session ciphers comp : list byte) (es : list ext) : Prop := {
  h_random : len random = 32;
  h_session : len session < 256;
  h_ciphers : len ciphers < 2 ^ 16 ∧ len ciphers `mod` 2 = 0;
  h_comp : len comp < 256;
  h_exts : Forall ext_ok es ∧ len (exts_bytes es) < 2 ^ 16 }.

Definition hello0 (v0 v1 : byte) : TLSClientHello :=
  {| SNI := ""; ALPN := []; LegacyVersion := tlsVersion v0 v1; SupportedVersions := []; ECHPresent := false |}.

Lemma readUint8_enc pre z post pos :
  pos = len pre → 0 <= z < 256 → readUint8 (pre ++ [z2b z] ++ post) pos = Ok (Some (z, pos + 1)).
Proof.
  intros -> ?. unfold readUint8. branch. read_fields. by rewrite z2b_spec, Z.mod_small by lia.
Qed.
Lemma readUint16_enc pre z post pos :
  pos = len pre → 0 <= z < 2 ^ 16 → readUint16 (pre ++ be_bytes 2 z ++ post) pos = Ok (Some (z, pos + 2)).
Proof.
  intros -> ?. unfold readUint16. rewrite slice_from_ok, bind_ok by len_lia.
  rewrite len_sub by len_lia. branch. by read_fields.
Qed.
Lemma skip_enc data pos n :
  0 <= n → 0 <= pos → pos + n <= len data → skip data pos n = Ok (Some (pos + n)).
Proof.
  intros. unfold skip. branch. rewrite slice_from_ok, bind_ok by lia. rewrite len_sub by lia. by branch.
Qed.

Lemma parseClientHello_enc v0 v1 random session ciphers comp es :
  hello_ok random session ciphers comp es →
  parseClientHello (hello_bytes v0 v1 random session ciphers comp es) =
  Ok (fold_left apply_ext es (hello0 v0 v1)).
Proof.
  intros [Hr Hs [Hc Hc2] Hm [He He2]]. unfold parseClientHello.
  unfold hello_bytes, readUint8, readUint16. len_facts.
  branch. read_fields. cbv zeta.
  branch. read_fields. rewrite z2b_spec, (Z.mod_small (len session)) by lia.
  rewrite skip_enc, bind_ok by len_lia.
  rewrite slice_from_ok, bind_ok, len_sub by len_lia. branch. read_fields.
  rewrite Hc2. change (negb (0 =? 0)) with false. cbv iota.
  rewrite skip_enc, bind_ok by len_lia.
  branch. read_fields. rewrite z2b_spec, (Z.mod_small (len comp)) by lia.
  rewrite skip_enc, bind_ok by len_lia. branch.
  rewrite slice_from_ok, bind_ok, len_sub by len_lia. branch. read_fields.
  rewrite slice_from_ok, bind_ok, len_sub by len_lia. branch. read_fields.
  apply (parseTLSExtensions_enc [] es); [done|unfold len; lia].
Qed.

Lemma u24 n : 0 <= n < 2 ^ 24 →
  Z.lor (Z.lor (Z.shiftl (b2z (z2b (n `div` 65536))) 16) (Z.shiftl (b2z (z2b (n `div` 256))) 8)) (b2z (z2b n)) = n.
Proof.
  intros. rewrite !z2b_spec, (Z.mod_small (n `div` 65536)).
  2: { split; [apply Z.div_pos|apply Z.div_lt_upper_bound]; lia. }
  pose proof (Z.mod_pos_bound (n `div` 256) 256). pose proof (Z.mod_pos_bound n 256).
  rewrite lor_shiftl_add by (rewrite ?Z.shiftl_mul_pow2; lia).
  rewrite Z.shiftl_mul_pow2 by lia.
  replace (n `div` 65536 * 2 ^ 16 + (n `div` 256) `mod` 256 * 2 ^ 8)
    with (Z.shiftl (n `div` 65536 * 256 + (n `div` 256) `mod` 256) 8) by (rewrite Z.shiftl_mul_pow2; lia).
  rewrite lor_shiftl_add by lia.
  pose proof (Z.div_mod n 256). pose proof (Z.div_mod (n `div` 256) 256).
  assert (n `div` 65536 = (n `div` 256) `div` 256) as -> by (by rewrite Z.div_div by lia). lia.
Qed.

Lemma ParseTLSClientHello_enc rv hello post :
  len rv = 2 → 0 < len hello → 4 + len hello < 2 ^ 16 →
  ParseTLSClientHello (record_bytes rv hello ++ post) = parseClientHello hello.
Proof.
  intros. unfold ParseTLSClientHello, record_bytes. rewrite <-!app_assoc. len_facts.
  branch. read_fields. change (negb (b2z (z2b tlsRecordHandshake) =? tlsRecordHandshake)) with false.
  cbv iota. read_fields. rewrite slice_from_ok, bind_ok, len_sub by len_lia. branch.
  set (body := [z2b tlsHandshakeClient] ++ [z2b (len hello `div` 65536)] ++ [z2b (len hello `div` 256)] ++
    [z2b (len hello)] ++ hello).
  match goal with |- (?m ≫= _) = _ => assert (m = Ok body) as -> end.
  { replace (_ ++ _) with (([z2b tlsRecordHandshake] ++ rv ++ be_bytes 2 (4 + len hello)) ++ body ++ post)
      by (subst body; by rewrite <-!app_assoc).
    rewrite slice_skip by len_lia. apply slice_head'; subst body; len_lia. }
  rewrite bind_ok. subst body. branch. read_fields.
  change (negb (b2z (z2b tlsHandshakeClient) =? tlsHandshakeClient)) with false. cbv iota.
  read_fields. rewrite u24 by lia. rewrite slice_from_ok, bind_ok, len_sub by len_lia. branch.
  by read_fields.
Qed.
End TLSFacts.

(** ** HTTP *)

Module HTTPFacts.
Import HTTP.

Lemma Scan_shorter s line rest : Scan s = ScanLine line rest → (String.length rest < String.length s)%nat.
Proof. apply ScanLines_shorter. Qed.

Section WithUnicode.
Context `{Unicode}.

(** What the parser guarantees of every header it reports. *)
Definition header_ok (h : HTTPHeader) : Prop :=
  HName h ≠ "" ∧
  (ToLower (HName h) ∈ sensitiveHTTPHeaders → Value h = redactedHeaderValue ∧ Redacted h = true) ∧
  (Redacted h = true → ToLower (HName h) ∈ sensitiveHTTPHeaders).

Lemma parseHTTPHeader_ok line h : parseHTTPHeader line = Some h → header_ok h.
Proof.
  unfold parseHTTPHeader. destruct (Cut line _) as [[name value]|]; [|done].
  case_bool_decide as Hs; simpl; case_decide; try done; intros [= <-]; done.
Qed.

Lemma wp_scanHeaders fuel s acc :
  (String.length s < fuel)%nat → Forall header_ok acc → wp (scanHeaders fuel s acc) (Forall header_ok).
Proof.
  revert s acc. induction fuel as [|fuel IH]; intros s acc Hf Ha; [lia|]. cbn [scanHeaders].
  destruct (Scan s) as [line rest| |] eqn:E; try done. case_decide; [done|].
  apply IH; [apply Scan_shorter in E; lia|].
  destruct (parseHTTPHeader line) as [h|] eqn:Eh; [|done].
  apply Forall_app. split; [done|]. apply Forall_singleton. by eapply parseHTTPHeader_ok.
Qed.

Lemma wp_parseHTTPStartLine line : wp (parseHTTPStartLine line) (λ m, Headers m = []).
Proof.
  unfold parseHTTPStartLine. destruct (HasPrefix line "HTTP/"); repeat case_match; done.
Qed.

Lemma wp_ParseHTTP1Headers data : wp (ParseHTTP1Headers data) (λ m, Forall header_ok (Headers m)).
Proof.
  unfold ParseHTTP1Headers. destruct (splitHTTPHeaderBlock _) as [block tr].
  destruct (Scan block) as [line rest| |]; try done.
  apply wp_bind. eapply wp_mono; [apply wp_parseHTTPStartLine|]. intros m _.
  apply wp_bind. eapply wp_mono; [apply wp_scanHeaders; [lia|constructor]|]. done.
Qed.

Lemma splitHTTPHeaderBlock_app hd body :
  0 <= Index hd crlf2 → splitHTTPHeaderBlock (hd +:+ body) = splitHTTPHeaderBlock hd.
Proof.
  intros Hi. unfold splitHTTPHeaderBlock. rewrite Index_app by done.
  rewrite (proj2 (Z.leb_le _ _)) by done.
  rewrite str_take_app; [done|]. apply Index_found in Hi. unfold strlen in *. simpl in *. lia.
Qed.
End WithUnicode.
End HTTPFacts.

(** ** Properties *)

Import DNS DNSFacts TLS TLSFacts HTTP HTTPFacts.

(** Parsing any byte string as a DNS message never panics and always
    terminates, whatever compression pointers it contains; an accepted message
    has exactly as many questions as its header announces. *)
Theorem dns_message_safe packet :
  ParseDNSMessage packet ≠ Panic ∧
  (∀ m, ParseDNSMessage packet = Ok m → be_u16 (sub packet 4 6) = Ok (len (Questions m))).
Proof.
  pose proof (wp_ParseDNSMessage packet) as H.
  split; [by eapply wp_no_panic|]. intros m Hm. exact (wp_elim _ _ _ H Hm).
Qed.

(** C29: the parser returns a name exactly if the bytes at the position encode one,
    as RFC 1035 defines it (but for its limit of 255 octets, which neither checks),
    through at most eight compression pointers: the
    dotted labels and the position after the encoding, and two more dots when
    labels are followed by a pointer straight to the root.  A name through more
    pointers is refused with the error for a compression loop. *)
Theorem dns_name_refines packet pos :
  (∀ k labels bare next, name_at packet k pos labels bare next →
    parseDNSName 9 packet pos = if (k <=? 8)%nat then Ok (printed (map string_of_bytes labels) bare, next) else Err loop_error) ∧
  (∀ r, 0 <= pos → parseDNSName 9 packet pos = Ok r →
    ∃ k labels bare next, name_at packet k pos labels bare next ∧ (k <= 8)%nat ∧ r = (printed (map string_of_bytes labels) bare, next)).
Proof.
  split; [intros *; apply parseDNSName_complete|]. intros r Hpos Hok. destruct (parseDNSName_sound packet 9 pos r Hpos Hok) as (k & labels & bare & next & Hn).
  exists k, labels, bare, next. rewrite (parseDNSName_complete _ 8 _ _ _ _ _ Hn) in Hok. destruct (Nat.leb_spec k 8); [|done]. by injection Hok as <-.
Qed.

(** The name [b.a] at position 3, compressed with a pointer to [a] at 0. *)
Definition compressed_name : list byte := [x01; x61; x00; x01; x62; xc0; x00].
Lemma dns_name_refines_witness :
  parseDNSName 9 compressed_name 3 = Ok ("b.a", 7).
Proof.
  apply (proj1 (dns_name_refines compressed_name 3) 1%nat [[x62]; [x61]] false 7).
  apply (na_label compressed_name 1 3 x01 [x62] [[x61]] false 7); [reflexivity|vm_compute; split; congruence|reflexivity|].
  apply (na_pointer compressed_name 0 5 xc0 x00 [[x61]] false 3); [reflexivity|vm_compute; congruence|reflexivity|].
  apply (na_label compressed_name 0 0 x01 [x61] [] false 3); [reflexivity|vm_compute; split; congruence|reflexivity|].
  apply (na_root compressed_name 2). reflexivity.
Defined.

(** A compression pointer to the root name after at least one label makes
    the parser print a doubled trailing dot: the name [a] with its root written
    as a pointer is returned as ["a.."]. *)
Theorem dns_root_pointer_renders_double_dot :
  parseDNSName 9 [x00; x01; x61; xc0; x00] 1 = Ok ("a..", 5).
Proof. reflexivity. Qed.

(** Parsing any byte string as a TLS record never panics and always
    terminates, whatever lengths the record, the handshake and the extensions
    announce. *)
Theorem tls_client_hello_safe record : ParseTLSClientHello record ≠ Panic.
Proof. eapply wp_no_panic, wp_ParseTLSClientHello. Qed.

(** C30: Round trip: a TLS record with a ClientHello of any session id, cipher
    suites, compression methods and extensions (server name, ALPN, supported
    versions, encrypted hello, unknown ones, in any order), followed by any
    bytes, is parsed to exactly the metadata its extensions carry, a later
    extension of a kind replacing an earlier one. *)
Theorem tls_client_hello_roundtrip rv v0 v1 random session ciphers comp es post
  (Hv : len rv = 2) (Hh : hello_ok random session ciphers comp es)
  (Hlen : len (hello_bytes v0 v1 random session ciphers comp es) < 2 ^ 16 - 4) :
  ParseTLSClientHello (record_bytes rv (hello_bytes v0 v1 random session ciphers comp es) ++ post) =
  Ok (fold_left apply_ext es (hello0 v0 v1)).
Proof.
  rewrite ParseTLSClientHello_enc; [by apply parseClientHello_enc|done| |lia].
  unfold hello_bytes. len_lia.
Qed.

Lemma tls_client_hello_roundtrip_witness :
  ParseTLSClientHello (record_bytes [x03; x01]
    (hello_bytes x03 x03 (replicate 32 x07) [x01] [x13; x01] [x00]
       [ExtSNI [x61; x2e; x62]; ExtALPN [[x68; x32]]; ExtVersions [(x03, x04)]]) ++ [xff]) =
  Ok {| SNI := "a.b"; ALPN := ["h2"]; LegacyVersion := "TLS 1.2";
        SupportedVersions := ["TLS 1.3"]; ECHPresent := false |}.
Proof.
  apply (tls_client_hello_roundtrip [x03; x01] x03 x03 (replicate 32 x07) [x01] [x13; x01] [x00]
    [ExtSNI [x61; x2e; x62]; ExtALPN [[x68; x32]]; ExtVersions [(x03, x04)]] [xff]).
  - reflexivity.
  - constructor; try reflexivity; [split; reflexivity|]. split; [|reflexivity].
    repeat constructor; vm_compute; congruence.
  - reflexivity.
Defined.

Section HTTPProperties.
Context `{Unicode}.


(** Body bytes are ignored: after a header block that contains its
    blank-line terminator, the parsed message does not depend on what
    follows. *)
Theorem http_body_ignored hd body1 body2 (Hterm : 0 <= Index hd crlf2) :
  ParseHTTP1Headers (bytes_of_string (hd +:+ body1)) =
  ParseHTTP1Headers (bytes_of_string (hd +:+ body2)).
Proof.
  unfold ParseHTTP1Headers. rewrite !string_of_bytes_of_string.
  by rewrite !splitHTTPHeaderBlock_app.
Qed.
End HTTPProperties.

Lemma http_body_ignored_witness :
  @ParseHTTP1Headers ascii_only (bytes_of_string (("GET / HTTP/1.1" +:+ crlf2) +:+ "secret")) =
  @ParseHTTP1Headers ascii_only (bytes_of_string (("GET / HTTP/1.1" +:+ crlf2) +:+ "")).
Proof. apply (@http_body_ignored ascii_only). vm_compute. congruence. Defined.
