(* ===== verification/NetSummary.v ===== *)
(** * Capture summaries and capture commands

    Models [src/internal/netcap/summary.go] (modules [Netip] and [Summary]) and
    [src/internal/netcap/tcpdump.go] (module [Tcpdump]).  The stream table of
    the TCP reassembly is a [gmap] from flow keys to streams; a stream object
    is shared with the table in the source, so an update of it is written back
    under its key.  The theorems show that a summary terminates without a
    panic and stays within its event limit, that the reassembled bytes are
    always a window of what the sender sent, whatever the order, duplication
    and overlap of the segments, and that a contiguous sequence of segments is
    reassembled completely. *)

From S2P Require Import Prelude GoIO GoStrings NetPacket NetProto.
From Stdlib Require Import Ascii.
Import NetPacket.Packet.

(** ** [netip.Addr.String] *)

Module Netip.

Definition octet (b : list byte) (i : nat) : Z := b2z (nth i b x00).
Definition string4 (b : list byte) : string :=
  itoa (octet b 0) +:+ "." +:+ itoa (octet b 1) +:+ "." +:+
  itoa (octet b 2) +:+ "." +:+ itoa (octet b 3).
(** [ip.v6u16(i)] *)
Definition v6u16 (b : list byte) (i : nat) : Z := octet b (2 * i) * 256 + octet b (2 * i + 1).

(** The number of zero groups from [i] on, [fuel] groups being left. *)
Fixpoint zero_run (b : list byte) (i fuel : nat) : nat :=
  match fuel with
  | O => 0
  | S fuel => if v6u16 b i =? 0 then S (zero_run b (S i) fuel) else 0
  end.
(** The first longest run of at least two zero groups: its start and length. *)
Fixpoint longest_run (b : list byte) (i fuel : nat) (best : option (nat * nat)) : option (nat * nat) :=
  match fuel with
  | O => best
  | S fuel =>
    let l := zero_run b i (S fuel) in
    let bl := match best with Some (_, n) => n | None => O end in
    longest_run b (S i) fuel (if (2 <=? l)%nat && (bl <? l)%nat then Some (i, l) else best)
  end.
Fixpoint groups (b : list byte) (run : option (nat * nat)) (i fuel : nat) : string :=
  match fuel with
  | O => ""
  | S fuel =>
    match run with
    | Some (s, n) =>
      if (i =? s)%nat then
        "::" +:+ (if (8 <=? i + n)%nat then ""
                  else hex (v6u16 b (i + n)) +:+ groups b None (S (i + n)) (fuel - n))
      else (if (0 <? i)%nat then ":" else "") +:+ hex (v6u16 b i) +:+ groups b run (S i) fuel
    | None => (if (0 <? i)%nat then ":" else "") +:+ hex (v6u16 b i) +:+ groups b run (S i) fuel
    end
  end.
Definition is4in6 (b : list byte) : bool :=
  bool_decide (take 12 b = replicate 10 x00 ++ [xff; xff]).
Definition string16 (b : list byte) : string :=
  if is4in6 b then "::ffff:" +:+ string4 (drop 12 b)
  else groups b (longest_run b 0 8 None) 0 8.

Definition String_ (a : Addr) : string :=
  match a with AddrFrom4 b => string4 b | AddrFrom16 b => string16 b end.

End Netip.

Module Summary.

Definition DefaultSummaryEventLimit : Z := 100.
Definition maxTCPReassemblyBytes : Z := 256 * 1024.
Definition tcpFlagSYN : Z := 0x02.

Record FlowSummary := {
  FNetworkProto : string; FTransportProto : string;
  FSrcAddr : string; FSrcPort : Z; FDstAddr : string; FDstPort : Z }.
Record DNSFlowSummary := { DNSFlow : FlowSummary; DNSMsg : DNS.DNSMessage }.
Record TLSFlowSummary := { TLSFlow : FlowSummary; ClientHello : TLS.TLSClientHello }.
Record HTTPFlowSummary := { HTTPFlow : FlowSummary; HTTPMsg : HTTP.HTTPMessage }.

Record PCAPSummary := {
  SLinkType : Z; Packets : Z; DecodedFlows : Z; DecodeErrors : Z;
  SDNS : list DNSFlowSummary; STLS : list TLSFlowSummary; SHTTP : list HTTPFlowSummary;
  EventsDropped : Z }.

Definition newSummary (link : Z) : PCAPSummary :=
  {| SLinkType := link; Packets := 0; DecodedFlows := 0; DecodeErrors := 0;
     SDNS := []; STLS := []; SHTTP := []; EventsDropped := 0 |}.
(** The counters and the event lists are updated in place. *)
Definition count (s : PCAPSummary) (p d e : Z) : PCAPSummary :=
  {| SLinkType := SLinkType s; Packets := Packets s + p; DecodedFlows := DecodedFlows s + d;
     DecodeErrors := DecodeErrors s + e; SDNS := SDNS s; STLS := STLS s; SHTTP := SHTTP s;
     EventsDropped := EventsDropped s |}.
Definition events (s : PCAPSummary) (d : list DNSFlowSummary) (t : list TLSFlowSummary)
    (h : list HTTPFlowSummary) (dropped : Z) : PCAPSummary :=
  {| SLinkType := SLinkType s; Packets := Packets s; DecodedFlows := DecodedFlows s;
     DecodeErrors := DecodeErrors s; SDNS := SDNS s ++ d; STLS := STLS s ++ t;
     SHTTP := SHTTP s ++ h; EventsDropped := EventsDropped s + dropped |}.

Definition newFlowSummary (flow : FlowPacket) : FlowSummary :=
  {| FNetworkProto := NetworkProto flow; FTransportProto := TransportProto flow;
     FSrcAddr := Netip.String_ (SrcAddr flow); FSrcPort := SrcPort flow;
     FDstAddr := Netip.String_ (DstAddr flow); FDstPort := DstPort flow |}.

Definition summaryHasRoom (s : PCAPSummary) (limit : Z) : bool :=
  len (SDNS s) + len (STLS s) + len (SHTTP s) <? limit.
Definition appendDNSSummary (s : PCAPSummary) (flow : FlowPacket) (msg : DNS.DNSMessage) (limit : Z) : PCAPSummary :=
  if negb (summaryHasRoom s limit) then events s [] [] [] 1
  else events s [{| DNSFlow := newFlowSummary flow; DNSMsg := msg |}] [] [] 0.
Definition appendTLSSummary (s : PCAPSummary) (flow : FlowPacket) (hello : TLS.TLSClientHello) (limit : Z) : PCAPSummary :=
  if negb (summaryHasRoom s limit) then events s [] [] [] 1
  else events s [] [{| TLSFlow := newFlowSummary flow; ClientHello := hello |}] [] 0.
Definition appendHTTPSummary (s : PCAPSummary) (flow : FlowPacket) (msg : HTTP.HTTPMessage) (limit : Z) : PCAPSummary :=
  if negb (summaryHasRoom s limit) then events s [] [] [] 1
  else events s [] [] [{| HTTPFlow := newFlowSummary flow; HTTPMsg := msg |}] 0.

Definition isDNSFlow (flow : FlowPacket) : bool :=
  bool_decide (TransportProto flow = "udp") && ((SrcPort flow =? 53) || (DstPort flow =? 53)).

Definition isTLSClientHelloPayload (payload : list byte) : outcome bool :=
  if negb (6 <=? len payload) then Ok false else
  p0 ← idx payload 0;
  if negb (b2z p0 =? 22) then Ok false else
  p5 ← idx payload 5;
  Ok (b2z p5 =? 1).

Definition http_methods : list string :=
  ["CONNECT"; "DELETE"; "GET"; "HEAD"; "OPTIONS"; "PATCH"; "POST"; "PUT"; "TRACE"].
Definition isHTTP1Payload `{Unicode} (payload : list byte) : bool :=
  let s := string_of_bytes payload in
  if HasPrefix s "HTTP/" then true else
  let methodEnd := Index s " " in
  if methodEnd <=? 0 then false
  else bool_decide (ToUpper (str_take methodEnd s) ∈ http_methods).
Definition hasHTTPHeaderTerminator (payload : list byte) : bool :=
  let s := string_of_bytes payload in Contains s HTTP.crlf2 || Contains s HTTP.lf2.

(** *** TCP reassembly *)

Record tcpFlowKey := { srcAddr : Addr; dstAddr : Addr; srcPort : Z; dstPort : Z }.
Record tcpSummaryStream := {
  data : list byte; startSeq : Z; nextSeq : Z; parsedTLS : bool; parsedHTTP : bool }.

#[export] Instance tcpFlowKey_eq_dec : EqDecision tcpFlowKey.
Proof. solve_decision. Defined.
#[export] Instance Addr_countable : Countable Addr.
Proof.
  refine (inj_countable' (λ a, match a with AddrFrom4 b => inl b | AddrFrom16 b => inr b end)
    (λ s, match s with inl b => AddrFrom4 b | inr b => AddrFrom16 b end) _). by intros [].
Defined.
#[export] Instance tcpFlowKey_countable : Countable tcpFlowKey.
Proof.
  refine (inj_countable' (λ k, (srcAddr k, dstAddr k, srcPort k, dstPort k))
    (λ t, let '(a, b, c, d) := t in {| srcAddr := a; dstAddr := b; srcPort := c; dstPort := d |}) _).
  by intros [].
Defined.

Abbreviation tcpSummaryStreams := (gmap tcpFlowKey tcpSummaryStream).

Definition flowKey (flow : FlowPacket) : tcpFlowKey :=
  {| srcAddr := SrcAddr flow; dstAddr := DstAddr flow; srcPort := SrcPort flow; dstPort := DstPort flow |}.
Definition newStream (seq : Z) : tcpSummaryStream :=
  {| data := []; startSeq := seq; nextSeq := seq; parsedTLS := false; parsedHTTP := false |}.
Definition with_data (st : tcpSummaryStream) (d : list byte) (start next : Z) : tcpSummaryStream :=
  {| data := d; startSeq := start; nextSeq := next; parsedTLS := parsedTLS st; parsedHTTP := parsedHTTP st |}.
Definition set_parsedTLS (st : tcpSummaryStream) : tcpSummaryStream :=
  {| data := data st; startSeq := startSeq st; nextSeq := nextSeq st; parsedTLS := true; parsedHTTP := parsedHTTP st |}.
Definition set_parsedHTTP (st : tcpSummaryStream) : tcpSummaryStream :=
  {| data := data st; startSeq := startSeq st; nextSeq := nextSeq st; parsedTLS := parsedTLS st; parsedHTTP := true |}.

Definition prependTCPPayload (stream : tcpSummaryStream) (dataSeq : Z) (payload : list byte)
  : outcome (tcpSummaryStream * bool) :=
  let endSeq := u32 (dataSeq + u32 (len payload)) in
  if endSeq <? startSeq stream then Ok (stream, false) else
  let overlap := u32 (endSeq - startSeq stream) in
  if (startSeq stream <? endSeq) && (u32 (len payload) <=? overlap) then Ok (stream, true) else
  payload ← (if startSeq stream <? endSeq then slice payload 0 (len payload - overlap) else Ok payload);
  if maxTCPReassemblyBytes <=? len (data stream) then Ok (stream, true) else
  let remaining := maxTCPReassemblyBytes - len (data stream) in
  '(payload, dataSeq) ←
    (if remaining <? len payload then
       payload ← slice_from payload (len payload - remaining);
       Ok (payload, u32 (startSeq stream - u32 (len payload)))
     else Ok (payload, dataSeq));
  Ok (with_data stream (payload ++ data stream) dataSeq (nextSeq stream), true).

(** The body of [add] once the stream of the segment is found. *)
Definition addSegment (stream : tcpSummaryStream) (dataSeq : Z) (payload : list byte)
  : outcome (tcpSummaryStream * bool) :=
  if dataSeq <? startSeq stream then prependTCPPayload stream dataSeq payload else
  let overlap := u32 (nextSeq stream - dataSeq) in
  if (dataSeq <? nextSeq stream) && (u32 (len payload) <=? overlap) then Ok (stream, true) else
  if nextSeq stream <? dataSeq then Ok (stream, false) else
  payload ← (if dataSeq <? nextSeq stream then slice_from payload overlap else Ok payload);
  if maxTCPReassemblyBytes <=? len (data stream) then Ok (stream, true) else
  let remaining := maxTCPReassemblyBytes - len (data stream) in
  payload ← (if remaining <? len payload then slice payload 0 remaining else Ok payload);
  Ok (with_data stream (data stream ++ payload) (startSeq stream)
        (u32 (nextSeq stream + u32 (len payload))), true).

Definition segSeq (flow : FlowPacket) : Z :=
  if negb (Z.land (TCPFlags flow) tcpFlagSYN =? 0) then u32 (TCPSeq flow + 1) else TCPSeq flow.

Definition add (s : tcpSummaryStreams) (flow : FlowPacket)
  : outcome (tcpSummaryStreams * tcpSummaryStream * bool) :=
  let key := flowKey flow in
  let dataSeq := segSeq flow in
  let stream := match s !! key with Some st => st | None => newStream dataSeq end in
  '(stream, ok) ← addSegment stream dataSeq (Payload flow);
  Ok (<[key := stream]> s, stream, ok).

(** *** The summary loop *)

Section WithUnicode.
Context `{Unicode}.

Definition summarizeFlow (s : PCAPSummary) (flow : FlowPacket) (eventLimit : Z) (streams : tcpSummaryStreams)
  : outcome (PCAPSummary * tcpSummaryStreams) :=
  if len (Payload flow) =? 0 then Ok (s, streams) else
  if isDNSFlow flow then
    match DNS.ParseDNSMessage (Payload flow) with
    | Ok msg => Ok (appendDNSSummary s flow msg eventLimit, streams)
    | Err _ => Ok (s, streams)
    | Panic => Panic
    end
  else if negb (bool_decide (TransportProto flow = "tcp")) then Ok (s, streams) else
  '(streams, stream, ok) ← add streams flow;
  if negb ok then Ok (s, streams) else
  tls ← (if negb (parsedTLS stream) then isTLSClientHelloPayload (data stream) else Ok false);
  if tls : bool then
    match TLS.ParseTLSClientHello (data stream) with
    | Ok hello => Ok (appendTLSSummary s flow hello eventLimit,
                      <[flowKey flow := set_parsedTLS stream]> streams)
    | Err _ => Ok (s, streams)
    | Panic => Panic
    end
  else if negb (parsedHTTP stream) && isHTTP1Payload (data stream) && hasHTTPHeaderTerminator (data stream) then
    match HTTP.ParseHTTP1Headers (data stream) with
    | Ok msg => Ok (appendHTTPSummary s flow msg eventLimit,
                    <[flowKey flow := set_parsedHTTP stream]> streams)
    | Err _ => Ok (s, streams)
    | Panic => Panic
    end
  else Ok (s, streams).

(** The loop body after [Next] returned a packet. *)
Definition summarizePacket (limit : Z) (link : Z) (st : PCAPSummary * tcpSummaryStreams) (pkt : Pcap.PCAPPacket)
  : outcome (PCAPSummary * tcpSummaryStreams) :=
  let '(s, streams) := st in
  match DecodeFlowPacket link (Pcap.Data pkt) with
  | Err _ => Ok (count s 1 0 1, streams)
  | Ok flow => summarizeFlow (count s 1 1 0) flow limit streams
  | Panic => Panic
  end.

Fixpoint summarizeLoop (fuel : nat) (limit : Z) (rd : Pcap.PCAPReader) (st : PCAPSummary * tcpSummaryStreams)
  : outcome PCAPSummary :=
  match fuel with
  | O => out_of_fuel
  | S fuel =>
    match Pcap.Next rd with
    | Err e => if errors_is_EOF e then Ok st.1 else Err e
    | Panic => Panic
    | Ok (pkt, rd') =>
      st ← summarizePacket limit (Pcap.LinkType rd) st pkt;
      summarizeLoop fuel limit rd' st
    end
  end.

Definition SummarizePCAP (r : reader) (eventLimit : Z) : outcome PCAPSummary :=
  rd ← Pcap.NewPCAPReader r;
  let limit := if eventLimit <=? 0 then DefaultSummaryEventLimit else eventLimit in
  summarizeLoop (S (length (r_bytes r))) limit rd (newSummary (Pcap.LinkType rd), ∅).

End WithUnicode.
End Summary.

(** ** Reassembly *)

Module SummaryFacts.
Import Summary.

(** [carries σ seq p]: the bytes [p] are what a sender whose byte at sequence
    number [n] is [σ n] sends from [seq] on. *)
Definition carries (σ : Z → byte) (seq : Z) (p : list byte) : Prop :=
  ∀ i b, p !! i = Some b → b = σ (u32 (seq + Z.of_nat i)).

Record stream_wf (st : tcpSummaryStream) : Prop := {
  wf_start : 0 <= startSeq st < 2 ^ 32;
  wf_len : len (data st) <= maxTCPReassemblyBytes;
  wf_next : nextSeq st = u32 (startSeq st + len (data st)) }.

Lemma carries_sub σ seq p lo hi :
  carries σ seq p → 0 <= lo → carries σ (seq + lo) (sub p lo hi).
Proof.
  intros Hc ? i b. unfold sub. rewrite lookup_take_Some, lookup_drop. intros [Hi _].
  rewrite (Hc _ _ Hi). do 2 f_equal. lia.
Qed.
Lemma carries_wrap σ seq p : carries σ (u32 seq) p ↔ carries σ seq p.
Proof. unfold carries. by setoid_rewrite wrap_add_l. Qed.
Lemma carries_app σ seq p q :
  carries σ seq p → carries σ (seq + len p) q → carries σ seq (p ++ q).
Proof.
  intros Hp Hq i b [Hi|[Hl Hi]]%lookup_app_Some; [by apply Hp|].
  rewrite (Hq _ _ Hi). unfold len. do 2 f_equal. lia.
Qed.
Lemma carries_cast σ s s' p : carries σ s p → u32 s = u32 s' → carries σ s' p.
Proof. intros H Hs. apply carries_wrap. rewrite <-Hs. by apply carries_wrap. Qed.

Lemma u32_range z : 0 <= u32 z < 2 ^ 32.
Proof. by apply wrap_range. Qed.
Lemma u32_cases z : 0 <= z < 2 ^ 33 → u32 z = z ∧ z < 2 ^ 32 ∨ u32 z = z - 2 ^ 32 ∧ 2 ^ 32 <= z.
Proof.
  intros. destruct (Z.ltb_spec z (2 ^ 32)).
  - left. rewrite wrap_small; lia.
  - right. split; [|done]. unfold wrap. symmetry. apply Z.mod_unique with 1; lia.
Qed.
Lemma u32_shift a b k : a = b + k * 2 ^ 32 → u32 a = u32 b.
Proof. intros ->. unfold wrap. by apply Z.mod_add. Qed.

(** What one segment does to a stream: the bookkeeping stays consistent, the
    parse flags are kept, and the stored bytes stay what the sender sent if
    the segment is what the sender sent. *)
Definition grows (st st' : tcpSummaryStream) (seq : Z) (payload : list byte) : Prop :=
  stream_wf st' ∧ parsedTLS st' = parsedTLS st ∧ parsedHTTP st' = parsedHTTP st ∧
  ∀ σ, carries σ (startSeq st) (data st) → carries σ seq payload → carries σ (startSeq st') (data st').

Lemma grows_refl st seq payload : stream_wf st → grows st st seq payload.
Proof. done. Qed.

Lemma grows_front st seq payload p seq' next :
  stream_wf st → 0 <= seq' < 2 ^ 32 → next = nextSeq st →
  len p + len (data st) <= maxTCPReassemblyBytes → u32 (seq' + len p) = startSeq st →
  (∀ σ, carries σ seq payload → carries σ seq' p) →
  grows st (with_data st (p ++ data st) seq' next) seq payload.
Proof.
  intros [] ? -> ? He Hp. split_and!; [|done..|].
  - constructor; simpl; [done|len_lia|].
    rewrite wf_next0, <-He. rewrite wrap_add_l, len_app. f_equal. lia.
  - intros σ Hd Hs. simpl. apply carries_app; [by apply Hp|].
    apply carries_wrap. by rewrite He.
Qed.
Lemma grows_back st seq payload p lo :
  stream_wf st → len p + len (data st) <= maxTCPReassemblyBytes → 
  (∀ σ, carries σ seq payload → carries σ (seq + lo) p) → u32 (seq + lo) = nextSeq st →
  grows st (with_data st (data st ++ p) (startSeq st) (u32 (nextSeq st + u32 (len p)))) seq payload.
Proof.
  intros [] ? Hp Hn. split_and!; [|done..|].
  - constructor; simpl; [done|len_lia|].
    rewrite wf_next0, wrap_add_l, wrap_add_r, len_app. f_equal. lia.
  - intros σ Hd Hs. simpl. apply carries_app; [done|].
    eapply carries_cast; [by apply Hp|]. by rewrite Hn, wf_next0.
Qed.

Lemma wp_prependTCPPayload st seq payload :
  stream_wf st → 0 <= seq < startSeq st → len payload < 2 ^ 32 →
  wp (prependTCPPayload st seq payload) (λ r, grows st r.1 seq payload).
Proof.
  intros Hst Hseq Hl. pose proof Hst as []. unfold prependTCPPayload, maxTCPReassemblyBytes in *.
  len_facts. rewrite !(wrap_small 32 (len payload)) by lia.
  set (endSeq := u32 (seq + len payload)).
  destruct (Z.ltb_spec endSeq (startSeq st)); [by apply grows_refl|].
  assert (endSeq = seq + len payload) as He.
  { subst endSeq. destruct (u32_cases (seq + len payload)) as [[-> ?]|[??]]; lia. }
  rewrite He in *. clearbody endSeq. rewrite wrap_small by (pose proof (u32_range (seq + len payload)); lia).
  apply wp_if; intros Hov; [by apply grows_refl|].
  set (cut := startSeq st - seq). apply wp_bind.
  apply wp_mono with (λ p, p = sub payload 0 cut).
  { subst cut. to_prop. wp_go; [f_equal; lia|].
    rewrite <-(sub_all payload) at 1. f_equal. lia. }
  intros p ->. assert (len (sub payload 0 cut) = cut) as Hc by (rewrite len_sub; lia).
  apply wp_if; intros Hfull; [by apply grows_refl|]. to_prop. rewrite Hc. apply wp_bind.
  apply wp_if; intros Hrem; to_prop.
  - wp_go. rewrite Hc in *. rewrite !sub_sub by lia.
    rewrite len_sub, (wrap_small 32 (0 + cut - _)) by lia. apply grows_front; try done.
    + apply u32_range.
    + unfold maxTCPReassemblyBytes. rewrite len_sub; lia.
    + rewrite wrap_add_l, len_sub, wrap_small; lia.
    + intros σ Hs. eapply carries_cast; [apply carries_sub; [done|]; lia|].
      rewrite (wrap_small 32 (startSeq st - _)) by lia. f_equal. lia.
  - wp_go. apply grows_front; unfold maxTCPReassemblyBytes; try done; try lia.
    + rewrite Hc. rewrite wrap_small; lia.
    + intros σ Hs. eapply carries_cast; [by apply carries_sub|]. f_equal. lia.
Qed.

Lemma wp_addSegment st seq payload :
  stream_wf st → 0 <= seq < 2 ^ 32 → len payload < 2 ^ 32 →
  wp (addSegment st seq payload) (λ r, grows st r.1 seq payload).
Proof.
  intros Hst Hseq Hl. pose proof Hst as []. unfold addSegment.
  apply wp_if; intros Hlt; to_prop; [apply wp_prependTCPPayload; [done|lia..]|].
  len_facts. rewrite (wrap_small 32 (len payload)) by lia.
  pose proof (u32_range (startSeq st + len (data st))) as Hn. rewrite <-wf_next0 in Hn.
  apply wp_if; intros Hov; [by apply grows_refl|].
  apply wp_if; intros Hgap; [by apply grows_refl|]. to_prop.
  rewrite (wrap_small 32 (nextSeq st - seq)) in * by lia.
  set (cut := nextSeq st - seq) in *. assert (0 <= cut <= len payload) by lia.
  apply wp_bind, wp_mono with (λ p, p = sub payload cut (len payload)).
  { wp_go; [done|]. replace cut with 0 by lia. by rewrite sub_all. }
  intros p ->. assert (len (sub payload cut (len payload)) = len payload - cut) as Hc by (rewrite len_sub; lia).
  apply wp_if; intros Hfull; [by apply grows_refl|]. to_prop. apply wp_bind.
  assert (u32 (seq + cut) = nextSeq st) by (rewrite wrap_small; lia).
  apply wp_if; intros Hrem; to_prop; wp_go.
  - rewrite sub_sub in * by lia. apply (grows_back _ _ _ _ cut); try done; [lia|].
    intros σ Hs. replace (cut + 0) with cut by lia. apply carries_sub; [done|lia].
  - apply (grows_back _ _ _ _ cut); try done; [lia|]. intros σ Hs. apply carries_sub; [done|lia].
Qed.

(** A segment of a flow, in range. *)
Definition seg_ok (flow : FlowPacket) : Prop :=
  0 <= TCPSeq flow < 2 ^ 32 ∧ len (Payload flow) < 2 ^ 32.

Lemma segSeq_range flow : seg_ok flow → 0 <= segSeq flow < 2 ^ 32.
Proof. intros [? _]. unfold segSeq. case_match; [apply u32_range|done]. Qed.

Lemma newStream_wf seq : 0 <= seq < 2 ^ 32 → stream_wf (newStream seq).
Proof. intros. constructor; simpl; [done..|]. change (len []) with 0. rewrite Z.add_0_r, wrap_small; lia. Qed.

(** The state of a key before a segment of it: its stream, or a new one. *)
Definition current (s : tcpSummaryStreams) (flow : FlowPacket) : tcpSummaryStream :=
  match s !! flowKey flow with Some st => st | None => newStream (segSeq flow) end.

Lemma current_wf s flow : map_Forall (λ _, stream_wf) s → seg_ok flow → stream_wf (current s flow).
Proof.
  intros Hs Hf. unfold current. destruct (s !! flowKey flow) eqn:E; [by apply (Hs _ _ E)|].
  by apply newStream_wf, segSeq_range.
Qed.

Lemma wp_add s flow :
  map_Forall (λ _, stream_wf) s → seg_ok flow →
  wp (add s flow) (λ r, grows (current s flow) r.1.2 (segSeq flow) (Payload flow) ∧
                        r.1.1 = <[flowKey flow := r.1.2]> s).
Proof.
  intros Hs Hf. unfold add. fold (current s flow). apply wp_bind.
  eapply wp_mono; [apply wp_addSegment; [by apply current_wf|by apply segSeq_range|apply Hf]|].
  intros [st ok] Hg. by wp_go.
Qed.

(** [add] reports no error: it either returns or would panic. *)
Lemma slice_no_err {A} (l : list A) lo hi e : slice l lo hi ≠ Err e.
Proof. unfold slice. by case_match. Qed.
Lemma bind_no_err {A B} (m : outcome A) (f : A → outcome B) e :
  (∀ e, m ≠ Err e) → (∀ a, f a ≠ Err e) → (m ≫= f) ≠ Err e.
Proof. intros Hm Hf. destruct m; [apply Hf|intros [= ->]; by eapply Hm|done]. Qed.
Ltac no_err :=
  repeat first
    [ done | apply slice_no_err | apply bind_no_err; [intros ?|intros ?]
    | match goal with |- (if ?b then _ else _) ≠ _ => destruct b end
    | match goal with |- (let '(_, _) := ?p in _) ≠ _ => destruct p end ].
Lemma add_no_err s flow e : add s flow ≠ Err e.
Proof. unfold add, addSegment, prependTCPPayload. no_err. Qed.

Lemma add_wf s flow r :
  map_Forall (λ _, stream_wf) s → seg_ok flow → add s flow = Ok r → map_Forall (λ _, stream_wf) r.1.1.
Proof.
  intros Hs Hf Hr. destruct (wp_elim _ _ _ (wp_add s flow Hs Hf) Hr) as [[] ->].
  by apply map_Forall_insert_2.
Qed.

(** Feeding a sequence of segments to the stream table. *)
Fixpoint addAll (s : tcpSummaryStreams) (flows : list FlowPacket) : outcome tcpSummaryStreams :=
  match flows with
  | [] => Ok s
  | f :: flows => '(s, _, _) ← add s f; addAll s flows
  end.

(** The stored bytes of every stream are a window of what its sender sent. *)
Definition streams_match (σ : tcpFlowKey → Z → byte) (s : tcpSummaryStreams) : Prop :=
  map_Forall (λ k st, stream_wf st ∧ carries (σ k) (startSeq st) (data st)) s.

Lemma addAll_match σ s flows :
  streams_match σ s →
  Forall (λ f, seg_ok f ∧ carries (σ (flowKey f)) (segSeq f) (Payload f)) flows →
  ∃ s', addAll s flows = Ok s' ∧ streams_match σ s'.
Proof.
  intros Hs Hf. revert s Hs. induction Hf as [|f flows [Hok Hc] _ IH]; intros s Hs; [by exists s|].
  assert (map_Forall (λ _, stream_wf) s) as Hwf by (intros k st Hk; by apply (Hs k)).
  pose proof (wp_add s f Hwf Hok) as Ha. cbn [addAll].
  destruct (add s f) as [[[s1 st] ok]|e|] eqn:E; [|..].
  - destruct Ha as [(Hst & _ & _ & Hd) Hs1]. simpl in *. subst s1. apply IH.
    apply map_Forall_insert_2; [|done]. split; [done|]. apply Hd; [|done].
    unfold current. destruct (s !! flowKey f) eqn:Ek; [by apply (Hs _ _ Ek)|]. by intros i b.
  - by destruct (add_no_err s f e).
  - done.
Qed.

(** *** Completeness

    [gap_free key s0 e flows e']: the segments of [key] in [flows] start at or
    after [s0], and each starts within or directly after what the earlier ones
    reached; together they extend the covered range from [s0, e) to [s0, e').
    Segments of other flows are interleaved freely. *)
Inductive gap_free (key : tcpFlowKey) (s0 : Z) : Z → list FlowPacket → Z → Prop :=
| gf_nil e : gap_free key s0 e [] e
| gf_other e f flows e' :
    flowKey f ≠ key → seg_ok f → gap_free key s0 e flows e' → gap_free key s0 e (f :: flows) e'
| gf_seg e f flows e' :
    flowKey f = key → seg_ok f → s0 <= segSeq f <= e →
    gap_free key s0 (Z.max e (segSeq f + len (Payload f))) flows e' →
    gap_free key s0 e (f :: flows) e'.

Definition covers (s0 e : Z) (st : tcpSummaryStream) : Prop :=
  startSeq st = s0 ∧ len (data st) = Z.min maxTCPReassemblyBytes (e - s0).

Lemma gap_free_le key s0 e flows e' : gap_free key s0 e flows e' → e <= e'.
Proof. induction 1; lia. Qed.

Lemma wp_addSegment_covers st s0 e q p :
  stream_wf st → covers s0 e st → 0 <= s0 <= q → q <= e → Z.max e (q + len p) < 2 ^ 32 →
  wp (addSegment st q p) (λ r, covers s0 (Z.max e (q + len p)) r.1).
Proof.
  intros [] [Hs Hl] ? ? ?. unfold addSegment, covers, maxTCPReassemblyBytes in *. rewrite Hs in *.
  len_facts. rewrite (wrap_small 32 (len p)) by lia.
  rewrite (proj2 (Z.ltb_ge q s0)) by lia.
  rewrite (wrap_small 32 (s0 + _)) in wf_next0 by lia.
  assert (u32 (nextSeq st - q) = nextSeq st - q ∨ nextSeq st < q) as Hov.
  { destruct (Z.ltb_spec (nextSeq st) q); [by right|left]. rewrite wrap_small; lia. }
  apply wp_if; intros Hi1; to_prop; [simpl; lia|].
  apply wp_if; intros Hi2; to_prop; [simpl; lia|].
  destruct Hov as [Hov|]; [|lia]. rewrite Hov in *.
  apply wp_bind, wp_mono with (λ x, len x = len p - (nextSeq st - q)); [wp_go; lia|].
  intros x Hx. apply wp_if; intros Hi3; to_prop; [simpl; lia|].
  apply wp_bind, wp_mono with (λ y, len y = Z.min (len x) (262144 - len (data st))); [wp_go; lia|].
  intros y Hy. wp_go. simpl. rewrite len_app. lia.
Qed.

Lemma addAll_covers key s0 e flows e' s :
  0 <= s0 <= e → gap_free key s0 e flows e' → e' < 2 ^ 32 → map_Forall (λ _, stream_wf) s →
  match s !! key with Some st => covers s0 e st | None => e = s0 end →
  wp (addAll s flows) (λ s', match s' !! key with Some st => covers s0 e' st | None => e' = s0 end).
Proof.
  intros Hs0 Hg. revert s Hs0. induction Hg as [e|e f flows e' Hk Hf Hg IH|e f flows e' Hk Hf Hq Hg IH];
    intros s Hs0 He Hwf Hc; [done|..]; cbn [addAll]; apply wp_bind.
  - pose proof (wp_add s f Hwf Hf) as Ha. destruct (add s f) as [[[s1 st] ok]| |] eqn:E; [|done..].
    destruct Ha as [_ Hs1]. simpl in *. apply IH; [done..|by apply (add_wf s f _ Hwf Hf E)|].
    subst s1. by rewrite lookup_insert_ne.
  - pose proof (wp_add s f Hwf Hf) as Ha. destruct (add s f) as [[[s1 st] ok]| |] eqn:E; [|done..].
    destruct Ha as [_ Hs1]. simpl in *. apply IH; [lia|done|by apply (add_wf s f _ Hwf Hf E)|].
    subst s1. rewrite Hk, lookup_insert_eq. apply gap_free_le in Hg.
    assert (covers s0 e (current s f)) as Hcur.
    { unfold current. rewrite Hk. destruct (s !! key) eqn:Ek; [done|]. subst e. split; simpl; [lia|].
      change (len []) with 0. unfold maxTCPReassemblyBytes. lia. }
    revert E. unfold add. fold (current s f).
    pose proof (wp_addSegment_covers (current s f) s0 e (segSeq f) (Payload f)) as Hw.
    destruct (addSegment (current s f) _ _) as [[st' ok']| |]; [|done..].
    intros [= _ -> _]. apply Hw; [by apply current_wf|done|lia..].
Qed.

Lemma carries_exact σ s0 p :
  0 <= s0 → s0 + len p <= 2 ^ 32 → carries σ s0 p → p = map σ (seqZ s0 (len p)).
Proof.
  intros ?? Hc. apply list_eq. intros i. rewrite list_lookup_fmap.
  destruct (p !! i) as [b|] eqn:E.
  - apply lookup_lt_Some in E as Hi. unfold len in *. rewrite lookup_seqZ_lt by lia. simpl.
    rewrite (Hc _ _ E), wrap_small; [done|lia].
  - apply lookup_ge_None in E. unfold len. by rewrite lookup_seqZ_ge by lia.
Qed.

(** *** The summary loop *)

Lemma wp_order_uint o n l : Z.of_nat n <= len l → wp (Pcap.order_uint o n l) (λ z, 0 <= z).
Proof. intros. destruct o; simpl; wp_go; lia. Qed.
#[local] Hint Extern 1 (wp (Pcap.order_uint _ _ _) _) =>
  eapply wp_mono; [apply wp_order_uint; glia|intros ? ?] : spectra.

Lemma wp_Next p :
  wp (Pcap.Next p) (λ x, len (r_bytes (Pcap.r x.2)) < len (r_bytes (Pcap.r p)) ∧
    Pcap.LinkType x.2 = Pcap.LinkType p ∧ len (Pcap.Data x.1) <= Pcap.DefaultSnapLen).
Proof.
  unfold Pcap.Next. pose proof (wp_io_ReadFull (Pcap.r p) 16) as Hh.
  destruct (io_ReadFull (Pcap.r p) 16) as [[hdr rd]|e|]; [|by case_decide|apply Hh; lia].
  destruct Hh as [Hh Hr]; [lia|]. simpl in Hh, Hr. len_facts.
  wp_step. wp_step. wp_step. eapply wp_mono; [apply wp_order_uint; lia|intros incl Hi; simpl in Hi].
  wp_step. wp_step. wp_step. eapply wp_mono; [apply wp_order_uint; lia|intros orig _].
  wp_step; [done|]. wp_step; [done|]. to_prop. wp_step. wp_step.
  eapply wp_mono; [by apply wp_io_ReadFull|]. intros [d rd'] [Hd Hrd]. simpl in Hd, Hrd.
  wp_step. wp_step. wp_step. eapply wp_mono; [apply wp_order_uint; lia|intros sec _].
  wp_step. wp_step. wp_step. eapply wp_mono; [apply wp_order_uint; lia|intros frac _].
  wp_step. simpl. split_and!; [lia|done|lia].
Qed.

Lemma wp_NewPCAPReader r :
  wp (Pcap.NewPCAPReader r) (λ p, len (r_bytes (Pcap.r p)) < len (r_bytes r)).
Proof.
  unfold Pcap.NewPCAPReader, Pcap.pcapHeaderLen. wp_step. wp_step.
  eapply wp_mono; [by apply wp_io_ReadFull|]. intros [hdr rd] [Hh Hr]. simpl in Hh, Hr.
  wp_step. wp_step. wp_step. eapply wp_mono with (λ _, True); [|intros [o ns] _].
  { unfold Pcap.pcapByteOrder. by repeat case_decide. }
  wp_step. wp_step. wp_step. eapply wp_mono; [apply wp_order_uint; lia|intros major _].
  wp_step; wp_step; wp_step; wp_step; (eapply wp_mono; [apply wp_order_uint; lia|intros a _]); [done|].
  wp_step. wp_step. wp_step. eapply wp_mono; [apply wp_order_uint; lia|intros link _].
  wp_step. simpl. lia.
Qed.

Section WithUnicode.
Context `{Unicode}.

Definition event_count (s : PCAPSummary) : Z := len (SDNS s) + len (STLS s) + len (SHTTP s).

(** A summary is consistent: every packet is counted once, the events stay
    within the limit and are dropped only when it is reached, and no HTTP
    event carries a sensitive header value. *)
Record summary_ok (limit : Z) (s : PCAPSummary) : Prop := {
  so_packets : Packets s = DecodedFlows s + DecodeErrors s;
  so_nonneg : 0 <= DecodedFlows s ∧ 0 <= DecodeErrors s;
  so_limit : event_count s <= limit;
  so_dropped : 0 <= EventsDropped s ∧ (0 < EventsDropped s → event_count s = limit);
  so_redacted : Forall (λ h, Forall HTTPFacts.header_ok (HTTP.Headers (HTTPMsg h))) (SHTTP s) }.

Definition state_ok (limit : Z) (st : PCAPSummary * tcpSummaryStreams) : Prop :=
  summary_ok limit st.1 ∧ map_Forall (λ _, stream_wf) st.2.

Lemma events_ok limit s d t h :
  summary_ok limit s → summaryHasRoom s limit = true → len d + len t + len h = 1 →
  Forall (λ h, Forall HTTPFacts.header_ok (HTTP.Headers (HTTPMsg h))) h →
  summary_ok limit (events s d t h 0).
Proof.
  intros [] Hr Hl Hh. unfold summaryHasRoom, event_count in *. to_prop.
  constructor; unfold event_count; simpl; try done; rewrite ?len_app; try lia.
  by apply Forall_app.
Qed.
Lemma dropped_ok limit s :
  summary_ok limit s → summaryHasRoom s limit = false → summary_ok limit (events s [] [] [] 1).
Proof.
  intros [] Hr. unfold summaryHasRoom, event_count in *. to_prop.
  constructor; unfold event_count; simpl; try done; rewrite ?app_nil_r; try done; lia.
Qed.
Lemma count_ok limit s d e :
  summary_ok limit s → 0 <= d → 0 <= e → d + e = 1 → summary_ok limit (count s 1 d e).
Proof. intros [] ???. constructor; simpl; try done; lia. Qed.

Lemma appendDNSSummary_ok limit s flow msg : summary_ok limit s → summary_ok limit (appendDNSSummary s flow msg limit).
Proof.
  intros. unfold appendDNSSummary. destruct (summaryHasRoom s limit) eqn:E; simpl;
    [by apply events_ok|by apply dropped_ok].
Qed.
Lemma appendTLSSummary_ok limit s flow msg : summary_ok limit s → summary_ok limit (appendTLSSummary s flow msg limit).
Proof.
  intros. unfold appendTLSSummary. destruct (summaryHasRoom s limit) eqn:E; simpl;
    [by apply events_ok|by apply dropped_ok].
Qed.
Lemma appendHTTPSummary_ok limit s flow msg :
  summary_ok limit s → Forall HTTPFacts.header_ok (HTTP.Headers msg) →
  summary_ok limit (appendHTTPSummary s flow msg limit).
Proof.
  intros. unfold appendHTTPSummary. destruct (summaryHasRoom s limit) eqn:E; simpl;
    [|by apply dropped_ok]. apply events_ok; try done. by apply Forall_singleton.
Qed.

Lemma wp_isTLS payload : wp (isTLSClientHelloPayload payload) (λ _, True).
Proof. unfold isTLSClientHelloPayload. by wp_go. Qed.

Lemma wp_summarizeFlow limit s flow streams :
  seg_ok flow → state_ok limit (s, streams) → wp (summarizeFlow s flow limit streams) (state_ok limit).
Proof.
  intros Hf [Hs Hst]. simpl in Hs, Hst. unfold summarizeFlow. wp_step; [done|]. wp_step.
  { pose proof (DNSFacts.wp_ParseDNSMessage (Payload flow)) as Hd.
    destruct (DNS.ParseDNSMessage _); [|done..]. split; simpl; [by apply appendDNSSummary_ok|done]. }
  wp_step; [done|]. wp_step. pose proof (wp_add streams flow Hst Hf) as Ha.
  destruct (add streams flow) as [[[streams' st] ok]|e|] eqn:E; [|done..].
  pose proof (add_wf streams flow _ Hst Hf E) as Hst'. destruct Ha as [[[] _] _]. simpl in *.
  wp_step; [done|]. wp_step. eapply wp_mono with (λ _, True).
  { wp_step; [apply wp_isTLS|done]. }
  intros tls _. destruct tls.
  - pose proof (TLSFacts.wp_ParseTLSClientHello (data st)) as Ht.
    destruct (TLS.ParseTLSClientHello _); [|done..]. split; simpl; [by apply appendTLSSummary_ok|].
    apply map_Forall_insert_2; [by constructor|done].
  - wp_step; [|done]. pose proof (HTTPFacts.wp_ParseHTTP1Headers (data st)) as Hh.
    destruct (HTTP.ParseHTTP1Headers _); [|done..]. split; simpl; [by apply appendHTTPSummary_ok|].
    apply map_Forall_insert_2; [by constructor|done].
Qed.

Lemma wp_summarizePacket limit link st pkt :
  len (Pcap.Data pkt) <= Pcap.DefaultSnapLen → state_ok limit st →
  wp (summarizePacket limit link st pkt) (state_ok limit).
Proof.
  intros Hl Hst. unfold summarizePacket. destruct st as [s streams].
  pose proof (PacketFacts.wp_DecodeFlowPacket link (Pcap.Data pkt)) as Hd.
  destruct (DecodeFlowPacket link (Pcap.Data pkt)) as [flow| |]; [| |done].
  - apply wp_summarizeFlow.
    + destruct Hd. destruct ok_payload as (off & ? & ? & _). split; [done|].
      unfold Pcap.DefaultSnapLen in Hl. lia.
    + split; [apply count_ok; [apply Hst|lia..]|apply Hst].
  - split; [apply count_ok; [apply Hst|lia..]|apply Hst].
Qed.

Lemma wp_summarizeLoop fuel limit rd st :
  len (r_bytes (Pcap.r rd)) < Z.of_nat fuel → state_ok limit st →
  wp (summarizeLoop fuel limit rd st) (summary_ok limit).
Proof.
  revert rd st. induction fuel as [|fuel IH]; intros rd st Hf Hst; [glia|]. cbn [summarizeLoop].
  pose proof (wp_Next rd) as Hn. destruct (Pcap.Next rd) as [[pkt rd']|e|]; [| |done].
  - destruct Hn as (? & ? & ?). simpl in *. wp_step. eapply wp_mono; [by apply wp_summarizePacket|].
    intros st' Hst'. apply IH; [lia|done].
  - wp_step; [apply Hst|done].
Qed.

Lemma wp_SummarizePCAP r eventLimit :
  wp (SummarizePCAP r eventLimit)
    (summary_ok (if eventLimit <=? 0 then DefaultSummaryEventLimit else eventLimit)).
Proof.
  unfold SummarizePCAP. wp_step. eapply wp_mono; [apply wp_NewPCAPReader|]. intros rd Hrd.
  set (limit := if _ : bool then _ else _).
  assert (0 < limit) by (subst limit; unfold DefaultSummaryEventLimit; destruct (Z.leb_spec eventLimit 0); lia).
  clearbody limit. apply wp_summarizeLoop; [unfold len in *; lia|].
  split; [|apply map_Forall_empty]. constructor; unfold event_count; simpl; unfold len; simpl; try done; lia.
Qed.

(** *** Well-formed captures *)

Fixpoint summarizeAll (limit link : Z) (st : PCAPSummary * tcpSummaryStreams) (pks : list Pcap.PCAPPacket)
  : outcome (PCAPSummary * tcpSummaryStreams) :=
  match pks with
  | [] => Ok st
  | p :: pks => st ← summarizePacket limit link st p; summarizeAll limit link st pks
  end.

Lemma summarizeLoop_capture o nanos snap link limit pks st fuel :
  Forall (PcapWire.packet_ok snap) pks → 0 <= snap → (length pks < fuel)%nat →
  summarizeLoop fuel limit (PcapWire.open o nanos snap link (PcapWire.capture o pks)) st =
  (st ← summarizeAll limit link st pks; Ok st.1).
Proof.
  intros Hp ?. revert st fuel. induction Hp as [|p pks Hp Hps IH]; intros st [|fuel] Hf; simpl in Hf; try lia; [done|].
  cbn [PcapWire.capture summarizeLoop summarizeAll]. rewrite PcapWire.Next_record by done.
  cbn [Pcap.LinkType PcapWire.open]. rewrite bind_bind.
  destruct (summarizePacket limit link st p) as [st'| |]; [|done..]. simpl mbind. apply IH. lia.
Qed.
Lemma capture_length o pks : (length pks <= length (PcapWire.capture o pks))%nat.
Proof.
  induction pks as [|p pks IH]; [done|]. cbn [PcapWire.capture]. unfold PcapWire.packet_record.
  rewrite !length_app. pose proof (PcapWire.len_order_bytes o 4 (Pcap.TimestampSec p)) as Hl.
  unfold len in Hl. cbn [length]. lia.
Qed.
End WithUnicode.
End SummaryFacts.

(** ** Capture commands *)

Module Tcpdump.

(** Durations are in nanoseconds. *)
Definition DefaultDuration : Z := 30 * 10 ^ 9.
Definition MaxDuration : Z := 60 * 10 ^ 9.
Definition DefaultSnapLen : Z := 262144.

Record Options := {
  Interface : string; Output : string; Duration : Z; SnapLen : Z;
  Host : string; Port : Z; Proto : string }.

(** The loops over the runes of a string: a byte outside ASCII belongs to a
    rune none of the ranges contains. *)
Definition token_char (c : char) : bool :=
  is_lower c || is_upper c || is_digit c || Ascii.eqb c "_" || Ascii.eqb c "-" || Ascii.eqb c ".".
Definition validToken (s : string) : bool := str_forall token_char s.
Definition host_char (c : char) : bool :=
  is_lower c || is_upper c || is_digit c || Ascii.eqb c "-" || Ascii.eqb c "." || Ascii.eqb c ":".
Definition validHost (s : string) : bool := str_forall host_char s && negb (bool_decide (s = "")).

Definition appendBPFAnd (parts next : list string) : list string :=
  (if 0 <? len parts then parts ++ ["and"] else parts) ++ next.

Section WithUnicode.
Context `{Unicode}.

Definition bpfFilterArgs (opts : Options) : outcome (list string) :=
  parts ←
    (if decide (Proto opts = "") then Ok [] else
     let proto := ToLower (Proto opts) in
     if bool_decide (proto = "tcp") || bool_decide (proto = "udp") then Ok [proto]
     else Err (Errorf "invalid capture protocol"));
  parts ←
    (if decide (Host opts = "") then Ok parts else
     if negb (validHost (Host opts)) then Err (Errorf "invalid capture host")
     else Ok (appendBPFAnd parts ["host"; Host opts]));
  if 0 <? Port opts then
    if 65535 <? Port opts then Err (Errorf "invalid capture port")
    else Ok (appendBPFAnd parts ["port"; itoa (Port opts)])
  else Ok parts.

Definition BuildTCPDumpArgs (opts : Options) : outcome (list string) :=
  if decide (Interface opts = "") then Err (Errorf "capture interface is required") else
  if negb (validToken (Interface opts)) then Err (Errorf "invalid capture interface") else
  if decide (Output opts = "") then Err (Errorf "capture output path is required") else
  let duration := if Duration opts =? 0 then DefaultDuration else Duration opts in
  if (duration <=? 0) || (MaxDuration <? duration) then Err (Errorf "capture duration out of range") else
  let snapLen := if SnapLen opts =? 0 then DefaultSnapLen else SnapLen opts in
  if (snapLen <? 96) || (DefaultSnapLen <? snapLen) then Err (Errorf "capture snap length out of range") else
  filter ← bpfFilterArgs opts;
  let args := ["-i"; Interface opts; "-n"; "-s"; itoa snapLen] in
  let args := if decide (Output opts = "-") then args ++ ["-U"] else args in
  let args := args ++ ["-w"; Output opts] in
  Ok (if 0 <? len filter then args ++ filter else args).

End WithUnicode.
End Tcpdump.

Module TcpdumpFacts.
Import Tcpdump.
Section WithUnicode.
Context `{Unicode}.

(** The filter expressions the builder can produce: a protocol, a host and a
    port primitive, each optional, joined by [and]. *)
Definition filter_of (proto host port : option string) : list string :=
  let prims := option_list ((λ p, [p]) <$> proto) ++ option_list ((λ h, ["host"; h]) <$> host) ++
    option_list ((λ p, ["port"; p]) <$> port) in
  match prims with
  | [] => []
  | p :: ps => p ++ mjoin (map (λ q, "and" :: q) ps)
  end.

Definition proto_opt (o : Options) := if decide (Proto o = "") then None else Some (ToLower (Proto o)).
Definition host_opt (o : Options) := if decide (Host o = "") then None else Some (Host o).
Definition port_opt (o : Options) := if 0 <? Port o then Some (itoa (Port o)) else None.

(** The options the builder accepts. *)
Record filter_valid (o : Options) : Prop := {
  fv_proto : Proto o = "" ∨ ToLower (Proto o) = "tcp" ∨ ToLower (Proto o) = "udp";
  fv_host : str_forall host_char (Host o) = true;
  fv_port : Port o <= 65535 }.
Record valid (o : Options) : Prop := {
  v_if : Interface o ≠ "" ∧ str_forall token_char (Interface o) = true;
  v_out : Output o ≠ "";
  v_dur : 0 <= Duration o <= MaxDuration;
  v_snap : SnapLen o = 0 ∨ 96 <= SnapLen o <= DefaultSnapLen;
  v_filter : filter_valid o }.

Definition argv (o : Options) : list string :=
  ["-i"; Interface o; "-n"; "-s"; itoa (if SnapLen o =? 0 then DefaultSnapLen else SnapLen o)] ++
  (if decide (Output o = "-") then ["-U"] else []) ++ ["-w"; Output o] ++
  filter_of (proto_opt o) (host_opt o) (port_opt o).

Lemma bpfFilterArgs_ok o args :
  bpfFilterArgs o = Ok args ↔ filter_valid o ∧ args = filter_of (proto_opt o) (host_opt o) (port_opt o).
Proof.
  unfold bpfFilterArgs, proto_opt, host_opt, port_opt, validHost.
  assert (∀ s : string, s ≠ "" → bool_decide (s = "") = false) as Hne by (intros; by apply bool_decide_eq_false).
  destruct (decide (Proto o = "")) as [Hp|Hp];
    [|destruct (bool_decide (ToLower (Proto o) = "tcp") || bool_decide (ToLower (Proto o) = "udp")) eqn:Hq];
    (destruct (decide (Host o = "")) as [Hh|Hh]; [|rewrite (Hne _ Hh); destruct (str_forall host_char (Host o)) eqn:Hv]);
    destruct (Z.ltb_spec 0 (Port o)); try destruct (Z.ltb_spec 65535 (Port o)); simpl;
    (split; [first [done|intros [= <-]; split; [constructor|done]]
            |intros [[Hpr Hho Hpo] ->]; try done]).
  all: try lia; try congruence; try (by left); try (by rewrite Hh).
  all: try (right; to_prop; destruct Hq; to_prop; by auto).
  all: exfalso; to_prop; destruct Hpr as [?|[?|?]]; congruence.
Qed.

Lemma BuildTCPDumpArgs_ok o args : BuildTCPDumpArgs o = Ok args ↔ valid o ∧ args = argv o.
Proof.
  unfold BuildTCPDumpArgs, argv, validToken, DefaultDuration, MaxDuration.
  destruct (decide (Interface o = "")) as [Hi|Hi]; [split; [done|intros [[[]] _]; done]|].
  destruct (str_forall token_char (Interface o)) eqn:Ht; simpl negb; cbv iota;
    [|split; [done|intros [[[]] _]; congruence]].
  destruct (decide (Output o = "")) as [Ho|Ho]; [split; [done|intros [[] _]; done]|]. cbv zeta.
  set (d := if Duration o =? 0 then _ else _). set (sl := if SnapLen o =? 0 then _ else _).
  destruct ((d <=? 0) || (60 * 10 ^ 9 <? d)) eqn:Hd.
  { split; [done|intros [[] _]]. exfalso. unfold MaxDuration in *. subst d.
    destruct (Z.eqb_spec (Duration o) 0); to_prop; destruct Hd; to_prop; lia. }
  destruct ((sl <? 96) || (DefaultSnapLen <? sl)) eqn:Hs.
  { split; [done|intros [[] _]]. exfalso. unfold DefaultSnapLen in *. subst sl.
    destruct (Z.eqb_spec (SnapLen o) 0); to_prop; destruct Hs; to_prop; lia. }
  assert (filter_valid o ↔ valid o) as Hval.
  { split; [intros Hf|by intros []]. unfold DefaultSnapLen in *. subst d sl.
    constructor; try done; unfold MaxDuration, DefaultSnapLen; to_prop;
    repeat match goal with H : context [if ?b then _ else _] |- _ => destruct b eqn:? end; to_prop; lia. }
  rewrite <-Hval. pose proof (bpfFilterArgs_ok o) as Hf.
  destruct (bpfFilterArgs o) as [f|e|]; simpl mbind; cbv beta.
  - destruct (proj1 (Hf f) eq_refl) as [Hv ->].
    split; [intros [= <-]; split; [done|]|intros [_ ->]; f_equal];
      destruct (filter_of _ _ _); destruct (decide (Output o = "-")); reflexivity.
  - split; [done|]. intros [Hv _]. discriminate (proj2 (Hf _) (conj Hv eq_refl)).
  - split; [done|]. intros [Hv _]. discriminate (proj2 (Hf _) (conj Hv eq_refl)).
Qed.
End WithUnicode.
End TcpdumpFacts.

(** ** Properties *)

Import Summary SummaryFacts Tcpdump TcpdumpFacts.

(** C32: Reassembly is sound: for segments of any number of flows, in any order,
    with any duplication, loss and overlap, as long as every payload is what
    its sender sent at its sequence number, adding them never fails, and the
    bytes stored for a flow are exactly what its sender sent from [startSeq]
    on, at most 256 KiB of them, with [nextSeq] the sequence number after
    them. *)
Theorem reassembly_sound σ flows
  (Hf : Forall (λ f, SummaryFacts.seg_ok f ∧ carries (σ (flowKey f)) (segSeq f) (Payload f)) flows) :
  ∃ s, addAll ∅ flows = Ok s ∧ streams_match σ s.
Proof. apply addAll_match; [apply map_Forall_empty|done]. Qed.

(** A small request in two segments, the second first, and a duplicate. *)
Definition demo_flow (seq flags : Z) (payload : string) : FlowPacket :=
  {| NetworkProto := "ipv4"; TransportProto := "tcp"; SrcAddr := AddrFrom4 [x0a; x00; x00; x01];
     DstAddr := AddrFrom4 [x0a; x00; x00; x02]; SrcPort := 40000; DstPort := 80;
     TCPSeq := seq; TCPAck := 0; TCPFlags := flags; Payload := bytes_of_string payload |}.
Definition demo_text : string := "GET / HTTP/1.1".
Definition demo_stream (n : Z) : byte := nth (Z.to_nat (n - 101)) (bytes_of_string demo_text) x00.

Lemma reassembly_sound_witness :
  ∃ s, addAll ∅ [demo_flow 105 16 "/ HT"; demo_flow 100 2 "GET / "; demo_flow 107 16 "HTTP/1.1"] = Ok s ∧
    streams_match (λ _, demo_stream) s.
Proof.
  apply (reassembly_sound (λ _, demo_stream)).
  repeat apply List.Forall_cons; [..|apply List.Forall_nil];
    (split; [vm_compute; intuition congruence|]); intros i b Hi;
    (do 9 (destruct i as [|i]; [first [discriminate Hi|injection Hi as <-; reflexivity]|])); discriminate Hi.
Defined.

(** Reassembly is complete: when the segments of a flow leave no gap
    (each starts inside or directly after what the earlier ones covered; other
    flows are interleaved freely) and its sequence numbers do not wrap, the
    stored bytes are everything the sender sent in the covered range, up to
    the 256 KiB bound. *)
Theorem reassembly_complete σ flows key s0 e
  (Hf : Forall (λ f, SummaryFacts.seg_ok f ∧ carries (σ (flowKey f)) (segSeq f) (Payload f)) flows)
  (H0 : 0 <= s0) (Hg : gap_free key s0 s0 flows e) (He : e < 2 ^ 32) (Hne : s0 < e) :
  ∃ s st, addAll ∅ flows = Ok s ∧ s !! key = Some st ∧
    data st = map (σ key) (seqZ s0 (Z.min maxTCPReassemblyBytes (e - s0))).
Proof.
  destruct (addAll_match σ ∅ flows) as (s & Hs & Hm); [apply map_Forall_empty|done|].
  pose proof (addAll_covers key s0 s0 flows e ∅ ltac:(lia) Hg He (map_Forall_empty _) eq_refl) as Hw.
  rewrite Hs in Hw. simpl in Hw. exists s. destruct (s !! key) as [st|] eqn:Ek; [|lia].
  exists st. split_and!; [done..|]. destruct Hw as [Hst Hl]. destruct (Hm _ _ Ek) as [_ Hc].
  rewrite <-Hl. apply carries_exact; [lia|unfold maxTCPReassemblyBytes in *; lia|]. by rewrite <-Hst.
Qed.

Lemma reassembly_complete_witness :
  ∃ s st, addAll ∅ [demo_flow 100 2 "GET / "; demo_flow 103 16 "T / HTTP/1.1"] = Ok s ∧
    s !! flowKey (demo_flow 0 0 "") = Some st ∧
    data st = map demo_stream (seqZ 101 (Z.min maxTCPReassemblyBytes (115 - 101))).
Proof.
  apply (reassembly_complete (λ _, demo_stream) _ (flowKey (demo_flow 0 0 "")) 101 115).
  - repeat apply List.Forall_cons; [..|apply List.Forall_nil];
      (split; [vm_compute; intuition congruence|]); intros i b Hi;
      (do 13 (destruct i as [|i]; [first [discriminate Hi|injection Hi as <-; reflexivity]|])); discriminate Hi.
  - lia.
  - apply gf_seg; [reflexivity|vm_compute; intuition congruence..|].
    apply gf_seg; [reflexivity|vm_compute; intuition congruence..|]. apply gf_nil.
  - lia.
  - lia.
Defined.

(** Reassembly stops at a wrap of the sequence numbers: once a stream's
    stored bytes reach past sequence number [2^32], the next segment in order
    is not appended (the unsigned comparisons take it for an older one) unless
    it is so long that it would wrap around to the start of the stream. *)
Theorem reassembly_stalls_at_wrap st payload
  (Hwf : stream_wf st) (Hwrap : 2 ^ 32 <= startSeq st + len (data st))
  (Hlen : nextSeq st + len payload < startSeq st) :
  addSegment st (nextSeq st) payload = Ok (st, false).
Proof.
  destruct Hwf. unfold addSegment, prependTCPPayload. len_facts. pose proof (u32_range (startSeq st + len (data st))).
  rewrite (proj2 (Z.ltb_lt _ _)) by lia. rewrite (wrap_small 32 (len payload)), (wrap_small 32 (_ + _)) by lia.
  by rewrite (proj2 (Z.ltb_lt _ _)) by lia.
Qed.

Lemma reassembly_stalls_at_wrap_witness :
  addSegment (with_data (newStream 0) [x01; x02] (2 ^ 32 - 1) 1) 1 [x03] =
  Ok (with_data (newStream 0) [x01; x02] (2 ^ 32 - 1) 1, false).
Proof.
  apply (reassembly_stalls_at_wrap (with_data (newStream 0) [x01; x02] (2 ^ 32 - 1) 1) [x03]).
  - constructor; vm_compute; intuition congruence.
  - vm_compute. congruence.
  - reflexivity.
Defined.

Section SummaryProperties.
Context `{Unicode}.

(** Summarizing any bytes as a capture terminates without a panic.  A
    summary it returns counts every packet once, as decoded or failed; reports
    at most the event limit (100 if none is given) and drops events only once
    the limit is reached; and carries no sensitive HTTP header value. *)
Theorem summary_safe r eventLimit :
  SummarizePCAP r eventLimit ≠ Panic ∧
  (∀ s, SummarizePCAP r eventLimit = Ok s →
    summary_ok (if eventLimit <=? 0 then DefaultSummaryEventLimit else eventLimit) s).
Proof.
  pose proof (wp_SummarizePCAP r eventLimit) as Hw.
  split; [by eapply wp_no_panic|]. intros s Hs. exact (wp_elim _ _ _ Hw Hs).
Qed.

(** C27: no bytes from the network make a parser panic or run forever: frames of
    any link type are decoded to well-formed packets whose payload is a window of
    the captured bytes, DNS messages have as many questions as announced whatever
    their compression pointers, TLS records may announce any lengths, and the
    summary of a capture counts every packet once, stays within its event limit
    and carries no sensitive header value. *)
Theorem net_parsers_safe :
  (∀ linkType data, DecodeFlowPacket linkType data ≠ Panic ∧ ∀ fp, DecodeFlowPacket linkType data = Ok fp → PacketFacts.flow_ok data fp) ∧
  (∀ packet, DNS.ParseDNSMessage packet ≠ Panic ∧ ∀ m, DNS.ParseDNSMessage packet = Ok m → be_u16 (sub packet 4 6) = Ok (len (DNS.Questions m))) ∧
  (∀ record, TLS.ParseTLSClientHello record ≠ Panic) ∧
  ∀ r eventLimit, SummarizePCAP r eventLimit ≠ Panic ∧
    ∀ s, SummarizePCAP r eventLimit = Ok s → summary_ok (if eventLimit <=? 0 then DefaultSummaryEventLimit else eventLimit) s.
Proof. split_and!; [apply decode_flow_safe|apply dns_message_safe|apply tls_client_hello_safe|apply summary_safe]. Qed.

(** A capture file that contains a sequence of packets, in either byte
    order and resolution, is summarized by handling exactly those packets, in
    order, with the link type of the file. *)
Theorem summary_of_capture o nanos minor zone snap link pks eventLimit
  (Hz : len zone = 8) (Hmin : 0 <= minor < 2 ^ 16) (Hs : 0 <= snap < 2 ^ 32) (Hl : 0 <= link < 2 ^ 32)
  (Hp : Forall (PcapWire.packet_ok snap) pks) :
  SummarizePCAP (Reader (PcapWire.file_header o nanos 2 minor zone snap link ++ PcapWire.capture o pks) io_EOF) eventLimit =
  (st ← summarizeAll (if eventLimit <=? 0 then DefaultSummaryEventLimit else eventLimit) link (newSummary link, ∅) pks;
   Ok st.1).
Proof.
  unfold SummarizePCAP. rewrite PcapWire.NewPCAPReader_header by (done || lia).
  cbn [Z.eqb Pos.eqb]. rewrite bind_ok. cbn [Pcap.LinkType PcapWire.open r_bytes].
  apply summarizeLoop_capture; [done|lia|]. rewrite length_app. pose proof (capture_length o pks). lia.
Qed.

(** The capture command: the builder accepts exactly the options whose
    interface is a non-empty token, whose output is named, whose duration is
    at most a minute, whose snap length is the default or between 96 and
    262144, whose protocol is empty, tcp or udp, whose host consists of host
    characters and whose port is at most 65535; the argument vector is then
    the fixed flags followed by the filter, its primitives joined by [and]. *)
Theorem tcpdump_args_exact o args :
  BuildTCPDumpArgs o = Ok args ↔ valid o ∧ args = argv o.
Proof. apply BuildTCPDumpArgs_ok. Qed.
End SummaryProperties.

Lemma summary_of_capture_witness :
  @SummarizePCAP ascii_only (Reader (PcapWire.file_header Pcap.LittleEndian false 2 4 (replicate 8 x00) 65535 1
    ++ PcapWire.capture Pcap.LittleEndian [witness_packet]) io_EOF) 0 =
  Ok (count (newSummary 1) 1 0 1).
Proof.
  apply (@summary_of_capture ascii_only Pcap.LittleEndian false 4 (replicate 8 x00) 65535 1 [witness_packet] 0);
    try lia; [reflexivity|]. repeat constructor; vm_compute; intuition congruence.
Defined.

(** The addresses of summaries are printed as RFC 5952 asks. *)
Example netip_string_examples :
  map Netip.String_ [AddrFrom4 [x0a; x00; xff; x01]; AddrFrom16 (replicate 15 x00 ++ [x01]);
    AddrFrom16 ([xfe; x80] ++ replicate 13 x00 ++ [x01]); AddrFrom16 (replicate 16 x00);
    AddrFrom16 ([x20; x01; x0d; xb8] ++ replicate 4 x00 ++ [x00; x01] ++ replicate 6 x00);
    AddrFrom16 (replicate 10 x00 ++ [xff; xff; x01; x02; x03; x04])] =
  ["10.0.255.1"; "::1"; "fe80::1"; "::"; "2001:db8:0:0:1::"; "::ffff:1.2.3.4"].
Proof. reflexivity. Qed.
