(* ===== verification/GoMaps.v ===== *)
(** * Maps filled from lists

    The loops [for _, x := range l { m[key(x)] = val(x) }], which keep the last
    element of every key, the loops over the entries of such a map that collect
    some of them, and lists sorted by a string key. *)

From S2P Require Import Prelude GoStrings GoRuntime.

Section Keys.
Context {A K : Type} `{Countable K} (key : A → K).

(** The last element with a key. *)
Definition last_with (k : K) (l : list A) : option A := last (filter (λ x, key x = k) l).

Lemma last_with_snoc k l x : last_with k (l ++ [x]) = if decide (key x = k) then Some x else last_with k l.
Proof. unfold last_with. rewrite filter_app, filter_cons, filter_nil. case_decide; [by rewrite last_snoc|by rewrite app_nil_r]. Qed.
Lemma last_with_some k l x : last_with k l = Some x → x ∈ l ∧ key x = k.
Proof. unfold last_with. intros Hx%last_Some_elem_of. by apply list_elem_of_filter in Hx as [? ?]. Qed.
Lemma last_with_none k l : last_with k l = None ↔ k ∉ key <$> l.
Proof.
  induction l as [|x l IH] using rev_ind; [split; [intros _; apply not_elem_of_nil|done]|].
  rewrite last_with_snoc, fmap_app, not_elem_of_app. cbn. rewrite list_elem_of_singleton. case_decide; naive_solver.
Qed.
Lemma last_with_unique k l x : NoDup (key <$> l) → x ∈ l → key x = k → last_with k l = Some x.
Proof.
  intros Hn Hx Hk. destruct (last_with k l) as [y|] eqn:E.
  - apply last_with_some in E as [Hy Hk']. f_equal. apply (NoDup_fmap_inj_in key l); congruence.
  - apply last_with_none in E. destruct E. rewrite <-Hk. by apply list_elem_of_fmap_2.
Qed.

Lemma fill_lookup {V} (val : A → V) (l : list A) (m : gmap K V) k :
  fold_left (λ m x, <[key x := val x]> m) l m !! k = match last_with k l with Some x => Some (val x) | None => m !! k end.
Proof.
  induction l as [|x l IH] using rev_ind; [done|]. rewrite fold_left_app, last_with_snoc. cbn [fold_left]. case_decide as Hd.
  - by rewrite <-Hd, lookup_insert_eq.
  - by rewrite lookup_insert_ne.
Qed.
Lemma fill_lookup_empty {V} (val : A → V) (l : list A) k : fold_left (λ m x, <[key x := val x]> m) l (∅ : gmap K V) !! k = val <$> last_with k l.
Proof. rewrite fill_lookup, lookup_empty. by destruct (last_with k l). Qed.
End Keys.

(** A loop that appends at most one result per element. *)
Lemma fold_left_omap {A B} (f : A → option B) (l : list A) (acc : list B) :
  fold_left (λ acc x, match f x with Some y => acc ++ [y] | None => acc end) l acc = acc ++ omap f l.
Proof.
  revert acc. induction l as [|x l IH]; intros acc; cbn [fold_left omap list_omap]; [by rewrite app_nil_r|]. rewrite IH.
  destruct (f x); [by rewrite <-app_assoc|done].
Qed.

(** A loop that appends the results of each element. *)
Lemma fold_left_append {A B} (step : list B → A → list B) (f : A → list B) (l : list A) (acc : list B) :
  (∀ acc x, step acc x = acc ++ f x) → fold_left step l acc = acc ++ concat (f <$> l).
Proof.
  intros Hs. revert acc. induction l as [|x l IH]; intros acc; cbn [fold_left]; [by rewrite app_nil_r|]. rewrite IH, Hs. cbn. by rewrite app_assoc.
Qed.
Lemma fold_left_concat {A B} (f : A → list B) (l : list A) : fold_left (λ acc x, acc ++ f x) l [] = concat (f <$> l).
Proof. by rewrite (fold_left_append _ f). Qed.
Lemma concat_nil_iff {A B} (f : A → list B) (l : list A) : concat (f <$> l) = [] ↔ ∀ x, x ∈ l → f x = [].
Proof.
  induction l as [|x l IH]; [split; [intros _ x Hx; by apply not_elem_of_nil in Hx|done]|]. cbn. rewrite app_nil, IH. setoid_rewrite elem_of_cons. naive_solver.
Qed.

Lemma concat_perm {A B} (f : A → list B) (l k : list A) : l ≡ₚ k → concat (f <$> l) ≡ₚ concat (f <$> k).
Proof.
  induction 1 as [|x l k _ IH|x y l|l k m _ IH1 _ IH2]; cbn [fmap list_fmap concat]; [done|by rewrite IH| |by etrans].
  rewrite !app_assoc. apply Permutation_app_tail, Permutation_app_comm.
Qed.
Lemma elem_of_keys {R : GoRuntime} {HR : RuntimeOk R} {K V} `{Countable K} (m : gmap K V) k : k ∈ map_keys m ↔ is_Some (m !! k).
Proof.
  unfold map_keys. rewrite list_elem_of_fmap. split.
  - intros ([k' v] & -> & Hin%elem_of_entries). by eexists.
  - intros [v Hv]. exists (k, v). split; [done|]. by apply elem_of_entries.
Qed.

(** ** Results keyed by distinct strings *)

(** A list in strictly increasing order of its keys. *)
Definition ascending {A} (key : A → string) (l : list A) : Prop := StronglySorted (λ x y, String.ltb (key x) (key y) = true) l.

Lemma ascending_sort {R : GoRuntime} {HR : RuntimeOk R} {A} (key : A → string) (l : list A) :
  NoDup (key <$> l) → ascending key (sort_slice (λ x y, String.ltb (key x) (key y)) l).
Proof.
  intros Hn. unfold ascending. pose proof (sort_strongly_sorted _ l (strict_weak_key key _ strict_weak_string)) as Hs.
  assert (NoDup (key <$> sort_slice (λ x y, String.ltb (key x) (key y)) l)) as Hn' by by rewrite sort_perm.
  induction Hs as [|x k Hs IH Hx]; constructor; inversion_clear Hn' as [|? ? Hni Hnk]; [by apply IH|].
  rewrite Forall_forall in Hx |- *. intros y Hy. specialize (Hx y Hy). cbn in Hx. destruct (String.ltb (key x) (key y)) eqn:E; [done|].
  destruct Hni. rewrite (ltb_antisym _ _ E Hx). by apply list_elem_of_fmap_2.
Qed.
Lemma omap_entries_NoDup {R : GoRuntime} {HR : RuntimeOk R} {K V B} `{Countable K} (m : gmap K V) (f : K * V → option B) (key : B → K) :
  (∀ e y, f e = Some y → m !! e.1 = Some e.2 → key y = e.1) → NoDup (key <$> omap f (map_entries m)).
Proof.
  intros Hf. apply (NoDup_omap_key f fst key); [apply entries_NoDup|]. intros [k v] y Hin%elem_of_entries Hy. by apply (Hf _ _ Hy).
Qed.
Lemma elem_of_omap_entries {R : GoRuntime} {HR : RuntimeOk R} {K V B} `{Countable K} (m : gmap K V) (f : K * V → option B) y :
  y ∈ omap f (map_entries m) ↔ ∃ k v, m !! k = Some v ∧ f (k, v) = Some y.
Proof.
  rewrite list_elem_of_omap. split.
  - intros ([k v] & Hin%elem_of_entries & Hy). by exists k, v.
  - intros (k & v & Hm & Hy). exists (k, v). split; [by apply elem_of_entries|done].
Qed.
