(* ===== verification/RulesEngine.v ===== *)
(** * Recommendation rules

    [src/internal/rules]: the engine that evaluates a catalog against a snapshot
    ([engine.go], [types.go]) and the overrides of a project ([overrides.go]):
    their parser, their effect on a catalog and the warnings about them.  A rule
    is a function on snapshots, whatever they hold. *)

From Stdlib Require Import Ascii.
From S2P Require Import Prelude Arrays GoIO GoStrings GoPath GoText GoScan GoRuntime GoSort GoMaps.

Module Rules.

(** ** Engine *)

Definition Severity := string.
Definition SeverityHigh : Severity := "high".
Definition SeverityMedium : Severity := "medium".
Definition SeverityLow : Severity := "low".
Definition SeverityInfo : Severity := "info".

Record Finding := { RuleID : string; f_Severity : Severity; f_Message : string; f_Fix : string; Subject : string }.
Record Rule (S : Type) := { ID : string; r_Severity : Severity; MatchFn : S → list Finding; Source : string; r_Message : string; r_Fix : string }.
Arguments ID {S} r.
Arguments r_Severity {S} r.
Arguments MatchFn {S} r.
Arguments Source {S} r.
Arguments r_Message {S} r.
Arguments r_Fix {S} r.

(** A severity that is not in the map has the sort key zero. *)
Definition severityOrder (s : Severity) : Z :=
  if bool_decide (s = SeverityHigh) then 0 else if bool_decide (s = SeverityMedium) then 1 else
  if bool_decide (s = SeverityLow) then 2 else if bool_decide (s = SeverityInfo) then 3 else 0.
Definition findingLess (a b : Finding) : bool :=
  let si := severityOrder (f_Severity a) in
  let sj := severityOrder (f_Severity b) in
  if negb (si =? sj) then si <? sj else
  if negb (bool_decide (RuleID a = RuleID b)) then String.ltb (RuleID a) (RuleID b) else
  String.ltb (Subject a) (Subject b).
Definition Evaluate {S} (snap : S) (catalog : list (Rule S)) : list Finding :=
  let all := fold_left (λ all r, all ++ MatchFn r snap) catalog [] in
  SliceStable findingLess all.

(** ** Overrides *)

Record Overrides := { Disabled : gmap string unit; o_Severity : gmap string Severity }.
Definition Empty (o : Overrides) : bool := (size (Disabled o) =? 0)%nat && (size (o_Severity o) =? 0)%nat.

Definition stripYAMLComment (line : string) : string :=
  let idx := Index line "#" in if 0 <=? idx then str_take idx line else line.
(** [strings.TrimLeft(s, " ")] *)
Fixpoint trim_left_blank (s : string) : string := match s with String " " s' => trim_left_blank s' | _ => s end.
Definition leadingSpaces (line : string) : Z := strlen line - strlen (trim_left_blank line).
Definition parseTopLevelYAMLKey (line : string) : string := if HasSuffix line ":" then TrimSuffix line ":" else "".
Definition parseRulesMode (line : string) : string :=
  if bool_decide (line = "disabled:") then "disabled" else if bool_decide (line = "severity:") then "severity" else "".
(** [strings.CutPrefix] *)
Definition CutPrefix (s prefix : string) : string * bool := if HasPrefix s prefix then (str_drop (strlen prefix) s, true) else (s, false).

Section Parse.
Context {UN : Unicode} {PR : Printable}.

Definition parseSeverity (raw : string) : outcome Severity :=
  if bool_decide (raw ∈ [SeverityHigh; SeverityMedium; SeverityLow; SeverityInfo]) then Ok raw
  else Err (Errorf ("invalid severity " +:+ Quote raw)).
Definition line_error (lineNo : Z) (msg : string) : goerror := Errorf ("line " +:+ itoa lineNo +:+ ": " +:+ msg).
Definition parseRulesOverrideValue (trimmed : string) (lineNo : Z) (mode : string) (out : Overrides) : outcome Overrides :=
  if bool_decide (mode = "disabled") then
    let '(id, ok) := CutPrefix trimmed "- " in
    if negb ok || bool_decide (TrimSpace id = "") then Err (line_error lineNo "disabled rule must be '- <rule-id>'") else
    Ok {| Disabled := <[TrimSpace id := tt]> (Disabled out); o_Severity := o_Severity out |}
  else if bool_decide (mode = "severity") then
    match Cut trimmed ":" with
    | None => Err (line_error lineNo "severity override must be '<rule-id>: <severity>'")
    | Some (id, rawSeverity) =>
      if bool_decide (TrimSpace id = "") || bool_decide (TrimSpace rawSeverity = "") then
        Err (line_error lineNo "severity override must be '<rule-id>: <severity>'") else
      match parseSeverity (TrimSpace rawSeverity) with
      | Err err => Err (Wrapf ("line " +:+ itoa lineNo +:+ ": %w") err)
      | Panic => Panic
      | Ok severity => Ok {| Disabled := Disabled out; o_Severity := <[TrimSpace id := severity]> (o_Severity out) |}
      end
    end
  else Err (line_error lineNo "unsupported rules override syntax").

(** The section and mode after a line, if it changes them, and the overrides. *)
Definition parseOverrideLine (raw : string) (lineNo : Z) (sec mode : string) (out : Overrides) : outcome (option (string * string) * Overrides) :=
  let line := stripYAMLComment raw in
  if bool_decide (TrimSpace line = "") then Ok (None, out) else
  let indent := leadingSpaces line in
  let trimmed := TrimSpace line in
  if indent =? 0 then Ok (Some (parseTopLevelYAMLKey trimmed, ""), out) else
  if negb (bool_decide (sec = "rules")) then Ok (None, out) else
  if indent =? 2 then
    let nextMode := parseRulesMode trimmed in
    if bool_decide (nextMode = "") then Err (line_error lineNo ("unsupported rules key " +:+ Quote trimmed)) else
    Ok (Some (sec, nextMode), out)
  else
  out ← parseRulesOverrideValue trimmed lineNo mode out;
  Ok (Some (sec, mode), out).

Definition lineStep (st : Z * string * string * Overrides) (raw : string) : outcome (Z * string * string * Overrides) :=
  let '(lineNo, sec, mode, out) := st in
  '(next, out) ← parseOverrideLine raw lineNo sec mode out;
  let '(sec, mode) := default (sec, mode) next in
  Ok (lineNo + 1, sec, mode, out).
Definition ParseOverrides (data : list byte) : outcome Overrides :=
  let '(lines, err) := scan_lines (Reader data io_EOF) in
  '(_, _, _, out) ← for_each lines lineStep (1, "", "", {| Disabled := ∅; o_Severity := ∅ |});
  match err with Some err => Err err | None => Ok out end.
End Parse.

Definition with_severity (sev : Severity) (f : Finding) : Finding :=
  {| RuleID := RuleID f; f_Severity := sev; f_Message := f_Message f; f_Fix := f_Fix f; Subject := Subject f |}.
Definition overrideStep {S} (o : Overrides) (out : list (Rule S)) (rule : Rule S) : list (Rule S) :=
  if bool_decide (is_Some (Disabled o !! ID rule)) then out else
  match o_Severity o !! ID rule with
  | Some sev => out ++ [{| ID := ID rule; r_Severity := sev; MatchFn := λ snap, with_severity sev <$> MatchFn rule snap;
                           Source := Source rule; r_Message := r_Message rule; r_Fix := r_Fix rule |}]
  | None => out ++ [rule]
  end.
Definition ApplyOverrides {S} (catalog : list (Rule S)) (o : Overrides) : list (Rule S) :=
  if Empty o then catalog else fold_left (overrideStep o) catalog [].

Definition OverrideWarnings `{GoRuntime} `{Printable} {S} (o : Overrides) (catalog : list (Rule S)) : list string :=
  if Empty o then [] else
  let known := fold_left (λ known r, <[ID r := tt]> known) catalog ∅ in
  let ids := fold_left (λ ids id, <[id := tt]> ids) (map_keys (Disabled o)) ∅ in
  let ids := fold_left (λ ids id, <[id := tt]> ids) (map_keys (o_Severity o)) ids in
  Strings (fold_left (λ ws id, if bool_decide (is_Some ((known : gmap string unit) !! id)) then ws else ws ++ ["rules override references unknown rule " +:+ Quote id])
    (map_keys (ids : gmap string unit)) []).
End Rules.

Module RulesFacts.
Export Rules.

(** ** The order of findings *)

Lemma findingLess_lex a b : findingLess a b =
  (severityOrder (f_Severity a) <? severityOrder (f_Severity b)) || (negb (severityOrder (f_Severity b) <? severityOrder (f_Severity a)) &&
    (String.ltb (RuleID a) (RuleID b) || (negb (String.ltb (RuleID b) (RuleID a)) && String.ltb (Subject a) (Subject b)))).
Proof.
  unfold findingLess. destruct (Z.eqb_spec (severityOrder (f_Severity a)) (severityOrder (f_Severity b))) as [->|Hn]; cbn [negb].
  - rewrite Z.ltb_irrefl. cbn [orb negb andb]. case_bool_decide as E; cbn [negb]; [by rewrite E, string_ltb_irrefl|].
    destruct (String.ltb (RuleID a) (RuleID b)) eqn:E1; [done|]. destruct (String.ltb (RuleID b) (RuleID a)) eqn:E2; [done|]. by rewrite (ltb_antisym _ _ E1 E2) in E.
  - destruct (Z.ltb_spec (severityOrder (f_Severity a)) (severityOrder (f_Severity b))); [done|]. by rewrite (proj2 (Z.ltb_lt _ _)) by lia.
Qed.
Lemma findingLess_strict : strict_weak findingLess.
Proof.
  apply (strict_weak_ext (λ a b, (severityOrder (f_Severity a) <? severityOrder (f_Severity b)) || (negb (severityOrder (f_Severity b) <? severityOrder (f_Severity a)) &&
    (String.ltb (RuleID a) (RuleID b) || (negb (String.ltb (RuleID b) (RuleID a)) && String.ltb (Subject a) (Subject b)))))); [intros a b; by rewrite findingLess_lex|].
  apply (strict_weak_lex (λ a b, severityOrder (f_Severity a) <? severityOrder (f_Severity b)) (λ a b, String.ltb (RuleID a) (RuleID b) || (negb (String.ltb (RuleID b) (RuleID a)) && String.ltb (Subject a) (Subject b)))).
  - apply (strict_weak_key (λ f, severityOrder (f_Severity f)) Z.ltb), strict_weak_Z.
  - apply (strict_weak_lex (λ a b, String.ltb (RuleID a) (RuleID b)) (λ a b, String.ltb (Subject a) (Subject b))); apply strict_weak_key, strict_weak_string.
Qed.

Section Evaluation.
Context {S : Type}.
Implicit Types catalog : list (Rule S).

Lemma all_findings (snap : S) catalog : fold_left (λ all r, all ++ MatchFn r snap) catalog [] = concat ((λ r, MatchFn r snap) <$> catalog).
Proof. apply (fold_left_concat (λ r, MatchFn r snap)). Qed.

(** What an override makes of a rule, and of its findings. *)
Definition effective (o : Overrides) (r : Rule S) (snap : S) : list Finding :=
  if bool_decide (is_Some (Disabled o !! ID r)) then [] else
  match o_Severity o !! ID r with Some sev => with_severity sev <$> MatchFn r snap | None => MatchFn r snap end.
Lemma ApplyOverrides_fold catalog o : ApplyOverrides catalog o = fold_left (overrideStep o) catalog [].
Proof.
  unfold ApplyOverrides, Empty. destruct (_ && _) eqn:E; [|done]. apply andb_true_iff in E as [Hd%Nat.eqb_eq Hs%Nat.eqb_eq].
  apply map_size_empty_inv in Hd. apply map_size_empty_inv in Hs. assert (∀ out, out ++ catalog = fold_left (overrideStep o) catalog out) as H; [|by apply (H [])].
  induction catalog as [|r catalog IH]; intros out; cbn [fold_left]; [by rewrite app_nil_r|]. rewrite <-IH. unfold overrideStep.
  rewrite Hd, Hs, !lookup_empty, bool_decide_false by by intros []. by rewrite <-app_assoc.
Qed.
Lemma overridden_findings (snap : S) catalog o :
  concat ((λ r, MatchFn r snap) <$> ApplyOverrides catalog o) = concat ((λ r, effective o r snap) <$> catalog).
Proof.
  rewrite ApplyOverrides_fold. induction catalog as [|r catalog IH] using rev_ind; [done|]. rewrite fold_left_app, fmap_app, concat_app, <-IH. cbn [fold_left fmap list_fmap concat].
  rewrite app_nil_r. unfold overrideStep at 1, effective. case_bool_decide; [by rewrite app_nil_r|]. destruct (o_Severity o !! ID r); by rewrite fmap_app, concat_app; cbn; rewrite app_nil_r.
Qed.
End Evaluation.

(** ** Overrides in their text format *)

Section Text.
Context {UN : Unicode} {PR : Printable}.

(** A line: indentation, a key or an entry, and a comment. *)
Definition comment (c : string) : Prop := c = "" ∨ ∃ t, c = String "#" t.
Lemma stripped body c : free_of "#" body → comment c → stripYAMLComment (body +:+ c) = body.
Proof.
  intros Hb [->|[t ->]]; unfold stripYAMLComment.
  - destruct (Index_free "#" body "" Hb) as [_ H2]. by rewrite str_app_nil_r, H2.
  - destruct (Index_free "#" body t Hb) as [H1 _]. rewrite H1, (proj2 (Z.leb_le _ _)) by (unfold strlen; lia). apply str_take_app_exact.
Qed.
Lemma spaces_free n : free_of "#" (spaces n).
Proof. unfold free_of. by induction n. Qed.
Lemma leading n s m : tight s → leadingSpaces (spaces n +:+ s +:+ spaces m) = Z.of_nat n.
Proof.
  intros (c & a & _ & _ & Hc & _ & -> & _). unfold leadingSpaces. assert (trim_left_blank (spaces n +:+ String c a +:+ spaces m) = String c a +:+ spaces m) as ->.
  { induction n as [|n IH]; [|exact IH]. cbn [spaces]. rewrite str_app_nil, str_app_cons. destruct c as [[] [] [] [] [] [] [] []]; done. }
  rewrite !strlen_app. assert (strlen (spaces n) = Z.of_nat n) as ->; [|lia]. clear. unfold strlen. induction n as [|n IH]; [done|]. cbn [spaces String.length]. lia.
Qed.
Lemma tight_not_empty s : tight s → s ≠ "".
Proof. by intros (c & a & _ & _ & _ & _ & -> & _). Qed.

Definition line_of (n : nat) (s : string) (m : nat) (c : string) : string := (spaces n +:+ s +:+ spaces m) +:+ c.
Lemma parse_override_line n s m c lineNo sec mode out : tight s → free_of "#" s → comment c →
  parseOverrideLine (line_of n s m c) lineNo sec mode out =
  (if (n =? 0)%nat then Ok (Some (parseTopLevelYAMLKey s, ""), out) else
   if negb (bool_decide (sec = "rules")) then Ok (None, out) else
   if (n =? 2)%nat then
     if bool_decide (parseRulesMode s = "") then Err (line_error lineNo ("unsupported rules key " +:+ Quote s)) else Ok (Some (sec, parseRulesMode s), out)
   else out ← parseRulesOverrideValue s lineNo mode out; Ok (Some (sec, mode), out)).
Proof.
  intros Ht Hf Hc. unfold parseOverrideLine, line_of. rewrite stripped; [|by repeat apply free_of_app; [apply spaces_free|..|apply spaces_free]|done].
  rewrite trim_tight, leading by done. rewrite bool_decide_false by by apply tight_not_empty. change 0 with (Z.of_nat 0). change 2 with (Z.of_nat 2).
  destruct (Z.eqb_spec (Z.of_nat n) (Z.of_nat 0)), (Nat.eqb_spec n 0); try lia; [done|]. destruct (negb _); [done|].
  destruct (Z.eqb_spec (Z.of_nat n) (Z.of_nat 2)), (Nat.eqb_spec n 2); try lia; done.
Qed.

(** Entries of the two lists, each with the space and the comment after it. *)
Definition entry (T : Type) : Type := T * (nat * string).
Definition entry_line {T} (text : T → string) (e : entry T) : string := line_of 4 (text e.1) e.2.1 e.2.2.
Definition disabled_text (id : string) : string := "- " +:+ id.
Definition severity_text (e : string * Severity) : string := e.1 +:+ ": " +:+ e.2.
Definition id_ok (id : string) : Prop := tight id ∧ free_of "#" id.

Lemma disabled_value id lineNo out : id_ok id →
  parseRulesOverrideValue (disabled_text id) lineNo "disabled" out = Ok {| Disabled := <[id := tt]> (Disabled out); o_Severity := o_Severity out |}.
Proof.
  intros [Ht _]. unfold parseRulesOverrideValue. rewrite bool_decide_true by done. unfold disabled_text, CutPrefix. assert (HasPrefix ("- " +:+ id) "- " = true) as -> by (by destruct id).
  change (strlen "- ") with (strlen "- "). rewrite str_drop_app, trim_tight_0 by done. rewrite bool_decide_false by by apply tight_not_empty. done.
Qed.
Lemma severity_value id sev lineNo out : id_ok id → free_of ":" id → sev ∈ [SeverityHigh; SeverityMedium; SeverityLow; SeverityInfo] →
  parseRulesOverrideValue (severity_text (id, sev)) lineNo "severity" out = Ok {| Disabled := Disabled out; o_Severity := <[id := sev]> (o_Severity out) |}.
Proof.
  intros [Ht _] Hc Hs. unfold parseRulesOverrideValue, severity_text. cbn [fst snd]. rewrite bool_decide_false, bool_decide_true by done.
  change (id +:+ ": " +:+ sev) with (id +:+ String ":" (" " +:+ sev)). destruct (Cut_free ":" id (" " +:+ sev) Hc) as [-> _]. rewrite trim_tight_0 by done.
  assert (TrimSpace (" " +:+ sev) = sev ∧ sev ≠ "") as [-> Hne]; [|].
  { repeat apply elem_of_cons in Hs as [->|Hs]; [split; [by vm_compute|done]..|by apply not_elem_of_nil in Hs]. }
  rewrite !bool_decide_false by (done || by apply tight_not_empty). cbn [orb]. unfold parseSeverity. by rewrite bool_decide_true.
Qed.
Definition entry_ok {T} (text : T → string) (e : entry T) : Prop := tight (text e.1) ∧ free_of "#" (text e.1) ∧ comment e.2.2.
Lemma entry_parsed {T} (text : T → string) mode value (e : entry T) lineNo out : entry_ok text e → parseRulesOverrideValue (text e.1) lineNo mode out = Ok value →
  lineStep (lineNo, "rules", mode, out) (entry_line text e) = Ok (lineNo + 1, "rules", mode, value).
Proof. intros (Ht & Hf & Hc) Hv. unfold lineStep, entry_line. rewrite parse_override_line by done. cbn [Nat.eqb]. rewrite bool_decide_true by done. cbn [negb]. by rewrite Hv. Qed.
Lemma key_parsed n s m c lineNo sec mode out sec' mode' : tight s → free_of "#" s → comment c →
  (n = 0%nat ∧ sec' = parseTopLevelYAMLKey s ∧ mode' = "" ∨ n = 2%nat ∧ sec = "rules" ∧ sec' = sec ∧ mode' = parseRulesMode s ∧ mode' ≠ "") →
  lineStep (lineNo, sec, mode, out) (line_of n s m c) = Ok (lineNo + 1, sec', mode', out).
Proof.
  intros Ht Hf Hc Hn. unfold lineStep. rewrite parse_override_line by done. destruct Hn as [(-> & -> & ->)|(-> & -> & -> & -> & Hm)]; [done|]. cbn [Nat.eqb].
  rewrite bool_decide_true by done. cbn [negb]. by rewrite bool_decide_false.
Qed.
Lemma entries_parsed {T} (text : T → string) mode (value : T → Overrides → Overrides) (es : list (entry T)) lineNo out :
  Forall (entry_ok text) es → (∀ e k out, e ∈ es → parseRulesOverrideValue (text e.1) k mode out = Ok (value e.1 out)) →
  for_each (entry_line text <$> es) lineStep (lineNo, "rules", mode, out) = Ok (lineNo + len es, "rules", mode, fold_left (λ out e, value e.1 out) es out).
Proof.
  intros Hes. revert lineNo out. induction Hes as [|e es He Hes IH]; intros lineNo out Hv; [cbn; by rewrite Z.add_0_r|].
  rewrite fmap_cons. cbn [for_each fold_left]. rewrite (entry_parsed text mode (value e.1 out)) by (done || apply Hv; set_solver).
  cbn [mbind outcome_bind]. rewrite IH by (intros; apply Hv; set_solver).
  rewrite len_cons. do 4 f_equal. lia.
Qed.

(** The document with the two lists, as [spectra.yml] is written. *)
Record document := { d_top : nat * string; d_disabled : nat * string; d_ids : list (entry string); d_severity : nat * string; d_sevs : list (entry (string * Severity)) }.
Definition document_lines (d : document) : list string :=
  line_of 0 "rules:" (d_top d).1 (d_top d).2 :: line_of 2 "disabled:" (d_disabled d).1 (d_disabled d).2 :: (entry_line disabled_text <$> d_ids d) ++
  line_of 2 "severity:" (d_severity d).1 (d_severity d).2 :: (entry_line severity_text <$> d_sevs d).
Definition document_text (d : document) : string := text_of (document_lines d).
Record document_ok (d : document) : Prop := {
  dk_comments : Forall (λ e : nat * string, comment e.2) [d_top d; d_disabled d; d_severity d];
  dk_ids : Forall (λ e, id_ok e.1 ∧ comment e.2.2) (d_ids d);
  dk_sevs : Forall (λ e, id_ok e.1.1 ∧ free_of ":" e.1.1 ∧ e.1.2 ∈ [SeverityHigh; SeverityMedium; SeverityLow; SeverityInfo] ∧ comment e.2.2) (d_sevs d);
  dk_lines : Forall plain_line (document_lines d) }.
Definition overrides_of (d : document) : Overrides :=
  {| Disabled := fold_left (λ m e, <[e.1 := tt]> m) (d_ids d) ∅; o_Severity := fold_left (λ m e, <[e.1.1 := e.1.2]> m) (d_sevs d) ∅ |}.

Lemma disabled_entry_ok e : id_ok e.1 → comment e.2.2 → entry_ok disabled_text e.
Proof.
  intros [(c & a & b & x & Hc & Hx & Hs & Hr) Hf] Hcm. unfold entry_ok, disabled_text. split_and!; [|done|done].
  exists "-"%char, (" " +:+ e.1), (b +:+ " -"), x. split_and!; [done|done|done|]. change ("- " +:+ e.1) with ("- " +:+ e.1). by rewrite str_rev_app_acc, str_rev_acc, Hr.
Qed.
Lemma severity_entry_ok (e : entry (string * Severity)) : id_ok e.1.1 → e.1.2 ∈ [SeverityHigh; SeverityMedium; SeverityLow; SeverityInfo] → comment e.2.2 → entry_ok severity_text e.
Proof.
  intros [Ht Hf] Hs Hcm. assert (word e.1.2 ∧ free_of "#" e.1.2) as [Hw Hh].
  { repeat apply elem_of_cons in Hs as [->|Hs]; [by repeat split; vm_compute..|by apply not_elem_of_nil in Hs]. }
  unfold entry_ok, severity_text. split_and!; [apply tight_app; [done|by apply word_tight]|apply free_of_app; [done|by apply free_of_app]|done].
Qed.
Lemma disabled_fold (ids : list (entry string)) out :
  fold_left (λ out e, {| Disabled := <[e.1 := tt]> (Disabled out); o_Severity := o_Severity out |}) ids out = {| Disabled := fold_left (λ m e, <[e.1 := tt]> m) ids (Disabled out); o_Severity := o_Severity out |}.
Proof. revert out. induction ids as [|e ids IH]; intros out; cbn [fold_left]; [by destruct out|]. by rewrite IH. Qed.
Lemma severity_fold (sevs : list (entry (string * Severity))) out :
  fold_left (λ out e, {| Disabled := Disabled out; o_Severity := <[e.1.1 := e.1.2]> (o_Severity out) |}) sevs out =
  {| Disabled := Disabled out; o_Severity := fold_left (λ m e, <[e.1.1 := e.1.2]> m) sevs (o_Severity out) |}.
Proof. revert out. induction sevs as [|e sevs IH]; intros out; cbn [fold_left]; [by destruct out|]. by rewrite IH. Qed.
Lemma ParseOverrides_document d : document_ok d → ParseOverrides (bytes_of_string (document_text d)) = Ok (overrides_of d).
Proof.
  intros [Hc Hi Hs Hl]. unfold ParseOverrides, document_text. rewrite scan_lines_text by done. unfold document_lines. cbn [for_each].
  apply Forall_cons in Hc as [Hc1 Hc]. apply Forall_cons in Hc as [Hc2 Hc]. apply Forall_cons in Hc as [Hc3 _].
  assert (∀ s, s ∈ ["rules:"; "disabled:"; "severity:"] → tight s ∧ free_of "#" s) as Hk.
  { intros s Hin. repeat apply elem_of_cons in Hin as [->|Hin]; [by split; [apply word_tight; split|]..|by apply not_elem_of_nil in Hin]. }
  rewrite (key_parsed 0 _ _ _ _ _ _ _ "rules" ""); [|apply Hk; set_solver|apply Hk; set_solver|done|by left]. cbn [mbind outcome_bind].
  rewrite (key_parsed 2 _ _ _ _ _ _ _ "rules" "disabled"); [|apply Hk; set_solver|apply Hk; set_solver|done|by right]. cbn [mbind outcome_bind].
  rewrite for_each_app, (entries_parsed disabled_text "disabled" (λ id out, {| Disabled := <[id := tt]> (Disabled out); o_Severity := o_Severity out |})).
  2: { eapply Forall_impl; [exact Hi|]. intros e [? ?]. by apply disabled_entry_ok. }
  2: { intros e k out He. rewrite Forall_forall in Hi. apply disabled_value. by apply Hi. }
  cbn [mbind outcome_bind for_each]. rewrite (key_parsed 2 _ _ _ _ _ _ _ "rules" "severity"); [|apply Hk; set_solver|apply Hk; set_solver|done|by right]. cbn [mbind outcome_bind].
  rewrite (entries_parsed severity_text "severity" (λ e out, {| Disabled := Disabled out; o_Severity := <[e.1 := e.2]> (o_Severity out) |})).
  2: { eapply Forall_impl; [exact Hs|]. intros e (? & ? & ? & ?). by apply severity_entry_ok. }
  2: { intros e k out He. rewrite Forall_forall in Hs. destruct (Hs e He) as (? & ? & ? & ?). rewrite (surjective_pairing e.1). by apply severity_value. }
  cbn [mbind outcome_bind]. rewrite disabled_fold, severity_fold. unfold overrides_of. done.
Qed.

(** What is accepted is well formed, whatever the bytes. *)
Record overrides_ok (o : Overrides) : Prop := {
  ok_disabled : Disabled o !! "" = None;
  ok_severity id sev : o_Severity o !! id = Some sev → id ≠ "" ∧ sev ∈ [SeverityHigh; SeverityMedium; SeverityLow; SeverityInfo] }.
Lemma wp_value trimmed lineNo mode out : overrides_ok out → wp (parseRulesOverrideValue trimmed lineNo mode out) overrides_ok.
Proof.
  intros [Hd Hs]. unfold parseRulesOverrideValue. case_bool_decide.
  - destruct (CutPrefix trimmed "- ") as [id ok]. destruct (negb ok); cbn [orb]; [done|]. case_bool_decide as He; [done|]. split; cbn; [by rewrite lookup_insert_ne|done].
  - case_bool_decide; [|done]. destruct (Cut trimmed ":") as [[id raw]|]; [|done]. case_bool_decide as Hi; cbn [orb]; [done|]. case_bool_decide; [done|].
    unfold parseSeverity. case_bool_decide as Hin; [|done]. split; cbn; [done|]. intros id' sev. destruct (decide (id' = TrimSpace id)) as [->|Hne].
    + rewrite lookup_insert_eq. by intros [= <-].
    + rewrite lookup_insert_ne by done. apply Hs.
Qed.
Lemma wp_line raw lineNo sec mode out : overrides_ok out → wp (parseOverrideLine raw lineNo sec mode out) (λ x, overrides_ok x.2).
Proof.
  intros Ho. unfold parseOverrideLine. case_bool_decide; [done|]. case_match; [done|]. destruct (negb _); [done|]. case_match; [by case_bool_decide|].
  apply wp_bind. eapply wp_mono; [by apply wp_value|]. done.
Qed.
Lemma wp_ParseOverrides data : wp (ParseOverrides data) overrides_ok.
Proof.
  unfold ParseOverrides. destruct (scan_lines (Reader data io_EOF)) as [lines err]. apply wp_bind.
  assert (∀ st, overrides_ok st.2 → wp (for_each lines lineStep st) (λ st, overrides_ok st.2)) as Hf.
  { induction lines as [|l lines IH]; intros [[[k sec] mode] out] Ho; [done|]. cbn [for_each]. apply wp_bind. unfold lineStep at 1. apply wp_bind.
    eapply wp_mono; [by apply wp_line|]. intros [next out'] Ho'. cbn [snd] in Ho'. destruct (default (sec, mode) next). by apply IH. }
  eapply wp_mono; [apply Hf; split; cbn; [by rewrite lookup_empty|by intros id sev; rewrite lookup_empty]|]. intros [[[k sec] mode] out] Ho. by destruct err.
Qed.
End Text.

(** ** Warnings *)

Section Warnings.
Context {PR : Printable} {S : Type}.
Implicit Types catalog : list (Rule S).

Definition warning (id : string) : string := "rules override references unknown rule " +:+ Quote id.
Lemma set_keys {A} (key : A → string) (l : list A) (m : gmap string unit) id : is_Some (fold_left (λ m x, <[key x := tt]> m) l m !! id) ↔ is_Some (m !! id) ∨ id ∈ key <$> l.
Proof.
  revert m. induction l as [|x l IH]; intros m; cbn [fold_left]; [set_solver|]. rewrite IH, lookup_insert_is_Some', fmap_cons, elem_of_cons. naive_solver.
Qed.
Lemma elem_of_map_keys {R : GoRuntime} {HR : RuntimeOk R} {V} (m : gmap string V) k : k ∈ map_keys m ↔ is_Some (m !! k).
Proof.
  unfold map_keys. rewrite list_elem_of_fmap. split.
  - intros ([k' v] & -> & Hin%elem_of_entries). by exists v.
  - intros [v Hv]. exists (k, v). split; [done|]. by apply elem_of_entries.
Qed.
(** The identifiers that no rule has, each of them warned about once. *)
Lemma OverrideWarnings_exact {R : GoRuntime} {HR : RuntimeOk R} (o : Overrides) catalog :
  OverrideWarnings o catalog = Strings (warning <$> filter (λ id, id ∉ ID <$> catalog) (elements (dom (Disabled o) ∪ dom (o_Severity o)))).
Proof.
  unfold OverrideWarnings, Empty. destruct (_ && _) eqn:E.
  { apply andb_true_iff in E as [Hd%Nat.eqb_eq%map_size_empty_inv Hs%Nat.eqb_eq%map_size_empty_inv]. by rewrite Hd, Hs, !dom_empty_L, union_empty_r_L, elements_empty. }
  clear E. apply Strings_eq.
  assert (∀ ws l, fold_left (λ ws id, if bool_decide (is_Some ((fold_left (λ known r, <[ID r := tt]> known) catalog (∅ : gmap string unit)) !! id)) then ws else ws ++ [warning id]) l ws =
    ws ++ (warning <$> filter (λ id, id ∉ ID <$> catalog) l)) as Hf.
  { intros ws l. revert ws. induction l as [|id l IH]; intros ws; cbn [fold_left]; [by rewrite app_nil_r|]. rewrite IH, filter_cons. pose proof (set_keys ID catalog ∅ id) as Hk. rewrite lookup_empty in Hk.
    case_bool_decide as Hb; rewrite Hk in Hb.
    - destruct Hb as [[? [=]]|Hb]. by rewrite decide_False by tauto.
    - rewrite decide_True by tauto. by rewrite <-app_assoc. }
  rewrite (Hf []). cbn [app]. apply fmap_Permutation, filter_Permutation. apply NoDup_Permutation; [apply entries_NoDup|apply NoDup_elements|]. intros id.
  rewrite elem_of_map_keys, elem_of_elements, elem_of_union, !elem_of_dom, !(set_keys (λ id, id)), !list_fmap_id, lookup_empty, !elem_of_map_keys.
  split; [intros [[[? [=]]|?]|?]; auto|]. tauto.
Qed.
End Warnings.
End RulesFacts.

(** ** Properties *)

Import RulesFacts.

(** C18: the findings of a catalog under overrides are those of its enabled rules,
    with the severities the overrides give, all of them and no others; they are
    sorted by severity, rule and subject, findings that agree on these stay in
    catalog order, and exactly the overrides of unknown rules are warned about,
    whatever the order of map iteration. *)
Theorem rules_evaluated (S : Type) (PR : Printable) (R : GoRuntime) (HR : RuntimeOk R) (snap : S) catalog o :
  let fs := Evaluate snap (ApplyOverrides catalog o) in
  let all := concat ((λ r, effective o r snap) <$> catalog) in
  fs ≡ₚ all ∧ StronglySorted (λ a b, findingLess b a = false) fs ∧
  (∀ f, filter (λ g, tied findingLess f g = true) fs = filter (λ g, tied findingLess f g = true) all) ∧
  OverrideWarnings o catalog = Strings (warning <$> filter (λ id, id ∉ ID <$> catalog) (elements (dom (Disabled o) ∪ dom (o_Severity o)))).
Proof.
  intros fs all. subst fs. unfold Evaluate. rewrite all_findings, overridden_findings. fold all.
  split_and!; [apply SliceStable_perm|apply SliceStable_sorted, findingLess_strict|intros f; apply SliceStable_stable, findingLess_strict|apply OverrideWarnings_exact].
Qed.

(** C23: a document that lists disabled rules and severities, with comments and space
    after its entries, is read to exactly those overrides, the last severity of a
    rule counting; and whatever the bytes, reading them does not panic and what it
    accepts has no empty identifier and only the four severities. *)
Theorem overrides_parsed (UN : Unicode) (PR : Printable) d : document_ok d →
  ParseOverrides (bytes_of_string (document_text d)) = Ok (overrides_of d) ∧
  ∀ data, ParseOverrides data ≠ Panic ∧ ∀ o, ParseOverrides data = Ok o → overrides_ok o.
Proof.
  intros Hd. split; [by apply ParseOverrides_document|]. intros data. pose proof (wp_ParseOverrides data) as Hw.
  split; [by eapply wp_no_panic|]. intros o Ho. exact (wp_elim _ _ _ Hw Ho).
Qed.

(** *** Witnesses *)

Definition demo_rule (id sev : string) (subjects : list string) : Rule unit :=
  {| ID := id; r_Severity := sev; MatchFn := λ _, (λ s, {| RuleID := id; f_Severity := sev; f_Message := ""; f_Fix := ""; Subject := s |}) <$> subjects; Source := ""; r_Message := ""; r_Fix := "" |}.
Definition demo_catalog : list (Rule unit) := [demo_rule "a" "low" ["x"; "w"]; demo_rule "b" "medium" ["y"]; demo_rule "c" "info" ["z"]].
Definition demo_doc : document := {| d_top := (0%nat, ""); d_disabled := (1%nat, "# off"); d_ids := [("b", (0%nat, ""))]; d_severity := (0%nat, ""); d_sevs := [(("c", "high"), (2%nat, "#!")); (("d", "low"), (0%nat, ""))] |}.
Definition demo_overrides : Overrides := overrides_of demo_doc.
Lemma rules_evaluated_witness : ((λ f, (RuleID f, Subject f)) <$> Evaluate tt (ApplyOverrides demo_catalog demo_overrides)) = [("c", "z"); ("a", "w"); ("a", "x")] ∧
  OverrideWarnings (H := go_runtime) (H0 := ascii_printable) demo_overrides demo_catalog = [warning (PR := ascii_printable) "d"].
Proof.
  split; [by vm_compute|]. destruct (rules_evaluated unit ascii_printable go_runtime go_runtime_ok tt demo_catalog demo_overrides) as (_ & _ & _ & ->). by vm_compute.
Defined.
Lemma overrides_parsed_witness : ParseOverrides (UN := ascii_only) (PR := ascii_printable) (bytes_of_string (document_text demo_doc)) = Ok demo_overrides.
Proof.
  apply (overrides_parsed ascii_only ascii_printable demo_doc). split.
  - repeat (apply Forall_cons_2; [first [by left|right; by eexists]|]). apply Forall_nil_2.
  - apply Forall_cons_2; [|apply Forall_nil_2]. split; [split; [by apply word_tight|done]|by left].
  - apply Forall_cons_2; [|apply Forall_cons_2; [|apply Forall_nil_2]]; (split_and!; [split; [by apply word_tight|done]|done|apply (bool_decide_unpack _); by vm_compute|]); [right; by eexists|by left].
  - repeat (apply Forall_cons_2; [split_and!; by vm_compute|]). apply Forall_nil_2.
Defined.
