(* ===== verification/ProcTree.v ===== *)
(** * Process trees

    [src/internal/process]: the attribution of processes to application bundles
    and the tree of a process list ([process.go]), and the scoping of a list to
    the processes of applications and their ancestors ([tree.go]).  [Info] has the
    fields of a process that are collected without [lsof].  The nodes of a tree
    are shared by reference; there is one per process identifier, which serves as
    its address. *)

From S2P Require Import Prelude Arrays GoStrings GoPath GoText GoRuntime GoMaps Float64.

Module Process.

Record Info := {
  PID : Z; PPID : Z; UID : Z; User : string; Command : string; BSDName : string; ExecutablePath : string; FullCommandLine : string;
  RSSKiB : Z; VSizeKiB : Z; VSZBytes : Z; ThreadCount : Z; CPUPct : f64; CPUPercent : f64; MemPercent : f64;
  StartTime : time; StartedAt : time; Elapsed : Z; AppPath : string }.

(** ** Attribution *)

(** [strings.TrimRight(s, "/")] *)
Definition trim_right_slash (s : string) : string := str_rev (drop_slashes (str_rev s "")) "".
Definition pathInsideBundle (path bundle : string) : bool :=
  if bool_decide (path = "") || bool_decide (bundle = "") then false else
  bool_decide (path = bundle) || HasPrefix path (trim_right_slash bundle +:+ "/").
Definition processBelongsToBundle (p : Info) (bundle : string) : bool :=
  if pathInsideBundle (ExecutablePath p) bundle then true else HasPrefix (FullCommandLine p) bundle.
Definition with_app (p : Info) (app : string) : Info :=
  {| PID := PID p; PPID := PPID p; UID := UID p; User := User p; Command := Command p; BSDName := BSDName p; ExecutablePath := ExecutablePath p;
     FullCommandLine := FullCommandLine p; RSSKiB := RSSKiB p; VSizeKiB := VSizeKiB p; VSZBytes := VSZBytes p; ThreadCount := ThreadCount p; CPUPct := CPUPct p;
     CPUPercent := CPUPercent p; MemPercent := MemPercent p; StartTime := StartTime p; StartedAt := StartedAt p; Elapsed := Elapsed p; AppPath := app |}.
(** The inner loop ends at the first bundle that matches. *)
Fixpoint firstBundle (p : Info) (bundles : list string) : Info :=
  match bundles with [] => p | b :: bundles => if processBelongsToBundle p b then with_app p b else firstBundle p bundles end.
Definition attributeBundles (procs : list Info) (bundles : list string) : list Info := (λ p, firstBundle p bundles) <$> procs.

(** ** Scoping *)

Definition indexByPID (procs : list Info) : gmap Z Info := fold_left (λ m p, <[PID p := p]> m) procs ∅.
(** [for parent, ok := byPID[p.PPID]; ok && parent.PID != p.PID; parent, ok = byPID[parent.PPID]],
    for at most [fuel] rounds. *)
Fixpoint ancestorLoop (fuel : nat) (byPID : gmap Z Info) (p : Info) (cur : option Info) (keep : gset Z) : outcome (gset Z) :=
  match cur with
  | None => Ok keep
  | Some parent =>
    if PID parent =? PID p then Ok keep else
    match fuel with
    | O => out_of_fuel
    | S fuel => ancestorLoop fuel byPID p (byPID !! PPID parent) ({[PID parent]} ∪ keep)
    end
  end.
Definition scopeStep (fuel : nat) (byPID : gmap Z Info) (keep : gset Z) (p : Info) : outcome (gset Z) :=
  if bool_decide (AppPath p = "") then Ok keep else ancestorLoop fuel byPID p (byPID !! PPID p) keep.
Definition ScopeTreeProcesses (fuel : nat) (procs : list Info) : outcome (list Info) :=
  if len procs =? 0 then Ok [] else
  let byPID := indexByPID procs in
  let keep := fold_left (λ keep p, if bool_decide (AppPath p ≠ "") then {[PID p]} ∪ keep else keep) procs ∅ in
  keep ← for_each procs (scopeStep fuel byPID) keep;
  Ok (filter (λ p, PID p ∈ keep) procs).

(** ** Trees *)

Record TreeNode := { tn_Info : Info; Children : list Z }.
Definition addChild (n : TreeNode) (pid : Z) : TreeNode := {| tn_Info := tn_Info n; Children := Children n ++ [pid] |}.
Definition treeStep (st : gmap Z TreeNode * list Z) (p : Info) : gmap Z TreeNode * list Z :=
  let '(nodes, roots) := st in
  match nodes !! PPID p with
  | Some parent => if negb (PPID p =? PID p) then (<[PPID p := addChild parent (PID p)]> nodes, roots) else (nodes, roots ++ [PID p])
  | None => (nodes, roots ++ [PID p])
  end.
(** The nodes and the addresses of the roots. *)
Definition BuildTree (procs : list Info) : gmap Z TreeNode * list Z :=
  let nodes := fold_left (λ nodes p, <[PID p := {| tn_Info := p; Children := [] |}]> nodes) procs ∅ in
  fold_left treeStep procs (nodes, []).

(** [TreeService.Build]; [collect] is the collector. *)
Definition Build (fuel : nat) (collect : list string → list Info) (bundles : list string) : outcome (gmap Z TreeNode * list Z) :=
  let procs := collect bundles in
  procs ← (if 0 <? len bundles then ScopeTreeProcesses fuel procs else Ok procs);
  Ok (BuildTree procs).
End Process.

Module ProcessFacts.
Export Process.

(** ** Parents *)

Lemma indexByPID_lookup procs x : indexByPID procs !! x = last_with PID x procs.
Proof. unfold indexByPID. rewrite (fill_lookup_empty PID (λ p, p)). by destruct (last_with PID x procs). Qed.
Lemma indexed_pid procs x q : indexByPID procs !! x = Some q → PID q = x ∧ q ∈ procs.
Proof. rewrite indexByPID_lookup. intros [? ?]%last_with_some. done. Qed.
Lemma indexByPID_some procs x : is_Some (indexByPID procs !! x) ↔ x ∈ PID <$> procs.
Proof.
  rewrite indexByPID_lookup. destruct (last_with PID x procs) as [q|] eqn:E.
  - apply last_with_some in E as [Hq <-]. split; [|done]. intros _. by apply list_elem_of_fmap_2.
  - apply last_with_none in E. split; [by intros []|done].
Qed.

(** The walk over parents from [x], up to a process that is not there or to [stop]. *)
Inductive walks (m : gmap Z Info) (stop : Z) : Z → list Z → Prop :=
| walk_out x : m !! x = None → walks m stop x []
| walk_self : walks m stop stop []
| walk_up x q l : m !! x = Some q → x ≠ stop → walks m stop (PPID q) l → walks m stop x (x :: l).

Section Walk.
Context (m : gmap Z Info) (stop : Z).

Lemma walks_det x l l' : walks m stop x l → walks m stop x l' → l = l'.
Proof.
  intros Hl. revert l'. induction Hl as [x Hx| |x q l Hx Hs Hl IH]; intros l' Hl'; inversion Hl'; subst; try congruence. f_equal. apply IH. congruence.
Qed.
Lemma walks_suffix x l y : walks m stop x l → y ∈ l → ∃ l', walks m stop y l' ∧ (length l' <= length l)%nat.
Proof.
  induction 1 as [x Hx| |x q l Hx Hs Hl IH]; intros Hy; [by apply not_elem_of_nil in Hy..|]. apply elem_of_cons in Hy as [->|Hy].
  - exists (x :: l). split; [by eapply walk_up|done].
  - destruct (IH Hy) as (l' & ? & ?). exists l'. split; [done|]. cbn. lia.
Qed.
Lemma walks_NoDup x l : walks m stop x l → NoDup l ∧ Forall (λ y, y ∈ dom m) l.
Proof.
  induction 1 as [x Hx| |x q l Hx Hs Hl [IH1 IH2]]; [by repeat constructor..|]. split; constructor; try done.
  - intros Hin. destruct (walks_suffix _ _ _ Hl Hin) as (l' & Hl' & Hlen). assert (l' = x :: l) as -> by (eapply walks_det; [done|by eapply walk_up]). cbn in Hlen. lia.
  - by apply elem_of_dom_2 in Hx.
Qed.
Lemma walks_length x l : walks m stop x l → (length l <= size m)%nat.
Proof.
  intros [Hn Hd]%walks_NoDup. rewrite <-size_dom. assert (list_to_set l ⊆ dom m) as Hsub.
  { intros y Hy%elem_of_list_to_set. rewrite Forall_forall in Hd. by apply Hd. }
  apply subseteq_size in Hsub. by rewrite size_list_to_set in Hsub.
Qed.

Lemma walks_end x (fuel : nat) (keep keep' : gset Z) : m !! x = None ∨ x = stop →
  Ok keep = Ok keep' ↔ ∃ l, walks m stop x l ∧ (length l <= fuel)%nat ∧ keep' = list_to_set l ∪ keep.
Proof.
  intros Hx. assert (walks m stop x []) as H0 by (destruct Hx as [Hx| ->]; [by apply walk_out|apply walk_self]). split.
  - intros [= <-]. exists []. split; [done|]. split; [cbn; lia|set_solver].
  - intros (l & Hl & _ & ->). rewrite (walks_det _ _ _ Hl H0). f_equal. set_solver.
Qed.
Lemma keep_cons x l (keep : gset Z) : list_to_set l ∪ ({[x]} ∪ keep) = list_to_set (x :: l) ∪ keep.
Proof. by rewrite list_to_set_cons, union_assoc_L, (union_comm_L (list_to_set l)). Qed.
Lemma ancestorLoop_walks p fuel x keep keep' : (∀ y q, m !! y = Some q → PID q = y) → PID p = stop →
  ancestorLoop fuel m p (m !! x) keep = Ok keep' ↔ ∃ l, walks m stop x l ∧ (length l <= fuel)%nat ∧ keep' = list_to_set l ∪ keep.
Proof.
  intros Hm Hp. revert x keep. induction fuel as [|fuel IH]; intros x keep; cbn [ancestorLoop]; destruct (m !! x) as [q|] eqn:E; try (apply walks_end; by left).
  all: rewrite (Hm _ _ E), Hp; destruct (Z.eqb_spec x stop) as [->|Hne]; [apply walks_end; by right|].
  - split; [done|]. intros (l & Hl & Hlen & _). inversion Hl; subst; [congruence|done|]. cbn in Hlen. lia.
  - rewrite IH. split.
    + intros (l & Hl & Hlen & ->). exists (x :: l). split; [by eapply walk_up|]. split; [cbn; lia|apply keep_cons].
    + intros (l & Hl & Hlen & ->). inversion Hl as [| |? q' l' Hx Hs Hl' ]; subst; [congruence|done|]. assert (q' = q) as -> by congruence. exists l'. cbn in Hlen. split; [done|]. split; [lia|symmetry; apply keep_cons].
Qed.
End Walk.

(** ** Scoping *)

(** The parents of every process of an application come to an end. *)
Definition grounded (procs : list Info) : Prop := ∀ p, p ∈ procs → AppPath p ≠ "" → ∃ l, walks (indexByPID procs) (PID p) (PPID p) l.
(** A process of an application, or an ancestor of one. *)
Definition kept (procs : list Info) (x : Z) : Prop :=
  ∃ p, p ∈ procs ∧ AppPath p ≠ "" ∧ (x = PID p ∨ ∃ l, walks (indexByPID procs) (PID p) (PPID p) l ∧ x ∈ l).

Lemma scopeStep_eq fuel m keep p : scopeStep fuel m keep p = if decide (AppPath p = "") then Ok keep else ancestorLoop fuel m p (m !! PPID p) keep.
Proof. unfold scopeStep. case_bool_decide; by case_decide. Qed.
Lemma scope_loop procs ps fuel keep keep' : ps ⊆ procs → for_each ps (scopeStep fuel (indexByPID procs)) keep = Ok keep' →
  ∀ x, x ∈ keep' ↔ x ∈ keep ∨ ∃ p l, p ∈ ps ∧ AppPath p ≠ "" ∧ walks (indexByPID procs) (PID p) (PPID p) l ∧ x ∈ l.
Proof.
  revert keep. induction ps as [|p ps IH]; intros keep Hsub; cbn [for_each]; [intros [= ->]; set_solver|]. rewrite scopeStep_eq. case_decide as Ha.
  - intros Hf x. cbn [mbind outcome_bind] in Hf. rewrite (IH keep ltac:(set_solver) Hf). set_solver.
  - destruct (ancestorLoop _ _ _ _ _) as [k| |] eqn:E; [|done..]. intros Hf x. cbn [mbind outcome_bind] in Hf. rewrite (IH k ltac:(set_solver) Hf).
    apply (ancestorLoop_walks _ (PID p)) in E as (l & Hl & _ & ->); [|by intros y q [? _]%indexed_pid|done]. rewrite elem_of_union, elem_of_list_to_set. split.
    + intros [[?|?]|(p' & l' & ? & ?)]; [right; exists p, l; set_solver|by left|right; exists p', l'; set_solver].
    + intros [?|(p' & l' & [->|Hin]%elem_of_cons & Hap & Hl' & Hx)]; [by left; right|left; left; by rewrite (walks_det _ _ _ _ _ Hl Hl')|right; by exists p', l'].
Qed.
Lemma scope_runs procs ps fuel keep : ps ⊆ procs → (∀ p, p ∈ ps → AppPath p ≠ "" → ∃ l, walks (indexByPID procs) (PID p) (PPID p) l ∧ (length l <= fuel)%nat) →
  ∃ keep', for_each ps (scopeStep fuel (indexByPID procs)) keep = Ok keep'.
Proof.
  revert keep. induction ps as [|p ps IH]; intros keep Hsub Hg; cbn [for_each]; [by eexists|]. rewrite scopeStep_eq. case_decide as Ha; [cbn [mbind outcome_bind]; apply IH; set_solver|].
  destruct (Hg p) as (l & Hl & Hlen); [set_solver|done|]. assert (ancestorLoop fuel (indexByPID procs) p (indexByPID procs !! PPID p) keep = Ok (list_to_set l ∪ keep)) as ->.
  { apply (ancestorLoop_walks _ (PID p)); [by intros y q [? _]%indexed_pid|done|by exists l]. }
  cbn [mbind outcome_bind]. apply IH; set_solver.
Qed.
Lemma scope_grounded procs ps fuel keep keep' : ps ⊆ procs → for_each ps (scopeStep fuel (indexByPID procs)) keep = Ok keep' →
  ∀ p, p ∈ ps → AppPath p ≠ "" → ∃ l, walks (indexByPID procs) (PID p) (PPID p) l.
Proof.
  revert keep. induction ps as [|p ps IH]; intros keep Hsub; cbn [for_each]; [intros _ p Hp; by apply not_elem_of_nil in Hp|]. rewrite scopeStep_eq. case_decide as Ha.
  - intros Hf p' [->|Hp']%elem_of_cons Hap; [done|]. eapply IH; [|exact Hf|done|done]. set_solver.
  - destruct (ancestorLoop _ _ _ _ _) as [k| |] eqn:E; [|done..]. intros Hf p' [->|Hp']%elem_of_cons Hap; [|eapply IH; [|exact Hf|done|done]; set_solver].
    apply (ancestorLoop_walks _ (PID p)) in E as (l & Hl & _ & _); [by exists l|by intros y q [? _]%indexed_pid|done].
Qed.
Lemma scope_no_error procs ps fuel keep e : for_each ps (scopeStep fuel (indexByPID procs)) keep = Err e → False.
Proof.
  revert keep. induction ps as [|p ps IH]; intros keep; cbn [for_each]; [done|]. destruct (scopeStep fuel _ keep p) as [k|e'|] eqn:E; [apply IH| |done].
  intros _. rewrite scopeStep_eq in E. case_decide; [done|]. revert E. generalize (indexByPID procs !! PPID p) as cur. generalize keep as k. clear.
  induction fuel as [|fuel IHf]; intros k [q|]; cbn [ancestorLoop]; try done; destruct (_ =? _); try done. apply IHf.
Qed.
Lemma initial_keep procs x : x ∈ fold_left (λ keep p, if bool_decide (AppPath p ≠ "") then {[PID p]} ∪ keep else keep) procs (∅ : gset Z) ↔ ∃ p, p ∈ procs ∧ AppPath p ≠ "" ∧ x = PID p.
Proof.
  induction procs as [|p procs IH] using rev_ind; [set_solver|]. rewrite fold_left_app. cbn [fold_left]. case_bool_decide; set_solver.
Qed.
Lemma index_size procs : (size (indexByPID procs) <= length procs)%nat.
Proof.
  unfold indexByPID. induction procs as [|p procs IH] using rev_ind; [done|]. rewrite fold_left_app, length_app. cbn [fold_left length]. rewrite map_size_insert. destruct (fold_left _ procs ∅ !! PID p); cbn; lia.
Qed.

(** ** Trees *)

Definition is_child (procs : list Info) (x : Z) (p : Info) : Prop := PPID p = x ∧ x ∈ PID <$> procs ∧ PPID p ≠ PID p.
Definition is_root (procs : list Info) (p : Info) : Prop := PPID p ∉ PID <$> procs ∨ PPID p = PID p.
#[export] Instance is_child_dec procs x p : Decision (is_child procs x p) := _.
#[export] Instance is_root_dec procs p : Decision (is_root procs p) := _.
Definition children_of (procs ps : list Info) (x : Z) : list Z := PID <$> filter (is_child procs x) ps.

Lemma treeStep_all procs ps nodes roots : (∀ x, is_Some (nodes !! x) ↔ x ∈ PID <$> procs) →
  let '(nodes', roots') := fold_left treeStep ps (nodes, roots) in
  (∀ x, nodes' !! x = (λ n, {| tn_Info := tn_Info n; Children := Children n ++ children_of procs ps x |}) <$> nodes !! x) ∧
  roots' = roots ++ (PID <$> filter (is_root procs) ps).
Proof.
  revert nodes roots. induction ps as [|p ps IH]; intros nodes roots Hn; cbn [fold_left].
  - split; [|by rewrite app_nil_r]. intros x. unfold children_of. cbn. destruct (nodes !! x) as [[]|]; cbn; [by rewrite app_nil_r|done].
  - cbn [treeStep]. destruct (nodes !! PPID p) as [parent|] eqn:E.
    + assert (PPID p ∈ PID <$> procs) as Hin by (apply Hn; by eexists). destruct (Z.eqb_spec (PPID p) (PID p)) as [Heq|Hne]; cbn [negb].
      * specialize (IH nodes (roots ++ [PID p]) Hn). destruct (fold_left treeStep ps _) as [nodes' roots']. destruct IH as [IH1 IH2]. split.
        -- intros x. rewrite IH1. unfold children_of. rewrite filter_cons, decide_False by (unfold is_child; naive_solver). done.
        -- rewrite IH2, filter_cons, decide_True by by right. by rewrite <-app_assoc.
      * specialize (IH (<[PPID p := addChild parent (PID p)]> nodes) roots). destruct (fold_left treeStep ps _) as [nodes' roots']. destruct IH as [IH1 IH2].
        { intros x. rewrite lookup_insert_is_Some', Hn. split; [intros [<-|?]; done|by right]. }
        split; [|rewrite IH2, filter_cons, decide_False by (unfold is_root; naive_solver); done].
        intros x. rewrite IH1. unfold children_of. rewrite filter_cons. destruct (decide (x = PPID p)) as [->|Hx].
        -- rewrite lookup_insert_eq, E, decide_True by done. cbn. by rewrite <-app_assoc.
        -- rewrite lookup_insert_ne, decide_False by (done || unfold is_child; naive_solver). done.
    + specialize (IH nodes (roots ++ [PID p]) Hn). destruct (fold_left treeStep ps _) as [nodes' roots']. destruct IH as [IH1 IH2].
      assert (PPID p ∉ PID <$> procs) as Hni by (intros Hin%Hn; rewrite E in Hin; by destruct Hin). split.
      * intros x. rewrite IH1. unfold children_of. rewrite filter_cons, decide_False by (unfold is_child; naive_solver). done.
      * rewrite IH2, filter_cons, decide_True by by left. by rewrite <-app_assoc.
Qed.
Lemma BuildTree_spec procs : let '(nodes, roots) := BuildTree procs in
  (∀ x, nodes !! x = (λ p, {| tn_Info := p; Children := children_of procs procs x |}) <$> last_with PID x procs) ∧ roots = PID <$> filter (is_root procs) procs.
Proof.
  unfold BuildTree. set (nodes0 := fold_left _ procs ∅).
  assert (∀ x, nodes0 !! x = (λ p, {| tn_Info := p; Children := [] |}) <$> last_with PID x procs) as H0 by (intros x; apply (fill_lookup_empty PID (λ p, {| tn_Info := p; Children := [] |}))).
  pose proof (treeStep_all procs procs nodes0 []) as H. destruct (fold_left treeStep procs _) as [nodes roots]. destruct H as [H1 H2].
  - intros x. rewrite H0, fmap_is_Some. rewrite <-indexByPID_lookup. apply indexByPID_some.
  - split; [|done]. intros x. rewrite H1, H0. by destruct (last_with PID x procs).
Qed.

(** A process that is reached from a root. *)
Inductive in_tree (nodes : gmap Z TreeNode) (roots : list Z) : Z → Prop :=
| tree_root x : x ∈ roots → in_tree nodes roots x
| tree_child x y n : in_tree nodes roots y → nodes !! y = Some n → x ∈ Children n → in_tree nodes roots x.
(** The parents of a process end at one that has no parent in the list, or itself. *)
Inductive climbs (m : gmap Z Info) : Z → list Z → Prop :=
| climb_top x q : m !! x = Some q → m !! PPID q = None ∨ PPID q = x → climbs m x [x]
| climb_up x q l : m !! x = Some q → PPID q ≠ x → climbs m (PPID q) l → climbs m x (x :: l).

Section Distinct.
Context (procs : list Info) (Hn : NoDup (PID <$> procs)).

Lemma indexed p : p ∈ procs → indexByPID procs !! PID p = Some p.
Proof. intros Hp. rewrite indexByPID_lookup. by apply last_with_unique. Qed.
Lemma tree_partition : let '(nodes, roots) := BuildTree procs in
  PID <$> procs ≡ₚ roots ++ (procs ≫= λ p, from_option Children [] (nodes !! PID p)).
Proof.
  pose proof (BuildTree_spec procs) as H. destruct (BuildTree procs) as [nodes roots]. destruct H as [H1 ->].
  assert (∀ p, p ∈ procs → from_option Children [] (nodes !! PID p) = children_of procs procs (PID p)) as Hc.
  { intros p Hp. rewrite H1, (last_with_unique PID (PID p) procs p) by done. done. }
  assert (∀ p q, p ∈ procs → PID q ∈ children_of procs procs (PID p) → q ∈ procs → PPID q = PID p ∧ PPID q ≠ PID q) as Hch.
  { intros p q Hp (q' & Heq & [[Hq' [_ Hq'']] Hin]%list_elem_of_filter)%list_elem_of_fmap Hq. assert (q' = q) as -> by by apply (NoDup_fmap_inj_in PID procs). done. }
  assert (∀ p x, x ∈ children_of procs procs (PID p) → ∃ q, q ∈ procs ∧ x = PID q) as Hpid.
  { intros p x (q & -> & [_ Hq]%list_elem_of_filter)%list_elem_of_fmap. by exists q. }
  assert (∀ P `{∀ p, Decision (P p)}, NoDup (PID <$> filter P procs)) as Hnf.
  { intros P ?. eapply sublist_NoDup; [done|]. apply fmap_sublist, sublist_filter. }
  apply NoDup_Permutation; [done| |].
  - apply NoDup_app. split_and!.
    + apply Hnf.
    + intros x (p & -> & [Hr Hp]%list_elem_of_filter)%list_elem_of_fmap (q & Hq & Hqp)%list_elem_of_bind. rewrite Hc in Hq by done. apply Hch in Hq as [Hpq Hne]; [|done|done].
      destruct Hr as [Hr|Hr]; [|done]. apply Hr. rewrite Hpq. by apply list_elem_of_fmap_2.
    + apply NoDup_bind; [| |by eapply NoDup_fmap_1].
      * intros p1 p2 x Hp1 Hp2. rewrite !Hc by done. intros Hx1 Hx2. destruct (Hpid _ _ Hx1) as (q & Hq & ->). apply (NoDup_fmap_inj_in PID procs); [done|done|done|].
        destruct (Hch p1 q Hp1 Hx1 Hq), (Hch p2 q Hp2 Hx2 Hq). congruence.
      * intros p Hp. rewrite Hc by done. apply Hnf.
  - intros x. rewrite elem_of_app, list_elem_of_bind. split.
    + intros (p & -> & Hp)%list_elem_of_fmap. destruct (decide (is_root procs p)) as [Hr|Hr]; [left; apply list_elem_of_fmap_2, list_elem_of_filter; done|right].
      assert (PPID p ∈ PID <$> procs ∧ PPID p ≠ PID p) as [Hin Hne] by (unfold is_root in Hr; destruct (decide (PPID p ∈ PID <$> procs)); tauto).
      apply list_elem_of_fmap in Hin as (q & Hpq & Hq). exists q. split; [|done]. rewrite Hc by done. apply list_elem_of_fmap_2, list_elem_of_filter. split; [|done]. split_and!; [done|by apply list_elem_of_fmap_2|done].
    + intros [(p & -> & [_ Hp]%list_elem_of_filter)%list_elem_of_fmap|(p & Hx & Hp)]; [by apply list_elem_of_fmap_2|]. rewrite Hc in Hx by done. destruct (Hpid _ _ Hx) as (q & ? & ->). by apply list_elem_of_fmap_2.
Qed.
Lemma in_tree_climbs : let '(nodes, roots) := BuildTree procs in ∀ x, in_tree nodes roots x ↔ ∃ l, climbs (indexByPID procs) x l.
Proof.
  pose proof (BuildTree_spec procs) as H. destruct (BuildTree procs) as [nodes roots]. destruct H as [H1 ->]. intros x. split.
  - induction 1 as [x (p & -> & [Hr Hp]%list_elem_of_filter)%list_elem_of_fmap|x y n Hy [l Hl] Hn' Hx].
    + exists [PID p]. apply (climb_top _ _ p); [by apply indexed|]. destruct Hr as [Hr|Hr]; [left|by right]. apply eq_None_not_Some. by rewrite indexByPID_some.
    + rewrite H1 in Hn'. destruct (last_with PID y procs) as [q|]; [|done]. injection Hn' as <-. cbn in Hx.
      apply list_elem_of_fmap in Hx as (p & -> & [(Hpy & _ & Hne) Hp]%list_elem_of_filter). exists (PID p :: l). subst y. by apply (climb_up _ _ p); [apply indexed| |].
  - intros [l Hl]. induction Hl as [x q Hx Hr|x q l Hx Hne Hl IH]; apply indexed_pid in Hx as [<- Hq].
    + apply tree_root, list_elem_of_fmap_2, list_elem_of_filter. split; [|done]. destruct Hr as [Hr|Hr]; [left|by right]. rewrite <-indexByPID_some. rewrite Hr. by intros [].
    + assert (PPID q ∈ PID <$> procs) as Hin by (apply indexByPID_some; inversion Hl; by eexists). apply list_elem_of_fmap in Hin as (p & Hpq & Hp).
      eapply tree_child; [exact IH| |]; [rewrite H1, Hpq, (last_with_unique PID (PID p) procs p) by done; done|]. cbn.
      apply list_elem_of_fmap_2, list_elem_of_filter. split; [|done]. split_and!; [done|rewrite <-Hpq, Hpq; by apply list_elem_of_fmap_2|done].
Qed.
End Distinct.
End ProcessFacts.

(** ** Properties *)

Import ProcessFacts.

(** C20: scoping a list keeps, in order, exactly the processes of applications and
    their ancestors, and as many rounds per process as the list is long are
    enough; it returns exactly if the parents of every process of an application
    come to an end.  Otherwise, when they run into a cycle that does not hold the
    process itself, it does not end, however long it runs. *)
Theorem scope_exact procs :
  (grounded procs → ∀ fuel, (length procs <= fuel)%nat → ∃ out, ScopeTreeProcesses fuel procs = Ok out ∧ (∀ p, p ∈ procs → p ∈ out ↔ kept procs (PID p)) ∧ sublist out procs) ∧
  (¬ grounded procs → ∀ fuel, ScopeTreeProcesses fuel procs = out_of_fuel).
Proof.
  unfold ScopeTreeProcesses. destruct procs as [|p0 procs0] eqn:Ep.
  { split; [intros _ fuel _; exists []; split; [done|]; split; [|constructor]; intros p Hp; by apply not_elem_of_nil in Hp|]. intros Hg. destruct Hg. intros p Hp. by apply not_elem_of_nil in Hp. }
  rewrite <-Ep. rewrite (proj2 (Z.eqb_neq _ _)) by (rewrite Ep, len_cons; pose proof (len_nonneg procs0); lia). split.
  - intros Hg fuel Hf. destruct (scope_runs procs procs fuel (fold_left (λ keep p, if bool_decide (AppPath p ≠ "") then {[PID p]} ∪ keep else keep) procs ∅)) as [keep Hk]; [done| |].
    { intros p Hp Ha. destruct (Hg p Hp Ha) as [l Hl]. exists l. split; [done|]. pose proof (walks_length _ _ _ _ Hl). pose proof (index_size procs). rewrite Ep in *. lia. }
    rewrite Hk. eexists. split; [done|]. split; [|apply sublist_filter]. intros p Hp. rewrite list_elem_of_filter, (scope_loop procs procs fuel _ keep (reflexivity _) Hk), initial_keep. unfold kept. split.
    + intros [[(q & ? & ? & ?)|(q & l & ? & ? & ? & ?)] _]; exists q; (split; [done|]; split; [done|]); [by left|right; by exists l].
    + intros (q & ? & ? & [?|(l & ? & ?)]); (split; [|done]); [left; by exists q|right; by exists q, l].
  - intros Hg fuel. destruct (for_each procs _ _) as [keep|e|] eqn:E; [|by apply scope_no_error in E|done]. destruct Hg. intros p Hp Ha. by eapply scope_grounded.
Qed.

(** C21: the tree of a list of distinct processes has every process exactly once, as a
    root or among the children of one node; the children of a process are those
    whose parent it is, in the order of the list, and the roots are the processes
    whose parent is not in the list or themselves.  A process is reached from the
    roots exactly if its parents come to an end: those on a cycle of parents, and
    their descendants, are in no tree. *)
Theorem tree_exact procs : NoDup (PID <$> procs) → let '(nodes, roots) := BuildTree procs in
  PID <$> procs ≡ₚ roots ++ (procs ≫= λ p, from_option Children [] (nodes !! PID p)) ∧
  (∀ p, p ∈ procs → nodes !! PID p = Some {| tn_Info := p; Children := PID <$> filter (is_child procs (PID p)) procs |}) ∧
  roots = PID <$> filter (is_root procs) procs ∧
  ∀ x, in_tree nodes roots x ↔ ∃ l, climbs (indexByPID procs) x l.
Proof.
  intros Hn. pose proof (tree_partition procs Hn) as H1. pose proof (in_tree_climbs procs Hn) as H2. pose proof (BuildTree_spec procs) as H3.
  destruct (BuildTree procs) as [nodes roots]. destruct H3 as [H3 H4]. split_and!; [done| |done|done]. intros p Hp. rewrite H3, (last_with_unique PID (PID p) procs p) by done. done.
Qed.

(** ** Witnesses *)

(** The process [pid] with parent [ppid], of the application [app]. *)
Definition process (pid ppid : Z) (app : string) : Info :=
  {| PID := pid; PPID := ppid; UID := 0; User := ""; Command := ""; BSDName := ""; ExecutablePath := ""; FullCommandLine := ""; RSSKiB := 0; VSizeKiB := 0; VSZBytes := 0;
     ThreadCount := 0; CPUPct := f0; CPUPercent := f0; MemPercent := f0; StartTime := 0; StartedAt := 0; Elapsed := 0; AppPath := app |}.
Definition sample_procs : list Info := [process 1 0 ""; process 7 1 ""; process 9 7 "/Applications/Foo.app"; process 12 1 ""].
(** The kernel task is its own parent. *)
Definition sample_loop : list Info := process 0 0 "" :: sample_procs.

Lemma scope_exact_witness : (∃ out, ScopeTreeProcesses 4 sample_procs = Ok out ∧ PID <$> out = [1; 7; 9]) ∧ ∀ fuel, ScopeTreeProcesses fuel sample_loop = out_of_fuel.
Proof.
  destruct (scope_exact sample_procs) as [H _]. destruct (scope_exact sample_loop) as [_ H2]. split.
  - destruct (H ltac:(intros p Hp Ha; repeat (apply elem_of_cons in Hp as [->|Hp]; [try done|]); [|by apply not_elem_of_nil in Hp];
      exists [7; 1]; eapply walk_up; [vm_compute; reflexivity|done|]; eapply walk_up; [vm_compute; reflexivity|done|]; apply walk_out; vm_compute; reflexivity) 4%nat ltac:(cbn; lia)) as (out & Ho & _).
    exists out. split; [exact Ho|]. vm_compute in Ho. injection Ho as <-. reflexivity.
  - apply H2. intros Hg. destruct (Hg (process 9 7 "/Applications/Foo.app") ltac:(unfold sample_loop, sample_procs; set_solver) ltac:(done)) as [l Hl].
    assert (∀ l, walks (indexByPID sample_loop) 9 0 l → False) as H0.
    { clear. intros l Hl. remember 0 as x eqn:Ex. induction Hl as [x Hx| |x q l Hx Hs Hl IH]; subst; [done|done|]. apply IH. vm_compute in Hx. injection Hx as <-. reflexivity. }
    inversion Hl as [| |? q l' Hq _ Hl']; subst; [done|]. vm_compute in Hq. injection Hq as <-.
    inversion Hl' as [| |? q2 l2 Hq2 _ Hl2]; subst; [done|]. vm_compute in Hq2. injection Hq2 as <-. exact (H0 _ Hl2).
Defined.
Lemma tree_exact_witness : NoDup (PID <$> sample_procs) ∧ (BuildTree sample_procs).2 = [1] ∧ in_tree (BuildTree sample_procs).1 (BuildTree sample_procs).2 9.
Proof.
  assert (NoDup (PID <$> sample_procs)) as Hn by (apply (bool_decide_unpack _); vm_compute; exact I). pose proof (tree_exact sample_procs Hn) as H.
  split; [exact Hn|]. split; [vm_compute; reflexivity|]. destruct (BuildTree sample_procs) as [nodes roots]. destruct H as (_ & _ & _ & H). apply H.
  exists [9; 7; 1]. eapply climb_up; [vm_compute; reflexivity|done|]. eapply climb_up; [vm_compute; reflexivity|done|]. eapply climb_top; [vm_compute; reflexivity|]. left. vm_compute. reflexivity.
Defined.
