(* ===== verification/Collapsed.v ===== *)
(** * Profiles

    [src/internal/profile/collapsed.go]: stacks with a weight, read from the
    collapsed format of profilers, the ranking of methods and the call tree.  The
    nodes of the tree under construction are reached from their parent only; the
    loop that walks down a stack is a recursion that rebuilds the path. *)

From Stdlib Require Import Ascii.
From S2P Require Import Prelude Arrays GoIO GoStrings GoPath GoText GoScan GoRuntime GoSort GoMaps.

Module Stacks.

Record StackSample := { Frames : list string; s_Value : Z }.
Record MethodStat := { m_Name : string; Inclusive : Z; Exclusive : Z }.
Inductive CallTreeNode := CallTree (name : string) (value self : Z) (children : list CallTreeNode).

(** ** Collapsed stacks *)

Section Parse.
Context {UN : Unicode} {PR : Printable}.

(** The filtered frames are written over those already read. *)
Definition splitFrames (stack : string) : list string :=
  fold_left (λ frames frame, let frame := TrimSpace frame in if bool_decide (frame ≠ "") then frames ++ [frame] else frames) (Split stack ";") [].
Definition stack_error (lineNo : Z) (msg : string) : string := "collapsed stack line " +:+ itoa lineNo +:+ msg.
Definition stackLine (st : Z * list StackSample) (text : string) : outcome (Z * list StackSample) :=
  let '(lineNo, samples) := st in
  let lineNo := lineNo + 1 in
  let line := TrimSpace text in
  if bool_decide (line = "") || HasPrefix line "#" then Ok (lineNo, samples) else
  match Cut line " " with
  | None => Err (Errorf (stack_error lineNo " missing value"))
  | Some (stack, valueText) =>
    match ParseInt (TrimSpace valueText) with
    | None => Err (Wrapf (stack_error lineNo " value: %w") (num_error "ParseInt" (TrimSpace valueText)))
    | Some value =>
      if value <? 0 then Err (Errorf (stack_error lineNo " value must be non-negative")) else
      let frames := splitFrames stack in
      if len frames =? 0 then Ok (lineNo, samples) else
      Ok (lineNo, samples ++ [{| Frames := frames; s_Value := value |}])
    end
  end.
Definition ParseCollapsedStacks (r : reader) : outcome (list StackSample) :=
  let '(lines, err) := scan_lines r in
  '(_, samples) ← for_each lines stackLine (0, []);
  match err with Some err => Err err | None => Ok samples end.
End Parse.

(** ** Methods *)

(** One round of the loop over the frames of a sample: the statistics, the frames
    seen in the sample and the index. *)
Definition methodStep (sample : StackSample) (st : gmap string MethodStat * gmap string unit * Z) (frame : string) : gmap string MethodStat * gmap string unit * Z :=
  let '(byName, seen, i) := st in
  let stat := default {| m_Name := frame; Inclusive := 0; Exclusive := 0 |} (byName !! frame) in
  let '(stat, seen) :=
    if bool_decide (seen !! frame = None)
    then ({| m_Name := m_Name stat; Inclusive := i64 (Inclusive stat + s_Value sample); Exclusive := Exclusive stat |}, <[frame := tt]> seen)
    else (stat, seen) in
  let stat :=
    if i =? len (Frames sample) - 1
    then {| m_Name := m_Name stat; Inclusive := Inclusive stat; Exclusive := i64 (Exclusive stat + s_Value sample) |} else stat in
  (<[frame := stat]> byName, seen, i + 1).
Definition sampleStep (byName : gmap string MethodStat) (sample : StackSample) : gmap string MethodStat :=
  (fold_left (methodStep sample) (Frames sample) (byName, ∅, 0)).1.1.
Definition methodLess (a b : MethodStat) : bool :=
  if negb (Inclusive a =? Inclusive b) then Inclusive b <? Inclusive a else String.ltb (m_Name a) (m_Name b).
Definition HotMethods `{GoRuntime} (samples : list StackSample) : list MethodStat :=
  let byName := fold_left sampleStep samples ∅ in
  sort_slice methodLess (map_entries byName).*2.

(** ** The call tree *)

Inductive treeNode := Node (name : string) (value self : Z) (children : gmap string treeNode).

Definition addValue (n : treeNode) (v : Z) : treeNode := let 'Node name value self children := n in Node name (i64 (value + v)) self children.
(** The loop over the frames from [node], and the update of [self] after it. *)
Fixpoint addFrames (frames : list string) (v : Z) (node : treeNode) : treeNode :=
  let 'Node name value self children := node in
  match frames with
  | [] => Node name value (i64 (self + v)) children
  | frame :: frames =>
    let child := default (Node frame 0 0 ∅) (children !! frame) in
    Node name value self (<[frame := addFrames frames v (addValue child v)]> children)
  end.
Fixpoint export `{GoRuntime} (n : treeNode) : CallTreeNode :=
  let 'Node name value self children := n in
  let exported := export <$> children in
  CallTree name value self (omap (λ name, exported !! name) (Strings (map_keys children))).
Definition addSample (root : treeNode) (sample : StackSample) : treeNode := addFrames (Frames sample) (s_Value sample) (addValue root (s_Value sample)).
Definition BuildCallTree `{GoRuntime} (samples : list StackSample) : CallTreeNode :=
  export (fold_left addSample samples (Node "root" 0 0 ∅)).
End Stacks.

Module ProfileFacts.
Export Stacks.

(** The weight of the samples that satisfy a condition. *)
Definition weight (P : StackSample → Prop) `{∀ s, Decision (P s)} (samples : list StackSample) : Z := sum_over s_Value (filter P samples).
Lemma weight_snoc P `{∀ s, Decision (P s)} samples s : weight P (samples ++ [s]) = weight P samples + if decide (P s) then s_Value s else 0.
Proof. unfold weight. rewrite filter_app, sum_over_app, filter_cons, filter_nil. case_decide; cbn; lia. Qed.

(** ** Methods *)

Definition has (f : string) (s : StackSample) : Prop := f ∈ Frames s.
Definition leaf (f : string) (s : StackSample) : Prop := last (Frames s) = Some f.
#[export] Instance has_dec f s : Decision (has f s) := decide (f ∈ Frames s).
#[export] Instance leaf_dec f s : Decision (leaf f s) := decide (last (Frames s) = Some f).

Definition bump (f : string) (v : Z) (at_end : bool) (o : option MethodStat) : MethodStat :=
  let s := default {| m_Name := f; Inclusive := 0; Exclusive := 0 |} o in
  {| m_Name := m_Name s; Inclusive := i64 (Inclusive s + v); Exclusive := if at_end then i64 (Exclusive s + v) else Exclusive s |}.

Lemma frames_loop sample m pre rest : Frames sample = pre ++ rest →
  ∃ m' seen, fold_left (methodStep sample) pre (m, ∅, 0) = (m', seen, len pre) ∧ (∀ f, seen !! f = if decide (f ∈ pre) then Some tt else None) ∧
  ∀ f, m' !! f = if decide (f ∈ pre) then Some (bump f (s_Value sample) (bool_decide (rest = [] ∧ last pre = Some f)) (m !! f)) else m !! f.
Proof.
  revert rest. induction pre as [|x pre IH] using rev_ind; intros rest Hf.
  - exists m, ∅. split; [done|]. split; intros f; by rewrite decide_False by apply not_elem_of_nil.
  - destruct (IH (x :: rest)) as (m' & seen & Hfold & Hs & Hm); [by rewrite Hf, <-app_assoc|]. rewrite fold_left_app, Hfold. cbn [fold_left].
    assert ((len pre =? len (Frames sample) - 1) = bool_decide (rest = [])) as Hi.
    { rewrite Hf. unfold len. rewrite !length_app. cbn [length]. destruct rest as [|y rest]; [rewrite bool_decide_eq_true_2 by done; apply Z.eqb_eq; cbn; lia|].
      rewrite bool_decide_eq_false_2 by done. apply Z.eqb_neq. cbn [length]. lia. }
    unfold methodStep. rewrite Hi, Hs, Hm, len_app. change (len [x]) with 1. clear Hi Hfold IH.
    assert (∀ f, f ∈ pre ++ [x] ↔ f = x ∨ f ∈ pre) as Hin by (intros; rewrite elem_of_app, list_elem_of_singleton; tauto).
    assert (∀ f, bool_decide (x :: rest = [] ∧ last pre = Some f) = false) as Hfalse by (intros; by apply bool_decide_eq_false; intros []).
    assert (∀ f, f ≠ x → bool_decide (rest = [] ∧ last (pre ++ [x]) = Some f) = false) as Hne by (intros; apply bool_decide_eq_false; rewrite last_snoc; intros []; congruence).
    assert (bool_decide (rest = [] ∧ last (pre ++ [x]) = Some x) = bool_decide (rest = [])) as Hx by (apply bool_decide_ext; rewrite last_snoc; tauto).
    rewrite Hfalse. destruct (decide (x ∈ pre)) as [Hp|Hp]; cbn [bool_decide decide_rel].
    + rewrite bool_decide_eq_false_2 by done. eexists _, _. split; [reflexivity|]. split; intros f.
      * rewrite Hs, (decide_ext _ _ _ _ (Hin f)). repeat case_decide; naive_solver.
      * destruct (decide (f = x)) as [->|Hfx]; [|rewrite lookup_insert_ne, Hm, Hfalse, (decide_ext _ _ _ _ (Hin f)), Hne by done; repeat case_decide; naive_solver].
        rewrite lookup_insert_eq, decide_True, Hx by (apply Hin; by left). by destruct (bool_decide (rest = [])).
    + rewrite bool_decide_eq_true_2 by done. eexists _, _. split; [reflexivity|]. split; intros f.
      * destruct (decide (f = x)) as [->|Hfx]; [rewrite lookup_insert_eq, decide_True by (apply Hin; by left); done|]. rewrite lookup_insert_ne, Hs, (decide_ext _ _ _ _ (Hin f)) by done. repeat case_decide; naive_solver.
      * destruct (decide (f = x)) as [->|Hfx]; [|rewrite lookup_insert_ne, Hm, Hfalse, (decide_ext _ _ _ _ (Hin f)), Hne by done; repeat case_decide; naive_solver].
        rewrite lookup_insert_eq, decide_True, Hx by (apply Hin; by left). by destruct (bool_decide (rest = [])).
Qed.
Lemma sampleStep_lookup m s f : sampleStep m s !! f = if decide (has f s) then Some (bump f (s_Value s) (bool_decide (leaf f s)) (m !! f)) else m !! f.
Proof.
  unfold sampleStep. destruct (frames_loop s m (Frames s) []) as (m' & seen & -> & _ & Hm); [by rewrite app_nil_r|]. cbn [fst]. rewrite Hm.
  destruct (decide (has f s)) as [Hh|Hh]; [rewrite decide_True by done|by rewrite decide_False by done]. do 2 f_equal. apply bool_decide_ext. unfold leaf. tauto.
Qed.

Definition method_of (samples : list StackSample) (f : string) : MethodStat :=
  {| m_Name := f; Inclusive := i64 (weight (has f) samples); Exclusive := i64 (weight (leaf f) samples) |}.
Lemma methods_lookup samples f : fold_left sampleStep samples ∅ !! f = if decide (f ∈ concat (Frames <$> samples)) then Some (method_of samples f) else None.
Proof.
  induction samples as [|s samples IH] using rev_ind; [by rewrite decide_False by apply not_elem_of_nil|].
  rewrite fold_left_app. cbn [fold_left]. rewrite sampleStep_lookup, IH. clear IH. unfold method_of. rewrite !weight_snoc, fmap_app, concat_app. cbn [fmap list_fmap concat]. rewrite app_nil_r.
  assert (leaf f s → has f s) as Hl by (intros Hx%last_Some_elem_of; exact Hx).
  assert (f ∉ concat (Frames <$> samples) → weight (has f) samples = 0 ∧ weight (leaf f) samples = 0) as H0.
  { intros Hn. unfold weight. assert (∀ t, t ∈ samples → has f t → False) as Hno.
    { intros t Ht Hf. apply Hn. apply list_elem_of_In, in_concat. exists (Frames t). split; apply list_elem_of_In; [by apply list_elem_of_fmap_2|done]. }
    rewrite !list_filter_none; [done| |done]. intros t Ht Hx%last_Some_elem_of. by apply (Hno t). }
  destruct (decide (f ∈ concat (Frames <$> samples))) as [Hin|Hin].
  - rewrite (decide_True (P := f ∈ _ ++ _)) by (apply elem_of_app; by left). case_decide as Hh; unfold bump; cbn.
    + f_equal. rewrite i64_add. case_bool_decide; [rewrite decide_True by done|rewrite decide_False by done; rewrite Z.add_0_r]; rewrite ?i64_add; done.
    + rewrite decide_False by auto. by rewrite !Z.add_0_r.
  - destruct (H0 Hin) as [-> ->]. case_decide as Hh.
    + rewrite decide_True by (apply elem_of_app; by right). unfold bump. cbn. f_equal. case_bool_decide; [rewrite decide_True by done|rewrite decide_False by done]; done.
    + rewrite decide_False by (rewrite elem_of_app; tauto). done.
Qed.

Lemma methodLess_lex a b : methodLess a b = (Inclusive b <? Inclusive a) || (negb (Inclusive a <? Inclusive b) && String.ltb (m_Name a) (m_Name b)).
Proof. unfold methodLess. destruct (Z.eqb_spec (Inclusive a) (Inclusive b)) as [->|Hn]; cbn; [by rewrite Z.ltb_irrefl|]. destruct (Z.ltb_spec (Inclusive b) (Inclusive a)); [done|]. rewrite (proj2 (Z.ltb_lt _ _)) by lia. done. Qed.
Lemma methodLess_weak : strict_weak methodLess.
Proof.
  apply (strict_weak_ext _ _ methodLess_lex), strict_weak_lex; [|apply (strict_weak_key m_Name), strict_weak_string].
  split; intros *; rewrite ?Z.ltb_lt, ?Z.ltb_ge; lia.
Qed.
(** Larger first, then by name. *)
Definition hotter (a b : MethodStat) : Prop := Inclusive b < Inclusive a ∨ Inclusive a = Inclusive b ∧ String.ltb (m_Name a) (m_Name b) = true.

(** ** The call tree *)

Definition n_name (n : treeNode) : string := let 'Node name _ _ _ := n in name.
Definition n_children (n : treeNode) : gmap string treeNode := let 'Node _ _ _ ch := n in ch.
Definition n_stat (n : treeNode) : string * Z * Z := let 'Node name value self _ := n in (name, value, self).
Fixpoint n_at (n : treeNode) (p : list string) : option treeNode :=
  match p with [] => Some n | f :: p => match n_children n !! f with Some c => n_at c p | None => None end end.

Definition t_name (t : CallTreeNode) : string := let 'CallTree name _ _ _ := t in name.
Definition t_value (t : CallTreeNode) : Z := let 'CallTree _ value _ _ := t in value.
Definition t_children (t : CallTreeNode) : list CallTreeNode := let 'CallTree _ _ _ cs := t in cs.
Definition t_stat (t : CallTreeNode) : string * Z * Z := let 'CallTree name value self _ := t in (name, value, self).
(** The node under a path of frames. *)
Fixpoint t_at (t : CallTreeNode) (p : list string) : option CallTreeNode :=
  match p with [] => Some t | f :: p => match head (filter (λ c, t_name c = f) (t_children t)) with Some c => t_at c p | None => None end end.

Lemma addFrames_stat fs v n p : n_stat <$> n_at (addFrames fs v (addValue n v)) p =
  if decide (p `prefix_of` fs)
  then let '(nm, val, slf) := default (default (n_name n) (last p), 0, 0) (n_stat <$> n_at n p) in Some (nm, i64 (val + v), if decide (p = fs) then i64 (slf + v) else slf)
  else n_stat <$> n_at n p.
Proof.
  assert (∀ (f h : string) p a b, default a (last (h :: p)) = default b (last (f :: h :: p))) as Hlast by (intros f h q a b; rewrite last_cons_cons; destruct (proj2 (last_is_Some (h :: q)) ltac:(done)) as [x ->]; done).
  revert n p. induction fs as [|g fs IH]; intros [name value self ch] [|f p]; cbn [addValue addFrames n_at n_children].
  - done.
  - rewrite decide_False by (intros []; done). done.
  - rewrite decide_True by apply prefix_nil. cbn. by rewrite decide_False by done.
  - destruct (decide (f = g)) as [->|Hfg].
    + assert (∀ x y : Z, (if decide (g :: p = g :: fs) then x else y) = if decide (p = fs) then x else y) as Hd by (intros; apply decide_ext; naive_solver).
      rewrite lookup_insert_eq, IH. destruct (decide (p `prefix_of` fs)) as [Hp|Hp].
      * rewrite (decide_True (P := g :: p `prefix_of` g :: fs)) by by apply prefix_cons. destruct (ch !! g) as [c|] eqn:E; cbn [default id].
        -- destruct (n_at c p) as [c'|] eqn:Ec; cbn [fmap option_fmap option_map default id]; [destruct (n_stat c') as [[nm val] slf]|]; rewrite Hd; [done|]. destruct p as [|h p]; [done|]. by rewrite (Hlast g h p (n_name c) name).
        -- destruct p as [|h p]; cbn [n_at n_children fmap option_fmap option_map default id n_stat n_name]; rewrite Hd; [done|]. by rewrite (Hlast g h p g name).
      * rewrite decide_False by (intros ?%prefix_cons_inv_2; done). destruct (ch !! g) as [c|]; [done|]. destruct p; [by destruct Hp; apply prefix_nil|done].
    + rewrite lookup_insert_ne by done. rewrite decide_False by (intros ?%prefix_cons_inv_1; done). done.
Qed.

Definition under (p : list string) (s : StackSample) : Prop := p `prefix_of` Frames s.
Definition exactly (p : list string) (s : StackSample) : Prop := p = Frames s.
#[export] Instance under_dec p s : Decision (under p s) := decide (p `prefix_of` Frames s).
#[export] Instance exactly_dec p s : Decision (exactly p s) := decide (p = Frames s).
Definition path_stat (samples : list StackSample) (p : list string) : option (string * Z * Z) :=
  if decide (p ≠ [] ∧ filter (under p) samples = []) then None
  else Some (default "root" (last p), i64 (weight (under p) samples), i64 (weight (exactly p) samples)).
Lemma tree_stat samples p : n_stat <$> n_at (fold_left addSample samples (Node "root" 0 0 ∅)) p = path_stat samples p.
Proof.
  unfold path_stat. assert (∀ samples, n_name (fold_left addSample samples (Node "root" 0 0 ∅)) = "root") as Hroot.
  { intros l. induction l as [|s l IH] using rev_ind; [done|]. rewrite fold_left_app. cbn [fold_left]. revert IH. destruct (fold_left addSample l _) as [nm v sf ch]. cbn. intros ->. unfold addSample. cbn. by destruct (Frames s). }
  induction samples as [|s samples IH] using rev_ind.
  - cbn. destruct p; [by rewrite decide_False by naive_solver|by rewrite decide_True by done].
  - rewrite fold_left_app. cbn [fold_left]. unfold addSample at 1. rewrite addFrames_stat, IH, Hroot. clear IH. rewrite !weight_snoc, filter_app, filter_cons, filter_nil.
    change (decide (p `prefix_of` Frames s)) with (decide (under p s)). change (decide (p = Frames s)) with (decide (exactly p s)).
    assert (exactly p s → under p s) as Heu by (unfold exactly, under; intros ->; done).
    assert (filter (under p) samples = [] → weight (under p) samples = 0 ∧ weight (exactly p) samples = 0) as H0.
    { unfold weight. intros Hn. rewrite Hn. split; [done|]. rewrite list_filter_none; [done|]. intros t Ht Hx.
      assert (t ∈ filter (under p) samples) as Hin by (apply list_elem_of_filter; split; [unfold exactly, under in *; by subst|done]). rewrite Hn in Hin. by apply not_elem_of_nil in Hin. }
    destruct (decide (under p s)) as [Hu|Hu].
    + rewrite (decide_False (P := _ ∧ _ ++ [s] = [])) by (intros [_ ?%app_nil]; naive_solver). case_decide as Hd.
      * destruct Hd as [_ Hd]. destruct (H0 Hd) as [-> ->]. cbn. case_decide; done.
      * cbn. rewrite i64_add. repeat case_decide; rewrite ?i64_add, ?Z.add_0_r; done.
    + rewrite app_nil_r. rewrite (decide_False (P := exactly p s)) by tauto. by rewrite !Z.add_0_r.
Qed.

(** *** Weights *)

Lemma i64_sum_over {A} (f : A → Z) l a : i64 (a + sum_over (λ x, i64 (f x)) l) = i64 (a + sum_over f l).
Proof.
  revert a. induction l as [|x l IH]; intros a; [done|]. cbn. rewrite Z.add_assoc, IH. replace (a + i64 (f x) + sum_over f l) with (a + sum_over f l + i64 (f x)) by lia. rewrite i64_add_r. f_equal. lia.
Qed.
(** What runs under a path ends there or goes on with one of the frames. *)
Lemma children_weight p L samples : NoDup L → (∀ s f, s ∈ samples → under (p ++ [f]) s → f ∈ L) →
  weight (under p) samples = weight (exactly p) samples + sum_over (λ f, weight (under (p ++ [f])) samples) L.
Proof.
  intros HL. induction samples as [|s samples IH] using rev_ind; intros Hin; [cbn; rewrite sum_over_zero; done|].
  rewrite !weight_snoc, IH by (intros t f Ht; apply Hin, elem_of_app; by left).
  rewrite (sum_over_ext (λ f, weight (under (p ++ [f])) (samples ++ [s])) (λ f, weight (under (p ++ [f])) samples + if decide (under (p ++ [f]) s) then s_Value s else 0) L) by (intros; apply weight_snoc).
  rewrite sum_over_add. enough ((if decide (under p s) then s_Value s else 0) = (if decide (exactly p s) then s_Value s else 0) + sum_over (λ f, if decide (under (p ++ [f]) s) then s_Value s else 0) L) by lia.
  destruct (decide (under p s)) as [[k Hk]|Hu].
  - assert (∀ f, under (p ++ [f]) s ↔ head k = Some f) as Hf.
    { intros f. unfold under. rewrite Hk. split; [intros [k' Hk']; rewrite <-app_assoc in Hk'; apply app_inv_head in Hk' as ->; done|]. destruct k as [|g k]; intros [= ->]. exists k. by rewrite <-app_assoc. }
    destruct k as [|g k].
    + rewrite decide_True by (unfold exactly; by rewrite Hk, app_nil_r). rewrite (sum_over_ext _ (λ _, 0)), sum_over_zero; [lia|]. intros f _. apply decide_False. by rewrite Hf.
    + rewrite decide_False by (unfold exactly; rewrite Hk; intros E; apply (f_equal length) in E; rewrite length_app in E; cbn in E; lia).
      rewrite (sum_over_change (λ _, 0) _ L g); [|done| |]; [|apply (Hin s g); [apply elem_of_app; right; by left|by apply Hf]|].
      * rewrite sum_over_zero, decide_True by by apply Hf. lia.
      * intros f _ Hne. apply decide_False. rewrite Hf. intros [= ->]. done.
  - rewrite decide_False by (unfold exactly, under in *; intros ->; done). rewrite (sum_over_ext _ (λ _, 0)), sum_over_zero; [lia|]. intros f _. apply decide_False. intros [k Hk]. apply Hu. exists (f :: k). by rewrite Hk, <-app_assoc.
Qed.

(** *** The exported tree *)

Lemma omap_head {A B} (f : A → option B) x l : omap f (x :: l) = match f x with Some y => y :: omap f l | None => omap f l end.
Proof. done. Qed.

Section Export.
Context {R : GoRuntime} {HR : RuntimeOk R}.

Lemma export_eq n : export n = CallTree (n_name n) (n_stat n).1.2 (n_stat n).2 (omap (λ name, export <$> n_children n !! name) (Strings (map_keys (n_children n)))).
Proof. destruct n as [name value self ch]. cbn. f_equal. apply omap_ext_in. intros x _. by rewrite lookup_fmap. Qed.
Lemma export_stat n : t_stat (export n) = n_stat n.
Proof. rewrite export_eq. by destruct n. Qed.
Lemma export_name n : t_name (export n) = n_name n.
Proof. by rewrite export_eq. Qed.

(** Every node is named after its key. *)
Definition named (n : treeNode) : Prop := ∀ p f c, n_at n (p ++ [f]) = Some c → n_name c = f.
Lemma named_child n f c : named n → n_children n !! f = Some c → n_name c = f ∧ named c.
Proof.
  intros Hn Hc. split; [apply (Hn [] f c); cbn; by rewrite Hc|]. intros p g d Hd. apply (Hn (f :: p) g d). cbn. by rewrite Hc.
Qed.
Lemma find_child n ks f : named n → NoDup ks →
  head (filter (λ c, t_name c = f) (omap (λ name, export <$> n_children n !! name) ks)) = if decide (f ∈ ks) then export <$> n_children n !! f else None.
Proof.
  intros Hn. induction 1 as [|k ks Hk Hks IH]; [by rewrite decide_False by apply not_elem_of_nil|]. rewrite omap_head.
  destruct (n_children n !! k) as [c|] eqn:E; [change (export <$> Some c) with (Some (export c))|change (export <$> None) with (@None CallTreeNode)]; cbv beta iota.
  - rewrite filter_cons. destruct (decide (t_name (export c) = f)) as [Hkf|Hkf]; rewrite export_name, (proj1 (named_child n k c Hn E)) in Hkf.
    + subst f. rewrite decide_True by by left. by rewrite E.
    + rewrite IH. apply decide_ext. rewrite elem_of_cons. naive_solver.
  - rewrite IH. destruct (decide (f = k)) as [->|Hkf]; [rewrite decide_False, decide_True by (done || by left); by rewrite E|]. apply decide_ext. rewrite elem_of_cons. naive_solver.
Qed.
Lemma names_NoDup n : NoDup (Strings (map_keys (n_children n))).
Proof. rewrite Strings_perm. apply entries_NoDup. Qed.
Lemma elem_of_names n f : f ∈ Strings (map_keys (n_children n)) ↔ is_Some (n_children n !! f).
Proof. rewrite Strings_perm. apply elem_of_keys. Qed.
Lemma export_at n p : named n → t_at (export n) p = export <$> n_at n p.
Proof.
  revert n. induction p as [|f p IH]; intros n Hn; [done|]. cbn [t_at n_at]. rewrite export_eq. cbn [t_children]. rewrite find_child by (done || apply names_NoDup).
  destruct (n_children n !! f) as [c|] eqn:E.
  - rewrite decide_True by (apply elem_of_names; by eexists). cbn [fmap option_fmap option_map]. apply IH. by apply (named_child n f).
  - rewrite decide_False by (rewrite elem_of_names, E; by intros []). done.
Qed.
Lemma child_names n : named n → t_name <$> t_children (export n) = Strings (map_keys (n_children n)).
Proof.
  intros Hn. rewrite export_eq. cbn [t_children]. assert (∀ f, f ∈ Strings (map_keys (n_children n)) → is_Some (n_children n !! f)) as Hin by (intros; by apply elem_of_names).
  induction (Strings _) as [|k ks IH]; [done|]. destruct (Hin k ltac:(by left)) as [c Hc]. rewrite omap_head, Hc. change (export <$> Some c) with (Some (export c)). cbv beta iota. rewrite fmap_cons, export_name, (proj1 (named_child n k c Hn Hc)). f_equal. apply IH. intros f Hf. apply Hin. by right.
Qed.

Lemma found_child n c : named n → c ∈ t_children (export n) → t_at (export n) [t_name c] = Some c.
Proof.
  intros Hn Hc. rewrite export_at by done. rewrite export_eq in Hc. cbn [t_children] in Hc. apply list_elem_of_omap in Hc as (k & _ & Hk).
  destruct (n_children n !! k) as [c'|] eqn:E; [|done]. injection Hk as <-. rewrite export_name, (proj1 (named_child n k c' Hn E)). cbn. by rewrite E.
Qed.
Lemma t_at_app t p q : t_at t (p ++ q) = t' ← t_at t p; t_at t' q.
Proof. revert t. induction p as [|f p IH]; intros t; [done|]. cbn [app t_at]. destruct (head _) as [c|]; [apply IH|done]. Qed.
Lemma t_at_name t f c : t_at t [f] = Some c → f ∈ t_name <$> t_children t.
Proof.
  cbn. destruct (filter _ (t_children t)) as [|c' cs] eqn:E; [done|]. intros _. assert (c' ∈ filter (λ c, t_name c = f) (t_children t)) as Hin by (rewrite E; by left).
  apply list_elem_of_filter in Hin as [<- Hin]. by apply list_elem_of_fmap_2.
Qed.

Section Tree.
Context (samples : list StackSample).
Abbreviation tree := (fold_left addSample samples (Node "root" 0 0 ∅)).

Lemma tree_named : named tree.
Proof.
  intros p f c Hc. pose proof (tree_stat samples (p ++ [f])) as Hs. rewrite Hc in Hs. unfold path_stat in Hs. case_decide; [done|]. rewrite last_snoc in Hs. cbn in Hs. destruct c. cbn in *. congruence.
Qed.
Lemma built_stat p : t_stat <$> t_at (BuildCallTree samples) p = path_stat samples p.
Proof.
  unfold BuildCallTree. rewrite export_at by apply tree_named. rewrite <-tree_stat. destruct (n_at tree p) as [n|]; cbn [fmap option_fmap option_map]; [by rewrite export_stat|done].
Qed.
Lemma built_node p t : t_at (BuildCallTree samples) p = Some t → ∃ n, t = export n ∧ named n.
Proof.
  unfold BuildCallTree. rewrite export_at by apply tree_named. intros (n & Hn & ->)%fmap_Some_1. exists n. split; [done|].
  intros q f c Hc. apply (tree_named (p ++ q) f c). rewrite <-app_assoc. revert Hn. generalize tree. induction p as [|g p IH]; cbn; [by intros ? [= ->]|]. intros m. destruct (n_children m !! g); [apply IH|done].
Qed.
Lemma built_child p t c : t_at (BuildCallTree samples) p = Some t → c ∈ t_children t → t_value c = i64 (weight (under (p ++ [t_name c])) samples).
Proof.
  intros Ht Hc. pose proof (built_stat (p ++ [t_name c])) as Hs. rewrite t_at_app, Ht in Hs. cbn [mbind option_bind] in Hs.
  destruct (built_node p t Ht) as (n & -> & Hn). rewrite found_child in Hs by done. unfold path_stat in Hs. case_decide; [done|]. destruct c. cbn in *. congruence.
Qed.
Lemma built_names p t s f : t_at (BuildCallTree samples) p = Some t → s ∈ samples → under (p ++ [f]) s → f ∈ t_name <$> t_children t.
Proof.
  intros Ht Hs Hu. pose proof (built_stat (p ++ [f])) as Hst. rewrite t_at_app, Ht in Hst. cbn [mbind option_bind] in Hst. unfold path_stat in Hst. rewrite decide_False in Hst.
  - destruct (t_at t [f]) as [c|] eqn:E; [|done]. by eapply t_at_name.
  - intros [_ Hnil]. assert (s ∈ filter (under (p ++ [f])) samples) as Hin by by apply list_elem_of_filter. rewrite Hnil in Hin. by apply not_elem_of_nil in Hin.
Qed.
End Tree.
End Export.

Lemma StronglySorted_fmap {A B} (P : B → B → Prop) (f : A → B) l : StronglySorted P (f <$> l) → StronglySorted (λ x y, P (f x) (f y)) l.
Proof. induction l as [|x l IH]; [constructor|]. rewrite fmap_cons. intros [Hs Hx]%StronglySorted_inv. constructor; [by apply IH|]. by rewrite Forall_fmap in Hx. Qed.
Lemma children_ascending {R : GoRuntime} {HR : RuntimeOk R} n : named n → ascending t_name (t_children (export n)).
Proof.
  intros Hn. apply (StronglySorted_fmap (λ x y, String.ltb x y = true)). rewrite child_names by done.
  apply (ascending_sort (R := go_runtime) id). rewrite list_fmap_id. apply entries_NoDup.
Qed.

(** ** Collapsed stacks *)

Definition line_of (s : StackSample) : string := Join (Frames s) ";" +:+ " " +:+ itoa (s_Value s).
(** A stack that has a line: its frames are ASCII text without semicolons and line
    ends that neither begins nor ends with space, the line is not a comment and
    fits the buffer of the reader. *)
Record sample_ok (s : StackSample) : Prop := {
  so_frames : Forall (λ f, tight f ∧ is_ascii f = true ∧ no_newline f ∧ free_of ";" f) (Frames s);
  so_head : ∃ f fs, Frames s = f :: fs ∧ HasPrefix f "#" = false;
  so_value : 0 <= s_Value s < 2 ^ 63;
  so_line : strlen (line_of s) < MaxScanTokenSize - 1 }.
(** No frame has a space. *)
Definition unspaced (s : StackSample) : Prop := Forall (free_of " ") (Frames s).
#[export] Instance unspaced_dec s : Decision (unspaced s).
Proof. unfold unspaced, free_of. apply _. Defined.

Lemma frames_text f fs : Forall (λ f, tight f ∧ is_ascii f = true ∧ no_newline f ∧ free_of ";" f) (f :: fs) →
  tight (Join (f :: fs) ";") ∧ is_ascii (Join (f :: fs) ";") = true ∧ no_newline (Join (f :: fs) ";").
Proof.
  revert f. induction fs as [|g fs IH]; intros f Hf; inversion_clear Hf as [|? ? (H1 & H2 & H3 & _) H4]; [done|]. destruct (IH g H4) as (I1 & I2 & I3). rewrite Join_cons by done.
  split_and!; [by apply tight_app|unfold is_ascii in *; by rewrite !str_forall_app, H2, I2|]. apply free_of_app; [done|]. by apply free_of_app.
Qed.
Lemma splitFrames_Join `{Unicode} f fs : Forall (λ f, tight f ∧ free_of ";" f) (f :: fs) → splitFrames (Join (f :: fs) ";") = f :: fs.
Proof.
  intros Hf. unfold splitFrames. rewrite Split_Join; [|by inversion_clear Hf as [|? ? []]|inversion_clear Hf; eapply Forall_impl; [done|]; by intros ? []].
  assert (∀ acc l, Forall (λ f, tight f ∧ free_of ";" f) l → fold_left (λ frames frame, let frame := TrimSpace frame in if bool_decide (frame ≠ "") then frames ++ [frame] else frames) l acc = acc ++ l) as Hfold; [|by apply Hfold].
  intros acc l Hl. revert acc. induction Hl as [|x l [Hx _] Hl IH]; intros acc; cbn [fold_left]; [by rewrite app_nil_r|].
  rewrite trim_tight_0, bool_decide_eq_true_2, IH by (done || by destruct Hx as (? & ? & ? & ? & _ & _ & -> & _)). by rewrite <-app_assoc.
Qed.

(** *** A space in a frame *)

Lemma Cut_split sep s : ¬ free_of sep s → ∃ a b, s = a +:+ String sep b ∧ free_of sep a.
Proof.
  unfold free_of. induction s as [|c s IH]; [done|]. cbn [str_forall]. destruct (Ascii.eqb_spec c sep) as [->|Hc]; cbn [negb andb]; intros Hn; [by exists "", s|].
  destruct (IH Hn) as (a & b & -> & Ha). exists (String c a), b. split; [done|]. cbn [str_forall]. by destruct (Ascii.eqb_spec c sep).
Qed.
Lemma free_of_join_inv sep by_ parts : free_of sep (Join parts by_) → Forall (free_of sep) parts.
Proof.
  unfold free_of. induction parts as [|p parts IH]; [constructor|]. destruct parts as [|q parts]; [by repeat constructor|]. rewrite Join_cons, !str_forall_app by done.
  rewrite !andb_true_iff. intros (H1 & _ & H2). constructor; [done|]. by apply IH.
Qed.
Lemma digits_val_space a b acc : digits_val (a +:+ String " " b) acc = None.
Proof. revert acc. induction a as [|c a IH]; intros acc; [done|]. rewrite str_app_cons. cbn [digits_val]. by destruct (is_digit c). Qed.
(** The end of a tight text, and what trimming leaves of it before a word. *)
Definition tail_ok (y : string) : Prop := ∃ b e, word_char e = true ∧ str_rev y "" = String e b.
Lemma tight_tail x y : tight (x +:+ String " " y) → tail_ok y.
Proof.
  intros (_ & _ & b & e & _ & He & _ & Hr). rewrite str_rev_app_acc in Hr. cbn [str_rev] in Hr. rewrite (str_rev_acc y) in Hr. destruct (str_rev y "") as [|d r] eqn:E.
  - cbn in Hr. injection Hr as <- _. done.
  - injection Hr as <- _. by exists r, d.
Qed.
Lemma trim_left_app y z : tail_ok y → ∃ c a, trim_left (y +:+ z) = String c (a +:+ z) ∧ ∃ pre, y = pre +:+ String c a.
Proof.
  intros (b & e & He & Hr). assert (trim_left y ≠ "") as Hne.
  { intros Hb. assert (str_forall ascii_space y = true) as Hs.
    { clear Hr. induction y as [|c y IH]; [done|]. cbn [trim_left str_forall] in *. destruct (ascii_space c); [by apply IH|done]. }
    assert (str_forall ascii_space (str_rev y "") = true) as Hs'.
    { clear -Hs. assert (∀ acc, str_forall ascii_space acc = true → str_forall ascii_space (str_rev y acc) = true) as H; [|by apply H].
      induction y as [|c y IH]; intros acc Ha; [done|]. cbn [str_forall str_rev] in *. apply andb_prop in Hs as [Hc Hs]. apply IH; [done|]. cbn [str_forall]. by rewrite Hc. }
    rewrite Hr in Hs'. cbn [str_forall] in Hs'. apply andb_prop in Hs' as [Hs' _]. apply word_char_cases in He as [He _]. congruence. }
  clear Hr He. induction y as [|c y IH]; [done|]. rewrite str_app_cons. cbn [trim_left] in *. destruct (ascii_space c).
  - destruct (IH Hne) as (d & a & H1 & pre & ->). exists d, a. split; [done|]. by exists (String c pre).
  - exists c, y. split; [done|]. by exists "".
Qed.
Lemma trim_inner `{Unicode} y w : is_ascii y = true → tail_ok y → word w → ∃ c a, TrimSpace (y +:+ String " " w) = String c a +:+ String " " w.
Proof.
  intros Hasc Hy Hw. destruct (trim_left_app y (String " " w) Hy) as (c & a & Ht & pre & Hpre). exists c, a. unfold TrimSpace. rewrite Ht.
  assert (c2z c < 128) as Hc.
  { rewrite Hpre in Hasc. unfold is_ascii in Hasc. rewrite str_forall_app in Hasc. apply andb_prop in Hasc as [_ Hasc]. by apply andb_prop in Hasc as [?%Z.ltb_lt _]. }
  cbn [head_non_ascii]. rewrite (proj2 (Z.leb_gt _ _)) by done. rewrite <-str_app_cons. destruct (word_tight w Hw) as (_ & _ & b & e & _ & He & _ & Hr).
  change (String " " w) with (" " +:+ w). rewrite <-str_app_assoc, str_rev_app_acc, str_rev_acc, Hr. rewrite str_app_cons. destruct (trim_left_word e (b +:+ str_rev (String c a +:+ " ") "") He) as [-> ->].
  rewrite <-str_app_cons, <-Hr, <-str_rev_acc, <-str_rev_app_acc, str_rev_rev. done.
Qed.
Lemma ParseInt_space c a b : ParseInt (String c a +:+ String " " b) = None.
Proof.
  rewrite str_app_cons. pose proof (digits_val_space a b) as Ha. pose proof (digits_val_space (String c a) b) as Hca. rewrite str_app_cons in Hca.
  set (t := a +:+ String " " b) in *. clearbody t. unfold ParseInt.
  assert ((match c with "-"%char => (true, t) | "+"%char => (false, t) | _ => (false, String c t) end) = (true, t) ∨
    (match c with "-"%char => (true, t) | "+"%char => (false, t) | _ => (false, String c t) end) = (false, t) ∨
    (match c with "-"%char => (true, t) | "+"%char => (false, t) | _ => (false, String c t) end) = (false, String c t)) as Hc.
  { clear. destruct c as [[] [] [] [] [] [] [] []]; auto. }
  destruct Hc as [->|[->| ->]]; [destruct t; [done|]; by rewrite Ha|destruct t; [done|]; by rewrite Ha|by rewrite Hca].
Qed.
Lemma ParseInt_range s z : ParseInt s = Some z → - 2 ^ 63 <= z < 2 ^ 63.
Proof.
  unfold ParseInt. destruct (match s with String _ _ => _ | _ => _ end) as [neg body]. destruct body; [done|]. destruct (digits_val _ 0) as [v|]; [|done]. cbn [mbind option_bind].
  destruct (andb _ _) eqn:E; [|done]. intros [= <-]. apply andb_prop in E as [?%Z.leb_le ?%Z.ltb_lt]. done.
Qed.

Section Lines.
Context {UN : Unicode} {PR : Printable}.

Lemma line_tight s : sample_ok s → tight (line_of s) ∧ tight (Join (Frames s) ";") ∧ is_ascii (Join (Frames s) ";") = true ∧ no_newline (Join (Frames s) ";").
Proof.
  intros [Hf (f & fs & E & _) Hv _]. unfold line_of. rewrite E in *. destruct (frames_text f fs Hf) as (H1 & H2 & H3).
  split; [|done]. apply tight_app; [done|]. apply word_tight, itoa_word. lia.
Qed.
(** The text of a line, cut at its first space. *)
Lemma line_open s : sample_ok s → TrimSpace (line_of s) = line_of s ∧ line_of s ≠ "" ∧ HasPrefix (line_of s) "#" = false.
Proof.
  intros Hs. destruct (line_tight s Hs) as (Ht & (c & a & _ & _ & _ & _ & HJ & _) & _). destruct Hs as [Hf (f & fs & E & Hh) Hv _].
  split; [by apply trim_tight_0|]. split; [by destruct Ht as (? & ? & ? & ? & _ & _ & -> & _)|]. unfold line_of. rewrite HasPrefix_app_short by (rewrite HJ; cbn; lia).
  rewrite E in *. inversion_clear Hf as [|? ? [(? & ? & _ & _ & _ & _ & Hf0 & _) _] _]. destruct fs as [|g fs]; [done|]. rewrite Join_cons, HasPrefix_app_short by (done || (rewrite Hf0; cbn; lia)). done.
Qed.
Lemma stackLine_ok s lineNo samples : sample_ok s → unspaced s → stackLine (lineNo, samples) (line_of s) = Ok (lineNo + 1, samples ++ [s]).
Proof.
  intros Hs Hu. destruct (line_open s Hs) as (Htrim & Hne & Hh). destruct Hs as [Hf (f & fs & E & _) Hv _]. unfold stackLine. rewrite Htrim, Hh, bool_decide_eq_false_2 by done. cbn [orb].
  change (line_of s) with (Join (Frames s) ";" +:+ String " " (itoa (s_Value s))). assert (free_of " " (Join (Frames s) ";")) as Hfree by (by apply free_of_Join).
  rewrite (proj1 (Cut_free " " _ _ Hfree)). rewrite trim_tight_0 by (apply word_tight, itoa_word; lia). rewrite ParseInt_itoa by done. rewrite (proj2 (Z.ltb_ge _ _)) by lia.
  rewrite E in Hf |- *. rewrite splitFrames_Join by (eapply Forall_impl; [done|]; by intros ? (? & _ & _ & ?)). rewrite len_cons, (proj2 (Z.eqb_neq _ _)) by (pose proof (len_nonneg fs); lia). rewrite <-E. by destruct s.
Qed.
Lemma stackLine_spaced s lineNo samples : sample_ok s → ¬ unspaced s → ∃ e, stackLine (lineNo, samples) (line_of s) = Err (Wrapf (stack_error (lineNo + 1) " value: %w") e).
Proof.
  intros Hs Hu. destruct (line_open s Hs) as (Htrim & Hne & Hh). destruct (line_tight s Hs) as (_ & Ht & Hasc & _). pose proof (so_value s Hs) as Hv.
  unfold stackLine. rewrite Htrim, Hh, bool_decide_eq_false_2 by done. cbn [orb].
  destruct (Cut_split " " (Join (Frames s) ";")) as (x & y & HJ & Hx); [intros Hfree; apply Hu; by eapply free_of_join_inv|].
  assert (line_of s = x +:+ String " " (y +:+ String " " (itoa (s_Value s)))) as -> by (unfold line_of; rewrite HJ; by rewrite !str_app_assoc).
  rewrite (proj1 (Cut_free " " _ _ Hx)). rewrite HJ in Ht, Hasc. destruct (trim_inner y (itoa (s_Value s))) as (c & a & ->).
  - unfold is_ascii in Hasc. rewrite str_forall_app in Hasc. cbn [str_forall] in Hasc. apply andb_prop in Hasc as [_ Hasc]. by apply andb_prop in Hasc as [_ ?].
  - by eapply tight_tail.
  - apply itoa_word. lia.
  - rewrite ParseInt_space. by eexists.
Qed.
Lemma stackLines_ok l lineNo samples : Forall sample_ok l → Forall unspaced l → for_each (line_of <$> l) stackLine (lineNo, samples) = Ok (lineNo + len l, samples ++ l).
Proof.
  intros Hl. revert lineNo samples. induction Hl as [|s l Hs Hl IH]; intros lineNo samples Hu; cbn [fmap list_fmap for_each]; [by rewrite app_nil_r, Z.add_0_r|].
  inversion_clear Hu. rewrite stackLine_ok by done. cbn [mbind outcome_bind]. rewrite IH, len_cons, <-app_assoc by done. do 2 f_equal. lia.
Qed.
Lemma stackLines_spaced pre s post lineNo samples : Forall sample_ok pre → Forall unspaced pre → sample_ok s → ¬ unspaced s →
  ∃ e, for_each (line_of <$> pre ++ s :: post) stackLine (lineNo, samples) = Err (Wrapf (stack_error (lineNo + len pre + 1) " value: %w") e).
Proof.
  intros Hl. revert lineNo samples. induction Hl as [|x pre Hx Hl IH]; intros lineNo samples Hu Hs Hn.
  - destruct (stackLine_spaced s lineNo samples Hs Hn) as [e He]. exists e. cbn [app fmap list_fmap for_each]. rewrite He. cbn. by rewrite Z.add_0_r.
  - inversion_clear Hu. destruct (IH (lineNo + 1) (samples ++ [x])) as [e He]; [done..|]. exists e. rewrite <-app_comm_cons. cbn [fmap list_fmap for_each]. rewrite stackLine_ok by done.
    cbn [mbind outcome_bind]. rewrite He, len_cons. do 3 f_equal. lia.
Qed.
Lemma line_plain s : sample_ok s → plain_line (line_of s).
Proof.
  intros Hs. destruct (line_tight s Hs) as (Ht & _ & _ & Hn). split; [|split; [apply Hs|by apply dropCR_tight]]. unfold line_of.
  apply free_of_app; [done|]. apply free_of_app; [done|]. apply word_no_newline. apply itoa_word. apply Hs.
Qed.

(** What a reader accepts has weights in range and no empty stack or frame. *)
Definition sample_sane (s : StackSample) : Prop := 0 <= s_Value s < 2 ^ 63 ∧ Frames s ≠ [] ∧ Forall (λ f, f ≠ "") (Frames s).
Lemma splitFrames_sane stack : Forall (λ f, f ≠ "") (splitFrames stack).
Proof.
  unfold splitFrames. assert (∀ l acc, Forall (λ f, f ≠ "") acc → Forall (λ f, f ≠ "") (fold_left (λ frames frame, let frame := TrimSpace frame in if bool_decide (frame ≠ "") then frames ++ [frame] else frames) l acc)) as H; [|apply H; constructor].
  intros l. induction l as [|x l IH]; intros acc Ha; [done|]. cbn [fold_left]. apply IH. case_bool_decide; [|done]. apply Forall_app. by repeat constructor.
Qed.
Lemma wp_stackLine st text : Forall sample_sane st.2 → wp (stackLine st text) (λ st', Forall sample_sane st'.2).
Proof.
  destruct st as [lineNo samples]. intros Hs. unfold stackLine. case_match; [done|]. destruct (Cut _ _) as [[stack valueText]|]; [|done]. destruct (ParseInt _) as [v|] eqn:Ev; [|done]. case_match eqn:Eneg; [done|].
  pose proof (splitFrames_sane stack) as Hsane. revert Hsane. generalize (splitFrames stack) as frames. intros frames Hsane.
  destruct (Z.eqb_spec (len frames) 0) as [|Hne]; [done|]. cbn. apply Forall_app. split; [done|]. repeat constructor; cbn; [by apply Z.ltb_ge| | |done].
  - apply ParseInt_range in Ev. lia.
  - by intros ->.
Qed.
Lemma wp_ParseCollapsedStacks r : wp (ParseCollapsedStacks r) (Forall sample_sane).
Proof.
  unfold ParseCollapsedStacks. destruct (scan_lines r) as [lines err]. apply wp_bind. assert (∀ st, Forall sample_sane st.2 → wp (for_each lines stackLine st) (λ st', Forall sample_sane st'.2)) as H.
  { induction lines as [|l lines IH]; intros st Hs; [done|]. cbn [for_each]. apply wp_bind. eapply wp_mono; [by apply wp_stackLine|]. apply IH. }
  eapply wp_mono; [by apply H|]. intros [n samples] Hs. by destruct err.
Qed.
End Lines.

(** ** The ranking *)

Lemma methods_perm {R : GoRuntime} {HR : RuntimeOk R} samples :
  (map_entries (fold_left sampleStep samples ∅)).*2 ≡ₚ method_of samples <$> remove_dups (concat (Frames <$> samples)).
Proof.
  set (m := fold_left sampleStep samples ∅). assert (∀ f s, m !! f = Some s → s = method_of samples f ∧ f ∈ concat (Frames <$> samples)) as Hm.
  { intros f s. unfold m. rewrite methods_lookup. case_decide; [|done]. by intros [= <-]. }
  assert ((map_entries m).*2 = method_of samples <$> map_keys m) as ->.
  { unfold map_keys. rewrite <-list_fmap_compose. apply list_fmap_ext. intros i [f s] Hi. apply list_elem_of_lookup_2, elem_of_entries in Hi. by apply Hm in Hi as [-> _]. }
  apply fmap_Permutation, NoDup_Permutation; [apply entries_NoDup|apply NoDup_remove_dups|]. intros f. rewrite elem_of_remove_dups. unfold map_keys. rewrite list_elem_of_fmap. split.
  - intros ([g s] & -> & Hin%elem_of_entries). by apply Hm in Hin as [_ ?].
  - intros Hf. exists (f, method_of samples f). split; [done|]. apply elem_of_entries. unfold m. rewrite methods_lookup. by rewrite decide_True.
Qed.
Lemma hot_sorted {R : GoRuntime} {HR : RuntimeOk R} samples : NoDup (m_Name <$> HotMethods samples) → StronglySorted hotter (HotMethods samples).
Proof.
  unfold HotMethods. intros Hn. pose proof (sort_strongly_sorted _ (map_entries (fold_left sampleStep samples ∅)).*2 methodLess_weak) as Hs.
  induction Hs as [|a l Hs IH Ha]; constructor; rewrite fmap_cons in Hn; inversion_clear Hn as [|? ? Hni Hnl]; [by apply IH|].
  rewrite Forall_forall in Ha |- *. intros b Hb. specialize (Ha b Hb). rewrite methodLess_lex in Ha. apply orb_false_iff in Ha as [H1%Z.ltb_ge H2]. unfold hotter.
  destruct (Z.ltb_spec (Inclusive b) (Inclusive a)); [by left|right]. split; [lia|]. cbn in H2. destruct (String.ltb (m_Name a) (m_Name b)) eqn:E; [done|].
  destruct Hni. rewrite (ltb_antisym _ _ E H2). by apply list_elem_of_fmap_2.
Qed.
End ProfileFacts.

(** ** Properties *)

Import ProfileFacts.

(** C24: stacks of ASCII frames (without semicolons and line ends, no space at their
    ends, on lines that are no comments and below 64 KiB) printed in the
    collapsed format are read back as they are, whatever their number, if no
    frame has a space; if one has, the reader fails with a value error at the
    line of the first such stack.  On every stream the reader ends without a
    panic, with an error or with samples whose weights are non-negative and whose
    stacks and frames are not empty. *)
Theorem collapsed_roundtrip (UN : Unicode) (PR : Printable) samples : Forall sample_ok samples →
  let r := ParseCollapsedStacks (Reader (bytes_of_string (text_of (line_of <$> samples))) io_EOF) in
  (Forall unspaced samples → r = Ok samples) ∧
  (∀ pre s post, samples = pre ++ s :: post → Forall unspaced pre → ¬ unspaced s → ∃ e, r = Err (Wrapf (stack_error (len pre + 1) " value: %w") e)) ∧
  ∀ r, ParseCollapsedStacks r ≠ Panic ∧ ∀ l, ParseCollapsedStacks r = Ok l → Forall sample_sane l.
Proof.
  intros Hs. unfold ParseCollapsedStacks at 1 2. rewrite scan_lines_text by (apply Forall_fmap; eapply Forall_impl; [done|]; exact line_plain). split_and!.
  - intros Hu. by rewrite stackLines_ok.
  - intros pre s post -> Hu Hn. apply Forall_app in Hs as [Hp [Hx _]%Forall_cons]. destruct (stackLines_spaced pre s post 0 [] Hp Hu Hx Hn) as [e He]. exists e. by rewrite He.
  - intros r. pose proof (wp_ParseCollapsedStacks r) as Hw. split; [by eapply wp_no_panic|]. intros l Hl. exact (wp_elim _ _ _ Hw Hl).
Qed.

Lemma hot_methods_spec (R : GoRuntime) (HR : RuntimeOk R) samples :
  HotMethods samples ≡ₚ method_of samples <$> remove_dups (concat (Frames <$> samples)) ∧ StronglySorted hotter (HotMethods samples).
Proof.
  assert (HotMethods samples ≡ₚ method_of samples <$> remove_dups (concat (Frames <$> samples))) as Hp.
  { unfold HotMethods. rewrite sort_perm. apply (methods_perm samples). }
  split; [done|]. apply hot_sorted. rewrite Hp, <-list_fmap_compose. change (NoDup (id <$> remove_dups (concat (Frames <$> samples)))). rewrite list_fmap_id. apply NoDup_remove_dups.
Qed.

Lemma call_tree_spec (R : GoRuntime) (HR : RuntimeOk R) samples :
  (∀ p, t_stat <$> t_at (BuildCallTree samples) p = path_stat samples p) ∧
  ∀ p t, t_at (BuildCallTree samples) p = Some t →
    ascending t_name (t_children t) ∧ (t_stat t).1.2 = i64 ((t_stat t).2 + sum_over t_value (t_children t)).
Proof.
  split; [apply built_stat|]. intros p t Ht. destruct (built_node samples p t Ht) as (n & -> & Hn). split; [by apply children_ascending|].
  assert (NoDup (t_name <$> t_children (export n))) as Hnd by (rewrite child_names by done; apply names_NoDup).
  pose proof (children_weight p _ samples Hnd (λ s f, built_names samples p _ s f Ht)) as Hw. rewrite sum_fmap in Hw.
  pose proof (built_stat samples p) as Hs. rewrite Ht in Hs. unfold path_stat in Hs. case_decide; [done|]. injection Hs as ->. cbn [fst snd].
  rewrite Hw, i64_add. rewrite (sum_over_ext t_value (λ c, i64 (weight (under (p ++ [t_name c])) samples))) by (intros c Hc; by apply (built_child samples p _ c Ht)). by rewrite i64_sum_over.
Qed.

(** C17: the ranking of methods has every frame exactly once, with the weight of the
    samples it is in, however often it recurs in one, and of those it is the leaf
    of, both as 64-bit sums; it is in strictly descending order of the inclusive
    weight, and by name between equal ones, so it does not depend on the order in
    which the map is visited.  The node of the call tree under a path of frames
    exists exactly if some stack runs through it, and has the weight of those that
    do and of those that end there; children are in strictly ascending order of
    their names, and the weight of a node is its own plus that of its children
    (in 64 bits). *)
Theorem profile_exact (R : GoRuntime) (HR : RuntimeOk R) samples :
  HotMethods samples ≡ₚ method_of samples <$> remove_dups (concat (Frames <$> samples)) ∧ StronglySorted hotter (HotMethods samples) ∧
  (∀ p, t_stat <$> t_at (BuildCallTree samples) p = path_stat samples p) ∧
  ∀ p t, t_at (BuildCallTree samples) p = Some t →
    ascending t_name (t_children t) ∧ (t_stat t).1.2 = i64 ((t_stat t).2 + sum_over t_value (t_children t)).
Proof. destruct (hot_methods_spec R HR samples), (call_tree_spec R HR samples). done. Qed.

(** *** Witnesses *)

Definition demo_samples : list StackSample :=
  [{| Frames := ["main"; "run"; "main"]; s_Value := 3 |}; {| Frames := ["main"; "run"]; s_Value := 4 |}; {| Frames := ["idle"]; s_Value := 5 |}].
Lemma demo_samples_ok : Forall sample_ok demo_samples.
Proof.
  assert (∀ s, is_ascii s = true ∧ no_newline s ∧ free_of ";" s → word s → tight s ∧ is_ascii s = true ∧ no_newline s ∧ free_of ";" s) as Hw by (intros; split; [by apply word_tight|done]).
  repeat (apply Forall_cons_2; [split; [repeat (apply Forall_cons_2; [apply Hw; by repeat split|]); apply Forall_nil_2|by eexists _, _|by vm_compute|by vm_compute]|]). apply Forall_nil_2.
Qed.
Lemma collapsed_roundtrip_witness : text_of (line_of <$> demo_samples) = text_of ["main;run;main 3"; "main;run 4"; "idle 5"] ∧
  ParseCollapsedStacks (UN := ascii_only) (PR := ascii_printable) (Reader (bytes_of_string (text_of (line_of <$> demo_samples))) io_EOF) = Ok demo_samples.
Proof.
  split; [by vm_compute|]. apply (collapsed_roundtrip ascii_only ascii_printable demo_samples demo_samples_ok).
  by apply (bool_decide_unpack _).
Defined.
(** A frame as profilers print C++ functions. *)
Example spaced_frame : ∃ e, ParseCollapsedStacks (UN := ascii_only) (PR := ascii_printable) (Reader (bytes_of_string (text_of ["main;run(int, int) 3"])) io_EOF) =
  Err (Wrapf "collapsed stack line 1 value: %w" e).
Proof. eexists. by vm_compute. Qed.
Lemma profile_exact_witness :
  HotMethods (H := go_runtime) demo_samples = [{| m_Name := "main"; Inclusive := 7; Exclusive := 3 |}; {| m_Name := "run"; Inclusive := 7; Exclusive := 4 |}; {| m_Name := "idle"; Inclusive := 5; Exclusive := 5 |}] ∧
  BuildCallTree (H := go_runtime) demo_samples = CallTree "root" 12 0 [CallTree "idle" 5 5 []; CallTree "main" 7 0 [CallTree "run" 7 4 [CallTree "main" 3 3 []]]] ∧
  StronglySorted hotter (HotMethods (H := go_runtime) demo_samples) ∧ t_stat <$> t_at (BuildCallTree (H := go_runtime) demo_samples) ["main"; "run"] = Some ("run", 7, 4).
Proof.
  destruct (profile_exact go_runtime go_runtime_ok demo_samples) as (_ & H1 & H2 & _). split; [by vm_compute|]. split; [by vm_compute|]. split; [exact H1|]. rewrite H2. by vm_compute.
Defined.
