(* ===== verification/SnapshotDiff.v ===== *)
(** * Differences of snapshots

    [src/internal/diff/diff.go]: the sections of changes between two snapshots.
    The records of a snapshot ([src/internal/snapshot], [toolchain], [netstate],
    [updates], ...) have the fields that are compared or rolled up, and where they are few the others. *)

From Stdlib Require Import Ascii.
From S2P Require Import Prelude GoStrings GoRuntime GoSort GoMaps GoTime Float64.

Module Snapshot.

Record SwapUsage := { TotalBytes : Z; UsedBytes : Z; FreeBytes : Z; Encrypted : bool }.
Record MemoryState := { CompressorOccupied : Z; CompressorStored : Z; Swap : SwapUsage; PressureLevel : string }.
Record TMDestination := { d_ID : string; d_Name : string; d_Kind : string; d_MountPoint : string }.
Record TMLocalSnapshot := { l_Name : string; l_Date : time; l_Volume : string }.
Record TimeMachineState := { Destinations : list TMDestination; LocalSnapshots : list TMLocalSnapshot }.
Record HostInfo := {
  Hostname : string; MachineUUID : string; OSName : string; OSVersion : string; OSBuild : string; CPUBrand : string; CPUCores : Z; RAMBytes : Z; Architecture : string;
  UptimeSeconds : Z; SpectraVersion : string;
  Memory : MemoryState; TimeMachine : TimeMachineState }.
Record App := { a_Path : string; BundleID : string; AppVersion : string; TeamID : string; HardenedRuntime : bool; GatekeeperStatus : string }.
Record JDKInstall := {
  InstallID : string; j_Path : string; j_Source : string; VersionMajor : Z; VersionMinor : Z; VersionPatch : Z; Vendor : string; ReleaseString : string; IsActiveJavaHome : bool }.
Record BrewFormula := { b_Name : string; b_Version : string; InstalledVia : string; Deprecated : bool; Pinned : bool }.
Record BrewInventory := { Formulae : list BrewFormula }.
Record RuntimeInstall := { r_Version : string; r_Source : string; r_Path : string; Active : bool }.
Record EnvSnapshot := { PathDirs : list string; JavaHome : string }.
Record Toolchains := {
  Brew : BrewInventory; JDKs : list JDKInstall; Node : list RuntimeInstall; Python : list RuntimeInstall; Go : list RuntimeInstall; Ruby : list RuntimeInstall;
  ActiveJVMManager : string; Env : EnvSnapshot }.
Record ListeningPort := { Port : Z; Proto : string; LocalAddr : string; p_PID : Z; p_Command : string; p_User : string; p_AppPath : string }.
Record NetState := { ListeningPorts : list ListeningPort; VPNActive : bool }.
Record ResourceUsage := { Limit : Z; Current : Z; Pct : f64; Warn : bool; Critical : bool }.
Record SystemLimits_ := { PTY : ResourceUsage; Files : ResourceUsage; FilesPerProc : Z; Procs : ResourceUsage; ProcsPerUID : ResourceUsage }.
Record InstallEntry := { e_Name : string; e_Version : string; e_Source : string; InstallDate : ztime; PackageIDs : list string }.
Record InstallHistory := { Entries : list InstallEntry; CollectedAt : time }.
Record Updates_ := { History : InstallHistory }.
Record Snapshot := {
  ID : string; TakenAt : time; Host : HostInfo; Apps : list App; Toolchains_of : Toolchains; SystemLimits : SystemLimits_; Sysctls : gmap string string;
  Network : NetState; Updates : Updates_ }.
End Snapshot.

Module Diff.
Export Snapshot.

Inductive ChangeKind := Added | Removed | Changed.
Record Change := { Kind : ChangeKind; Key : string; Before_ : string; After_ : string }.
Record Section_ := { s_Name : string; Changes : list Change }.
Record Result := { AID : string; BID : string; Sections : list Section_ }.

Definition change (kind : ChangeKind) (key before after : string) : Change := {| Kind := kind; Key := key; Before_ := before; After_ := after |}.
Definition HasChanges (r : Result) : bool := existsb (λ s, 0 <? Z.of_nat (length (Changes s))) (Sections r).

(** ** The host *)

Definition tmDestinationKeys (s : Snapshot) : list string :=
  Strings (fold_left (λ keys d,
    let key := d_ID d in
    let key := if bool_decide (key = "") then d_Name d else key in
    let key := if bool_decide (key = "") then d_MountPoint d else key in
    if bool_decide (key ≠ "") then keys ++ [key] else keys) (Destinations (TimeMachine (Host s))) []).
Definition tmSnapshotKeys (s : Snapshot) : list string :=
  Strings (fold_left (λ keys snap, if bool_decide (l_Name snap ≠ "") then keys ++ [l_Name snap] else keys) (LocalSnapshots (TimeMachine (Host s))) []).
Definition hostFields (a b : Snapshot) : list (string * string * string) :=
  [("hostname", Hostname (Host a), Hostname (Host b));
   ("os_version", OSVersion (Host a), OSVersion (Host b));
   ("os_build", OSBuild (Host a), OSBuild (Host b));
   ("cpu_brand", CPUBrand (Host a), CPUBrand (Host b));
   ("cpu_cores", itoa (CPUCores (Host a)), itoa (CPUCores (Host b)));
   ("ram_bytes", itoa (RAMBytes (Host a)), itoa (RAMBytes (Host b)));
   ("memory.compressor_occupied", itoa (CompressorOccupied (Memory (Host a))), itoa (CompressorOccupied (Memory (Host b))));
   ("memory.compressor_stored", itoa (CompressorStored (Memory (Host a))), itoa (CompressorStored (Memory (Host b))));
   ("memory.swap_used", itoa (UsedBytes (Swap (Memory (Host a)))), itoa (UsedBytes (Swap (Memory (Host b)))));
   ("memory.pressure_level", PressureLevel (Memory (Host a)), PressureLevel (Memory (Host b)));
   ("time_machine.destinations", Join (tmDestinationKeys a) ",", Join (tmDestinationKeys b) ",");
   ("time_machine.local_snapshots", Join (tmSnapshotKeys a) ",", Join (tmSnapshotKeys b) ",");
   ("arch", Architecture (Host a), Architecture (Host b));
   ("spectra_version", SpectraVersion (Host a), SpectraVersion (Host b))].
Definition diffHost (a b : Snapshot) : Section_ :=
  {| s_Name := "host";
     Changes := fold_left (λ changes '(key, before, after), if bool_decide (before ≠ after) then changes ++ [change Changed key before after] else changes) (hostFields a b) [] |}.

(** ** Sections by key

    The two loops of a section: over the entries of the first map, and over those
    of the second that are not in the first. *)
Definition diffMaps `{GoRuntime} {K V} `{Countable K} (mapA mapB : gmap K V) (removed : K → V → Change) (both : K → V → V → list Change) (added : K → V → Change) : list Change :=
  let changes := fold_left (λ changes '(k, va), match mapB !! k with None => changes ++ [removed k va] | Some vb => changes ++ both k va vb end) (map_entries mapA) [] in
  fold_left (λ changes '(k, vb), match mapA !! k with None => changes ++ [added k vb] | Some _ => changes end) (map_entries mapB) changes.

Record appInfo := { version : string; path : string; hardenedRuntime : bool; gatekeeperStatus : string; teamID : string }.
Definition appKey (r : App) : string := if bool_decide (BundleID r = "") then a_Path r else BundleID r.
Definition appMap (s : Snapshot) : gmap string appInfo :=
  fold_left (λ m r, <[appKey r := {| version := AppVersion r; path := a_Path r; hardenedRuntime := HardenedRuntime r; gatekeeperStatus := GatekeeperStatus r; teamID := TeamID r |}]> m) (Apps s) ∅.
Definition boolString (v : bool) : string := if v then "true" else "false".
Definition teamIDChange (key before after : string) : Change :=
  let before := if bool_decide (before = "") then "(unsigned)" else before in
  let after := if bool_decide (after = "") then "(unsigned)" else after in
  change Changed (key +:+ ":team-id") before after.
Definition appChanges (k : string) (ia ib : appInfo) : list Change :=
  (if bool_decide (version ia ≠ version ib) then [change Changed k (version ia) (version ib)] else []) ++
  (if negb (Bool.eqb (hardenedRuntime ia) (hardenedRuntime ib)) then [change Changed (k +:+ ":hardened-runtime") (boolString (hardenedRuntime ia)) (boolString (hardenedRuntime ib))] else []) ++
  (if bool_decide (gatekeeperStatus ia ≠ gatekeeperStatus ib) && bool_decide (gatekeeperStatus ia ≠ "") && bool_decide (gatekeeperStatus ib ≠ "")
   then [change Changed (k +:+ ":gatekeeper") (gatekeeperStatus ia) (gatekeeperStatus ib)] else []) ++
  (if bool_decide (teamID ia ≠ teamID ib) then [teamIDChange k (teamID ia) (teamID ib)] else []).
Definition diffApps `{GoRuntime} (a b : Snapshot) : Section_ :=
  {| s_Name := "apps"; Changes := diffMaps (appMap a) (appMap b) (λ k ia, change Removed k (version ia) "") appChanges (λ k ib, change Added k "" (version ib)) |}.

Definition jdkKey : Type := Z * Z * Z * string.
Definition jdk_key (j : JDKInstall) : jdkKey := (VersionMajor j, VersionMinor j, VersionPatch j, Vendor j).
Definition jdk_label (j : JDKInstall) : string :=
  itoa (VersionMajor j) +:+ "." +:+ itoa (VersionMinor j) +:+ "." +:+ itoa (VersionPatch j) +:+ "/" +:+ Vendor j +:+ "@" +:+ j_Source j.
Definition jdkSet (s : Snapshot) : gmap jdkKey JDKInstall := fold_left (λ m j, <[jdk_key j := j]> m) (JDKs (Toolchains_of s)) ∅.
Definition diffJDKs `{GoRuntime} (a b : Snapshot) : Section_ :=
  {| s_Name := "jdks"; Changes := diffMaps (jdkSet a) (jdkSet b) (λ _ ja, change Removed (jdk_label ja) (j_Path ja) "") (λ _ _ _, []) (λ _ jb, change Added (jdk_label jb) "" (j_Path jb)) |}.

(** Versions by name, as for formulae and kernel settings. *)
Definition valueChanges (k va vb : string) : list Change := if bool_decide (va ≠ vb) then [change Changed k va vb] else [].
Definition diffValues `{GoRuntime} (mapA mapB : gmap string string) : list Change :=
  diffMaps mapA mapB (λ k va, change Removed k va "") valueChanges (λ k vb, change Added k "" vb).
Definition brewMap (s : Snapshot) : gmap string string := fold_left (λ m f, <[b_Name f := b_Version f]> m) (Formulae (Brew (Toolchains_of s))) ∅.
Definition diffBrewFormulae `{GoRuntime} (a b : Snapshot) : Section_ := {| s_Name := "brew_formulae"; Changes := diffValues (brewMap a) (brewMap b) |}.
Definition diffSysctls `{GoRuntime} (a b : Snapshot) : Section_ := {| s_Name := "sysctls"; Changes := diffValues (Sysctls a) (Sysctls b) |}.

Definition portKey (port proto : string) : string := proto +:+ ":" +:+ port.
Definition portSet (s : Snapshot) : gmap string unit := fold_left (λ m p, <[portKey (itoa (Port p)) (Proto p) := tt]> m) (ListeningPorts (Network s)) ∅.
Definition diffListeningPorts `{GoRuntime} (a b : Snapshot) : Section_ :=
  {| s_Name := "listening_ports"; Changes := diffMaps (portSet a) (portSet b) (λ k _, change Removed k "" "") (λ _ _ _, []) (λ k _, change Added k "" "") |}.

Definition diffVPN (a b : Snapshot) : Section_ :=
  let aActive := VPNActive (Network a) in
  let bActive := VPNActive (Network b) in
  {| s_Name := "vpn"; Changes := if negb (Bool.eqb aActive bActive) then [change Changed "vpn_active" (if aActive then "true" else "false") (if bActive then "true" else "false")] else [] |}.

(** ** The search path *)

(** The position of a directory, of its last occurrence when there are several. *)
Definition positions (dirs : list string) : gmap string Z := (fold_left (λ '(pos, i) d, (<[d := i]> pos, i + 1)) dirs (∅, 0)).1.
Definition pos_text (pos : gmap string Z) (d : string) : string := "pos " +:+ itoa (default 0 (pos !! d)).
Definition diffPathDirs (a b : Snapshot) : Section_ :=
  let pa := PathDirs (Env (Toolchains_of a)) in
  let pb := PathDirs (Env (Toolchains_of b)) in
  let posA := positions pa in
  let posB := positions pb in
  let changes := fold_left (λ changes d, match posB !! d with None => changes ++ [change Removed d (pos_text posA d) ""] | Some _ => changes end) pa [] in
  let changes := fold_left (λ changes d,
    match posA !! d with
    | None => changes ++ [change Added d "" (pos_text posB d)]
    | Some i => if negb (i =? default 0 (posB !! d)) then changes ++ [change Changed d (pos_text posA d) (pos_text posB d)] else changes
    end) pb changes in
  {| s_Name := "path_dirs"; Changes := changes |}.

(** ** Limits, history and runtimes *)

Definition diffSystemLimits (a b : Snapshot) : Section_ :=
  let la := SystemLimits a in
  let lb := SystemLimits b in
  let rows := [("pty", Pct (PTY la), Pct (PTY lb)); ("files", Pct (Files la), Pct (Files lb)); ("procs", Pct (Procs la), Pct (Procs lb)); ("procs_per_uid", Pct (ProcsPerUID la), Pct (ProcsPerUID lb))] in
  {| s_Name := "system_limits";
     Changes := fold_left (λ changes '(name, ra, rb),
       if bool_decide (fmt_f 1 ra ≠ fmt_f 1 rb) then changes ++ [change Changed (name +:+ ":pct") (fmt_f 1 ra) (fmt_f 1 rb)] else changes) rows [] |}.

Definition NUL : string := String (z2c 0) "".
Definition installEntryKey (entry : InstallEntry) : string :=
  Join [e_Name entry; e_Version entry; e_Source entry; FormatNanoUTC (InstallDate entry); Join (PackageIDs entry) ","] NUL.
(** The separator is a middle dot between spaces. *)
Definition middle_dot : string := String (z2c 32) (String (z2c 194) (String (z2c 183) " ")).
Definition installEntryLabel (entry : InstallEntry) : string :=
  let parts := [FormatDateTime (InstallDate entry)] in
  let parts := if bool_decide (e_Version entry ≠ "") then parts ++ ["version " +:+ e_Version entry] else parts in
  let parts := if bool_decide (e_Source entry ≠ "") then parts ++ [e_Source entry] else parts in
  Join parts middle_dot.
Definition diffInstallHistory (a b : Snapshot) : Section_ :=
  let seen := fold_left (λ m entry, <[installEntryKey entry := tt]> m) (Entries (History (Updates a))) (∅ : gmap string unit) in
  {| s_Name := "install_history";
     Changes := fold_left (λ changes entry,
       match seen !! installEntryKey entry with Some _ => changes | None => changes ++ [change Added (e_Name entry) "" (installEntryLabel entry)] end)
       (Entries (History (Updates b))) [] |}.

Fixpoint activeVersion (runtimes : list RuntimeInstall) : string :=
  match runtimes with [] => "" | r :: runtimes => if Active r then r_Version r else activeVersion runtimes end.
Definition runtimeChange (changes : list Change) (l : string * list RuntimeInstall * list RuntimeInstall) : list Change :=
  let '(name, aSlice, bSlice) := l in
  let va := activeVersion aSlice in
  let vb := activeVersion bSlice in
  if bool_decide (va = vb) then changes else
  if bool_decide (va = "") && bool_decide (vb ≠ "") then changes ++ [change Added name "" vb] else
  if bool_decide (va ≠ "") && bool_decide (vb = "") then changes ++ [change Removed name va ""] else
  changes ++ [change Changed name va vb].
Definition diffActiveRuntimes (a b : Snapshot) : Section_ :=
  let ta := Toolchains_of a in
  let tb := Toolchains_of b in
  {| s_Name := "active_runtimes"; Changes := fold_left runtimeChange [("node", Node ta, Node tb); ("python", Python ta, Python tb); ("go", Go ta, Go tb); ("ruby", Ruby ta, Ruby tb)] [] |}.

Definition Compare `{GoRuntime} (a b : Snapshot) : Result :=
  {| AID := ID a; BID := ID b;
     Sections := [diffHost a b; diffApps a b; diffJDKs a b; diffBrewFormulae a b; diffActiveRuntimes a b; diffListeningPorts a b; diffVPN a b; diffPathDirs a b;
       diffSystemLimits a b; diffSysctls a b; diffInstallHistory a b] |}.
End Diff.

Module DiffFacts.
Export Diff.

(** ** Sections by key *)

Section Maps.
Context {R : GoRuntime} {HR : RuntimeOk R} {K V : Type} `{Countable K}.
Context (removed : K → V → Change) (both : K → V → V → list Change) (added : K → V → Change).

Definition of_first (mapB : gmap K V) (e : K * V) : list Change := match mapB !! e.1 with None => [removed e.1 e.2] | Some vb => both e.1 e.2 vb end.
Definition of_second (mapA : gmap K V) (e : K * V) : list Change := match mapA !! e.1 with None => [added e.1 e.2] | Some _ => [] end.
Lemma diffMaps_eq mapA mapB : diffMaps mapA mapB removed both added = concat (of_first mapB <$> map_entries mapA) ++ concat (of_second mapA <$> map_entries mapB).
Proof.
  unfold diffMaps. rewrite (fold_left_append _ (of_second mapA)) by (intros acc [k v]; unfold of_second; cbn; destruct (mapA !! k); [by rewrite app_nil_r|done]).
  by rewrite (fold_left_append _ (of_first mapB)) by (intros acc [k v]; unfold of_first; cbn; by destruct (mapB !! k)).
Qed.
(** Nothing is reported exactly if the keys are the same and so are their values. *)
Lemma diffMaps_nil mapA mapB : diffMaps mapA mapB removed both added = [] ↔
  ∀ k, match mapA !! k, mapB !! k with Some va, Some vb => both k va vb = [] | None, None => True | _, _ => False end.
Proof.
  rewrite diffMaps_eq, app_nil, !concat_nil_iff. unfold of_first, of_second. split.
  - intros [H1 H2] k. destruct (mapA !! k) as [va|] eqn:Ea.
    + specialize (H1 (k, va) ltac:(by apply elem_of_entries)). cbn in H1. by destruct (mapB !! k).
    + destruct (mapB !! k) as [vb|] eqn:Eb; [|done]. specialize (H2 (k, vb) ltac:(by apply elem_of_entries)). cbn in H2. by rewrite Ea in H2.
  - intros Hk. split; intros [k v] Hin%elem_of_entries; specialize (Hk k); rewrite Hin in Hk; cbn.
    + revert Hk. by destruct (mapB !! k).
    + revert Hk. by destruct (mapA !! k).
Qed.
End Maps.

(** The same change seen from the other side. *)
Definition flip_kind (k : ChangeKind) : ChangeKind := match k with Added => Removed | Removed => Added | Changed => Changed end.
Definition flip (c : Change) : Change := {| Kind := flip_kind (Kind c); Key := Key c; Before_ := After_ c; After_ := Before_ c |}.

Section Flip.
Context {R : GoRuntime} {HR : RuntimeOk R} {K V : Type} `{Countable K}.

Lemma concat_filter {A B} (f : A → list B) (P : A → Prop) `{∀ x, Decision (P x)} l : (∀ x, x ∈ l → ¬ P x → f x = []) → concat (f <$> l) = concat (f <$> filter P l).
Proof.
  induction l as [|x l IH]; intros Hf; [done|]. rewrite filter_cons, fmap_cons. cbn [concat]. rewrite IH by set_solver. case_decide; [by rewrite fmap_cons|]. by rewrite Hf by (done || set_solver).
Qed.
Lemma concat_split {A B} (f g h : A → list B) l : (∀ x, x ∈ l → f x = g x ++ h x) → concat (f <$> l) ≡ₚ concat (g <$> l) ++ concat (h <$> l).
Proof.
  induction l as [|x l IH]; intros Hf; [done|]. rewrite !fmap_cons. cbn [concat]. rewrite Hf by set_solver. rewrite IH by set_solver. rewrite <-!app_assoc. apply Permutation_app_head.
  rewrite !app_assoc. apply Permutation_app_tail, Permutation_app_comm.
Qed.
(** What both maps have, from either side. *)
Lemma common_perm {B} (F : K → V → V → list B) (mapA mapB : gmap K V) :
  concat ((λ e, match mapB !! e.1 with Some vb => F e.1 e.2 vb | None => [] end) <$> map_entries mapA) ≡ₚ
  concat ((λ e, match mapA !! e.1 with Some va => F e.1 va e.2 | None => [] end) <$> map_entries mapB).
Proof.
  set (G := λ k, match mapA !! k, mapB !! k with Some va, Some vb => F k va vb | _, _ => [] end).
  assert (∀ (f : K * V → list B) (m : gmap K V), (∀ k v, m !! k = Some v → f (k, v) = G k) → concat (f <$> map_entries m) = concat (G <$> map_keys m)) as Hkeys.
  { intros f m Hf. unfold map_keys. rewrite <-list_fmap_compose. f_equal. apply list_fmap_ext. intros i [k v] Hi. apply Hf, elem_of_entries. by eapply list_elem_of_lookup_2. }
  rewrite (Hkeys _ mapA), (Hkeys _ mapB).
  - rewrite (concat_filter G (λ k, is_Some (mapB !! k)) (map_keys mapA)), (concat_filter G (λ k, is_Some (mapA !! k)) (map_keys mapB)).
    + apply concat_perm, NoDup_Permutation; [apply NoDup_filter, entries_NoDup..|]. intros k. rewrite !list_elem_of_filter, !elem_of_keys. tauto.
    + intros k _ Hn. unfold G. destruct (mapA !! k); [by destruct Hn|done].
    + intros k _ Hn. unfold G. destruct (mapA !! k), (mapB !! k); try done. by destruct Hn.
  - intros k v Hv. unfold G. cbn. rewrite Hv. by destruct (mapA !! k).
  - intros k v Hv. unfold G. cbn. rewrite Hv. by destruct (mapB !! k).
Qed.
Lemma diffMaps_flip (removed added : K → V → Change) (both : K → V → V → list Change) mapA mapB :
  (∀ k v, flip (removed k v) = added k v ∧ flip (added k v) = removed k v) → (∀ k va vb, both k vb va = flip <$> both k va vb) →
  diffMaps mapB mapA removed both added ≡ₚ flip <$> diffMaps mapA mapB removed both added.
Proof.
  intros Hf Hb. rewrite !diffMaps_eq, fmap_app.
  set (only := λ (f : K → V → Change) (m : gmap K V) (e : K * V), match m !! e.1 with None => [f e.1 e.2] | Some _ => [] end).
  set (shared := λ (m : gmap K V) (e : K * V), match m !! e.1 with Some v => both e.1 e.2 v | None => [] end).
  rewrite (concat_split (of_first removed both mapA) (only removed mapA) (shared mapA)) by (intros [k v] _; unfold of_first, only, shared; cbn; destruct (mapA !! k); by rewrite ?app_nil_r).
  assert (∀ (f : K * V → list Change) l, flip <$> concat (f <$> l) = concat ((λ e, flip <$> f e) <$> l)) as Hc.
  { intros f l. induction l as [|x l IH]; [done|]. rewrite !fmap_cons. cbn [concat]. by rewrite fmap_app, IH. }
  rewrite !Hc. rewrite (concat_split (λ e, flip <$> of_first removed both mapB e) (only added mapB) (λ e, flip <$> shared mapB e)).
  2: { intros [k v] _. unfold of_first, only, shared. cbn [fst snd]. destruct (mapB !! k); [done|]. cbn [fmap list_fmap app]. by rewrite (proj1 (Hf k v)). }
  assert (concat (shared mapA <$> map_entries mapB) ≡ₚ concat ((λ e, flip <$> shared mapB e) <$> map_entries mapA)) as Hs.
  { unfold shared. rewrite (common_perm (λ k vb va, both k vb va) mapB mapA). apply reflexive_eq. f_equal. apply list_fmap_ext. intros i [k v] _. cbn. by destruct (mapB !! k). }
  assert (concat (of_second added mapB <$> map_entries mapA) = concat (only added mapB <$> map_entries mapA)) as -> by done.
  assert (concat ((λ e, flip <$> of_second added mapA e) <$> map_entries mapB) = concat (only removed mapA <$> map_entries mapB)) as ->.
  { f_equal. apply list_fmap_ext. intros i [k v] _. unfold of_second, only. cbn [fst snd]. destruct (mapA !! k); [done|]. cbn [fmap list_fmap]. by rewrite (proj2 (Hf k v)). }
  rewrite Hs. set (X := concat (only removed mapA <$> _)). set (Y := concat (only added mapB <$> _)). set (Z := concat ((λ e, flip <$> shared mapB e) <$> _)).
  rewrite <-!app_assoc. rewrite (Permutation_app_comm X (Z ++ Y)), (Permutation_app_comm Z Y). by rewrite <-app_assoc.
Qed.
End Flip.

(** ** What is compared *)

(** The two snapshots agree on everything that a comparison looks at. *)
Record same_view (a b : Snapshot) : Prop := {
  sv_host : ∀ key x y, (key, x, y) ∈ hostFields a b → x = y;
  sv_apps : ∀ k, match appMap a !! k, appMap b !! k with
    | Some ia, Some ib => version ia = version ib ∧ hardenedRuntime ia = hardenedRuntime ib ∧ teamID ia = teamID ib ∧
        (gatekeeperStatus ia = gatekeeperStatus ib ∨ gatekeeperStatus ia = "" ∨ gatekeeperStatus ib = "")
    | None, None => True | _, _ => False end;
  sv_jdks : ∀ k, is_Some (jdkSet a !! k) ↔ is_Some (jdkSet b !! k);
  sv_brew : brewMap a = brewMap b;
  sv_runtimes : ∀ lang, lang ∈ [Node; Python; Go; Ruby] → activeVersion (lang (Toolchains_of a)) = activeVersion (lang (Toolchains_of b));
  sv_ports : portSet a = portSet b;
  sv_vpn : VPNActive (Network a) = VPNActive (Network b);
  sv_path : positions (PathDirs (Env (Toolchains_of a))) = positions (PathDirs (Env (Toolchains_of b)));
  sv_limits : ∀ limit, limit ∈ [PTY; Files; Procs; ProcsPerUID] → fmt_f 1 (Pct (limit (SystemLimits a))) = fmt_f 1 (Pct (limit (SystemLimits b)));
  sv_sysctls : Sysctls a = Sysctls b;
  sv_history : ∀ e, e ∈ Entries (History (Updates b)) → installEntryKey e ∈ installEntryKey <$> Entries (History (Updates a)) }.

Lemma HasChanges_false r : HasChanges r = false ↔ ∀ s, s ∈ Sections r → Changes s = [].
Proof.
  unfold HasChanges. rewrite <-Bool.not_true_iff_false, existsb_exists. split.
  - intros Hn s Hs. destruct (Changes s) as [|c cs] eqn:E; [done|]. destruct Hn. exists s. rewrite <-list_elem_of_In, E. done.
  - intros Hs (s & Hin%list_elem_of_In & Hc). by rewrite (Hs s Hin) in Hc.
Qed.

Definition field_changes (f : string * string * string) : list Change := let '(key, x, y) := f in if bool_decide (x ≠ y) then [change Changed key x y] else [].
Lemma diffHost_eq a b : Changes (diffHost a b) = concat (field_changes <$> hostFields a b).
Proof. unfold diffHost. cbn [Changes]. by rewrite (fold_left_append _ field_changes) by (intros acc [[key x] y]; cbn; case_bool_decide; by rewrite ?app_nil_r). Qed.
Lemma diffHost_nil a b : Changes (diffHost a b) = [] ↔ ∀ key x y, (key, x, y) ∈ hostFields a b → x = y.
Proof.
  rewrite diffHost_eq, concat_nil_iff. split.
  - intros Hf key x y Hin. specialize (Hf _ Hin). cbn in Hf. case_bool_decide as Hd; [done|]. exact Hd.
  - intros Hf [[key x] y] Hin. cbn. by rewrite bool_decide_eq_false_2 by (intros Hn; apply Hn; by eapply Hf).
Qed.

Lemma appChanges_nil k ia ib : appChanges k ia ib = [] ↔ version ia = version ib ∧ hardenedRuntime ia = hardenedRuntime ib ∧ teamID ia = teamID ib ∧
  (gatekeeperStatus ia = gatekeeperStatus ib ∨ gatekeeperStatus ia = "" ∨ gatekeeperStatus ib = "").
Proof.
  unfold appChanges. rewrite !app_nil. repeat case_bool_decide; destruct (Bool.eqb_spec (hardenedRuntime ia) (hardenedRuntime ib)); cbn; naive_solver.
Qed.
Lemma diffValues_nil {R : GoRuntime} {HR : RuntimeOk R} (mapA mapB : gmap string string) : diffValues mapA mapB = [] ↔ mapA = mapB.
Proof.
  unfold diffValues. rewrite diffMaps_nil. split.
  - intros Hk. apply map_eq. intros k. specialize (Hk k). destruct (mapA !! k) as [va|], (mapB !! k) as [vb|]; try done. unfold valueChanges in Hk. case_bool_decide as Hd; [done|]. by f_equal.
  - intros -> k. destruct (mapB !! k); [|done]. unfold valueChanges. by rewrite bool_decide_eq_false_2 by (intros Hn; by apply Hn).
Qed.
Lemma diffKeys_nil {R : GoRuntime} {HR : RuntimeOk R} {K V} `{Countable K} (mapA mapB : gmap K V) (removed added : K → V → Change) :
  diffMaps mapA mapB removed (λ _ _ _, []) added = [] ↔ ∀ k, is_Some (mapA !! k) ↔ is_Some (mapB !! k).
Proof.
  rewrite diffMaps_nil. split; intros Hk k; specialize (Hk k); destruct (mapA !! k) as [va|], (mapB !! k) as [vb|]; rewrite <-?not_eq_None_Some in *; naive_solver.
Qed.
Lemma unit_map_eq {K} `{Countable K} (mapA mapB : gmap K unit) : mapA = mapB ↔ ∀ k, is_Some (mapA !! k) ↔ is_Some (mapB !! k).
Proof.
  split; [by intros ->|]. intros Hk. apply map_eq. intros k. specialize (Hk k). destruct (mapA !! k) as [[]|], (mapB !! k) as [[]|]; try done; rewrite <-?not_eq_None_Some in Hk; naive_solver.
Qed.

(** ** The search path *)

Lemma positions_snoc dirs d : positions (dirs ++ [d]) = <[d := Z.of_nat (length dirs)]> (positions dirs).
Proof.
  unfold positions. rewrite fold_left_app. assert (∀ (dirs : list string) (st : gmap string Z * Z), (fold_left (λ '(pos, i) d, (<[d := i]> pos, i + 1)) dirs st).2 = st.2 + Z.of_nat (length dirs)) as Hi.
  { clear. intros dirs. induction dirs as [|x dirs IH]; intros [pos i]; cbn [fold_left length snd]; [lia|]. rewrite IH. cbn. lia. }
  specialize (Hi dirs ((∅ : gmap string Z), 0)). destruct (fold_left _ dirs _) as [pos i]. cbn in Hi |- *. by subst.
Qed.
Lemma positions_some dirs d : is_Some (positions dirs !! d) ↔ d ∈ dirs.
Proof.
  induction dirs as [|x dirs IH] using rev_ind; [split; [by intros []|by intros ?%not_elem_of_nil]|]. rewrite positions_snoc, lookup_insert_is_Some', IH, elem_of_app, list_elem_of_singleton. naive_solver.
Qed.
(** Without duplicates the positions determine the list. *)
Lemma positions_lookup dirs i d : NoDup dirs → dirs !! i = Some d → positions dirs !! d = Some (Z.of_nat i).
Proof.
  intros Hn Hi. induction dirs as [|x dirs IH] using rev_ind; [done|]. apply NoDup_app in Hn as (Hn & Hx & _). rewrite positions_snoc.
  apply lookup_app_Some in Hi as [Hi|[Hge Hi]].
  - rewrite lookup_insert_ne by (intros <-; apply (Hx x); [by eapply list_elem_of_lookup_2|by left]). by apply IH.
  - apply list_lookup_singleton_Some in Hi as [Hi <-]. rewrite lookup_insert_eq. do 2 f_equal. lia.
Qed.
Lemma positions_inj p q : NoDup p → NoDup q → positions p = positions q → p = q.
Proof.
  intros Hp Hq He. assert (∀ p q, NoDup p → NoDup q → positions p = positions q → ∀ i d, p !! i = Some d → q !! i = Some d) as Hone.
  { clear. intros p q Hp Hq He i d Hi. apply (positions_lookup p i d Hp) in Hi. rewrite He in Hi. assert (d ∈ q) as [j Hj]%list_elem_of_lookup by (apply positions_some; by eexists).
    rewrite (positions_lookup q j d Hq Hj) in Hi. injection Hi as Hij. by replace i with j by lia. }
  apply list_eq. intros i. destruct (p !! i) as [d|] eqn:E; [symmetry; by apply (Hone p q)|]. destruct (q !! i) as [d|] eqn:E2; [|done]. rewrite (Hone q p Hq Hp (eq_sym He) i d E2) in E. done.
Qed.

Definition lost_dir (posA posB : gmap string Z) (d : string) : list Change := match posB !! d with None => [change Removed d (pos_text posA d) ""] | Some _ => [] end.
Definition new_dir (posA posB : gmap string Z) (d : string) : list Change :=
  match posA !! d with None => [change Added d "" (pos_text posB d)] | Some i => if negb (i =? default 0 (posB !! d)) then [change Changed d (pos_text posA d) (pos_text posB d)] else [] end.
Lemma diffPathDirs_nil a b : Changes (diffPathDirs a b) = [] ↔ positions (PathDirs (Env (Toolchains_of a))) = positions (PathDirs (Env (Toolchains_of b))).
Proof.
  unfold diffPathDirs. cbn [Changes]. set (pa := PathDirs _). set (pb := PathDirs _).
  rewrite (fold_left_append _ (new_dir (positions pa) (positions pb))) by (intros acc d; unfold new_dir; destruct (positions pa !! d); [case_match|]; by rewrite ?app_nil_r).
  rewrite (fold_left_append _ (lost_dir (positions pa) (positions pb))) by (intros acc d; unfold lost_dir; destruct (positions pb !! d); by rewrite ?app_nil_r).
  cbn [app]. rewrite app_nil, !concat_nil_iff. unfold lost_dir, new_dir. split.
  - intros [H1 H2]. apply map_eq. intros d. destruct (decide (d ∈ pb)) as [Hin|Hin].
    + specialize (H2 d Hin). apply positions_some in Hin as [j Hj]. rewrite Hj in H2 |- *. revert H2. destruct (positions pa !! d) as [i|]; [|done]. cbn. by destruct (Z.eqb_spec i j) as [->|].
    + pose proof Hin as Hno. rewrite <-positions_some, <-eq_None_not_Some in Hno. rewrite Hno. apply eq_None_not_Some. rewrite positions_some. intros Ha. specialize (H1 d Ha). by rewrite Hno in H1.
  - intros He. rewrite <-He. split; intros d Hd; [by apply positions_some in Hd as [i ->]|]. apply positions_some in Hd. rewrite <-He in Hd. destruct Hd as [i ->]. cbn. by rewrite Z.eqb_refl.
Qed.

(** ** Limits, history and runtimes *)

Definition runtime_changes (l : string * list RuntimeInstall * list RuntimeInstall) : list Change := runtimeChange [] l.
Lemma diffActiveRuntimes_eq a b : Changes (diffActiveRuntimes a b) =
  concat ((λ l, runtime_changes (l.1, l.2 (Toolchains_of a), l.2 (Toolchains_of b))) <$> [("node", Node); ("python", Python); ("go", Go); ("ruby", Ruby)]).
Proof.
  assert (∀ acc l, runtimeChange acc l = acc ++ runtime_changes l) as Hr by (intros acc [[name x] y]; unfold runtime_changes, runtimeChange; repeat case_match; by rewrite ?app_nil_r).
  unfold diffActiveRuntimes. cbn [Changes fold_left]. rewrite !Hr. cbn. by rewrite <-!app_assoc, app_nil_r.
Qed.
Lemma runtime_changes_nil name x y : runtime_changes (name, x, y) = [] ↔ activeVersion x = activeVersion y.
Proof. unfold runtime_changes, runtimeChange. repeat case_bool_decide; naive_solver. Qed.
Lemma diffActiveRuntimes_nil a b : Changes (diffActiveRuntimes a b) = [] ↔ ∀ lang, lang ∈ [Node; Python; Go; Ruby] → activeVersion (lang (Toolchains_of a)) = activeVersion (lang (Toolchains_of b)).
Proof.
  rewrite diffActiveRuntimes_eq, concat_nil_iff. split.
  - intros Hf lang Hl. assert (∃ name, (name, lang) ∈ [("node", Node); ("python", Python); ("go", Go); ("ruby", Ruby)]) as [name Hin] by set_solver. by apply (runtime_changes_nil name), (Hf _ Hin).
  - intros Hf [name lang] Hin. apply runtime_changes_nil, Hf. set_solver.
Qed.

Definition limit_changes (row : string * f64 * f64) : list Change :=
  let '(name, ra, rb) := row in if bool_decide (fmt_f 1 ra ≠ fmt_f 1 rb) then [change Changed (name +:+ ":pct") (fmt_f 1 ra) (fmt_f 1 rb)] else [].
Lemma diffSystemLimits_eq a b : Changes (diffSystemLimits a b) =
  concat ((λ l, limit_changes (l.1, Pct (l.2 (SystemLimits a)), Pct (l.2 (SystemLimits b)))) <$> [("pty", PTY); ("files", Files); ("procs", Procs); ("procs_per_uid", ProcsPerUID)]).
Proof.
  unfold diffSystemLimits. cbn [Changes]. rewrite (fold_left_append _ limit_changes) by (intros acc [[name x] y]; unfold limit_changes; case_bool_decide; by rewrite ?app_nil_r). done.
Qed.
Lemma diffSystemLimits_nil a b : Changes (diffSystemLimits a b) = [] ↔
  ∀ limit, limit ∈ [PTY; Files; Procs; ProcsPerUID] → fmt_f 1 (Pct (limit (SystemLimits a))) = fmt_f 1 (Pct (limit (SystemLimits b))).
Proof.
  rewrite diffSystemLimits_eq, concat_nil_iff. unfold limit_changes. split.
  - intros Hf limit Hl. assert (∃ name, (name, limit) ∈ [("pty", PTY); ("files", Files); ("procs", Procs); ("procs_per_uid", ProcsPerUID)]) as [name Hin] by set_solver.
    specialize (Hf _ Hin). cbn [fst snd] in Hf. case_bool_decide as Hd; [done|exact Hd].
  - intros Hf [name limit] Hin. cbn [fst snd]. rewrite bool_decide_eq_false_2; [done|]. intros Hn. apply Hn, Hf. set_solver.
Qed.

Lemma diffInstallHistory_nil a b : Changes (diffInstallHistory a b) = [] ↔
  ∀ e, e ∈ Entries (History (Updates b)) → installEntryKey e ∈ installEntryKey <$> Entries (History (Updates a)).
Proof.
  unfold diffInstallHistory. cbn [Changes]. set (seen := fold_left _ (Entries (History (Updates a))) _).
  assert (∀ k, seen !! k = None ↔ k ∉ installEntryKey <$> Entries (History (Updates a))) as Hs.
  { intros k. unfold seen. rewrite (fill_lookup_empty installEntryKey (λ _, tt)), fmap_None. apply last_with_none. }
  rewrite (fold_left_append _ (λ entry, match seen !! installEntryKey entry with Some _ => [] | None => [change Added (e_Name entry) "" (installEntryLabel entry)] end))
    by (intros acc e; destruct (seen !! installEntryKey e); by rewrite ?app_nil_r).
  cbn [app]. rewrite concat_nil_iff. split; intros Hf e He; specialize (Hf e He).
  - destruct (decide (installEntryKey e ∈ installEntryKey <$> Entries (History (Updates a)))) as [|Hn]; [done|]. apply Hs in Hn. by rewrite Hn in Hf.
  - destruct (seen !! installEntryKey e) eqn:E; [done|]. by apply Hs in E.
Qed.
Lemma diffVPN_nil a b : Changes (diffVPN a b) = [] ↔ VPNActive (Network a) = VPNActive (Network b).
Proof. unfold diffVPN. cbn [Changes]. by destruct (VPNActive (Network a)), (VPNActive (Network b)). Qed.

(** ** The other direction *)

Lemma concat_flip {A} (f g : A → list Change) (l : list A) : (∀ x, g x = flip <$> f x) → concat (g <$> l) = flip <$> concat (f <$> l).
Proof. intros Hf. induction l as [|x l IH]; [done|]. rewrite !fmap_cons. cbn [concat]. by rewrite fmap_app, Hf, IH. Qed.
Lemma field_changes_flip name x y : field_changes (name, y, x) = flip <$> field_changes (name, x, y).
Proof. unfold field_changes. repeat case_bool_decide; congruence || done. Qed.
Lemma limit_changes_flip name x y : limit_changes (name, y, x) = flip <$> limit_changes (name, x, y).
Proof. unfold limit_changes. repeat case_bool_decide; congruence || done. Qed.
Lemma runtime_changes_flip name x y : runtime_changes (name, y, x) = flip <$> runtime_changes (name, x, y).
Proof. unfold runtime_changes, runtimeChange. repeat case_bool_decide; try done; cbn; try congruence; naive_solver. Qed.
Lemma appChanges_flip k ia ib : appChanges k ib ia = flip <$> appChanges k ia ib.
Proof.
  assert (∀ (b c : bool) (l m : list Change), c = b → m = flip <$> l → (if c then m else []) = flip <$> (if b then l else [])) as Hif by (intros [] [] l m; naive_solver).
  unfold appChanges. rewrite !fmap_app. repeat f_equal; apply Hif; try done.
  - apply bool_decide_ext. naive_solver.
  - by destruct (hardenedRuntime ia), (hardenedRuntime ib).
  - repeat case_bool_decide; naive_solver.
  - apply bool_decide_ext. naive_solver.
Qed.

Lemma Compare_flip {R : GoRuntime} {HR : RuntimeOk R} a b : Forall2 (λ s' s, s_Name s' = s_Name s ∧ (s_Name s ∉ ["path_dirs"; "install_history"] → Changes s' ≡ₚ flip <$> Changes s))
  (Sections (Compare b a)) (Sections (Compare a b)).
Proof.
  unfold Compare. cbn [Sections]. repeat (apply Forall2_cons; split; [split; [done|]|]); [intros Hn..|constructor]; try (destruct Hn; set_solver).
  - rewrite !diffHost_eq. apply reflexive_eq. change (hostFields b a) with ((λ t, (t.1.1, t.2, t.1.2)) <$> hostFields a b). rewrite <-list_fmap_compose. apply concat_flip. intros [[name x] y]. apply field_changes_flip.
  - apply diffMaps_flip; [done|]. intros. apply appChanges_flip.
  - by apply diffMaps_flip.
  - apply diffMaps_flip; [done|]. intros k va vb. exact (field_changes_flip k va vb).
  - rewrite !diffActiveRuntimes_eq. apply reflexive_eq, concat_flip. intros. apply runtime_changes_flip.
  - by apply diffMaps_flip.
  - unfold diffVPN. cbn [Changes]. by destruct (VPNActive (Network a)), (VPNActive (Network b)).
  - rewrite !diffSystemLimits_eq. apply reflexive_eq, concat_flip. intros. apply limit_changes_flip.
  - apply diffMaps_flip; [done|]. intros k va vb. exact (field_changes_flip k va vb).
Qed.
Lemma Compare_nil {R : GoRuntime} {HR : RuntimeOk R} a b : HasChanges (Compare a b) = false ↔ same_view a b.
Proof.
  rewrite HasChanges_false. unfold Compare. cbn [Sections].
  pose proof (diffHost_nil a b) as H1. pose proof (diffMaps_nil (λ k ia, change Removed k (version ia) "") appChanges (λ k ib, change Added k "" (version ib)) (appMap a) (appMap b)) as H2.
  pose proof (diffKeys_nil (jdkSet a) (jdkSet b) (λ _ ja, change Removed (jdk_label ja) (j_Path ja) "") (λ _ jb, change Added (jdk_label jb) "" (j_Path jb))) as H3.
  pose proof (diffValues_nil (brewMap a) (brewMap b)) as H4. pose proof (diffActiveRuntimes_nil a b) as H5.
  pose proof (diffKeys_nil (portSet a) (portSet b) (λ k _, change Removed k "" "") (λ k _, change Added k "" "")) as H6. rewrite <-unit_map_eq in H6.
  pose proof (diffVPN_nil a b) as H7. pose proof (diffPathDirs_nil a b) as H8. pose proof (diffSystemLimits_nil a b) as H9.
  pose proof (diffValues_nil (Sysctls a) (Sysctls b)) as H10. pose proof (diffInstallHistory_nil a b) as H11.
  assert (∀ k, match appMap a !! k, appMap b !! k with Some ia, Some ib => appChanges k ia ib = [] | None, None => True | _, _ => False end ↔
    match appMap a !! k, appMap b !! k with
    | Some ia, Some ib => version ia = version ib ∧ hardenedRuntime ia = hardenedRuntime ib ∧ teamID ia = teamID ib ∧ (gatekeeperStatus ia = gatekeeperStatus ib ∨ gatekeeperStatus ia = "" ∨ gatekeeperStatus ib = "")
    | None, None => True | _, _ => False end) as Ha by (intros k; destruct (appMap a !! k), (appMap b !! k); [apply appChanges_nil|done..]).
  setoid_rewrite Ha in H2. clear Ha. rewrite <-Forall_forall, !Forall_cons, Forall_nil.
  unfold diffApps, diffJDKs, diffBrewFormulae, diffListeningPorts, diffSysctls. cbn [Changes]. rewrite H1, H2, H3, H4, H5, H6, H7, H8, H9, H10, H11. split.
  - intros (S1 & S2 & S3 & S4 & S5 & S6 & S7 & S8 & S9 & S10 & S11 & _). by constructor.
  - intros [S1 S2 S3 S4 S5 S6 S7 S8 S9 S10 S11]. done.
Qed.
End DiffFacts.

(** ** Properties *)

Import DiffFacts.

Lemma compare_none {R : GoRuntime} {HR : RuntimeOk R} a b :
  (HasChanges (Compare a b) = false ↔ same_view a b) ∧ HasChanges (Compare a a) = false ∧
  (NoDup (PathDirs (Env (Toolchains_of a))) → NoDup (PathDirs (Env (Toolchains_of b))) → HasChanges (Compare a b) = false →
   PathDirs (Env (Toolchains_of a)) = PathDirs (Env (Toolchains_of b))).
Proof.
  split; [apply Compare_nil|]. split; [apply Compare_nil|].
  - split; try done; [|intros k; destruct (appMap a !! k); naive_solver|intros e He; by apply list_elem_of_fmap_2].
    intros key x y Hin. unfold hostFields in Hin. repeat (apply elem_of_cons in Hin as [Hin|Hin]; [by injection Hin as _ -> ->|]). by apply not_elem_of_nil in Hin.
  - intros Ha Hb Hn. apply Compare_nil in Hn. apply positions_inj; [done|done|]. apply Hn.
Qed.

(** C15: a comparison reports no change exactly if the snapshots agree on what is
    compared: the fields of the host, the last application of every key (an empty
    Gatekeeper status agreeing with any), the identities of JDKs, versions of
    formulae and active runtimes, open ports, the VPN, the position of the last
    occurrence of every directory of the search path, limits to one decimal and
    kernel settings, and if the second has no new installation.  So a snapshot
    does not differ from itself, and search paths without duplicates are equal
    when no change is reported.  Compared the other way round, every section but
    the search path and the history of installations has the same changes seen
    from the other side, in an order that depends on the iteration of maps. *)
Theorem diff_exact (R : GoRuntime) (HR : RuntimeOk R) a b :
  ((HasChanges (Compare a b) = false ↔ same_view a b) ∧ HasChanges (Compare a a) = false ∧
   (NoDup (PathDirs (Env (Toolchains_of a))) → NoDup (PathDirs (Env (Toolchains_of b))) → HasChanges (Compare a b) = false →
    PathDirs (Env (Toolchains_of a)) = PathDirs (Env (Toolchains_of b)))) ∧
  Forall2 (λ s' s, s_Name s' = s_Name s ∧ (s_Name s ∉ ["path_dirs"; "install_history"] → Changes s' ≡ₚ flip <$> Changes s))
    (Sections (Compare b a)) (Sections (Compare a b)).
Proof. split; [apply compare_none|apply Compare_flip]. Qed.

(** *** Witnesses *)

Definition demo_usage : ResourceUsage := {| Limit := 512; Current := 64; Pct := lit 125 10; Warn := false; Critical := false |}.
Definition demo_snapshot (dirs : list string) (apps : list App) (sysctls : gmap string string) : Snapshot :=
  {| ID := "s"; TakenAt := 0;
     Host := {| Hostname := "h"; MachineUUID := ""; OSName := "macOS"; OSVersion := "15.6"; OSBuild := ""; CPUBrand := ""; CPUCores := 8; RAMBytes := 2 ^ 34; Architecture := "arm64"; UptimeSeconds := 60; SpectraVersion := "";
                Memory := {| CompressorOccupied := 0; CompressorStored := 0; Swap := {| TotalBytes := 0; UsedBytes := 0; FreeBytes := 0; Encrypted := true |}; PressureLevel := "Normal" |};
                TimeMachine := {| Destinations := []; LocalSnapshots := [] |} |};
     Apps := apps;
     Toolchains_of := {| Brew := {| Formulae := [] |}; JDKs := []; Node := []; Python := []; Go := []; Ruby := []; ActiveJVMManager := ""; Env := {| PathDirs := dirs; JavaHome := "" |} |};
     SystemLimits := {| PTY := demo_usage; Files := demo_usage; FilesPerProc := 256; Procs := demo_usage; ProcsPerUID := demo_usage |}; Sysctls := sysctls;
     Network := {| ListeningPorts := [{| Port := 22; Proto := "tcp"; LocalAddr := "*"; p_PID := 1; p_Command := "sshd"; p_User := "root"; p_AppPath := "" |}]; VPNActive := false |}; Updates := {| History := {| Entries := []; CollectedAt := 0 |} |} |}.
Definition demo_app (version gatekeeper : string) : App := {| a_Path := "/Applications/A.app"; BundleID := "a"; AppVersion := version; TeamID := "T"; HardenedRuntime := true; GatekeeperStatus := gatekeeper |}.

(** Paths that resolve commands differently can have the same positions. *)
Lemma diff_exact_witness :
  let p := demo_snapshot ["/x"; "/a"; "/x"] [] ∅ in let q := demo_snapshot ["/a"; "/a"; "/x"] [] ∅ in
  let a := demo_snapshot [] [demo_app "1" ""] {["k" := "v"]} in let b := demo_snapshot [] [demo_app "2" "accepted"] ∅ in
  same_view p q ∧ concat (Changes <$> Sections (Compare (H := go_runtime) a b)) = [change Changed "a" "1" "2"; change Removed "k" "v" ""] ∧
  Changes <$> Sections (Compare (H := go_runtime) b a) !! 9%nat = Some [change Added "k" "" "v"].
Proof.
  intros p q a b. split; [|split; [by vm_compute|]].
  - apply (diff_exact go_runtime go_runtime_ok p q). vm_compute. reflexivity.
  - pose proof (proj2 (diff_exact go_runtime go_runtime_ok a b)) as Hf.
    destruct (Forall2_lookup_r _ _ _ 9%nat (diffSysctls (H := go_runtime) a b) Hf eq_refl) as (s & Hs & _ & Hp). rewrite Hs. cbn [fmap option_fmap option_map]. f_equal.
    apply Permutation_singleton_r. rewrite Hp by set_solver. apply reflexive_eq. by vm_compute.
Defined.
