(* ===== verification/Fleet.v ===== *)
(** * Fleets of hosts

    [src/internal/fleet]: the hosts where a rule fires and the drift of versions
    ([fleet.go]), findings over hosts ([rollup_findings.go]), the first snapshot
    with a symptom ([bisect.go]) and the steps to another toolchain
    ([reconcile.go]). *)

From Stdlib Require Import Ascii.
From S2P Require Import Prelude Arrays GoStrings GoRuntime GoSort GoMaps RulesEngine SnapshotDiff.

Module Fleet.
Export Diff.

Abbreviation Rule := (Rules.Rule Snapshot).
Record HostSnapshot := { h_Hostname : string; h_MachineUUID : string; Snap : Snapshot; Empty : bool }.

(** ** Labels *)

Definition shortUUID (u : string) : string := if 8 <? strlen u then str_take 8 u else u.
Definition hostLabel (h : HostSnapshot) (ambiguous : bool) : string :=
  if bool_decide (h_Hostname h = "") then (if bool_decide (h_MachineUUID h ≠ "") then h_MachineUUID h else "unknown-host") else
  if ambiguous && bool_decide (h_MachineUUID h ≠ "") then h_Hostname h +:+ " (" +:+ shortUUID (h_MachineUUID h) +:+ ")" else
  h_Hostname h.
Definition displayLabels (hosts : list HostSnapshot) : list string :=
  let counts := fold_left (λ (counts : gmap string Z) h,
    if bool_decide (h_Hostname h ≠ "") then <[h_Hostname h := default 0 (counts !! h_Hostname h) + 1]> counts else counts) hosts ∅ in
  (λ h, hostLabel h (1 <? default 0 (counts !! h_Hostname h))) <$> hosts.

(** ** Symptoms *)

Record SymptomRollup := { sr_RuleID : string; Firing : list string; Clear : list string; Unknown : list string }.
Definition ruleFires (snap : Snapshot) (ruleID : string) (catalog : list Rule) : bool :=
  existsb (λ f, bool_decide (Rules.RuleID f = ruleID)) (Rules.Evaluate snap catalog).
Definition rollupStep (ruleID : string) (catalog : list Rule) (r : SymptomRollup) (hn : HostSnapshot * string) : SymptomRollup :=
  let '(h, name) := hn in
  if Empty h then {| sr_RuleID := sr_RuleID r; Firing := Firing r; Clear := Clear r; Unknown := Unknown r ++ [name] |} else
  if ruleFires (Snap h) ruleID catalog then {| sr_RuleID := sr_RuleID r; Firing := Firing r ++ [name]; Clear := Clear r; Unknown := Unknown r |} else
  {| sr_RuleID := sr_RuleID r; Firing := Firing r; Clear := Clear r ++ [name]; Unknown := Unknown r |}.
Definition RollupSymptom (hosts : list HostSnapshot) (ruleID : string) (catalog : list Rule) : SymptomRollup :=
  let labels := displayLabels hosts in
  let r := fold_left (rollupStep ruleID catalog) (zip hosts labels) {| sr_RuleID := ruleID; Firing := []; Clear := []; Unknown := [] |} in
  {| sr_RuleID := sr_RuleID r; Firing := Strings (Firing r); Clear := Strings (Clear r); Unknown := Strings (Unknown r) |}.

(** ** Drift *)

Record DriftCell := { dc_Host : string; Value : string }.
Definition driftMatrix `{GoRuntime} (hosts : list HostSnapshot) (value : HostSnapshot → string) : list DriftCell :=
  let labels := displayLabels hosts in
  sort_slice (λ a b, String.ltb (dc_Host a) (dc_Host b)) (zip_with (λ h label, {| dc_Host := label; Value := value h |}) hosts labels).
Definition jdkText (j : JDKInstall) : string :=
  let v := itoa (VersionMajor j) in
  let v := if bool_decide (ReleaseString j ≠ "") then ReleaseString j else v in
  if bool_decide (Vendor j ≠ "") then v +:+ " (" +:+ Vendor j +:+ ")" else v.
Definition jdkValue (h : HostSnapshot) : string :=
  if Empty h then "unknown" else
  let jdks := JDKs (Toolchains_of (Snap h)) in
  if len jdks =? 0 then "none" else
  let '(_, vs) := fold_left (λ '(seen, vs) j,
    let v := jdkText j in
    if bool_decide (seen !! v = None) then (<[v := tt]> seen, vs ++ [v]) else (seen, vs)) jdks ((∅ : gmap string unit), []) in
  Join (Strings vs) ", ".
Fixpoint appVersion (apps : list App) (bundleID : string) : string :=
  match apps with
  | [] => "absent"
  | a :: apps => if bool_decide (BundleID a = bundleID) then (if bool_decide (AppVersion a ≠ "") then AppVersion a else "installed") else appVersion apps bundleID
  end.
Definition appValue (h : HostSnapshot) (bundleID : string) : string := if Empty h then "unknown" else appVersion (Apps (Snap h)) bundleID.
Definition DriftJDK `{GoRuntime} (hosts : list HostSnapshot) : list DriftCell := driftMatrix hosts jdkValue.
Definition DriftApp `{GoRuntime} (hosts : list HostSnapshot) (bundleID : string) : list DriftCell := driftMatrix hosts (λ h, appValue h bundleID).

(** ** Findings over hosts *)

Record FleetFinding := { ff_RuleID : string; ff_Subject : string; ff_Severity : string; ff_Message : string; Hosts : list string }.
(** The findings by key, the hosts seen of each, and the keys in the order in which
    they came. *)
Definition rollupState : Type := gmap string FleetFinding * gmap string (gmap string unit) * list string.
Definition findingKey (f : Rules.Finding) : string := Rules.RuleID f +:+ String (z2c 0) (Rules.Subject f).
Definition addHost (ff : FleetFinding) (label : string) : FleetFinding :=
  {| ff_RuleID := ff_RuleID ff; ff_Subject := ff_Subject ff; ff_Severity := ff_Severity ff; ff_Message := ff_Message ff; Hosts := Hosts ff ++ [label] |}.
Definition findingStep (label : string) (st : rollupState) (f : Rules.Finding) : rollupState :=
  let '(byKey, seen, order) := st in
  let key := findingKey f in
  let '(ff, byKey, seen, order) :=
    match byKey !! key with
    | Some ff => (ff, byKey, seen, order)
    | None =>
      let ff := {| ff_RuleID := Rules.RuleID f; ff_Subject := Rules.Subject f; ff_Severity := Rules.f_Severity f; ff_Message := Rules.f_Message f; Hosts := [] |} in
      (ff, <[key := ff]> byKey, <[key := ∅]> seen, order ++ [key])
    end in
  let s := default ∅ (seen !! key) in
  if bool_decide (s !! label = None) then (<[key := addHost ff label]> byKey, <[key := <[label := tt]> s]> seen, order) else (byKey, seen, order).
Definition hostStep (catalog : list Rule) (st : rollupState) (hl : HostSnapshot * string) : rollupState :=
  let '(h, label) := hl in
  if Empty h then st else fold_left (findingStep label) (Rules.Evaluate (Snap h) catalog) st.
Definition findingSevRank (s : string) : Z :=
  if bool_decide (s = "high") then 0 else if bool_decide (s = "medium") then 1 else if bool_decide (s = "low") then 2 else 3.
Definition fleetLess (a b : FleetFinding) : bool :=
  if negb (len (Hosts a) =? len (Hosts b)) then len (Hosts b) <? len (Hosts a) else
  if negb (findingSevRank (ff_Severity a) =? findingSevRank (ff_Severity b)) then findingSevRank (ff_Severity a) <? findingSevRank (ff_Severity b) else
  String.ltb (ff_RuleID a) (ff_RuleID b).
Definition sortHosts (f : FleetFinding) : FleetFinding :=
  {| ff_RuleID := ff_RuleID f; ff_Subject := ff_Subject f; ff_Severity := ff_Severity f; ff_Message := ff_Message f; Hosts := Strings (Hosts f) |}.
Definition RollupFindings (hosts : list HostSnapshot) (catalog : list Rule) : list FleetFinding :=
  let labels := displayLabels hosts in
  let '(byKey, _, order) := fold_left (hostStep catalog) (zip hosts labels) (∅, ∅, []) in
  SliceStable fleetLess (omap (λ k, sortHosts <$> byKey !! k) order).

(** ** Bisection *)

Record CoChange := { cc_Section : string; cc_Kind : ChangeKind; cc_Key : string; cc_Before : string; cc_After : string }.
Record BisectResult := { Status : string; br_RuleID : string; Snapshots : Z; FirstBadID : string; FirstBadTime : time; PrevID : string; br_Changes : list CoChange }.
(** The index of the first snapshot where the rule fires, or -1. *)
Fixpoint firstBad (series : list Snapshot) (ruleID : string) (catalog : list Rule) (i : Z) : Z :=
  match series with [] => -1 | s :: series => if ruleFires s ruleID catalog then i else firstBad series ruleID catalog (i + 1) end.
Definition coChanges (r : Result) : list CoChange :=
  fold_left (λ changes sec, fold_left (λ changes c, changes ++ [{| cc_Section := s_Name sec; cc_Kind := Kind c; cc_Key := Key c; cc_Before := Before_ c; cc_After := After_ c |}]) (Changes sec) changes)
    (Sections r) [].
Definition BisectSymptom `{GoRuntime} (series : list Snapshot) (ruleID : string) (catalog : list Rule) : outcome BisectResult :=
  let clean := {| Status := "clean"; br_RuleID := ruleID; Snapshots := len series; FirstBadID := ""; FirstBadTime := zero_time; PrevID := ""; br_Changes := [] |} in
  let firstBad := firstBad series ruleID catalog 0 in
  if firstBad <? 0 then Ok clean else
  bad ← idx series firstBad;
  if firstBad =? 0 then
    Ok {| Status := "already-firing"; br_RuleID := ruleID; Snapshots := len series; FirstBadID := ID bad; FirstBadTime := TakenAt bad; PrevID := ""; br_Changes := [] |}
  else
  prev ← idx series (firstBad - 1);
  Ok {| Status := "found"; br_RuleID := ruleID; Snapshots := len series; FirstBadID := ID bad; FirstBadTime := TakenAt bad; PrevID := ID prev; br_Changes := coChanges (Compare prev bad) |}.

(** ** Reconciliation *)

Record ReconcileStep := { Category : string; Action : string; Detail : string }.
Definition rstep (category action detail : string) : ReconcileStep := {| Category := category; Action := action; Detail := detail |}.
Definition orNA (s : string) : string := if bool_decide (s = "") then "n/a" else s.
Definition jdkMajorSet (jdks : list JDKInstall) : gmap Z unit := fold_left (λ m j, <[VersionMajor j := tt]> m) jdks ∅.
(** The first of every major version. *)
Definition jdkByMajor (jdks : list JDKInstall) : gmap Z JDKInstall :=
  fold_left (λ m j, match m !! VersionMajor j with Some _ => m | None => <[VersionMajor j := j]> m end) jdks ∅.
Definition sortedInts `{GoRuntime} (m : gmap Z JDKInstall) : list Z := insertion_sort Z.ltb (map_keys m).
Definition jdkRelease (j : JDKInstall) : string :=
  if bool_decide (ReleaseString j ≠ "") then ReleaseString j else itoa (VersionMajor j) +:+ "." +:+ itoa (VersionMinor j) +:+ "." +:+ itoa (VersionPatch j).
Definition installStep (fromMajors : gmap Z unit) (toByMajor : gmap Z JDKInstall) (m : Z) : list ReconcileStep :=
  match fromMajors !! m, toByMajor !! m with
  | None, Some j => [rstep "jdk" "install" ("install a JDK " +:+ itoa m +:+ " to match target (target has " +:+ jdkRelease j +:+ ", vendor " +:+ orNA (Vendor j) +:+ ", via " +:+ orNA (j_Source j) +:+ ")")]
  | _, _ => []
  end.
Definition reconcileJDKs `{GoRuntime} (from to : Toolchains) : list ReconcileStep :=
  let fromMajors := jdkMajorSet (JDKs from) in
  let toByMajor := jdkByMajor (JDKs to) in
  let steps := fold_left (λ steps m, steps ++ installStep fromMajors toByMajor m) (sortedInts toByMajor) [] in
  let toMajors := jdkMajorSet (JDKs to) in
  fold_left (λ steps m, if bool_decide (toMajors !! m = None) then steps ++ [rstep "jdk" "note" ("you have JDK " +:+ itoa m +:+ " that the target does not")] else steps)
    (sortedInts (jdkByMajor (JDKs from))) steps.
Definition brewByName (fs : list BrewFormula) : gmap string BrewFormula := fold_left (λ m f, <[b_Name f := f]> m) fs ∅.
Definition brewStep (fromF : gmap string BrewFormula) (f : BrewFormula) : list ReconcileStep :=
  match fromF !! b_Name f with
  | None => [rstep "brew" "install" ("install Homebrew formula " +:+ b_Name f +:+ " (target " +:+ orNA (b_Version f) +:+ ")")]
  | Some cur =>
    if bool_decide (b_Version f ≠ "") && bool_decide (b_Version cur ≠ b_Version f)
    then [rstep "brew" "upgrade" ("align Homebrew formula " +:+ b_Name f +:+ ": target " +:+ b_Version f +:+ ", you have " +:+ orNA (b_Version cur))] else []
  end.
Definition reconcileBrew `{GoRuntime} (from to : Toolchains) : list ReconcileStep :=
  let fromF := brewByName (Formulae (Brew from)) in
  let tf := sort_slice (λ a b, String.ltb (b_Name a) (b_Name b)) (Formulae (Brew to)) in
  fold_left (λ steps f, steps ++ brewStep fromF f) tf [].
Fixpoint activeRuntime (rs : list RuntimeInstall) : option string := match rs with [] => None | r :: rs => if Active r then Some (r_Version r) else activeRuntime rs end.
Definition activeRuntimeVersion (rs : list RuntimeInstall) : string :=
  match activeRuntime rs with Some v => v | None => match rs with r :: _ => r_Version r | [] => "" end end.
Definition reconcileRuntime (lang : string) (from to : list RuntimeInstall) : list ReconcileStep :=
  let tv := activeRuntimeVersion to in
  let fv := activeRuntimeVersion from in
  if bool_decide (tv = "") || bool_decide (tv = fv) then [] else [rstep lang "note" ("target uses " +:+ lang +:+ " " +:+ tv +:+ "; you have " +:+ orNA fv)].
Definition reconcileEnv (from to : Toolchains) : list ReconcileStep :=
  (if bool_decide (JavaHome (Env to) ≠ "") && bool_decide (JavaHome (Env from) ≠ JavaHome (Env to))
   then [rstep "env" "note" ("target JAVA_HOME points at " +:+ JavaHome (Env to) +:+ "; yours is " +:+ orNA (JavaHome (Env from)))] else []) ++
  (if bool_decide (ActiveJVMManager to ≠ "") && bool_decide (ActiveJVMManager from ≠ ActiveJVMManager to)
   then [rstep "env" "note" ("target's active JVM manager is " +:+ ActiveJVMManager to +:+ "; yours is " +:+ orNA (ActiveJVMManager from))] else []).
Definition Reconcile `{GoRuntime} (from to : Toolchains) : list ReconcileStep :=
  reconcileJDKs from to ++ reconcileBrew from to ++ reconcileRuntime "node" (Node from) (Node to) ++ reconcileRuntime "python" (Python from) (Python to) ++
  reconcileRuntime "go" (Go from) (Go to) ++ reconcileRuntime "ruby" (Ruby from) (Ruby to) ++ reconcileEnv from to.
End Fleet.

Module FleetFacts.
Export Fleet.

(** ** Symptoms *)

(** A rule of the catalog has a finding with the identifier. *)
Definition fires (snap : Snapshot) (ruleID : string) (catalog : list Rule) : Prop := ∃ r f, r ∈ catalog ∧ f ∈ Rules.MatchFn r snap ∧ Rules.RuleID f = ruleID.
Lemma elem_of_Evaluate (snap : Snapshot) (catalog : list Rule) f : f ∈ Rules.Evaluate snap catalog ↔ ∃ r, r ∈ catalog ∧ f ∈ Rules.MatchFn r snap.
Proof.
  unfold Rules.Evaluate. rewrite (SliceStable_perm Rules.findingLess), fold_left_concat. rewrite list_elem_of_In, in_concat. setoid_rewrite <-list_elem_of_In. split.
  - intros (l & (r & -> & Hr)%list_elem_of_fmap & Hf). by exists r.
  - intros (r & Hr & Hf). exists (Rules.MatchFn r snap). split; [by apply (list_elem_of_fmap_2 (λ r, Rules.MatchFn r snap))|done].
Qed.
Lemma ruleFires_spec snap ruleID catalog : ruleFires snap ruleID catalog = true ↔ fires snap ruleID catalog.
Proof.
  unfold ruleFires. rewrite existsb_exists. split.
  - intros (f & (r & Hr & Hf)%list_elem_of_In%elem_of_Evaluate & Hid%bool_decide_eq_true). by exists r, f.
  - intros (r & f & Hr & Hf & Hid). exists f. split; [|by apply bool_decide_eq_true]. apply list_elem_of_In, elem_of_Evaluate. by exists r.
Qed.

Inductive verdict := VFiring | VClear | VUnknown.
#[export] Instance verdict_eq : EqDecision verdict.
Proof. solve_decision. Defined.
Definition verdict_of (ruleID : string) (catalog : list Rule) (h : HostSnapshot) : verdict :=
  if Empty h then VUnknown else if ruleFires (Snap h) ruleID catalog then VFiring else VClear.
(** The labels of the hosts with a verdict. *)
Definition labels_with (ruleID : string) (catalog : list Rule) (v : verdict) (zl : list (HostSnapshot * string)) : list string :=
  (filter (λ hn, verdict_of ruleID catalog hn.1 = v) zl).*2.
Lemma labels_with_snoc ruleID catalog v zl hn : labels_with ruleID catalog v (zl ++ [hn]) = labels_with ruleID catalog v zl ++ if decide (verdict_of ruleID catalog hn.1 = v) then [hn.2] else [].
Proof. unfold labels_with. rewrite filter_app, fmap_app, filter_cons, filter_nil. by case_decide. Qed.
Lemma rollup_fold ruleID catalog zl : fold_left (rollupStep ruleID catalog) zl {| sr_RuleID := ruleID; Firing := []; Clear := []; Unknown := [] |} =
  {| sr_RuleID := ruleID; Firing := labels_with ruleID catalog VFiring zl; Clear := labels_with ruleID catalog VClear zl; Unknown := labels_with ruleID catalog VUnknown zl |}.
Proof.
  induction zl as [|[h name] zl IH] using rev_ind; [done|]. rewrite fold_left_app, !labels_with_snoc. cbn [fold_left]. rewrite IH. unfold rollupStep, verdict_of. cbn [fst snd].
  destruct (Empty h); [|destruct (ruleFires _ _ _)]; cbn; by rewrite ?app_nil_r.
Qed.
Lemma labels_split ruleID catalog zl : zl.*2 ≡ₚ labels_with ruleID catalog VFiring zl ++ labels_with ruleID catalog VClear zl ++ labels_with ruleID catalog VUnknown zl.
Proof.
  induction zl as [|hn zl IH] using rev_ind; [done|]. rewrite fmap_app, IH, !labels_with_snoc. cbn [fmap list_fmap].
  destruct (verdict_of ruleID catalog hn.1); rewrite ?decide_False, ?decide_True by done; rewrite ?app_nil_r, <-?app_assoc; try done; apply Permutation_app_head.
  - rewrite (app_assoc _ _ [hn.2]). apply Permutation_app_comm.
  - apply Permutation_app_head, Permutation_app_comm.
Qed.
Lemma labels_length hosts : length (displayLabels hosts) = length hosts.
Proof. unfold displayLabels. by rewrite length_fmap. Qed.

(** ** Bisection *)

Lemma firstBad_clean series ruleID catalog i : (∀ s, s ∈ series → ruleFires s ruleID catalog = false) → firstBad series ruleID catalog i = -1.
Proof. revert i. induction series as [|s series IH]; intros i Hs; [done|]. cbn. rewrite Hs by by left. apply IH. intros t Ht. apply Hs. by right. Qed.
Lemma firstBad_found pre bad post ruleID catalog i : (∀ s, s ∈ pre → ruleFires s ruleID catalog = false) → ruleFires bad ruleID catalog = true →
  firstBad (pre ++ bad :: post) ruleID catalog i = i + len pre.
Proof.
  revert i. induction pre as [|s pre IH]; intros i Hs Hb; cbn [app firstBad]; [rewrite Hb; by rewrite len_nil, Z.add_0_r|].
  rewrite Hs by by left. rewrite IH by (done || intros t Ht; apply Hs; by right). rewrite len_cons. lia.
Qed.
Definition co_changes (r : Result) : list CoChange :=
  concat ((λ sec, (λ c, {| cc_Section := s_Name sec; cc_Kind := Kind c; cc_Key := Key c; cc_Before := Before_ c; cc_After := After_ c |}) <$> Changes sec) <$> Sections r).
Lemma coChanges_eq r : coChanges r = co_changes r.
Proof.
  unfold coChanges, co_changes. rewrite (fold_left_append _ (λ sec, (λ c, {| cc_Section := s_Name sec; cc_Kind := Kind c; cc_Key := Key c; cc_Before := Before_ c; cc_After := After_ c |}) <$> Changes sec)); [done|].
  intros acc sec. rewrite (fold_left_append _ (λ c, [{| cc_Section := s_Name sec; cc_Kind := Kind c; cc_Key := Key c; cc_Before := Before_ c; cc_After := After_ c |}])) by done. f_equal.
  induction (Changes sec) as [|c cs IH]; [done|]. rewrite !fmap_cons. cbn [concat app]. by rewrite IH.
Qed.

(** ** Findings over hosts *)

(** The elements in the order of their first occurrence. *)
Definition firsts {A} `{EqDecision A} (l : list A) : list A := fold_left (λ acc x, if decide (x ∈ acc) then acc else acc ++ [x]) l [].
Section Firsts.
Context {A : Type} `{EqDecision A}.
Lemma elem_of_firsts (l : list A) : ∀ x, x ∈ firsts l ↔ x ∈ l.
Proof.
  unfold firsts. induction l as [|y l IH] using rev_ind; intros x; [done|]. rewrite fold_left_app, elem_of_app, list_elem_of_singleton. cbn [fold_left].
  case_decide as Hd; [apply IH in Hd|rewrite elem_of_app, list_elem_of_singleton]; rewrite IH; [|done]. naive_solver.
Qed.
Lemma firsts_snoc (l : list A) x : firsts (l ++ [x]) = if decide (x ∈ l) then firsts l else firsts l ++ [x].
Proof. unfold firsts at 1. rewrite fold_left_app. cbn [fold_left]. fold (firsts l). apply decide_ext, elem_of_firsts. Qed.
Lemma NoDup_firsts (l : list A) : NoDup (firsts l).
Proof.
  induction l as [|x l IH] using rev_ind; [constructor|]. rewrite firsts_snoc. case_decide as Hx; [done|]. apply NoDup_app. split; [done|]. split; [|apply NoDup_singleton].
  intros y Hy Hyx%list_elem_of_singleton. subst y. by rewrite elem_of_firsts in Hy.
Qed.
End Firsts.

(** The findings of the hosts, with their labels. *)
Definition host_events (catalog : list Rule) (hl : HostSnapshot * string) : list (string * Rules.Finding) :=
  if Empty hl.1 then [] else (λ f, (hl.2, f)) <$> Rules.Evaluate (Snap hl.1) catalog.
Definition events (catalog : list Rule) (zl : list (HostSnapshot * string)) : list (string * Rules.Finding) := concat (host_events catalog <$> zl).
Definition of_key (k : string) (es : list (string * Rules.Finding)) : list (string * Rules.Finding) := filter (λ e, findingKey e.2 = k) es.
Definition opened (hosts : list string) (f : Rules.Finding) : FleetFinding :=
  {| ff_RuleID := Rules.RuleID f; ff_Subject := Rules.Subject f; ff_Severity := Rules.f_Severity f; ff_Message := Rules.f_Message f; Hosts := hosts |}.
Definition group (k : string) (es : list (string * Rules.Finding)) : option FleetFinding := (λ e, opened (firsts (of_key k es).*1) e.2) <$> head (of_key k es).

Lemma of_key_app_one k es e : of_key k (es ++ [e]) = of_key k es ++ if decide (findingKey e.2 = k) then [e] else [].
Proof. unfold of_key. rewrite filter_app, filter_cons, filter_nil. by case_decide. Qed.
Lemma of_key_nil k es : of_key k es = [] ↔ k ∉ (λ e, findingKey e.2) <$> es.
Proof.
  unfold of_key. split.
  - intros Hn (e & -> & He)%list_elem_of_fmap. assert (e ∈ filter (λ e', findingKey e'.2 = findingKey e.2) es) as Hin by by apply list_elem_of_filter. rewrite Hn in Hin. by apply not_elem_of_nil in Hin.
  - intros Hn. apply list_filter_none. intros e He <-. apply Hn. by apply (list_elem_of_fmap_2 (λ e, findingKey e.2)).
Qed.
Definition tracks (es : list (string * Rules.Finding)) (st : rollupState) : Prop :=
  let '(byKey, seen, order) := st in
  (∀ k, byKey !! k = group k es) ∧ (∀ k l, default ∅ (seen !! k) !! l = if decide (l ∈ (of_key k es).*1) then Some tt else None) ∧ order = firsts ((λ e, findingKey e.2) <$> es).
Lemma findingStep_tracks es st label f : tracks es st → tracks (es ++ [(label, f)]) (findingStep label st f).
Proof.
  destruct st as [[byKey seen] order]. intros (H1 & H2 & ->). unfold findingStep. set (k0 := findingKey f).
  assert (firsts ((λ e, findingKey e.2) <$> es ++ [(label, f)]) = if decide (of_key k0 es = []) then firsts ((λ e, findingKey e.2) <$> es) ++ [k0] else firsts ((λ e, findingKey e.2) <$> es)) as Ho.
  { rewrite fmap_app. cbn [fmap list_fmap snd]. rewrite firsts_snoc. fold k0. destruct (decide (of_key k0 es = [])) as [Hn|Hn]; rewrite of_key_nil in Hn; [by rewrite decide_False|]. rewrite decide_True; [done|]. by apply dec_stable. }
  assert (∀ k, k ≠ k0 → of_key k (es ++ [(label, f)]) = of_key k es) as Hk by (intros k Hne; rewrite of_key_app_one; cbn [snd]; rewrite decide_False by done; by rewrite app_nil_r).
  assert (of_key k0 (es ++ [(label, f)]) = of_key k0 es ++ [(label, f)]) as Hk0 by (rewrite of_key_app_one; cbn [snd]; by rewrite decide_True).
  assert (∀ l, l ∈ (of_key k0 (es ++ [(label, f)])).*1 ↔ l = label ∨ l ∈ (of_key k0 es).*1) as Hl by (intros l; rewrite Hk0, fmap_app, elem_of_app; cbn; rewrite list_elem_of_singleton; tauto).
  unfold tracks, group. rewrite Ho, H1. unfold group. destruct (of_key k0 es) as [|e0 es0] eqn:E.
  - cbn [fmap option_fmap option_map head]. rewrite lookup_insert_eq. cbn [default id]. rewrite bool_decide_eq_true_2 by apply lookup_empty. split_and!; [| |by rewrite decide_True].
    + intros k. destruct (decide (k = k0)) as [->|Hne]; [by rewrite lookup_insert_eq, Hk0|]. rewrite !lookup_insert_ne, H1, Hk by done. done.
    + intros k l. destruct (decide (k = k0)) as [->|Hne]; [|rewrite !lookup_insert_ne, H2, Hk by done; done]. rewrite lookup_insert_eq. cbn [default id]. rewrite (decide_ext _ _ _ _ (Hl l)).
      destruct (decide (l = label)) as [->|Hll]; [by rewrite lookup_insert_eq, decide_True by (by left)|]. rewrite lookup_insert_ne, lookup_empty, decide_False by first [done|intros [?|?%not_elem_of_nil]; done]. done.
  - assert (firsts ((e0 :: es0) ++ [(label, f)]).*1 = if decide (label ∈ (e0 :: es0).*1) then firsts (e0 :: es0).*1 else firsts (e0 :: es0).*1 ++ [label]) as Hfs by (rewrite fmap_app; apply firsts_snoc).
    change ((λ e, opened (firsts (e0 :: es0).*1) e.2) <$> head (e0 :: es0)) with (Some (opened (firsts (e0 :: es0).*1) e0.2)). cbv beta iota.
    rewrite H2, E, (decide_False (P := e0 :: es0 = [])) by done. destruct (decide (label ∈ (e0 :: es0).*1)) as [Hin|Hin].
    + rewrite bool_decide_eq_false_2 by done. split_and!; [| |done].
      * intros k. destruct (decide (k = k0)) as [->|Hne]; [|by rewrite H1, Hk]. rewrite H1, Hk0, Hfs. unfold group. by rewrite E.
      * intros k l. destruct (decide (k = k0)) as [->|Hne]; [|by rewrite H2, Hk]. rewrite H2, E. apply decide_ext. rewrite Hl. naive_solver.
    + rewrite bool_decide_eq_true_2 by done. split_and!; [| |done].
      * intros k. destruct (decide (k = k0)) as [->|Hne]; [|by rewrite lookup_insert_ne, H1, Hk]. by rewrite lookup_insert_eq, Hk0, Hfs.
      * intros k l. destruct (decide (k = k0)) as [->|Hne]; [|by rewrite lookup_insert_ne, H2, Hk]. rewrite lookup_insert_eq. cbn [default id]. rewrite (decide_ext _ _ _ _ (Hl l)).
        destruct (decide (l = label)) as [->|Hll]; [by rewrite lookup_insert_eq, decide_True by (by left)|]. rewrite lookup_insert_ne, H2, E by done. apply decide_ext. naive_solver.
Qed.

Lemma rollup_tracks catalog zl : tracks (events catalog zl) (fold_left (hostStep catalog) zl (∅, ∅, [])).
Proof.
  assert (∀ label fs es st, tracks es st → tracks (es ++ ((λ f, (label, f)) <$> fs)) (fold_left (findingStep label) fs st)) as Hf.
  { intros label fs. induction fs as [|f fs IH]; intros es st Ht; cbn [fmap list_fmap fold_left]; [by rewrite app_nil_r|]. rewrite cons_middle, app_assoc. apply IH. by apply findingStep_tracks. }
  induction zl as [|[h label] zl IH] using rev_ind; [done|]. rewrite fold_left_app. cbn [fold_left]. unfold events in *. rewrite fmap_app, concat_app. cbn [fmap list_fmap concat]. rewrite app_nil_r.
  unfold hostStep, host_events. cbn [fst snd]. destruct (Empty h); [by rewrite app_nil_r|]. by apply Hf.
Qed.
Lemma RollupFindings_eq hosts catalog : let es := events catalog (zip hosts (displayLabels hosts)) in
  RollupFindings hosts catalog = SliceStable fleetLess (omap (λ k, sortHosts <$> group k es) (firsts ((λ e, findingKey e.2) <$> es))).
Proof.
  intros es. unfold RollupFindings. pose proof (rollup_tracks catalog (zip hosts (displayLabels hosts))) as Ht. fold es in Ht. destruct (fold_left (hostStep catalog) _ _) as [[byKey seen] order].
  destruct Ht as (H1 & _ & ->). f_equal. apply omap_ext_in. intros k _. by rewrite H1.
Qed.

Definition ff_key (ff : FleetFinding) : string := ff_RuleID ff +:+ String (z2c 0) (ff_Subject ff).
Lemma group_key k es ff : group k es = Some ff → ff_key ff = k ∧ Hosts ff = firsts (of_key k es).*1.
Proof.
  unfold group. destruct (of_key k es) as [|e l] eqn:E; [done|]. intros [= <-]. split; [|done]. assert (e ∈ of_key k es) as [He _]%list_elem_of_filter by (rewrite E; by left). exact He.
Qed.
Lemma elem_of_host_events catalog zl l f : (l, f) ∈ events catalog zl ↔ ∃ h r, (h, l) ∈ zl ∧ Empty h = false ∧ r ∈ catalog ∧ f ∈ Rules.MatchFn r (Snap h).
Proof.
  unfold events. rewrite list_elem_of_In, in_concat. setoid_rewrite <-list_elem_of_In. split.
  - intros (x & ([h l'] & -> & Hh)%list_elem_of_fmap & Hx). unfold host_events in Hx. cbn [fst snd] in Hx. destruct (Empty h) eqn:E; [by apply not_elem_of_nil in Hx|].
    apply list_elem_of_fmap in Hx as (f' & [= -> ->] & (r & Hr & Hf)%elem_of_Evaluate). by exists h, r.
  - intros (h & r & Hh & He & Hr & Hf). exists (host_events catalog (h, l)). split; [by apply list_elem_of_fmap_2|]. unfold host_events. cbn [fst snd]. rewrite He.
    apply (list_elem_of_fmap_2 (λ f, (l, f))), elem_of_Evaluate. by exists r.
Qed.
Lemma elem_of_of_key k es l : l ∈ (of_key k es).*1 ↔ ∃ f, (l, f) ∈ es ∧ findingKey f = k.
Proof.
  unfold of_key. rewrite list_elem_of_fmap. split.
  - intros ([l' f] & -> & [Hk Hin]%list_elem_of_filter). by exists f.
  - intros (f & Hin & Hk). exists (l, f). split; [done|]. by apply list_elem_of_filter.
Qed.
Lemma fleetLess_weak : strict_weak fleetLess.
Proof.
  assert (∀ a b, fleetLess a b = (len (Hosts b) <? len (Hosts a)) || (negb (len (Hosts a) <? len (Hosts b)) &&
    ((findingSevRank (ff_Severity a) <? findingSevRank (ff_Severity b)) || (negb (findingSevRank (ff_Severity b) <? findingSevRank (ff_Severity a)) && String.ltb (ff_RuleID a) (ff_RuleID b))))) as Heq.
  { intros a b. unfold fleetLess. destruct (Z.eqb_spec (len (Hosts a)) (len (Hosts b))) as [->|Hn]; cbn.
    - rewrite Z.ltb_irrefl. cbn. destruct (Z.eqb_spec (findingSevRank (ff_Severity a)) (findingSevRank (ff_Severity b))) as [->|Hn]; cbn; [by rewrite Z.ltb_irrefl|].
      destruct (Z.ltb_spec (findingSevRank (ff_Severity a)) (findingSevRank (ff_Severity b))); [done|]. by rewrite (proj2 (Z.ltb_lt _ _)) by lia.
    - destruct (Z.ltb_spec (len (Hosts b)) (len (Hosts a))); [done|]. by rewrite (proj2 (Z.ltb_lt _ _)) by lia. }
  apply (strict_weak_ext _ _ Heq), (strict_weak_lex (λ a b, len (Hosts b) <? len (Hosts a))); [split; intros *; rewrite ?Z.ltb_lt, ?Z.ltb_ge; lia|].
  apply (strict_weak_lex (λ a b, findingSevRank (ff_Severity a) <? findingSevRank (ff_Severity b))); [apply (strict_weak_key (λ a, findingSevRank (ff_Severity a))), strict_weak_Z|apply (strict_weak_key ff_RuleID), strict_weak_string].
Qed.
Lemma Strings_ascending l : NoDup l → ascending id (Strings l).
Proof. intros Hl. apply (ascending_sort (R := go_runtime) id). by rewrite list_fmap_id. Qed.

(** ** Reconciliation *)

(** The first toolchain has what the second does. *)
Record target_met (from to : Toolchains) : Prop := {
  tm_jdks : ∀ m, m ∈ VersionMajor <$> JDKs from ↔ m ∈ VersionMajor <$> JDKs to;
  tm_brew : ∀ f, f ∈ Formulae (Brew to) → ∃ cur, last_with b_Name (b_Name f) (Formulae (Brew from)) = Some cur ∧ (b_Version f = "" ∨ b_Version cur = b_Version f);
  tm_runtimes : ∀ lang, lang ∈ [Node; Python; Go; Ruby] → activeRuntimeVersion (lang to) = "" ∨ activeRuntimeVersion (lang to) = activeRuntimeVersion (lang from);
  tm_java : JavaHome (Env to) = "" ∨ JavaHome (Env from) = JavaHome (Env to);
  tm_manager : ActiveJVMManager to = "" ∨ ActiveJVMManager from = ActiveJVMManager to }.

Lemma jdkMajorSet_none jdks m : jdkMajorSet jdks !! m = None ↔ m ∉ VersionMajor <$> jdks.
Proof. unfold jdkMajorSet. rewrite (fill_lookup_empty VersionMajor (λ _, tt)), fmap_None. apply last_with_none. Qed.
Lemma jdkByMajor_none jdks m : jdkByMajor jdks !! m = None ↔ m ∉ VersionMajor <$> jdks.
Proof.
  unfold jdkByMajor. induction jdks as [|j jdks IH] using rev_ind; [split; [intros _; apply not_elem_of_nil|done]|]. rewrite fold_left_app, fmap_app, elem_of_app. cbn [fold_left fmap list_fmap]. rewrite list_elem_of_singleton.
  destruct (fold_left _ jdks ∅ !! VersionMajor j) as [j'|] eqn:E.
  - rewrite IH. split; [|tauto]. intros Hn [?| ->]; [done|]. apply IH in Hn. by rewrite Hn in E.
  - rewrite lookup_insert_None, IH. naive_solver.
Qed.

Section Reconcile.
Context {R : GoRuntime} {HR : RuntimeOk R}.

Lemma elem_of_sortedInts m x : x ∈ sortedInts m ↔ is_Some (m !! x).
Proof. unfold sortedInts. rewrite (proj1 (insertion_sort_ok Z.ltb (map_keys m))). apply elem_of_keys. Qed.
Lemma reconcileJDKs_nil from to : reconcileJDKs from to = [] ↔ ∀ m, m ∈ VersionMajor <$> JDKs from ↔ m ∈ VersionMajor <$> JDKs to.
Proof.
  assert (∀ l m, is_Some (jdkByMajor l !! m) ↔ m ∈ VersionMajor <$> l) as Hs by (intros l m; rewrite <-not_eq_None_Some, jdkByMajor_none; split; [apply dec_stable|tauto]).
  unfold reconcileJDKs. rewrite (fold_left_append _ (λ m, if bool_decide (jdkMajorSet (JDKs to) !! m = None) then [rstep "jdk" "note" ("you have JDK " +:+ itoa m +:+ " that the target does not")] else []))
    by (intros; case_bool_decide; by rewrite ?app_nil_r).
  rewrite (fold_left_append _ (installStep (jdkMajorSet (JDKs from)) (jdkByMajor (JDKs to)))) by done. cbn [app]. rewrite app_nil, !concat_nil_iff. split.
  - intros [H1 H2] m. split; intros Hm.
    + apply dec_stable. intros Hn. specialize (H2 m). rewrite elem_of_sortedInts, Hs in H2. specialize (H2 Hm). by rewrite bool_decide_eq_true_2 in H2 by by apply jdkMajorSet_none.
    + apply dec_stable. intros Hn. specialize (H1 m). rewrite elem_of_sortedInts, Hs in H1. specialize (H1 Hm). unfold installStep in H1. rewrite (proj2 (jdkMajorSet_none _ _) Hn) in H1. apply Hs in Hm as [j Hj]. by rewrite Hj in H1.
  - intros Hm. split; intros m; rewrite elem_of_sortedInts, Hs; intros Hin.
    + unfold installStep. destruct (jdkMajorSet (JDKs from) !! m) eqn:E; [done|]. apply jdkMajorSet_none in E. by destruct E; apply Hm.
    + rewrite bool_decide_eq_false_2; [done|]. rewrite jdkMajorSet_none. intros Hn. by apply Hn, Hm.
Qed.
Lemma brewStep_nil from f : brewStep (brewByName from) f = [] ↔ ∃ cur, last_with b_Name (b_Name f) from = Some cur ∧ (b_Version f = "" ∨ b_Version cur = b_Version f).
Proof.
  unfold brewStep, brewByName. rewrite (fill_lookup_empty b_Name (λ f, f)). destruct (last_with b_Name (b_Name f) from) as [cur|]; cbn; [|split; [done|by intros (? & ? & _)]].
  split; [intros Hc; exists cur; split; [done|]|intros (c & [= <-] & Hc)]; repeat case_bool_decide; cbn in *; naive_solver.
Qed.
Lemma reconcileBrew_nil from to : reconcileBrew from to = [] ↔ ∀ f, f ∈ Formulae (Brew to) → ∃ cur, last_with b_Name (b_Name f) (Formulae (Brew from)) = Some cur ∧ (b_Version f = "" ∨ b_Version cur = b_Version f).
Proof.
  unfold reconcileBrew. rewrite fold_left_concat, concat_nil_iff. setoid_rewrite sort_perm. setoid_rewrite brewStep_nil. done.
Qed.
Lemma reconcileRuntime_nil lang from to : reconcileRuntime lang from to = [] ↔ activeRuntimeVersion to = "" ∨ activeRuntimeVersion to = activeRuntimeVersion from.
Proof. unfold reconcileRuntime. repeat case_bool_decide; cbn; naive_solver. Qed.
Lemma reconcileEnv_nil from to : reconcileEnv from to = [] ↔ (JavaHome (Env to) = "" ∨ JavaHome (Env from) = JavaHome (Env to)) ∧ (ActiveJVMManager to = "" ∨ ActiveJVMManager from = ActiveJVMManager to).
Proof. unfold reconcileEnv. rewrite app_nil. repeat case_bool_decide; cbn; naive_solver. Qed.
Lemma Reconcile_nil from to : Reconcile from to = [] ↔ target_met from to.
Proof.
  unfold Reconcile. rewrite !app_nil, reconcileJDKs_nil, reconcileBrew_nil, !reconcileRuntime_nil, reconcileEnv_nil. split.
  - intros (H1 & H2 & H3 & H4 & H5 & H6 & H7 & H8). split; try done. intros lang Hl. repeat (apply elem_of_cons in Hl as [->|Hl]; [done|]). by apply not_elem_of_nil in Hl.
  - intros [H1 H2 H3 H4 H5]. split_and!; try done; apply H3; set_solver.
Qed.
End Reconcile.
End FleetFacts.

(** ** Properties *)

Import FleetFacts.

Lemma rollup_spec hosts ruleID catalog : let labels := displayLabels hosts in let r := RollupSymptom hosts ruleID catalog in
  labels ≡ₚ Firing r ++ Clear r ++ Unknown r ∧
  (∀ l, l ∈ Unknown r ↔ ∃ h, (h, l) ∈ zip hosts labels ∧ Empty h = true) ∧
  (∀ l, l ∈ Firing r ↔ ∃ h, (h, l) ∈ zip hosts labels ∧ Empty h = false ∧ fires (Snap h) ruleID catalog) ∧
  (∀ l, l ∈ Clear r ↔ ∃ h, (h, l) ∈ zip hosts labels ∧ Empty h = false ∧ ¬ fires (Snap h) ruleID catalog) ∧
  Forall (StronglySorted (λ a b, String.ltb b a = false)) [Firing r; Clear r; Unknown r].
Proof.
  intros labels r. unfold r, RollupSymptom. fold labels. rewrite rollup_fold. cbn [Firing Clear Unknown].
  assert (∀ v l, l ∈ Strings (labels_with ruleID catalog v (zip hosts labels)) ↔ ∃ h, (h, l) ∈ zip hosts labels ∧ verdict_of ruleID catalog h = v) as Hin.
  { intros v l. rewrite Strings_perm. unfold labels_with. rewrite list_elem_of_fmap. split; [intros ([h l'] & -> & [Hv Hl]%list_elem_of_filter); by exists h|].
    intros (h & Hl & Hv). exists (h, l). split; [done|]. by apply list_elem_of_filter. }
  split_and!.
  - rewrite !Strings_perm, <-labels_split, snd_zip; [done|]. unfold labels. by rewrite labels_length.
  - intros l. rewrite Hin. f_equiv. intros h. f_equiv. unfold verdict_of. destruct (Empty h); [done|]. by destruct (ruleFires _ _ _).
  - intros l. rewrite Hin. f_equiv. intros h. f_equiv. rewrite <-ruleFires_spec. unfold verdict_of. destruct (Empty h); [naive_solver|]. destruct (ruleFires _ _ _); naive_solver.
  - intros l. rewrite Hin. f_equiv. intros h. f_equiv. rewrite <-ruleFires_spec. unfold verdict_of. destruct (Empty h); [naive_solver|]. destruct (ruleFires _ _ _); naive_solver.
  - repeat constructor; apply Strings_sorted.
Qed.

(** C22: bisection reports the first snapshot of a series where the rule fires, with all
    the changes since the one before it, where it does not; that it was already
    firing when this is the first; and a clean series when it fires in none. *)
Theorem bisect_exact (R : GoRuntime) (HR : RuntimeOk R) series ruleID catalog :
  ((∀ s, s ∈ series → ¬ fires s ruleID catalog) →
   BisectSymptom series ruleID catalog = Ok {| Status := "clean"; br_RuleID := ruleID; Snapshots := len series; FirstBadID := ""; FirstBadTime := zero_time; PrevID := ""; br_Changes := [] |}) ∧
  ∀ pre bad post, series = pre ++ bad :: post → (∀ s, s ∈ pre → ¬ fires s ruleID catalog) → fires bad ruleID catalog →
  BisectSymptom series ruleID catalog = Ok {|
    Status := if last pre is Some _ then "found" else "already-firing"; br_RuleID := ruleID; Snapshots := len series; FirstBadID := ID bad; FirstBadTime := TakenAt bad;
    PrevID := if last pre is Some prev then ID prev else ""; br_Changes := if last pre is Some prev then co_changes (Compare prev bad) else [] |}.
Proof.
  assert (∀ s, ¬ fires s ruleID catalog → ruleFires s ruleID catalog = false) as Hno by (intros s Hs; apply Bool.not_true_is_false; by rewrite ruleFires_spec).
  split; [intros Hs; unfold BisectSymptom; rewrite firstBad_clean; [done|]; auto|]. intros pre bad post -> Hpre Hbad. unfold BisectSymptom.
  rewrite firstBad_found by (auto || by apply ruleFires_spec). rewrite Z.add_0_l. rewrite (proj2 (Z.ltb_ge _ _)) by apply len_nonneg.
  assert (idx (pre ++ bad :: post) (len pre) = Ok bad) as -> by (apply idx_ok; [apply len_nonneg|]; unfold len; rewrite Nat2Z.id; by rewrite lookup_app_r, Nat.sub_diag).
  cbn [mbind outcome_bind]. destruct pre as [|prev pre _] using rev_ind; [done|]. rewrite (last_snoc prev pre). rewrite (proj2 (Z.eqb_neq _ _)) by (rewrite len_app; pose proof (len_nonneg pre); change (len [prev]) with 1; lia).
  assert (idx ((pre ++ [prev]) ++ bad :: post) (len (pre ++ [prev]) - 1) = Ok prev) as ->.
  { rewrite len_app. change (len [prev]) with 1. pose proof (len_nonneg pre). apply idx_ok; [lia|]. replace (Z.to_nat (len pre + 1 - 1)) with (length pre) by (unfold len; lia). rewrite <-app_assoc. by rewrite lookup_app_r, Nat.sub_diag. }
  cbn [mbind outcome_bind]. by rewrite coChanges_eq.
Qed.

Lemma fleet_findings_spec hosts catalog : let out := RollupFindings hosts catalog in
  let trips l k := ∃ h r f, (h, l) ∈ zip hosts (displayLabels hosts) ∧ Empty h = false ∧ r ∈ catalog ∧ f ∈ Rules.MatchFn r (Snap h) ∧ findingKey f = k in
  NoDup (ff_key <$> out) ∧ StronglySorted (λ a b, fleetLess b a = false) out ∧
  (∀ ff, ff ∈ out → ascending id (Hosts ff) ∧ ∀ l, l ∈ Hosts ff ↔ trips l (ff_key ff)) ∧
  ∀ l k, trips l k → k ∈ ff_key <$> out.
Proof.
  intros out trips. unfold out. rewrite RollupFindings_eq. set (es := events catalog _). set (ks := firsts _).
  assert (∀ l k, (∃ f, (l, f) ∈ es ∧ findingKey f = k) ↔ trips l k) as Htrips.
  { intros l k. split; [intros (f & (h & r & ?)%elem_of_host_events & ?)|intros (h & r & f & ?)]; [exists h, r, f|exists f; unfold es; rewrite elem_of_host_events]; naive_solver. }
  assert (∀ k ff, sortHosts <$> group k es = Some ff → ff_key ff = k ∧ Hosts ff = Strings (firsts (of_key k es).*1)) as Hg.
  { intros k ff (g & Hg & ->)%fmap_Some_1. apply group_key in Hg as [<- Hh]. cbn. by rewrite Hh. }
  split_and!.
  - rewrite (SliceStable_perm fleetLess). apply (NoDup_omap_key _ id ff_key); [rewrite list_fmap_id; apply NoDup_firsts|]. intros k ff _ Hf. by apply Hg in Hf as [-> _].
  - apply SliceStable_sorted, fleetLess_weak.
  - intros ff. rewrite (SliceStable_perm fleetLess). intros (k & _ & Hf)%list_elem_of_omap. apply Hg in Hf as [-> ->]. split; [apply Strings_ascending, NoDup_firsts|].
    intros l. rewrite Strings_perm, elem_of_firsts, elem_of_of_key. apply Htrips.
  - intros l k Ht. apply Htrips in Ht as (f & Hin & Hk). rewrite (SliceStable_perm fleetLess). assert (k ∈ (λ e, findingKey e.2) <$> es) as Hks by (rewrite <-Hk; by apply (list_elem_of_fmap_2 (λ e, findingKey e.2) es (l, f))).
    destruct (group k es) as [g|] eqn:Eg.
    + apply list_elem_of_fmap. exists (sortHosts g). split; [symmetry; apply Hg; by rewrite Eg|]. apply list_elem_of_omap. exists k. split; [by apply elem_of_firsts|by rewrite Eg].
    + unfold group in Eg. apply fmap_None, head_None, of_key_nil in Eg. done.
Qed.


(** There is nothing to reconcile exactly if the toolchain has what the target has:
    the same major versions of the JDK, every formula in its version (a formula
    listed twice counts as its last entry), the active runtimes, the Java home and
    the version manager, where the target has one. *)
Theorem reconcile_none (R : GoRuntime) (HR : RuntimeOk R) from to : Reconcile from to = [] ↔ target_met from to.
Proof. apply Reconcile_nil. Qed.

(** *** Witnesses *)

(** A rule that fires when a kernel setting is there. *)
Definition demo_rule : Rule :=
  {| Rules.ID := "r"; Rules.r_Severity := "high";
     Rules.MatchFn := λ s, match Sysctls s !! "k" with Some v => [{| Rules.RuleID := "r"; Rules.f_Severity := "high"; Rules.f_Message := "m"; Rules.f_Fix := ""; Rules.Subject := v |}] | None => [] end;
     Rules.Source := ""; Rules.r_Message := ""; Rules.r_Fix := "" |}.
Definition demo_host (name uuid : string) (sysctls : gmap string string) (empty : bool) : HostSnapshot :=
  {| h_Hostname := name; h_MachineUUID := uuid; Snap := demo_snapshot [] [] sysctls; Empty := empty |}.
(** Two hosts with the same name whose identifiers agree in eight characters. *)
Definition demo_hosts : list HostSnapshot :=
  [demo_host "mini" "01234567-AB" {["k" := "v"]} false; demo_host "mini" "01234567-CD" {["k" := "v"]} false; demo_host "air" "" ∅ false; demo_host "" "" ∅ true].

Example rollup_demo : RollupSymptom demo_hosts "r" [demo_rule] = {| sr_RuleID := "r"; Firing := ["mini (01234567)"; "mini (01234567)"]; Clear := ["air"]; Unknown := ["unknown-host"] |} ∧
  (λ ff, (ff_RuleID ff, ff_Subject ff, Hosts ff)) <$> RollupFindings demo_hosts [demo_rule] = [("r", "v", ["mini (01234567)"])].
Proof. by vm_compute. Qed.
Lemma bisect_exact_witness :
  BisectSymptom (H := go_runtime) [demo_snapshot ["/a"] [] ∅; demo_snapshot [] [] {["k" := "v"]}] "r" [demo_rule] =
  Ok {| Status := "found"; br_RuleID := "r"; Snapshots := 2; FirstBadID := "s"; FirstBadTime := 0; PrevID := "s";
        br_Changes := [{| cc_Section := "path_dirs"; cc_Kind := Removed; cc_Key := "/a"; cc_Before := "pos 0"; cc_After := "" |};
                       {| cc_Section := "sysctls"; cc_Kind := Added; cc_Key := "k"; cc_Before := ""; cc_After := "v" |}] |}.
Proof.
  rewrite (proj2 (bisect_exact go_runtime go_runtime_ok [demo_snapshot ["/a"] [] ∅; demo_snapshot [] [] {["k" := "v"]}] "r" [demo_rule]) [demo_snapshot ["/a"] [] ∅] (demo_snapshot [] [] {["k" := "v"]}) [] eq_refl).
  - by vm_compute.
  - intros s Hs%list_elem_of_singleton. subst s. rewrite <-ruleFires_spec. by vm_compute.
  - apply ruleFires_spec. by vm_compute.
Defined.
Definition demo_formula (version : string) : BrewFormula := {| b_Name := "f"; b_Version := version; InstalledVia := "core"; Deprecated := false; Pinned := false |}.
Definition demo_toolchains (formulae : list BrewFormula) : Toolchains :=
  {| Brew := {| Formulae := formulae |}; JDKs := []; Node := []; Python := []; Go := []; Ruby := []; ActiveJVMManager := ""; Env := {| PathDirs := []; JavaHome := "" |} |}.
(** A formula with two versions is not reconciled with itself. *)
Lemma reconcile_none_witness :
  (λ s, (Category s, Action s)) <$> Reconcile (H := go_runtime) (demo_toolchains [demo_formula "1"; demo_formula "2"])
    (demo_toolchains [demo_formula "1"; demo_formula "2"]) = [("brew", "upgrade")] ∧
  target_met (demo_toolchains [demo_formula "1"]) (demo_toolchains []).
Proof.
  split; [by vm_compute|]. apply (reconcile_none go_runtime go_runtime_ok). by vm_compute.
Defined.
