(* ===== verification/ProcLinux.v ===== *)
(** * Processes of Linux

    [src/internal/process/proclinux.go]: processes read from a procfs.  The
    files below its root, the page size and the user database are parameters, as
    the answers of the operating system; a file is named by its path below the
    root, and reads that fail have no contents. *)

From Stdlib Require Import Ascii.
From S2P Require Import Prelude Arrays GoStrings GoPath GoText GoScan GoRuntime GoMaps Float64 RulesEngine ProcTree.

(** ** Standard library *)

(** The number that [strconv.ParseInt(s, 10, 64)] and [strconv.Atoi] return beside
    an error: the nearest limit when it is out of range, and otherwise zero. *)
Definition ParseInt_value (s : string) : Z :=
  match ParseInt s with
  | Some n => n
  | None => if negb (bool_decide (strip_sign s = "")) && digits_overflow (strip_sign s) 0 then (if HasPrefix s "-" then - 2 ^ 63 else 2 ^ 63 - 1) else 0
  end.
(** [time.Unix(secs, 0)]: seconds are counted from the year 1 in 64 bits. *)
Definition Unix (secs : Z) : time := (i64 (secs + 62135596800) - 62135596800) * Second.
(** [strings.TrimRight(s, string(c))] *)
Fixpoint drop_char (c : char) (s : string) : string := match s with String d s' => if Ascii.eqb d c then drop_char c s' else s | "" => "" end.
Definition trim_right_char (c : char) (s : string) : string := str_rev (drop_char c (str_rev s "")) "".
Definition NUL_char : char := z2c 0.

Module ProcLinux.
Export Process.

Record procfs := { read_dir : option (list string); read_file : list string → option (list byte); page_size : Z; lookup_id : string → option string }.

Definition linuxClkTck : Z := 100.

(** ** Boot time *)

Section Parse.
Context {UN : Unicode} {UF : UnicodeFields}.

Fixpoint btimeLines (lines : list string) : option time :=
  match lines with
  | [] => None
  | line :: lines =>
    let '(rest, ok) := Rules.CutPrefix line "btime " in
    if ok then Unix <$> ParseInt (TrimSpace rest) else btimeLines lines
  end.
Definition parseBtime (data : list byte) : option time := btimeLines (Split (string_of_bytes data) "010").
Definition readBtime (fs : procfs) : option time := data ← read_file fs ["stat"]; parseBtime data.

(** ** Status *)

Record linuxStat := { comm : string; ppid : Z; utimeTicks : Z; stimeTicks : Z; numThreads : Z; starttimeTicks : Z; vsizeBytes : Z; rssPages : Z }.
Definition field (rest : list string) (n : nat) : string := nth (n - 3) rest "".
Definition parseLinuxStat (data : list byte) : option linuxStat :=
  let s := string_of_bytes data in
  let open := Index s "(" in
  let end_ := LastIndex s ")" in
  if (open <? 0) || (end_ <? 0) || (end_ <? open) then None else
  let comm := str_take (end_ - (open + 1)) (str_drop (open + 1) s) in
  let rest := Fields (str_drop (end_ + 1) s) in
  if len rest <=? 24 - 3 then None else
  let atoi n := ParseInt_value (field rest n) in
  Some {| comm := comm; ppid := atoi 4%nat; utimeTicks := atoi 14%nat; stimeTicks := atoi 15%nat; numThreads := atoi 20%nat;
          starttimeTicks := atoi 22%nat; vsizeBytes := atoi 23%nat; rssPages := atoi 24%nat |}.

Definition readCmdline (fs : procfs) (pid : Z) : string :=
  match read_file fs [itoa pid; "cmdline"] with
  | Some (b :: data) => Join (Split (trim_right_char NUL_char (string_of_bytes (b :: data))) NUL_char) " "
  | _ => ""
  end.
Fixpoint uidLines (lines : list string) : option Z :=
  match lines with
  | [] => None
  | line :: lines =>
    let '(rest, ok) := Rules.CutPrefix line "Uid:" in
    if ok then match Fields rest with [] => None | f :: _ => Atoi f end else uidLines lines
  end.
Definition parseStatusUID (data : list byte) : option Z := uidLines (Split (string_of_bytes data) "010").
Definition readProcUID (fs : procfs) (pid : Z) : option Z := data ← read_file fs [itoa pid; "status"]; parseStatusUID data.
Definition lookupUser (fs : procfs) (uid : Z) (cache : gmap Z string) : string * gmap Z string :=
  match cache !! uid with
  | Some name => (name, cache)
  | None =>
    let name := match lookup_id fs (itoa uid) with Some u => if bool_decide (u ≠ "") then u else itoa uid | None => itoa uid end in
    (name, <[uid := name]> cache)
  end.

(** ** Processes *)

(** [bootTime.Add(time.Duration(ticks) * time.Second / time.Duration(linuxClkTck))] *)
Definition startTime (boot : time) (ticks : Z) : time := Add_ boot (Z.quot (i64 (ticks * Second)) linuxClkTck).
Definition cpuPercent (st : linuxStat) (at_ start : time) : f64 :=
  let elapsed := Seconds (Sub at_ start) in
  if fgt elapsed f0 then
    let cpuSecs := fdiv (of_Z (i64 (utimeTicks st + stimeTicks st))) (of_Z linuxClkTck) in
    fdiv (fmul (of_Z 100) cpuSecs) elapsed
  else f0.
Definition readLinuxProc (fs : procfs) (pid : Z) (boot : option time) (at_ : time) (users : gmap Z string) : option Info * gmap Z string :=
  match (data ← read_file fs [itoa pid; "stat"]; parseLinuxStat data) with
  | None => (None, users)
  | Some st =>
    let pageKiB := Z.quot (page_size fs) 1024 in
    let pageKiB := if pageKiB <=? 0 then 4 else pageKiB in
    let cmdline := readCmdline fs pid in
    let full := if bool_decide (cmdline ≠ "") then cmdline else "[" +:+ comm st +:+ "]" in
    let '(uid, user, users) :=
      match readProcUID fs pid with
      | Some uid => let '(name, users) := lookupUser fs uid users in (uid, name, users)
      | None => (0, "", users)
      end in
    let '(start, cpu) :=
      match boot with
      | Some boot => if 0 <? starttimeTicks st then let start := startTime boot (starttimeTicks st) in (start, cpuPercent st at_ start) else (zero_time, f0)
      | None => (zero_time, f0)
      end in
    (Some {| PID := pid; PPID := ppid st; UID := uid; User := user; Command := comm st; BSDName := ""; ExecutablePath := ""; FullCommandLine := full;
             RSSKiB := i64 (rssPages st * pageKiB); VSizeKiB := Z.quot (vsizeBytes st) 1024; VSZBytes := 0; ThreadCount := numThreads st; CPUPct := cpu;
             CPUPercent := f0; MemPercent := f0; StartTime := start; StartedAt := zero_time; Elapsed := 0; AppPath := "" |}, users)
  end.
Definition procStep (fs : procfs) (boot : option time) (at_ : time) (st : list Info * gmap Z string) (name : string) : list Info * gmap Z string :=
  let '(out, users) := st in
  match Atoi name with
  | None => (out, users)
  | Some pid =>
    if pid <=? 0 then (out, users) else
    let '(info, users) := readLinuxProc fs pid boot at_ users in
    (match info with Some info => out ++ [info] | None => out end, users)
  end.
Definition collectLinuxProcs (fs : procfs) (at_ : time) : list Info :=
  match read_dir fs with
  | None => []
  | Some entries => let boot := readBtime fs in (fold_left (procStep fs boot at_) entries ([], ∅)).1
  end.
End Parse.
End ProcLinux.

Module ProcLinuxFacts.
Export ProcLinux.

(** ** Status lines *)

(** What follows the name of a program in its status line. *)
Fixpoint tail_text (ws : list string) : string := match ws with [] => String "010" "" | w :: ws => " " +:+ w +:+ tail_text ws end.
Definition stat_text (pre comm : string) (rest : list string) : string := pre +:+ String "(" (comm +:+ String ")" (tail_text rest)).

Lemma fields_tail ws cur : Forall word ws → fields_go (tail_text ws) cur = (if bool_decide (cur = "") then [] else [cur]) ++ ws.
Proof.
  intros Hw. revert cur. induction Hw as [|w ws Hw Hws IH]; intros cur; cbn [tail_text]; [cbn; by case_bool_decide|].
  change (" " +:+ w +:+ tail_text ws) with (String " " (w +:+ tail_text ws)). cbn [fields_go]. change (ascii_space " ") with true. cbv iota. rewrite fields_go_word, IH by apply Hw.
  rewrite str_app_nil. rewrite (bool_decide_eq_false_2 (w = "")) by apply Hw. by case_bool_decide.
Qed.
Lemma tail_ascii ws : Forall word ws → is_ascii (tail_text ws) = true.
Proof.
  induction 1 as [|w ws [_ Hw] Hws IH]; [done|]. cbn [tail_text]. change (" " +:+ w +:+ tail_text ws) with (String " " (w +:+ tail_text ws)). apply andb_true_intro. split; [done|].
  unfold is_ascii in *. apply word_ascii in Hw. unfold is_ascii in Hw. clear -Hw IH. induction w as [|c w IHw]; [done|]. rewrite str_app_cons. cbn [str_forall] in *. apply andb_prop in Hw as [Hc Hw]. apply andb_true_intro. split; [done|by apply IHw].
Qed.
Lemma tail_free ws : Forall (free_of ")") ws → free_of ")" (tail_text ws).
Proof. induction 1 as [|w ws Hw Hws IH]; [done|]. cbn [tail_text]. apply free_of_app; [done|]. by apply free_of_app. Qed.
Lemma LastIndex_here c s : free_of c s → LastIndex (String c s) (String c "") = 0.
Proof.
  intros Hs. cbn [LastIndex]. assert (∀ d t, HasPrefix (String d t) (String c "") = Ascii.eqb d c) as Hp.
  { intros d t. unfold HasPrefix. cbn. destruct (ascii_dec c d) as [->|Hn]; [by destruct t; rewrite Ascii.eqb_refl|]. by destruct (Ascii.eqb_spec d c). }
  assert (LastIndex s (String c "") = -1) as ->.
  { unfold free_of in Hs. induction s as [|d s IH]; [done|]. cbn [str_forall] in Hs. apply andb_prop in Hs as [Hd%negb_true_iff Hs]. cbn [LastIndex]. rewrite (IH Hs), Hp, Hd. done. }
  by rewrite Hp, Ascii.eqb_refl.
Qed.

Section Status.
Context {UF : UnicodeFields}.

Lemma parseLinuxStat_text pre comm rest : free_of "(" pre → Forall (λ w, word w ∧ free_of ")" w) rest → (22 <= length rest)%nat →
  parseLinuxStat (bytes_of_string (stat_text pre comm rest)) = Some {|
    comm := comm; ppid := ParseInt_value (field rest 4); utimeTicks := ParseInt_value (field rest 14); stimeTicks := ParseInt_value (field rest 15);
    numThreads := ParseInt_value (field rest 20); starttimeTicks := ParseInt_value (field rest 22); vsizeBytes := ParseInt_value (field rest 23); rssPages := ParseInt_value (field rest 24) |}.
Proof.
  intros Hpre Hrest Hlen. assert (Forall word rest) as Hw by (apply (Forall_impl _ _ _ Hrest); by intros ? []). assert (Forall (free_of ")") rest) as Hf by (apply (Forall_impl _ _ _ Hrest); by intros ? []).
  unfold parseLinuxStat. rewrite string_of_bytes_of_string. unfold stat_text.
  rewrite (proj1 (Index_free "(" pre _ Hpre)).
  assert (LastIndex (pre +:+ String "(" (comm +:+ String ")" (tail_text rest))) ")" = strlen pre + (1 + strlen comm)) as ->.
  { rewrite LastIndex_app; [|change (String "(" (comm +:+ String ")" (tail_text rest))) with (String "(" comm +:+ String ")" (tail_text rest)); rewrite LastIndex_app; rewrite (LastIndex_here _ _ (tail_free _ Hf)); unfold strlen; cbn; lia].
    f_equal. change (String "(" (comm +:+ String ")" (tail_text rest))) with (String "(" comm +:+ String ")" (tail_text rest)). rewrite LastIndex_app by (rewrite (LastIndex_here _ _ (tail_free _ Hf)); done). rewrite (LastIndex_here _ _ (tail_free _ Hf)). unfold strlen. cbn [String.length]. lia. }
  assert (0 <= strlen pre ∧ 0 <= strlen comm) as [H1 H2] by (unfold strlen; lia). rewrite !(proj2 (Z.ltb_ge _ _)) by lia. cbn [orb].
  assert (str_drop (strlen pre + 1) (pre +:+ String "(" (comm +:+ String ")" (tail_text rest))) = comm +:+ String ")" (tail_text rest)) as ->.
  { change (String "(" (comm +:+ String ")" (tail_text rest))) with ("(" +:+ comm +:+ String ")" (tail_text rest)). rewrite <-str_app_assoc. rewrite <-(str_drop_app (pre +:+ "(") (comm +:+ String ")" (tail_text rest))) at 2. f_equal. rewrite strlen_app. done. }
  replace (strlen pre + (1 + strlen comm) - (strlen pre + 1)) with (strlen comm) by lia. rewrite str_take_app_exact.
  assert (str_drop (strlen pre + (1 + strlen comm) + 1) (pre +:+ String "(" (comm +:+ String ")" (tail_text rest))) = tail_text rest) as ->.
  { replace (pre +:+ String "(" (comm +:+ String ")" (tail_text rest))) with ((pre +:+ "(" +:+ comm +:+ ")") +:+ tail_text rest) by (rewrite !str_app_assoc; done).
    rewrite <-(str_drop_app (pre +:+ "(" +:+ comm +:+ ")") (tail_text rest)) at 2. f_equal. rewrite !strlen_app. change (strlen "(") with 1. change (strlen ")") with 1. lia. }
  unfold Fields. rewrite tail_ascii, fields_tail by done. cbn [app]. rewrite bool_decide_eq_true_2 by done. cbn [app]. rewrite (proj2 (Z.leb_gt _ _)) by (unfold len; lia). done.
Qed.
End Status.

(** ** The memory of users *)

Section Users.
Context {UN : Unicode} {UF : UnicodeFields} (fs : procfs).

Definition user_name (uid : Z) : string := (lookupUser fs uid ∅).1.
Definition remembers (cache : gmap Z string) : Prop := ∀ uid name, cache !! uid = Some name → name = user_name uid.
Lemma lookupUser_eq uid cache : remembers cache → (lookupUser fs uid cache).1 = user_name uid ∧ remembers (lookupUser fs uid cache).2.
Proof.
  intros Hc. unfold lookupUser. destruct (cache !! uid) as [name|] eqn:E; [split; [by apply Hc|done]|]. split; [done|].
  cbn [snd]. intros u name [[<- <-]|[Hu Hn]]%lookup_insert_Some; [done|by apply Hc].
Qed.
Lemma readLinuxProc_eq pid boot at_ users : remembers users → (readLinuxProc fs pid boot at_ users).1 = (readLinuxProc fs pid boot at_ ∅).1 ∧ remembers (readLinuxProc fs pid boot at_ users).2.
Proof.
  intros Hu. unfold readLinuxProc. destruct (data ← _; parseLinuxStat data) as [st|]; [|done]. destruct (readProcUID fs pid) as [uid|]; [|by destruct boot; [case_match|]].
  destruct (lookupUser_eq uid users Hu) as [H1 H2]. unfold user_name in H1. destruct (lookupUser fs uid users) as [name users'], (lookupUser fs uid ∅) as [name0 users0]. cbn in H1, H2. subst.
  by destruct boot; [case_match|].
Qed.
(** The process of a directory entry, without the memory of users. *)
Definition proc_of (boot : option time) (at_ : time) (name : string) : option Info :=
  match Atoi name with Some pid => if pid <=? 0 then None else (readLinuxProc fs pid boot at_ ∅).1 | None => None end.
Lemma procs_eq boot at_ entries out users : remembers users → (fold_left (procStep fs boot at_) entries (out, users)).1 = out ++ omap (proc_of boot at_) entries.
Proof.
  revert out users. induction entries as [|name entries IH]; intros out users Hu; [by rewrite app_nil_r|]. cbn [fold_left]. unfold procStep at 2. cbn [omap list_omap]. unfold proc_of at 1.
  destruct (Atoi name) as [pid|]; [|by apply IH]. destruct (pid <=? 0); [by apply IH|]. destruct (readLinuxProc_eq pid boot at_ users Hu) as [<- H2]. destruct (readLinuxProc fs pid boot at_ users) as [[info|] users'] eqn:E; cbn in H2 |- *.
  - rewrite IH by done. by rewrite <-app_assoc.
  - by apply IH.
Qed.
End Users.
End ProcLinuxFacts.

(** ** Properties *)

Import ProcLinuxFacts.

(** C25: the collection has one process per directory entry that is a positive number
    and has a readable status, in order, each as if it were read alone; a status
    line gives the name of the program whatever characters it has, parentheses,
    spaces and line ends included, and the numbers at their places.  A start is
    the boot time plus a hundredth of a second per tick up to 9223372036 ticks,
    that is 1067 days of uptime; with one more it is before the boot. *)
Theorem linux_procs_exact (UN : Unicode) (UF : UnicodeFields) fs at_ :
  collectLinuxProcs fs at_ = match read_dir fs with Some entries => omap (proc_of fs (readBtime fs) at_) entries | None => [] end ∧
  (∀ pre comm rest, free_of "(" pre → Forall (λ w, word w ∧ free_of ")" w) rest → (22 <= length rest)%nat →
   parseLinuxStat (bytes_of_string (stat_text pre comm rest)) = Some {|
     comm := comm; ppid := ParseInt_value (field rest 4); utimeTicks := ParseInt_value (field rest 14); stimeTicks := ParseInt_value (field rest 15);
     numThreads := ParseInt_value (field rest 20); starttimeTicks := ParseInt_value (field rest 22); vsizeBytes := ParseInt_value (field rest 23); rssPages := ParseInt_value (field rest 24) |}) ∧
  (∀ boot ticks, 0 < ticks <= 9223372036 → startTime boot ticks = boot + ticks * (10 * Millisecond)) ∧
  ∀ boot, startTime boot 9223372037 < boot.
Proof.
  split_and!.
  - unfold collectLinuxProcs. destruct (read_dir fs) as [entries|]; [|done]. by rewrite procs_eq by done.
  - intros pre comm rest. apply parseLinuxStat_text.
  - intros boot ticks Ht. unfold startTime, Add_. rewrite i64_small by (unfold Second; lia). f_equal. unfold Second, linuxClkTck, Millisecond. replace (ticks * 10 ^ 9) with (ticks * (10 * 10 ^ 6) * 100) by lia. by rewrite Z.quot_mul.
  - intros boot. unfold startTime, Add_. change (Z.quot (i64 (9223372037 * Second)) linuxClkTck) with (-92233720367095516). lia.
Qed.

(** *** Witness *)

Definition demo_rest : list string := ["S"; "1"; "1"; "1"; "0"; "-1"; "4194560"; "0"; "0"; "0"; "0"; "250"; "50"; "0"; "0"; "20"; "0"; "7"; "0"; "1000"; "8192"; "3"].
Definition demo_fs : procfs :=
  {| read_dir := Some ["42"; "self"; "stat"]; page_size := 4096; lookup_id := λ _, None;
     read_file := λ p, if bool_decide (p = ["42"; "stat"]) then Some (bytes_of_string (stat_text "42 " "a) (b" demo_rest))
       else if bool_decide (p = ["42"; "status"]) then Some (bytes_of_string "Uid:	501 501") else if bool_decide (p = ["stat"]) then Some (bytes_of_string "btime 1700000000") else None |}.
Lemma linux_procs_exact_witness :
  (λ p, (PID p, PPID p, Command p, FullCommandLine p, User p, RSSKiB p, ThreadCount p)) <$> collectLinuxProcs (UN := ascii_only) (UF := λ _, []) demo_fs (1700000010 * Second) =
    [(42, 1, "a) (b", "[a) (b]", "501", 12, 7)] ∧
  StartTime <$> collectLinuxProcs (UN := ascii_only) (UF := λ _, []) demo_fs (1700000010 * Second) = [1700000010 * Second].
Proof.
  destruct (linux_procs_exact ascii_only (λ _, []) demo_fs (1700000010 * Second)) as (H & _ & _ & _).
  split; [vm_compute; reflexivity|]. etrans; [exact (f_equal (fmap StartTime) H)|]. vm_compute. reflexivity.
Defined.
