(* ===== verification/ProcFamily.v ===== *)
(** * Process families

    [src/internal/process/family.go]: the family of a process (a simulator device,
    Xcode, an emulator, a build, a browser, or the command itself) and the sums
    over families.  A duration in seconds is within [int64], so its conversion is
    the truncation. *)

From Stdlib Require Import Ascii.
From S2P Require Import Prelude Arrays GoStrings GoPath GoText GoRuntime GoSort GoMaps Float64 ProcTree.

Module Family.
Export Process.

Definition FamilySimulator : string := "simulator".
Definition FamilyXcode : string := "xcode".
Definition FamilyEmulator : string := "emulator".
Definition FamilyBuild : string := "build".
Definition FamilyBrowser : string := "browser".
Definition FamilyOther : string := "other".
Definition maxAncestorHops : nat := 64.
Definition heaviestMembers : Z := 3.

Record Member := { mb_PID : Z; mb_Command : string; mb_CPUPct : f64; mb_Age : Z; mb_AgeSeconds : Z }.
Record Family := {
  Key : string; Kind : string; Name : string; UDID : string; Members : Z; fm_CPUPct : f64; SharePct : f64; fm_RSSKiB : Z; fm_StartedAt : option time; Age : Z; AgeSeconds : Z;
  Heaviest : list Member }.
Record famID := { key : string; kind : string; name : string; udid : string }.

Definition xcodeNames : list string := ["xcodebuild"; "xcode"; "xcbbuildservice"; "sourcekitservice"; "ibtoold"; "swift-build"; "simulator"].
Definition buildDrivers : list string := ["gradle"; "make"; "gmake"; "ninja"; "cmake"; "cargo"; "bazel"; "mvn"; "sbt"].
Definition buildTools : list string := ["clang"; "clang++"; "ld"; "swift-frontend"; "swiftc"; "javac"; "kotlinc"; "rustc"; "compile"; "link"; "ccache"; "cc"; "c++"; "gcc"; "g++"].
Definition browserBundles : list (string * string) :=
  [("google chrome.app", "Google Chrome"); ("chromium.app", "Chromium"); ("microsoft edge.app", "Microsoft Edge"); ("brave browser.app", "Brave Browser");
   ("firefox.app", "Firefox"); ("safari.app", "Safari"); ("arc.app", "Arc"); ("opera.app", "Opera")].
Definition browserBinaries : list (string * string) :=
  [("chrome", "Google Chrome"); ("google-chrome", "Google Chrome"); ("google-chrome-stable", "Google Chrome"); ("chromium", "Chromium"); ("chromium-browser", "Chromium");
   ("firefox", "Firefox"); ("firefox-bin", "Firefox"); ("brave", "Brave Browser"); ("brave-browser", "Brave Browser"); ("microsoft-edge", "Microsoft Edge"); ("opera", "Opera")].
(** A read of a map of strings. *)
Fixpoint named_in (l : list (string * string)) (k : string) : string := match l with [] => "" | (k', v) :: l => if bool_decide (k = k') then v else named_in l k end.

(** ** Ages *)

Definition procCPU (p : Info) : f64 := if fgt (CPUPct p) (CPUPercent p) then CPUPct p else CPUPercent p.
Definition procStartRaw (p : Info) : time := if negb (IsZero (StartedAt p)) then StartedAt p else StartTime p.
Definition procAge (p : Info) (now : time) : Z :=
  let age := Elapsed p in
  let start := procStartRaw p in
  if negb (IsZero start) && negb (IsZero now) && After now start then (let d := Sub now start in if age <? d then d else age) else age.
Definition procStart (p : Info) (now : time) (age : Z) : time :=
  let start := procStartRaw p in
  if negb (IsZero start) then start else if (0 <? age) && negb (IsZero now) then Add_ now (i64 (- age)) else zero_time.

(** ** Ancestors *)

Fixpoint ancestorHops (hops : nat) (byPID : gmap Z Info) (seen : gset Z) (cur : Info) : list Info :=
  match hops with
  | O => []
  | S hops =>
    match byPID !! PPID cur with
    | None => []
    | Some parent =>
      if bool_decide (PID parent ∈ seen) then [] else
      let ps := procStartRaw parent in
      let cs := procStartRaw cur in
      if negb (IsZero ps) && negb (IsZero cs) && After ps cs then [] else
      parent :: ancestorHops hops byPID ({[PID parent]} ∪ seen) parent
    end
  end.
Definition ancestors (p : Info) (byPID : gmap Z Info) : list Info := ancestorHops maxAncestorHops byPID {[PID p]} p.

(** ** Names *)

Section Names.
Context {UN : Unicode} {UF : UnicodeFields}.

Definition commandName (p : Info) : string := if bool_decide (Command p ≠ "") then Base (Command p) else Base (ExecutablePath p).
Definition firstToken (s : string) : string := match Fields s with f :: _ => f | [] => s end.
Definition exeText (p : Info) : string :=
  if bool_decide (ExecutablePath p ≠ "") then ExecutablePath p else
  let s := FullCommandLine p in
  if negb (HasPrefix s "/") then firstToken s else
  let marker := Index s ".app/Contents/" in
  let argStart := Index s " /" in
  if (marker <? 0) || ((0 <=? argStart) && (argStart <? marker)) then firstToken s else
  let i := Index (str_drop marker s) " -" in
  if 0 <=? i then str_take (marker + i) s else s.
Definition browserName (p : Info) : string :=
  let exe := exeText p in
  let lower := ToLower exe in
  let i := Index lower ".app/" in
  if 0 <=? i then
    let bundle := str_take (i + 4) lower in
    let j := LastIndex bundle "/" in
    named_in browserBundles (if 0 <=? j then str_drop (j + 1) bundle else bundle)
  else named_in browserBinaries (ToLower (Base (firstToken exe))).
Definition isGradleJVM (name cmdline : string) : bool :=
  if bool_decide (name ≠ "java") then false else
  let s := ToLower cmdline in
  existsb (Contains s) ["gradledaemon"; "gradlewrappermain"; "gradle-launcher"; "kotlin-daemon"; "kotlincompilerdaemon"].
Definition isBuildTool (p : Info) : bool := bool_decide (ToLower (commandName p) ∈ buildTools).
Definition isLaunchdSim (p : Info) : bool := bool_decide (ToLower (commandName p) = "launchd_sim").

(** ** The device of a simulator

    The expression [(?i)CoreSimulator/Devices/([0-9a-f]{8}-...-[0-9a-f]{12})]: a
    letter matches either case, and [s] the long s of Unicode as well. *)

Definition eat_letter (c : char) (s : string) : option string :=
  match s with
  | String d s' =>
    if Ascii.eqb (lower_char d) (lower_char c) then Some s' else
    if Ascii.eqb (lower_char c) "s" && Ascii.eqb d (z2c 197) then match s' with String e s'' => if Ascii.eqb e (z2c 191) then Some s'' else None | "" => None end else None
  | "" => None
  end.
Fixpoint eat_text (p s : string) : option string := match p with "" => Some s | String c p => s ← eat_letter c s; eat_text p s end.
Definition is_hex (c : char) : bool := is_digit c || ((97 <=? c2z (lower_char c)) && (c2z (lower_char c) <=? 102)).
Fixpoint take_hex (n : nat) (s : string) : option (string * string) :=
  match n, s with
  | O, _ => Some ("", s)
  | S n, String c s => if is_hex c then '(h, s) ← take_hex n s; Some (String c h, s) else None
  | S _, "" => None
  end.
Fixpoint take_groups (ns : list nat) (s : string) : option string :=
  match ns with
  | [] => Some ""
  | [n] => '(h, _) ← take_hex n s; Some h
  | n :: ns => '(h, s) ← take_hex n s; match s with String "-" s => rest ← take_groups ns s; Some (h +:+ "-" +:+ rest) | _ => None end
  end.
Definition udid_at (s : string) : option string := s ← eat_text "CoreSimulator/Devices/" s; take_groups [8; 4; 4; 4; 12]%nat s.
(** The leftmost match. *)
Fixpoint simUDID (s : string) : option string :=
  match udid_at s with Some u => Some u | None => match s with String _ s => simUDID s | "" => None end end.

Definition simulatorID (udid : string) : famID := {| key := FamilySimulator +:+ ":" +:+ udid; kind := FamilySimulator; name := "Simulator " +:+ udid; udid := udid |}.
Definition simulatorFamily (p : Info) : option famID :=
  let text := if isLaunchdSim p then FullCommandLine p +:+ " " +:+ ExecutablePath p else exeText p in
  match simUDID text with
  | Some m => Some (simulatorID (ToUpper m))
  | None =>
    if isLaunchdSim p then
      Some {| key := FamilySimulator +:+ ":launchd_sim-" +:+ itoa (PID p); kind := FamilySimulator; name := "Simulator (launchd_sim pid " +:+ itoa (PID p) +:+ ")"; udid := "" |}
    else None
  end.
Definition directFamily (p : Info) : option famID :=
  let name := ToLower (commandName p) in
  if bool_decide (name = "emulator") || HasPrefix name "qemu-" then Some {| key := FamilyEmulator; kind := FamilyEmulator; name := "Emulator (qemu)"; udid := "" |} else
  let app := browserName p in
  if bool_decide (app ≠ "") then Some {| key := FamilyBrowser +:+ ":" +:+ app; kind := FamilyBrowser; name := app; udid := "" |} else
  let exe := ToLower (exeText p) in
  if bool_decide (name ∈ xcodeNames) || Contains exe "/xcode.app/" || HasPrefix name "com.apple.dt." then Some {| key := FamilyXcode; kind := FamilyXcode; name := "Xcode"; udid := "" |} else
  if bool_decide (name ∈ buildDrivers) || isGradleJVM name (FullCommandLine p) then Some {| key := FamilyBuild; kind := FamilyBuild; name := "Build tools"; udid := "" |} else
  None.

(** ** Resolution *)

Fixpoint firstSimulator (chain : list Info) : option famID :=
  match chain with [] => None | a :: chain => match simulatorFamily a with Some id => Some id | None => firstSimulator chain end end.
Fixpoint inherited (tool : bool) (chain : list Info) : option famID :=
  match chain with
  | [] => None
  | a :: chain =>
    match directFamily a with
    | None => inherited tool chain
    | Some aid =>
      if bool_decide (kind aid = FamilyXcode) || bool_decide (kind aid = FamilyEmulator) then Some aid else
      if bool_decide (kind aid = FamilyBuild) && tool then Some aid else inherited tool chain
    end
  end.
Definition otherID (name : string) : famID := {| key := FamilyOther +:+ ":" +:+ name; kind := FamilyOther; name := name; udid := "" |}.
Definition resolveFamily (p : Info) (byPID : gmap Z Info) : famID :=
  let chain := ancestors p byPID in
  match firstSimulator (p :: chain) with
  | Some id => id
  | None =>
    let direct := directFamily p in
    let rest := match inherited (isBuildTool p) chain with Some aid => aid | None => default (otherID (commandName p)) direct end in
    match direct with
    | Some id => if negb (bool_decide (kind id = FamilyBuild)) && negb (isBuildTool p) then id else rest
    | None => rest
    end
  end.
Fixpoint firstLaunchd (chain : list Info) : Z := match chain with [] => 0 | a :: chain => if isLaunchdSim a then PID a else firstLaunchd chain end.
Definition launchdRoot (p : Info) (byPID : gmap Z Info) : Z := firstLaunchd (p :: ancestors p byPID).

Definition deviceStep (byPID : gmap Z Info) (udids : gmap Z (gmap string famID)) (p : Info) : gmap Z (gmap string famID) :=
  let id := resolveFamily p byPID in
  if negb (bool_decide (kind id = FamilySimulator)) then udids else
  let root := launchdRoot p byPID in
  if negb (root =? 0) && bool_decide (udid id ≠ "") then <[root := <[udid id := id]> (default ∅ (udids !! root))]> udids else udids.
(** The identity of a process of a simulator without one, when its tree has one. *)
Definition rekey `{GoRuntime} (byPID : gmap Z Info) (udids : gmap Z (gmap string famID)) (p : Info) : famID :=
  let id := resolveFamily p byPID in
  if bool_decide (kind id = FamilySimulator) && bool_decide (udid id = "") then
    match map_entries (default ∅ (udids !! launchdRoot p byPID)) with [(_, only)] => only | _ => id end
  else id.
Definition resolveAll `{GoRuntime} (procs : list Info) (byPID : gmap Z Info) : list famID :=
  let udids := fold_left (deviceStep byPID) procs ∅ in
  rekey byPID udids <$> procs.

(** ** Sums *)

Definition seconds_int (d : Z) : Z := default 0 (trunc (Seconds d)).
Definition newFamily (id : famID) : Family :=
  {| Key := key id; Kind := kind id; Name := name id; UDID := udid id; Members := 0; fm_CPUPct := f0; SharePct := f0; fm_RSSKiB := 0; fm_StartedAt := None; Age := 0; AgeSeconds := 0; Heaviest := [] |}.
Definition addProc (now : time) (f : Family) (p : Info) : Family :=
  let cpu := procCPU p in
  let age := procAge p now in
  let started := procStart p now age in
  {| Key := Key f; Kind := Kind f; Name := Name f; UDID := UDID f; Members := Members f + 1; fm_CPUPct := fadd (fm_CPUPct f) cpu; SharePct := SharePct f; fm_RSSKiB := i64 (fm_RSSKiB f + RSSKiB p);
     fm_StartedAt := if negb (IsZero started) && match fm_StartedAt f with None => true | Some s => Before started s end then Some started else fm_StartedAt f;
     Age := if Age f <? age then age else Age f; AgeSeconds := AgeSeconds f; Heaviest := Heaviest f |}.
Definition newMember (now : time) (p : Info) : Member :=
  let age := procAge p now in {| mb_PID := PID p; mb_Command := Command p; mb_CPUPct := procCPU p; mb_Age := age; mb_AgeSeconds := seconds_int age |}.
Definition groupStep (now : time) (st : gmap string Family * gmap string (list Member) * f64) (ip : famID * Info) : gmap string Family * gmap string (list Member) * f64 :=
  let '(groups, members, total) := st in
  let '(id, p) := ip in
  let f := default (newFamily id) (groups !! key id) in
  (<[key id := addProc now f p]> groups, <[key id := default [] (members !! key id) ++ [newMember now p]]> members, fadd total (procCPU p)).
Definition memberLess (a b : Member) : bool := if negb (feq (mb_CPUPct a) (mb_CPUPct b)) then fgt (mb_CPUPct a) (mb_CPUPct b) else mb_PID a <? mb_PID b.
Definition topMembersByCPU `{GoRuntime} (ms : list Member) (n : Z) : list Member :=
  let ms := sort_slice memberLess ms in if n <? len ms then take (Z.to_nat n) ms else ms.
Definition finishFamily `{GoRuntime} (total : f64) (members : list Member) (topMembers : Z) (f : Family) : Family :=
  {| Key := Key f; Kind := Kind f; Name := Name f; UDID := UDID f; Members := Members f; fm_CPUPct := fm_CPUPct f;
     SharePct := if fgt total f0 then fmul (fdiv (fm_CPUPct f) total) (of_Z 100) else SharePct f; fm_RSSKiB := fm_RSSKiB f; fm_StartedAt := fm_StartedAt f; Age := Age f;
     AgeSeconds := seconds_int (Age f); Heaviest := topMembersByCPU members topMembers |}.
Definition familyLess (a b : Family) : bool := if negb (feq (fm_CPUPct a) (fm_CPUPct b)) then fgt (fm_CPUPct a) (fm_CPUPct b) else String.ltb (Key a) (Key b).
Definition GroupFamilies `{GoRuntime} (procs : list Info) (now : time) (topMembers : Z) : list Family :=
  let topMembers := if topMembers <=? 0 then heaviestMembers else topMembers in
  let byPID := indexByPID procs in
  let ids := resolveAll procs byPID in
  let '(groups, members, total) := fold_left (groupStep now) (zip ids procs) (∅, ∅, f0) in
  sort_slice familyLess ((λ '(k, f), finishFamily total (default [] (members !! k)) topMembers f) <$> map_entries groups).
End Names.
End Family.

Module FamilyFacts.
Export Family.

(** ** Ancestors *)

(** A chain of parents, nearest first. *)
Inductive chain (byPID : gmap Z Info) : Info → list Info → Prop :=
| chain_end cur : chain byPID cur []
| chain_up cur parent l : byPID !! PPID cur = Some parent → chain byPID parent l → chain byPID cur (parent :: l).
Lemma ancestorHops_spec hops byPID seen cur : chain byPID cur (ancestorHops hops byPID seen cur) ∧ (length (ancestorHops hops byPID seen cur) <= hops)%nat ∧
  NoDup (PID <$> ancestorHops hops byPID seen cur) ∧ ∀ a, a ∈ ancestorHops hops byPID seen cur → PID a ∉ seen.
Proof.
  revert seen cur. induction hops as [|hops IH]; intros seen cur; cbn [ancestorHops].
  { split_and!; [constructor|cbn; lia|constructor|]. intros a Ha. by apply not_elem_of_nil in Ha. }
  assert (chain byPID cur [] ∧ (length (@nil Info) <= S hops)%nat ∧ NoDup (PID <$> @nil Info) ∧ ∀ a, a ∈ [] → PID a ∉ seen) as H0.
  { split_and!; [constructor|cbn; lia|constructor|]. intros a Ha. by apply not_elem_of_nil in Ha. }
  destruct (byPID !! PPID cur) as [parent|] eqn:E; [|exact H0]. case_bool_decide as Hs; [exact H0|]. case_match; [exact H0|]. clear H0.
  destruct (IH ({[PID parent]} ∪ seen) parent) as (I1 & I2 & I3 & I4). split_and!.
  - by apply chain_up.
  - cbn. lia.
  - rewrite fmap_cons. constructor; [|done]. intros (a & Ha & Hin)%list_elem_of_fmap. apply (I4 a Hin). rewrite <-Ha. set_solver.
  - intros a [->|Hin]%elem_of_cons; [done|]. specialize (I4 a Hin). set_solver.
Qed.
Lemma ancestors_spec p byPID : chain byPID p (ancestors p byPID) ∧ (length (ancestors p byPID) <= 64)%nat ∧ NoDup (PID p :: (PID <$> ancestors p byPID)).
Proof.
  destruct (ancestorHops_spec maxAncestorHops byPID {[PID p]} p) as (H1 & H2 & H3 & H4). split; [done|]. split; [done|]. constructor; [|done].
  intros (a & Ha & Hin)%list_elem_of_fmap. apply (H4 a Hin). rewrite <-Ha. by apply elem_of_singleton.
Qed.

(** ** Simulators *)

Section Resolve.
Context {UN : Unicode} {UF : UnicodeFields} {R : GoRuntime} {HR : RuntimeOk R}.

Lemma directFamily_kind p id : directFamily p = Some id → kind id ≠ FamilySimulator.
Proof. unfold directFamily. repeat case_match; intros [= <-] || done; done. Qed.
Lemma inherited_kind tool l id : inherited tool l = Some id → kind id ≠ FamilySimulator.
Proof.
  induction l as [|a l IH]; [done|]. cbn [inherited]. destruct (directFamily a) as [aid|] eqn:E; [|apply IH]. apply directFamily_kind in E. repeat case_match; [intros [= <-]; done..|apply IH].
Qed.
Lemma firstSimulator_id l id : firstSimulator l = Some id → udid id ≠ "" → id = simulatorID (udid id).
Proof.
  induction l as [|a l IH]; [done|]. cbn [firstSimulator]. destruct (simulatorFamily a) as [i|] eqn:E; [|apply IH]. intros [= <-] Hu. unfold simulatorFamily in E.
  destruct (simUDID _); [by injection E as <-|]. destruct (isLaunchdSim a); [|done]. by injection E as <-.
Qed.
Lemma resolveFamily_sim p byPID : kind (resolveFamily p byPID) = FamilySimulator → udid (resolveFamily p byPID) ≠ "" → resolveFamily p byPID = simulatorID (udid (resolveFamily p byPID)).
Proof.
  unfold resolveFamily. destruct (firstSimulator (p :: ancestors p byPID)) as [id|] eqn:E; [intros _ Hu; by apply (firstSimulator_id _ _ E)|]. intros Hk. exfalso. revert Hk.
  destruct (inherited (isBuildTool p) (ancestors p byPID)) as [aid|] eqn:Ei; [apply inherited_kind in Ei|]; (destruct (directFamily p) as [id|] eqn:Ed; [apply directFamily_kind in Ed|]); cbn; try case_match; done.
Qed.

(** A process of a simulator shows the device of its tree. *)
Definition shows (byPID : gmap Z Info) (p : Info) (root : Z) (u : string) : Prop :=
  kind (resolveFamily p byPID) = FamilySimulator ∧ launchdRoot p byPID = root ∧ root ≠ 0 ∧ udid (resolveFamily p byPID) = u ∧ u ≠ "".
#[local] Instance shows_dec byPID p root u : Decision (shows byPID p root u).
Proof. unfold shows. apply _. Defined.
Lemma udids_lookup byPID procs root u :
  default ∅ (fold_left (deviceStep byPID) procs ∅ !! root) !! u = Some (simulatorID u) ∧ (∃ p, p ∈ procs ∧ shows byPID p root u) ∨
  default ∅ (fold_left (deviceStep byPID) procs ∅ !! root) !! u = None ∧ ¬ ∃ p, p ∈ procs ∧ shows byPID p root u.
Proof.
  induction procs as [|p procs IH] using rev_ind; [right; split; [done|]; intros (p & Hp & _); by apply not_elem_of_nil in Hp|]. rewrite fold_left_app. cbn [fold_left].
  set (udids := fold_left (deviceStep byPID) procs ∅) in *. clearbody udids. assert (shows byPID p root u ∨ ¬ shows byPID p root u) as Hdec by (destruct (decide (shows byPID p root u)); auto).
  assert ((∃ q, q ∈ procs ++ [p] ∧ shows byPID q root u) ↔ (∃ q, q ∈ procs ∧ shows byPID q root u) ∨ shows byPID p root u) as ->.
  { setoid_rewrite elem_of_app. setoid_rewrite list_elem_of_singleton. naive_solver. }
  unfold deviceStep. destruct Hdec as [Hs|Hs].
  - pose proof Hs as (Hk & Hr & Hr0 & Hu & Hu0). left. split; [|by right]. rewrite Hk. rewrite bool_decide_eq_true_2 by done. cbn [negb]. rewrite Hr, (proj2 (Z.eqb_neq _ _)), bool_decide_eq_true_2 by congruence. cbn [negb andb].
    rewrite lookup_insert_eq. cbn [default id]. rewrite Hu, lookup_insert_eq. f_equal. rewrite <-Hu. apply resolveFamily_sim; congruence.
  - assert (default ∅ ((if negb (bool_decide (kind (resolveFamily p byPID) = FamilySimulator)) then udids else
      if negb (launchdRoot p byPID =? 0) && bool_decide (udid (resolveFamily p byPID) ≠ "")
      then <[launchdRoot p byPID := <[udid (resolveFamily p byPID) := resolveFamily p byPID]> (default ∅ (udids !! launchdRoot p byPID))]> udids else udids) !! root) !! u = default ∅ (udids !! root) !! u) as ->; [|naive_solver].
    case_bool_decide as Hk; [|done]. cbn [negb]. destruct (Z.eqb_spec (launchdRoot p byPID) 0) as [|Hr0]; [done|]. case_bool_decide as Hu0; [|done]. cbn [negb andb].
    destruct (decide (launchdRoot p byPID = root)) as [<-|Hr]; [|by rewrite lookup_insert_ne]. rewrite lookup_insert_eq. cbn [default id]. rewrite lookup_insert_ne; [done|]. intros <-. by apply Hs.
Qed.
Lemma rekey_one byPID procs p u : p ∈ procs → kind (resolveFamily p byPID) = FamilySimulator → launchdRoot p byPID ≠ 0 →
  (∃ q, q ∈ procs ∧ shows byPID q (launchdRoot p byPID) u) → (∀ q u', q ∈ procs → shows byPID q (launchdRoot p byPID) u' → u' = u) →
  rekey byPID (fold_left (deviceStep byPID) procs ∅) p = simulatorID u.
Proof.
  intros Hp Hk Hr Hex Huniq. unfold rekey. rewrite bool_decide_eq_true_2 by done. cbn [andb]. case_bool_decide as Hu.
  - set (m := default ∅ (fold_left (deviceStep byPID) procs ∅ !! launchdRoot p byPID)). assert (m = {[u := simulatorID u]}) as ->.
    { apply map_eq. intros u'. destruct (udids_lookup byPID procs (launchdRoot p byPID) u') as [[E (q & Hq & Hs)]|[E Hn]]; fold m in E; rewrite E.
      - rewrite (Huniq q u' Hq Hs). by rewrite lookup_singleton_eq.
      - rewrite lookup_singleton_ne; [done|]. intros <-. by apply Hn. }
    pose proof (entries_perm ({[u := simulatorID u]} : gmap string famID)) as Hperm. rewrite map_to_list_singleton in Hperm. apply Permutation_singleton_r in Hperm. by rewrite Hperm.
  - rewrite (resolveFamily_sim p byPID Hk Hu). f_equal. apply (Huniq p); [done|]. by split_and!.
Qed.
End Resolve.

(** ** Sums *)

Section Sums.
Context (now : time).

Definition of_family (k : string) (zs : list (famID * Info)) : list (famID * Info) := filter (λ ip, key ip.1 = k) zs.
Definition family_of (k : string) (zs : list (famID * Info)) : option Family :=
  (λ ip, fold_left (addProc now) (of_family k zs).*2 (newFamily ip.1)) <$> head (of_family k zs).
Lemma of_family_snoc k zs ip : of_family k (zs ++ [ip]) = of_family k zs ++ if decide (key ip.1 = k) then [ip] else [].
Proof. unfold of_family. rewrite filter_app, filter_cons, filter_nil. by case_decide. Qed.
(** The sum in the order of the list, rounded at every step. *)
Definition fsum (l : list f64) : f64 := fold_left fadd l f0.
Lemma fsum_snoc l x : fsum (l ++ [x]) = fadd (fsum l) x.
Proof. unfold fsum. by rewrite fold_left_app. Qed.
Lemma family_groups_lookup zs : let '(groups, members, total) := fold_left (groupStep now) zs (∅, ∅, f0) in total = fsum (procCPU <$> zs.*2) ∧
  ∀ k, groups !! k = family_of k zs ∧ default [] (members !! k) = newMember now <$> (of_family k zs).*2.
Proof.
  induction zs as [|[fid p] zs IH] using rev_ind; [done|]. rewrite fold_left_app. cbn [fold_left]. destruct (fold_left (groupStep now) zs _) as [[groups members] total]. cbn [groupStep]. destruct IH as [-> IH]. split; [by rewrite !fmap_app, (fsum_snoc _ (procCPU p))|]. intros k.
  unfold family_of. rewrite of_family_snoc. cbn [fst snd]. destruct (decide (key fid = k)) as [<-|Hk].
  - rewrite !lookup_insert_eq. destruct (IH (key fid)) as [-> ->]. cbn [default id]. split; [|by rewrite !fmap_app]. unfold family_of.
    destruct (of_family (key fid) zs) as [|[id0 p0] l]; [done|]. trans (Some (fold_left (addProc now) (((id0, p0) :: l) ++ [(fid, p)]).*2 (newFamily id0))); [|done].
    rewrite (fmap_app snd ((id0, p0) :: l) [(fid, p)]), fold_left_app. done.
  - rewrite !lookup_insert_ne, app_nil_r by done. apply IH.
Qed.

(** The earliest start among those that are known. *)
Definition starts (ps : list Info) : list time := filter (λ t, IsZero t = false) ((λ p, procStart p now (procAge p now)) <$> ps).
Definition earliest (l : list time) : option time := fold_left (λ m t, match m with None => Some t | Some s => if Before t s then Some t else m end) l None.
Lemma earliest_spec l : match earliest l with None => l = [] | Some s => s ∈ l ∧ ∀ t, t ∈ l → s <= t end.
Proof.
  unfold earliest. induction l as [|x l IH] using rev_ind; [done|]. rewrite fold_left_app. cbn [fold_left]. destruct (fold_left _ l None) as [s|].
  - destruct IH as [H1 H2]. unfold Before. destruct (Z.ltb_spec x s).
    + split; [apply elem_of_app; right; by left|]. intros t [Ht| ->%list_elem_of_singleton]%elem_of_app; [|lia]. specialize (H2 t Ht). lia.
    + split; [apply elem_of_app; by left|]. intros t [Ht| ->%list_elem_of_singleton]%elem_of_app; [by apply H2|lia].
  - subst l. split; [by left|]. intros t ->%list_elem_of_singleton. lia.
Qed.
Definition oldest (ps : list Info) : Z := fold_left (λ a p, Z.max a (procAge p now)) ps 0.
Lemma addProcs_spec ps id : let f := fold_left (addProc now) ps (newFamily id) in
  Key f = key id ∧ Kind f = kind id ∧ Members f = len ps ∧ fm_CPUPct f = fsum (procCPU <$> ps) ∧ fm_RSSKiB f = i64 (sum_over RSSKiB ps) ∧ Age f = oldest ps ∧ fm_StartedAt f = earliest (starts ps).
Proof.
  induction ps as [|p ps IH] using rev_ind; [done|]. cbn zeta in *. rewrite fold_left_app. cbn [fold_left]. destruct IH as (H1 & H2 & H3 & Hc & H4 & H5 & H6). set (f := fold_left (addProc now) ps (newFamily id)) in *. clearbody f. unfold addProc. cbn [Key Kind Members fm_CPUPct fm_RSSKiB Age fm_StartedAt]. split_and!; [done|done| | | | |].
  - rewrite H3, len_app. done.
  - by rewrite fmap_app, (fsum_snoc _ (procCPU p)), Hc.
  - rewrite H4, i64_add, sum_over_app. f_equal. cbn. lia.
  - unfold oldest in *. rewrite fold_left_app. cbn [fold_left]. rewrite <-H5. destruct (Z.ltb_spec (Age f) (procAge p now)); lia.
  - unfold starts in *. rewrite fmap_app, filter_app. cbn [fmap list_fmap]. rewrite filter_cons, filter_nil. unfold earliest in *. rewrite fold_left_app, <-H6. destruct (IsZero _) eqn:Ez; cbn [negb andb].
    + rewrite decide_False by done. done.
    + rewrite decide_True by done. cbn [fold_left]. by destruct (fm_StartedAt f).
Qed.

(** The share is set at the end. *)
Definition share (cpu total : f64) : f64 := if fgt total f0 then fmul (fdiv cpu total) (of_Z 100) else f0.
Lemma addProcs_share ps id : SharePct (fold_left (addProc now) ps (newFamily id)) = f0.
Proof. induction ps as [|p ps IH] using rev_ind; [done|]. rewrite fold_left_app. exact IH. Qed.

Lemma family_sizes ks (zs : list (famID * Info)) : NoDup ks → (∀ ip, ip ∈ zs → key ip.1 ∈ ks) → sum_over (λ k, len (of_family k zs)) ks = len zs.
Proof.
  intros Hn. induction zs as [|ip zs IH] using rev_ind; intros Hin; [apply sum_over_zero|]. rewrite len_app, <-IH by (intros x Hx; apply Hin, elem_of_app; by left).
  rewrite (sum_over_ext _ (λ k, len (of_family k zs) + if decide (key ip.1 = k) then 1 else 0)) by (intros k _; rewrite of_family_snoc, len_app; by case_decide).
  rewrite sum_over_add. f_equal. rewrite (sum_over_change (λ _, 0) _ ks (key ip.1)), sum_over_zero, decide_True; [done|done|done| |].
  - apply Hin, elem_of_app. right. by left.
  - intros k _ Hk. by rewrite decide_False.
Qed.
Lemma family_nonempty k (ids : list famID) (procs : list Info) : length ids = length procs → of_family k (zip ids procs) ≠ [] ↔ k ∈ key <$> ids.
Proof.
  intros Hlen. rewrite list_elem_of_fmap. split.
  - intros Hn. destruct (of_family k (zip ids procs)) as [|[id p] l] eqn:E; [done|]. assert ((id, p) ∈ of_family k (zip ids procs)) as [Hk Hin]%list_elem_of_filter by (rewrite E; by left).
    exists id. split; [done|]. by apply elem_of_zip_l in Hin.
  - intros (id & -> & [i Hi]%list_elem_of_lookup) Hn. destruct (lookup_lt_is_Some_2 procs i) as [p Hp]; [rewrite <-Hlen; by eapply lookup_lt_Some|].
    assert ((id, p) ∈ of_family (key id) (zip ids procs)) as Hin; [|rewrite Hn in Hin; by apply not_elem_of_nil in Hin]. apply list_elem_of_filter. split; [done|].
    apply list_elem_of_lookup. exists i. apply lookup_zip_with_Some. by exists id, p.
Qed.
End Sums.

(** ** Rankings *)

(** Without NaN, a descending order by a number and then by [tie] is an order. *)
Definition number (x : f64) : f64 := if is_nan x then f0 else x.
Lemma number_weak : strict_weak (λ x y, fgt (number x) (number y)).
Proof.
  assert (∀ x, is_nan (number x) = false) as Hn by (intros x; unfold number; by destruct (is_nan x) eqn:E).
  unfold fgt. split.
  - intros x y [_ H]%flt_spec. destruct (flt (number x) (number y)) eqn:E; [|done]. apply flt_le in E. congruence.
  - intros x y z H1%flt_false H2%flt_false; [|done..]. destruct (flt (number x) (number z)) eqn:E; [|done].
    apply flt_spec in E as [_ E]. by rewrite (fle_trans _ _ _ H2 H1) in E.
Qed.
Lemma feq_flt x y : is_nan x = false → is_nan y = false → feq x y = negb (flt x y) && negb (flt y x).
Proof.
  intros Hx Hy. unfold feq, flt, SFeqb, SFltb. rewrite !SFcompare_class, Hx, Hy. cbn [orb]. rewrite (Z.compare_antisym (class_of x)).
  destruct (Z.compare_spec (class_of x) (class_of y)) as [Hc| |]; [|done..]. cbn [CompOpp]. rewrite (within_antisym x y Hc). by destruct (within x y).
Qed.
Lemma descending_on {A} (cpu : A → f64) (tie : A → A → bool) : strict_weak tie →
  strict_weak_on (λ a, is_nan (cpu a) = false) (λ a b, if negb (feq (cpu a) (cpu b)) then fgt (cpu a) (cpu b) else tie a b).
Proof.
  intros Ht. pose proof (strict_weak_lex _ _ (strict_weak_key cpu _ number_weak) Ht) as Hw. eapply strict_weak_on_ext; [|exact Hw].
  intros a b Ha Hb. cbn beta. unfold number. rewrite Ha, Hb, feq_flt by done. unfold fgt.
  by destruct (flt (cpu b) (cpu a)), (flt (cpu a) (cpu b)).
Qed.

(** The members shown are the first of a ranking that has all of them. *)
Definition shown (n : Z) (ms top : list Member) : Prop := ∃ ranked,
  ranked ≡ₚ ms ∧ top = take (Z.to_nat n) ranked ∧ (Forall (λ m, is_nan (mb_CPUPct m) = false) ms → StronglySorted (λ a b, memberLess b a = false) ranked).
Lemma topMembers_spec {R : GoRuntime} {HR : RuntimeOk R} ms n : shown n ms (topMembersByCPU ms n).
Proof.
  exists (sort_slice memberLess ms). split; [apply sort_perm|]. split.
  - unfold topMembersByCPU. destruct (Z.ltb_spec n (len (sort_slice memberLess ms))); [done|]. rewrite take_ge; [done|]. unfold len in *. lia.
  - apply sort_strongly_on. apply (descending_on mb_CPUPct), (strict_weak_key mb_PID), strict_weak_Z.
Qed.
End FamilyFacts.

(** ** Properties *)

Import FamilyFacts.

(** The families with what they are defined to have. *)
Lemma families_members (UN : Unicode) (UF : UnicodeFields) (R : GoRuntime) (HR : RuntimeOk R) procs now top :
  let byPID := indexByPID procs in let ids := resolveAll procs byPID in let out := GroupFamilies procs now top in
  Key <$> out ≡ₚ remove_dups (key <$> ids) ∧
  (∀ f, f ∈ out → let ps := (of_family (Key f) (zip ids procs)).*2 in
    Members f = len ps ∧ fm_CPUPct f = fsum (procCPU <$> ps) ∧ SharePct f = share (fm_CPUPct f) (fsum (procCPU <$> procs)) ∧
    fm_RSSKiB f = i64 (sum_over RSSKiB ps) ∧ Age f = oldest now ps ∧ fm_StartedAt f = earliest (starts now ps) ∧
    shown (if top <=? 0 then 3 else top) (newMember now <$> ps) (Heaviest f)) ∧
  (Forall (λ f, is_nan (fm_CPUPct f) = false) out → StronglySorted (λ a b, familyLess b a = false) out).
Proof.
  intros byPID ids out. assert (length ids = length procs) as Hlen by (unfold ids, resolveAll; by rewrite length_fmap).
  pose proof (family_groups_lookup now (zip ids procs)) as Hg. unfold out, GroupFamilies. fold byPID. fold ids. destruct (fold_left (groupStep now) (zip ids procs) _) as [[groups members] total].
  destruct Hg as [-> Hg]. rewrite snd_zip by lia. set (total := fsum (procCPU <$> procs)).
  set (n := if top <=? 0 then heaviestMembers else top). set (fin := λ '(k, f), finishFamily total (default [] (members !! k)) n f).
  assert (∀ k f, groups !! k = Some f → Key f = k ∧ Key (fin (k, f)) = k) as Hkey.
  { intros k f. rewrite (proj1 (Hg k)). intros (ip & Hh & ->)%fmap_Some_1. unfold fin, finishFamily. cbn [Key]. rewrite (proj1 (addProcs_spec now _ _)).
    assert (ip ∈ of_family k (zip ids procs)) as [Hk _]%list_elem_of_filter by (by apply head_Some_elem_of). done. }
  assert (∀ k, is_Some (groups !! k) ↔ k ∈ key <$> ids) as Hdom.
  { intros k. rewrite (proj1 (Hg k)). unfold family_of. rewrite fmap_is_Some, head_is_Some. apply (family_nonempty k ids procs Hlen). }
  assert (Key <$> (fin <$> map_entries groups) = map_keys groups) as Hkeys.
  { unfold map_keys. rewrite <-list_fmap_compose. apply list_fmap_ext. intros i [k f] Hi. apply (Hkey k f). apply elem_of_entries. by eapply list_elem_of_lookup_2. }
  split_and!.
  - rewrite sort_perm, Hkeys. apply NoDup_Permutation; [apply entries_NoDup|apply NoDup_remove_dups|]. intros k. by rewrite elem_of_keys, elem_of_remove_dups.
  - intros f. rewrite elem_of_sort. intros ([k g] & -> & Hin%elem_of_entries)%list_elem_of_fmap. rewrite (proj2 (Hkey k g Hin)). pose proof (proj2 (Hg k)) as Hm. rewrite (proj1 (Hg k)) in Hin. apply fmap_Some_1 in Hin as (ip & _ & ->).
    cbn zeta. unfold fin, finishFamily. cbn [Members fm_CPUPct SharePct fm_RSSKiB Age fm_StartedAt Heaviest]. destruct (addProcs_spec now (of_family k (zip ids procs)).*2 ip.1) as (_ & _ & -> & -> & -> & -> & ->). rewrite addProcs_share, Hm.
    split_and!; try done. apply topMembers_spec.
  - intros Hnan. rewrite sort_perm in Hnan. revert Hnan. apply sort_strongly_on. apply (descending_on fm_CPUPct), (strict_weak_key Key), strict_weak_string.
Qed.


(** *** Witness *)

Definition demo_proc (pid ppid rss : Z) (cmd exe full : string) : Info :=
  {| PID := pid; PPID := ppid; UID := 0; User := ""; Command := cmd; BSDName := ""; ExecutablePath := exe; FullCommandLine := full; RSSKiB := rss; VSizeKiB := 0; VSZBytes := 0;
     ThreadCount := 0; CPUPct := of_Z 10; CPUPercent := f0; MemPercent := f0; StartTime := pid * Second; StartedAt := zero_time; Elapsed := 0; AppPath := "" |}.
(** A simulator whose root does not show its device, an application in it that
    does, a compiler below make, and a shell. *)
Definition demo_device : string := "01234567-89AB-CDEF-0123-456789ABCDEF".
Definition demo_procs : list Info :=
  [demo_proc 10 1 5 "launchd_sim" "/sim/launchd_sim" "launchd_sim"; demo_proc 11 10 6 "App" ("/x/CoreSimulator/Devices/" +:+ demo_device +:+ "/App") ""; demo_proc 12 10 7 "helper" "/bin/helper" "";
   demo_proc 20 1 8 "make" "/usr/bin/make" ""; demo_proc 21 20 9 "cc" "/usr/bin/cc" ""; demo_proc 30 1 1 "zsh" "/bin/zsh" ""].
