(* ===== verification/SourceMap.v ===== *)
(** * Source maps

    [src/internal/sourcemap]: the decoder of the mappings of a Source Map v3
    document (base64 digits of variable length, differences between segments)
    and the resolution of a generated position. *)

From Stdlib Require Import Ascii.
From S2P Require Import Prelude Arrays GoStrings GoRuntime GoPath GoText GoJSON.

(** ** The standard library *)

(** [strings.IndexByte] *)
Fixpoint IndexByte (s : string) (c : char) : Z :=
  match s with
  | "" => -1
  | String d s => if Ascii.eqb d c then 0 else let i := IndexByte s c in if i <? 0 then -1 else i + 1
  end.
(** [%q] of a byte *)
Definition QuoteRune `{Printable} (r : Z) : string :=
  "'" +:+ (if r =? 39 then "\'" else if r =? 34 then String (z2c 34) "" else escapeRune r) +:+ "'".

(** [sort.Search]: the interval halves in every round. *)
Fixpoint searchLoop (fuel : nat) (f : Z → outcome bool) (i j : Z) : outcome Z :=
  match fuel with
  | O => out_of_fuel
  | S fuel =>
    if i <? j then
      let h := Z.shiftr (u64 (i + j)) 1 in
      b ← f h;
      if negb b then searchLoop fuel f (h + 1) j else searchLoop fuel f i h
    else Ok i
  end.
Definition sort_Search (n : Z) (f : Z → outcome bool) : outcome Z := searchLoop (S (Z.to_nat n)) f 0 n.

Lemma searchLoop_spec fuel f (p : Z → bool) n i j :
  (∀ k, 0 <= k < n → f k = Ok (p k)) → (∀ k l, 0 <= k <= l → l < n → p k = true → p l = true) → n < 2 ^ 63 →
  0 <= i <= j → j <= n → (Z.to_nat (j - i) < fuel)%nat → (∀ k, 0 <= k < i → p k = false) → (∀ k, j <= k < n → p k = true) →
  runs (searchLoop fuel f i j) (λ r, 0 <= r <= n ∧ (∀ k, 0 <= k < r → p k = false) ∧ (∀ k, r <= k < n → p k = true)).
Proof.
  intros Hf Hp Hn. revert i j. induction fuel as [|fuel IH]; intros i j Hi Hj Hfuel Hlo Hhi; [lia|]. cbn [searchLoop].
  destruct (Z.ltb_spec i j) as [Hij|Hij]; [|apply runs_ok; split_and!; [lia..|done|intros; apply Hhi; lia]].
  set (h := Z.shiftr (u64 (i + j)) 1). assert (i <= h < j) as Hh.
  { unfold h. rewrite wrap_small by lia. rewrite Z.shiftr_div_pow2 by lia. change (2 ^ 1) with 2. split; [apply Z.div_le_lower_bound; lia|apply Z.div_lt_upper_bound; lia]. }
  rewrite (Hf h) by lia. cbn [mbind outcome_bind]. destruct (p h) eqn:E; cbn [negb].
  - apply IH; [lia..|done|]. intros k Hk. apply (Hp h); [lia..|done].
  - apply IH; [lia..| |done]. intros k Hk. destruct (p k) eqn:E'; [|done]. rewrite (Hp k h) in E; [done|lia..|done].
Qed.
Lemma sort_Search_spec n f (p : Z → bool) :
  (∀ k, 0 <= k < n → f k = Ok (p k)) → (∀ k l, 0 <= k <= l → l < n → p k = true → p l = true) → 0 <= n < 2 ^ 63 →
  runs (sort_Search n f) (λ r, 0 <= r <= n ∧ (∀ k, 0 <= k < r → p k = false) ∧ (∀ k, r <= k < n → p k = true)).
Proof. intros. apply searchLoop_spec; auto; lia. Qed.

(** ** The code *)

Module SourceMaps.

Definition base64Alphabet : string := "ABCDEFGHIJKLMNOPQRSTUVWXYZabcdefghijklmnopqrstuvwxyz0123456789+/".

Record Position := { pos_Source : string; Line : Z; Column : Z; pos_Name : string }.
Record segment := { genCol : Z; sourceIdx : Z; srcLine : Z; srcCol : Z; nameIdx : Z; hasSource : bool; hasName : bool }.
Record SourceMap := { sources : list string; names : list string; root : string; lines : list (list segment) }.
Record rawMap := { rm_Version : Z; rm_Sources : list string; rm_Names : list string; rm_Mappings : string; rm_SourceRoot : string }.
(** Its decoding from a document. *)
Definition dec_rawMap : decoder rawMap := dec_struct [
  ("version", on rm_Version (λ r x, {| rm_Version := x; rm_Sources := rm_Sources r; rm_Names := rm_Names r; rm_Mappings := rm_Mappings r; rm_SourceRoot := rm_SourceRoot r |}) dec_int);
  ("sources", on rm_Sources (λ r x, {| rm_Version := rm_Version r; rm_Sources := x; rm_Names := rm_Names r; rm_Mappings := rm_Mappings r; rm_SourceRoot := rm_SourceRoot r |}) dec_strings);
  ("names", on rm_Names (λ r x, {| rm_Version := rm_Version r; rm_Sources := rm_Sources r; rm_Names := x; rm_Mappings := rm_Mappings r; rm_SourceRoot := rm_SourceRoot r |}) dec_strings);
  ("mappings", on rm_Mappings (λ r x, {| rm_Version := rm_Version r; rm_Sources := rm_Sources r; rm_Names := rm_Names r; rm_Mappings := x; rm_SourceRoot := rm_SourceRoot r |}) dec_string);
  ("sourceRoot", on rm_SourceRoot (λ r x, {| rm_Version := rm_Version r; rm_Sources := rm_Sources r; rm_Names := rm_Names r; rm_Mappings := rm_Mappings r; rm_SourceRoot := x |}) dec_string)].
Definition zero_rawMap : rawMap := {| rm_Version := 0; rm_Sources := []; rm_Names := []; rm_Mappings := ""; rm_SourceRoot := "" |}.
Record accum := { a_sourceIdx : Z; a_srcLine : Z; a_srcCol : Z; a_nameIdx : Z }.

Section Decode.
Context `{Printable}.

(** The loop of [decodeVLQ]. *)
Fixpoint vlqLoop (seg : string) (out : list Z) (shift value : Z) : outcome (list Z * Z) :=
  match seg with
  | "" => Ok (out, shift)
  | String c seg =>
    let d := IndexByte base64Alphabet c in
    if d <? 0 then Err (Errorf ("sourcemap: invalid base64 char " +:+ QuoteRune (c2z c))) else
    let digit := Z.land d 0x1f in
    let value := i64 (value + i64 (Z.shiftl digit shift)) in
    if negb (Z.land d 0x20 =? 0) then vlqLoop seg out (u64 (shift + 5)) value
    else
      let neg := negb (Z.land value 1 =? 0) in
      let v := Z.shiftr value 1 in
      let v := if neg then i64 (- v) else v in
      vlqLoop seg (out ++ [v]) 0 0
  end.
Definition decodeVLQ (seg : string) : outcome (list Z) :=
  '(out, shift) ← vlqLoop seg [] 0 0;
  if negb (shift =? 0) then Err (Errorf "sourcemap: truncated VLQ sequence") else Ok out.

Definition buildSegment (vals : list Z) (col : Z) (a : accum) : outcome (segment * Z * accum) :=
  let n := len vals in
  if negb (n =? 1) && negb (n =? 4) && negb (n =? 5) then
    Err (Errorf ("sourcemap: segment has " +:+ itoa n +:+ " fields, want 1, 4, or 5"))
  else
  v0 ← idx vals 0;
  let col := i64 (col + v0) in
  let s := {| genCol := col; sourceIdx := 0; srcLine := 0; srcCol := 0; nameIdx := -1; hasSource := false; hasName := false |} in
  '(s, a) ← (if 4 <=? n then
               v1 ← idx vals 1; v2 ← idx vals 2; v3 ← idx vals 3;
               let a := {| a_sourceIdx := i64 (a_sourceIdx a + v1); a_srcLine := i64 (a_srcLine a + v2); a_srcCol := i64 (a_srcCol a + v3); a_nameIdx := a_nameIdx a |} in
               Ok ({| genCol := genCol s; sourceIdx := a_sourceIdx a; srcLine := a_srcLine a; srcCol := a_srcCol a;
                      nameIdx := nameIdx s; hasSource := true; hasName := hasName s |}, a)
             else Ok (s, a) : outcome (segment * accum));
  if n =? 5 then
    v4 ← idx vals 4;
    let a := {| a_sourceIdx := a_sourceIdx a; a_srcLine := a_srcLine a; a_srcCol := a_srcCol a; a_nameIdx := i64 (a_nameIdx a + v4) |} in
    Ok ({| genCol := genCol s; sourceIdx := sourceIdx s; srcLine := srcLine s; srcCol := srcCol s;
           nameIdx := a_nameIdx a; hasSource := hasSource s; hasName := true |}, col, a)
  else Ok (s, col, a).

Context `{GoRuntime}.

Definition byColumn (x y : segment) : bool := genCol x <? genCol y.
Definition segStep (st : list segment * Z * accum) (raw : string) : outcome (list segment * Z * accum) :=
  let '(segs, col, a) := st in
  if bool_decide (raw = "") then Ok st else
  vals ← decodeVLQ raw;
  '(seg, col, a) ← buildSegment vals col a;
  Ok (segs ++ [seg], col, a).
Definition lineStep (st : list (list segment) * accum) (line : string) : outcome (list (list segment) * accum) :=
  let '(ls, a) := st in
  if bool_decide (line = "") then Ok (ls ++ [[]], a) else
  '(segs, _, a) ← for_each (Split line ",") segStep ([], 0, a);
  Ok (ls ++ [sort_slice byColumn segs], a).
Definition decodeMappings (mappings : string) : outcome (list (list segment)) :=
  '(ls, _) ← for_each (Split mappings ";") lineStep ([], {| a_sourceIdx := 0; a_srcLine := 0; a_srcCol := 0; a_nameIdx := 0 |});
  Ok ls.

Context {JE : JSONErrors}.
Definition Parse (data : list byte) : outcome SourceMap :=
  r ← wrap_err "sourcemap: %w" (unmarshal_ok dec_rawMap zero_rawMap (string_of_bytes data));
  if negb (rm_Version r =? 0) && negb (rm_Version r =? 3) then Err (Errorf ("sourcemap: unsupported version " +:+ itoa (rm_Version r))) else
  ls ← decodeMappings (rm_Mappings r);
  Ok {| sources := rm_Sources r; names := rm_Names r; root := rm_SourceRoot r; lines := ls |}.
End Decode.

Definition noPosition : Position := {| pos_Source := ""; Line := 0; Column := 0; pos_Name := "" |}.
Definition Lookup (sm : SourceMap) (genLine col : Z) : outcome (Position * bool) :=
  let li := i64 (genLine - 1) in
  if (li <? 0) || (len (lines sm) <=? li) then Ok (noPosition, false) else
  segs ← idx (lines sm) li;
  if len segs =? 0 then Ok (noPosition, false) else
  n ← sort_Search (len segs) (λ i, s ← idx segs i; Ok (col <? genCol s));
  let i := n - 1 in
  if i <? 0 then Ok (noPosition, false) else
  s ← idx segs i;
  if negb (hasSource s) then Ok (noPosition, false) else
  source ← (if (0 <=? sourceIdx s) && (sourceIdx s <? len (sources sm)) then x ← idx (sources sm) (sourceIdx s); Ok (root sm +:+ x) else Ok "" : outcome string);
  name ← (if hasName s && (0 <=? nameIdx s) && (nameIdx s <? len (names sm)) then idx (names sm) (nameIdx s) else Ok "" : outcome string);
  Ok ({| pos_Source := source; Line := i64 (srcLine s + 1); Column := srcCol s; pos_Name := name |}, true).
End SourceMaps.

Module SourceMapFacts.
Export SourceMaps.

(** ** Resolution *)

#[global] Instance segment_inhabited : Inhabited segment :=
  populate {| genCol := 0; sourceIdx := 0; srcLine := 0; srcCol := 0; nameIdx := 0; hasSource := false; hasName := false |}.

Definition by_column (segs : list segment) : Prop := StronglySorted (λ x y, genCol x <= genCol y) segs.
Lemma byColumn_weak : strict_weak byColumn.
Proof. apply (strict_weak_key genCol), strict_weak_Z. Qed.

(** The segment that covers a column of a line: the last one that does not begin after it. *)
Definition covering (segs : list segment) (col : Z) : option segment := last (filter (λ s, genCol s <= col) segs).
(** The location a segment names. *)
Definition original (sm : SourceMap) (s : segment) : Position :=
  {| pos_Source := match (if 0 <=? sourceIdx s then sources sm !! Z.to_nat (sourceIdx s) else None) with Some x => root sm +:+ x | None => "" end;
     Line := i64 (srcLine s + 1); Column := srcCol s;
     pos_Name := if hasName s then default "" (if 0 <=? nameIdx s then names sm !! Z.to_nat (nameIdx s) else None) else "" |}.
Definition resolve (sm : SourceMap) (genLine col : Z) : option Position :=
  if genLine <? 1 then None else
  segs ← lines sm !! Z.to_nat (genLine - 1);
  s ← covering segs col;
  if hasSource s then Some (original sm s) else None.

Lemma StronglySorted_lookup {A} (Q : A → A → Prop) (l : list A) i j x y :
  StronglySorted Q l → l !! i = Some x → l !! j = Some y → (i < j)%nat → Q x y.
Proof.
  intros Hs. revert i j. induction Hs as [|z l Hs IH Hz]; intros i j Hi Hj Hij; [done|]. destruct j as [|j]; [lia|]. cbn in Hj. destruct i as [|i].
  - injection Hi as ->. by eapply Forall_lookup_1.
  - apply (IH i j); [done|done|lia].
Qed.
Lemma get_sorted segs k l : by_column segs → 0 <= k <= l → l < len segs → genCol (get segs k) <= genCol (get segs l).
Proof.
  intros Hs Hk Hl. destruct (decide (k = l)) as [->|Hne]; [lia|].
  apply (StronglySorted_lookup _ segs (Z.to_nat k) (Z.to_nat l)) with (1 := Hs); [apply lookup_get; lia..|lia].
Qed.

Lemma covering_prefix segs col r : 0 <= r <= len segs → (∀ k, 0 <= k < r → genCol (get segs k) <= col) → (∀ k, r <= k < len segs → col < genCol (get segs k)) →
  covering segs col = if r =? 0 then None else Some (get segs (r - 1)).
Proof.
  intros Hr Hlo Hhi. unfold covering. assert (filter (λ s, genCol s <= col) segs = take (Z.to_nat r) segs) as ->.
  { rewrite <-(take_drop (Z.to_nat r) segs) at 1. rewrite filter_app, filter_all, filter_none, app_nil_r; [done|..].
    - intros x (i & Hi)%list_elem_of_lookup. rewrite lookup_drop in Hi. pose proof (lookup_lt_Some _ _ _ Hi) as Hlt. unfold len in *.
      specialize (Hhi (r + Z.of_nat i)). rewrite (get_lookup segs (r + Z.of_nat i) x) in Hhi by (by replace (Z.to_nat (r + Z.of_nat i)) with (Z.to_nat r + i)%nat by lia). lia.
    - intros x (i & Hi & Hir)%elem_of_take. specialize (Hlo (Z.of_nat i)). rewrite (get_lookup segs (Z.of_nat i) x) in Hlo by (by rewrite Nat2Z.id). lia. }
  destruct (Z.eqb_spec r 0) as [->|Hne]; [done|]. unfold len in *. rewrite last_lookup, length_take, lookup_take_lt by lia.
  replace (pred (Z.to_nat r `min` length segs)) with (Z.to_nat (r - 1)) by lia. apply lookup_get. unfold len; lia.
Qed.
Lemma idx_default {A} (l : list A) i (d : A) : (if (0 <=? i) && (i <? len l) then idx l i else Ok d) = Ok (default d (if 0 <=? i then l !! Z.to_nat i else None)).
Proof.
  destruct (Z.leb_spec 0 i) as [Hi|]; [|done]. cbn [andb]. destruct (Z.ltb_spec i (len l)) as [Hl|Hl].
  - destruct (idx_some l i) as (a & Ha & ->); [lia|]. by rewrite Ha.
  - rewrite lookup_ge_None_2; [done|]. unfold len in Hl. lia.
Qed.
Lemma Lookup_spec sm genLine col : Forall by_column (lines sm) → len (lines sm) < 2 ^ 63 → Forall (λ segs, len segs < 2 ^ 63) (lines sm) → - 2 ^ 63 <= genLine < 2 ^ 63 →
  Lookup sm genLine col = Ok (match resolve sm genLine col with Some p => (p, true) | None => (noPosition, false) end).
Proof.
  intros Hs Hl Hn Hg. unfold Lookup, resolve. destruct (Z.ltb_spec genLine 1) as [Hg1|Hg1].
  { destruct (decide (genLine = - 2 ^ 63)) as [->|]; [|rewrite i64_small by lia; by rewrite (proj2 (Z.ltb_lt _ _)) by lia].
    change (i64 (- 2 ^ 63 - 1)) with (2 ^ 63 - 1). rewrite (proj2 (Z.leb_le _ _)) by lia. by rewrite orb_true_r. }
  rewrite i64_small by lia. rewrite (proj2 (Z.ltb_ge _ _)) by lia. cbn [orb]. destruct (Z.leb_spec (len (lines sm)) (genLine - 1)) as [Hlen|Hlen].
  { rewrite lookup_ge_None_2; [done|]. unfold len in Hlen. lia. }
  destruct (idx_some (lines sm) (genLine - 1)) as (segs & Hsegs & ->); [lia|]. rewrite Hsegs. cbn [mbind outcome_bind option_bind].
  pose proof (Forall_lookup_1 _ _ _ _ Hs Hsegs) as Hby. pose proof (Forall_lookup_1 _ _ _ _ Hn Hsegs) as Hlt. cbn beta in Hlt.
  destruct (Z.eqb_spec (len segs) 0) as [H0|H0]; [by destruct segs|]. pose proof (len_nonneg segs).
  destruct (sort_Search_spec (len segs) (λ i, s ← idx segs i; Ok (col <? genCol s)) (λ k, col <? genCol (get segs k))) as (r & -> & Hr & Hlo & Hhi).
  { intros k Hk. by rewrite idx_get. }
  { intros k l Hk Hkl. rewrite !Z.ltb_lt. pose proof (get_sorted segs k l Hby Hk Hkl). lia. }
  { lia. }
  cbn [mbind outcome_bind]. rewrite (covering_prefix segs col r Hr); [|intros k Hk; specialize (Hlo k Hk); glia|intros k Hk; specialize (Hhi k Hk); glia].
  destruct (Z.eqb_spec r 0) as [->|Hr0]; [done|]. rewrite (proj2 (Z.ltb_ge _ _)) by lia. rewrite idx_get by lia. cbn [mbind outcome_bind option_bind].
  set (s := get segs (r - 1)). unfold original. destruct (hasSource s); cbn [negb]; [|done].
  assert ((if (0 <=? sourceIdx s) && (sourceIdx s <? len (sources sm)) then x ← idx (sources sm) (sourceIdx s); Ok (root sm +:+ x) else Ok "") =
    Ok match (if 0 <=? sourceIdx s then sources sm !! Z.to_nat (sourceIdx s) else None) with Some x => root sm +:+ x | None => "" end) as ->.
  { destruct (_ && _) eqn:E.
    - to_prop. destruct (idx_some (sources sm) (sourceIdx s)) as (x & Hx & ->); [lia|]. rewrite (proj2 (Z.leb_le _ _)) by lia. by rewrite Hx.
    - destruct (Z.leb_spec 0 (sourceIdx s)); [|done]. cbn [andb] in E. to_prop. rewrite lookup_ge_None_2; [done|]. unfold len in E. lia. }
  destruct (hasName s); cbn [andb mbind outcome_bind]; [by rewrite idx_default|done].
Qed.

(** ** Decoding *)

Section Decoded.
Context `{Printable} {R : GoRuntime} {HR : RuntimeOk R} {JE : JSONErrors}.

Lemma for_each_inv {A S} (Inv : S → Prop) (l : list A) body (s s' : S) :
  Inv s → (∀ s x s', Inv s → body s x = Ok s' → Inv s') → for_each l body s = Ok s' → Inv s'.
Proof.
  intros H0 Hstep. revert s H0. induction l as [|x l IH]; intros s H0; cbn [for_each]; [by intros [= <-]|].
  destruct (body s x) as [s1| |] eqn:E; cbn [mbind outcome_bind]; [|done..]. apply IH. by eapply Hstep.
Qed.
Lemma sorted_columns segs : by_column (sort_slice byColumn segs).
Proof.
  unfold by_column. eapply StronglySorted_impl; [|apply sort_strongly_sorted, byColumn_weak]. intros x y Hx. unfold byColumn in Hx. glia.
Qed.
Lemma decodeMappings_sorted mappings ls : decodeMappings mappings = Ok ls → Forall by_column ls.
Proof.
  unfold decodeMappings. destruct (for_each _ _ _) as [[ls' a]| |] eqn:E; cbn [mbind outcome_bind]; [|done..]. intros [= <-].
  refine (for_each_inv (λ st, Forall by_column st.1) _ _ _ (ls', a) _ _ E); [done|].
  intros [k b] line [k' b'] Hk. cbn [fst] in *. unfold lineStep. case_bool_decide.
  - intros [= <- <-]. apply Forall_app. split; [done|]. repeat constructor.
  - destruct (for_each (Split line ",") _ _) as [[[segs c] b0]| |]; cbn [mbind outcome_bind]; [|done..]. intros [= <- <-].
    apply Forall_app. split; [done|]. constructor; [apply sorted_columns|constructor].
Qed.
Lemma Parse_sorted data sm : Parse data = Ok sm → Forall by_column (lines sm).
Proof.
  unfold Parse. destruct (wrap_err _ _) as [r| |]; cbn [mbind outcome_bind]; [|done..]. case_match; [done|].
  destruct (decodeMappings _) as [ls| |] eqn:E; cbn [mbind outcome_bind]; [|done..]. intros [= <-]. by eapply decodeMappings_sorted.
Qed.

(** *** Numbers

    The encoder of the format: a number is twice its absolute value, plus one
    if it is negative, in digits of five bits, the lowest first, with bit 32
    set in all but the last. *)
Definition b64 (d : Z) : char := default "A"%char (String.get (Z.to_nat d) base64Alphabet).
Fixpoint vlq_digits (fuel : nat) (n : Z) : string :=
  match fuel with
  | O => ""
  | S fuel => if n <? 32 then String (b64 n) "" else String (b64 (n `mod` 32 + 32)) (vlq_digits fuel (n `div` 32))
  end.
Definition vlq (z : Z) : string := vlq_digits 13 (if z <? 0 then 2 * - z + 1 else 2 * z).
Definition in_vlq (z : Z) : Prop := - 2 ^ 62 < z < 2 ^ 62.

Lemma b64_table d : 0 <= d < 64 → IndexByte base64Alphabet (b64 d) = d ∧ Ascii.eqb (b64 d) "," = false ∧ Ascii.eqb (b64 d) ";" = false.
Proof.
  intros Hd. assert (Forall (λ d, IndexByte base64Alphabet (b64 d) = d ∧ Ascii.eqb (b64 d) "," = false ∧ Ascii.eqb (b64 d) ";" = false) (seqZ 0 64)) as Hall.
  { apply (bool_decide_unpack _). by vm_compute. }
  rewrite Forall_forall in Hall. apply Hall, elem_of_seqZ. lia.
Qed.
Lemma land_31 d : 0 <= d < 32 → Z.land d 31 = d ∧ Z.land d 32 = 0 ∧ Z.land (d + 32) 31 = d ∧ Z.land (d + 32) 32 = 32.
Proof.
  intros Hd. assert (Forall (λ d, Z.land d 31 = d ∧ Z.land d 32 = 0 ∧ Z.land (d + 32) 31 = d ∧ Z.land (d + 32) 32 = 32) (seqZ 0 32)) as Hall.
  { apply (bool_decide_unpack _). by vm_compute. }
  rewrite Forall_forall in Hall. apply Hall, elem_of_seqZ. lia.
Qed.
(** The number that ends with a value. *)
Definition vlq_value (n : Z) : Z := if Z.land n 1 =? 0 then n `div` 2 else - (n `div` 2).
Lemma vlqLoop_digits fuel n rest out shift value :
  (0 < fuel)%nat → 0 <= n < 32 ^ Z.of_nat fuel → 0 <= value → 0 <= shift <= 128 - 5 * Z.of_nat fuel → value + n * 2 ^ shift < 2 ^ 63 →
  vlqLoop (vlq_digits fuel n +:+ rest) out shift value = vlqLoop rest (out ++ [vlq_value (value + n * 2 ^ shift)]) 0 0.
Proof.
  revert n shift value. induction fuel as [|fuel IH]; intros n shift value Hf Hn Hv Hs Hb; [lia|]. cbn [vlq_digits].
  pose proof (Z.pow_pos_nonneg 2 shift). destruct (Z.ltb_spec n 32) as [Hn'|Hn'].
  - rewrite str_app_cons, str_app_nil. cbn [vlqLoop]. destruct (b64_table n) as [-> _]; [lia|]. destruct (land_31 n) as (H1 & H2 & _); [lia|].
    rewrite (proj2 (Z.ltb_ge n 0)), H1, H2 by lia. cbn [negb Z.eqb]. rewrite Z.shiftl_mul_pow2 by lia.
    assert (i64 (value + i64 (n * 2 ^ shift)) = value + n * 2 ^ shift) as ->.
    { rewrite i64_add_r, i64_small; nia. }
    f_equal. f_equal. unfold vlq_value. rewrite Z.shiftr_div_pow2 by lia. change (2 ^ 1) with 2. destruct (Z.land _ 1 =? 0); cbn [negb]; [done|].
    rewrite i64_small; [done|]. pose proof (Z.div_pos (value + n * 2 ^ shift) 2). pose proof (Z.div_lt_upper_bound (value + n * 2 ^ shift) 2 (2 ^ 63)). nia.
  - rewrite str_app_cons. cbn [vlqLoop]. pose proof (Z.mod_pos_bound n 32). destruct (b64_table (n `mod` 32 + 32)) as [-> _]; [lia|].
    destruct (land_31 (n `mod` 32)) as (_ & _ & L1 & L2); [lia|].
    rewrite (proj2 (Z.ltb_ge _ 0)), L1, L2 by lia. cbn [negb Z.eqb]. rewrite Z.shiftl_mul_pow2 by lia.
    pose proof (Z.div_mod n 32). pose proof (Z.div_pos n 32).
    assert (2 ^ (shift + 5) = 32 * 2 ^ shift) as He by (rewrite Z.pow_add_r by lia; lia).
    assert (n `mod` 32 * 2 ^ shift <= n * 2 ^ shift) by (apply Z.mul_le_mono_nonneg_r; [lia|apply Z.mod_le; lia]).
    assert (0 <= n `mod` 32 * 2 ^ shift) by (apply Z.mul_nonneg_nonneg; lia).
    assert (value + n * 2 ^ shift = value + n `mod` 32 * 2 ^ shift + n `div` 32 * 2 ^ (shift + 5)) as Hsum by (rewrite He; nia).
    rewrite i64_add_r, i64_small by lia.
    rewrite Nat2Z.inj_succ, Z.pow_succ_r in Hn by lia.
    rewrite wrap_small by lia. assert (fuel ≠ O) by (intros ->; cbn in Hn; lia). rewrite IH; [|lia|split; [lia|apply Z.div_lt_upper_bound; lia]|lia|lia|lia].
    by rewrite Hsum.
Qed.
Lemma vlq_value_spec z : vlq_value (if z <? 0 then 2 * - z + 1 else 2 * z) = z.
Proof.
  assert (∀ n, Z.land n 1 = n `mod` 2) as Hland by (intros n; apply (Z.land_ones n 1); lia). unfold vlq_value. rewrite Hland. destruct (Z.ltb_spec z 0).
  - replace (2 * - z + 1) with (1 + - z * 2) by lia. rewrite Z.mod_add, Z.div_add by lia. change (1 `mod` 2 =? 0) with false. change (1 `div` 2) with 0. cbn iota. lia.
  - replace (2 * z) with (z * 2) by lia. rewrite Z.mod_mul, Z.div_mul by lia. done.
Qed.
Lemma vlqLoop_vlq z rest out : in_vlq z → vlqLoop (vlq z +:+ rest) out 0 0 = vlqLoop rest (out ++ [z]) 0 0.
Proof.
  unfold in_vlq. intros Hz. unfold vlq. rewrite vlqLoop_digits.
  - by rewrite Z.mul_1_r, Z.add_0_l, vlq_value_spec.
  - lia.
  - change (32 ^ Z.of_nat 13) with (2 ^ 65). destruct (Z.ltb_spec z 0); lia.
  - lia.
  - lia.
  - destruct (Z.ltb_spec z 0); lia.
Qed.
Definition vlqs (vs : list Z) : string := fold_right (λ v s, vlq v +:+ s) "" vs.
Lemma decodeVLQ_vlqs vs : Forall in_vlq vs → decodeVLQ (vlqs vs) = Ok vs.
Proof.
  intros Hvs. unfold decodeVLQ. enough (∀ out, vlqLoop (vlqs vs) out 0 0 = Ok (out ++ vs, 0)) as H1 by by rewrite H1.
  induction Hvs as [|v vs Hv Hvs IH]; intros out; cbn [vlqs fold_right]; [by rewrite app_nil_r|]. rewrite vlqLoop_vlq by done. fold (vlqs vs). by rewrite IH, <-app_assoc.
Qed.

(** *** Segments and lines *)

Definition small (z : Z) : Prop := 0 <= z < 2 ^ 62.
Definition segment_ok (s : segment) : Prop :=
  small (genCol s) ∧
  (if hasSource s then small (sourceIdx s) ∧ small (srcLine s) ∧ small (srcCol s) else sourceIdx s = 0 ∧ srcLine s = 0 ∧ srcCol s = 0 ∧ hasName s = false) ∧
  (if hasName s then small (nameIdx s) else nameIdx s = -1).
Definition accum_ok (a : accum) : Prop := small (a_sourceIdx a) ∧ small (a_srcLine a) ∧ small (a_srcCol a) ∧ small (a_nameIdx a).

(** The differences of a segment to the values before it, and the values after it. *)
Definition deltas (col : Z) (a : accum) (s : segment) : list Z :=
  (genCol s - col) ::
  (if hasSource s then [sourceIdx s - a_sourceIdx a; srcLine s - a_srcLine a; srcCol s - a_srcCol a] else []) ++
  (if hasName s then [nameIdx s - a_nameIdx a] else []).
Definition next (a : accum) (s : segment) : accum :=
  {| a_sourceIdx := if hasSource s then sourceIdx s else a_sourceIdx a; a_srcLine := if hasSource s then srcLine s else a_srcLine a;
     a_srcCol := if hasSource s then srcCol s else a_srcCol a; a_nameIdx := if hasName s then nameIdx s else a_nameIdx a |}.
Fixpoint segs_text (col : Z) (a : accum) (segs : list segment) : list string :=
  match segs with [] => [] | s :: segs => vlqs (deltas col a s) :: segs_text (genCol s) (next a s) segs end.
Fixpoint lines_text (a : accum) (ls : list (list segment)) : list string :=
  match ls with [] => [] | l :: ls => Join (segs_text 0 a l) "," :: lines_text (fold_left next l a) ls end.
Definition accum_zero : accum := {| a_sourceIdx := 0; a_srcLine := 0; a_srcCol := 0; a_nameIdx := 0 |}.
Definition mappings_text (ls : list (list segment)) : string := Join (lines_text accum_zero ls) ";".

(** Segments of a line have increasing columns. *)
Definition line_ok (segs : list segment) : Prop := Forall segment_ok segs ∧ StronglySorted (λ x y, genCol x < genCol y) segs.

Lemma deltas_range col a s : small col → accum_ok a → segment_ok s → Forall in_vlq (deltas col a s).
Proof.
  unfold small, accum_ok, segment_ok, deltas, in_vlq. intros Hc (? & ? & ? & ?) (? & Q1 & Q2). unfold small in *.
  constructor; [lia|]. apply Forall_app. split; [destruct (hasSource s); repeat constructor; lia|destruct (hasName s); repeat constructor; lia].
Qed.
Lemma next_ok a s : accum_ok a → segment_ok s → accum_ok (next a s).
Proof. intros (? & ? & ? & ?) (? & Q1 & Q2). unfold accum_ok. cbn. destruct (hasSource s), (hasName s); naive_solver. Qed.
Ltac build_segment := lazy -[i64 Z.add Z.sub a_sourceIdx a_srcLine a_srcCol a_nameIdx]; cbn [a_sourceIdx a_srcLine a_srcCol a_nameIdx].
Lemma buildSegment_deltas col a s : small col → accum_ok a → segment_ok s → buildSegment (deltas col a s) col a = Ok (s, genCol s, next a s).
Proof.
  intros Hc (A1 & A2 & A3 & A4) (G & H1 & H2). unfold small in *. assert (∀ x y, i64 (x + (y - x)) = i64 y) as Hi by (intros; f_equal; lia).
  destruct s as [gc si sl sc ni hs hn]; cbn in *. unfold deltas, next. cbn [genCol hasSource sourceIdx srcLine srcCol hasName nameIdx] in *. destruct hs.
  - destruct hn; build_segment; rewrite !Hi, !i64_small by lia; [done|]. by rewrite H2.
  - destruct H1 as (-> & -> & -> & ->). build_segment. rewrite Hi, i64_small by lia. rewrite H2. by destruct a.
Qed.
Lemma vlq_digits_free sep fuel n : (sep = "," ∨ sep = ";")%char → 0 <= n → free_of sep (vlq_digits fuel n).
Proof.
  intros Hsep. revert n. induction fuel as [|fuel IH]; intros n Hn; [done|]. assert (∀ d, 0 <= d < 64 → Ascii.eqb (b64 d) sep = false) as Hd.
  { intros d (_ & ? & ?)%b64_table. by destruct Hsep as [->| ->]. }
  cbn [vlq_digits]. unfold free_of in *. destruct (Z.ltb_spec n 32).
  - cbn [str_forall]. by rewrite Hd by lia.
  - cbn [str_forall]. pose proof (Z.mod_pos_bound n 32). rewrite Hd by lia. apply IH. apply Z.div_pos; lia.
Qed.
Lemma vlqs_free sep vs : (sep = "," ∨ sep = ";")%char → free_of sep (vlqs vs).
Proof.
  intros Hsep. induction vs as [|v vs IH]; [done|]. apply free_of_app; [|done]. apply vlq_digits_free; [done|]. destruct (Z.ltb_spec v 0); lia.
Qed.
Lemma vlqs_cons v vs : vlqs (v :: vs) ≠ "".
Proof. cbn. unfold vlq. cbn [vlq_digits]. by destruct (_ <? 32). Qed.
Lemma segs_text_free sep col a segs : (sep = "," ∨ sep = ";")%char → Forall (free_of sep) (segs_text col a segs).
Proof. intros Hsep. revert col a. induction segs as [|s segs IH]; intros col a; constructor; [by apply vlqs_free|apply IH]. Qed.

Lemma segs_decoded segs acc col a : small col → accum_ok a → Forall segment_ok segs →
  ∃ c, for_each (segs_text col a segs) segStep (acc, col, a) = Ok (acc ++ segs, c, fold_left next segs a).
Proof.
  intros Hc Ha Hs. revert acc col a Hc Ha. induction Hs as [|s segs Hs Hsegs IH]; intros acc col a Hc Ha.
  { exists col. cbn. by rewrite app_nil_r. }
  cbn [segs_text for_each fold_left]. assert (segStep (acc, col, a) (vlqs (deltas col a s)) = Ok (acc ++ [s], genCol s, next a s)) as ->.
  { unfold segStep. rewrite bool_decide_false by apply vlqs_cons. rewrite decodeVLQ_vlqs by by apply deltas_range. cbn [mbind outcome_bind].
    by rewrite buildSegment_deltas. }
  cbn [mbind outcome_bind]. destruct (IH (acc ++ [s]) (genCol s) (next a s)) as (c & Hc'); [apply Hs|by apply next_ok|]. exists c. rewrite Hc'. by rewrite <-app_assoc.
Qed.
Lemma sort_increasing segs : StronglySorted (λ x y, genCol x < genCol y) segs → sort_slice byColumn segs = segs.
Proof.
  intros Hs. apply (StronglySorted_unique_strong (λ x y, byColumn y x = false)).
  - intros x y [j Hj]%elem_of_sort%list_elem_of_lookup [i Hi]%list_elem_of_lookup H1 H2. unfold byColumn in *. to_prop.
    destruct (lt_eq_lt_dec i j) as [[Hij| ->]|Hij]; [|congruence|].
    + pose proof (StronglySorted_lookup _ _ _ _ _ _ Hs Hi Hj Hij) as Hlt. cbn in Hlt. lia.
    + pose proof (StronglySorted_lookup _ _ _ _ _ _ Hs Hj Hi Hij) as Hlt. cbn in Hlt. lia.
  - apply sort_strongly_sorted, byColumn_weak.
  - eapply StronglySorted_impl; [|done]. intros x y Hxy. cbn in Hxy. unfold byColumn. apply Z.ltb_ge. lia.
  - apply sort_perm.
Qed.
Lemma lines_decoded ls acc a : accum_ok a → Forall line_ok ls → ∃ a', for_each (lines_text a ls) lineStep (acc, a) = Ok (acc ++ ls, a').
Proof.
  intros Ha Hls. revert acc a Ha. induction Hls as [|l ls [Hl Hs] Hls IH]; intros acc a Ha.
  { exists a. cbn. by rewrite app_nil_r. }
  assert (accum_ok (fold_left next l a)) as Ha'.
  { clear -Ha Hl. revert a Ha. induction Hl as [|s l Hs Hl IH]; intros a Ha; [done|]. by apply IH, next_ok. }
  assert (lineStep (acc, a) (Join (segs_text 0 a l) ",") = Ok (acc ++ [l], fold_left next l a)) as Hstep.
  { unfold lineStep. destruct l as [|s l]; [done|]. rewrite bool_decide_false.
    2: { cbn [segs_text]. destruct (segs_text (genCol s) (next a s) l); [apply vlqs_cons|]. rewrite Join_cons by done. pose proof (vlqs_cons (genCol s - 0)
           ((if hasSource s then [sourceIdx s - a_sourceIdx a; srcLine s - a_srcLine a; srcCol s - a_srcCol a] else []) ++ (if hasName s then [nameIdx s - a_nameIdx a] else []))) as Hne.
         fold (deltas 0 a s) in Hne. by destruct (vlqs (deltas 0 a s)). }
    pose proof (segs_text_free "," 0 a (s :: l)) as Hfree. cbn [segs_text] in *. apply Forall_cons in Hfree as [? ?]; [|by left].
    rewrite Split_Join by done. destruct (segs_decoded (s :: l) [] 0 a) as (c & Hc); [done|done|done|]. cbn [segs_text] in Hc. rewrite Hc. cbn [mbind outcome_bind app].
    by rewrite sort_increasing. }
  destruct (IH (acc ++ [l]) (fold_left next l a) Ha') as (a' & Hd). exists a'. cbn [lines_text for_each]. rewrite Hstep. cbn [mbind outcome_bind]. rewrite Hd. by rewrite <-app_assoc.
Qed.
Lemma decodeMappings_text l ls : Forall line_ok (l :: ls) → decodeMappings (mappings_text (l :: ls)) = Ok (l :: ls).
Proof.
  intros Hls. unfold decodeMappings, mappings_text. assert (∀ a k, Forall (free_of ";") (lines_text a k)) as Hfree.
  { intros a k. revert a. induction k as [|x k IH]; intros a; constructor; [|apply IH]. apply free_of_Join; [|done]. apply segs_text_free. by right. }
  specialize (Hfree accum_zero (l :: ls)). cbn [lines_text] in Hfree |- *. apply Forall_cons in Hfree as [? ?]. rewrite Split_Join by done.
  destruct (lines_decoded (l :: ls) [] accum_zero) as (a' & Hd); [done|done|]. cbn [lines_text] in Hd. fold accum_zero. by rewrite Hd.
Qed.
End Decoded.

(** ** The document *)

Lemma str_forall_get p s n c : str_forall p s = true → String.get n s = Some c → p c = true.
Proof.
  revert n. induction s as [|d s IH]; intros n; [done|]. cbn [str_forall]. intros [Hd Hs]%andb_true_iff. destruct n as [|n]; cbn; [by intros [= <-]|by apply IH].
Qed.
Lemma b64_ascii n : (c2z (b64 n) <? 128) = true.
Proof. unfold b64. destruct (String.get _ base64Alphabet) as [c|] eqn:E; [|done]. by apply (str_forall_get (λ c, c2z c <? 128) base64Alphabet (Z.to_nat n)). Qed.
Lemma vlq_digits_ascii fuel n : is_ascii (vlq_digits fuel n) = true.
Proof. unfold is_ascii. revert n. induction fuel as [|fuel IH]; intros n; [done|]. cbn [vlq_digits]. destruct (n <? 32); cbn [str_forall]; by rewrite b64_ascii, ?IH. Qed.
Lemma vlqs_ascii vs : is_ascii (vlqs vs) = true.
Proof. induction vs as [|v vs IH]; [done|]. unfold is_ascii in *. cbn [vlqs fold_right]. rewrite str_forall_app. apply andb_true_iff. split; [apply vlq_digits_ascii|done]. Qed.
Lemma Join_ascii parts sep : Forall (λ s, is_ascii s = true) parts → is_ascii sep = true → is_ascii (Join parts sep) = true.
Proof.
  intros HF Hs. unfold is_ascii in *. induction HF as [|s parts H1 HF IH]; [done|]. destruct parts; [done|]. rewrite Join_cons by done. by rewrite !str_forall_app, H1, Hs, IH.
Qed.
Lemma mappings_utf8 ls : valid_utf8 (mappings_text ls).
Proof.
  apply ascii_valid, Join_ascii; [|done]. generalize accum_zero. induction ls as [|l ls IH]; intros a; constructor; [|apply IH]. apply Join_ascii; [|done].
  generalize 0 at 1. revert a. induction l as [|s l IHl]; intros a col; constructor; [apply vlqs_ascii|apply IHl].
Qed.

Definition document_members (r : rawMap) : list (string * (string * json)) :=
  [("version", (int_text (rm_Version r), JNumber (int_text (rm_Version r))));
   ("sources", (strings_text (rm_Sources r), JArray (JString <$> rm_Sources r)));
   ("names", (strings_text (rm_Names r), JArray (JString <$> rm_Names r)));
   ("mappings", (string_text (rm_Mappings r), JString (rm_Mappings r)));
   ("sourceRoot", (string_text (rm_SourceRoot r), JString (rm_SourceRoot r)))].
Definition document (r : rawMap) : string := struct_text (named_text <$> document_members r).
Lemma document_decoded `{JSONErrors} r : Forall valid_utf8 (rm_Sources r) → Forall valid_utf8 (rm_Names r) → valid_utf8 (rm_SourceRoot r) → valid_utf8 (rm_Mappings r) →
  - 2 ^ 63 <= rm_Version r < 2 ^ 63 → unmarshal_ok dec_rawMap zero_rawMap (document r) = Ok r.
Proof.
  intros Hs Hn Hr Hm Hv. eapply (unmarshal_ok_text _ _ _ 2); [apply (parses_struct 1); [done|]|done|].
  - repeat apply Forall_cons_2; [..|done]; cbn [fst snd].
    + apply (parses_mono 0); [done|]. apply parses_int.
    + by apply parses_strings.
    + by apply parses_strings.
    + apply (parses_mono 0); [done|]. by apply parses_utf8.
    + apply (parses_mono 0); [done|]. by apply parses_utf8.
  - unfold dec_rawMap, document_members. dec_fields. by destruct r.
Qed.
End SourceMapFacts.

(** ** Properties *)

Import SourceMapFacts.

(** C33: the document of a source map is parsed to its sources, its names and exactly
    the lines of segments that its mappings encode: for all fields below [2^62],
    with and without sources and names, and the differences carried across
    lines, whatever Unicode text the sources and names are. *)
Theorem sourcemap_roundtrip (P : Printable) (R : GoRuntime) (HR : RuntimeOk R) (J : JSONErrors) (version : Z) (srcs nms : list string) (srcRoot : string) l ls :
  version = 0 ∨ version = 3 → Forall valid_utf8 srcs → Forall valid_utf8 nms → valid_utf8 srcRoot → Forall line_ok (l :: ls) →
  Parse (bytes_of_string (document {| rm_Version := version; rm_Sources := srcs; rm_Names := nms; rm_Mappings := mappings_text (l :: ls); rm_SourceRoot := srcRoot |})) =
    Ok {| sources := srcs; names := nms; root := srcRoot; lines := l :: ls |}.
Proof.
  intros Hv Hs Hn Hr Hok. unfold Parse. rewrite string_of_bytes_of_string, document_decoded; [|done..|by apply mappings_utf8|cbn; lia].
  cbn [wrap_err mbind outcome_bind rm_Version]. assert (negb (version =? 0) && negb (version =? 3) = false) as -> by by destruct Hv as [-> | ->].
  cbn [rm_Mappings]. by rewrite decodeMappings_text.
Qed.

(** In a parsed source map a generated position resolves to the location named
    by the last segment of its line that does not begin after it, and to nothing
    if there is no such segment or it names no source; no position causes a panic. *)
Theorem sourcemap_lookup (P : Printable) (R : GoRuntime) (HR : RuntimeOk R) (J : JSONErrors) data sm genLine col :
  Parse data = Ok sm → len (lines sm) < 2 ^ 63 → Forall (λ segs, len segs < 2 ^ 63) (lines sm) → - 2 ^ 63 <= genLine < 2 ^ 63 →
  Lookup sm genLine col = Ok (match resolve sm genLine col with Some p => (p, true) | None => (noPosition, false) end).
Proof. intros Hp. apply Lookup_spec. by eapply Parse_sorted. Qed.

(** A map with two generated lines, the second of which is empty and the third
    has a segment without a source. *)
Definition demo_lines : list (list segment) := [
  [{| genCol := 0; sourceIdx := 0; srcLine := 4; srcCol := 2; nameIdx := -1; hasSource := true; hasName := false |};
   {| genCol := 40; sourceIdx := 1; srcLine := 2; srcCol := 0; nameIdx := 1; hasSource := true; hasName := true |}];
  [];
  [{| genCol := 3; sourceIdx := 0; srcLine := 0; srcCol := 0; nameIdx := -1; hasSource := false; hasName := false |}]].
Definition demo_raw : rawMap :=
  {| rm_Version := 3; rm_Sources := ["a.ts"; "b.ts"]; rm_Names := ["f"; "g"]; rm_Mappings := mappings_text demo_lines; rm_SourceRoot := "src/" |}.
Definition demo_map : SourceMap := {| sources := ["a.ts"; "b.ts"]; names := ["f"; "g"]; root := "src/"; lines := demo_lines |}.
Definition demo_document : list byte := bytes_of_string (document demo_raw).
Definition demo_errors : JSONErrors := λ _, "".
Lemma sourcemap_roundtrip_witness : rm_Mappings demo_raw = "AAIE,wCCFFC;;G" ∧ Parse (H := ascii_printable) (H0 := go_runtime) (JE := demo_errors) demo_document = Ok demo_map.
Proof.
  split; [by vm_compute|].
  apply (sourcemap_roundtrip ascii_printable go_runtime go_runtime_ok demo_errors 3 ["a.ts"; "b.ts"] ["f"; "g"] "src/" (hd [] demo_lines) (tl demo_lines)); [by right|by repeat constructor..|done|].
  repeat constructor; done.
Defined.
Lemma sourcemap_lookup_witness : Lookup demo_map 1 50 = Ok ({| pos_Source := "src/b.ts"; Line := 3; Column := 0; pos_Name := "g" |}, true).
Proof.
  apply (sourcemap_lookup ascii_printable go_runtime go_runtime_ok demo_errors demo_document demo_map 1 50); [by vm_compute|done|by repeat constructor|done].
Defined.
