(* ===== verification/Asar.v ===== *)
(** * Electron archives

    [src/internal/asar]: the header of an [app.asar] archive, its inventory of
    files and the difference between two inventories.  A directory is the list of
    the entries of the map that holds them, which have distinct names. *)

From S2P Require Import Prelude Arrays GoStrings GoRuntime GoMaps GoIO GoText GoJSON.

Module Asar.

Definition maxHeaderBytes : Z := Z.shiftl 128 20.

Record FileEntry := { Path : string; Size : Z; SHA256 : string; Unpacked : bool }.
Record Archive := { Files : list FileEntry }.
Record rawIntegrity := { Algorithm : string; Hash : string }.
#[warnings="-register-all"]
Inductive rawNode := RawNode (Size_ : option Z) (Offset : string) (Unpacked_ : bool) (Integrity : option rawIntegrity) (Files_ : list (string * rawNode)).
Record rawHeader := { rh_Files : list (string * rawNode) }.

(** Their decoding from a document. *)
Definition dec_rawIntegrity : decoder rawIntegrity := dec_struct [
  ("algorithm", on Algorithm (λ r x, {| Algorithm := x; Hash := Hash r |}) dec_string);
  ("hash", on Hash (λ r x, {| Algorithm := Algorithm r; Hash := x |}) dec_string)].
Definition zero_rawIntegrity : rawIntegrity := {| Algorithm := ""; Hash := "" |}.
Inductive nodeField := FSize | FOffset | FUnpacked | FIntegrity | FFiles.
Definition nodeFields : list (string * nodeField) := [("size", FSize); ("offset", FOffset); ("unpacked", FUnpacked); ("integrity", FIntegrity); ("files", FFiles)].
Definition zero_rawNode : rawNode := RawNode None "" false None [].
Definition nodeMember (d : decoder rawNode) (st : rawNode * bool) (m : string * (string * json)) : rawNode * bool :=
  let '(RawNode s o u i f) := st.1 in
  match find_field nodeFields m.1 with
  | Some FSize => let '(s, e) := dec_ptr 0 dec_int s m.2.1 m.2.2 in (RawNode s o u i f, st.2 || e)
  | Some FOffset => let '(o, e) := dec_string o m.2.1 m.2.2 in (RawNode s o u i f, st.2 || e)
  | Some FUnpacked => let '(u, e) := dec_bool u m.2.1 m.2.2 in (RawNode s o u i f, st.2 || e)
  | Some FIntegrity => let '(i, e) := dec_ptr zero_rawIntegrity dec_rawIntegrity i m.2.1 m.2.2 in (RawNode s o u i f, st.2 || e)
  | Some FFiles => let '(f, e) := dec_map zero_rawNode d f m.2.1 m.2.2 in (RawNode s o u i f, st.2 || e)
  | None => st
  end.
Fixpoint dec_rawNode (old : rawNode) (text : string) (v : json) {struct v} : rawNode * bool :=
  match v with
  | JNull => (old, false)
  | JObject ms => fold_left (nodeMember dec_rawNode) ms (old, false)
  | _ => (old, true)
  end.
Definition dec_rawHeader : decoder rawHeader := dec_struct [("files", on rh_Files (λ _ x, {| rh_Files := x |}) (dec_map zero_rawNode dec_rawNode))].

Section Runtime.
Context `{GoRuntime}.

Definition joinName (prefix name : string) : string := if bool_decide (prefix = "") then name else prefix +:+ "/" +:+ name.
(** What the entries of a directory contribute, in the order in which the map is visited. *)
Definition visited (es : list (string * list FileEntry)) : list FileEntry := flat_map snd (map_entries (list_to_map es : gmap string (list FileEntry))).
(** One entry of a directory: a file, or a directory whose entries follow. *)
Fixpoint walkNode (path : string) (node : rawNode) : list FileEntry :=
  match node with
  | RawNode (Some size) _ unpacked integrity _ => [{| Path := path; Size := size; SHA256 := match integrity with Some i => Hash i | None => "" end; Unpacked := unpacked |}]
  | RawNode None _ _ _ files => visited (List.map (λ '(name, node), (name, walkNode (joinName path name) node)) files)
  end.
Definition walk (prefix : string) (nodes : list (string * rawNode)) : list FileEntry :=
  visited (List.map (λ '(name, node), (name, walkNode (joinName prefix name) node)) nodes).

Definition pathLess (x y : FileEntry) : bool := String.ltb (Path x) (Path y).

Section Parse.
Context {JE : JSONErrors}.
Definition parseHeaderJSON (jsonBuf : list byte) : outcome Archive :=
  h ← wrap_err "asar: parse header json: %w" (unmarshal_ok dec_rawHeader {| rh_Files := [] |} (string_of_bytes jsonBuf));
  Ok {| Files := sort_slice pathLess (walk "" (rh_Files h)) |}.
Definition implausible (jsonLen : Z) : goerror := Errorf ("asar: implausible header size " +:+ itoa jsonLen).
(** [ParseFile], after the file is opened. *)
Definition ParseFile (f : reader) : outcome Archive :=
  '(prefix, f) ← wrap_err "asar: read header prefix: %w" (io_ReadFull f 16);
  b ← slice prefix 12 16;
  jsonLen ← le_uint 4 b;
  if (jsonLen =? 0) || (maxHeaderBytes <? jsonLen) then Err (implausible jsonLen) else
  '(jsonBuf, f) ← wrap_err "asar: read header json: %w" (io_ReadFull f jsonLen);
  parseHeaderJSON jsonBuf.
Definition Parse (data : list byte) : outcome Archive :=
  if len data <? 16 then Err (Errorf ("asar: too short (" +:+ itoa (len data) +:+ " bytes)")) else
  b ← slice data 12 16;
  jsonLen ← le_uint 4 b;
  if (jsonLen =? 0) || (maxHeaderBytes <? jsonLen) then Err (implausible jsonLen) else
  if len data <? 16 + jsonLen then Err (Errorf ("asar: header size " +:+ itoa jsonLen +:+ " exceeds data (" +:+ itoa (len data) +:+ " bytes)")) else
  json ← slice data 16 (u32 (16 + jsonLen));
  parseHeaderJSON json.
End Parse.

Record Diff := { Added : list FileEntry; Removed : list FileEntry; Changed : list FileEntry }.
Definition Empty (d : Diff) : bool := (len (Added d) =? 0) && (len (Removed d) =? 0) && (len (Changed d) =? 0).
Definition changed (oldE newE : FileEntry) : bool :=
  if negb (bool_decide (SHA256 oldE = "")) && negb (bool_decide (SHA256 newE = "")) then negb (bool_decide (SHA256 oldE = SHA256 newE))
  else negb (Size oldE =? Size newE).
Definition indexByPath (a : Archive) : gmap string FileEntry := fold_left (λ m e, <[Path e := e]> m) (Files a) ∅.
Definition newStep (oldByPath : gmap string FileEntry) (d : list FileEntry * list FileEntry) (e : string * FileEntry) : list FileEntry * list FileEntry :=
  match oldByPath !! e.1 with
  | None => (d.1 ++ [e.2], d.2)
  | Some oe => if changed oe e.2 then (d.1, d.2 ++ [e.2]) else d
  end.
Definition oldStep (newByPath : gmap string FileEntry) (removed : list FileEntry) (e : string * FileEntry) : list FileEntry :=
  match newByPath !! e.1 with None => removed ++ [e.2] | Some _ => removed end.
Definition sortEntries (es : list FileEntry) : list FileEntry := sort_slice pathLess es.
Definition DiffArchives (a b : Archive) : Diff :=
  let oldByPath := indexByPath a in
  let newByPath := indexByPath b in
  let '(added, changed) := fold_left (newStep oldByPath) (map_entries newByPath) ([], []) in
  let removed := fold_left (oldStep newByPath) (map_entries oldByPath) [] in
  {| Added := sortEntries added; Removed := sortEntries removed; Changed := sortEntries changed |}.

Definition NativeModulePaths (a : Archive) : list string :=
  sort_slice String.ltb (Path <$> filter (λ e, HasSuffix (Path e) ".node" = true) (Files a)).
End Runtime.
End Asar.

Module AsarFacts.
Export Asar.

(** ** The inventory *)

Definition hash_of (i : option rawIntegrity) : string := match i with Some i => Hash i | None => "" end.
(** The file at a chain of names below a directory. *)
Inductive file_at : list (string * rawNode) → list string → FileEntry → Prop :=
| file_here nodes name size offset unpacked integrity files :
  (name, RawNode (Some size) offset unpacked integrity files) ∈ nodes →
  file_at nodes [name] {| Path := name; Size := size; SHA256 := hash_of integrity; Unpacked := unpacked |}
| file_below nodes name offset unpacked integrity files names e :
  (name, RawNode None offset unpacked integrity files) ∈ nodes → file_at files names e →
  file_at nodes (name :: names) {| Path := name +:+ "/" +:+ Path e; Size := Size e; SHA256 := SHA256 e; Unpacked := Unpacked e |}.

(** The names of a directory, and of the directories below it, are distinct and
    not empty; a property of entries may hold of them too. *)
#[warnings="-register-all"]
Inductive tree_ok (P : string → rawNode → Prop) : list (string * rawNode) → Prop :=
| tree_ok_intro nodes : NoDup nodes.*1 →
  (∀ name s o u i f, (name, RawNode s o u i f) ∈ nodes → name ≠ "" ∧ P name (RawNode s o u i f) ∧ tree_ok P f) → tree_ok P nodes.

Lemma file_at_path nodes names e : file_at nodes names e → Path e = Join names "/".
Proof.
  induction 1 as [|nodes name offset unpacked integrity files names e Hin Hf IH]; [done|]. cbn [Path]. rewrite Join_cons; [by rewrite IH|]. by inversion Hf.
Qed.
Definition below (path : string) (e : FileEntry) : FileEntry := {| Path := path +:+ "/" +:+ Path e; Size := Size e; SHA256 := SHA256 e; Unpacked := Unpacked e |}.
Lemma joinName_below path name : path ≠ "" → joinName path name = path +:+ "/" +:+ name.
Proof. intros. unfold joinName. by rewrite bool_decide_false. Qed.

Lemma rawNode_nested_ind (P : rawNode → Prop) :
  (∀ size offset unpacked integrity files, (∀ name n, (name, n) ∈ files → P n) → P (RawNode size offset unpacked integrity files)) → ∀ n, P n.
Proof.
  intros Hstep. fix IH 1. intros [size offset unpacked integrity files]. apply Hstep. induction files as [|[x m] files IHf]; intros name n Hin.
  - destruct (not_elem_of_nil _ Hin).
  - apply elem_of_cons in Hin as [Heq|Hin]; [|by apply (IHf name)]. injection Heq as _ ->. apply IH.
Qed.
Lemma elem_of_flat_map {A B} (f : A → list B) (l : list A) y : y ∈ flat_map f l ↔ ∃ x, x ∈ l ∧ y ∈ f x.
Proof.
  induction l as [|x l IH]; cbn; [split; [by intros ?%not_elem_of_nil|by intros (? & ?%not_elem_of_nil & _)]|].
  rewrite elem_of_app, IH. setoid_rewrite elem_of_cons. naive_solver.
Qed.

(** What one entry of a directory contributes. *)
Definition contributes (path : string) (node : rawNode) (e : FileEntry) : Prop :=
  match node with
  | RawNode (Some size) _ unpacked integrity _ => e = {| Path := path; Size := size; SHA256 := hash_of integrity; Unpacked := unpacked |}
  | RawNode None _ _ _ files => ∃ names e', file_at files names e' ∧ e = below path e'
  end.
Lemma contributes_below path name node e : contributes (path +:+ "/" +:+ name) node e ↔ ∃ e', contributes name node e' ∧ e = below path e'.
Proof.
  destruct node as [[size|] offset unpacked integrity files]; cbn.
  - split; [intros ->; by eexists|]. by intros (e' & -> & ->).
  - assert (∀ e', below (path +:+ "/" +:+ name) e' = below path (below name e')) as Hb by (intros; unfold below; cbn; by rewrite !str_app_assoc).
    split; [intros (names & e' & Hf & ->); eexists; split; [by exists names, e'|by rewrite Hb]|].
    intros (e' & (names & e2 & Hf & ->) & ->). exists names, e2. by rewrite Hb.
Qed.
(** The contributions of the entries of a directory are its files. *)
Lemma file_at_contributes nodes e : (∃ names, file_at nodes names e) ↔ ∃ name n, (name, n) ∈ nodes ∧ contributes name n e.
Proof.
  split.
  - intros (names & Hf). destruct Hf as [nodes name size o u i files Hin|nodes name o u i files names e Hin Hf]; eexists _, _; split; [done|done|done|]. by exists names, e.
  - intros (name & [[size|] o u i files] & Hin & Hc); cbn in Hc; [subst e; eexists; by eapply file_here|].
    destruct Hc as (names & e' & Hf & ->). eexists. by eapply file_below.
Qed.

Section Walk.
Context {R : GoRuntime} {HR : RuntimeOk R}.

Lemma elem_of_visited (nodes : list (string * rawNode)) (f : string → rawNode → list FileEntry) e : NoDup nodes.*1 →
  e ∈ visited (List.map (λ '(name, node), (name, f name node)) nodes) ↔ ∃ name n, (name, n) ∈ nodes ∧ e ∈ f name n.
Proof.
  intros Hn. unfold visited. rewrite elem_of_flat_map. change (List.map ?g ?l) with (g <$> l). assert (NoDup ((λ '(name, node), (name, f name node)) <$> nodes).*1) as Hnd.
  { rewrite <-list_fmap_compose. rewrite (list_fmap_ext _ fst) by (by intros ? []). done. }
  split.
  - intros ([name l] & Hin & He). apply elem_of_entries, elem_of_list_to_map in Hin; [|done]. apply list_elem_of_fmap in Hin as ([name' n] & [= -> ->] & Hin). by exists name', n.
  - intros (name & n & Hin & He). exists (name, f name n). split; [|done]. apply elem_of_entries, elem_of_list_to_map; [done|]. apply list_elem_of_fmap. by exists (name, n).
Qed.
Lemma tree_ok_inv P nodes : tree_ok P nodes → NoDup nodes.*1 ∧ ∀ name s o u i f, (name, RawNode s o u i f) ∈ nodes → name ≠ "" ∧ P name (RawNode s o u i f) ∧ tree_ok P f.
Proof. by destruct 1. Qed.
Lemma walkNode_spec P node path e : (match node with RawNode _ _ _ _ files => tree_ok P files end) → path ≠ "" → e ∈ walkNode path node ↔ contributes path node e.
Proof.
  revert path e. induction node as [size o u i files IH] using rawNode_nested_ind. intros path e [Hnd Hn]%tree_ok_inv Hp. destruct size as [size|]; cbn [walkNode contributes].
  { apply list_elem_of_singleton. }
  rewrite elem_of_visited by done.
  assert (∀ name n, (name, n) ∈ files → e ∈ walkNode (joinName path name) n ↔ ∃ e', contributes name n e' ∧ e = below path e') as Hch.
  { intros name [s' o' u' i' f'] Hin. destruct (Hn _ _ _ _ _ _ Hin) as (Hne & _ & Ht). rewrite joinName_below by done. rewrite (IH _ _ Hin); [|done|by destruct path]. apply contributes_below. }
  split.
  - intros (name & n & Hin & He). apply (Hch _ _ Hin) in He as (e' & Hc & ->). destruct (proj2 (file_at_contributes files e')) as (names & Hf); [by exists name, n|]. by exists names, e'.
  - intros (names & e' & Hf & ->). destruct (proj1 (file_at_contributes files e')) as (name & n & Hin & Hc); [by exists names|].
    exists name, n. split; [done|]. apply (Hch _ _ Hin). by exists e'.
Qed.
Lemma walk_spec P nodes e : tree_ok P nodes → e ∈ walk "" nodes ↔ ∃ names, file_at nodes names e.
Proof.
  intros [Hnd Hn]%tree_ok_inv. unfold walk. rewrite elem_of_visited by done. rewrite file_at_contributes. split; intros (name & [s o u i f] & Hin & He); destruct (Hn _ _ _ _ _ _ Hin) as (Hne & _ & Ht); exists name, (RawNode s o u i f);
    (split; [done|]); by apply (walkNode_spec P).
Qed.
End Walk.

(** ** The two readers *)

Section Readers.
Context {R : GoRuntime} {JE : JSONErrors}.

Lemma readers_agree data a : Parse data = Ok a ↔ ParseFile (Reader data io_EOF) = Ok a.
Proof.
  unfold Parse, ParseFile. destruct (Z.ltb_spec (len data) 16) as [Hs|Hs].
  { unfold io_ReadFull. cbn [r_bytes r_final]. rewrite (proj2 (Z.leb_gt 16 (len data))) by lia. by destruct (len data =? 0). }
  unfold io_ReadFull. cbn [r_bytes r_final]. rewrite (proj2 (Z.leb_le 16 (len data))) by lia. cbn [wrap_err mbind outcome_bind].
  rewrite !slice_ok by (rewrite ?len_sub; lia). cbn [mbind outcome_bind]. rewrite sub_sub by lia. change (0 + 12) with 12. change (0 + 16) with 16.
  destruct (le_uint 4 (sub data 12 16)) as [jsonLen| |] eqn:E; cbn [mbind outcome_bind]; [|done..]. apply le_uint_range in E.
  destruct (_ || _) eqn:Hj; [done|]. to_prop. assert (maxHeaderBytes = 134217728) as Hmax by by vm_compute. cbn [r_bytes r_final]. rewrite len_sub by lia.
  destruct (Z.ltb_spec (len data) (16 + jsonLen)).
  - rewrite (proj2 (Z.leb_gt _ _)) by lia. by destruct (_ =? 0).
  - rewrite (proj2 (Z.leb_le _ _)) by lia. cbn [wrap_err mbind outcome_bind]. rewrite wrap_small by lia. rewrite slice_ok by lia. cbn [mbind outcome_bind].
    rewrite sub_sub by lia. by rewrite Z.add_0_r.
Qed.
(** The bytes of an archive: twelve bytes, the length of the directory, the directory and the contents. *)
Definition archive_bytes (head json rest : list byte) : list byte := head ++ le_bytes 4 (len json) ++ json ++ rest.
Lemma Parse_bytes head json rest : len head = 12 → 0 < len json <= maxHeaderBytes → Parse (archive_bytes head json rest) = parseHeaderJSON json.
Proof.
  intros Hh Hj. assert (maxHeaderBytes = 134217728) as Hmax by by vm_compute. unfold Parse, archive_bytes. rewrite !len_app, len_le_bytes. len_facts.
  change (Z.of_nat 4) with 4. rewrite (proj2 (Z.ltb_ge _ _)) by lia.
  rewrite slice_skip by lia. rewrite Hh. change (12 - 12) with 0. change (16 - 12) with 4. rewrite slice_head by (rewrite len_le_bytes; lia).
  cbn [mbind outcome_bind]. rewrite le_uint_le_bytes by lia. cbn [mbind outcome_bind].
  rewrite (proj2 (Z.eqb_neq _ _)), (proj2 (Z.ltb_ge _ _)) by lia. cbn [orb]. rewrite (proj2 (Z.ltb_ge _ _)) by lia. rewrite wrap_small by lia.
  rewrite slice_skip by lia. rewrite slice_skip by (rewrite len_le_bytes; lia). rewrite len_le_bytes, Hh. change (Z.of_nat 4) with 4. change (16 - 12 - 4) with 0.
  rewrite slice_head by lia. done.
Qed.
Lemma inventory_sorted `{!RuntimeOk R} json h : unmarshal_ok dec_rawHeader {| rh_Files := [] |} (string_of_bytes json) = Ok h →
  ∃ a, parseHeaderJSON json = Ok a ∧ Files a ≡ₚ walk "" (rh_Files h) ∧ StronglySorted (λ x y, pathLess y x = false) (Files a).
Proof.
  intros Hu. eexists. unfold parseHeaderJSON. rewrite Hu. cbn [wrap_err mbind outcome_bind]. split; [done|]. cbn [Files].
  split; [apply sort_perm|apply sort_strongly_sorted, (strict_weak_key Path), strict_weak_string].
Qed.
End Readers.

(** ** The text of a directory *)

Definition enc_integrity (i : rawIntegrity) : string * json :=
  let ms := [("algorithm", (string_text (Algorithm i), JString (Algorithm i))); ("hash", (string_text (Hash i), JString (Hash i)))] in
  (struct_text (named_text <$> ms), JObject ms).
Definition enc_members (s : option Z) (o : string) (u : bool) (i : option rawIntegrity) (es : list (string * (string * json))) : list (string * (string * json)) :=
  (match s with Some z => [("size", (int_text z, JNumber (int_text z)))] | None => [] end) ++
  (if bool_decide (o = "") then [] else [("offset", (string_text o, JString o))]) ++
  (if u then [("unpacked", (bool_text true, JBool true))] else []) ++
  (match i with Some i => [("integrity", enc_integrity i)] | None => [] end) ++
  (match s with None => [("files", (struct_text (named_text <$> es), JObject es))] | Some _ => [] end).
(** The text and the document of an entry. *)
Fixpoint enc_node (n : rawNode) : string * json :=
  match n with
  | RawNode s o u i files =>
    let ms := enc_members s o u i (List.map (λ '(name, n), (name, enc_node n)) files) in
    (struct_text (named_text <$> ms), JObject ms)
  end.
Definition enc_files (files : list (string * rawNode)) : list (string * (string * json)) := List.map (λ '(name, n), (name, enc_node n)) files.
Definition header_members (files : list (string * rawNode)) : list (string * (string * json)) :=
  [("files", (struct_text (named_text <$> enc_files files), JObject (enc_files files)))].
Definition header_text (files : list (string * rawNode)) : string := struct_text (named_text <$> header_members files).

(** The open brackets of an entry. *)
Fixpoint height (n : rawNode) : Z :=
  match n with RawNode _ _ _ _ files => 2 + fold_right (λ '(_, n) h, Z.max (height n) h) 0 files end.
Definition heights (files : list (string * rawNode)) : Z := fold_right (λ '(_, n) h, Z.max (height n) h) 0 files.

(** What a file has: a size, and no entries; its texts are valid. *)
Definition entry_ok (name : string) (n : rawNode) : Prop :=
  match n with RawNode s o u i files =>
    valid_utf8 name ∧ valid_utf8 o ∧ (match i with Some i => valid_utf8 (Algorithm i) ∧ valid_utf8 (Hash i) | None => True end) ∧
    (match s with Some z => - 2 ^ 63 <= z < 2 ^ 63 ∧ files = [] | None => True end)
  end.
Lemma heights_nonneg files : 0 <= heights files.
Proof. unfold heights. induction files as [|[name n] files IH]; cbn; lia. Qed.
Lemma height_le files name n : (name, n) ∈ files → height n <= heights files.
Proof. unfold heights. induction files as [|[x m] files IH]; [by intros ?%not_elem_of_nil|]. intros [[= -> ->]|Hin]%elem_of_cons; cbn; [lia|]. specialize (IH Hin). lia. Qed.

Lemma parses_integrity i : valid_utf8 (Algorithm i) → valid_utf8 (Hash i) → parses 1 (enc_integrity i).1 (enc_integrity i).2.
Proof. intros Ha Hh. apply (parses_object 0); [done|]. repeat constructor; cbn; by apply parses_utf8. Qed.
Lemma dec_integrity_text i text : dec_rawIntegrity zero_rawIntegrity text (enc_integrity i).2 = (i, false).
Proof. destruct i as [a h]. reflexivity. Qed.
Lemma parses_files files : tree_ok entry_ok files → (∀ name n, (name, n) ∈ files → parses (height n) (enc_node n).1 (enc_node n).2) →
  parses (heights files + 1) (struct_text (named_text <$> enc_files files)) (JObject (enc_files files)).
Proof.
  intros [_ Ht]%tree_ok_inv Hp. apply parses_object; [apply heights_nonneg|]. unfold enc_files. change (List.map ?g ?l) with (g <$> l). apply Forall_fmap, Forall_forall.
  intros [name [s o u i f]] Hin. destruct (Ht _ _ _ _ _ _ Hin) as (_ & (Hv & _) & _). split; [done|]. eapply parses_mono; [by eapply height_le|]. by eapply Hp.
Qed.
Lemma parses_node name n : entry_ok name n → (match n with RawNode _ _ _ _ files => tree_ok entry_ok files end) → parses (height n) (enc_node n).1 (enc_node n).2.
Proof.
  revert name. induction n as [s o u i files IH] using rawNode_nested_ind. intros name (Hname & Ho & Hi & Hs) Ht. cbn [enc_node fst snd].
  change (height (RawNode s o u i files)) with (2 + heights files). replace (2 + heights files) with (heights files + 1 + 1) by lia. pose proof (heights_nonneg files). apply parses_object; [lia|].
  fold (enc_files files). assert (parses (heights files + 1) (struct_text (named_text <$> enc_files files)) (JObject (enc_files files))) as Hf.
  { apply parses_files; [done|]. intros x [s' o' u' i' f'] Hin. apply tree_ok_inv in Ht as [_ Ht]. destruct (Ht _ _ _ _ _ _ Hin) as (_ & He & Ht'). by eapply IH. }
  assert (∀ t v, parses 0 t v → parses (heights files + 1) t v) as H0 by (intros t v; apply parses_mono; lia).
  unfold enc_members. repeat apply Forall_app_2; [destruct s|case_bool_decide|destruct u|destruct i|destruct s]; try apply Forall_nil_2; (apply Forall_cons_2; [|apply Forall_nil_2]); (split; [by vm_compute|]); cbn [fst snd];
    [apply H0, parses_int|by apply H0, parses_utf8|apply H0, (parses_lit true)| |done].
  destruct Hi. apply (parses_mono 1); [lia|]. by apply parses_integrity.
Qed.
(** The document of a directory is decoded to it. *)
Lemma dec_members s o u i files es text : dec_map zero_rawNode dec_rawNode [] (struct_text (named_text <$> es)) (JObject es) = (files, false) →
  (match s with Some z => - 2 ^ 63 <= z < 2 ^ 63 ∧ files = [] | None => True end) →
  dec_rawNode zero_rawNode text (JObject (enc_members s o u i es)) = (RawNode s o u i files, false).
Proof.
  intros Hf Hs. cbn [dec_rawNode]. unfold enc_members. rewrite !fold_left_app. generalize dependent dec_rawNode. intros d Hf.
  assert (fold_left (nodeMember d) (match s with Some z => [("size", (int_text z, JNumber (int_text z)))] | None => [] end) (zero_rawNode, false) = (RawNode s "" false None [], false)) as ->.
  { destruct s as [z|]; [|done]. cbn [fold_left]. unfold nodeMember. cbn [fst snd zero_rawNode]. change (find_field nodeFields "size") with (Some FSize). cbn iota. unfold dec_ptr. by rewrite dec_int_text by apply Hs. }
  assert (fold_left (nodeMember d) (if bool_decide (o = "") then [] else [("offset", (string_text o, JString o))]) (RawNode s "" false None [], false) = (RawNode s o false None [], false)) as ->.
  { by case_bool_decide as Ho; [rewrite Ho|]. }
  assert (fold_left (nodeMember d) (if u then [("unpacked", (bool_text true, JBool true))] else []) (RawNode s o false None [], false) = (RawNode s o u None [], false)) as -> by by destruct u.
  assert (fold_left (nodeMember d) (match i with Some i => [("integrity", enc_integrity i)] | None => [] end) (RawNode s o u None [], false) = (RawNode s o u i [], false)) as ->.
  { destruct i as [i|]; [|done]. cbn [fold_left]. unfold nodeMember. cbn [fst snd]. change (find_field nodeFields "integrity") with (Some FIntegrity). cbn iota. pose proof (dec_integrity_text i (enc_integrity i).1) as Hi. by destruct i. }
  destruct s as [z|]; [by destruct Hs as [_ ->]|]. cbn [fold_left]. unfold nodeMember. cbn [fst snd]. change (find_field nodeFields "files") with (Some FFiles). cbn iota. by rewrite Hf.
Qed.
Lemma dec_files files text : tree_ok entry_ok files → (∀ name n, (name, n) ∈ files → dec_rawNode zero_rawNode (enc_node n).1 (enc_node n).2 = (n, false)) →
  dec_map zero_rawNode dec_rawNode [] text (JObject (enc_files files)) = (files, false).
Proof.
  intros [Hnd _]%tree_ok_inv Hd. unfold enc_files. change (List.map ?g ?l) with (g <$> l).
  rewrite (list_fmap_ext _ (λ e : string * rawNode, (e.1, enc_node e.2))) by (by intros ? []). apply dec_map_entries; [|done]. apply Forall_forall. intros [name n] Hin. by apply (Hd name).
Qed.
Lemma dec_node_text name n : entry_ok name n → (match n with RawNode _ _ _ _ files => tree_ok entry_ok files end) → dec_rawNode zero_rawNode (enc_node n).1 (enc_node n).2 = (n, false).
Proof.
  revert name. induction n as [s o u i files IH] using rawNode_nested_ind. intros name (Hname & Ho & Hi & Hs) Ht. cbn [enc_node fst snd]. fold (enc_files files). apply dec_members; [|done].
  apply dec_files; [done|]. intros x [s' o' u' i' f'] Hin. apply tree_ok_inv in Ht as [_ Ht]. destruct (Ht _ _ _ _ _ _ Hin) as (_ & He & Ht'). by eapply IH.
Qed.
Lemma header_decoded {JE : JSONErrors} files : tree_ok entry_ok files → heights files + 2 <= maxNestingDepth →
  unmarshal_ok dec_rawHeader {| rh_Files := [] |} (header_text files) = Ok {| rh_Files := files |}.
Proof.
  intros Ht Hh. pose proof (tree_ok_inv _ _ Ht) as [_ Hn]. eapply (unmarshal_ok_text _ _ _ (heights files + 1 + 1)); [|lia|].
  - apply parses_object; [pose proof (heights_nonneg files); lia|]. apply Forall_cons_2; [|apply Forall_nil_2]. split; [by vm_compute|]. cbn [fst snd]. apply parses_files; [done|].
    intros name [s o u i f] Hin. destruct (Hn _ _ _ _ _ _ Hin) as (_ & He & Ht'). by apply (parses_node name).
  - unfold dec_rawHeader, dec_struct, header_members. cbn [fold_left]. unfold dec_member. cbn [fst snd]. change (find_field ?fs "files") with (hd_error fs.*2). cbn [hd_error fmap list_fmap fst snd]. unfold on. cbn [rh_Files]. rewrite dec_files; [done|done|].
    intros name [s o u i f] Hin. destruct (Hn _ _ _ _ _ _ Hin) as (_ & He & Ht'). by apply (dec_node_text name).
Qed.

(** ** Differences *)

(** The file an archive lists under a path: the last one. *)
Definition file_of (a : Archive) (p : string) : option FileEntry := last_with Path p (Files a).
Record diff_ok (a b : Archive) (d : Diff) : Prop := {
  do_added e : e ∈ Added d ↔ file_of b (Path e) = Some e ∧ file_of a (Path e) = None;
  do_removed e : e ∈ Removed d ↔ file_of a (Path e) = Some e ∧ file_of b (Path e) = None;
  do_changed e : e ∈ Changed d ↔ file_of b (Path e) = Some e ∧ ∃ o, file_of a (Path e) = Some o ∧ changed o e = true;
  do_sorted : ascending Path (Added d) ∧ ascending Path (Removed d) ∧ ascending Path (Changed d) }.

Lemma index_file a p : indexByPath a !! p = file_of a p.
Proof. unfold indexByPath. rewrite (fill_lookup_empty Path (λ e, e)). by destruct (file_of a p) eqn:E; unfold file_of in E; rewrite E. Qed.
Lemma index_path a p e : indexByPath a !! p = Some e → Path e = p.
Proof. rewrite index_file. unfold file_of. by intros [_ ?]%last_with_some. Qed.

Definition added_of (old : gmap string FileEntry) (e : string * FileEntry) : option FileEntry := match old !! e.1 with None => Some e.2 | Some _ => None end.
Definition changed_of (old : gmap string FileEntry) (e : string * FileEntry) : option FileEntry :=
  match old !! e.1 with Some o => if changed o e.2 then Some e.2 else None | None => None end.
Lemma newStep_fold old l x y : fold_left (newStep old) l (x, y) = (x ++ omap (added_of old) l, y ++ omap (changed_of old) l).
Proof.
  revert x y. induction l as [|e l IH]; intros x y; cbn [fold_left omap list_omap]; [by rewrite !app_nil_r|].
  unfold newStep at 2, added_of at 1, changed_of at 1. cbn [fst snd]. destruct (old !! e.1) as [o|]; [destruct (changed o e.2)|]; rewrite IH; by rewrite <-?app_assoc.
Qed.
Lemma oldStep_fold new l acc : fold_left (oldStep new) l acc = acc ++ omap (added_of new) l.
Proof.
  revert acc. induction l as [|e l IH]; intros acc; cbn [fold_left omap list_omap]; [by rewrite app_nil_r|].
  unfold oldStep at 2, added_of at 1. destruct (new !! e.1); rewrite IH; by rewrite <-?app_assoc.
Qed.
Lemma added_spec {R : GoRuntime} `{!RuntimeOk R} a b e :
  e ∈ omap (added_of (indexByPath a)) (map_entries (indexByPath b)) ↔ file_of b (Path e) = Some e ∧ file_of a (Path e) = None.
Proof.
  rewrite elem_of_omap_entries. unfold added_of. cbn [fst snd]. split.
  - intros (p & x & Hx & Hm). destruct (indexByPath a !! p) eqn:E; [done|]. injection Hm as ->. pose proof (index_path _ _ _ Hx) as <-. by rewrite <-!index_file.
  - intros [Hb Ha]. exists (Path e), e. by rewrite !index_file, Ha.
Qed.
Lemma changed_spec {R : GoRuntime} `{!RuntimeOk R} a b e :
  e ∈ omap (changed_of (indexByPath a)) (map_entries (indexByPath b)) ↔ file_of b (Path e) = Some e ∧ ∃ o, file_of a (Path e) = Some o ∧ changed o e = true.
Proof.
  rewrite elem_of_omap_entries. unfold changed_of. cbn [fst snd]. split.
  - intros (p & x & Hx & Hm). destruct (indexByPath a !! p) as [o|] eqn:E; [|done]. destruct (changed o x) eqn:Ec; [|done]. injection Hm as ->.
    pose proof (index_path _ _ _ Hx) as <-. rewrite <-!index_file. eauto.
  - intros [Hb (o & Ha & Hc)]. exists (Path e), e. by rewrite !index_file, Ha, Hc.
Qed.
Lemma diff_paths {R : GoRuntime} `{!RuntimeOk R} a b :
  NoDup (Path <$> omap (added_of (indexByPath a)) (map_entries (indexByPath b))) ∧ NoDup (Path <$> omap (changed_of (indexByPath a)) (map_entries (indexByPath b))).
Proof.
  split; apply omap_entries_NoDup; intros [p x] y; cbn [fst snd]; unfold added_of, changed_of; cbn [fst snd]; intros Hy Hx; repeat case_match; simplify_eq; by eapply index_path.
Qed.
Lemma DiffArchives_eq {R : GoRuntime} a b : DiffArchives a b =
  {| Added := sortEntries (omap (added_of (indexByPath a)) (map_entries (indexByPath b)));
     Removed := sortEntries (omap (added_of (indexByPath b)) (map_entries (indexByPath a)));
     Changed := sortEntries (omap (changed_of (indexByPath a)) (map_entries (indexByPath b))) |}.
Proof. unfold DiffArchives. by rewrite newStep_fold, oldStep_fold. Qed.
Lemma DiffArchives_ok {R : GoRuntime} `{!RuntimeOk R} a b : diff_ok a b (DiffArchives a b).
Proof.
  rewrite DiffArchives_eq. destruct (diff_paths a b), (diff_paths b a). split; cbn [Added Removed Changed]; unfold sortEntries.
  - intros e. rewrite elem_of_sort. apply added_spec.
  - intros e. rewrite elem_of_sort. apply added_spec.
  - intros e. rewrite elem_of_sort. apply changed_spec.
  - by split_and!; apply (ascending_sort Path).
Qed.
Lemma DiffArchives_stable {R1 R2 : GoRuntime} `{!RuntimeOk R1, !RuntimeOk R2} a b : DiffArchives (H := R1) a b = DiffArchives (H := R2) a b.
Proof.
  rewrite !DiffArchives_eq. assert (∀ m : gmap string FileEntry, @map_entries R1 _ _ _ _ m ≡ₚ @map_entries R2 _ _ _ _ m) as Hp.
  { intros m. by rewrite (@entries_perm R1), (@entries_perm R2). }
  destruct (diff_paths (R := R1) a b), (diff_paths (R := R1) b a). unfold sortEntries. f_equal; apply (sort_slice_key_eq Path); try done; by rewrite (Hp _).
Qed.
Lemma diff_empty a b d : diff_ok a b d → Empty d = true ↔
  ∀ p, match file_of a p, file_of b p with None, None => True | Some o, Some n => changed o n = false | _, _ => False end.
Proof.
  intros [Ha Hr Hc _]. assert (Empty d = true ↔ Added d = [] ∧ Removed d = [] ∧ Changed d = []) as ->.
  { unfold Empty. destruct (Added d), (Removed d), (Changed d); cbn; naive_solver. }
  assert (∀ c p e, file_of c p = Some e → Path e = p) as Hpath by (intros c p e; by intros [_ ?]%last_with_some). split.
  - intros (E1 & E2 & E3) p. rewrite E1 in Ha. rewrite E2 in Hr. rewrite E3 in Hc. destruct (file_of a p) as [o|] eqn:Eo, (file_of b p) as [n|] eqn:En; try done.
    + destruct (changed o n) eqn:Ecn; [|done]. pose proof (Hpath _ _ _ En) as <-. destruct (not_elem_of_nil n). apply Hc. eauto.
    + pose proof (Hpath _ _ _ Eo) as <-. destruct (not_elem_of_nil o). by apply Hr.
    + pose proof (Hpath _ _ _ En) as <-. destruct (not_elem_of_nil n). by apply Ha.
  - intros Hall. split_and!; apply elem_of_nil_inv; intros e.
    + intros [E1 E2]%Ha. specialize (Hall (Path e)). by rewrite E1, E2 in Hall.
    + intros [E1 E2]%Hr. specialize (Hall (Path e)). by rewrite E1, E2 in Hall.
    + intros [E1 (o & E2 & E3)]%Hc. specialize (Hall (Path e)). rewrite E1, E2 in Hall. congruence.
Qed.
End AsarFacts.

(** ** Properties *)

Import AsarFacts.

(** C34: the inventory of an archive whose header is the JSON text of a directory tree
    lists exactly the files of the tree, each under its names joined by slashes
    and with its size, hash and flag, sorted by path; reading an archive as a
    stream gives the same inventory as parsing its bytes, on all inputs. *)
Theorem asar_inventory (R : GoRuntime) (HR : RuntimeOk R) (JE : JSONErrors) head files rest :
  len head = 12 → tree_ok entry_ok files → heights files + 2 <= maxNestingDepth → len (bytes_of_string (header_text files)) <= maxHeaderBytes →
  (∀ data a, Parse data = Ok a ↔ ParseFile (Reader data io_EOF) = Ok a) ∧
  ∃ a, Parse (archive_bytes head (bytes_of_string (header_text files)) rest) = Ok a ∧ StronglySorted (λ x y, String.ltb (Path y) (Path x) = false) (Files a) ∧
    ∀ e, e ∈ Files a ↔ ∃ names, file_at files names e ∧ Path e = Join names "/".
Proof.
  intros Hh Ht Hd Hj. split; [apply readers_agree|]. destruct (inventory_sorted (bytes_of_string (header_text files)) {| rh_Files := files |}) as (a & Ha & Hp & Hs).
  { rewrite string_of_bytes_of_string. by apply header_decoded. }
  exists a. rewrite Parse_bytes by (done || by split). split; [done|]. split; [done|]. intros e. rewrite Hp, (walk_spec entry_ok) by done. split; intros (names & Hf).
  - exists names. split; [done|]. by eapply file_at_path.
  - exists names. apply Hf.
Qed.

(** The difference between two archives has exactly the files only the newer
    one lists, the files only the older one lists, and the files both list with
    different hashes, or sizes if a hash is missing, each sorted by path; it does
    not depend on map iteration, and it is empty exactly if no path differs. *)
Theorem asar_diff_exact (R R' : GoRuntime) (HR : RuntimeOk R) (HR' : RuntimeOk R') a b :
  diff_ok a b (DiffArchives (H := R) a b) ∧ DiffArchives (H := R') a b = DiffArchives (H := R) a b ∧
  (Empty (DiffArchives (H := R) a b) = true ↔
   ∀ p, match file_of a p, file_of b p with None, None => True | Some o, Some n => changed o n = false | _, _ => False end).
Proof. split; [by apply DiffArchives_ok|]. split; [by apply DiffArchives_stable|]. apply diff_empty. by apply DiffArchives_ok. Qed.

Definition demo_files : list (string * rawNode) := [
  ("lib", RawNode None "" false None [("b.node", RawNode (Some 12) "" true None []); ("a.js", RawNode (Some 7) "0" false (Some {| Algorithm := "SHA256"; Hash := "ab12" |}) [])]);
  ("main.js", RawNode (Some 40) "7" false (Some {| Algorithm := "SHA256"; Hash := "cd34" |}) [])].
Definition demo_json : list byte := bytes_of_string (header_text demo_files).
Definition demo_head : list byte := replicate 12 "000"%byte.
Definition demo_errors : JSONErrors := λ _, "".
Definition demo_archive : Archive := {| Files := [
  {| Path := "lib/a.js"; Size := 7; SHA256 := "ab12"; Unpacked := false |}; {| Path := "lib/b.node"; Size := 12; SHA256 := ""; Unpacked := true |};
  {| Path := "main.js"; Size := 40; SHA256 := "cd34"; Unpacked := false |}] |}.
Lemma demo_files_ok : tree_ok entry_ok demo_files.
Proof.
  assert (tree_ok entry_ok []) as Hnil by (constructor; [constructor|by intros ? ? ? ? ? ? ?%not_elem_of_nil]).
  assert (∀ name z o u i, entry_ok name (RawNode (Some z) o u i []) → name ≠ "" → name ≠ "" ∧ entry_ok name (RawNode (Some z) o u i []) ∧ tree_ok entry_ok []) as Hfile by done.
  constructor; [apply (bool_decide_unpack _); by vm_compute|]. intros name s o u i f Hin. repeat apply elem_of_cons in Hin as [Hin|Hin]; [injection Hin as -> -> -> -> -> ->..|by apply not_elem_of_nil in Hin].
  - split_and!; [done|by split_and!|]. constructor; [apply (bool_decide_unpack _); by vm_compute|]. intros name s o u i f Hin.
    repeat apply elem_of_cons in Hin as [Hin|Hin]; [injection Hin as -> -> -> -> -> ->; apply Hfile; [by repeat split|done]..|by apply not_elem_of_nil in Hin].
  - apply Hfile; [by repeat split|done].
Qed.
Lemma asar_inventory_witness :
  Parse (H := go_runtime) (JE := demo_errors) (archive_bytes demo_head demo_json []) = Ok demo_archive ∧
  ∃ a, Parse (H := go_runtime) (JE := demo_errors) (archive_bytes demo_head demo_json []) = Ok a ∧ StronglySorted (λ x y, String.ltb (Path y) (Path x) = false) (Files a) ∧
    ∀ e, e ∈ Files a ↔ ∃ names, file_at demo_files names e ∧ Path e = Join names "/".
Proof. split; [by vm_compute|]. apply (asar_inventory go_runtime go_runtime_ok demo_errors demo_head demo_files []); [done|apply demo_files_ok|by vm_compute|by vm_compute]. Defined.
Definition demo_newer : Archive := {| Files := [
  {| Path := "lib/a.js"; Size := 7; SHA256 := "ff00"; Unpacked := false |}; {| Path := "main.js"; Size := 41; SHA256 := "cd34"; Unpacked := false |};
  {| Path := "new.js"; Size := 1; SHA256 := ""; Unpacked := false |}] |}.
Lemma asar_diff_exact_witness :
  (Path <$> Added (DiffArchives (H := go_runtime) demo_archive demo_newer), Path <$> Removed (DiffArchives (H := go_runtime) demo_archive demo_newer),
   Path <$> Changed (DiffArchives (H := go_runtime) demo_archive demo_newer)) = (["new.js"], ["lib/b.node"], ["lib/a.js"]) ∧
  DiffArchives (H := go_runtime_rev) demo_archive demo_newer = DiffArchives (H := go_runtime) demo_archive demo_newer.
Proof. split; [by vm_compute|]. apply (asar_diff_exact go_runtime go_runtime_rev go_runtime_ok go_runtime_rev_ok). Defined.
