(* ===== verification/ElectronFuse.v ===== *)
(** * Electron fuses

    [src/internal/electronfuse]: the fuse wire of an Electron binary (a sentinel,
    a version, a count and one status byte per fuse) and its audit. *)

From S2P Require Import Prelude Arrays GoStrings GoText.

Module Fuses.

(** [bytes.Index] *)
Fixpoint bytes_prefix (p l : list byte) : bool :=
  match p, l with [], _ => true | x :: p, y :: l => bool_decide (x = y) && bytes_prefix p l | _ :: _, [] => false end.
Fixpoint bytes_Index (l sep : list byte) : Z :=
  if bytes_prefix sep l then 0 else
  match l with [] => -1 | _ :: l => let i := bytes_Index l sep in if i <? 0 then -1 else i + 1 end.

Definition sentinel : list byte := bytes_of_string "dL7pKGdnNz796PbbjQWNKmHXBZaB9tsX".
Definition ErrNoSentinel : goerror := Errorf "electronfuse: fuse sentinel not found".
Definition StatusDisabled : string := "disabled".
Definition StatusEnabled : string := "enabled".
Definition StatusRemoved : string := "removed".
Record Fuse := { fu_Index : Z; fu_Name : string; fu_Status : string }.
Record Config := { cf_Version : Z; cf_Fuses : list Fuse }.
Definition v1Names : list string := [
  "RunAsNode"; "EnableCookieEncryption"; "EnableNodeOptionsEnvironmentVariable"; "EnableNodeCliInspectArguments";
  "EnableEmbeddedAsarIntegrityValidation"; "OnlyLoadAppFromAsar"; "LoadBrowserProcessSpecificV8Snapshot"; "GrantFileProtocolExtraPrivileges"].

Definition fuseName (i : Z) : outcome string :=
  if (0 <=? i) && (i <? len v1Names) then idx v1Names i else Ok ("Fuse" +:+ itoa i).
Definition statusFromByte (b : byte) : string :=
  if b2z b =? 48 then StatusDisabled else if b2z b =? 49 then StatusEnabled else StatusRemoved.
Definition fuseStep (data : list byte) (start : Z) (fuses : list Fuse) (i : Z) : outcome (list Fuse) :=
  name ← fuseName i;
  b ← idx data (start + i);
  Ok (fuses ++ [{| fu_Index := i; fu_Name := name; fu_Status := statusFromByte b |}]).
Definition Parse (data : list byte) : outcome Config :=
  let i := bytes_Index data sentinel in
  if i <? 0 then Err ErrNoSentinel else
  let p := i + len sentinel in
  if len data <? p + 2 then Err (Errorf "electronfuse: truncated wire after sentinel") else
  v ← idx data p;
  c ← idx data (p + 1);
  let count := b2z c in
  let start := p + 2 in
  if len data <? start + count then Err (Errorf ("electronfuse: fuse count " +:+ itoa count +:+ " exceeds data")) else
  fuses ← for_each (upto 0 count) (fuseStep data start) [];
  Ok {| cf_Version := b2z v; cf_Fuses := fuses |}.

Definition Get (c : Config) (name : string) : string * bool :=
  match list_find (λ f, fu_Name f = name) (cf_Fuses c) with Some (_, f) => (fu_Status f, true) | None => ("", false) end.

Record Finding := { fi_Fuse : string; fi_Severity : string; fi_Message : string }.
Definition has (c : Config) (name status : string) : bool := let '(s, ok) := Get c name in ok && bool_decide (s = status).
Definition Audit (c : Config) : list Finding :=
  (if has c "RunAsNode" StatusEnabled then [{| fi_Fuse := "RunAsNode"; fi_Severity := "critical";
     fi_Message := "RunAsNode is enabled — any local process can set ELECTRON_RUN_AS_NODE and execute arbitrary JavaScript as this signed app." |}] else []) ++
  (if has c "EnableNodeCliInspectArguments" StatusEnabled then [{| fi_Fuse := "EnableNodeCliInspectArguments"; fi_Severity := "warn";
     fi_Message := "Node CLI --inspect arguments are honored — a local process can attach a debugger and run code in the app's context." |}] else []) ++
  (if has c "EnableNodeOptionsEnvironmentVariable" StatusEnabled then [{| fi_Fuse := "EnableNodeOptionsEnvironmentVariable"; fi_Severity := "warn";
     fi_Message := "NODE_OPTIONS is honored — a local process can inject Node flags or preload modules into the app." |}] else []) ++
  (if has c "EnableEmbeddedAsarIntegrityValidation" StatusDisabled then [{| fi_Fuse := "EnableEmbeddedAsarIntegrityValidation"; fi_Severity := "warn";
     fi_Message := "Embedded asar integrity validation is off — the app.asar payload can be swapped without detection." |}] else []) ++
  (if has c "OnlyLoadAppFromAsar" StatusDisabled then [{| fi_Fuse := "OnlyLoadAppFromAsar"; fi_Severity := "info";
     fi_Message := "OnlyLoadAppFromAsar is off — the app may load code from an unpacked directory, not just the signed asar." |}] else []).
End Fuses.

Module FuseFacts.
Export Fuses.

(** The name of the fuse at an index. *)
Definition name_at (i : nat) : string := default ("Fuse" +:+ itoa (Z.of_nat i)) (v1Names !! i).
Lemma fuseName_at i : fuseName (Z.of_nat i) = Ok (name_at i).
Proof.
  unfold fuseName, name_at. rewrite (proj2 (Z.leb_le _ _)) by lia. cbn [andb]. destruct (Z.ltb_spec (Z.of_nat i) (len v1Names)) as [Hi|Hi].
  - destruct (idx_some v1Names (Z.of_nat i)) as (a & Ha & ->); [lia|]. rewrite Nat2Z.id in Ha. by rewrite Ha.
  - rewrite lookup_ge_None_2; [done|]. unfold len in Hi. lia.
Qed.
Definition fuse_of (i : nat) (b : byte) : Fuse := {| fu_Index := Z.of_nat i; fu_Name := name_at i; fu_Status := statusFromByte b |}.

(** A binary: what precedes the sentinel, the version, the statuses and what follows. *)
Definition binary (before : list byte) (version : byte) (statuses after : list byte) : list byte :=
  before ++ sentinel ++ [version; z2b (len statuses)] ++ statuses ++ after.

Lemma bytes_prefix_app p l k : bytes_prefix p l = true → bytes_prefix p (l ++ k) = true.
Proof. revert l. induction p as [|x p IH]; intros [|y l]; cbn; try done. intros [-> ?]%andb_prop. by rewrite IH. Qed.
Lemma bytes_prefix_length p l : bytes_prefix p l = true → len p <= len l.
Proof.
  revert l. induction p as [|x p IH]; intros l Hp; [rewrite len_nil; apply len_nonneg|]. destruct l as [|y l]; [done|]. cbn in Hp. to_prop. rewrite !len_cons. assert (len p <= len l) by by apply IH. lia.
Qed.
Lemma bytes_prefix_app_long p l k : len p <= len l → bytes_prefix p (l ++ k) = bytes_prefix p l.
Proof.
  revert l. induction p as [|x p IH]; intros l Hl; [by destruct l, k|]. destruct l as [|y l]; rewrite !len_cons in Hl; [rewrite len_nil in Hl; len_facts; lia|].
  cbn. by rewrite IH by lia.
Qed.
Lemma bytes_Index_range l sep : -1 <= bytes_Index l sep ∧ (0 <= bytes_Index l sep → bytes_Index l sep + len sep <= len l).
Proof.
  induction l as [|x l IH]; cbn [bytes_Index].
  - destruct (bytes_prefix sep []) eqn:E; [apply bytes_prefix_length in E; lia|lia].
  - destruct (bytes_prefix sep (x :: l)) eqn:E; [apply bytes_prefix_length in E; lia|]. rewrite len_cons. destruct (Z.ltb_spec (bytes_Index l sep) 0); lia.
Qed.
Lemma bytes_Index_app l sep k : 0 <= bytes_Index l sep → bytes_Index (l ++ k) sep = bytes_Index l sep.
Proof.
  induction l as [|x l IH]; cbn [bytes_Index app].
  - destruct (bytes_prefix sep []) eqn:E; [|lia]. intros _. apply (bytes_prefix_app _ _ k) in E. cbn in E. destruct k; cbn [bytes_Index]; by rewrite E.
  - pose proof (bytes_Index_range l sep) as Hr. destruct (bytes_prefix sep (x :: l)) eqn:E.
    + apply (bytes_prefix_app _ _ k) in E. cbn [app] in E. by rewrite E.
    + destruct (Z.ltb_spec (bytes_Index l sep) 0) as [|Hi]; [lia|]. intros _. pose proof (bytes_prefix_app_long sep (x :: l) k) as Hl.
      rewrite len_cons in Hl. cbn [app] in Hl. rewrite Hl, E by lia. rewrite IH by lia. by rewrite (proj2 (Z.ltb_ge _ _)) by lia.
Qed.

Lemma fuses_read data start statuses rest : 0 <= start → drop (Z.to_nat start) data = statuses ++ rest →
  for_each (upto 0 (len statuses)) (fuseStep data start) [] = Ok (imap fuse_of statuses).
Proof.
  intros Hs. revert rest. induction statuses as [|b statuses IH] using rev_ind; intros rest Hd; [done|]. rewrite len_snoc, upto_snoc by apply len_nonneg.
  rewrite for_each_app, (IH (b :: rest)) by by rewrite Hd, <-app_assoc. cbn [mbind outcome_bind for_each]. unfold fuseStep, len. rewrite fuseName_at. cbn [mbind outcome_bind].
  rewrite (idx_ok data (start + Z.of_nat (length statuses)) b); [|lia|].
  - cbn [mbind outcome_bind]. rewrite imap_app. cbn. unfold compose. by rewrite Nat.add_0_r.
  - replace (Z.to_nat (start + Z.of_nat (length statuses))) with (Z.to_nat start + length statuses)%nat by lia.
    rewrite <-lookup_drop, Hd, lookup_app_l by (rewrite length_app; cbn; lia). by apply list_lookup_middle.
Qed.
Lemma Parse_binary before version statuses after : bytes_Index (before ++ sentinel) sentinel = len before → len statuses < 256 →
  Parse (binary before version statuses after) = Ok {| cf_Version := b2z version; cf_Fuses := imap fuse_of statuses |}.
Proof.
  intros Hi Hn. unfold Parse, binary. rewrite app_assoc. pose proof (len_nonneg before) as Hb. rewrite bytes_Index_app, Hi by lia.
  rewrite (proj2 (Z.ltb_ge _ _)) by lia. assert (b2z (z2b (len statuses)) = len statuses) as Hc by (rewrite z2b_spec; apply Z.mod_small; len_facts; lia).
  rewrite !len_app. change (len [version; z2b (len statuses)]) with 2. len_facts. rewrite (proj2 (Z.ltb_ge _ _)) by lia.
  assert (len before + len sentinel = len (before ++ sentinel)) as -> by by rewrite len_app.
  rewrite !(idx_skip (before ++ sentinel)) by (try (pose proof (len_nonneg (before ++ sentinel))); lia). rewrite Z.sub_diag.
  replace (len (before ++ sentinel) + 1 - len (before ++ sentinel)) with 1 by lia. cbn [app idx]. change (idx (version :: ?l) 0) with (Ok version).
  change (idx (version :: ?c :: ?l) 1) with (Ok c). cbn [mbind outcome_bind]. rewrite Hc, (proj2 (Z.ltb_ge _ _)) by lia.
  rewrite (fuses_read _ _ statuses after); [done|pose proof (len_nonneg (before ++ sentinel)); lia|].
  replace (Z.to_nat (len (before ++ sentinel) + 2)) with (length (before ++ sentinel) + 2)%nat by (unfold len; lia). by rewrite <-drop_drop, drop_app_length.
Qed.

(** *** No input causes a panic. *)
Lemma Parse_safe data : wp (Parse data) (λ c, len (cf_Fuses c) < 256).
Proof.
  unfold Parse. destruct (bytes_Index_range data sentinel) as [Hlo Hhi]. apply wp_if; intros Hi; [done|]. apply wp_if; intros Hp; [done|]. to_prop.
  set (p := bytes_Index data sentinel + len sentinel) in *. assert (0 <= p) by (unfold p; len_facts; lia).
  apply wp_bind, wp_idx; [lia|]. intros v _. apply wp_bind, wp_idx; [lia|]. intros c _. apply wp_if; intros Hc; [done|]. to_prop. pose proof (b2z_range c).
  set (statuses := take (Z.to_nat (b2z c)) (drop (Z.to_nat (p + 2)) data)). assert (len statuses = b2z c) as Hl.
  { unfold statuses, len in *. rewrite length_take, length_drop. lia. }
  rewrite <-Hl, (fuses_read data (p + 2) statuses (drop (Z.to_nat (b2z c)) (drop (Z.to_nat (p + 2)) data))); [|lia|by unfold statuses; rewrite take_drop].
  cbn. unfold len in *. rewrite length_imap. lia.
Qed.

(** ** The audit *)

Lemma name_at_inj i name : v1Names !! i = Some name → ∀ j, name_at j = name → j = i.
Proof.
  intros Hi j Hj. unfold name_at in Hj. destruct (v1Names !! j) as [n|] eqn:E; cbn in Hj.
  - subst n. assert (NoDup v1Names) as Hn by (apply (bool_decide_unpack _); by vm_compute). by apply (NoDup_lookup v1Names j i name).
  - exfalso. assert (Forall (λ n, HasPrefix n "Fuse" = false) v1Names) as Hp by (apply (bool_decide_unpack _); by vm_compute).
    pose proof (Forall_lookup_1 _ _ _ _ Hp Hi) as Hf. cbn beta in Hf. by rewrite <-Hj, HasPrefix_app in Hf.
Qed.
Lemma Get_wire v statuses i name : v1Names !! i = Some name →
  Get {| cf_Version := v; cf_Fuses := imap fuse_of statuses |} name = match statuses !! i with Some b => (statusFromByte b, true) | None => ("", false) end.
Proof.
  intros Hi. unfold Get. cbn [cf_Fuses]. destruct (list_find _ _) as [[j f]|] eqn:E.
  - apply list_find_Some in E as (Hj & Hf & _). rewrite list_lookup_imap in Hj. destruct (statuses !! j) as [b|] eqn:Eb; [|done]. injection Hj as <-.
    cbn in Hf. apply (name_at_inj i name Hi) in Hf as ->. by rewrite Eb.
  - destruct (statuses !! i) as [b|] eqn:Eb; [|done]. exfalso. apply list_find_None in E. rewrite Forall_forall in E. apply (E (fuse_of i b)).
    + apply list_elem_of_lookup. exists i. by rewrite list_lookup_imap, Eb.
    + cbn. unfold name_at. by rewrite Hi.
Qed.
Lemma enabled_byte x : statusFromByte x = StatusEnabled ↔ x = "1"%byte.
Proof.
  unfold statusFromByte. split; [|by intros ->]. destruct (Z.eqb_spec (b2z x) 48); [done|]. destruct (Z.eqb_spec (b2z x) 49); [|done]. intros _. by apply b2z_inj.
Qed.
Lemma disabled_byte x : statusFromByte x = StatusDisabled ↔ x = "0"%byte.
Proof.
  unfold statusFromByte. split; [|by intros ->]. destruct (Z.eqb_spec (b2z x) 48); [|by destruct (_ =? 49)]. intros _. by apply b2z_inj.
Qed.
Lemma chosen {A B C} (P : Prop) `{Decision P} (f : A → C) (g : B → C) x y xs ys :
  f x = g y → xs = g <$> ys → (f <$> (if bool_decide P then [x] else [])) ++ xs = g <$> (if decide P then y :: ys else ys).
Proof. intros Hxy ->. case_bool_decide; case_decide; try done. cbn. by rewrite Hxy. Qed.
End FuseFacts.

(** ** Properties *)

Import FuseFacts.

(** The findings, and for each the index of its fuse and the status byte that causes it. *)
Definition audit_rules : list (string * string * nat * byte) := [
  ("RunAsNode", "critical", 0%nat, "1"%byte); ("EnableNodeCliInspectArguments", "warn", 3%nat, "1"%byte);
  ("EnableNodeOptionsEnvironmentVariable", "warn", 2%nat, "1"%byte); ("EnableEmbeddedAsarIntegrityValidation", "warn", 4%nat, "0"%byte);
  ("OnlyLoadAppFromAsar", "info", 5%nat, "0"%byte)].

(** The wire after the first sentinel of a binary is decoded to its version and
    the named status of every fuse; the audit of it reports exactly the fuses
    whose status byte on the wire is the dangerous one, in a fixed order; and no
    input causes a panic. *)
Theorem fuses_audited before version statuses after : bytes_Index (before ++ sentinel) sentinel = len before → len statuses < 256 →
  (∀ data, wp (Parse data) (λ c, len (cf_Fuses c) < 256)) ∧
  ∃ c, Parse (binary before version statuses after) = Ok c ∧ cf_Version c = b2z version ∧
    cf_Fuses c = imap fuse_of statuses ∧
    ((λ f, (fi_Fuse f, fi_Severity f)) <$> Audit c) = (λ r, (r.1.1.1, r.1.1.2)) <$> filter (λ r, statuses !! r.1.2 = Some r.2) audit_rules.
Proof.
  intros Hi Hn. split; [apply Parse_safe|]. eexists. split; [by apply Parse_binary|]. split; [done|]. split; [done|].
  assert (∀ i name b st, v1Names !! i = Some name → (∀ x, statusFromByte x = st ↔ x = b) →
    has {| cf_Version := b2z version; cf_Fuses := imap fuse_of statuses |} name st = bool_decide (statuses !! i = Some b)) as Hhas.
  { intros i name b st Hv Hst. unfold has. rewrite (Get_wire _ _ _ _ Hv). destruct (statuses !! i) as [x|]; cbn [andb]; [|by rewrite bool_decide_false].
    apply bool_decide_ext. rewrite Hst. naive_solver. }
  unfold Audit. rewrite (Hhas 0%nat _ _ _ eq_refl enabled_byte), (Hhas 3%nat _ _ _ eq_refl enabled_byte), (Hhas 2%nat _ _ _ eq_refl enabled_byte),
    (Hhas 4%nat _ _ _ eq_refl disabled_byte), (Hhas 5%nat _ _ _ eq_refl disabled_byte).
  unfold audit_rules. rewrite !filter_cons, filter_nil. cbn [fst snd]. rewrite !fmap_app. repeat apply chosen; try done. by case_decide; case_bool_decide.
Qed.
Lemma fuses_audited_witness : ∃ c, Parse (binary (bytes_of_string "MZ") "1"%byte (bytes_of_string "1010001") []) = Ok c ∧ (fi_Fuse <$> Audit c) = ["RunAsNode"; "EnableNodeOptionsEnvironmentVariable"; "EnableEmbeddedAsarIntegrityValidation"; "OnlyLoadAppFromAsar"].
Proof.
  destruct (fuses_audited (bytes_of_string "MZ") "1"%byte (bytes_of_string "1010001") []) as (_ & c & Hp & _); [by vm_compute|by vm_compute|].
  exists c. split; [done|]. vm_compute in Hp. injection Hp as <-. by vm_compute.
Defined.
