(* ===== verification/CacheStore.v ===== *)
(** * The blob cache

    [src/internal/cache/sharded.go]: the sharded file store.  [Put] is a step
    machine over the files of a disk, one step per call of the operating system,
    each of which may fail, so that puts of many goroutines interleave and may be
    cut off anywhere. *)

From Stdlib Require Import Ascii.
From stdpp Require Import relations.
From S2P Require Import Prelude Arrays GoStrings GoRuntime GoPath GoText.

Module Sharded.

Record ShardedStore := { ss_root : string }.
(** [filepath.Join] of a cleaned directory and names without slashes; an empty last name is dropped. *)
Definition join2 (dir name : string) : string := dir +:+ "/" +:+ name.
Definition join3 (dir a b : string) : string := if bool_decide (b = "") then join2 dir a else join2 (join2 dir a) b.
Definition NewShardedStore (versionedRoot kind : string) : ShardedStore := {| ss_root := join2 versionedRoot kind |}.

Definition path (s : ShardedStore) (key : list byte) : outcome string :=
  let h := hex_bytes key in
  if strlen h <? 2 then Panic else Ok (join3 (ss_root s) (str_take 2 h) (str_drop 2 h)).
(** [filepath.Dir] of the path. *)
Definition pathDir (s : ShardedStore) (key : list byte) : string :=
  let h := hex_bytes key in if bool_decide (str_drop 2 h = "") then ss_root s else join2 (ss_root s) (str_take 2 h).

(** The files of the disk. *)
Abbreviation files := (gmap string (list byte)).

(** [Get], with the I/O error of a path that cannot be read. *)
Definition Get (read_error : string → option goerror) (s : ShardedStore) (fs : files) (key : list byte) : outcome (option (list byte)) :=
  p ← path s key;
  match read_error p with Some e => Err e | None => Ok (fs !! p) end.
Definition Has (s : ShardedStore) (fs : files) (key : list byte) : outcome bool :=
  p ← path s key; Ok (bool_decide (is_Some (fs !! p))).

(** Where a [Put] is: before which call it is, with the temporary file it has, or what it returned. *)
Inductive put_pc :=
| AtPath
| AtMkdir
| AtTemp
| AtWrite (tmp : string)
| AtClose (tmp : string)
| AtRemove (tmp : string) (e : goerror)
| AtRename (tmp : string)
| Returned (err : option goerror)
| Panicked.

Section Put.
Context (s : ShardedStore) (key data : list byte).

(** A name that [os.CreateTemp(dir, ".tmp-")] may choose. *)
Definition temp_name (tmp : string) : Prop := ∃ suffix, tmp = join2 (pathDir s key) (".tmp-" +:+ suffix).

Inductive put_step : files * put_pc → files * put_pc → Prop :=
| path_ok fs dest : path s key = Ok dest → put_step (fs, AtPath) (fs, AtMkdir)
| path_panic fs : path s key = Panic → put_step (fs, AtPath) (fs, Panicked)
| mkdir_ok fs : put_step (fs, AtMkdir) (fs, AtTemp)
| mkdir_fail fs e : put_step (fs, AtMkdir) (fs, Returned (Some (Wrapf ("cache: mkdir " +:+ pathDir s key +:+ ": %w") e)))
| temp_ok fs tmp : temp_name tmp → fs !! tmp = None → put_step (fs, AtTemp) (<[tmp := []]> fs, AtWrite tmp)
| temp_fail fs e : put_step (fs, AtTemp) (fs, Returned (Some (Wrapf "cache: temp file: %w" e)))
| write_part fs tmp n : put_step (fs, AtWrite tmp) (<[tmp := take n data]> fs, AtWrite tmp)
| write_ok fs tmp : put_step (fs, AtWrite tmp) (<[tmp := data]> fs, AtClose tmp)
| write_fail fs tmp e : put_step (fs, AtWrite tmp) (fs, AtRemove tmp (Wrapf "cache: write: %w" e))
| close_ok fs tmp : put_step (fs, AtClose tmp) (fs, AtRename tmp)
| close_fail fs tmp e : put_step (fs, AtClose tmp) (fs, AtRemove tmp e)
| remove_ok fs tmp e : put_step (fs, AtRemove tmp e) (delete tmp fs, Returned (Some e))
| remove_fail fs tmp e : put_step (fs, AtRemove tmp e) (fs, Returned (Some e))
| rename_ok fs tmp dest c : path s key = Ok dest → fs !! tmp = Some c → put_step (fs, AtRename tmp) (<[dest := c]> (delete tmp fs), Returned None)
| rename_fail fs tmp e : put_step (fs, AtRename tmp) (fs, Returned (Some e)).
End Put.

(** Goroutines that each execute a [Put]. *)
Record putter := { pt_key : list byte; pt_data : list byte; pt_pc : put_pc }.
Inductive system_step (s : ShardedStore) : files * list putter → files * list putter → Prop :=
| some_step fs fs' ts i t pc : ts !! i = Some t → put_step s (pt_key t) (pt_data t) (fs, pt_pc t) (fs', pc) →
  system_step s (fs, ts) (fs', <[i := {| pt_key := pt_key t; pt_data := pt_data t; pt_pc := pc |}]> ts).
Definition started (jobs : list (list byte * list byte)) : list putter := (λ j, {| pt_key := j.1; pt_data := j.2; pt_pc := AtPath |}) <$> jobs.

(** The effect of a [Put] that succeeds. *)
Definition put_effect (s : ShardedStore) (fs : files) (key data : list byte) : outcome files := p ← path s key; Ok (<[p := data]> fs).
End Sharded.

Module ShardedFacts.
Export Sharded.

(** ** Paths *)

Definition path_char (c : char) : bool := is_digit c || is_lower c || Ascii.eqb c "/"%char.
Lemma hex_digit_char n : is_digit (hex_digit n) || is_lower (hex_digit n) = true.
Proof.
  unfold hex_digit. pose proof (Z.mod_pos_bound n 16). assert (Forall (λ k, match String.get (Z.to_nat k) "0123456789abcdef" with Some c => is_digit c || is_lower c | None => false end = true) (seqZ 0 16)) as Hall.
  { apply (bool_decide_unpack _). by vm_compute. }
  rewrite Forall_forall in Hall. specialize (Hall (n `mod` 16)). rewrite elem_of_seqZ in Hall. destruct (String.get _ _); [by apply Hall; lia|]. done.
Qed.
Lemma hex_digit_inj m n : hex_digit m = hex_digit n → m `mod` 16 = n `mod` 16.
Proof.
  unfold hex_digit. pose proof (Z.mod_pos_bound n 16). pose proof (Z.mod_pos_bound m 16).
  assert (Forall (λ a, Forall (λ b, hex_digit a = hex_digit b → a = b) (seqZ 0 16)) (seqZ 0 16)) as Hall by (apply (bool_decide_unpack _); by vm_compute).
  rewrite Forall_forall in Hall. specialize (Hall (m `mod` 16)). rewrite elem_of_seqZ, Forall_forall in Hall. specialize (Hall ltac:(lia) (n `mod` 16)).
  rewrite elem_of_seqZ in Hall. unfold hex_digit in Hall. rewrite !Z.mod_mod in Hall by lia. apply Hall. lia.
Qed.
Lemma hex_bytes_inj k1 k2 : hex_bytes k1 = hex_bytes k2 → k1 = k2.
Proof.
  revert k2. induction k1 as [|b1 k1 IH]; intros [|b2 k2]; [done|done|done|]. cbn [hex_bytes fold_right]. unfold hex2. rewrite !str_app_cons, !str_app_nil.
  intros Hk. injection Hk as H1 H2 H3. apply hex_digit_inj in H1, H2. f_equal; [|by apply IH]. apply b2z_inj. pose proof (b2z_range b1). pose proof (b2z_range b2).
  rewrite !(Z.mod_small (_ `div` 16)) in H1 by (split; [apply Z.div_pos; lia|apply Z.div_lt_upper_bound; lia]).
  pose proof (Z.div_mod (b2z b1) 16). pose proof (Z.div_mod (b2z b2) 16). lia.
Qed.
Lemma hex_bytes_chars k : str_forall path_char (hex_bytes k) = true.
Proof.
  induction k as [|b k IH]; [done|]. cbn [hex_bytes fold_right]. fold (hex_bytes k). unfold hex2. rewrite !str_app_cons, str_app_nil. cbn [str_forall]. rewrite IH. unfold path_char.
  by rewrite !hex_digit_char.
Qed.
Lemma str_take_drop n s : str_take n s +:+ str_drop n s = s.
Proof.
  unfold str_take, str_drop. generalize (Z.to_nat n) as k. intros k. revert s. induction k as [|k IH]; intros s; [by destruct s|].
  destruct s as [|c s]; [done|]. cbn [String.substring str_drop_nat]. rewrite str_app_cons. by rewrite IH.
Qed.
Lemma str_app_inv_head (a b c : string) : a +:+ b = a +:+ c → b = c.
Proof. induction a as [|x a IH]; [done|]. rewrite !str_app_cons. intros [= ?]. by apply IH. Qed.

(** The part of a path below the root: the hexadecimal digits with a slash after the second. *)
Definition shard (key : list byte) : string :=
  let h := hex_bytes key in str_take 2 h +:+ (if bool_decide (str_drop 2 h = "") then "" else "/" +:+ str_drop 2 h).
Lemma path_shard s key : path s key = if strlen (hex_bytes key) <? 2 then Panic else Ok (ss_root s +:+ "/" +:+ shard key).
Proof. unfold path, join3, join2, shard. case_match; [done|]. case_bool_decide; by rewrite ?str_app_nil_r, ?str_app_assoc. Qed.
Lemma str_take_length n s : n <= strlen s → 0 <= n → strlen (str_take n s) = n.
Proof.
  unfold str_take, strlen. intros Hn H0. enough (∀ k s, (k <= String.length s)%nat → String.length (String.substring 0 k s) = k) as H by (rewrite H; lia).
  clear. induction k as [|k IH]; intros s Hk; [by destruct s|]. destruct s as [|c s]; cbn in Hk; [lia|]. cbn. by rewrite IH by lia.
Qed.
Lemma app_inv_length (a b c d : string) : String.length a = String.length c → a +:+ b = c +:+ d → a = c ∧ b = d.
Proof.
  revert c. induction a as [|x a IH]; intros [|y c] Hl; cbn in Hl; try lia; [done|]. rewrite !str_app_cons. intros [= -> H]. apply IH in H as [-> ->]; [done|lia].
Qed.
Lemma shard_inj k1 k2 : 2 <= strlen (hex_bytes k1) → 2 <= strlen (hex_bytes k2) → shard k1 = shard k2 → k1 = k2.
Proof.
  intros H1 H2 Hs. apply hex_bytes_inj. unfold shard in Hs. apply app_inv_length in Hs as [Ht Hd].
  - rewrite <-(str_take_drop 2 (hex_bytes k1)), <-(str_take_drop 2 (hex_bytes k2)), Ht. f_equal.
    repeat case_bool_decide; [congruence|done|done|by apply str_app_inv_head in Hd].
  - pose proof (str_take_length 2 (hex_bytes k1)) as L1. pose proof (str_take_length 2 (hex_bytes k2)) as L2. unfold strlen in *. lia.
Qed.
Lemma path_inj s k1 k2 p : path s k1 = Ok p → path s k2 = Ok p → k1 = k2.
Proof.
  rewrite !path_shard. destruct (Z.ltb_spec (strlen (hex_bytes k1)) 2), (Z.ltb_spec (strlen (hex_bytes k2)) 2); try done. intros [= <-] [= Hp].
  do 2 apply str_app_inv_head in Hp. symmetry. by apply shard_inj.
Qed.

Lemma str_forall_part p n s : str_forall p s = true → str_forall p (str_take n s) = true ∧ str_forall p (str_drop n s) = true.
Proof. intros Hs. rewrite <-(str_take_drop n s), str_forall_app in Hs. by apply andb_prop in Hs. Qed.
Lemma shard_chars key : str_forall path_char (shard key) = true.
Proof.
  unfold shard. destruct (str_forall_part path_char 2 _ (hex_bytes_chars key)) as [Ht Hd]. rewrite str_forall_app, Ht. case_bool_decide; [done|]. by rewrite str_forall_app, Hd.
Qed.
(** A temporary file is not the file of a key. *)
Lemma temp_not_path s k key tmp p : temp_name s k tmp → path s key = Ok p → tmp ≠ p.
Proof.
  intros (suffix & ->) Hp Heq. rewrite path_shard in Hp. case_match; [done|]. injection Hp as <-. unfold join2, pathDir in Heq.
  assert (str_forall path_char (shard key) = true) as Hc by apply shard_chars. case_bool_decide; unfold join2 in Heq; rewrite ?str_app_assoc in Heq; apply str_app_inv_head in Heq.
  - apply str_app_inv_head in Heq. by rewrite <-Heq in Hc.
  - apply str_app_inv_head in Heq. rewrite <-Heq, !str_forall_app in Hc. cbn in Hc. by rewrite andb_false_r in Hc.
Qed.

(** ** Concurrent puts *)

(** The temporary file a put owns, and whether it holds all the data. *)
Definition owns (pc : put_pc) : option string :=
  match pc with AtWrite tmp | AtClose tmp | AtRemove tmp _ | AtRename tmp => Some tmp | _ => None end.
Definition complete (pc : put_pc) : bool := match pc with AtClose _ | AtRename _ => true | _ => false end.
Definition succeeded (ts : list putter) (key data : list byte) : Prop := {| pt_key := key; pt_data := data; pt_pc := Returned None |} ∈ ts.

#[export] Instance put_pc_eq_dec : EqDecision put_pc.
Proof. solve_decision. Defined.

(** A put in a state: it owns an existing temporary file, complete when it says so. *)
Definition holds (s : ShardedStore) (key data : list byte) (fs : files) (pc : put_pc) : Prop :=
  ∀ tmp, owns pc = Some tmp → temp_name s key tmp ∧ is_Some (fs !! tmp) ∧ (complete pc = true → fs !! tmp = Some data).

(** What a step does: the put keeps its file or takes a new one; other existing
    temporary files are not touched; and the file of a key changes only when the
    put of this key succeeds. *)
Lemma put_step_frame s key data fs pc fs' pc' : put_step s key data (fs, pc) (fs', pc') → holds s key data fs pc →
  (∀ e, pc ≠ Returned e) ∧ holds s key data fs' pc' ∧
  (∀ tmp, owns pc' = Some tmp → owns pc = Some tmp ∨ fs !! tmp = None) ∧
  (∀ q, (∀ k p, path s k = Ok p → q ≠ p) → owns pc ≠ Some q → is_Some (fs !! q) → fs' !! q = fs !! q) ∧
  (∀ k p, path s k = Ok p → fs' !! p = if decide (pc' = Returned None ∧ k = key) then Some data else fs !! p).
Proof.
  intros Hstep Hh. assert (∀ tmp, owns pc = Some tmp → ∀ k p, path s k = Ok p → p ≠ tmp) as Hne.
  { intros tmp Ho k p Hp ->. destruct (Hh tmp Ho) as [Ht _]. by apply (temp_not_path s key k tmp tmp). }
  assert (∀ pc1, (∀ tmp, owns pc1 = Some tmp → owns pc = Some tmp) → (complete pc1 = true → complete pc = true) → pc1 ≠ Returned None → fs' = fs → pc' = pc1 →
    holds s key data fs' pc' ∧ (∀ tmp, owns pc' = Some tmp → owns pc = Some tmp ∨ fs !! tmp = None) ∧
    (∀ q, (∀ k p, path s k = Ok p → q ≠ p) → owns pc ≠ Some q → is_Some (fs !! q) → fs' !! q = fs !! q) ∧
    (∀ k p, path s k = Ok p → fs' !! p = if decide (pc' = Returned None ∧ k = key) then Some data else fs !! p)) as Hsame.
  { intros pc1 Ho Hc Hr -> ->. split_and!; [|by left; apply Ho|done|intros k p _; by rewrite decide_False by (intros [? _]; done)].
    intros tmp Htmp. destruct (Hh tmp) as (? & ? & ?); [by apply Ho|]. split_and!; [done|done|auto]. }
  inversion Hstep; subst; (split; [done|]); try (by refine (Hsame _ _ _ _ eq_refl eq_refl)); clear Hsame.
  - (* the new temporary file *)
    assert (∀ k p, path s k = Ok p → p ≠ tmp) as Hnew by (intros k p Hp ->; by apply (temp_not_path s key k tmp tmp)).
    split_and!.
    + intros x [= <-]. split; [done|]. rewrite lookup_insert_eq. by split.
    + intros x [= <-]. by right.
    + intros q Hq _ Hs. apply lookup_insert_ne. intros ->. destruct Hs. congruence.
    + intros k p Hp. rewrite decide_False by (by intros [? _]). apply lookup_insert_ne. intros ->. by apply (Hnew k p).
  - (* some of the data *)
    destruct (Hh tmp eq_refl) as (Ht & _ & _). split_and!.
    + intros x [= <-]. split; [done|]. rewrite lookup_insert_eq. by split.
    + intros x [= <-]. by left.
    + intros q _ Hq _. apply lookup_insert_ne. cbn in Hq. congruence.
    + intros k p Hp. rewrite decide_False by (by intros [? _]). apply lookup_insert_ne. intros ->. by apply (Hne p eq_refl k p).
  - (* all of the data *)
    destruct (Hh tmp eq_refl) as (Ht & _ & _). split_and!.
    + intros x [= <-]. split; [done|]. rewrite lookup_insert_eq. by split.
    + intros x [= <-]. by left.
    + intros q _ Hq _. apply lookup_insert_ne. cbn in Hq. congruence.
    + intros k p Hp. rewrite decide_False by (by intros [? _]). apply lookup_insert_ne. intros ->. by apply (Hne p eq_refl k p).
  - (* the removal *)
    split_and!; [done|done|intros q _ Hq _; apply lookup_delete_ne; cbn in Hq; congruence|].
    intros k p Hp. rewrite decide_False by (by intros [? _]). apply lookup_delete_ne. intros ->. by apply (Hne p eq_refl k p).
  - (* the rename *)
    destruct (Hh tmp eq_refl) as (Ht & _ & Hc). assert (c = data) as -> by (specialize (Hc eq_refl); congruence). split_and!; [done|done|..].
    + intros q Hq Ho _. rewrite lookup_insert_ne by (intros ->; by apply (Hq key q)). apply lookup_delete_ne. cbn in Ho. congruence.
    + intros k p Hp. case_decide as Hd.
      * destruct Hd as [_ ->]. assert (p = dest) as -> by congruence. apply lookup_insert_eq.
      * rewrite lookup_insert_ne; [|intros ->; apply Hd; split; [done|by apply (path_inj s k key p)]]. apply lookup_delete_ne. intros ->. by apply (Hne p eq_refl k p).
Qed.

Section System.
Context (s : ShardedStore) (fs0 : files).

Record inv (fs : files) (ts : list putter) : Prop := {
  in_holds i t : ts !! i = Some t → holds s (pt_key t) (pt_data t) fs (pt_pc t);
  in_apart i j t u tmp : ts !! i = Some t → ts !! j = Some u → owns (pt_pc t) = Some tmp → owns (pt_pc u) = Some tmp → i = j;
  in_file key p : path s key = Ok p →
    (fs !! p = fs0 !! p ∧ ∀ data, ¬ succeeded ts key data) ∨ (∃ data, fs !! p = Some data ∧ succeeded ts key data) }.

Lemma inv_started jobs : inv fs0 (started jobs).
Proof.
  assert (∀ i t, started jobs !! i = Some t → pt_pc t = AtPath) as Hm.
  { intros i t. unfold started. rewrite list_lookup_fmap. destruct (jobs !! i); [|done]. by intros [= <-]. }
  split.
  - intros i t Ht tmp. by rewrite (Hm i t Ht).
  - intros i j t u tmp Ht _. by rewrite (Hm i t Ht).
  - intros key p Hp. left. split; [done|]. intros data [i Hi]%list_elem_of_lookup. by apply Hm in Hi.
Qed.
Lemma succeeded_insert ts i t pc key data : ts !! i = Some t → (∀ e, pt_pc t ≠ Returned e) →
  succeeded (<[i := {| pt_key := pt_key t; pt_data := pt_data t; pt_pc := pc |}]> ts) key data ↔ succeeded ts key data ∨ (pc = Returned None ∧ key = pt_key t ∧ data = pt_data t).
Proof.
  intros Hi Hr. unfold succeeded. rewrite !list_elem_of_lookup. pose proof (lookup_lt_Some _ _ _ Hi). split.
  - intros (j & Hj). destruct (decide (i = j)) as [<-|Hne].
    + rewrite list_lookup_insert_eq in Hj by done. injection Hj as -> -> ->. by right.
    + rewrite list_lookup_insert_ne in Hj by done. left. by exists j.
  - intros [(j & Hj)|(-> & -> & ->)].
    + exists j. rewrite list_lookup_insert_ne; [done|]. intros <-. rewrite Hi in Hj. injection Hj as ->. by destruct (Hr None).
    + exists i. by rewrite list_lookup_insert_eq.
Qed.
Lemma system_step_inv fs ts fs' ts' : inv fs ts → system_step s (fs, ts) (fs', ts') → inv fs' ts'.
Proof.
  intros [Hh Ha Hf] Hstep. inversion Hstep as [? ? ? i t pc Hi Hp]; subst. destruct (put_step_frame _ _ _ _ _ _ _ Hp (Hh i t Hi)) as (Hr & Hh' & Ho & Hframe & Hpath).
  pose proof (lookup_lt_Some _ _ _ Hi) as Hlt.
  assert (∀ j u tmp, ts !! j = Some u → j ≠ i → owns (pt_pc u) = Some tmp → fs' !! tmp = fs !! tmp ∧ owns pc ≠ Some tmp) as Hother.
  { intros j u tmp Hj Hji Hu. destruct (Hh j u Hj tmp Hu) as (Ht & Hs & _). assert (owns (pt_pc t) ≠ Some tmp) as Hn by (intros Hn; by apply Hji, (Ha j i u t tmp)).
    split; [apply Hframe; [|done|done]; intros k p Hk ->; by apply (temp_not_path s (pt_key u) k p p)|]. intros Hpc. destruct (Ho tmp Hpc) as [?|Hnone]; [done|]. destruct Hs. congruence. }
  split.
  - intros j u Hj. destruct (decide (i = j)) as [<-|Hne]; [rewrite list_lookup_insert_eq in Hj by done; by injection Hj as <-|]. rewrite list_lookup_insert_ne in Hj by done.
    intros tmp Hu. destruct (Hother j u tmp Hj ltac:(done) Hu) as [-> _]. by apply Hh with j.
  - intros j k u v tmp Hj Hk Hu Hv. destruct (decide (i = j)) as [<-|Hj'], (decide (i = k)) as [<-|Hk']; [done|..].
    + rewrite list_lookup_insert_eq in Hj by done. rewrite list_lookup_insert_ne in Hk by done. injection Hj as <-. by destruct (Hother k v tmp Hk ltac:(done) Hv) as [_ []].
    + rewrite list_lookup_insert_ne in Hj by done. rewrite list_lookup_insert_eq in Hk by done. injection Hk as <-. by destruct (Hother j u tmp Hj ltac:(done) Hu) as [_ []].
    + rewrite list_lookup_insert_ne in Hj, Hk by done. by apply (Ha j k u v tmp).
  - intros key p Hk. specialize (Hpath key p Hk). setoid_rewrite (succeeded_insert ts i t pc key _ Hi Hr). case_decide as Hd.
    + destruct Hd as [-> ->]. right. exists (pt_data t). split; [done|]. by right.
    + rewrite Hpath. destruct (Hf key p Hk) as [[? Hno]|(data & ? & ?)]; [left|right; exists data; split; [done|by left]].
      split; [done|]. intros data [?|(? & ? & _)]; [by apply (Hno data)|]. by apply Hd.
Qed.
Lemma reachable_inv jobs st : rtc (system_step s) (fs0, started jobs) st → inv st.1 st.2.
Proof.
  intros Hr. remember (fs0, started jobs) as st0 eqn:E. assert (inv st0.1 st0.2) as H0 by (subst; apply inv_started). clear E.
  induction Hr as [|[fs ts] [fs' ts'] st Hstep _ IH]; [done|]. apply IH. by eapply system_step_inv.
Qed.
End System.

Lemma jobs_kept s fs0 jobs st : rtc (system_step s) (fs0, started jobs) st → ((λ t, (pt_key t, pt_data t)) <$> st.2) = jobs.
Proof.
  intros Hr. remember (fs0, started jobs) as st0 eqn:E. assert (((λ t, (pt_key t, pt_data t)) <$> st0.2) = jobs) as H0.
  { subst. cbn. unfold started. rewrite <-list_fmap_compose. rewrite <-(list_fmap_id jobs) at 2. apply list_fmap_ext. by intros i [k d] _. }
  clear E. induction Hr as [|st1 st2 st Hstep _ IH]; [done|]. apply IH. destruct Hstep as [fs fs' ts i t pc Hi _]. cbn [snd] in *. rewrite list_fmap_insert. cbn.
  rewrite list_insert_id; [done|]. by rewrite list_lookup_fmap, Hi.
Qed.
End ShardedFacts.

(** ** Properties *)

Import ShardedFacts.

(** C13: whatever puts run at the same time, wherever each of them is and whichever
    calls of the operating system fail, the file of a key holds what it held
    before, as long as no put of the key has succeeded, and from then on the
    complete data of one of the puts of the key that succeeded. *)
Theorem cache_puts_atomic s fs0 jobs fs ts key : rtc (system_step s) (fs0, started jobs) (fs, ts) → key ≠ [] →
  (Sharded.Get (λ _, None) s fs key = Sharded.Get (λ _, None) s fs0 key ∧ ∀ data, ¬ succeeded ts key data) ∨
  (∃ data, (key, data) ∈ jobs ∧ succeeded ts key data ∧ Sharded.Get (λ _, None) s fs key = Ok (Some data)).
Proof.
  intros Hr Hk. pose proof (reachable_inv s fs0 jobs (fs, ts) Hr) as [_ _ Hf]. pose proof (jobs_kept s fs0 jobs (fs, ts) Hr) as Hj. cbn [fst snd] in *. unfold Sharded.Get.
  destruct (path s key) as [p| |] eqn:E; cbn [mbind outcome_bind].
  - destruct (Hf key p E) as [[-> Hno]|(data & -> & Hs)]; [by left|]. right. exists data. split; [|done]. rewrite <-Hj. by apply (list_elem_of_fmap_2 (λ t, (pt_key t, pt_data t)) ts _ Hs).
  - unfold path in E. by case_match.
  - exfalso. unfold path in E. destruct (Z.ltb_spec (strlen (hex_bytes key)) 2) as [Hl|]; [|done]. destruct key as [|b key]; [done|].
    change (hex_bytes (b :: key)) with (hex2 (b2z b) +:+ hex_bytes key) in Hl. rewrite strlen_app in Hl. change (strlen (hex2 (b2z b))) with 2 in Hl. unfold strlen in Hl. lia.
Qed.

Definition demo_store : ShardedStore := {| ss_root := "/c/v1/detect" |}.
Definition demo_key : list byte := bytes_of_string "key".
Definition demo_data : list byte := bytes_of_string "data".
Definition demo_path : string := "/c/v1/detect/6b/6579".
Definition demo_tmp : string := "/c/v1/detect/6b/.tmp-1".
Definition demo_at (pc : put_pc) : list putter := [{| pt_key := demo_key; pt_data := demo_data; pt_pc := pc |}].
Lemma demo_step fs fs' pc pc' : put_step demo_store demo_key demo_data (fs, pc) (fs', pc') → system_step demo_store (fs, demo_at pc) (fs', demo_at pc').
Proof. intros Hp. exact (some_step demo_store fs fs' (demo_at pc) 0 {| pt_key := demo_key; pt_data := demo_data; pt_pc := pc |} pc' eq_refl Hp). Qed.
(** One put, up to the write of half of its data. *)
Lemma cache_puts_atomic_witness : Sharded.Get (λ _, None) demo_store (<[demo_tmp := take 2 demo_data]> (<[demo_tmp := []]> ∅)) demo_key = Ok None.
Proof.
  destruct (cache_puts_atomic demo_store ∅ [(demo_key, demo_data)] (<[demo_tmp := take 2 demo_data]> (<[demo_tmp := []]> ∅)) (demo_at (AtWrite demo_tmp)) demo_key) as [[-> _]|(data & _ & Hs & _)].
  - change (started [(demo_key, demo_data)]) with (demo_at AtPath). eapply rtc_l; [apply demo_step, (path_ok _ _ _ ∅ demo_path); by vm_compute|]. eapply rtc_l; [apply demo_step, mkdir_ok|].
    eapply rtc_l; [apply demo_step, (temp_ok _ _ _ ∅ demo_tmp); [by exists "1"|done]|].
    apply rtc_once, demo_step, write_part.
  - done.
  - by vm_compute.
  - apply list_elem_of_singleton in Hs. discriminate Hs.
Defined.
