(* ===== verification/CacheTTL.v ===== *)
(** * The expiring cache

    [src/internal/cache/ttl.go]: blobs that carry the time they expire, in a
    store below.  The store below is an interface, [BlobStore], which the sharded
    file store of [CacheStore] implements. *)

From S2P Require Import Prelude Arrays GoStrings GoRuntime GoPath GoText CacheStore.

(** ** Stores of blobs *)

(** What the expiring store needs of the store below it. *)
Class BlobStore (S : Type) := {
  blob_get : S → list byte → outcome (option (list byte));
  blob_put : S → list byte → list byte → outcome S }.
Class BlobStoreOk (S : Type) `{BlobStore S} : Prop := {
  blob_put_get (st st' : S) key data : blob_put st key data = Ok st' → blob_get st' key = Ok (Some data);
  blob_put_other (st st' : S) key key' data : blob_put st key data = Ok st' → key' ≠ key → blob_get st' key' = blob_get st key' }.

(** The files of a sharded store that can be read. *)
Import ShardedFacts.
Definition sharded_blobs (s : ShardedStore) : BlobStore files := {| blob_get := Get (λ _, None) s; blob_put := put_effect s |}.
Lemma sharded_blobs_ok s : BlobStoreOk files (H := sharded_blobs s).
Proof.
  split; intros st st' key; cbn; unfold put_effect, Get.
  - intros data. destruct (path s key) as [p| |] eqn:E; [|done..]. intros [= <-]. cbn. by rewrite lookup_insert_eq.
  - intros key' data. destruct (path s key) as [p| |] eqn:E; [|done..]. intros [= <-] Hne. destruct (path s key') as [p'| |] eqn:E'; [|done..]. cbn.
    rewrite lookup_insert_ne; [done|]. intros ->. by apply Hne, (path_inj s key' key p').
Qed.

(** ** Expiry *)

Module TTL.
Section Store.
Context {S : Type} `{BlobStore S}.

(** The backing store, and the asynchronous writer if there is one. *)
Record TTLStore := { ts_store : option S; ts_writer : option (S → list byte → list byte → S) }.

Definition Get (t : option TTLStore) (now : time) (key : list byte) : outcome (option (list byte)) :=
  match t ≫= ts_store with
  | None => Ok None
  | Some store =>
    match blob_get store key with
    | Panic => Panic
    | Err _ | Ok None => Ok None
    | Ok (Some blob) =>
      if len blob <? 8 then Ok None else
      b ← slice blob 0 8;
      raw ← be_u64 b;
      if 2 ^ 63 - 1 <? raw then Ok None else
      let expiresAt : time := raw in
      if negb (Before now expiresAt) then Ok None else
      payload ← slice_from blob 8;
      Ok (Some payload)
    end
  end.
Definition with_store (t : TTLStore) (s : S) : TTLStore := {| ts_store := Some s; ts_writer := ts_writer t |}.
Definition Put (t : option TTLStore) (now : time) (key payload : list byte) (ttl : Z) : outcome TTLStore :=
  match t with
  | Some ({| ts_store := Some store |} as t) =>
    let expiresAt := i64 (Add_ now ttl) in
    if expiresAt <? 0 then Err (Errorf "ttl store: ttl yields negative unix-nano expiry") else
    if 2 ^ 63 - 1 - 8 <? len payload then Err (Errorf "ttl store: payload too large") else
    let blob := be_bytes 8 expiresAt ++ payload in
    match ts_writer t with
    | Some write => Ok (with_store t (write store key blob))
    | None => store ← blob_put store key blob; Ok (with_store t store)
    end
  | _ => Err (Errorf "ttl store: nil backing store")
  end.
End Store.
Arguments TTLStore S : clear implicits.
End TTL.

Module TTLFacts.
Export TTL.
Section Facts.
Context {S : Type} `{HB : BlobStore S} `{!BlobStoreOk S}.

Lemma Get_blob (t : TTLStore S) st now key expires payload : ts_store t = Some st → 0 <= expires < 2 ^ 63 →
  blob_get st key = Ok (Some (be_bytes 8 expires ++ payload)) → Get (Some t) now key = Ok (if now <? expires then Some payload else None).
Proof.
  intros Ht He Hb. unfold Get. cbn [mbind option_bind]. rewrite Ht, Hb. rewrite len_app, len_be_bytes. change (Z.of_nat 8) with 8. len_facts. rewrite (proj2 (Z.ltb_ge _ _)) by lia.
  rewrite slice_head by (by rewrite len_be_bytes). cbn [mbind outcome_bind]. rewrite be_uint_be_bytes by lia. cbn [mbind outcome_bind].
  rewrite (proj2 (Z.ltb_ge (2 ^ 63 - 1) expires)) by lia. unfold Before. destruct (now <? expires); cbn [negb]; [|done].
  unfold slice_from. rewrite slice_skip by (rewrite len_be_bytes; lia). rewrite len_app, len_be_bytes. change (Z.of_nat 8) with 8. by rewrite slice_all' by lia.
Qed.
Lemma Put_Get (t t' : TTLStore S) now key payload ttl : ts_writer t = None → Put (Some t) now key payload ttl = Ok t' → 0 <= now + ttl < 2 ^ 63 →
  (∀ now', Get (Some t') now' key = Ok (if now' <? now + ttl then Some payload else None)) ∧ (∀ now' key', key' ≠ key → Get (Some t') now' key' = Get (Some t) now' key').
Proof.
  intros Hw Hput Hr. unfold Put, Add_ in Hput. destruct t as [[st|] w]; [|done]. cbn [ts_writer ts_store] in *. subst w. rewrite i64_small in Hput by lia.
  destruct (_ <? 0); [done|]. destruct (_ <? len payload); [done|]. destruct (blob_put st key _) as [st'| |] eqn:E; cbn [mbind outcome_bind] in Hput; [|done..].
  injection Hput as <-. split.
  - intros now'. eapply Get_blob; [done|done|]. by eapply blob_put_get.
  - intros now' key' Hne. unfold Get. cbn. by rewrite (blob_put_other _ _ _ _ _ E Hne).
Qed.
End Facts.
End TTLFacts.

(** ** Properties *)

Import TTLFacts.

(** A payload stored with a time to live is returned unchanged until exactly the
    moment it expires and not from then on, and no other key is affected; an
    expiry before 1970 or after the last nanosecond of an int64 is refused. *)
Theorem ttl_roundtrip (S : Type) (HB : BlobStore S) (HO : BlobStoreOk S) t st now key payload ttl : ts_store t = Some st → ts_writer t = None →
  (- 2 ^ 63 <= now + ttl < 0 ∨ 2 ^ 63 <= now + ttl < 2 ^ 64 → Put (Some t) now key payload ttl = Err (Errorf "ttl store: ttl yields negative unix-nano expiry")) ∧
  (0 <= now + ttl < 2 ^ 63 → len payload <= 2 ^ 63 - 9 → ∀ st', blob_put st key (be_bytes 8 (now + ttl) ++ payload) = Ok st' →
   ∃ t', Put (Some t) now key payload ttl = Ok t' ∧ ts_store t' = Some st' ∧
     (∀ now', Get (Some t') now' key = Ok (if now' <? now + ttl then Some payload else None)) ∧
     (∀ now' key', key' ≠ key → Get (Some t') now' key' = Get (Some t) now' key')).
Proof.
  intros Ht Hw. destruct t as [o w]. cbn in Ht, Hw. subst o w. split.
  - intros Hr. unfold Put, Add_. assert (i64 (now + ttl) < 0) as Hneg.
    { destruct Hr; [rewrite i64_small; lia|]. unfold i64. replace (now + ttl + 2 ^ 63) with (now + ttl - 2 ^ 63 + 1 * 2 ^ 64) by lia. rewrite Z.mod_add, Z.mod_small by lia. lia. }
    by rewrite (proj2 (Z.ltb_lt _ _)).
  - intros Hr Hp st' Hput. assert (Put (Some {| ts_store := Some st; ts_writer := None |}) now key payload ttl = Ok {| ts_store := Some st'; ts_writer := None |}) as Hok.
    { unfold Put, Add_. rewrite i64_small by lia. rewrite (proj2 (Z.ltb_ge (now + ttl) 0)), (proj2 (Z.ltb_ge (2 ^ 63 - 1 - 8) _)) by lia. cbn [ts_writer]. by rewrite Hput. }
    eexists. split; [done|]. split; [done|]. by apply (Put_Get {| ts_store := Some st; ts_writer := None |}).
Qed.

Lemma ttl_roundtrip_witness : ∃ t', Put (H := sharded_blobs demo_store) (Some {| ts_store := Some ∅; ts_writer := None |}) 1000 demo_key demo_data 500 = Ok t' ∧
  Get (H := sharded_blobs demo_store) (Some t') 1499 demo_key = Ok (Some demo_data) ∧ Get (H := sharded_blobs demo_store) (Some t') 1500 demo_key = Ok None.
Proof.
  destruct (ttl_roundtrip files (sharded_blobs demo_store) (sharded_blobs_ok demo_store) {| ts_store := Some ∅; ts_writer := None |} ∅ 1000 demo_key demo_data 500) as [_ Hok]; [done|done|].
  destruct (Hok ltac:(lia) ltac:(by vm_compute) _ eq_refl) as (t' & Hp & _ & Hg & _). exists t'. split; [done|]. split; [by rewrite Hg|by rewrite Hg].
Defined.
