(* ===== verification/CacheWriter.v ===== *)
(** * The asynchronous writer of the cache

    [src/internal/cache/async_writer.go]: writers, workers and closers that share
    a bounded queue, as goroutines whose steps interleave in any order.  A [Put]
    of the store is one step, which [CacheStore] justifies; whether it fails is
    part of the schedule.  The calls and the jobs put so far are kept in the
    state so that theorems can speak of them. *)

From S2P Require Import Prelude Arrays.

Module Writer.

Record writeJob := { key : list byte; data : list byte }.
#[export] Instance writeJob_eq_dec : EqDecision writeJob.
Proof. solve_decision. Defined.

(** Where a worker is: waiting for a job, putting one, counting one, or returned. *)
Inductive worker := Waiting | Putting (j : writeJob) | Counting (j : writeJob) (ok : bool) | Exited.
(** Where a call of [Write] is. *)
Inductive write_pc :=
| WClosed            (* before the test of closed *)
| WSelect            (* before the select *)
| WPutClosed         (* before the put of a closed writer *)
| WPut               (* before a synchronous put *)
| WCount (ok : bool) (* before the counters of a synchronous put *)
| WQueued            (* before the counter of a queued job *)
| WReturned (wroteSync : bool)
| WPanic.            (* the send panicked *)
(** Where a call of [Close] is. *)
Inductive close_pc := CSwap | CClose | CWait | CReturned.
Inductive call := Write (j : writeJob) (pc : write_pc) | Close (pc : close_pc).

(** [puts] is the history of the calls of [Put] on the store, the failed ones
    included; it is not a field of the code. *)
Record AsyncWriter := {
  store : gmap (list byte) (list byte);
  queue : list writeJob;
  queueClosed : bool;
  closed : bool;
  workers : list worker;
  Queued : Z; Completed : Z; Failed : Z; Bytes : Z;
  calls : list call;
  puts : list writeJob }.

Definition NewAsyncWriter (blobs : gmap (list byte) (list byte)) (n : nat) (cs : list call) : AsyncWriter :=
  {| store := blobs; queue := []; queueClosed := false; closed := false; workers := replicate n Waiting;
     Queued := 0; Completed := 0; Failed := 0; Bytes := 0; calls := cs; puts := [] |}.

(** *** Updates of the shared state *)
Definition with_queue (w : AsyncWriter) (q : list writeJob) : AsyncWriter :=
  {| store := store w; queue := q; queueClosed := queueClosed w; closed := closed w; workers := workers w;
     Queued := Queued w; Completed := Completed w; Failed := Failed w; Bytes := Bytes w; calls := calls w; puts := puts w |}.
Definition with_closed (w : AsyncWriter) (qc c : bool) : AsyncWriter :=
  {| store := store w; queue := queue w; queueClosed := qc; closed := c; workers := workers w;
     Queued := Queued w; Completed := Completed w; Failed := Failed w; Bytes := Bytes w; calls := calls w; puts := puts w |}.
Definition with_workers (w : AsyncWriter) (ws : list worker) : AsyncWriter :=
  {| store := store w; queue := queue w; queueClosed := queueClosed w; closed := closed w; workers := ws;
     Queued := Queued w; Completed := Completed w; Failed := Failed w; Bytes := Bytes w; calls := calls w; puts := puts w |}.
Definition with_calls (w : AsyncWriter) (cs : list call) : AsyncWriter :=
  {| store := store w; queue := queue w; queueClosed := queueClosed w; closed := closed w; workers := workers w;
     Queued := Queued w; Completed := Completed w; Failed := Failed w; Bytes := Bytes w; calls := cs; puts := puts w |}.
(** [store.Put(job.key, job.data)] *)
Definition put (w : AsyncWriter) (j : writeJob) (ok : bool) : AsyncWriter :=
  {| store := if ok then <[key j := data j]> (store w) else store w; queue := queue w; queueClosed := queueClosed w; closed := closed w; workers := workers w;
     Queued := Queued w; Completed := Completed w; Failed := Failed w; Bytes := Bytes w; calls := calls w; puts := puts w ++ [j] |}.
Definition count (w : AsyncWriter) (j : writeJob) (ok : bool) : AsyncWriter :=
  {| store := store w; queue := queue w; queueClosed := queueClosed w; closed := closed w; workers := workers w; Queued := Queued w;
     Completed := if ok then i64 (Completed w + 1) else Completed w; Failed := if ok then Failed w else i64 (Failed w + 1);
     Bytes := if ok then i64 (Bytes w + len (data j)) else Bytes w; calls := calls w; puts := puts w |}.
Definition count_queued (w : AsyncWriter) : AsyncWriter :=
  {| store := store w; queue := queue w; queueClosed := queueClosed w; closed := closed w; workers := workers w;
     Queued := i64 (Queued w + 1); Completed := Completed w; Failed := Failed w; Bytes := Bytes w; calls := calls w; puts := puts w |}.

(** *** Steps.  [ok] is the result of the put, if the step is one. *)

Definition workerStep (ok : bool) (w : AsyncWriter) (k : worker) : option (AsyncWriter * worker) :=
  match k with
  | Waiting =>
    match queue w with
    | j :: q => Some (with_queue w q, Putting j)
    | [] => if queueClosed w then Some (w, Exited) else None
    end
  | Putting j => Some (put w j ok, Counting j ok)
  | Counting j ok => Some (count w j ok, Waiting)
  | Exited => None
  end.
Definition writeStep (cap : Z) (ok : bool) (w : AsyncWriter) (j : writeJob) (pc : write_pc) : option (AsyncWriter * write_pc) :=
  match pc with
  | WClosed => Some (w, if closed w then WPutClosed else if cap =? 0 then WPut else WSelect)
  | WPutClosed => Some (put w j ok, WReturned true)
  | WSelect =>
    if queueClosed w then Some (w, WPanic)
    else if len (queue w) <? cap then Some (with_queue w (queue w ++ [j]), WQueued)
    else Some (w, WPut)
  | WPut => Some (put w j ok, WCount ok)
  | WCount ok => Some (count w j ok, WReturned true)
  | WQueued => Some (count_queued w, WReturned false)
  | WReturned _ | WPanic => None
  end.
Definition exited (k : worker) : bool := match k with Exited => true | _ => false end.
Definition closeStep (w : AsyncWriter) (pc : close_pc) : option (AsyncWriter * close_pc) :=
  match pc with
  | CSwap => Some (with_closed w (queueClosed w) true, if closed w then CWait else CClose)
  | CClose => Some (with_closed w true (closed w), CWait)
  | CWait => if forallb exited (workers w) then Some (w, CReturned) else None
  | CReturned => None
  end.

(** One goroutine takes a step. *)
Inductive event := Worker (i : nat) (ok : bool) | Call (i : nat) (ok : bool).
Definition step (cap : Z) (w : AsyncWriter) (e : event) : option AsyncWriter :=
  match e with
  | Worker i ok =>
    k ← workers w !! i;
    '(w, k) ← workerStep ok w k;
    Some (with_workers w (<[i := k]> (workers w)))
  | Call i ok =>
    c ← calls w !! i;
    match c with
    | Write j pc => '(w, pc) ← writeStep cap ok w j pc; Some (with_calls w (<[i := Write j pc]> (calls w)))
    | Close pc => '(w, pc) ← closeStep w pc; Some (with_calls w (<[i := Close pc]> (calls w)))
    end
  end.
Fixpoint run (cap : Z) (w : AsyncWriter) (es : list event) : option AsyncWriter :=
  match es with [] => Some w | e :: es => w ← step cap w e; run cap w es end.
End Writer.

Module WriterFacts.
Export Writer.

(** ** Sums over lists *)

Fixpoint total {A} (f : A → Z) (l : list A) : Z := match l with [] => 0 | x :: l => f x + total f l end.
Lemma total_app {A} (f : A → Z) l k : total f (l ++ k) = total f l + total f k.
Proof. induction l as [|x l IH]; cbn; lia. Qed.
Lemma total_insert {A} (f : A → Z) l i x y : l !! i = Some x → total f (<[i := y]> l) = total f l - f x + f y.
Proof. revert i. induction l as [|z l IH]; intros [|i]; cbn; [done|done|intros [= ->]; lia|]. intros Hi. rewrite IH by done. lia. Qed.
Lemma total_zero {A} (f : A → Z) l : (∀ x, x ∈ l → f x = 0) → total f l = 0.
Proof. induction l as [|x l IH]; intros Hz; [done|]. cbn. rewrite Hz, IH; [done|set_solver|set_solver]. Qed.

(** ** Where a job is *)

Definition is_job (j x : writeJob) : Z := if decide (x = j) then 1 else 0.
(** A call that has queued its job or put it itself. *)
Definition accepted (j : writeJob) (c : call) : Z :=
  match c with Write x (WCount _ | WQueued | WReturned _) => is_job j x | _ => 0 end.
Definition returned (c : call) : bool := match c with Write _ (WReturned _) | Close CReturned => true | _ => false end.
(** A job that a worker has taken from the queue and not yet put. *)
Definition holding (j : writeJob) (k : worker) : Z := match k with Putting x => is_job j x | _ => 0 end.
Definition queued_call (c : call) : Z := match c with Write _ (WReturned false) => 1 | _ => 0 end.
Definition starting (c : call) : Prop := match c with Write _ WClosed | Close CSwap => True | _ => False end.

Record inv (w : AsyncWriter) : Prop := {
  iv_jobs j : total (accepted j) (calls w) = total (is_job j) (puts w) + total (is_job j) (queue w) + total (holding j) (workers w);
  iv_queued : Queued w = i64 (total queued_call (calls w));
  iv_exited : Exited ∈ workers w → queueClosed w = true ∧ queue w = [];
  iv_done : Close CReturned ∈ calls w → Forall (λ k, k = Exited) (workers w) }.

Lemma elem_of_insert_inv {A} (l : list A) i x y : y ∈ <[i := x]> l → y = x ∨ y ∈ l.
Proof.
  intros [j Hj]%list_elem_of_lookup. destruct (decide (i = j)) as [<-|Hne].
  - destruct (decide (i < length l)%nat); [rewrite list_lookup_insert_eq in Hj by done; left; congruence|].
    rewrite list_insert_ge in Hj by lia. right. by eapply list_elem_of_lookup_2.
  - rewrite list_lookup_insert_ne in Hj by done. right. by eapply list_elem_of_lookup_2.
Qed.

Lemma inv_new blobs n cs : Forall starting cs → inv (NewAsyncWriter blobs n cs).
Proof.
  intros Hs. rewrite Forall_forall in Hs. split; cbn.
  - intros j. rewrite !total_zero; [done|by intros k [-> _]%elem_of_replicate|]. intros c Hc. specialize (Hs c Hc). by destruct c as [x []|].
  - rewrite total_zero; [done|]. intros c Hc. specialize (Hs c Hc). by destruct c as [x []|].
  - by intros [? _]%elem_of_replicate.
  - intros Hc. by specialize (Hs _ Hc).
Qed.
(** The sums after one call or worker has changed. *)
Ltac recount Hi Hj := intros ?; rewrite (total_insert _ _ _ _ _ Hi), Hj, ?total_app; cbn; lia.
Lemma worker_inv cap w i ok w' : inv w → step cap w (Worker i ok) = Some w' → inv w'.
Proof.
  intros [Hj Hq He Hd] Hs. cbn [step mbind option_bind] in Hs. destruct (workers w !! i) as [k|] eqn:Hi; [|done]. cbn in Hs.
  assert (k ≠ Exited → Close CReturned ∈ calls w → False) as Hn.
  { intros Hk Hr. apply Hk. pose proof (Forall_lookup_1 _ _ _ _ (Hd Hr) Hi) as Hx. done. }
  assert (∀ k', Exited ∈ <[i := k']> (workers w) → k' = Exited ∨ (queueClosed w = true ∧ queue w = [])) as Hx.
  { intros k' [->|?]%elem_of_insert_inv; [by left|right; by apply He]. }
  destruct k as [|j|j b|]; cbn in Hs; [|injection Hs as <-..|done].
  - destruct (queue w) as [|j q] eqn:Eq; [destruct (queueClosed w) eqn:Ec; [|done]|]; injection Hs as <-; split; cbn; rewrite ?Eq.
    + recount Hi Hj.
    + done.
    + done.
    + by intros ?%Hn.
    + recount Hi Hj.
    + done.
    + by intros [?|[_ ?]]%Hx.
    + by intros ?%Hn.
  - split; cbn; [recount Hi Hj|done|by intros [?|?]%Hx|by intros ?%Hn].
  - split; cbn; [recount Hi Hj|done|by intros [?|?]%Hx|by intros ?%Hn].
Qed.
Lemma write_inv cap w i ok j pc w' : inv w → calls w !! i = Some (Write j pc) → step cap w (Call i ok) = Some w' → inv w'.
Proof.
  intros [Hj Hq He Hd] Hi Hs. cbn [step mbind option_bind] in Hs. rewrite Hi in Hs. cbn in Hs.
  assert (∀ pc', Close CReturned ∈ <[i := Write j pc']> (calls w) → Forall (λ k, k = Exited) (workers w)) as Hr by (by intros pc' [?|?]%elem_of_insert_inv; [|apply Hd]).
  assert (∀ pc', total queued_call (<[i := Write j pc']> (calls w)) = total queued_call (calls w) - queued_call (Write j pc) + queued_call (Write j pc')) as Ht.
  { intros pc'. by rewrite (total_insert _ _ _ _ _ Hi). }
  destruct pc; cbn in Hs; try done; cbn [queued_call] in Ht.
  - injection Hs as <-. split; cbn; [|rewrite Ht|done|apply Hr]; destruct (closed w), (cap =? 0); try (recount Hi Hj); cbn; by rewrite Hq, Z.sub_0_r, Z.add_0_r.
  - destruct (queueClosed w) eqn:Ec; [|destruct (_ <? cap)]; injection Hs as <-; (split; cbn; [recount Hi Hj|rewrite Ht; cbn; by rewrite Hq, Z.sub_0_r, Z.add_0_r| |apply Hr]); [by rewrite Ec|..].
    + intros Hx. apply He in Hx as [? _]. congruence.
    + by rewrite Ec.
  - injection Hs as <-. split; cbn; [recount Hi Hj|rewrite Ht; cbn; by rewrite Hq, Z.sub_0_r, Z.add_0_r|done|apply Hr].
  - injection Hs as <-. split; cbn; [recount Hi Hj|rewrite Ht; cbn; by rewrite Hq, Z.sub_0_r, Z.add_0_r|done|apply Hr].
  - injection Hs as <-. split; cbn; [recount Hi Hj|rewrite Ht; cbn; by rewrite Hq, Z.sub_0_r, Z.add_0_r|done|apply Hr].
  - injection Hs as <-. split; cbn; [recount Hi Hj|rewrite Ht, Hq, i64_add; cbn; by rewrite Z.sub_0_r|done|apply Hr].
Qed.
Lemma close_inv cap w i ok pc w' : inv w → calls w !! i = Some (Close pc) → step cap w (Call i ok) = Some w' → inv w'.
Proof.
  intros [Hj Hq He Hd] Hi Hs. cbn [step mbind option_bind] in Hs. rewrite Hi in Hs. cbn in Hs.
  assert (∀ pc', pc' ≠ CReturned → Close CReturned ∈ <[i := Close pc']> (calls w) → Forall (λ k, k = Exited) (workers w)) as Hr.
  { intros pc' Hne [?|?]%elem_of_insert_inv; [congruence|by apply Hd]. }
  assert (∀ pc', total queued_call (<[i := Close pc']> (calls w)) = total queued_call (calls w)) as Ht.
  { intros pc'. rewrite (total_insert _ _ _ _ _ Hi). cbn. lia. }
  destruct pc; cbn in Hs; try done.
  - injection Hs as <-. split; cbn; [recount Hi Hj|by rewrite Ht|done|apply Hr; by destruct (closed w)].
  - injection Hs as <-. split; cbn; [recount Hi Hj|by rewrite Ht| |by apply Hr]. intros Hx. by apply He in Hx as [_ ?].
  - destruct (forallb exited (workers w)) eqn:Ef; [|done]. injection Hs as <-. split; cbn; [recount Hi Hj|by rewrite Ht|done|].
    intros _. rewrite forallb_forall in Ef. apply Forall_forall. intros k Hk. specialize (Ef k (proj1 (list_elem_of_In _ _) Hk)). by destruct k.
Qed.
Lemma run_inv cap w es w' : inv w → run cap w es = Some w' → inv w'.
Proof.
  revert w. induction es as [|e es IH]; intros w Hw; cbn [run]; [by intros [= <-]|]. destruct (step cap w e) as [w1|] eqn:E; [|done]. cbn. apply IH. destruct e as [i ok|i ok]; [by eapply worker_inv|].
  destruct (calls w !! i) as [[j pc|pc]|] eqn:Ei; [by eapply write_inv|by eapply close_inv|]. cbn in E. by rewrite Ei in E.
Qed.
(** When a [Close] has returned nothing is queued or held. *)
Lemma closed_drained w j : inv w → workers w ≠ [] → Close CReturned ∈ calls w → queue w = [] ∧ total (holding j) (workers w) = 0.
Proof.
  intros [_ _ He Hd] Hn Hr. specialize (Hd Hr). rewrite Forall_forall in Hd. split.
  - apply He. destruct (workers w) as [|k ks] eqn:E; [done|]. rewrite (Hd k) by set_solver. set_solver.
  - apply total_zero. intros k Hk. by rewrite (Hd k Hk).
Qed.
Lemma workers_kept cap w es w' : run cap w es = Some w' → length (workers w') = length (workers w).
Proof.
  revert w. induction es as [|e es IH]; intros w; cbn [run]; [by intros [= <-]|]. destruct (step cap w e) as [w1|] eqn:E; [|done]. cbn. intros Hr. rewrite (IH _ Hr).
  destruct e as [i ok|i ok]; cbn in E.
  - destruct (workers w !! i) as [k|]; [|done]. cbn in E. destruct k; cbn in E; repeat (case_match; try done); cbn in E; simplify_eq; apply length_insert.
  - destruct (calls w !! i) as [[j pc|pc]|]; [..|done]; cbn in E; destruct pc; cbn in E; repeat (case_match; try done); cbn in E; by simplify_eq.
Qed.
End WriterFacts.

(** ** Properties *)

Import WriterFacts.

(** C14: with at least one worker, under any interleaving of writers, workers and
    closers and any failures of the store, every job of a [Write] that has queued
    or put it is put exactly once (a put that the store refused counts), queued
    or in the hands of a worker, [Queued] counts the writes that
    returned asynchronously, and once a [Close] has returned every accepted job
    has been put. *)
Theorem async_writer_drops_nothing cap blobs n cs es w : (0 < n)%nat → Forall starting cs → run cap (NewAsyncWriter blobs n cs) es = Some w →
  (∀ j, total (accepted j) (calls w) = total (is_job j) (puts w) + total (is_job j) (queue w) + total (holding j) (workers w)) ∧
  Queued w = i64 (total queued_call (calls w)) ∧
  (Close CReturned ∈ calls w → ∀ j, total (accepted j) (calls w) = total (is_job j) (puts w)).
Proof.
  intros Hn Hs Hr. assert (inv w) as Hi by (eapply run_inv; [by apply inv_new|done]). destruct Hi as [Hj Hq He Hd] eqn:E. clear E. split_and!; [done|done|].
  intros Hc j. destruct (closed_drained w j Hi) as [Hqueue Hhold]; [|done|].
  - intros Hw. pose proof (workers_kept _ _ _ _ Hr) as Hl. rewrite Hw in Hl. cbn in Hl. rewrite length_replicate in Hl. lia.
  - rewrite Hj, Hqueue, Hhold. cbn. lia.
Qed.

(** A [Write] that has seen the writer open panics if a [Close] closes the queue
    before its send; and a [Write] that finds the queue full puts its data before
    the job of an earlier [Write] of the same key, which then overwrites it, so
    that after both have returned and the writer is closed the older data stays. *)
Theorem async_writer_races k v1 v2 :
  (∃ es w, run 1 (NewAsyncWriter ∅ 1 [Write {| key := k; data := v1 |} WClosed; Close CSwap]) es = Some w ∧ Write {| key := k; data := v1 |} WPanic ∈ calls w) ∧
  (∃ es1 es2 w1 w, run 1 (NewAsyncWriter ∅ 1 [Write {| key := k; data := v1 |} WClosed; Write {| key := k; data := v2 |} WClosed; Close CSwap]) es1 = Some w1 ∧
     calls w1 = [Write {| key := k; data := v1 |} (WReturned false); Write {| key := k; data := v2 |} WClosed; Close CSwap] ∧
     run 1 w1 es2 = Some w ∧ calls w = [Write {| key := k; data := v1 |} (WReturned false); Write {| key := k; data := v2 |} (WReturned true); Close CReturned] ∧
     store w !! k = Some v1).
Proof.
  split.
  - exists [Call 0 true; Call 1 true; Call 1 true; Call 0 true]. eexists. split; [reflexivity|]. cbn. by left.
  - exists [Call 0 true; Call 0 true; Call 0 true],
      [Call 1 true; Call 1 true; Call 1 true; Call 1 true; Call 2 true; Call 2 true; Worker 0 true; Worker 0 true; Worker 0 true; Worker 0 true; Call 2 true].
    set (j1 := {| key := k; data := v1 |}). set (j2 := {| key := k; data := v2 |}).
    exists {| store := ∅; queue := [j1]; queueClosed := false; closed := false; workers := [Waiting]; Queued := 1; Completed := 0; Failed := 0; Bytes := 0;
              calls := [Write j1 (WReturned false); Write j2 WClosed; Close CSwap]; puts := [] |},
      {| store := <[k := v1]> (<[k := v2]> ∅); queue := []; queueClosed := true; closed := true; workers := [Exited]; Queued := 1; Completed := 2; Failed := 0;
         Bytes := i64 (i64 (0 + len v2) + len v1); calls := [Write j1 (WReturned false); Write j2 (WReturned true); Close CReturned]; puts := [j2; j1] |}.
    split; [reflexivity|]. split; [reflexivity|]. split; [reflexivity|]. split; [reflexivity|]. apply lookup_insert_eq.
Qed.

Definition demo_job (b : byte) : writeJob := {| key := ["k"%byte]; data := [b] |}.
Definition demo_calls : list call := [Write (demo_job "1"%byte) WClosed; Write (demo_job "2"%byte) WClosed; Close CSwap].
Definition demo_schedule : list event := [Call 0 true; Call 0 true; Worker 0 true; Call 1 true; Call 0 true; Call 1 true; Worker 0 false; Call 2 true; Call 1 true; Worker 0 true;
  Call 2 true; Worker 0 true; Worker 0 true; Worker 0 true; Worker 0 true; Call 2 true].
Definition demo_state : AsyncWriter := default (NewAsyncWriter ∅ 0 []) (run 1 (NewAsyncWriter ∅ 1 demo_calls) demo_schedule).
Lemma async_writer_drops_nothing_witness : puts demo_state = [demo_job "1"%byte; demo_job "2"%byte] ∧
  total (accepted (demo_job "2"%byte)) (calls demo_state) = total (is_job (demo_job "2"%byte)) (puts demo_state).
Proof.
  split; [by vm_compute|]. apply (async_writer_drops_nothing 1 ∅ 1 demo_calls demo_schedule demo_state); [lia|by repeat constructor|by vm_compute|].
  assert (calls demo_state = [Write (demo_job "1"%byte) (WReturned false); Write (demo_job "2"%byte) (WReturned false); Close CReturned]) as -> by by vm_compute.
  by apply (list_elem_of_lookup_2 _ 2).
Defined.
