(* ===== verification/HelperFrame.v ===== *)
(** * Messages of the privileged helper

    [src/internal/helper/framing.go]: messages with an eight byte length in front,
    written to and read from a connection. *)

From S2P Require Import Prelude Arrays GoStrings GoIO.

(** ** Writers *)

(** A connection that is written to: what it took, and how many bytes it takes
    before its writes fail, if they ever do. *)
Record writer := Writer { w_out : list byte; w_room : option nat; w_error : goerror }.
Definition Write (w : writer) (p : list byte) : option goerror * writer :=
  match w_room w with
  | None => (None, Writer (w_out w ++ p) None (w_error w))
  | Some n =>
    if (length p <=? n)%nat then (None, Writer (w_out w ++ p) (Some (n - length p)%nat) (w_error w))
    else (Some (w_error w), Writer (w_out w ++ take n p) (Some O) (w_error w))
  end.

Module Framing.

Definition maxMessageSize : Z := 4 * 1024 * 1024.
Definition too_large (size : Z) : goerror := Errorf ("helper: message too large (" +:+ itoa size +:+ " > " +:+ itoa maxMessageSize +:+ ")").

Definition WriteMessage (w : writer) (payload : list byte) : option goerror * writer :=
  if maxMessageSize <? len payload then (Some (too_large (len payload)), w) else
  let hdr := be_bytes 8 (len payload) in
  match Write w hdr with
  | (Some err, w) => (Some (Wrapf "helper: write header: %w" err), w)
  | (None, w) =>
    match Write w payload with
    | (Some err, w) => (Some (Wrapf "helper: write payload: %w" err), w)
    | (None, w) => (None, w)
    end
  end.

Definition ReadMessage (r : reader) : outcome (list byte * reader) :=
  '(hdr, r) ← wrap_err "helper: read header: %w" (io_ReadFull r 8);
  size ← be_uint 8 hdr;
  if maxMessageSize <? size then Err (too_large size) else
  '(buf, r) ← wrap_err "helper: read payload: %w" (io_ReadFull r size);
  Ok (buf, r).
End Framing.

Module FramingFacts.
Export Framing.

Definition frame (payload : list byte) : list byte := be_bytes 8 (len payload) ++ payload.
(** The connection accepts all that is written to it. *)
Definition open_writer (out : list byte) : writer := Writer out None io_EOF.

Lemma max_bound n : n <= maxMessageSize → n < 256 ^ 8.
Proof. intros Hn. eapply Z.le_lt_trans; [done|]. by vm_compute. Qed.
Lemma WriteMessage_open out payload : len payload <= maxMessageSize → WriteMessage (open_writer out) payload = (None, open_writer (out ++ frame payload)).
Proof. intros Hl. unfold WriteMessage, Write, open_writer, frame. cbn [w_room w_out w_error]. rewrite (proj2 (Z.ltb_ge _ _)) by done. by rewrite app_assoc. Qed.
Lemma ReadMessage_frame payload r : len payload <= maxMessageSize → ReadMessage (push (frame payload) r) = Ok (payload, r).
Proof.
  intros Hl. unfold ReadMessage, frame. rewrite push_app. rewrite io_ReadFull_push by by rewrite len_be_bytes. cbn [wrap_err mbind outcome_bind].
  rewrite be_uint_be_bytes by (split; [apply len_nonneg|by apply max_bound]). cbn [mbind outcome_bind]. rewrite (proj2 (Z.ltb_ge _ _)) by done. by rewrite io_ReadFull_push.
Qed.
Lemma ReadMessage_inv r payload r' : ReadMessage r = Ok (payload, r') → len payload <= maxMessageSize ∧ r = push (frame payload) r'.
Proof.
  unfold ReadMessage. destruct (io_ReadFull r 8) as [[hdr r1]| |] eqn:E1; cbn [wrap_err mbind outcome_bind]; [|done..].
  destruct (be_uint 8 hdr) as [size| |] eqn:E2; cbn [mbind outcome_bind]; [|done..]. destruct (Z.ltb_spec maxMessageSize size) as [|Hs]; [done|].
  destruct (io_ReadFull r1 size) as [[buf r2]| |] eqn:E3; cbn [wrap_err mbind outcome_bind]; [|done..]. intros [= -> ->].
  apply io_ReadFull_inv in E1 as [Hh ->]; [|done]. apply be_uint_all in E2 as (_ & -> & Hr); [|unfold len in Hh; lia]. apply io_ReadFull_inv in E3 as [<- ->]; [|lia].
  split; [done|]. unfold frame. by rewrite push_app.
Qed.
Lemma ReadMessage_no_panic r : ReadMessage r ≠ Panic.
Proof.
  unfold ReadMessage. pose proof (io_ReadFull_no_panic r 8). destruct (io_ReadFull r 8) as [[hdr r1]| |] eqn:E1; cbn [wrap_err mbind outcome_bind]; [|done..].
  apply io_ReadFull_inv in E1 as [Hh _]; [|done]. unfold be_uint. rewrite (proj2 (Nat.ltb_ge _ _)) by (unfold len in Hh; lia). cbn [mbind outcome_bind]. case_match; [done|].
  pose proof (io_ReadFull_no_panic r1 (be (take 8 hdr))). by destruct (io_ReadFull r1 _) as [[]| |].
Qed.
(** What a write leaves on the connection. *)
Lemma Write_out w p err w' : Write w p = (err, w') → ∃ part rest, p = part ++ rest ∧ w_out w' = w_out w ++ part ∧ (err = None ↔ rest = []).
Proof.
  unfold Write. destruct (w_room w) as [n|].
  - destruct (Nat.leb_spec (length p) n) as [Hl|Hl]; intros [= <- <-]; [exists p, []; by rewrite app_nil_r|]. exists (take n p), (drop n p). rewrite take_drop. split_and!; [done|done|].
    split; [done|]. intros E. apply (f_equal length) in E. rewrite length_drop in E. cbn in E. lia.
  - intros [= <- <-]. exists p, []. by rewrite app_nil_r.
Qed.
Lemma WriteMessage_out w payload err w' : WriteMessage w payload = (err, w') → len payload <= maxMessageSize →
  ∃ part rest, frame payload = part ++ rest ∧ w_out w' = w_out w ++ part ∧ (err = None ↔ rest = []).
Proof.
  intros Hw Hl. unfold WriteMessage in Hw. rewrite (proj2 (Z.ltb_ge _ _)) in Hw by done. destruct (Write w (be_bytes 8 (len payload))) as [e1 w1] eqn:E1.
  apply Write_out in E1 as (p1 & r1 & H1 & O1 & N1). unfold frame. rewrite H1. destruct e1 as [e1|].
  { injection Hw as <- <-. exists p1, (r1 ++ payload). rewrite app_assoc. split_and!; [done|done|]. split; [done|]. intros [-> _]%app_eq_nil. by discriminate (proj2 N1 eq_refl). }
  rewrite (proj1 N1 eq_refl), app_nil_r in *. destruct (Write w1 payload) as [e2 w2] eqn:E2. apply Write_out in E2 as (p2 & r2 & -> & O2 & N2). exists (p1 ++ p2), r2. rewrite <-app_assoc.
  destruct e2 as [e2|]; injection Hw as <- <-; (split_and!; [done|by rewrite O2, O1, app_assoc|by rewrite <-N2]).
Qed.
End FramingFacts.

(** ** Properties *)

Import FramingFacts.

(** A message is read exactly when the stream starts with its frame, which holds
    at most 4 MiB, and reading consumes the frame and nothing more; no stream
    causes a panic or a larger allocation.  A message that is written without an
    error appears as its frame; one that fails leaves only a part of it; a
    message over the limit is refused and nothing is written. *)
Theorem helper_frames :
  (∀ r payload r', ReadMessage r = Ok (payload, r') ↔ len payload <= maxMessageSize ∧ r = push (frame payload) r') ∧
  (∀ r, ReadMessage r ≠ Panic) ∧
  (∀ w payload err w', WriteMessage w payload = (err, w') →
    (len payload <= maxMessageSize → ∃ part rest, frame payload = part ++ rest ∧ w_out w' = w_out w ++ part ∧ (err = None ↔ rest = [])) ∧
    (maxMessageSize < len payload → err = Some (too_large (len payload)) ∧ w' = w)).
Proof.
  split_and!.
  - intros r payload r'. split; [apply ReadMessage_inv|]. intros [Hl ->]. by apply ReadMessage_frame.
  - apply ReadMessage_no_panic.
  - intros w payload err w' Hw. split; [by apply WriteMessage_out|]. intros Hl. unfold WriteMessage in Hw. rewrite (proj2 (Z.ltb_lt _ _)) in Hw by done. by injection Hw as <- <-.
Qed.
