(* ===== verification/HelperDispatch.v ===== *)
(** * The dispatcher of the privileged helper

    [src/internal/helper/dispatcher.go]: requests of a caller are decoded, checked
    against the rate limit of the caller, passed to the handler of their method
    and written to the audit log; a connection is served until it fails.  The
    handlers work on a state of their own, [S].  A request is handled as a whole;
    the times of its start and of its audit event are given. *)

From Stdlib Require Import Ascii.
From S2P Require Import Prelude Arrays GoStrings GoRuntime GoText GoJSON GoIO HelperFrame.

(** ** Errors as text *)

(** [fmt.Errorf] with one [%w]. *)
Fixpoint subst_w (msg inner : string) : string :=
  match msg with
  | "" => ""
  | String c r =>
    match r with
    | String d r' => if Ascii.eqb c "%" && Ascii.eqb d "w" then inner +:+ r' else String c (subst_w r inner)
    | "" => msg
    end
  end.
(** [err.Error()] *)
Fixpoint error_text (e : goerror) : string :=
  match e with
  | io_EOF => "EOF"
  | io_ErrUnexpectedEOF => "unexpected EOF"
  | Errorf msg => msg
  | Wrapf msg e => subst_w msg (error_text e)
  end.

Module Dispatch.
Export Framing.

Record Request := { rq_JSONRPC : string; rq_ID : option string; rq_Method : string; rq_Params : option string }.
Definition dec_Request : decoder Request := dec_struct [
  ("jsonrpc", on rq_JSONRPC (λ r x, {| rq_JSONRPC := x; rq_ID := rq_ID r; rq_Method := rq_Method r; rq_Params := rq_Params r |}) dec_string);
  ("id", on rq_ID (λ r x, {| rq_JSONRPC := rq_JSONRPC r; rq_ID := x; rq_Method := rq_Method r; rq_Params := rq_Params r |}) dec_raw);
  ("method", on rq_Method (λ r x, {| rq_JSONRPC := rq_JSONRPC r; rq_ID := rq_ID r; rq_Method := x; rq_Params := rq_Params r |}) dec_string);
  ("params", on rq_Params (λ r x, {| rq_JSONRPC := rq_JSONRPC r; rq_ID := rq_ID r; rq_Method := rq_Method r; rq_Params := x |}) dec_raw)].
Definition zero_Request : Request := {| rq_JSONRPC := ""; rq_ID := None; rq_Method := ""; rq_Params := None |}.

(** The results of handlers are maps from names to simple values. *)
Inductive value := VBool (b : bool) | VInt (z : Z) | VString (s : string).
Definition value_text (v : value) : string := match v with VBool b => bool_text b | VInt z => int_text z | VString s => string_text s end.
Abbreviation any := (list (string * value)).
Definition any_text (a : any) : string := map_text ((λ m, (m.1, value_text m.2)) <$> a).

Record RPCError := { Code : Z; Message : string }.
Record Response := { rs_JSONRPC : string; rs_ID : option string; rs_Result : option any; rs_Error : option RPCError }.
(** [json.Marshal] of them. *)
Definition RPCError_text (e : RPCError) : string := struct_text [("code", int_text (Code e)); ("message", string_text (Message e))].
Definition Response_text (r : Response) : string :=
  struct_text ([("jsonrpc", string_text (rs_JSONRPC r)); ("id", raw_text (rs_ID r))] ++
    (match rs_Result r with Some a => [("result", any_text a)] | None => [] end) ++
    (match rs_Error r with Some e => [("error", RPCError_text e)] | None => [] end)).

Record rateLimiter := { maxRequests : Z; window : Z; seen : gmap Z (list time) }.
Record auditEvent := { ae_Time : time; ae_UID : Z; ae_Method : string; ae_OK : bool; ae_DurationMS : Z; ae_Error : string }.

Section Dispatcher.
Context {S : Type}.

Definition HandlerFunc : Type := Z → option string → S → S * (goerror + any).
(** [audit] holds the events written so far, if there is a log. *)
Record Dispatcher := { handlers : gmap string HandlerFunc; audit : option (list auditEvent); limit : option rateLimiter; state : S }.

Definition NewDispatcher (s : S) : Dispatcher := {| handlers := ∅; audit := None; limit := None; state := s |}.
Definition Register (d : Dispatcher) (method : string) (fn : HandlerFunc) : outcome Dispatcher :=
  match handlers d !! method with
  | Some _ => Panic
  | None => Ok {| handlers := <[method := fn]> (handlers d); audit := audit d; limit := limit d; state := state d |}
  end.
Definition SetAuditWriter (d : Dispatcher) (log : option (list auditEvent)) : Dispatcher :=
  {| handlers := handlers d; audit := log; limit := limit d; state := state d |}.
Definition SetRateLimit (d : Dispatcher) (max win : Z) : Dispatcher :=
  {| handlers := handlers d; audit := audit d;
     limit := if (max <=? 0) || (win <=? 0) then None else Some {| maxRequests := max; window := win; seen := ∅ |}; state := state d |}.

Definition auditRequest (d : Dispatcher) (start now : time) (uid : Z) (method : string) (ok : bool) (msg : string) : Dispatcher :=
  match audit d with
  | None => d
  | Some events =>
    let event := {| ae_Time := start; ae_UID := uid; ae_Method := method; ae_OK := ok; ae_DurationMS := Z.quot (Sub now start) Millisecond; ae_Error := msg |} in
    {| handlers := handlers d; audit := Some (events ++ [event]); limit := limit d; state := state d |}
  end.

Definition allow (l : rateLimiter) (uid : Z) (now : time) : rateLimiter * bool :=
  let cutoff := Add_ now (- window l) in
  let hits := default [] (seen l !! uid) in
  let keep := filter (λ ts, After ts cutoff = true) hits in
  if maxRequests l <=? len keep then ({| maxRequests := maxRequests l; window := window l; seen := <[uid := keep]> (seen l) |}, false)
  else ({| maxRequests := maxRequests l; window := window l; seen := <[uid := keep ++ [now]]> (seen l) |}, true).
Definition allowRequest (d : Dispatcher) (uid : Z) (now : time) : Dispatcher * bool :=
  match limit d with
  | None => (d, true)
  | Some l => let '(l, ok) := allow l uid now in ({| handlers := handlers d; audit := audit d; limit := Some l; state := state d |}, ok)
  end.
Definition with_state (d : Dispatcher) (s : S) : Dispatcher := {| handlers := handlers d; audit := audit d; limit := limit d; state := s |}.

Context `{JSONErrors}.

Definition failure (id : option string) (code : Z) (msg : string) : Response :=
  {| rs_JSONRPC := "2.0"; rs_ID := id; rs_Result := None; rs_Error := Some {| Code := code; Message := msg |} |}.
Definition handle (d : Dispatcher) (start now : time) (uid : Z) (raw : list byte) : Response * Dispatcher :=
  match unmarshal dec_Request zero_Request (string_of_bytes raw) with
  | (_, Some _) => (failure None (-32700) "parse error", auditRequest d start now uid "" false "parse error")
  | (req, None) =>
    if negb (bool_decide (rq_JSONRPC req = "2.0")) || bool_decide (rq_Method req = "") then
      (failure (rq_ID req) (-32600) "invalid request", auditRequest d start now uid (rq_Method req) false "invalid request")
    else
      let '(d, allowed) := allowRequest d uid start in
      if negb allowed then
        (failure (rq_ID req) (-32001) "rate limit exceeded", auditRequest d start now uid (rq_Method req) false "rate limit exceeded")
      else match handlers d !! rq_Method req with
      | None => (failure (rq_ID req) (-32601) ("method not found: " +:+ rq_Method req), auditRequest d start now uid (rq_Method req) false "method not found")
      | Some fn =>
        match fn uid (rq_Params req) (state d) with
        | (s, inl err) => (failure (rq_ID req) (-32603) (error_text err), auditRequest (with_state d s) start now uid (rq_Method req) false (error_text err))
        | (s, inr result) =>
          ({| rs_JSONRPC := "2.0"; rs_ID := rq_ID req; rs_Result := Some result; rs_Error := None |}, auditRequest (with_state d s) start now uid (rq_Method req) true "")
        end
      end
  end.

(** [Serve], after the caller of the connection is known.  A message has at least
    eight bytes, so a round per byte is enough; [clock] gives the times of the
    rounds. *)
Fixpoint serve_go (fuel : nat) (clock : nat → time * time) (n : nat) (d : Dispatcher) (uid : Z) (r : reader) (w : writer) : outcome (writer * Dispatcher) :=
  match fuel with
  | O => out_of_fuel
  | Datatypes.S fuel =>
    match ReadMessage r with
    | Panic => Panic
    | Err _ => Ok (w, d)
    | Ok (raw, r) =>
      let '(resp, d) := handle d (clock n).1 (clock n).2 uid raw in
      match WriteMessage w (bytes_of_string (Response_text resp)) with
      | (Some _, w) => Ok (w, d)
      | (None, w) => serve_go fuel clock (Datatypes.S n) d uid r w
      end
    end
  end.
Definition Serve (clock : nat → time * time) (d : Dispatcher) (peer : option Z) (r : reader) (w : writer) : outcome (writer * Dispatcher) :=
  match peer with
  | None => Ok (w, d)
  | Some uid => serve_go (Datatypes.S (length (r_bytes r))) clock O d uid r w
  end.
End Dispatcher.
Arguments Dispatcher S : clear implicits.
Arguments HandlerFunc S : clear implicits.
End Dispatch.

Module DispatchFacts.
Export Dispatch FramingFacts.

(** ** The rate limit *)

Section Limit.
Context (max win : Z).

(** The decisions on requests, given as callers and times. *)
Fixpoint decisions (l : rateLimiter) (calls : list (Z * time)) : rateLimiter * list (Z * time * bool) :=
  match calls with
  | [] => (l, [])
  | c :: calls => let '(l, ok) := allow l c.1 c.2 in let '(l, ds) := decisions l calls in (l, (c, ok) :: ds)
  end.
Definition fresh_limiter : rateLimiter := {| maxRequests := max; window := win; seen := ∅ |}.
Definition later (x y : Z * time) : Prop := x.1 = y.1 → x.2 <= y.2.

(** The requests of a caller that were let through in a span of time. *)
Definition admitted (uid lo hi : Z) (ds : list (Z * time * bool)) : list (Z * time * bool) :=
  filter (λ d, d.2 = true ∧ d.1.1 = uid ∧ lo < d.1.2 <= hi) ds.

Lemma decisions_snoc l calls c : decisions l (calls ++ [c]) =
  let '(l1, ds) := decisions l calls in let '(l2, ok) := allow l1 c.1 c.2 in (l2, ds ++ [(c, ok)]).
Proof.
  revert l. induction calls as [|x calls IH]; intros l; cbn; [by destruct (allow l c.1 c.2)|]. destruct (allow l x.1 x.2) as [l1 ok]. rewrite IH.
  destruct (decisions l1 calls) as [l2 ds]. by destruct (allow l2 c.1 c.2).
Qed.
Lemma decisions_calls l calls : (decisions l calls).2.*1 = calls.
Proof. revert l. induction calls as [|x calls IH]; intros l; cbn; [done|]. destruct (allow l x.1 x.2) as [l1 ok]. specialize (IH l1). destruct (decisions l1 calls). cbn in *. by rewrite IH. Qed.
Lemma allow_params l uid now : maxRequests (allow l uid now).1 = maxRequests l ∧ window (allow l uid now).1 = window l.
Proof. unfold allow. by case_match. Qed.

(** What the limiter remembers of a caller: of the requests let through, those
    that are recent enough for the requests to come. *)
Record remembers (l : rateLimiter) (ds : list (Z * time * bool)) : Prop := {
  rm_params : maxRequests l = max ∧ window l = win;
  rm_seen uid now : (∀ d, d ∈ ds → d.1.1 = uid → d.1.2 <= now) →
    filter (λ ts, After ts (now - win) = true) (default [] (seen l !! uid)) = (λ d, d.1.2) <$> admitted uid (now - win) now ds }.

Lemma admitted_app uid lo hi a b : admitted uid lo hi (a ++ b) = admitted uid lo hi a ++ admitted uid lo hi b.
Proof. apply filter_app. Qed.
Lemma filter_after_mono (ts : list time) (a b : time) : a <= b → filter (λ t, After t b = true) (filter (λ t, After t a = true) ts) = filter (λ t, After t b = true) ts.
Proof. intros Hab. rewrite list_filter_filter. apply list_filter_iff. intros t. unfold After. rewrite !Z.ltb_lt. lia. Qed.
Lemma remembers_step l ds c : remembers l ds → (∀ d, d ∈ ds → later d.1 c) → remembers (allow l c.1 c.2).1 (ds ++ [(c, (allow l c.1 c.2).2)]) ∧
  ((allow l c.1 c.2).2 = true ↔ len (admitted c.1 (c.2 - win) c.2 ds) < max).
Proof.
  intros [[Hm Hw] Hs] Hlater. destruct c as [uid now]. cbn [fst snd] in *. assert (∀ d, d ∈ ds → d.1.1 = uid → d.1.2 <= now) as Hnow by (intros d Hd; by apply Hlater).
  pose proof (Hs uid now Hnow) as Hkeep. unfold allow, Add_. rewrite Hw, Hm. replace (now + - win) with (now - win) by lia. rewrite Hkeep.
  set (keep := (λ d : Z * time * bool, d.1.2) <$> admitted uid (now - win) now ds) in *. assert (len keep = len (admitted uid (now - win) now ds)) as Hlen by (unfold keep, len; by rewrite length_fmap).
  rewrite <-Hlen. destruct (Z.leb_spec max (len keep)) as [Hfull|Hroom]; cbn [fst snd]; (split; [|by rewrite ?Z.ltb_lt; split; [|lia]; (done || lia)]); (split; [done|]); cbn [seen]; intros u t Ht.
  - assert (admitted u (t - win) t (ds ++ [(uid, now, false)]) = admitted u (t - win) t ds) as ->.
    { rewrite admitted_app. unfold admitted at 2. rewrite filter_cons_False by (by intros [? _]). by rewrite filter_nil, app_nil_r. }
    assert (∀ d, d ∈ ds → d.1.1 = u → d.1.2 <= t) as Ht' by (intros d Hd; apply Ht; apply elem_of_app; by left).
    destruct (decide (u = uid)) as [->|Hne]; [|rewrite lookup_insert_ne by done; by apply Hs].
    rewrite lookup_insert_eq. cbn [default from_option]. rewrite <-(Hs uid t Ht'). rewrite <-Hkeep. apply filter_after_mono.
    specialize (Ht (uid, now, false)). cbn in Ht. enough (now <= t) by lia. apply Ht; [|done]. apply elem_of_app. right. by left.
  - assert (∀ d, d ∈ ds → d.1.1 = u → d.1.2 <= t) as Ht' by (intros d Hd; apply Ht; apply elem_of_app; by left).
    rewrite admitted_app, fmap_app. unfold admitted at 2. destruct (decide (u = uid)) as [->|Hne].
    + rewrite lookup_insert_eq. cbn [default from_option]. unfold id. rewrite filter_app. assert (now <= t) as Hnt. { apply (Ht (uid, now, true)); [|done]. apply elem_of_app. right. by left. }
      f_equal; [rewrite <-(Hs uid t Ht'), <-Hkeep; apply filter_after_mono; lia|]. unfold After. destruct (decide (t - win < now)) as [Hin|Hout].
      * rewrite filter_cons_True by (by rewrite Z.ltb_lt). by rewrite filter_cons_True.
      * rewrite filter_cons_False by (by rewrite Z.ltb_lt). rewrite filter_cons_False; [done|]. cbn. intros (_ & _ & ? & _). lia.
    + rewrite lookup_insert_ne by done. rewrite (Hs u t Ht'). rewrite filter_cons_False; [by rewrite filter_nil, app_nil_r|]. cbn. intros (_ & ? & _). congruence.
Qed.
Lemma StronglySorted_snoc {A} (R : A → A → Prop) (l : list A) x : StronglySorted R (l ++ [x]) ↔ StronglySorted R l ∧ ∀ y, y ∈ l → R y x.
Proof.
  induction l as [|z l IH]; cbn.
  - split; [intros _; split; [constructor|by intros ? ?%not_elem_of_nil]|]. by repeat constructor.
  - split.
    + intros H. apply StronglySorted_inv in H as [[H1 H2]%IH H3]. apply Forall_app in H3 as [H3 H4]. split; [by constructor|]. intros y [->|Hy]%elem_of_cons; [by apply Forall_inv in H4|by apply H2].
    + intros [H1 H2]. apply StronglySorted_inv in H1 as [H1 H3]. constructor; [apply IH; split; [done|]; intros y Hy; apply H2; by right|]. apply Forall_app. split; [done|]. constructor; [apply H2; by left|done].
Qed.
Lemma decisions_remember calls : StronglySorted later calls → remembers (decisions fresh_limiter calls).1 (decisions fresh_limiter calls).2.
Proof.
  induction calls as [|c calls IH] using rev_ind; intros Hs; [by split|]. apply StronglySorted_snoc in Hs as [Hs Hl]. specialize (IH Hs).
  pose proof (decisions_calls fresh_limiter calls) as Hc. rewrite decisions_snoc. destruct (decisions fresh_limiter calls) as [l ds]. cbn [fst snd] in *.
  destruct (remembers_step l ds c IH) as [Hr _]; [intros d Hd; apply Hl; rewrite <-Hc; by apply (list_elem_of_fmap_2 fst)|]. by destruct (allow l c.1 c.2).
Qed.
Lemma filter_length_le {A} (P Q : A → Prop) `{∀ x, Decision (P x), ∀ x, Decision (Q x)} (l : list A) : (∀ x, x ∈ l → P x → Q x) → (length (filter P l) <= length (filter Q l))%nat.
Proof.
  induction l as [|x l IH]; intros HPQ; [done|]. specialize (IH ltac:(intros y Hy; apply HPQ; by right)). rewrite !filter_cons. destruct (decide (P x)) as [Hp|Hp].
  - rewrite decide_True by (apply HPQ; [by left|done]). cbn. lia.
  - case_decide; cbn; lia.
Qed.
Lemma decision_exact calls c : StronglySorted later (calls ++ [c]) →
  ∃ ok, (decisions fresh_limiter (calls ++ [c])).2 = (decisions fresh_limiter calls).2 ++ [(c, ok)] ∧ (ok = true ↔ len (admitted c.1 (c.2 - win) c.2 (decisions fresh_limiter calls).2) < max).
Proof.
  intros [Hs Hl]%StronglySorted_snoc. pose proof (decisions_remember calls Hs) as Hr. pose proof (decisions_calls fresh_limiter calls) as Hc. rewrite decisions_snoc. destruct (decisions fresh_limiter calls) as [l ds]. cbn [fst snd] in *.
  destruct (remembers_step l ds c Hr) as [_ He]; [intros d Hd; apply Hl; rewrite <-Hc; by apply (list_elem_of_fmap_2 fst)|]. destruct (allow l c.1 c.2) as [l' ok]. by exists ok.
Qed.
Lemma window_bound calls uid t : 0 <= max → StronglySorted later calls → len (admitted uid (t - win) t (decisions fresh_limiter calls).2) <= max.
Proof.
  intros Hm. induction calls as [|c calls IH] using rev_ind; intros Hs; [done|]. destruct (decision_exact calls c Hs) as (ok & -> & Hok). apply StronglySorted_snoc in Hs as [Hs Hl]. specialize (IH Hs).
  rewrite admitted_app. unfold admitted at 2. destruct (decide ((c, ok).2 = true ∧ (c, ok).1.1 = uid ∧ t - win < (c, ok).1.2 <= t)) as [Hin|Hout].
  2: { rewrite filter_cons_False by done. by rewrite filter_nil, app_nil_r. }
  rewrite filter_cons_True, filter_nil by done. rewrite len_app, len_cons, len_nil. destruct Hin as (Hk & Hu & Ht). cbn [fst snd] in *. subst uid. apply Hok in Hk.
  enough (len (admitted c.1 (t - win) t (decisions fresh_limiter calls).2) <= len (admitted c.1 (c.2 - win) c.2 (decisions fresh_limiter calls).2)) by lia. unfold len, admitted. apply inj_le, filter_length_le.
  intros d Hd (Hd1 & Hd2 & Hd3). split_and!; [done|done|lia|]. apply (list_elem_of_fmap_2 fst) in Hd. rewrite decisions_calls in Hd. by apply (Hl _ Hd).
Qed.
End Limit.

(** ** Conversations *)

Section Conversation.
Context {S : Type} `{JSONErrors}.
Implicit Types d : Dispatcher S.

(** The requests of a connection handled one after the other. *)
Fixpoint handle_all (clock : nat → time * time) (n : nat) d (uid : Z) (raws : list (list byte)) : list Response * Dispatcher S :=
  match raws with
  | [] => ([], d)
  | raw :: raws =>
    let '(resp, d) := handle d (clock n).1 (clock n).2 uid raw in
    let '(resps, d) := handle_all clock (Datatypes.S n) d uid raws in
    (resp :: resps, d)
  end.
Definition response_bytes (r : Response) : list byte := bytes_of_string (Response_text r).
Definition fits (l : list byte) : Prop := len l <= maxMessageSize.

Lemma serve_go_frames clock raws fuel n d uid junk fin out : (length raws < fuel)%nat → Forall fits raws → (∃ e, ReadMessage (Reader junk fin) = Err e) →
  Forall (λ r, fits (response_bytes r)) (handle_all clock n d uid raws).1 →
  serve_go fuel clock n d uid (Reader (concat (frame <$> raws) ++ junk) fin) (open_writer out) =
    Ok (open_writer (out ++ concat ((λ r, frame (response_bytes r)) <$> (handle_all clock n d uid raws).1)), (handle_all clock n d uid raws).2).
Proof.
  revert fuel n d out. induction raws as [|raw raws IH]; intros fuel n d out Hf HF [e He] HR; (destruct fuel as [|fuel]; [cbn in Hf; lia|]).
  { cbn. rewrite He. by rewrite app_nil_r. }
  apply Forall_cons in HF as [H1 HF]. cbn [serve_go fmap list_fmap concat]. rewrite <-app_assoc. change (Reader (frame raw ++ ?x) fin) with (push (frame raw) (Reader x fin)). rewrite ReadMessage_frame by done.
  cbn [handle_all] in *. destruct (handle d (clock n).1 (clock n).2 uid raw) as [resp d1]. specialize (IH fuel (Datatypes.S n) d1). destruct (handle_all clock (Datatypes.S n) d1 uid raws) as [resps d2]. cbn [fst snd] in *.
  apply Forall_cons in HR as [H2 HR]. fold (response_bytes resp). rewrite WriteMessage_open by done. rewrite IH; [|cbn in Hf; lia|done|by exists e|done]. cbn [fmap list_fmap concat]. by rewrite app_assoc.
Qed.
(** Serving ends on every stream. *)
Lemma frame_length raw : (8 <= length (frame raw))%nat.
Proof. unfold frame. rewrite length_app, length_be_bytes. lia. Qed.
Lemma serve_go_total clock fuel n d uid r w : (length (r_bytes r) < fuel)%nat → serve_go fuel clock n d uid r w ≠ Panic.
Proof.
  revert n d r w. induction fuel as [|fuel IH]; intros n d r w Hf; [lia|]. cbn [serve_go]. pose proof (ReadMessage_no_panic r) as Hp. destruct (ReadMessage r) as [[raw r']| |] eqn:E; [|done..].
  destruct (handle d _ _ uid raw) as [resp d']. destruct (WriteMessage w _) as [[err|] w']; [done|]. apply IH. apply ReadMessage_inv in E as [_ ->]. unfold push in Hf. cbn in Hf. rewrite length_app in Hf. pose proof (frame_length raw). lia.
Qed.

(** Every request is one event of the log, and the handlers stay the same. *)
Lemma auditRequest_spec d start now uid method ok msg : let d' := auditRequest d start now uid method ok msg in
  handlers d' = handlers d ∧ state d' = state d ∧ limit d' = limit d ∧
  audit d' = (λ es, es ++ [{| ae_Time := start; ae_UID := uid; ae_Method := method; ae_OK := ok; ae_DurationMS := Z.quot (Sub now start) Millisecond; ae_Error := msg |}]) <$> audit d.
Proof. unfold auditRequest. destruct (audit d) eqn:E; cbn; by rewrite ?E. Qed.
Lemma handle_logged d start now uid raw : let '(resp, d') := handle d start now uid raw in
  handlers d' = handlers d ∧ ∃ event, audit d' = (λ es, es ++ [event]) <$> audit d ∧ ae_UID event = uid ∧ ae_Time event = start ∧ (ae_OK event = true ↔ rs_Error resp = None).
Proof.
  assert (∀ d0 resp method ok msg, handlers d0 = handlers d → audit d0 = audit d → (ok = true ↔ rs_Error resp = None) →
    let '(resp, d') := (resp, auditRequest d0 start now uid method ok msg) in
    handlers d' = handlers d ∧ ∃ event, audit d' = (λ es, es ++ [event]) <$> audit d ∧ ae_UID event = uid ∧ ae_Time event = start ∧ (ae_OK event = true ↔ rs_Error resp = None)) as Hlog.
  { intros d0 resp method ok msg Hh Ha Hok. destruct (auditRequest_spec d0 start now uid method ok msg) as (H1 & _ & _ & H4). cbn zeta in *. rewrite H1, H4, Hh, Ha. split; [done|]. by eexists. }
  unfold handle. destruct (unmarshal _ _ _) as [req [e|]]; [by apply Hlog|]. destruct (_ || _); [by apply Hlog|]. unfold allowRequest.
  destruct (limit d) as [l|]; [destruct (allow l uid start) as [l' []]|]; cbn [negb handlers]; try (by apply Hlog); (destruct (handlers d !! rq_Method req) as [fn|]; [destruct (fn uid (rq_Params req) _) as [s' [err|res]]|]; by apply Hlog).
Qed.
Lemma handle_all_logged clock n d uid raws : handlers (handle_all clock n d uid raws).2 = handlers d ∧ length (handle_all clock n d uid raws).1 = length raws ∧
  ∃ events, audit (handle_all clock n d uid raws).2 = (λ es, es ++ events) <$> audit d ∧ length events = length raws ∧ Forall (λ e, ae_UID e = uid) events.
Proof.
  revert n d. induction raws as [|raw raws IH]; intros n d; cbn [handle_all].
  { split; [done|]. split; [done|]. exists []. split; [cbn; destruct (audit d); cbn; by rewrite ?app_nil_r|done]. }
  pose proof (handle_logged d (clock n).1 (clock n).2 uid raw) as Hl. destruct (handle d _ _ uid raw) as [resp d1]. destruct Hl as (Hh & event & Ha & Hu & _). specialize (IH (Datatypes.S n) d1).
  destruct (handle_all clock (Datatypes.S n) d1 uid raws) as [resps d2]. cbn [fst snd] in *. destruct IH as (H1 & H2 & events & H3 & H4 & H5). split; [congruence|]. split; [cbn; lia|].
  exists (event :: events). rewrite H3, Ha. split; [destruct (audit d); cbn; by rewrite <-?app_assoc|]. split; [cbn; lia|by constructor].
Qed.
End Conversation.
End DispatchFacts.

(** ** Properties *)

Import DispatchFacts.

(** A connection that carries requests is answered with the responses to them, in
    order and framed, as long as they fit a message; the requests are handled one
    after the other, and each is one event of the audit log under the identity
    of the caller.  On any other stream serving ends as well, without a panic. *)
Theorem helper_conversation (S : Type) (JE : JSONErrors) clock (d : Dispatcher S) uid raws junk fin out e :
  Forall fits raws → ReadMessage (Reader junk fin) = Err e → Forall (λ r, fits (response_bytes r)) (handle_all clock 0 d uid raws).1 →
  (∃ d', Serve clock d (Some uid) (Reader (concat (frame <$> raws) ++ junk) fin) (open_writer out) =
      Ok (open_writer (out ++ concat ((λ r, frame (response_bytes r)) <$> (handle_all clock 0 d uid raws).1)), d') ∧
    length (handle_all clock 0 d uid raws).1 = length raws ∧
    ∃ events, audit d' = (λ es, es ++ events) <$> audit d ∧ length events = length raws ∧ Forall (λ e, ae_UID e = uid) events) ∧
  ∀ peer r w, Serve clock d peer r w ≠ Panic.
Proof.
  intros HF He HR. split.
  - destruct (handle_all_logged clock 0 d uid raws) as (_ & Hl & Hev). eexists. split; [|by split]. unfold Serve. apply serve_go_frames; [|done|by exists e|done]. cbn [r_bytes]. rewrite length_app. clear.
    induction raws as [|raw raws IH]; cbn [fmap list_fmap concat length]; [lia|]. rewrite length_app. pose proof (frame_length raw). lia.
  - intros [u|] r w; [|done]. apply serve_go_total. lia.
Qed.

(** C26: in every sequence of requests whose times do not go back, a request is let
    through exactly if fewer than the limit of the earlier requests of the same
    caller in the window before it were; so no window of that length ever holds
    more than the limit, whatever other callers do. *)
Theorem rate_limit_exact max win calls c : 0 < max → StronglySorted later (calls ++ [c]) →
  (∃ ok, (decisions (fresh_limiter max win) (calls ++ [c])).2 = (decisions (fresh_limiter max win) calls).2 ++ [(c, ok)] ∧
    (ok = true ↔ len (admitted c.1 (c.2 - win) c.2 (decisions (fresh_limiter max win) calls).2) < max)) ∧
  ∀ uid t, len (admitted uid (t - win) t (decisions (fresh_limiter max win) (calls ++ [c])).2) <= max.
Proof. intros Hm Hs. split; [by apply decision_exact|]. intros uid t. apply window_bound; [lia|done]. Qed.

Definition demo_errors : JSONErrors := λ _, "".
Definition demo_dispatcher : Dispatcher unit := SetAuditWriter (NewDispatcher ()) (Some []).
Definition demo_request : list byte := bytes_of_string "[]".
Lemma helper_conversation_witness : ∃ d' : Dispatcher unit, Serve (H := demo_errors) (λ _, (0, 0)) demo_dispatcher (Some 501) (Reader (frame demo_request) io_EOF) (open_writer []) =
  Ok (open_writer (frame (response_bytes (failure None (-32700) "parse error"))), d').
Proof.
  destruct (helper_conversation unit demo_errors (λ _, (0, 0)) demo_dispatcher 501 [demo_request] [] io_EOF [] (Wrapf "helper: read header: %w" io_EOF)) as [(d' & Hs & _) _]; [by repeat constructor|done|by repeat constructor|].
  exists d'. rewrite app_nil_r in Hs. exact Hs.
Defined.
Lemma rate_limit_exact_witness : (decisions (fresh_limiter 2 60) [(501, 0); (501, 10); (502, 20); (501, 59)]).2 =
    [(501, 0, true); (501, 10, true); (502, 20, true); (501, 59, false)] ∧
  ∀ uid t, len (admitted uid (t - 60) t (decisions (fresh_limiter 2 60) [(501, 0); (501, 10); (502, 20); (501, 59)]).2) <= 2.
Proof.
  split; [by vm_compute|]. destruct (rate_limit_exact 2 60 [(501, 0); (501, 10); (502, 20)] (501, 59)) as [_ Hb]; [done| |exact Hb].
  repeat constructor; unfold later; cbn; lia.
Defined.
