(* ===== verification/HelperClient.v ===== *)
(** * The client of the privileged helper

    [src/internal/helperclient/client.go]: a call writes one request on a new
    connection and reads one response.  The other end of the connection is a
    function from the bytes it gets to the bytes it sends; [helper_bytes] is the
    one that serves the connection. *)

From Stdlib Require Import Ascii.
From S2P Require Import Prelude Arrays GoStrings GoRuntime GoText GoRunes GoJSON GoIO HelperFrame HelperDispatch.

Module Client.
Import Dispatch.

Definition ErrHelperUnavailable : goerror := Errorf "helperclient: helper not available".

Record clientResponse := { cr_Result : option string; cr_Error : option RPCError }.
Definition dec_clientError : decoder RPCError := dec_struct [
  ("code", on Code (λ e x, {| Code := x; Message := Message e |}) dec_int);
  ("message", on Message (λ e x, {| Code := Code e; Message := x |}) dec_string)].
Definition zero_clientError : RPCError := {| Code := 0; Message := "" |}.
Definition clientFields : list (string * decoder clientResponse) := [
  ("result", on cr_Result (λ r x, {| cr_Result := x; cr_Error := cr_Error r |}) dec_raw);
  ("error", on cr_Error (λ r x, {| cr_Result := cr_Result r; cr_Error := x |}) (dec_ptr zero_clientError dec_clientError))].
Definition dec_clientResponse : decoder clientResponse := dec_struct clientFields.

(** The text of a request; [params] is the text of its parameters. *)
Definition request_text (id : Z) (method params : string) : string :=
  map_text [("jsonrpc", string_text "2.0"); ("id", int_text id); ("method", string_text method); ("params", raw_text (Some params))].

Section Call.
Context `{JSONErrors}.

(** The identifier of the last request is part of the client.  [dial] is the other
    end of the connection, if there is one. *)
Definition call (dial : option (list byte → list byte)) (reqID : Z) (method params : string) : outcome (option string) * Z :=
  match dial with
  | None => (Err ErrHelperUnavailable, reqID)
  | Some peer =>
    let id := i64 (reqID + 1) in
    (match WriteMessage (Writer [] None io_EOF) (bytes_of_string (request_text id method params)) with
     | (Some err, _) => Err err
     | (None, w) =>
       '(respBytes, _) ← ReadMessage (Reader (peer (w_out w)) io_EOF);
       resp ← wrap_err "helperclient: unmarshal: %w" (unmarshal_ok dec_clientResponse {| cr_Result := None; cr_Error := None |} (string_of_bytes respBytes));
       match cr_Error resp with
       | Some e => Err (Errorf ("helper error " +:+ itoa (Code e) +:+ ": " +:+ Message e))
       | None => Ok (cr_Result resp)
       end
     end, id)
  end.

(** A connection that a dispatcher serves for a caller. *)
Definition helper_bytes {S} (clock : nat → time * time) (d : Dispatcher S) (uid : Z) (sent : list byte) : list byte :=
  match Serve clock d (Some uid) (Reader sent io_EOF) (Writer [] None io_EOF) with Ok (w, _) => w_out w | _ => [] end.
End Call.
End Client.

Module ClientFacts.
Export Client DispatchFacts.

(** ** Requests *)

(** Text that is a value by itself and is written as it is. *)
Definition clean_text (t : string) : Prop := compacts t ∧ ∃ v, parses 2 t v.
Definition request_members (id : Z) (method params : string) (v : json) : list (string * (string * json)) :=
  [("id", (int_text id, JNumber (int_text id))); ("jsonrpc", (string_text "2.0", JString "2.0")); ("method", (string_text method, JString method)); ("params", (params, v))].
Lemma request_text_eq id method params v : compacts params → request_text id method params = struct_text (named_text <$> request_members id method params v).
Proof. intros Hc. unfold request_text, map_text. rewrite compacts_raw by done. reflexivity. Qed.
Lemma request_decoded `{JSONErrors} id method params : clean_text params → valid_utf8 method →
  unmarshal dec_Request zero_Request (request_text id method params) = ({| rq_JSONRPC := "2.0"; rq_ID := Some (int_text id); rq_Method := method; rq_Params := Some params |}, None).
Proof.
  intros [Hc [v Hv]] Hm. rewrite (request_text_eq id method params v) by done. apply (unmarshal_text _ _ _ 3 _ (JObject (stored_member <$> request_members id method params v))); [|done|].
  - apply (parses_struct 2); [done|]. repeat apply Forall_cons_2; [..|apply Forall_nil_2]; cbn [fst snd].
    + apply (parses_mono 0); [done|]. apply parses_int.
    + apply (parses_mono 0); [done|]. by apply parses_utf8.
    + apply (parses_mono 0); [done|]. by apply parses_utf8.
    + done.
  - unfold dec_Request, request_members. dec_fields. reflexivity.
Qed.

(** ** Responses *)

Definition value_json (v : value) : json := match v with VBool b => JBool b | VInt z => JNumber (int_text z) | VString s => JString (sanitize s) end.
Lemma parses_value v : parses 0 (value_text v) (value_json v).
Proof. destruct v; [apply parses_lit|apply parses_int|apply parses_string]. Qed.
Lemma parses_any a : ∃ v, parses 1 (any_text a) v.
Proof.
  unfold any_text, map_text. rewrite sort_members_fmap.
  pose proof (parses_struct 0 ((λ m, (m.1, (value_text m.2, value_json m.2))) <$> sort_members a)) as Hp. rewrite <-list_fmap_compose in Hp. eexists. apply Hp; [done|]. apply Forall_fmap, Forall_true. intros m. apply parses_value.
Qed.
Definition error_json (e : RPCError) : json :=
  JObject [("code", (int_text (Code e), JNumber (int_text (Code e)))); ("message", (string_text (Message e), JString (sanitize (Message e))))].
Lemma parses_RPCError e : parses 1 (RPCError_text e) (error_json e).
Proof.
  apply (parses_object 0 [("code", (int_text (Code e), JNumber (int_text (Code e)))); ("message", (string_text (Message e), JString (sanitize (Message e))))]); [done|].
  repeat apply Forall_cons_2; [..|apply Forall_nil_2]; (split; [by vm_compute|]); [apply parses_int|apply parses_string].
Qed.
(** What the client gets of a response. *)
Definition received (r : Response) : clientResponse :=
  {| cr_Result := any_text <$> rs_Result r; cr_Error := (λ e, {| Code := Code e; Message := sanitize (Message e) |}) <$> rs_Error r |}.
Lemma members_decoded `{JSONErrors} jr rid vid (ms : list (string * (string * json))) c : valid_utf8 jr → parses 1 (raw_text rid) vid → Forall (λ m, parses 1 m.2.1 m.2.2) ms →
  fold_left (dec_member clientFields) (stored_member <$> ms) ({| cr_Result := None; cr_Error := None |}, false) = (c, false) →
  unmarshal_ok dec_clientResponse {| cr_Result := None; cr_Error := None |} (struct_text ([("jsonrpc", string_text jr); ("id", raw_text rid)] ++ (named_text <$> ms))) = Ok c.
Proof.
  intros Hj Hid Hms Hd. apply (unmarshal_ok_text _ _ _ 2 _ (JObject (stored_member <$> [("jsonrpc", (string_text jr, JString jr)); ("id", (raw_text rid, vid))] ++ ms))); [|done|].
  - apply (parses_struct 1 ([("jsonrpc", (string_text jr, JString jr)); ("id", (raw_text rid, vid))] ++ ms)); [done|]. repeat apply Forall_cons_2; [|done..]. cbn [fst snd]. apply (parses_mono 0); [done|]. by apply parses_utf8.
  - unfold dec_clientResponse, dec_struct. cbn [fmap list_fmap fold_left app]. do 2 (rewrite dec_member_skip; [|reflexivity|by vm_compute]). exact Hd.
Qed.
Lemma error_decoded e text : - 2 ^ 63 <= Code e < 2 ^ 63 →
  dec_ptr zero_clientError dec_clientError None text (error_json e) =
    (Some {| Code := Code e; Message := sanitize (Message e) |}, false).
Proof.
  intros Hc. unfold dec_ptr, error_json. change (JObject [("code", ?x); ("message", ?y)]) with (JObject (stored_member <$> [("code", x); ("message", y)])). unfold dec_clientError. dec_fields. done.
Qed.
Lemma response_decoded `{JSONErrors} r id : rs_ID r = Some (int_text id) ∨ rs_ID r = None → (∀ e, rs_Error r = Some e → - 2 ^ 63 <= Code e < 2 ^ 63) → valid_utf8 (rs_JSONRPC r) →
  unmarshal_ok dec_clientResponse {| cr_Result := None; cr_Error := None |} (Response_text r) = Ok (received r).
Proof.
  intros Hid He Hj. destruct r as [jr rid res err]. cbn [rs_ID rs_Error rs_JSONRPC] in *.
  assert (∃ v, parses 1 (raw_text rid) v) as [vid Hvid].
  { destruct Hid as [-> | ->]; [rewrite compacts_raw by apply compacts_int; eexists; apply (parses_mono 0); [done|]; apply parses_int|]. eexists. apply (parses_mono 0); [done|]. apply parses_null. }
  destruct res as [a|], err as [e|]; unfold Response_text, received; cbn [rs_JSONRPC rs_ID rs_Result rs_Error fmap option_fmap option_map app];
    try (destruct (parses_any a) as [va Hva]); try (pose proof (He e eq_refl) as Hc); pose proof parses_RPCError as Hpe; try specialize (Hpe e).
  - apply (members_decoded jr rid vid [("result", (any_text a, va)); ("error", (RPCError_text e, error_json e))]); [done|done|by repeat apply Forall_cons_2|].
    cbn [fmap list_fmap fold_left]. erewrite dec_member_on; [|reflexivity|by vm_compute|reflexivity]. erewrite dec_member_on; [|reflexivity|by vm_compute|by apply error_decoded]. done.
  - apply (members_decoded jr rid vid [("result", (any_text a, va))]); [done|done|by repeat apply Forall_cons_2|].
    cbn [fmap list_fmap fold_left]. erewrite dec_member_on; [|reflexivity|by vm_compute|reflexivity]. done.
  - apply (members_decoded jr rid vid [("error", (RPCError_text e, error_json e))]); [done|done|by repeat apply Forall_cons_2|].
    cbn [fmap list_fmap fold_left]. erewrite dec_member_on; [|reflexivity|by vm_compute|by apply error_decoded]. done.
  - by apply (members_decoded jr rid vid []).
Qed.

(** ** Calls *)

(** The parameters that clients pass: nothing, or a map of simple values. *)
Lemma clean_null : clean_text "null".
Proof. split; [by apply compacts_plain|]. eexists. apply (parses_mono 0); [done|]. apply parses_null. Qed.
Lemma compacts_value v : compacts (value_text v).
Proof. destruct v as [[]|z|s]; [by apply compacts_plain..|apply compacts_int|apply compacts_string]. Qed.
Lemma clean_any a : clean_text (any_text a).
Proof.
  split; [|destruct (parses_any a) as [v Hv]; exists v; by apply (parses_mono 1)]. apply compacts_struct. rewrite sort_members_perm. apply Forall_fmap, Forall_true. intros m. apply compacts_value.
Qed.

Section Calls.
Context {S : Type} {JE : JSONErrors}.
Implicit Types d : Dispatcher S.

(** What the helper answers to a request that is well formed. *)
Definition answer d (uid : Z) (start : time) (method params : string) : RPCError + any :=
  match allowRequest d uid start with
  | (_, false) => inl {| Code := -32001; Message := "rate limit exceeded" |}
  | (_, true) =>
    match handlers d !! method with
    | None => inl {| Code := -32601; Message := "method not found: " +:+ method |}
    | Some fn => match (fn uid (Some params) (state d)).2 with inl err => inl {| Code := -32603; Message := error_text err |} | inr a => inr a end
    end
  end.
Definition response_of (id : Z) (x : RPCError + any) : Response :=
  match x with
  | inl e => {| rs_JSONRPC := "2.0"; rs_ID := Some (int_text id); rs_Result := None; rs_Error := Some e |}
  | inr a => {| rs_JSONRPC := "2.0"; rs_ID := Some (int_text id); rs_Result := Some a; rs_Error := None |}
  end.
Definition outcome_of (x : RPCError + any) : outcome (option string) :=
  match x with
  | inl e => Err (Errorf ("helper error " +:+ itoa (Code e) +:+ ": " +:+ sanitize (Message e)))
  | inr a => Ok (Some (any_text a))
  end.
Lemma allowRequest_same d uid start : let d' := (allowRequest d uid start).1 in handlers d' = handlers d ∧ state d' = state d.
Proof. unfold allowRequest. destruct (limit d) as [l|]; [|done]. by destruct (allow l uid start). Qed.
Lemma handle_request d start now uid id method params : clean_text params → valid_utf8 method → method ≠ "" →
  (handle d start now uid (bytes_of_string (request_text id method params))).1 = response_of id (answer d uid start method params).
Proof.
  intros Hc Hv Hm. unfold handle. rewrite string_of_bytes_of_string, request_decoded by done. cbn [rq_JSONRPC rq_Method rq_ID rq_Params]. rewrite bool_decide_true, bool_decide_false by done. cbn [negb orb].
  unfold answer. pose proof (allowRequest_same d uid start) as Hs. destruct (allowRequest d uid start) as [d1 []]; cbv zeta in Hs; cbn [fst] in Hs; cbn [negb]; [|done]. destruct Hs as [-> ->].
  destruct (handlers d !! method) as [fn|]; [|done]. by destruct (fn uid (Some params) (state d)) as [s [err|a]].
Qed.
Lemma answer_code d uid start method params e : answer d uid start method params = inl e → - 2 ^ 63 <= Code e < 2 ^ 63.
Proof. unfold answer. intros He. repeat case_match; simplify_eq; cbn; lia. Qed.

Lemma call_exact clock d uid reqID method params : 0 <= reqID < 2 ^ 63 - 1 → clean_text params → valid_utf8 method → method ≠ "" →
  fits (bytes_of_string (request_text (reqID + 1) method params)) → fits (response_bytes (response_of (reqID + 1) (answer d uid (clock O).1 method params))) →
  call (Some (helper_bytes clock d uid)) reqID method params = (outcome_of (answer d uid (clock O).1 method params), reqID + 1).
Proof.
  intros Hid Hc Hv Hm Hq Hr. unfold call. rewrite i64_small by lia. f_equal. fold (open_writer []). rewrite WriteMessage_open by done. cbn [app w_out open_writer].
  set (raw := bytes_of_string (request_text (reqID + 1) method params)) in *. pose proof (handle_request d (clock O).1 (clock O).2 uid (reqID + 1) method params Hc Hv Hm) as Hresp. fold raw in Hresp.
  assert (helper_bytes clock d uid (frame raw) = frame (response_bytes (response_of (reqID + 1) (answer d uid (clock O).1 method params)))) as ->.
  { unfold helper_bytes, Serve. fold (open_writer []). pose proof (serve_go_frames clock [raw] (Datatypes.S (length (frame raw))) 0 d uid [] io_EOF []) as Hs. cbn [fmap list_fmap concat] in Hs. rewrite !app_nil_r in Hs. cbn [r_bytes].
    rewrite Hs; [|cbn; pose proof (frame_length raw); lia|by repeat constructor|by eexists|].
    - cbn [handle_all]. destruct (handle d (clock O).1 (clock O).2 uid raw) as [resp d']. cbn [fst] in Hresp. subst resp. cbn [fst fmap list_fmap concat app w_out open_writer]. by rewrite app_nil_r.
    - cbn [handle_all]. destruct (handle d (clock O).1 (clock O).2 uid raw) as [resp d']. cbn [fst] in Hresp. subst resp. by repeat constructor. }
  set (resp := response_of (reqID + 1) (answer d uid (clock O).1 method params)) in *. assert (ReadMessage (Reader (frame (response_bytes resp)) io_EOF) = Ok (response_bytes resp, Reader [] io_EOF)) as ->.
  { pose proof (ReadMessage_frame (response_bytes resp) (Reader [] io_EOF) Hr) as Hread. unfold push in Hread. cbn in Hread. by rewrite app_nil_r in Hread. }
  cbn [mbind outcome_bind]. unfold response_bytes at 1. rewrite string_of_bytes_of_string.
  rewrite (response_decoded resp (reqID + 1)); [|unfold resp, response_of; case_match; by left| |unfold resp, response_of; by case_match].
  - cbn [wrap_err mbind outcome_bind]. unfold resp. by destruct (answer d uid (clock O).1 method params).
  - intros e He. apply (answer_code d uid (clock O).1 method params). unfold resp, response_of in He. by destruct (answer _ _ _ _ _); simplify_eq/=.
Qed.
(** Messages over the limit. *)
Lemma call_refused dial reqID method params : 0 <= reqID < 2 ^ 63 - 1 → ¬ fits (bytes_of_string (request_text (reqID + 1) method params)) →
  call (Some dial) reqID method params = (Err (too_large (len (bytes_of_string (request_text (reqID + 1) method params)))), reqID + 1).
Proof. intros Hid Hq. unfold call. rewrite i64_small by lia. f_equal. unfold WriteMessage. by rewrite (proj2 (Z.ltb_lt _ _)) by (unfold fits in Hq; lia). Qed.
Lemma call_lost clock d uid reqID method params : 0 <= reqID < 2 ^ 63 - 1 → clean_text params → valid_utf8 method → method ≠ "" →
  fits (bytes_of_string (request_text (reqID + 1) method params)) → ¬ fits (response_bytes (response_of (reqID + 1) (answer d uid (clock O).1 method params))) →
  call (Some (helper_bytes clock d uid)) reqID method params = (Err (Wrapf "helper: read header: %w" io_EOF), reqID + 1).
Proof.
  intros Hid Hc Hv Hm Hq Hr. unfold call. rewrite i64_small by lia. f_equal. fold (open_writer []). rewrite WriteMessage_open by done. cbn [app w_out open_writer].
  set (raw := bytes_of_string (request_text (reqID + 1) method params)) in *. pose proof (handle_request d (clock O).1 (clock O).2 uid (reqID + 1) method params Hc Hv Hm) as Hresp. fold raw in Hresp.
  assert (helper_bytes clock d uid (frame raw) = []) as ->; [|done]. unfold helper_bytes, Serve. cbn [r_bytes serve_go].
  pose proof (ReadMessage_frame raw (Reader [] io_EOF) Hq) as Hread. unfold push in Hread. cbn [r_bytes r_final] in Hread. rewrite app_nil_r in Hread. rewrite Hread.
  destruct (handle d (clock O).1 (clock O).2 uid raw) as [resp d']. cbn [fst] in Hresp. subst resp. unfold WriteMessage. fold (response_bytes (response_of (reqID + 1) (answer d uid (clock O).1 method params))).
  by rewrite (proj2 (Z.ltb_lt _ _)) by (unfold fits in Hr; lia).
Qed.
End Calls.
End ClientFacts.

(** ** Properties *)

Import ClientFacts.

(** C7: a call of a method with a non-empty UTF-8 name is transparent as long as the
    messages are at most 4 MiB: whatever simple values it passes and whatever
    Unicode text is in them, the handler of the method gets exactly the text of
    the parameters and the client gets exactly the text of the handler's result,
    or the code and message of the error: of the handler, of a method that does
    not exist, or of the rate limit.  A larger request is refused by the client
    before anything is sent; when the response is larger, the helper closes the
    connection and the call fails with an end of file. *)
Theorem helper_call_exact (S : Type) (JE : JSONErrors) clock (d : Dispatcher S) uid reqID method (params : option any) :
  let text := match params with None => "null" | Some a => any_text a end in
  let request := bytes_of_string (request_text (reqID + 1) method text) in
  let reply := answer d uid (clock O).1 method text in
  0 <= reqID < 2 ^ 63 - 1 → valid_utf8 method → method ≠ "" →
  call (Some (helper_bytes clock d uid)) reqID method text =
  (if decide (maxMessageSize < len request) then Err (too_large (len request))
   else if decide (maxMessageSize < len (response_bytes (response_of (reqID + 1) reply))) then Err (Wrapf "helper: read header: %w" io_EOF)
   else outcome_of reply, reqID + 1).
Proof.
  intros text request reply Hid Hv Hm. assert (clean_text text) as Hc by (unfold text; destruct params; [apply clean_any|apply clean_null]).
  case_decide as H1; [by apply call_refused; [|by apply Z.nle_gt]|]. apply Z.nlt_ge in H1.
  case_decide as H2; [apply call_lost|apply call_exact]; try done; [by apply Z.nle_gt|by apply Z.nlt_ge].
Qed.

Definition echo : HandlerFunc nat := λ uid params s, (Datatypes.S s, inr [("uid", VInt uid); ("params", VString (default "" params))]).
Definition echo_dispatcher : Dispatcher nat := {| handlers := <["echo" := echo]> ∅; audit := None; limit := None; state := O |}.
Definition echo_result : string := any_text [("uid", VInt 501); ("params", VString (any_text [("b", VBool true); ("a", VInt 7)]))].
Lemma helper_call_exact_witness : call (H := demo_errors) (Some (helper_bytes (H := demo_errors) (λ _, (0, 0)) echo_dispatcher 501)) 4 "echo" (any_text [("b", VBool true); ("a", VInt 7)]) = (Ok (Some echo_result), 5).
Proof.
  rewrite (helper_call_exact nat demo_errors (λ _, (0, 0)) echo_dispatcher 501 4 "echo" (Some [("b", VBool true); ("a", VInt 7)])); [by vm_compute|lia|by vm_compute|done].
Defined.
