(* ===== verification/HelperMethods.v ===== *)
(** * The methods of the privileged helper

    [src/internal/helper/methods.go], [fsusage.go] and [net_capture.go] and
    [src/internal/bundleid]: what the helper runs as root for its callers, and the
    sessions of the traces and captures they start.  What the operating system
    answers is given by a record [OS], whose answers may depend on all that was
    run before.  A session that reaches its deadline is forgotten by a step of
    its own. *)

From Stdlib Require Import Ascii.
From S2P Require Import Prelude Arrays GoStrings GoRuntime GoPath GoText GoRunes GoJSON GoIO NetSummary HelperFrame HelperDispatch HelperClient.

Module BundleID.
Definition id_char (c : char) : bool := is_lower c || is_upper c || is_digit c || Ascii.eqb c "." || Ascii.eqb c "-" || Ascii.eqb c "_".
(** The runes of a string outside ASCII are refused, and so are their bytes. *)
Definition Valid (s : string) : bool := negb (bool_decide (s = "")) && str_forall id_char s.
End BundleID.

Module Methods.
Import Dispatch Tcpdump.

Record command := { cmd_name : string; cmd_args : list string }.

(** ** The operating system *)

Record OS := {
  os_run : list command → command → goerror + list byte;       (** a command that is run to its end *)
  os_start : list command → command → option goerror;          (** a command that is started *)
  os_random : list command → goerror + list byte;              (** sixteen random bytes *)
  os_ensureDir : list command → option goerror;                (** [ensureCaptureDir] *)
  os_createFile : list command → option goerror;               (** [precreateCaptureFile] *)
  os_discard : list command → list goerror;                    (** errors of closing and removing a file *)
  os_traceDone : list command → bool;                          (** whether a trace stops in time *)
  os_traceOutput : list command → string → list byte;          (** what a trace has written *)
  os_captureDone : list command → option (option goerror * option goerror * Z) (** [waitNetCapture] *) }.

(** ** State *)

Record netCaptureSession := { nc_output : string; nc_uid : Z }.
Record helperState := {
  fs_next : Z; fs_sessions : gmap string command;
  nc_next : Z; nc_sessions : gmap string netCaptureSession;
  log : list command }.
Definition with_fs (s : helperState) (next : Z) (ss : gmap string command) : helperState :=
  {| fs_next := next; fs_sessions := ss; nc_next := nc_next s; nc_sessions := nc_sessions s; log := log s |}.
Definition with_nc (s : helperState) (next : Z) (ss : gmap string netCaptureSession) : helperState :=
  {| fs_next := fs_next s; fs_sessions := fs_sessions s; nc_next := next; nc_sessions := ss; log := log s |}.
Definition ran (s : helperState) (c : command) : helperState :=
  {| fs_next := fs_next s; fs_sessions := fs_sessions s; nc_next := nc_next s; nc_sessions := nc_sessions s; log := log s ++ [c] |}.
Definition initial : helperState := {| fs_next := 0; fs_sessions := ∅; nc_next := 0; nc_sessions := ∅; log := [] |}.

Section Helper.
Context {UN : Unicode} {PR : Printable} {JE : JSONErrors} (os : OS).

Abbreviation result := (helperState * (goerror + any))%type.

(** ** Samplers *)

Definition allowedPowermetricsSamplers : list string := ["tasks"; "cpu_power"; "gpu_power"; "ane_power"; "network"; "disk"; "interrupts"; "thermal"].
Fixpoint samplersLoop (ss : list string) (out : list string) : option (list string) :=
  match ss with
  | [] => Some out
  | s :: ss =>
    if negb (bool_decide (s ∈ allowedPowermetricsSamplers)) then None else
    if bool_decide (s ∈ out) then samplersLoop ss out else samplersLoop ss (out ++ [s])
  end.
Definition validatePowermetricsSamplers (ss : list string) : string :=
  if len ss =? 0 then "" else
  match samplersLoop ss [] with None => "" | Some out => Join out "," end.

(** ** Traces of file system use *)

Definition defaultFSUsageDuration : Z := 30 * Second.
Definition maxFSUsageDuration : Z := Minute.
Record fsUsageStartParams := { fp_PID : Z; fp_Mode : string; fp_DurationMS : Z }.
Definition dec_fsUsageStartParams : decoder fsUsageStartParams := dec_struct [
  ("pid", on fp_PID (λ p x, {| fp_PID := x; fp_Mode := fp_Mode p; fp_DurationMS := fp_DurationMS p |}) dec_int);
  ("mode", on fp_Mode (λ p x, {| fp_PID := fp_PID p; fp_Mode := x; fp_DurationMS := fp_DurationMS p |}) dec_string);
  ("duration_ms", on fp_DurationMS (λ p x, {| fp_PID := fp_PID p; fp_Mode := fp_Mode p; fp_DurationMS := x |}) dec_int)].
Definition zero_fsUsageStartParams : fsUsageStartParams := {| fp_PID := 0; fp_Mode := ""; fp_DurationMS := 0 |}.
(** [{"handle": ...}], of both stop methods. *)
Definition dec_handle : decoder string := dec_struct [("handle", dec_string)].

Definition validFSUsageMode (mode : string) : bool := bool_decide (mode ∈ ["network"; "filesys"; "pathname"; "exec"; "diskio"]).
Definition quoted_handle (what : string) : goerror := Errorf (what +:+ " requires {" +:+ quoted "handle" +:+ ": " +:+ quoted "..." +:+ "}").

Definition fsUsage_start (p : fsUsageStartParams) (s : helperState) : result :=
  if fp_PID p <=? 0 then (s, inl (Errorf ("helper.fs_usage.start requires {" +:+ quoted "pid" +:+ ": <pid>}"))) else
  let mode := if bool_decide (fp_Mode p = "") then "filesys" else fp_Mode p in
  if negb (validFSUsageMode mode) then (s, inl (Errorf ("helper.fs_usage.start rejects invalid mode " +:+ Quote mode))) else
  let duration := if 0 <? fp_DurationMS p then i64 (fp_DurationMS p * Millisecond) else defaultFSUsageDuration in
  if (duration <=? 0) || (maxFSUsageDuration <? duration) then
    (s, inl (Errorf ("helper.fs_usage.start requires duration_ms <= " +:+ itoa (Z.quot maxFSUsageDuration Millisecond)))) else
  let next := u64 (fs_next s + 1) in
  let handle := "fsu-" +:+ itoa next in
  let c := {| cmd_name := "fs_usage"; cmd_args := ["-w"; "-f"; mode; itoa (fp_PID p)] |} in
  let err := os_start os (log s) c in
  let s := ran (with_fs s next (fs_sessions s)) c in
  match err with
  | Some err => (s, inl (Wrapf "fs_usage start: %w" err))
  | None =>
    (with_fs s next (<[handle := c]> (fs_sessions s)),
     inr [("handle", VString handle); ("pid", VInt (fp_PID p)); ("mode", VString mode); ("duration_ms", VInt (Z.quot duration Millisecond))])
  end.
Definition fsUsage_stop (handle : string) (s : helperState) : result :=
  if bool_decide (handle = "") then (s, inl (quoted_handle "helper.fs_usage.stop")) else
  match fs_sessions s !! handle with
  | None => (s, inl (Errorf ("helper.fs_usage.stop unknown handle " +:+ Quote handle)))
  | Some _ =>
    let timedOut := negb (os_traceDone os (log s)) in
    (with_fs s (fs_next s) (delete handle (fs_sessions s)),
     inr ([("handle", VString handle); ("raw_output", VString (string_of_bytes (os_traceOutput os (log s) handle))); ("stopped", VBool true)] ++
          (if timedOut then [("wait_error", VString "timeout waiting for fs_usage to stop")] else [])))
  end.
Definition fsUsage_forget (handle : string) (s : helperState) : helperState := with_fs s (fs_next s) (delete handle (fs_sessions s)).

(** ** Packet captures *)

Definition defaultNetCaptureDir : string := "/var/tmp/spectra-netcap".
Record netCaptureStartParams := { np_Interface : string; np_DurationMS : Z; np_SnapLen : Z; np_Host : string; np_Port : Z; np_Proto : string }.
Definition dec_netCaptureStartParams : decoder netCaptureStartParams := dec_struct [
  ("interface", on np_Interface (λ p x, {| np_Interface := x; np_DurationMS := np_DurationMS p; np_SnapLen := np_SnapLen p; np_Host := np_Host p; np_Port := np_Port p; np_Proto := np_Proto p |}) dec_string);
  ("duration_ms", on np_DurationMS (λ p x, {| np_Interface := np_Interface p; np_DurationMS := x; np_SnapLen := np_SnapLen p; np_Host := np_Host p; np_Port := np_Port p; np_Proto := np_Proto p |}) dec_int);
  ("snap_len", on np_SnapLen (λ p x, {| np_Interface := np_Interface p; np_DurationMS := np_DurationMS p; np_SnapLen := x; np_Host := np_Host p; np_Port := np_Port p; np_Proto := np_Proto p |}) dec_int);
  ("host", on np_Host (λ p x, {| np_Interface := np_Interface p; np_DurationMS := np_DurationMS p; np_SnapLen := np_SnapLen p; np_Host := x; np_Port := np_Port p; np_Proto := np_Proto p |}) dec_string);
  ("port", on np_Port (λ p x, {| np_Interface := np_Interface p; np_DurationMS := np_DurationMS p; np_SnapLen := np_SnapLen p; np_Host := np_Host p; np_Port := x; np_Proto := np_Proto p |}) dec_int);
  ("proto", on np_Proto (λ p x, {| np_Interface := np_Interface p; np_DurationMS := np_DurationMS p; np_SnapLen := np_SnapLen p; np_Host := np_Host p; np_Port := np_Port p; np_Proto := x |}) dec_string)].
Definition zero_netCaptureStartParams : netCaptureStartParams := {| np_Interface := ""; np_DurationMS := 0; np_SnapLen := 0; np_Host := ""; np_Port := 0; np_Proto := "" |}.

Definition capturePath (uid : Z) (handle : string) (suffix : list byte) : string :=
  defaultNetCaptureDir +:+ "/" +:+ itoa uid +:+ "/" +:+ handle +:+ "-" +:+ hex_bytes suffix +:+ ".pcap".
Definition captureOptions (p : netCaptureStartParams) (duration : Z) : Options :=
  {| Interface := np_Interface p; Output := "-"; Duration := duration; SnapLen := np_SnapLen p; Host := np_Host p; Port := np_Port p; Proto := np_Proto p |}.
Definition netCapture_start (uid : Z) (p : netCaptureStartParams) (s : helperState) : result :=
  let duration := i64 (np_DurationMS p * Millisecond) in
  let duration := if duration =? 0 then DefaultDuration else duration in
  let next := u64 (nc_next s + 1) in
  let handle := "netcap-" +:+ itoa next in
  let s := with_nc s next (nc_sessions s) in
  match os_random os (log s) with
  | inl err => (s, inl (Wrapf "generate capture name: %w" err))
  | inr suffix =>
    let output := capturePath uid handle suffix in
    match BuildTCPDumpArgs (captureOptions p duration) with
    | Err err => (s, inl (Wrapf "helper.net_capture.start: %w" err))
    | Panic => (s, inl (Errorf "")) (* it never panics *)
    | Ok args =>
      match os_ensureDir os (log s) with
      | Some err => (s, inl (Wrapf "create capture dir: %w" err))
      | None =>
        match os_createFile os (log s) with
        | Some err => (s, inl (Wrapf "create capture file: %w" err))
        | None =>
          let c := {| cmd_name := "tcpdump"; cmd_args := args |} in
          let err := os_start os (log s) c in
          let s := ran s c in
          match err with
          | Some err => (s, inl (Errorf (Join (error_text <$> Wrapf "tcpdump start: %w" err :: os_discard os (log s)) (String (z2c 10) ""))))
          | None =>
            (with_nc s next (<[handle := {| nc_output := output; nc_uid := uid |}]> (nc_sessions s)),
             inr [("handle", VString handle); ("output_path", VString output); ("duration_ms", VInt (Z.quot duration Millisecond)); ("interface", VString (np_Interface p))])
          end
        end
      end
    end
  end.
Definition netCapture_stop (uid : Z) (handle : string) (s : helperState) : result :=
  if bool_decide (handle = "") then (s, inl (quoted_handle "helper.net_capture.stop")) else
  match nc_sessions s !! handle with
  | None => (s, inl (Errorf ("helper.net_capture.stop unknown handle " +:+ Quote handle)))
  | Some sess =>
    if negb ((uid =? 0) || (uid =? nc_uid sess)) then (s, inl (Errorf ("helper.net_capture.stop handle " +:+ Quote handle +:+ " belongs to another UID"))) else
    let '(waitErr, fileErr, size, timedOut) :=
      match os_captureDone os (log s) with Some (waitErr, fileErr, size) => (waitErr, fileErr, size, false) | None => (None, None, 0, true) end in
    let s := with_nc s (nc_next s) (delete handle (nc_sessions s)) in
    match fileErr with
    | Some err => (s, inl (Wrapf "finalize capture: %w" err))
    | None =>
      (s, inr ([("handle", VString handle); ("output_path", VString (nc_output sess)); ("stopped", VBool true); ("size_bytes", VInt size)] ++
               (if timedOut : bool then [("wait_error", VString "timeout waiting for tcpdump to stop")]
                else match waitErr with Some err => [("wait_error", VString (error_text err))] | None => [] end)))
    end
  end.
Definition netCapture_forget (handle : string) (s : helperState) : helperState := with_nc s (nc_next s) (delete handle (nc_sessions s)).

(** ** Methods *)

Definition run_text (c : command) (what key : string) (more : any) (s : helperState) : result :=
  let out := os_run os (log s) c in
  match out with
  | inl err => (ran s c, inl (Wrapf what err))
  | inr out => (ran s c, inr ((key, VString (string_of_bytes out)) :: more))
  end.
Definition unmarshal_params {A} (d : decoder A) (zero : A) (params : option string) : A * option goerror := unmarshal d zero (default "" params).

Definition method_health : HandlerFunc helperState := λ _ _ s, (s, inr [("ok", VBool true); ("helper", VBool true)]).
Record powermetricsParams := { pp_DurationMS : Z; pp_Samplers : list string }.
Definition dec_powermetricsParams : decoder powermetricsParams := dec_struct [
  ("duration_ms", on pp_DurationMS (λ p x, {| pp_DurationMS := x; pp_Samplers := pp_Samplers p |}) dec_int);
  ("samplers", on pp_Samplers (λ p x, {| pp_DurationMS := pp_DurationMS p; pp_Samplers := x |}) dec_strings)].
Definition method_powermetrics : HandlerFunc helperState := λ _ params s,
  let p := (unmarshal_params dec_powermetricsParams {| pp_DurationMS := 0; pp_Samplers := [] |} params).1 in
  let durationMS := if pp_DurationMS p <=? 0 then 500 else pp_DurationMS p in
  let samplers := validatePowermetricsSamplers (pp_Samplers p) in
  let samplers := if bool_decide (samplers = "") then "cpu_power,gpu_power,network,disk" else samplers in
  run_text {| cmd_name := "powermetrics"; cmd_args := ["--samplers"; samplers; "-n"; "1"; "-i"; itoa durationMS; "--format"; "plist"] |} "powermetrics: %w" "raw_plist" [] s.
Definition method_process_tree : HandlerFunc helperState := λ _ _ s,
  run_text {| cmd_name := "ps"; cmd_args := ["-axwwo"; "pid=,ppid=,rss=,vsz=,uid=,user=,command="] |} "ps: %w" "raw_ps" [] s.
Definition method_firewall_rules : HandlerFunc helperState := λ _ _ s,
  run_text {| cmd_name := "pfctl"; cmd_args := ["-s"; "rules"] |} "pfctl rules: %w" "raw_rules" [] s.
Definition method_fs_usage_start : HandlerFunc helperState := λ _ params s,
  match unmarshal_params dec_fsUsageStartParams zero_fsUsageStartParams params with
  | (_, Some err) => (s, inl (Wrapf "helper.fs_usage.start invalid params: %w" err))
  | (p, None) => fsUsage_start p s
  end.
Definition method_fs_usage_stop : HandlerFunc helperState := λ _ params s,
  match unmarshal_params dec_handle "" params with
  | (_, Some err) => (s, inl (Wrapf "helper.fs_usage.stop invalid params: %w" err))
  | (handle, None) => fsUsage_stop handle s
  end.
Definition method_net_capture_start : HandlerFunc helperState := λ uid params s,
  match unmarshal_params dec_netCaptureStartParams zero_netCaptureStartParams params with
  | (_, Some err) => (s, inl (Wrapf "helper.net_capture.start invalid params: %w" err))
  | (p, None) => netCapture_start uid p s
  end.
Definition method_net_capture_stop : HandlerFunc helperState := λ uid params s,
  match unmarshal_params dec_handle "" params with
  | (_, Some err) => (s, inl (Wrapf "helper.net_capture.stop invalid params: %w" err))
  | (handle, None) => netCapture_stop uid handle s
  end.
Definition tccDB : string := "/Library/Application Support/com.apple.TCC/TCC.db".
Definition tcc_query (bundleID : string) : string := "SELECT service, auth_value FROM access WHERE client=" +:+ Quote bundleID.
Definition dec_bundleID : decoder string := dec_struct [("bundle_id", dec_string)].
Definition method_tcc_query : HandlerFunc helperState := λ _ params s,
  let '(bundleID, err) := unmarshal_params dec_bundleID "" params in
  if bool_decide (err ≠ None) || bool_decide (bundleID = "") then
    (s, inl (Errorf ("helper.tcc.system.query requires {" +:+ quoted "bundle_id" +:+ ":" +:+ quoted "..." +:+ "}"))) else
  if negb (BundleID.Valid bundleID) then (s, inl (Errorf ("helper.tcc.system.query rejects invalid bundle_id " +:+ Quote bundleID))) else
  run_text {| cmd_name := "sqlite3"; cmd_args := [tccDB; tcc_query bundleID] |} "tcc query: %w (is Full Disk Access granted to the helper?)" "raw_rows" [("bundle_id", VString bundleID)] s.

Definition methods : list (string * HandlerFunc helperState) := [
  ("helper.health", method_health); ("helper.powermetrics.sample", method_powermetrics); ("helper.process.tree", method_process_tree);
  ("helper.firewall.rules", method_firewall_rules); ("helper.fs_usage.start", method_fs_usage_start); ("helper.fs_usage.stop", method_fs_usage_stop);
  ("helper.net_capture.start", method_net_capture_start); ("helper.net_capture.stop", method_net_capture_stop); ("helper.tcc.system.query", method_tcc_query)].
Definition RegisterAll (d : Dispatcher helperState) : outcome (Dispatcher helperState) :=
  for_each methods (λ d m, Register d m.1 m.2) d.
End Helper.
End Methods.

Module MethodsFacts.
Export Methods ClientFacts Tcpdump TcpdumpFacts.

(** ** What may be run *)

Section Permitted.
Context {UN : Unicode}.

(** The commands a caller can make the helper run: fixed programs, with arguments
    that are fixed, numbers, taken from a list, or checked. *)
Inductive permitted : command → Prop :=
| permit_powermetrics samplers ms : samplers ≠ [] → Forall (λ x, x ∈ allowedPowermetricsSamplers) samplers → 0 < ms →
  permitted {| cmd_name := "powermetrics"; cmd_args := ["--samplers"; Join samplers ","; "-n"; "1"; "-i"; itoa ms; "--format"; "plist"] |}
| permit_ps : permitted {| cmd_name := "ps"; cmd_args := ["-axwwo"; "pid=,ppid=,rss=,vsz=,uid=,user=,command="] |}
| permit_pfctl : permitted {| cmd_name := "pfctl"; cmd_args := ["-s"; "rules"] |}
| permit_fs_usage mode pid : mode ∈ ["network"; "filesys"; "pathname"; "exec"; "diskio"] → 0 < pid →
  permitted {| cmd_name := "fs_usage"; cmd_args := ["-w"; "-f"; mode; itoa pid] |}
| permit_tcpdump o : valid o → Output o = "-" → permitted {| cmd_name := "tcpdump"; cmd_args := argv o |}
| permit_sqlite id : id ≠ "" → str_forall BundleID.id_char id = true →
  permitted {| cmd_name := "sqlite3"; cmd_args := [tccDB; "SELECT service, auth_value FROM access WHERE client=" +:+ quoted id] |}.

Context {PR : Printable} {JE : JSONErrors} (os : OS).

(** A step that runs at most one command, which is permitted. *)
Definition confined (s s' : helperState) : Prop := log s' = log s ∨ ∃ c, permitted c ∧ log s' = log s ++ [c].

Lemma samplersLoop_spec ss out res : samplersLoop ss out = Some res → Forall (λ x, x ∈ allowedPowermetricsSamplers) out →
  Forall (λ x, x ∈ allowedPowermetricsSamplers) res ∧ (out ≠ [] ∨ ss ≠ [] → res ≠ []).
Proof.
  revert out. induction ss as [|x ss IH]; intros out; cbn; [intros [= ->]; split; [done|]; by intros [?|?]|]. case_bool_decide as Hx; cbn [negb]; [|done]. intros Hl Ho.
  case_bool_decide as Hin.
  - destruct (IH out Hl Ho) as [H1 H2]. split; [done|]. intros _. apply H2. left. intros ->. by apply not_elem_of_nil in Hin.
  - destruct (IH (out ++ [x]) Hl) as [H1 H2]; [apply Forall_app_2; [done|]; apply Forall_cons_2; [done|apply Forall_nil_2]|]. split; [done|]. intros _. apply H2. left. by destruct out.
Qed.
Lemma validate_spec ss : validatePowermetricsSamplers ss = "" ∨ ∃ res, res ≠ [] ∧ Forall (λ x, x ∈ allowedPowermetricsSamplers) res ∧ validatePowermetricsSamplers ss = Join res ",".
Proof.
  unfold validatePowermetricsSamplers. destruct ss as [|x ss]; [by left|]. cbn [len]. rewrite (proj2 (Z.eqb_neq _ _)) by (rewrite len_cons; pose proof (len_nonneg ss); lia).
  destruct (samplersLoop (x :: ss) []) as [res|] eqn:E; [|by left]. right. destruct (samplersLoop_spec _ _ _ E) as [H1 H2]; [done|]. exists res. split_and!; [|done|done]. apply H2. by right.
Qed.

Lemma quote_go_id fuel s : str_forall BundleID.id_char s = true → (String.length s <= fuel)%nat → quote_go fuel s = s.
Proof.
  revert fuel. induction s as [|c s IH]; intros [|fuel] Hs Hf; [done|done|cbn in Hf; lia|]. cbn [str_forall] in Hs. apply andb_true_iff in Hs as [Hc Hs]. cbn [quote_go].
  assert (DecodeRune (String c s) = (c2z c, 1%nat, s) ∧ (c2z c =? RuneError) = false ∧ escapeRune (c2z c) = String c "") as (-> & -> & ->); [|cbn [andb]; rewrite IH by (done || (cbn in Hf; lia)); by rewrite andb_false_r].
  clear -Hc. destruct c as [[] [] [] [] [] [] [] []]; cbn in Hc; try discriminate Hc; by repeat split.
Qed.
Lemma Quote_id s : str_forall BundleID.id_char s = true → Quote s = quoted s.
Proof. intros Hs. unfold Quote. by rewrite quote_go_id. Qed.

Lemma run_text_confined c what key more s : permitted c → confined s (run_text os c what key more s).1.
Proof. intros Hp. right. exists c. split; [done|]. unfold run_text. by destruct (os_run os (log s) c). Qed.
Lemma powermetrics_confined uid params s : confined s (method_powermetrics os uid params s).1.
Proof.
  apply run_text_confined. set (p := (unmarshal_params _ _ params).1). set (ms := if pp_DurationMS p <=? 0 then 500 else pp_DurationMS p). assert (0 < ms) as Hms by (unfold ms; destruct (Z.leb_spec (pp_DurationMS p) 0); lia).
  destruct (validate_spec (pp_Samplers p)) as [-> |(res & Hne & HF & ->)].
  - apply (permit_powermetrics ["cpu_power"; "gpu_power"; "network"; "disk"]); [done| |done]. apply (bool_decide_unpack _). by vm_compute.
  - assert (Join res "," ≠ "") as Hj.
    { destruct res as [|x res]; [done|]. apply Forall_inv in HF. assert (x ≠ "") as Hx by (intros ->; revert HF; apply (bool_decide_unpack _); by vm_compute). destruct res; [done|]. rewrite Join_cons by done. by destruct x. }
    rewrite bool_decide_false by done. by apply permit_powermetrics.
Qed.
Lemma fs_start_confined p s : confined s (fsUsage_start os p s).1.
Proof.
  unfold fsUsage_start. destruct (Z.leb_spec (fp_PID p) 0) as [|Hp]; [by left|]. cbv zeta. set (mode := if bool_decide (fp_Mode p = "") then "filesys" else fp_Mode p).
  unfold validFSUsageMode. case_bool_decide as Hm; cbn [negb]; [|by left]. destruct (_ || _); [by left|]. right.
  exists {| cmd_name := "fs_usage"; cmd_args := ["-w"; "-f"; mode; itoa (fp_PID p)] |}. split; [by apply permit_fs_usage|]. by destruct (os_start os (log s) _).
Qed.
Lemma fs_stop_confined h s : confined s (fsUsage_stop os h s).1.
Proof. unfold fsUsage_stop. left. case_bool_decide; [done|]. by destruct (fs_sessions s !! h). Qed.
Lemma nc_start_confined uid p s : confined s (netCapture_start os uid p s).1.
Proof.
  unfold netCapture_start. cbv zeta. set (dur := if i64 (np_DurationMS p * Millisecond) =? 0 then _ else _). cbn [log with_nc]. destruct (os_random os (log s)) as [e|suffix]; [by left|].
  destruct (BuildTCPDumpArgs (captureOptions p dur)) as [args|e|] eqn:E; [|by left..]. destruct (os_ensureDir os (log s)); [by left|]. destruct (os_createFile os (log s)); [by left|].
  right. exists {| cmd_name := "tcpdump"; cmd_args := args |}. split; [|by destruct (os_start os (log s) _)]. apply BuildTCPDumpArgs_ok in E as [Hv ->]. by apply permit_tcpdump.
Qed.
Lemma nc_stop_confined uid h s : confined s (netCapture_stop os uid h s).1.
Proof.
  unfold netCapture_stop. left. case_bool_decide; [done|]. destruct (nc_sessions s !! h) as [sess|]; [|done]. destruct (negb _); [done|].
  destruct (os_captureDone os (log s)) as [[[w [f|]] size]|]; done.
Qed.
Lemma tcc_confined uid params s : confined s (method_tcc_query os uid params s).1.
Proof.
  unfold method_tcc_query. destruct (unmarshal_params dec_bundleID "" params) as [id err]. destruct (_ || _); [by left|]. unfold BundleID.Valid. case_bool_decide as Hid; cbn [negb andb]; [by left|].
  destruct (str_forall BundleID.id_char id) eqn:E; cbn [negb]; [|by left]. apply run_text_confined. unfold tcc_query. rewrite Quote_id by done. by apply permit_sqlite.
Qed.
Lemma methods_confined name fn uid params s : (name, fn) ∈ methods os → confined s (fn uid params s).1.
Proof.
  unfold methods. intros Hin. repeat apply elem_of_cons in Hin as [Hin|Hin]; [injection Hin as -> ->..|by apply not_elem_of_nil in Hin].
  - by left.
  - apply powermetrics_confined.
  - apply run_text_confined, permit_ps.
  - apply run_text_confined, permit_pfctl.
  - unfold method_fs_usage_start. destruct (unmarshal_params _ _ params) as [p [e|]]; [by left|]. apply fs_start_confined.
  - unfold method_fs_usage_stop. destruct (unmarshal_params _ _ params) as [p [e|]]; [by left|]. apply fs_stop_confined.
  - unfold method_net_capture_start. destruct (unmarshal_params _ _ params) as [p [e|]]; [by left|]. apply nc_start_confined.
  - unfold method_net_capture_stop. destruct (unmarshal_params _ _ params) as [p [e|]]; [by left|]. apply nc_stop_confined.
  - apply tcc_confined.
Qed.
End Permitted.

(** ** The helper at work *)

Section System.
Context {UN : Unicode} {PR : Printable} {JE : JSONErrors} (os : OS).
Implicit Types d : Dispatcher helperState.

Definition registered d : Prop := ∀ name fn, handlers d !! name = Some fn ↔ (name, fn) ∈ methods os.

Lemma Register_all ms d : NoDup ms.*1 → (∀ name, name ∈ ms.*1 → handlers d !! name = None) →
  ∃ d', for_each ms (λ d m, Register d m.1 m.2) d = Ok d' ∧ audit d' = audit d ∧ limit d' = limit d ∧ state d' = state d ∧
    ∀ name fn, handlers d' !! name = Some fn ↔ (name, fn) ∈ ms ∨ handlers d !! name = Some fn.
Proof.
  revert d. induction ms as [|[n f] ms IH]; intros d Hn Hfresh; cbn [for_each].
  { exists d. split_and!; [done..|]. intros name fn. rewrite elem_of_nil. tauto. }
  cbn in Hn. apply NoDup_cons in Hn as [Hnin Hn]. cbn [fst snd].
  assert (Register d n f = Ok {| handlers := <[n := f]> (handlers d); audit := audit d; limit := limit d; state := state d |}) as -> by (unfold Register; by rewrite (Hfresh n) by (by left)). cbn [mbind outcome_bind].
  destruct (IH {| handlers := <[n := f]> (handlers d); audit := audit d; limit := limit d; state := state d |} Hn) as (d' & -> & Ha & Hl & Hs & Hh).
  { intros name Hin. cbn [handlers]. rewrite lookup_insert_ne by (intros ->; done). apply Hfresh. by right. }
  exists d'. split_and!; [done..|]. intros name fn. rewrite Hh. cbn [handlers]. rewrite elem_of_cons. destruct (decide (n = name)) as [->|Hne].
  - rewrite lookup_insert_eq, (Hfresh name) by (by left). split; [intros [Hin|[= ->]]; [exfalso; apply Hnin; by apply (list_elem_of_fmap_2 fst) in Hin|by left; left]|].
    intros [[[= ->]|Hin]|[=]]; [by right|by left].
  - rewrite lookup_insert_ne by done. split; [intros [?|?]; [by left; right|by right]|]. intros [[[= -> ->]|?]|?]; [done|by left|by right].
Qed.
(** The dispatcher of the program: every method is registered once. *)
Lemma RegisterAll_registered d : handlers d = ∅ → ∃ d', RegisterAll os d = Ok d' ∧ audit d' = audit d ∧ limit d' = limit d ∧ state d' = state d ∧ registered d'.
Proof.
  intros Hd. destruct (Register_all (methods os) d) as (d' & Hr & Ha & Hl & Hs & Hh).
  - apply (bool_decide_unpack _). by vm_compute.
  - intros name _. by rewrite Hd, lookup_empty.
  - exists d'. split_and!; [done..|]. intros name fn. rewrite Hh, Hd, lookup_empty. naive_solver.
Qed.

(** Requests of callers, and the deadlines of traces and captures. *)
Inductive event := Requested (uid : Z) (start now : time) (raw : list byte) | TraceDeadline (handle : string) | CaptureDeadline (handle : string).
Definition react d (e : event) : Dispatcher helperState :=
  match e with
  | Requested uid start now raw => (handle d start now uid raw).2
  | TraceDeadline h => with_state d (fsUsage_forget h (state d))
  | CaptureDeadline h => with_state d (netCapture_forget h (state d))
  end.
Definition reacts d (es : list event) : Dispatcher helperState := fold_left react es d.

(** What a request can do to the state. *)
Lemma handle_state d start now uid raw : handlers (handle d start now uid raw).2 = handlers d ∧
  (state (handle d start now uid raw).2 = state d ∨ ∃ method fn params, handlers d !! method = Some fn ∧ state (handle d start now uid raw).2 = (fn uid params (state d)).1).
Proof.
  assert (∀ d0, handlers d0 = handlers d → ∀ method ok msg, handlers (auditRequest d0 start now uid method ok msg) = handlers d ∧ state (auditRequest d0 start now uid method ok msg) = state d0) as Hlog.
  { intros d0 Hh method ok msg. destruct (auditRequest_spec d0 start now uid method ok msg) as (H1 & H2 & _). cbv zeta in *. by rewrite H1, H2. }
  unfold handle. destruct (unmarshal _ _ _) as [req [e|]]; [cbn [snd]; destruct (Hlog d eq_refl "" false "parse error") as [-> ->]; auto|].
  destruct (_ || _); [cbn [snd]; edestruct (Hlog d eq_refl) as [-> ->]; auto|]. pose proof (allowRequest_same d uid start) as Hs. destruct (allowRequest d uid start) as [d1 []]; cbv zeta in Hs; cbn [fst] in Hs; cbn [negb]; destruct Hs as [Hh Hs].
  2: { cbn [snd]. edestruct (Hlog d1 Hh) as [-> ->]. rewrite Hs. auto. }
  rewrite Hh. destruct (handlers d !! rq_Method req) as [fn|] eqn:E; [|cbn [snd]; edestruct (Hlog d1 Hh) as [-> ->]; rewrite Hs; auto].
  rewrite Hs. destruct (fn uid (rq_Params req) (state d)) as [s [err|a]] eqn:Ef; cbn [snd]; edestruct (Hlog (with_state d1 s) Hh) as [-> ->]; (split; [done|]); right; exists (rq_Method req), fn, (rq_Params req); by rewrite Ef.
Qed.
Lemma react_registered d e : registered d → registered (react d e).
Proof. intros Hr. destruct e as [uid start now raw|h|h]; [|done..]. intros name fn. cbn [react]. rewrite (proj1 (handle_state d start now uid raw)). apply Hr. Qed.
Definition is_request (e : event) : Z := match e with Requested _ _ _ _ => 1 | _ => 0 end.
Lemma reacts_confined d es : registered d →
  ∃ cs, log (state (reacts d es)) = log (state d) ++ cs ∧ Forall permitted cs ∧ len cs <= fold_right (λ e n, is_request e + n) 0 es.
Proof.
  revert d. induction es as [|e es IH]; intros d Hr; cbn [reacts fold_left fold_right]; [exists []; by rewrite app_nil_r|].
  destruct (IH (react d e) (react_registered d e Hr)) as (cs & Hl & HF & Hn). unfold reacts in Hl.
  assert (confined (state d) (state (react d e)) ∧ (is_request e = 0 → log (state (react d e)) = log (state d))) as [Hc H0].
  { destruct e as [uid start now raw|h|h]; [|by split; [left|]..]. split; [|done]. destruct (handle_state d start now uid raw) as [_ [Hs|(m & fn & ps & Hm & Hs)]]; cbn [react]; rewrite Hs; [by left|].
    apply Hr in Hm. by eapply methods_confined. }
  assert (0 <= is_request e <= 1) as Hb by (destruct e; cbn; lia).
  destruct Hc as [Hc|(c & Hp & Hc)].
  - exists cs. rewrite Hl, Hc. split_and!; [done|done|lia].
  - exists (c :: cs). rewrite Hl, Hc, <-app_assoc. split_and!; [done|by constructor|]. rewrite len_cons. destruct (decide (is_request e = 0)) as [E|E]; [|lia]. exfalso. specialize (H0 E). rewrite Hc in H0.
    apply (f_equal length) in H0. rewrite length_app in H0. cbn in H0. lia.
Qed.

(** ** Captures belong to their callers *)

Definition capture_handle (n : Z) : string := "netcap-" +:+ itoa n.
(** What a request of a caller can do to the captures. *)
Inductive capture_effect (uid : Z) (s s' : helperState) : Prop :=
| captures_same : nc_next s' = nc_next s → nc_sessions s' = nc_sessions s → capture_effect uid s s'
| capture_failed : nc_next s' = u64 (nc_next s + 1) → nc_sessions s' = nc_sessions s → capture_effect uid s s'
| capture_started suffix : nc_next s' = u64 (nc_next s + 1) →
  nc_sessions s' = <[capture_handle (nc_next s') := {| nc_output := capturePath uid (capture_handle (nc_next s')) suffix; nc_uid := uid |}]> (nc_sessions s) → capture_effect uid s s'
| capture_stopped h sess : nc_next s' = nc_next s → nc_sessions s !! h = Some sess → uid = 0 ∨ uid = nc_uid sess → nc_sessions s' = delete h (nc_sessions s) → capture_effect uid s s'.

Lemma run_text_captures uid c what key more s : capture_effect uid s (run_text os c what key more s).1.
Proof. unfold run_text. by destruct (os_run os (log s) c); apply captures_same. Qed.
Lemma start_captures uid p s : capture_effect uid s (netCapture_start os uid p s).1.
Proof.
  unfold netCapture_start. cbv zeta. set (dur := if i64 (np_DurationMS p * Millisecond) =? 0 then _ else _). cbn [log with_nc].
  destruct (os_random os (log s)) as [e|suffix]; [by apply capture_failed|]. destruct (BuildTCPDumpArgs (captureOptions p dur)) as [args|e|]; [|by apply capture_failed..].
  destruct (os_ensureDir os (log s)); [by apply capture_failed|]. destruct (os_createFile os (log s)); [by apply capture_failed|]. destruct (os_start os (log s) _); [by apply capture_failed|]. by eapply capture_started.
Qed.
Lemma stop_captures uid h s : capture_effect uid s (netCapture_stop os uid h s).1.
Proof.
  unfold netCapture_stop. case_bool_decide; [by apply captures_same|]. destruct (nc_sessions s !! h) as [sess|] eqn:E; [|by apply captures_same].
  destruct ((uid =? 0) || (uid =? nc_uid sess)) eqn:Eu; cbn [negb]; [|by apply captures_same]. assert (uid = 0 ∨ uid = nc_uid sess) as Hu by lia.
  destruct (os_captureDone os (log s)) as [[[w [f|]] size]|]; by eapply capture_stopped.
Qed.
Lemma methods_captures name fn uid params s : (name, fn) ∈ methods os → capture_effect uid s (fn uid params s).1.
Proof.
  unfold methods. intros Hin. repeat apply elem_of_cons in Hin as [Hin|Hin]; [injection Hin as -> ->..|by apply not_elem_of_nil in Hin].
  - by apply captures_same.
  - apply run_text_captures.
  - apply run_text_captures.
  - apply run_text_captures.
  - unfold method_fs_usage_start. destruct (unmarshal_params _ _ params) as [p [e|]]; [by apply captures_same|]. unfold fsUsage_start. repeat case_match; by apply captures_same.
  - unfold method_fs_usage_stop. destruct (unmarshal_params _ _ params) as [p [e|]]; [by apply captures_same|]. unfold fsUsage_stop. repeat case_match; by apply captures_same.
  - unfold method_net_capture_start. destruct (unmarshal_params _ _ params) as [p [e|]]; [by apply captures_same|]. apply start_captures.
  - unfold method_net_capture_stop. destruct (unmarshal_params _ _ params) as [p [e|]]; [by apply captures_same|]. apply stop_captures.
  - unfold method_tcc_query. destruct (unmarshal_params _ _ params) as [id e]. destruct (_ || _); [by apply captures_same|]. destruct (negb _); [by apply captures_same|]. apply run_text_captures.
Qed.

(** The captures after [n] events: their handles are distinct numbers, and their
    files are in the directories of their callers. *)
Record captures_ok (n : Z) (s : helperState) : Prop := {
  co_next : 0 <= nc_next s <= n;
  co_session h sess : nc_sessions s !! h = Some sess → ∃ k suffix, 0 < k <= nc_next s ∧ h = capture_handle k ∧ nc_output sess = capturePath (nc_uid sess) h suffix }.
Lemma itoa_inj a b : 0 <= a → 0 <= b → itoa a = itoa b → a = b.
Proof. intros Ha Hb E. destruct (itoa_digits a Ha) as (_ & _ & H1), (itoa_digits b Hb) as (_ & _ & H2). rewrite E in H1. congruence. Qed.
Lemma capture_handle_inj a b : 0 <= a → 0 <= b → capture_handle a = capture_handle b → a = b.
Proof. intros Ha Hb E. apply itoa_inj; [done|done|]. unfold capture_handle in E. by simplify_eq. Qed.
Lemma react_captures d e : registered d → (∃ uid, (∃ start now raw, e = Requested uid start now raw) ∧ capture_effect uid (state d) (state (react d e))) ∨
  (∃ h, e = TraceDeadline h ∧ nc_next (state (react d e)) = nc_next (state d) ∧ nc_sessions (state (react d e)) = nc_sessions (state d)) ∨
  (∃ h, e = CaptureDeadline h ∧ nc_next (state (react d e)) = nc_next (state d) ∧ nc_sessions (state (react d e)) = delete h (nc_sessions (state d))).
Proof.
  intros Hr. destruct e as [uid start now raw|h|h]; [left|right; left; by exists h|right; right; by exists h]. exists uid. split; [by eexists _, _, _|].
  destruct (handle_state d start now uid raw) as [_ [Hs|(m & fn & ps & Hm & Hs)]]; cbn [react]; rewrite Hs; [by apply captures_same|]. apply Hr in Hm. by eapply methods_captures.
Qed.
Lemma captures_ok_step n d e : registered d → captures_ok n (state d) → n + 1 < 2 ^ 64 → captures_ok (n + 1) (state (react d e)).
Proof.
  intros Hr [Hn Hs] Hb. destruct (react_captures d e Hr) as [(uid & _ & Heff)|[(h & _ & H1 & H2)|(h & _ & H1 & H2)]].
  - assert (u64 (nc_next (state d) + 1) = nc_next (state d) + 1) as Hu by (apply wrap_small; lia).
    destruct Heff as [H1 H2|H1 H2|suffix H1 H2|h sess H1 Hin Ho H2]; rewrite ?Hu in H1; split; try lia; intros h' sess' Hl; rewrite H2 in Hl.
    + destruct (Hs h' sess' Hl) as (k & sf & ? & ? & ?). exists k, sf. split_and!; [lia..|done|done].
    + destruct (Hs h' sess' Hl) as (k & sf & ? & ? & ?). exists k, sf. split_and!; [lia..|done|done].
    + destruct (decide (h' = capture_handle (nc_next (state (react d e))))) as [->|Hne].
      * rewrite lookup_insert_eq in Hl. injection Hl as <-. eexists _, suffix. split; [|by split]. lia.
      * rewrite lookup_insert_ne in Hl by done. destruct (Hs h' sess' Hl) as (k & sf & ? & ? & ?). exists k, sf. split_and!; [lia..|done|done].
    + apply lookup_delete_Some in Hl as [_ Hl]. destruct (Hs h' sess' Hl) as (k & sf & ? & ? & ?). exists k, sf. split_and!; [lia..|done|done].
  - split; [lia|]. intros h' sess' Hl. rewrite H2 in Hl. rewrite H1. by apply Hs.
  - split; [lia|]. intros h' sess' Hl. rewrite H2 in Hl. apply lookup_delete_Some in Hl as [_ Hl]. rewrite H1. by apply Hs.
Qed.
Lemma reacts_snoc d es e : reacts d (es ++ [e]) = react (reacts d es) e.
Proof. unfold reacts. by rewrite fold_left_app. Qed.
Lemma reacts_registered d es : registered d → registered (reacts d es).
Proof. intros Hr. induction es as [|e es IH] using rev_ind; [done|]. rewrite reacts_snoc. by apply react_registered. Qed.
Lemma captures_ok_reacts d es : registered d → state d = initial → len es < 2 ^ 64 → captures_ok (len es) (state (reacts d es)).
Proof.
  intros Hr H0. induction es as [|e es IH] using rev_ind; intros Hl; [cbn [reacts fold_left]; rewrite H0, len_nil; split; [cbn [initial nc_next]; lia|done]|]. rewrite len_app, len_cons, len_nil in *. rewrite reacts_snoc. replace (len es + (1 + 0)) with (len es + 1) by lia.
  apply captures_ok_step; [by apply reacts_registered|apply IH; lia|lia].
Qed.
(** An event that is no matter of the owner of a capture. *)
Definition foreign (h : string) (sess : netCaptureSession) (e : event) : Prop :=
  match e with Requested uid _ _ _ => uid ≠ 0 ∧ uid ≠ nc_uid sess | CaptureDeadline h' => h' ≠ h | TraceDeadline _ => True end.
Lemma capture_kept n d e h sess : registered d → captures_ok n (state d) → n + 1 < 2 ^ 64 → foreign h sess e → nc_sessions (state d) !! h = Some sess → nc_sessions (state (react d e)) !! h = Some sess.
Proof.
  intros Hr [Hn Hs] Hb Hf Hl. destruct (react_captures d e Hr) as [(uid & (? & ? & ? & ->) & Heff)|[(h' & -> & H1 & H2)|(h' & -> & H1 & H2)]]; [|by rewrite H2|rewrite H2; by rewrite lookup_delete_ne].
  destruct Hf as [Hu0 Hu]. destruct Heff as [H1 H2|H1 H2|suffix H1 H2|h' sess' H1 Hin Ho H2]; rewrite H2; [done|done| |].
  - rewrite wrap_small in H1 by lia. destruct (Hs h sess Hl) as (k & sf & Hk & -> & _). rewrite lookup_insert_ne; [done|]. intros E. apply capture_handle_inj in E; lia.
  - rewrite lookup_delete_ne; [done|]. intros ->. destruct Ho as [-> | ->]; [done|]. congruence.
Qed.
Lemma captures_kept d es es' h sess : registered d → state d = initial → len (es ++ es') < 2 ^ 64 → nc_sessions (state (reacts d es)) !! h = Some sess → Forall (foreign h sess) es' →
  nc_sessions (state (reacts d (es ++ es'))) !! h = Some sess.
Proof.
  intros Hr H0 Hl Hin HF. induction es' as [|e es' IH] using rev_ind; [by rewrite app_nil_r|]. apply Forall_app in HF as [HF He]. apply Forall_inv in He. rewrite app_assoc in *. rewrite len_app, len_cons, len_nil in Hl.
  rewrite reacts_snoc. apply (capture_kept (len (es ++ es'))); [by apply reacts_registered|apply captures_ok_reacts; [done|done|lia]|lia|done|]. apply IH; [lia|done].
Qed.

(** ** Traces *)

Definition stop_params (h : string) : string := any_text [("handle", VString h)].
Lemma stop_params_decoded h : valid_utf8 h → unmarshal_params dec_handle "" (Some (stop_params h)) = (h, None).
Proof.
  intros Hv. apply (unmarshal_text _ _ _ 1 _ (JObject [("handle", (string_text h, JString h))])); [|done|reflexivity]. apply (parses_object 0 [("handle", (string_text h, JString h))]); [done|].
  apply Forall_cons_2; [|apply Forall_nil_2]. split; [by vm_compute|]. by apply parses_utf8.
Qed.
(** What the stop of a trace returns. *)
Definition trace_result (s : helperState) (h : string) : any :=
  [("handle", VString h); ("raw_output", VString (string_of_bytes (os_traceOutput os (log s) h))); ("stopped", VBool true)] ++
  (if os_traceDone os (log s) then [] else [("wait_error", VString "timeout waiting for fs_usage to stop")]).
Lemma stop_trace uid s h c : valid_utf8 h → h ≠ "" → fs_sessions s !! h = Some c →
  method_fs_usage_stop os uid (Some (stop_params h)) s = (with_fs s (fs_next s) (delete h (fs_sessions s)), inr (trace_result s h)).
Proof.
  intros Hv Hne Hs. unfold method_fs_usage_stop. rewrite stop_params_decoded by done. unfold fsUsage_stop. rewrite bool_decide_false, Hs by done. unfold trace_result. by destruct (os_traceDone os (log s)).
Qed.
Lemma any_text_length m a : m ∈ a → (String.length (value_text m.2) <= String.length (any_text a))%nat.
Proof.
  intros Hm. unfold any_text, map_text. apply (struct_text_length (m.1, value_text m.2)). rewrite sort_members_perm. by apply (list_elem_of_fmap_2 (λ m, (m.1, value_text m.2))).
Qed.
Lemma trace_response_length id s h : len (os_traceOutput os (log s) h) <= len (response_bytes (response_of id (inr (trace_result s h)))).
Proof.
  set (out := os_traceOutput os (log s) h). assert (∀ t, len (bytes_of_string t) = Z.of_nat (String.length t)) as Hlen.
  { intros t. unfold len, bytes_of_string, String.list_byte_of_string. f_equal. rewrite List.length_map. induction t as [|c t IH]; [done|]. cbn. by rewrite IH. }
  unfold response_bytes. rewrite Hlen. rewrite <-(bytes_of_string_of_bytes out), Hlen. apply inj_le. etrans; [apply string_text_length|].
  change (string_text (string_of_bytes out)) with (value_text ("raw_output", VString (string_of_bytes out)).2). etrans; [apply (any_text_length _ (trace_result s h)); apply elem_of_app; left; set_solver|].
  unfold Response_text. cbn [response_of rs_Result rs_Error rs_JSONRPC rs_ID]. apply (struct_text_length ("result", any_text (trace_result s h))). set_solver.
Qed.
Lemma handle_request_state d start now uid id method params fn : clean_text params → valid_utf8 method → method ≠ "" → (allowRequest d uid start).2 = true → handlers d !! method = Some fn →
  state (handle d start now uid (bytes_of_string (request_text id method params))).2 = (fn uid (Some params) (state d)).1.
Proof.
  intros Hc Hv Hm Ha Hf. unfold handle. rewrite string_of_bytes_of_string, request_decoded by done. cbn [rq_JSONRPC rq_Method rq_ID rq_Params]. rewrite bool_decide_true, bool_decide_false by done. cbn [negb orb].
  pose proof (allowRequest_same d uid start) as Hs. destruct (allowRequest d uid start) as [d1 ok]. cbn [snd] in Ha. subst ok. cbv zeta in Hs. cbn [fst] in Hs. destruct Hs as [Hh Hst]. cbn [negb]. rewrite Hh, Hf, Hst.
  destruct (fn uid (Some params) (state d)) as [s [err|a]]; cbn [snd fst]; by apply auditRequest_spec.
Qed.
Lemma answer_result d uid start method params fn s a : (allowRequest d uid start).2 = true → handlers d !! method = Some fn → fn uid (Some params) (state d) = (s, inr a) → answer d uid start method params = inr a.
Proof. unfold answer. intros Ha -> ->. destruct (allowRequest d uid start) as [d1 ok]. cbn [snd] in *. by subst ok. Qed.
Lemma stop_handler d : registered d → handlers d !! "helper.fs_usage.stop" = Some (method_fs_usage_stop os).
Proof. intros Hr. apply Hr. unfold methods. set_solver. Qed.
Lemma stop_answer d uid start h c : registered d → (allowRequest d uid start).2 = true → fs_sessions (state d) !! h = Some c → valid_utf8 h → h ≠ "" →
  answer d uid start "helper.fs_usage.stop" (stop_params h) = inr (trace_result (state d) h).
Proof. intros Hr Ha Hs Hv Hne. eapply answer_result; [done|by apply stop_handler|]. by eapply stop_trace. Qed.
Definition stop_request (id : Z) (h : string) : list byte := bytes_of_string (request_text id "helper.fs_usage.stop" (stop_params h)).
Lemma large_trace clock d uid id h c rest fin w : registered d → (allowRequest d uid (clock O).1).2 = true → fs_sessions (state d) !! h = Some c → valid_utf8 h → h ≠ "" →
  maxMessageSize < len (os_traceOutput os (log (state d)) h) → fits (stop_request id h) →
  ∃ d', Serve clock d (Some uid) (Reader (frame (stop_request id h) ++ rest) fin) w = Ok (w, d') ∧ fs_sessions (state d') !! h = None.
Proof.
  intros Hr Ha Hs Hv Hne Hbig Hfit. pose proof (stop_handler d Hr) as Hm.
  assert (clean_text (stop_params h)) as Hc by apply clean_any. unfold Serve. cbn [serve_go r_bytes]. change (Reader (frame ?x ++ rest) fin) with (push (frame x) (Reader rest fin)). rewrite ReadMessage_frame by done.
  pose proof (handle_request d (clock O).1 (clock O).2 uid id "helper.fs_usage.stop" (stop_params h) Hc eq_refl ltac:(done)) as Hresp.
  pose proof (handle_request_state d (clock O).1 (clock O).2 uid id "helper.fs_usage.stop" (stop_params h) _ Hc eq_refl ltac:(done) Ha Hm) as Hstate.
  fold (stop_request id h) in Hresp, Hstate. destruct (handle d _ _ uid (stop_request id h)) as [resp d']. cbn [fst snd] in *.
  rewrite (stop_answer d uid (clock O).1 h c) in Hresp by done. subst resp. fold (response_bytes (response_of id (inr (trace_result (state d) h)))). unfold WriteMessage. rewrite (proj2 (Z.ltb_lt _ _)).
  - exists d'. split; [done|]. rewrite Hstate, (stop_trace uid (state d) h c) by done. apply lookup_delete_eq.
  - eapply Z.lt_le_trans; [done|]. apply trace_response_length.
Qed.
End System.
End MethodsFacts.

(** ** Properties *)

Import MethodsFacts.

(** C5: whatever bytes callers send, as requests of any users in any order, the helper
    runs as root only the programs and arguments of its methods: samplers and
    modes from their lists, positive process identifiers, capture options that
    were checked with the packets on standard output, and a query for one bundle
    identifier without a character that could end its quotes; a request runs at
    most one of them, and all nine methods are registered. *)
Theorem helper_confined (UN : Unicode) (PR : Printable) (JE : JSONErrors) (os : OS) max win log0 :
  ∃ d, RegisterAll os (SetRateLimit (SetAuditWriter (NewDispatcher initial) log0) max win) = Ok d ∧ len (methods os) = 9 ∧
  ∀ es, ∃ cs, log (state (reacts d es)) = cs ∧ Forall permitted cs ∧ len cs <= fold_right (λ e n, is_request e + n) 0 es.
Proof.
  destruct (RegisterAll_registered os (SetRateLimit (SetAuditWriter (NewDispatcher initial) log0) max win)) as (d & Hd & _ & _ & Hs & Hr); [done|]. exists d. split; [done|]. split; [done|].
  intros es. destruct (reacts_confined os d es Hr) as (cs & Hl & HF). exists cs. by rewrite Hl, Hs.
Qed.

(** C6: a capture stays with the caller who started it: its file is in the directory
    of that caller, no request of another user but root removes it or changes it,
    whatever else is started and stopped, and a stop by another user is refused;
    the stop of the caller removes it. *)
Theorem captures_isolated (UN : Unicode) (PR : Printable) (JE : JSONErrors) (os : OS) (d : Dispatcher helperState) es es' h sess :
  registered os d → state d = initial → len (es ++ es') < 2 ^ 64 → nc_sessions (state (reacts d es)) !! h = Some sess → Forall (foreign h sess) es' →
  let s := state (reacts d (es ++ es')) in
  nc_sessions s !! h = Some sess ∧ (∃ suffix, nc_output sess = capturePath (nc_uid sess) h suffix) ∧
  (∀ uid, uid ≠ 0 → uid ≠ nc_uid sess → netCapture_stop os uid h s = (s, inl (Errorf ("helper.net_capture.stop handle " +:+ Quote h +:+ " belongs to another UID")))) ∧
  nc_sessions (netCapture_stop os (nc_uid sess) h s).1 !! h = None.
Proof.
  intros Hr H0 Hl Hin HF s. assert (nc_sessions s !! h = Some sess) as Hk by by apply (captures_kept os d es es').
  destruct (captures_ok_reacts os d (es ++ es') Hr H0 Hl) as [_ Hs]. destruct (Hs h sess Hk) as (k & suffix & _ & Hh & Ho). assert (h ≠ "") as Hne by (by rewrite Hh). split_and!; [done|by exists suffix| |].
  - intros uid H1 H2. unfold netCapture_stop. rewrite bool_decide_false, Hk by done. by rewrite !(proj2 (Z.eqb_neq _ _)).
  - unfold netCapture_stop. rewrite bool_decide_false, Hk by done. rewrite Z.eqb_refl, orb_true_r. cbn [negb]. destruct (os_captureDone os (log s)) as [[[w [f|]] size]|]; apply lookup_delete_eq.
Qed.

(** Unlike captures, traces are not tied to callers: the stop of any user ends a
    trace and returns its output; and when the output is larger than a message
    can be, the stop removes the trace and the connection is closed without a
    response, so that the output is lost. *)
Theorem traces_shared_and_lost (UN : Unicode) (PR : Printable) (JE : JSONErrors) (os : OS) (d : Dispatcher helperState) clock uid id h c rest fin w :
  registered os d → (allowRequest d uid (clock O).1).2 = true → fs_sessions (state d) !! h = Some c → valid_utf8 h → h ≠ "" → fits (stop_request id h) →
  answer d uid (clock O).1 "helper.fs_usage.stop" (stop_params h) = inr (trace_result os (state d) h) ∧
  ("raw_output", VString (string_of_bytes (os_traceOutput os (log (state d)) h))) ∈ trace_result os (state d) h ∧
  (maxMessageSize < len (os_traceOutput os (log (state d)) h) →
   ∃ d', Serve clock d (Some uid) (Reader (frame (stop_request id h) ++ rest) fin) w = Ok (w, d') ∧ fs_sessions (state d') !! h = None).
Proof.
  intros Hr Ha Hs Hv Hne Hfit. split_and!.
  - by apply (stop_answer os d uid (clock O).1 h c).
  - apply elem_of_app. left. set_solver.
  - intros Hbig. by apply (large_trace os clock d uid id h c).
Qed.

(** *** Witnesses *)

(** A machine on which everything is granted, and whose traces are large. *)
Definition demo_OS : OS := {|
  os_run := λ _ _, inr []; os_start := λ _ _, None; os_random := λ _, inr []; os_ensureDir := λ _, None; os_createFile := λ _, None; os_discard := λ _, [];
  os_traceDone := λ _, true; os_traceOutput := λ _ _, replicate (Z.to_nat (maxMessageSize + 1)) "x"%byte; os_captureDone := λ _, None |}.
#[local] Existing Instances ascii_only ascii_printable demo_errors.
Definition demo_helper : Dispatcher helperState := match RegisterAll demo_OS (NewDispatcher initial) with Ok d => d | _ => NewDispatcher initial end.
Lemma demo_registered : registered demo_OS demo_helper ∧ state demo_helper = initial.
Proof. unfold demo_helper. destruct (RegisterAll_registered demo_OS (NewDispatcher initial)) as (d & -> & _ & _ & Hs & Hr); [done|]. by split. Qed.
Definition demo_start : event := Requested 501 0 0 (bytes_of_string (request_text 1 "helper.net_capture.start" (any_text [("interface", VString "en0"); ("duration_ms", VInt 1000)]))).
Definition demo_steal : event := Requested 502 1 1 (bytes_of_string (request_text 1 "helper.net_capture.stop" (any_text [("handle", VString "netcap-1")]))).
Definition demo_session : netCaptureSession := {| nc_output := "/var/tmp/spectra-netcap/501/netcap-1-.pcap"; nc_uid := 501 |}.
Lemma captures_isolated_witness : nc_sessions (state (reacts demo_helper [demo_start; demo_steal])) !! "netcap-1" = Some demo_session.
Proof.
  apply (captures_isolated ascii_only ascii_printable demo_errors demo_OS demo_helper [demo_start] [demo_steal] "netcap-1" demo_session); [apply demo_registered..|done|by vm_compute|].
  apply Forall_cons_2; [done|apply Forall_nil_2].
Defined.

Definition demo_trace : Dispatcher helperState := react demo_helper
  (Requested 501 0 0 (bytes_of_string (request_text 1 "helper.fs_usage.start" (any_text [("pid", VInt 42)])))).
Lemma traces_shared_and_lost_witness : ∃ d', Serve (λ _, (1, 1)) demo_trace (Some 502) (Reader (frame (stop_request 2 "fsu-1") ++ []) io_EOF) (open_writer []) = Ok (open_writer [], d') ∧
  fs_sessions (state d') !! "fsu-1" = None.
Proof.
  apply (traces_shared_and_lost ascii_only ascii_printable demo_errors demo_OS demo_trace (λ _, (1, 1)) 502 2 "fsu-1" {| cmd_name := "fs_usage"; cmd_args := ["-w"; "-f"; "filesys"; "42"] |});
    [apply react_registered, demo_registered|by vm_compute|by vm_compute|by vm_compute|done|by vm_compute|].
  cbn [demo_OS os_traceOutput]. unfold len. rewrite length_replicate. by vm_compute.
Defined.
